(* ===== verification/_CoqProject ===== *)
-Q . S2P
Prelude.v
Digest.v
Numeric.v
DecimalText.v
Json.v
Calendar.v
Models.v
Rules.v
Engine.v
EngineTheorems.v
Stream.v
StreamTheorems.v
StreamProgress.v
Observation.v
ObservationTheorems.v
Stability.v
Attribution.v
Floats.v
Latency.v
Assignment.v
Hungarian.v
Resolve.v
AssignTheorems.v
CorrelateUnion.v
Topology.v
Dedup.v
Exact.v
Harness.v
ExactPath.v
AnalyzeRun.v
Regex.v
ObiLog.v
Multihop.v
CorrelateByDuration.v
H1Timestamps.v
Freezes.v
Timing.v
TimingTheorems.v
TimingPath.v
Calibrate.v
FlowTimed.v
Flow.v
FlowTheorems.v
FlowSound.v
FlowProgress.v
FlowSettles.v
FlowLate.v
FlowExact.v
Simulate.v
SimulateFlow.v
SimulateScored.v
ReplayCell.v
Provenance.v
ProvenanceTheorems.v
Camt053.v
