(* ===== verification/Prelude.v ===== *)
(** * reconcileflow: verification library -- root and prelude

    reconcileflow matches two sides of financial records, follows them as a stream, and
    correlates observations of a distributed system.  Its Python package
    (src/src/reconcileflow) is deterministic by design: pure functions over records, and
    journals replayed into append-only histories.  The scripts of src/m0-harness judge the
    matching methods against known pairs.  This library models every module of the package
    and the scripts that decide something as executable definitions -- each can be run by
    [vm_compute] -- and proves what they promise.

    ** Parts, files and how they fit

    Shared ground, used by every other file:
    - [Prelude] (this file): results ([res], exceptions as values), comparison and stable
      sorting as Python defines them, ordered dictionaries, sums over lists, text helpers,
      and the lemmas, tactics and hints the components share;
    - [Digest]: SHA-256, hexadecimal digests, U+001F-joined fingerprints;
    - [Numeric] (numeric.py): [decimal.Decimal] at 28 digits, half-even, with the rational
      value of a decimal and the rounding lemmas; [DecimalText]: [str] and [Decimal(text)];
    - [Json], [Calendar]: the parts of json and datetime the package uses, with their
      round trips.

    Matching: [Models] (models.py: records, decisions, fingerprints), [Rules] (rules.py:
    candidate generators and scores), [Engine] and [EngineTheorems] (engine.py: blocking,
    greedy resolution, audit).  [reconcile] calls the rules in order on each block.

    Stream: [Stream], [StreamTheorems], [StreamProgress] (stream.py).  A journal feeds
    [_Replay]; each affected block is evaluated by [reconcile], split into components and
    settled below the watermark.  [Observation], [ObservationTheorems] (observation.py)
    count the final decisions of a replay and judge them by Wilson bounds.

    Provenance: [Provenance], [ProvenanceTheorems] (provenance.py) store raw events,
    canonical records and runs of [reconcile]; [Camt053] (adapters/camt053.py) turns bank
    statements into canonical records, evidence first.

    Correlation: [Assignment], [Hungarian], [Resolve], [AssignTheorems]
    (correlation/assignment.py), [CorrelateUnion] (m0-harness/correlate_union.py,
    events near in time whose durations the tolerant rule accepts, decided by [assign]), [Topology] (topology.py), [Dedup] and [Exact] (exact.py), [Timing], [TimingTheorems]
    (timing.py, which calls [assign]), [FlowTimed] (flow_timed.py, a timed hop decided on
    the fly) and [Flow] (flow.py, which replays observations through exact joins and timed
    joins into decisions and dossiers).  [FlowTheorems] has the histories, [FlowSound] what
    a decision says, [FlowProgress] and [FlowSettles] that a replay answers and settles,
    [FlowLate] which observations it calls late, and [FlowExact] that a settled replay gives
    the links of the batch exact path.

    Protocol gates: [Stability], [Attribution] (m0/stability.py, m0/attribution.py),
    [Latency] (m0/latency.py, on binary64 floats: [Floats]).

    Harness: [Harness] (the rows and pairs the scripts read), [ExactPath] (exact_path.py),
    [TimingPath] (timing_path.py), [Calibrate] (calibrate_timing.py), [AnalyzeRun]
    (analyze_run.py, hn_analyze.py) place observations on a topology, run the correlation
    above on them, and score its answers.  [Regex] is the matcher of Python's [re]; with it
    [ObiLog] and [Multihop] (analyze_obi_log.py, analyze_multihop.py) read the lines of the
    agent's text printer, count them and score a point from them, and [CorrelateByDuration]
    (correlate_by_duration.py) matches their durations through the engine.  [H1Timestamps]
    and [Freezes] (h1_timestamps.py, freezes.py) judge the times that a run measured.
    [Simulate], [SimulateFlow] and [SimulateScored] (simulate_flow.py) make a flow of their
    own and replay it, and [ReplayCell] (replay_cell.py) delivers a kept run as a journal
    and replays that.

    A class that keeps state is a record and its methods return the next state; a function
    that can raise returns a [res].  Definitions keep the names of the source; a loop body
    or a nested function that has no name in the source has one here.

    ** What the theorems show

    - Equivalence and order: the result of [reconcile] does not depend on the order of its
      input; exact and timing links, the stability verdict and series do not either;
      redelivered observations change nothing in a flow.
    - Resolution: no admissible match is left out unless a preferred one holds its
      records; each left record is matched or explained, once, never both; every reject
      states a true reason; scores keep the order of the rules.
    - Assignment: the matching found costs least, and a record is decided exactly when all
      near-optimal matchings agree on it; a timed hop of any size gets an answer that
      accounts for both of its sides.
    - Flow: a decision names a join, a key and a value that its observation and its
      partners were delivered with; without timed joins a replay returns for exactly the
      deliverable journals, and every decision is final once the sources have been told
      past what was delivered; an observation is late only if it came behind the progress
      of its source, and a settled flow and the batch path agree on every link.
    - Histories: chains are numbered without gaps, nothing follows a FINAL decision, old
      decisions never change, components are the connected components of the links, and
      once both sides have reported progress past every horizon every record is final.
    - Store: records, dates, decimals and documents round-trip; reads detect tampering; a
      stored run replays to the same result after any later operations; ingestion commits
      the evidence whatever happens next.
    - Declarations: a topology that loads is safe for every rule, and each hop gets the
      strongest link its evidence allows.
    - Evidence and gates: intervals are defined and bounded; verdicts are computed from
      exactly the counts they name; a decision is robust exactly when no move of an axis
      within its band changes it; the latency gate decides by counting.
    - Harness: each script's counts are those of the answers against the pairs, outcome by
      outcome; no HTTP line of the text printer disappears from the counts;
      the windows of durations match what they propose, best first; the widths that a calibration chooses cover what it was shown; a wrong exact
      link of a simulated flow has a swap or a reused value behind it, and its run counts
      every duplicate and finds every late delivery; a kept run that loads is replayed and
      its row counts, join by join, what was decided.

    ** Fuel and bounds

    The loops Python writes with [while] or recursion have fuel that is shown to be enough:
    [augment] n + 2 and [grow] n + 1 steps for a matrix of size n ([Hungarian]);
    [settle_loop] one round per open record ([Stream]); [walk] the number of
    open vertices, [gather] one more than the open observations ([Assignment], [Flow]);
    JSON reading one unit per character ([Json]).  [root] of stream.py recurses once per
    link of a chain and does not shorten chains, so CPython's recursion limit is reached by
    a block of about a thousand linked records.  The depth that the interpreter leaves is a
    parameter of [replay] ([s_depth]), [root] raises [RecursionError] below it, and the
    theorems that promise a result ask that no block of the journal has more records than
    that; more depth never changes an answer.  The other recursive functions of the source
    go no deeper than the nesting of their data.  [replay_total], [flow_accepts],
    [assign_total], [reconcile_total] and [loads_dumps] are stated on the results, so a loop cut short would
    refute them.  Sizes are bounded where a rounding matters: 10^20 records or entries (a
    score is quantized at 28 digits), 2^40 latency signals,
    chains of at most five hops in the lab and simulation scripts.

    ** Not modelled

    - NaN, infinities and the exponent limits of decimals; dates outside years 1 to 9999
      raise in Python and are unbounded ordinals here, except where text is read.
    RecursionError and MemoryError, except for [root] of stream.py.
    - Values of another type than the declared one (their checks are carried by types).
    - The interpolated part of exception messages; which of several errors in a set or a
      dict is raised first; the iteration order of Python sets, where the source sorts.
    - Text that only [repr] or the package metadata provide (parameters), the TOML and XML
      parsers (their trees are the input), [heapq]'s layout (a sorted list of entries).
    - SQLite's file, locking and concurrent writers: one store, one operation at a time.
    - Regular expressions run on bytes: the classes are those of ASCII.
    - Of the harness: files, arguments and printing; JSON numbers with a fraction and
      repeated JSON keys; the text of the generated topologies and of the reports; the
      clock; the CPU samples of freezes.py; the synthetic benchmark (bench_assignment.py),
      the tool that drives mutmut and the demonstration of the store.
    - Liveness of timed joins ([flow_accepts] and [flow_settles] are about recorded values;
      [flow_chains], [flow_final] and [flow_decisions_true] include timed joins). *)

From Stdlib Require Export ZArith Lia String Ascii.
From stdpp Require Export prelude gmap sets list sorting strings.

Declare Scope rf_scope.
Delimit Scope rf_scope with rf.
Create HintDb rf.
Create HintDb rf_simpl.
Open Scope Z_scope.
Open Scope list_scope.
Set Default Goal Selector "!".

(** ** Results: a Python call returns a value or raises *)

(** The exceptions the modelled code can raise.  Messages are kept up to their
    fixed part (no interpolated value), which is enough to tell the checks
    apart. *)
Inductive exn : Type :=
| ValueError (what : string)
| InvalidOperation   (* decimal.InvalidOperation *)
| DivisionByZero     (* decimal.DivisionByZero *)
| ZeroDivisionError
| RecursionError
| LookupError (what : string)
| ParseError (what : string)   (* ElementTree.ParseError, a SyntaxError *)
| KeyError
| TypeError
| IndexError
| AssertionError (what : string)
| AttributeError
| StopIteration
| OutOfFuel.         (* not Python's: a bounded loop of the model was cut short *)

Inductive res (A : Type) : Type :=
| Ok (a : A)
| Raise (e : exn).
Arguments Ok {A} a.
Arguments Raise {A} e.

Global Instance res_ret : MRet res := @Ok.
Global Instance res_bind : MBind res := λ A B f m,
  match m with Ok a => f a | Raise e => Raise e end.
Global Instance res_fmap : FMap res := λ A B f m,
  match m with Ok a => Ok (f a) | Raise e => Raise e end.

(** [if not b: raise e] *)
Definition check (b : bool) (e : exn) : res unit := if b then Ok tt else Raise e.

(** [d[k]] on a dict: raises [KeyError] when the key is absent. *)
Definition get {A} (o : option A) (e : exn) : res A :=
  match o with Some a => Ok a | None => Raise e end.

(** A Python [for] loop that collects one value per element. *)
Fixpoint map_res {A B} (f : A → res B) (l : list A) : res (list B) :=
  match l with
  | [] => Ok []
  | x :: l => y ← f x; ys ← map_res f l; Ok (y :: ys)
  end.

(** A Python [for] loop over a state. *)
Fixpoint fold_res {A S} (f : S → A → res S) (l : list A) (s : S) : res S :=
  match l with
  | [] => Ok s
  | x :: l => s' ← f s x; fold_res f l s'
  end.

(** ** Comparison, as Python compares (and sorts) values *)

Class Cmp (A : Type) := cmp : A → A → comparison.
#[global] Hint Mode Cmp ! : typeclass_instances.

(** A total preorder: what [sorted] needs from its keys. *)
Class TotalCmp (A : Type) `{Cmp A} : Prop := {
  cmp_antisym (x y : A) : cmp y x = CompOpp (cmp x y);
  cmp_le_trans (x y z : A) : cmp x y ≠ Gt → cmp y z ≠ Gt → cmp x z ≠ Gt
}.
#[global] Hint Mode TotalCmp ! - : typeclass_instances.

(** Keys that compare equal are equal. *)
Class StrictCmp (A : Type) `{Cmp A} : Prop :=
  cmp_eq (x y : A) : cmp x y = Eq → x = y.
#[global] Hint Mode StrictCmp ! - : typeclass_instances.

Definition leb {A} `{Cmp A} (x y : A) : bool :=
  match cmp x y with Gt => false | _ => true end.
Definition ltb {A} `{Cmp A} (x y : A) : bool :=
  match cmp x y with Lt => true | _ => false end.
Definition cmp_le {A} `{Cmp A} (x y : A) : Prop := cmp x y ≠ Gt.

(** Comparison through a key. *)
Definition cmp_on {A K} `{Cmp K} (key : A → K) : Cmp A := λ x y, cmp (key x) (key y).

Global Instance Z_cmp : Cmp Z := Z.compare.
Global Instance nat_cmp : Cmp nat := Nat.compare.
Global Instance string_cmp : Cmp string := String.compare.
Global Instance bool_cmp : Cmp bool := λ a b,
  match a, b with
  | false, true => Lt | true, false => Gt | _, _ => Eq end.

(** Tuples: the first component that differs decides. *)
Definition lex (c d : comparison) : comparison := match c with Eq => d | _ => c end.
Global Instance prod_cmp {A B} `{Cmp A, Cmp B} : Cmp (A * B) := λ x y,
  lex (cmp x.1 y.1) (cmp x.2 y.2).

(** Tuples of any length and lists: lexicographic, a proper prefix is smaller. *)
Fixpoint list_cmp_aux {A} `{Cmp A} (l k : list A) : comparison :=
  match l, k with
  | [], [] => Eq
  | [], _ :: _ => Lt
  | _ :: _, [] => Gt
  | x :: l, y :: k => lex (cmp x y) (list_cmp_aux l k)
  end.
Global Instance list_cmp {A} `{Cmp A} : Cmp (list A) := list_cmp_aux.

(** ** [sorted(l, key=...)]: stable *)

Fixpoint insert_by {A K} `{Cmp K} (key : A → K) (x : A) (l : list A) : list A :=
  match l with
  | [] => [x]
  | y :: l' => if leb (key x) (key y) then x :: l else y :: insert_by key x l'
  end.
Definition sorted_by {A K} `{Cmp K} (key : A → K) (l : list A) : list A :=
  foldr (insert_by key) [] l.
Definition sorted {A} `{Cmp A} (l : list A) : list A := sorted_by (λ x, x) l.

(** ** [itertools.combinations(l, k)]: in lexicographic order of positions *)

Fixpoint combinations {A} (l : list A) (k : nat) : list (list A) :=
  match k, l with
  | O, _ => [[]]
  | S _, [] => []
  | S k', x :: l' => map (cons x) (combinations l' k') ++ combinations l' k
  end.

(** [max(l)] / [min(l)] of a non-empty list given by its head and tail. *)
Definition max_of (x : Z) (l : list Z) : Z := foldl Z.max x l.
Definition min_of (x : Z) (l : list Z) : Z := foldl Z.min x l.

(** [range(a, b)] *)
Definition range (a b : Z) : list Z := (λ i, a + Z.of_nat i) <$> seq 0 (Z.to_nat (b - a)).

(** A [dict] whose iteration order matters: keys are kept in insertion order. *)
Notation odict K A := (list (K * A)) (only parsing).
Fixpoint od_get {K A} `{EqDecision K} (k : K) (d : odict K A) : option A :=
  match d with
  | [] => None
  | (k', a) :: d' => if decide (k = k') then Some a else od_get k d'
  end.
(** [d[k] = a]: a new key goes last, a known one keeps its place. *)
Fixpoint od_set {K A} `{EqDecision K} (k : K) (a : A) (d : odict K A) : odict K A :=
  match d with
  | [] => [(k, a)]
  | (k', a') :: d' => if decide (k = k') then (k, a) :: d' else (k', a') :: od_set k a d'
  end.
(** [d.pop(k)] of a key that is present. *)
Fixpoint od_del {K A} `{EqDecision K} (k : K) (d : odict K A) : odict K A :=
  match d with
  | [] => []
  | (k', a') :: d' => if decide (k = k') then d' else (k', a') :: od_del k d'
  end.

(** [sep.join(parts)] *)
Fixpoint join (sep : string) (parts : list string) : string :=
  match parts with
  | [] => ""
  | [p] => p
  | p :: ps => p +:+ sep +:+ join sep ps
  end%string.

(** [str(n)] of an integer, in base 10. *)
Definition digit (n : N) : ascii := ascii_of_N (48 + n).
Fixpoint digits_fuel (fuel : nat) (n : N) (acc : string) : string :=
  match fuel with
  | O => acc
  | S f => let acc' := String (digit (n mod 10)%N) acc in
           if (n <? 10)%N then acc' else digits_fuel f (n / 10)%N acc'
  end.
(** Base 2 length bounds base 10 length, so the fuel is never exhausted. *)
Definition str_N (n : N) : string := digits_fuel (S (N.to_nat (N.size n))) n "".
Definition str_Z (z : Z) : string :=
  if z <? 0 then String "-" (str_N (Z.abs_N z)) else str_N (Z.to_N z).

(** [bisect.bisect_left(l, x)], [bisect.bisect_right(l, x)] of a sorted list: the
    elements before [x], without and with those equal to it. *)
Fixpoint take_while {A} (p : A → bool) (l : list A) : list A :=
  match l with [] => [] | x :: l => if p x then x :: take_while p l else [] end.
Definition bisect_left {A} `{Cmp A} (l : list A) (x : A) : nat :=
  length (take_while (λ y, ltb y x) l).
Definition bisect_right {A} `{Cmp A} (l : list A) (x : A) : nat :=
  length (take_while (λ y, leb y x) l).
(** [bisect.insort(l, x)] *)
Definition insort {A} `{Cmp A} (x : A) (l : list A) : list A :=
  let i := bisect_right l x in take i l ++ x :: drop i l.
(** [l[i:j]] *)
Definition slice {A} (i j : nat) (l : list A) : list A := take (j - i) (drop i l).

(** [f"{n:0<w>d}"] of a natural number. *)
Definition zero_padded (w : nat) (n : N) : string :=
  let s := str_N n in
  string_of_list_ascii (replicate (w - String.length s) "0"%char) +:+ s.

(** ** Lemmas: results *)

Lemma bind_Ok {A B} (m : res A) (f : A → res B) b :
  (m ≫= f) = Ok b ↔ ∃ a, m = Ok a ∧ f a = Ok b.
Proof. destruct m; simpl; naive_solver. Qed.

Lemma fmap_Ok {A B} (m : res A) (f : A → B) b :
  (f <$> m) = Ok b ↔ ∃ a, m = Ok a ∧ b = f a.
Proof. destruct m; simpl; naive_solver. Qed.

Lemma check_Ok b e u : check b e = Ok u ↔ b = true.
Proof. destruct b, u; naive_solver. Qed.

Lemma get_Ok {A} (o : option A) e a : get o e = Ok a ↔ o = Some a.
Proof. destruct o; naive_solver. Qed.

(** Break every monadic bind in the context into its steps. *)
Ltac inv_res :=
  repeat match goal with
  | H : (_ ≫= _) = Ok _ |- _ => apply bind_Ok in H as (? & ? & H)
  | H : (_ <$> _) = Ok _ |- _ => apply fmap_Ok in H as (? & ? & H)
  | H : check _ _ = Ok _ |- _ => apply check_Ok in H
  | H : get _ _ = Ok _ |- _ => apply get_Ok in H
  | H : Ok _ = Ok _ |- _ => injection H as H
  | H : mret _ = Ok _ |- _ => injection H as H
  | H : Raise _ = Ok _ |- _ => discriminate H
  end.

Lemma map_res_Forall2 {A B} (f : A → res B) l k :
  map_res f l = Ok k ↔ Forall2 (λ x y, f x = Ok y) l k.
Proof.
  revert k; induction l as [|x l IH]; intros k; simpl.
  - split; [intros [= <-]; constructor | by inversion 1].
  - split.
    + intros H; inv_res; subst. constructor; [done|]. by apply IH.
    + inversion 1; subst. apply bind_Ok; eexists; split; [done|].
      apply bind_Ok; eexists; split; [by apply IH | done].
Qed.

Lemma map_res_total {A B} (f : A → res B) l :
  (∀ x, x ∈ l → ∃ y, f x = Ok y) → ∃ k, map_res f l = Ok k.
Proof.
  induction l as [|x l IH]; intros H; simpl; [eauto|].
  destruct (H x) as [y ->]; [left|]. simpl.
  destruct IH as [k ->]; [intros; apply H; by right|]. simpl; eauto.
Qed.

(** A loop whose body never raises is a map. *)
Lemma map_res_fmap {A B} (f : A → res B) (g : A → B) l : (∀ x, x ∈ l → f x = Ok (g x)) → map_res f l = Ok (g <$> l).
Proof.
  induction l as [|x l IH]; intros H; [done|]. cbn [map_res]. rewrite H by left. cbn [mbind res_bind].
  rewrite IH; [done|]. intros; apply H; by right.
Qed.

(** An invariant of the state is an invariant of the loop. *)
Lemma fold_res_ind {A S} (P : S → Prop) (f : S → A → res S) l s s' :
  P s → (∀ x s1 s2, x ∈ l → P s1 → f s1 x = Ok s2 → P s2) →
  fold_res f l s = Ok s' → P s'.
Proof.
  revert s; induction l as [|x l IH]; intros s Hs Hf; simpl.
  - by intros [= <-].
  - intros H; inv_res. eapply IH; [| |done].
    + eapply Hf; [left|done|done].
    + intros; eapply Hf; [by right|done|done].
Qed.

(** Two bodies that agree on the elements of the list agree on the loop. *)
Lemma fold_res_ext {A S} (f g : S → A → res S) l s :
  (∀ s x, x ∈ l → f s x = g s x) → fold_res f l s = fold_res g l s.
Proof.
  revert s; induction l as [|x l IH]; intros s H; simpl; [done|].
  rewrite (H s x) by left. destruct (g s x); simpl; [|done].
  apply IH. intros; apply H; by right.
Qed.

(** A loop whose body answers wherever another's does, and alike. *)
Lemma fold_res_sub {A S} (f g : S → A → res S) l s s' :
  (∀ s x s', f s x = Ok s' → g s x = Ok s') → fold_res f l s = Ok s' → fold_res g l s = Ok s'.
Proof.
  intros Hfg. revert s; induction l as [|x l IH]; intros s H; simpl in *; [done|].
  apply bind_Ok in H as (s1 & H1 & H). rewrite (Hfg _ _ _ H1). by apply IH.
Qed.

Lemma fold_res_total {A S} (f : S → A → res S) l s :
  (∀ s x, x ∈ l → ∃ s', f s x = Ok s') → ∃ s', fold_res f l s = Ok s'.
Proof.
  revert s; induction l as [|x l IH]; intros s H; simpl; [eauto|].
  destruct (H s x ltac:(left)) as [s' ->]. simpl. apply IH. intros; apply H; by right.
Qed.

Lemma fold_res_app {A S} (f : S → A → res S) l k s :
  fold_res f (l ++ k) s = (fold_res f l s ≫= fold_res f k).
Proof.
  revert s; induction l as [|x l IH]; intros s; simpl; [done|].
  destruct (f s x); simpl; [apply IH|done].
Qed.

(** ** Lemmas: comparison *)

Section cmp.
Context {A : Type} `{TotalCmp A}.
Implicit Types x y z : A.

Lemma cmp_refl x : cmp x x = Eq.
Proof. pose proof (cmp_antisym x x). by destruct (cmp x x). Qed.

Lemma cmp_eq_sym x y : cmp x y = Eq → cmp y x = Eq.
Proof. intros E. by rewrite cmp_antisym, E. Qed.

Lemma cmp_le_eq_l x y z : cmp x y = Eq → cmp x z = cmp y z.
Proof.
  intros E. pose proof (cmp_eq_sym _ _ E) as E'.
  pose proof (cmp_le_trans x y z) as H1. pose proof (cmp_le_trans y x z) as H2.
  pose proof (cmp_le_trans z x y) as H3. pose proof (cmp_le_trans z y x) as H4.
  rewrite E, E' in *. rewrite (cmp_antisym x z), (cmp_antisym y z) in *.
  destruct (cmp x z), (cmp y z); simpl in *; try done; exfalso; intuition congruence.
Qed.

Lemma cmp_le_eq_r x y z : cmp y z = Eq → cmp x y = cmp x z.
Proof.
  intros E. rewrite (cmp_antisym y x), (cmp_antisym z x). f_equal. by apply cmp_le_eq_l.
Qed.

Lemma cmp_lt_le_trans x y z : cmp x y = Lt → cmp y z ≠ Gt → cmp x z = Lt.
Proof.
  intros L Hle. destruct (cmp x z) eqn:E; [|done|].
  - exfalso. apply cmp_eq_sym in E. apply Hle.
    rewrite (cmp_le_eq_r y z x E), (cmp_antisym x y), L. done.
  - exfalso. assert (cmp x y ≠ Gt) as Hxy by (rewrite L; done).
    by apply (cmp_le_trans x y z Hxy Hle).
Qed.

Lemma leb_le x y : leb x y = true ↔ cmp_le x y.
Proof. unfold leb, cmp_le. destruct (cmp x y); naive_solver. Qed.

Lemma leb_false x y : leb x y = false ↔ cmp x y = Gt.
Proof. unfold leb. destruct (cmp x y); naive_solver. Qed.

Lemma cmp_le_total x y : cmp_le x y ∨ cmp_le y x.
Proof. unfold cmp_le. rewrite (cmp_antisym x y). destruct (cmp x y); simpl; naive_solver. Qed.

Lemma cmp_le_antisym `{!StrictCmp A} x y : cmp_le x y → cmp_le y x → x = y.
Proof.
  unfold cmp_le. rewrite (cmp_antisym x y). intros H1 H2.
  apply cmp_eq. destruct (cmp x y); simpl in *; congruence.
Qed.
End cmp.

Global Instance cmp_le_preorder {A} `{TotalCmp A} : PreOrder (@cmp_le A _).
Proof.
  split; [intros x; unfold cmp_le; by rewrite cmp_refl|].
  intros x y z; apply cmp_le_trans.
Qed.

Global Instance cmp_le_anti {A} `{TotalCmp A, !StrictCmp A} : AntiSymm (=) (@cmp_le A _).
Proof. intros x y. apply cmp_le_antisym. Qed.

Lemma cmp_on_total {A K} (c : Cmp K) (t : @TotalCmp K c) (key : A → K) :
  @TotalCmp A (@cmp_on A K c key).
Proof.
  split; intros; unfold cmp, cmp_on in *; [apply cmp_antisym | eapply cmp_le_trans; eauto].
Qed.

Global Instance Z_total : TotalCmp Z.
Proof.
  split; unfold cmp, Z_cmp; intros x y; [apply Z.compare_antisym|].
  intros z H1 H2 H3. apply Z.compare_gt_iff in H3. rewrite Z.compare_ngt_iff in *. lia.
Qed.
Global Instance Z_strict : StrictCmp Z.
Proof. intros x y. apply Z.compare_eq. Qed.
Global Instance nat_total : TotalCmp nat.
Proof.
  split; unfold cmp, nat_cmp; intros x y; [apply Nat.compare_antisym|].
  intros z H1 H2 H3. apply Nat.compare_gt_iff in H3. rewrite Nat.compare_ngt_iff in *. lia.
Qed.
Global Instance nat_strict : StrictCmp nat.
Proof. intros x y. apply Nat.compare_eq. Qed.
Global Instance bool_total : TotalCmp bool.
Proof. split; [intros [] []; done | intros [] [] []; done]. Qed.
Global Instance bool_strict : StrictCmp bool.
Proof. intros [] []; done. Qed.

Lemma lex_not_Gt c d : lex c d ≠ Gt ↔ c = Lt ∨ (c = Eq ∧ d ≠ Gt).
Proof. destruct c, d; simpl; naive_solver. Qed.

Lemma CompOpp_lex c d : CompOpp (lex c d) = lex (CompOpp c) (CompOpp d).
Proof. by destruct c. Qed.

Lemma cmp_pair {A B} `{Cmp A, Cmp B} (x1 y1 : A) (x2 y2 : B) :
  cmp (x1, x2) (y1, y2) = lex (cmp x1 y1) (cmp x2 y2).
Proof. done. Qed.
Lemma cmp_cons {A} `{Cmp A} (x y : A) l k :
  cmp (x :: l) (y :: k) = lex (cmp x y) (cmp l k).
Proof. done. Qed.

Global Instance prod_total {A B} `{TotalCmp A, TotalCmp B} : TotalCmp (A * B).
Proof.
  split.
  - intros [x1 x2] [y1 y2]. rewrite !cmp_pair, CompOpp_lex. f_equal; apply cmp_antisym.
  - intros [x1 x2] [y1 y2] [z1 z2]. rewrite !cmp_pair, !lex_not_Gt.
    intros [L|[E L]] [L'|[E' L']].
    + left. eapply cmp_lt_le_trans; [done|]. by rewrite L'.
    + left. by rewrite <- (cmp_le_eq_r x1 y1 z1 E').
    + left. by rewrite (cmp_le_eq_l x1 y1 z1 E).
    + right. split; [by rewrite (cmp_le_eq_l x1 y1 z1 E)|]. eapply cmp_le_trans; eauto.
Qed.
Global Instance prod_strict {A B} `{StrictCmp A, StrictCmp B} : StrictCmp (A * B).
Proof.
  intros [x1 x2] [y1 y2]. rewrite cmp_pair.
  destruct (cmp x1 y1) eqn:E1; simpl; [|done..]. intros E2.
  by rewrite (cmp_eq _ _ E1), (cmp_eq _ _ E2).
Qed.

Global Instance list_total {A} `{TotalCmp A} : TotalCmp (list A).
Proof.
  split.
  - intros x; induction x as [|a x IH]; intros [|b y]; try done.
    rewrite !cmp_cons, CompOpp_lex. f_equal; [apply cmp_antisym | apply IH].
  - intros x; induction x as [|a x IH]; intros [|b y] [|c z]; try done.
    rewrite !cmp_cons, !lex_not_Gt. intros [L|[E L]] [L'|[E' L']].
    + left. eapply cmp_lt_le_trans; [done|]. by rewrite L'.
    + left. by rewrite <- (cmp_le_eq_r a b c E').
    + left. by rewrite (cmp_le_eq_l a b c E).
    + right. split; [by rewrite (cmp_le_eq_l a b c E)|]. by eapply IH.
Qed.
Global Instance list_strict {A} `{StrictCmp A} : StrictCmp (list A).
Proof.
  intros x; induction x as [|a x IH]; intros [|b y]; try done.
  rewrite cmp_cons. destruct (cmp a b) eqn:E; simpl; [|done..]. intros E'.
  by rewrite (cmp_eq _ _ E), (IH _ E').
Qed.

(** Strings compare as the lists of their character codes. *)
Lemma string_cmp_codes s t :
  String.compare s t = cmp (Z.of_N ∘ N_of_ascii <$> list_ascii_of_string s)
                           (Z.of_N ∘ N_of_ascii <$> list_ascii_of_string t).
Proof.
  revert t; induction s as [|a s IH]; intros [|b t]; try done.
  cbn [list_ascii_of_string String.compare]. rewrite !fmap_cons, cmp_cons, <- IH.
  unfold cmp, Z_cmp, Ascii.compare, compose.
  rewrite <- N2Z.inj_compare. by destruct (Z.of_N (N_of_ascii a) ?= Z.of_N (N_of_ascii b)).
Qed.
Global Instance string_total : TotalCmp string.
Proof.
  split; unfold cmp, string_cmp; intros *; rewrite !string_cmp_codes;
    [apply cmp_antisym | apply cmp_le_trans].
Qed.
Global Instance string_strict : StrictCmp string.
Proof. intros x y. unfold cmp, string_cmp. apply String.compare_eq_iff. Qed.

(** ** Lemmas: stable sorting by a key *)

Section sort.
Context {A K : Type} `{TotalCmp K} (key : A → K).
Implicit Types (x y : A) (l k : list A).

Definition key_le x y : Prop := cmp_le (key x) (key y).

Lemma insert_by_perm x l : insert_by key x l ≡ₚ x :: l.
Proof.
  induction l as [|y l IH]; simpl; [done|].
  case_match; [done|]. rewrite IH. apply Permutation_swap.
Qed.

Lemma sorted_by_perm l : sorted_by key l ≡ₚ l.
Proof. induction l as [|x l IH]; simpl; [done|]. by rewrite insert_by_perm, IH. Qed.

Lemma elem_of_sorted_by x l : x ∈ sorted_by key l ↔ x ∈ l.
Proof. by rewrite sorted_by_perm. Qed.

Lemma length_sorted_by l : length (sorted_by key l) = length l.
Proof. by rewrite sorted_by_perm. Qed.

Lemma insert_by_sorted x l :
  StronglySorted key_le l → StronglySorted key_le (insert_by key x l).
Proof.
  induction 1 as [|y l Hl IH Hy]; simpl; [repeat constructor|].
  destruct (leb (key x) (key y)) eqn:E.
  - apply leb_le in E. constructor; [by constructor|]. constructor; [done|].
    eapply Forall_impl; [done|]. intros z Hz. unfold key_le in *. by etrans.
  - apply leb_false in E. constructor; [done|].
    rewrite insert_by_perm. constructor; [|done].
    unfold key_le, cmp_le. rewrite cmp_antisym, E. done.
Qed.

Lemma sorted_by_sorted l : StronglySorted key_le (sorted_by key l).
Proof. induction l as [|x l IH]; simpl; [constructor | by apply insert_by_sorted]. Qed.

(** With distinct keys there is one sorted arrangement only. *)
Lemma sorted_unique `{!StrictCmp K} l k :
  l ≡ₚ k → NoDup (key <$> l) →
  StronglySorted key_le l → StronglySorted key_le k → l = k.
Proof.
  intros Hp Hnd Hl. revert k Hp Hnd. induction Hl as [|x l Hl IH Hx]; intros k Hp Hnd Hk.
  { by apply Permutation_nil_l in Hp. }
  destruct Hk as [|y k Hk Hy]; [by apply Permutation_nil_r in Hp|].
  assert (x = y) as ->.
  { assert (x ∈ y :: k) as Hin by (rewrite <- Hp; left).
    assert (y ∈ x :: l) as Hin' by (rewrite Hp; left).
    apply elem_of_cons in Hin as [->|Hin]; [done|].
    apply elem_of_cons in Hin' as [->|Hin']; [done|].
    rewrite Forall_forall in Hx, Hy.
    pose proof (cmp_le_antisym _ _ (Hx _ Hin') (Hy _ Hin)) as Heq.
    rewrite fmap_cons, NoDup_cons in Hnd. destruct Hnd as [Hnd _]. exfalso. apply Hnd.
    rewrite Heq. by apply list_elem_of_fmap_2. }
  f_equal. apply IH; [|by rewrite fmap_cons, NoDup_cons in Hnd; destruct Hnd|done].
  by apply Permutation_cons_inv in Hp.
Qed.

Lemma sorted_by_unique `{!StrictCmp K} l k :
  l ≡ₚ k → NoDup (key <$> l) → sorted_by key l = sorted_by key k.
Proof.
  intros Hp Hnd. apply sorted_unique; auto using sorted_by_sorted.
  - by rewrite !sorted_by_perm.
  - by rewrite sorted_by_perm.
Qed.

(** Sorting is stable: elements that satisfy a predicate keep their order when
    the predicate only depends on being sorted already. *)
Lemma sorted_by_id l : StronglySorted key_le l → sorted_by key l = l.
Proof.
  induction 1 as [|x l Hl IH Hx]; simpl; [done|]. rewrite IH.
  destruct Hx as [|y l Hxy Hx]; simpl; [done|].
  unfold key_le in Hxy. apply leb_le in Hxy. by rewrite Hxy.
Qed.
End sort.

(** Values that compare equal are equal: one sorted arrangement, repeated or not. *)
Lemma sorted_perm_eq {A} `{TotalCmp A, !StrictCmp A} (l k : list A) :
  l ≡ₚ k → sorted l = sorted k.
Proof.
  intros Hp. apply (StronglySorted_unique (@cmp_le A _)).
  - apply (sorted_by_sorted (λ x : A, x)).
  - apply (sorted_by_sorted (λ x : A, x)).
  - unfold sorted. by rewrite !sorted_by_perm.
Qed.

(** A list of one element, as a set. *)
Lemma NoDup_singleton_iff {A} (l : list A) x :
  NoDup l → (l = [x] ↔ x ∈ l ∧ ∀ y, y ∈ l → y = x).
Proof.
  intros Hnd. split; [intros ->; split; [left|by intros y ?%list_elem_of_singleton]|].
  intros [Hx Hl]. destruct l as [|a [|b l]].
  - by apply not_elem_of_nil in Hx.
  - by rewrite (Hl a) by left.
  - apply NoDup_cons in Hnd as [Hnd _]. destruct Hnd.
    rewrite (Hl a), (Hl b); [left|right; left|left].
Qed.
#[export] Hint Resolve sorted_by_sorted : rf.
#[export] Hint Rewrite @elem_of_sorted_by @length_sorted_by : rf_simpl.

(** ** Lemmas: combinations *)

Lemma combinations_sublist {A} (l c : list A) k :
  c ∈ combinations l k ↔ sublist c l ∧ length c = k.
Proof.
  revert k c. induction l as [|x l IH]; intros [|k] c; simpl.
  - rewrite list_elem_of_singleton. split.
    + intros ->. split; [constructor | done].
    + intros [Hs Hl]. by destruct c.
  - split; [by intros Hc%not_elem_of_nil|]. intros [Hs Hl].
    apply sublist_nil_r in Hs. by subst.
  - rewrite list_elem_of_singleton. split.
    + intros ->. split; [apply sublist_nil_l | done].
    + intros [Hs Hl]. by destruct c.
  - rewrite elem_of_app, list_elem_of_fmap. setoid_rewrite IH. split.
    + intros [(c' & -> & Hs & Hl)|[Hs Hl]]; simpl.
      * split; [by constructor | by f_equal].
      * split; [by constructor | done].
    + intros [Hs Hl]. inversion Hs; subst; simpl in *.
      * left. eexists; split; [done|]. by injection Hl.
      * by right.
Qed.

Lemma elem_of_range i a b : i ∈ range a b ↔ a <= i < b.
Proof.
  unfold range. rewrite list_elem_of_fmap. split.
  - intros (n & -> & Hn%elem_of_seq). lia.
  - intros H. exists (Z.to_nat (i - a)). rewrite elem_of_seq. lia.
Qed.

Lemma elem_of_filter_bool {A} (f : A → bool) l x :
  x ∈ List.filter f l ↔ x ∈ l ∧ f x = true.
Proof. rewrite !list_elem_of_In. apply filter_In. Qed.

Lemma sublist_filter_bool {A} (f : A → bool) (c l : list A) :
  sublist c (List.filter f l) ↔ sublist c l ∧ Forall (λ x, f x = true) c.
Proof.
  revert c; induction l as [|x l IH]; intros c; simpl.
  - split; [|by intros []]. intros H. split; [done|].
    apply sublist_nil_r in H. by subst.
  - destruct (f x) eqn:E.
    + split.
      * intros H. inversion H; subst.
        -- match goal with H : sublist _ _ |- _ => apply IH in H as [? ?] end.
           split; [by constructor | by constructor].
        -- match goal with H : sublist _ _ |- _ => apply IH in H as [? ?] end.
           split; [by constructor | done].
      * intros [H Hc]. inversion H; subst.
        -- inversion Hc; subst. constructor. by apply IH.
        -- constructor. by apply IH.
    + rewrite IH. split; [by intros [? ?]; split; [constructor|]|].
      intros [H Hc]. inversion H; subst; [|done].
      inversion Hc; congruence.
Qed.

Lemma foldl_max_le (k : list Z) a b :
  a <= b → (∀ x, x ∈ k → x <= b) → foldl Z.max a k <= b.
Proof.
  revert a; induction k as [|x k IH]; intros a Ha Hk; simpl; [done|].
  apply IH; [|intros; apply Hk; by right]. pose proof (Hk x ltac:(left)). lia.
Qed.

Lemma foldl_max_ge (k : list Z) a : a <= foldl Z.max a k ∧ ∀ x, x ∈ k → x <= foldl Z.max a k.
Proof.
  revert a; induction k as [|x k IH]; intros a; simpl.
  - split; [done|]. by intros y Hy%not_elem_of_nil.
  - destruct (IH (Z.max a x)) as [H1 H2]. split; [lia|].
    intros y [->|Hy]%elem_of_cons; [lia | by apply H2].
Qed.

Lemma sublist_filter_bool_sub {A} (f : A → bool) (l : list A) : sublist (List.filter f l) l.
Proof.
  induction l as [|x l IH]; simpl; [done|].
  destruct (f x); by constructor.
Qed.

Lemma sublist_fmap {A B} (f : A → B) (l k : list A) : sublist l k → sublist (f <$> l) (f <$> k).
Proof. induction 1; simpl; by constructor. Qed.

Lemma filter_bool_none {A} (p : A → bool) l : (∀ x, x ∈ l → p x = false) → List.filter p l = [].
Proof.
  induction l as [|x l IH]; intros H; simpl; [done|].
  rewrite (H x) by left. apply IH. intros; apply H; by right.
Qed.

Lemma filter_bool_all {A} (p : A → bool) l : (∀ x, x ∈ l → p x = true) → List.filter p l = l.
Proof.
  induction l as [|x l IH]; intros H; simpl; [done|].
  rewrite (H x) by left. f_equal. apply IH. intros; apply H; by right.
Qed.

(** Only one element of [l] yields items that satisfy [p]. *)
Lemma filter_bind_one {A B} (f : A → list B) (p : B → bool) l x :
  NoDup l → x ∈ l → (∀ y j, y ∈ l → j ∈ f y → p j = true → y = x) →
  List.filter p (l ≫= f) = List.filter p (f x).
Proof.
  intros Hnd Hx Hp. assert (∀ y, y ∈ l → y ≠ x → List.filter p (f y) = []) as Hnone.
  { intros y Hy Hne. apply filter_bool_none. intros j Hj. apply not_true_is_false.
    intros Hpj. by apply Hne, (Hp y j). }
  induction Hnd as [|y l Hy Hnd IH]; [by apply not_elem_of_nil in Hx|].
  rewrite bind_cons, List.filter_app. apply elem_of_cons in Hx as [-> | Hx].
  - assert (∀ k, (∀ z, z ∈ k → List.filter p (f z) = []) → List.filter p (k ≫= f) = []) as Hk.
    { induction k as [|z k IHk]; intros Hz; [done|]. rewrite bind_cons, List.filter_app.
      rewrite Hz by left. apply IHk. intros; apply Hz; by right. }
    rewrite Hk, app_nil_r; [done|]. intros z Hz. apply Hnone; [by right|]. by intros ->.
  - rewrite Hnone; [|left|by intros ->]. apply IH.
    + done.
    + intros; eapply Hp; eauto; by right.
    + intros; apply Hnone; [by right|done].
Qed.

(** With distinct keys, the key determines the element. *)
Lemma NoDup_fmap_inj {A B} (f : A → B) (l : list A) x y :
  NoDup (f <$> l) → x ∈ l → y ∈ l → f x = f y → x = y.
Proof.
  intros Hnd Hx Hy E. apply list_elem_of_lookup in Hx as [i Hi].
  apply list_elem_of_lookup in Hy as [j Hj].
  assert (i = j) as ->; [|congruence].
  eapply NoDup_lookup; [done| |]; rewrite list_lookup_fmap, ?Hi, ?Hj; simpl; [done|by rewrite E].
Qed.

(** A list is split by a test and its negation. *)
Lemma filter_split {A} (f : A → bool) l : List.filter f l ++ List.filter (λ x, negb (f x)) l ≡ₚ l.
Proof. induction l as [|x l IH]; [done|]. simpl. destruct (f x); simpl; [by f_equiv|]. by rewrite <- Permutation_middle, IH. Qed.
Lemma bind_singleton {A B} (f : A → B) l : l ≫= (λ x, [f x]) = f <$> l.
Proof. induction l as [|x l IH]; [done|]. by rewrite bind_cons, IH. Qed.

Lemma NoDup_filter_bool {A B} (f : A → B) (p : A → bool) (l : list A) :
  NoDup (f <$> l) → NoDup (f <$> List.filter p l).
Proof. intros H. eapply sublist_NoDup; [done|]. apply sublist_fmap, sublist_filter_bool_sub. Qed.

Lemma filter_bool_perm {A} (p : A → bool) (l k : list A) :
  l ≡ₚ k → List.filter p l ≡ₚ List.filter p k.
Proof.
  induction 1 as [|x l k _ IH|x y l|l1 l2 l3 _ IH1 _ IH2]; simpl.
  - done.
  - by destruct (p x); rewrite IH.
  - destruct (p x), (p y); [apply Permutation_swap|done..].
  - by etrans.
Qed.

(** *** Sums *)

Definition zsum (l : list Z) : Z := foldr Z.add 0 l.
Arguments zsum : simpl never.
Lemma zsum_cons x l : zsum (x :: l) = x + zsum l.
Proof. done. Qed.
Lemma zsum_plus {A} (f g : A → Z) l :
  zsum ((λ x, f x + g x) <$> l) = zsum (f <$> l) + zsum (g <$> l).
Proof. induction l as [|x l IH]; [done|]. rewrite !fmap_cons, !zsum_cons, IH. lia. Qed.
Lemma zsum_ext {A} (f g : A → Z) l : (∀ x, x ∈ l → f x = g x) → zsum (f <$> l) = zsum (g <$> l).
Proof.
  induction l as [|x l IH]; intros H; [done|]. rewrite !fmap_cons, !zsum_cons.
  rewrite (H x) by left. rewrite IH; [done|]. intros; apply H; by right.
Qed.
Lemma zsum_0 {A} (l : list A) : zsum ((λ _, 0) <$> l) = 0.
Proof. induction l as [|x l IH]; [done|]. by rewrite fmap_cons, zsum_cons, IH. Qed.
Lemma zsum_indicator {K} `{EqDecision K} (k : K) keys : NoDup keys →
  zsum ((λ k', if bool_decide (k = k') then 1 else 0) <$> keys) =
  if bool_decide (k ∈ keys) then 1 else 0.
Proof.
  induction 1 as [|x keys Hx Hnd IH]; [done|]. rewrite fmap_cons, zsum_cons, IH.
  repeat case_bool_decide; set_solver by lia.
Qed.
Lemma zsum_foldl {A} (f : A → Z) (l : list A) : ∀ n, foldl (λ n x, n + f x) n l = n + zsum (f <$> l).
Proof. induction l as [|x l IH]; intros n; [unfold zsum; simpl; lia|]. cbn [foldl]. rewrite IH, fmap_cons, zsum_cons. lia. Qed.
(** What a test finds is what it finds under each key. *)
Lemma zsum_classes {A K} `{EqDecision K} (p : A → bool) (key : A → K) (keys : list K) (l : list A) : NoDup keys →
  (∀ x, x ∈ l → p x = true → key x ∈ keys) →
  zsum ((λ k, Z.of_nat (length (List.filter (λ x, p x && bool_decide (key x = k)) l))) <$> keys) = Z.of_nat (length (List.filter p l)).
Proof.
  intros Hnd. induction l as [|x l IH]; intros Hin; [apply zsum_0|]. specialize (IH ltac:(intros; apply Hin; [by right|done])).
  assert (∀ k, Z.of_nat (length (List.filter (λ x, p x && bool_decide (key x = k)) (x :: l))) =
    (if p x then if bool_decide (key x = k) then 1 else 0 else 0) + Z.of_nat (length (List.filter (λ x, p x && bool_decide (key x = k)) l))) as E.
  { intros k. cbn [List.filter]. destruct (p x); simpl; [case_bool_decide; cbn [length]; lia|lia]. }
  rewrite (zsum_ext _ _ keys (λ k _, E k)), zsum_plus, IH. cbn [List.filter]. destruct (p x) eqn:Ep.
  - rewrite zsum_indicator by done. rewrite bool_decide_eq_true_2 by (apply Hin; [left|done]). cbn [length]. lia.
  - rewrite zsum_0. lia.
Qed.

Lemma omap_bind {A B} (f : A → option B) (l : list A) :
  omap f l = l ≫= λ x, option_list (f x).
Proof.
  induction l as [|x l IH]; [done|]. rewrite bind_cons, <- IH. cbn [omap list_omap].
  by destruct (f x).
Qed.

(** Lists gathered from elements with distinct keys, when an item tells the key
    of the element it comes from. *)
Lemma NoDup_bind_keys {A B K} (key : A → K) (f : A → list B) (l : list A) :
  NoDup (key <$> l) → (∀ x, x ∈ l → NoDup (f x)) →
  (∀ x y z, x ∈ l → y ∈ l → z ∈ f x → z ∈ f y → key x = key y) →
  NoDup (l ≫= f).
Proof.
  intros Hnd Hf Hkey. induction l as [|x l IH]; [constructor|].
  rewrite fmap_cons, NoDup_cons in Hnd. destruct Hnd as [Hx Hnd]. rewrite bind_cons, NoDup_app.
  split; [apply Hf; left|]. split.
  - intros z Hz (y & Hz' & Hy)%list_elem_of_bind. apply Hx.
    rewrite (Hkey x y z) by (done || left || by right). by apply list_elem_of_fmap_2.
  - apply IH; [done|intros; apply Hf; by right|]. intros; eapply Hkey; eauto; by right.
Qed.

Lemma fmap_bind {A B C} (f : A → list B) (g : B → C) (l : list A) :
  g <$> (l ≫= f) = l ≫= λ x, g <$> f x.
Proof. induction l as [|x l IH]; [done|]. by rewrite !bind_cons, fmap_app, IH. Qed.

Lemma bind_bind {A B C} (f : A → list B) (g : B → list C) (l : list A) :
  (l ≫= f) ≫= g = l ≫= λ x, f x ≫= g.
Proof. induction l as [|x l IH]; [done|]. by rewrite !bind_cons, bind_app, IH. Qed.

(** An invariant of the state is an invariant of the loop. *)
Lemma foldl_inv {A S} (P : S → Prop) (f : S → A → S) l s :
  P s → (∀ s x, x ∈ l → P s → P (f s x)) → P (foldl f s l).
Proof.
  revert s; induction l as [|x l IH]; intros s Hs Hf; simpl; [done|].
  apply IH; [apply Hf; [left|done]|]. intros; apply Hf; [by right|done].
Qed.

Lemma StronglySorted_weaken {A} (R S : A → A → Prop) l :
  (∀ x y, R x y → S x y) → StronglySorted R l → StronglySorted S l.
Proof.
  intros H. induction 1; constructor; [done|]. by eapply Forall_impl; [done|]; intros; apply H.
Qed.
Lemma cmp_le_fst {A B} `{Cmp A, Cmp B} (x y : A * B) : cmp_le x y → cmp_le x.1 y.1.
Proof.
  destruct x, y. unfold cmp_le. rewrite cmp_pair. simpl. unfold lex. by destruct (cmp a a0).
Qed.

(** The elements of a sorted list between two keys are one slice of it. *)
Lemma slice_between {A} (key : A → Z) (l : list A) lo hi :
  StronglySorted (key_le key) l →
  slice (bisect_left (key <$> l) lo) (bisect_right (key <$> l) hi) l =
  List.filter (λ x, (lo <=? key x) && (key x <=? hi)) l.
Proof.
  unfold slice, bisect_left, bisect_right, ltb, leb, cmp, Z_cmp.
  induction 1 as [|x l Hl IH Hx]; [done|]. rewrite fmap_cons. cbn [take_while List.filter].
  rewrite Forall_forall in Hx. assert (∀ y, y ∈ l → key x <= key y) as Hle.
  { intros y Hy. specialize (Hx y Hy). unfold key_le, cmp_le, cmp, Z_cmp in Hx.
    rewrite Z.compare_ngt_iff in Hx. lia. }
  destruct (Z.compare_spec (key x) lo), (Z.compare_spec (key x) hi),
    (Z.leb_spec lo (key x)), (Z.leb_spec (key x) hi); try lia;
    cbn [length Nat.sub drop take andb].
  all: try (symmetry; apply filter_bool_none; intros y Hy%Hle; apply andb_false_iff;
               rewrite !Z.leb_gt; lia).
  all: rewrite <- IH; try done.
  all: assert (take_while (λ y, match y ?= lo with Lt => true | _ => false end) (key <$> l) = [])
         as -> by (destruct l as [|y l]; [done|]; rewrite fmap_cons; cbn [take_while];
                   destruct (Z.compare_spec (key y) lo); [done| |done];
                   specialize (Hle y ltac:(left)); lia).
  all: cbn [length]; by rewrite ?Nat.sub_0_r, ?drop_0.
Qed.

(** A list as the list of its lookups. *)
Lemma lookup_total_seq {A} `{Inhabited A} (l : list A) : (λ i, l !!! i) <$> seq 0 (length l) = l.
Proof.
  apply list_eq. intros i. rewrite list_lookup_fmap. destruct (decide (i < length l)%nat) as [Hi|Hi].
  - rewrite lookup_seq_lt by done. simpl. symmetry. by apply list_lookup_lookup_total_lt.
  - rewrite lookup_seq_ge, (lookup_ge_None_2 l) by lia. done.
Qed.

(** ** Lemmas: strings *)

(** Every character satisfies [p]. *)
Fixpoint all_chars (p : ascii → bool) (s : string) : bool :=
  match s with String c s' => p c && all_chars p s' | EmptyString => true end.
Definition lacks (c : ascii) (s : string) : bool := all_chars (λ x, negb (Ascii.eqb x c)) s.

Lemma str_app_nil s : ("" +:+ s)%string = s.
Proof. done. Qed.
Lemma str_app_cons c a b : (String c a +:+ b)%string = String c (a +:+ b).
Proof. done. Qed.
Lemma str_app_nil_r s : (s +:+ "")%string = s.
Proof. induction s as [|c s IH]; [done|]. by rewrite str_app_cons, IH. Qed.
Lemma str_app_assoc a b c : ((a +:+ b) +:+ c)%string = (a +:+ b +:+ c)%string.
Proof. induction a as [|x a IH]; [done|]. by rewrite !str_app_cons, IH. Qed.
Lemma str_length_app a b : String.length (a +:+ b) = (String.length a + String.length b)%nat.
Proof. induction a as [|x a IH]; [done|]. rewrite str_app_cons. simpl. by rewrite IH. Qed.

Lemma all_chars_app p a b : all_chars p (a +:+ b) = all_chars p a && all_chars p b.
Proof.
  induction a as [|c a IH]; [done|]. rewrite str_app_cons. simpl. by rewrite IH, andb_assoc.
Qed.

Lemma all_chars_impl (p q : ascii → bool) s : (∀ c, p c = true → q c = true) →
  all_chars p s = true → all_chars q s = true.
Proof.
  intros H. induction s as [|c s IH]; simpl; [done|]. rewrite !andb_true_iff. naive_solver.
Qed.

(** A separator that does not occur in the parts cuts in one way only. *)
Lemma split_sep c a b a' b' : lacks c a = true → lacks c a' = true →
  (a +:+ String c b = a' +:+ String c b')%string → a = a' ∧ b = b'.
Proof.
  unfold lacks. revert a'; induction a as [|x a IH]; intros [|x' a'] Ha Ha' E; simpl in Ha, Ha';
    rewrite ?str_app_nil, ?str_app_cons in E.
  - by injection E.
  - injection E as -> _. by rewrite Ascii.eqb_refl in Ha'.
  - injection E as -> _. by rewrite Ascii.eqb_refl in Ha.
  - injection E as -> E. apply andb_true_iff in Ha as [_ Ha], Ha' as [_ Ha'].
    by destruct (IH a' Ha Ha' E) as [-> ->].
Qed.

Lemma lacks_join c p ps : lacks c (join (String c "") (p :: ps)) = true → ps = [].
Proof.
  destruct ps as [|q ps]; [done|]. simpl. unfold lacks. rewrite !all_chars_app. simpl.
  rewrite Ascii.eqb_refl. simpl. by rewrite andb_false_r.
Qed.

Lemma join_cons_cons c p q ps :
  join (String c "") (p :: q :: ps) = (p +:+ String c (join (String c "") (q :: ps)))%string.
Proof. done. Qed.

Lemma join_inj c l l' : l ≠ [] → l' ≠ [] →
  Forall (λ s, lacks c s = true) l → Forall (λ s, lacks c s = true) l' →
  join (String c "") l = join (String c "") l' → l = l'.
Proof.
  intros Hl Hl' Hf. revert l' Hl Hl'.
  induction Hf as [|p l Hp Hf IH]; intros l' Hl Hl' Hf' E; [done|].
  destruct Hf' as [|p' l' Hp' Hf']; [done|].
  destruct l as [|q l], l' as [|q' l'].
  - simpl in E. by subst.
  - simpl in E. subst. apply (lacks_join c p' (q' :: l')) in Hp. discriminate.
  - simpl in E. subst. apply (lacks_join c p (q :: l)) in Hp'. discriminate.
  - rewrite !join_cons_cons in E. apply split_sep in E as [-> E]; [|done..].
    f_equal. by apply IH.
Qed.

(** ** Lemmas: ordered dicts *)

Section odict.
Context {K A : Type} `{EqDecision K}.
Implicit Types (d : list (K * A)) (k : K).

Lemma od_get_None k d : od_get k d = None ↔ k ∉ d.*1.
Proof.
  induction d as [|[k' a] d IH]; simpl; [split; [|done]; by intros _ ?%not_elem_of_nil|].
  rewrite not_elem_of_cons, <- IH. destruct (decide (k = k')); naive_solver.
Qed.

Lemma od_get_Some k d : k ∈ d.*1 → ∃ a, od_get k d = Some a.
Proof.
  intros Hk. destruct (od_get k d) as [a|] eqn:E; [eauto|]. by apply od_get_None in E.
Qed.

Lemma od_get_elem k d a : od_get k d = Some a → (k, a) ∈ d.
Proof.
  induction d as [|[k' a'] d IH]; simpl; [done|].
  destruct (decide (k = k')) as [-> |]; [intros [= ->]; left|right; auto].
Qed.

Lemma od_get_in k d a : NoDup d.*1 → (k, a) ∈ d → od_get k d = Some a.
Proof.
  induction d as [|[k' a'] d IH]; simpl; [by intros _ ?%not_elem_of_nil|].
  rewrite NoDup_cons. intros [Hk Hd] [E|Hin]%elem_of_cons.
  - injection E as -> ->. by rewrite decide_True.
  - rewrite decide_False; [by apply IH|]. intros ->. apply Hk.
    apply list_elem_of_fmap. by exists (k', a).
Qed.

Lemma od_set_new k a d : k ∉ d.*1 → od_set k a d = d ++ [(k, a)].
Proof.
  induction d as [|[k' a'] d IH]; simpl; [done|]. rewrite not_elem_of_cons. intros [Hk Hd].
  rewrite decide_False by done. by rewrite IH.
Qed.

Lemma od_del_sublist k d : sublist (od_del k d) d.
Proof.
  induction d as [|[k' a'] d IH]; simpl; [done|]. destruct (decide (k = k')); by constructor.
Qed.

Lemma od_del_length k d : k ∈ d.*1 → length d = S (length (od_del k d)).
Proof.
  induction d as [|[k' a'] d IH]; simpl; [by intros ?%not_elem_of_nil|].
  destruct (decide (k = k')); [done|]. intros [?|Hk]%elem_of_cons; [done|]. simpl. by rewrite IH.
Qed.

Lemma od_del_elem k d e : NoDup d.*1 → e ∈ od_del k d ↔ e ∈ d ∧ e.1 ≠ k.
Proof.
  induction d as [|[k' a'] d IH]; simpl; [split; [by intros ?%not_elem_of_nil|by intros [?%not_elem_of_nil _]]|].
  rewrite NoDup_cons. intros [Hk Hd]. destruct (decide (k = k')) as [-> |Hne].
  - rewrite elem_of_cons. split.
    + intros He. split; [by right|]. intros <-. apply Hk. by apply list_elem_of_fmap_2.
    + intros [[-> |He] Hne]; [done|done].
  - rewrite !elem_of_cons, IH by done. split; [|naive_solver].
    intros [-> |[? ?]]; [split; [by left|done]|split; [by right|done]].
Qed.

(** The values under the keys already present grow one by one. *)
Lemma od_set_perm {B} (k : K) (x : B) (d : list (K * list B)) :
  mjoin (od_set k (default [] (od_get k d) ++ [x]) d).*2 ≡ₚ mjoin d.*2 ++ [x].
Proof.
  induction d as [|[k' l] d IH]; simpl; [done|].
  destruct (decide (k = k')); simpl.
  - rewrite <- !app_assoc. apply Permutation_app_head. by rewrite Permutation_app_comm.
  - by rewrite IH, app_assoc.
Qed.
End odict.

Lemma od_set_elem {K A} `{EqDecision K} (k : K) (a : A) d e :
  e ∈ od_set k a d → e = (k, a) ∨ e ∈ d.
Proof.
  induction d as [|[k' a'] d IH]; simpl; [by intros ->%list_elem_of_singleton; left|].
  destruct (decide (k = k')); rewrite !elem_of_cons; naive_solver.
Qed.
Lemma od_set_keys {K A} `{EqDecision K} (k : K) (a : A) d k' :
  k' ∈ (od_set k a d).*1 ↔ k' = k ∨ k' ∈ d.*1.
Proof.
  induction d as [|[k0 a'] d IH]; simpl; [rewrite list_elem_of_singleton, elem_of_nil; tauto|].
  destruct (decide (k = k0)) as [-> |]; simpl; rewrite !elem_of_cons; [|rewrite IH]; tauto.
Qed.


(** ** Dicts and lists built from lists *)

(** A dict filled from elements with distinct keys. *)
Lemma foldl_insert_lookup {A K V} `{Countable K} (key : A → K) (val : A → V) (l : list A) x :
  NoDup (key <$> l) → x ∈ l → foldl (λ m e, <[key e := val e]> m) (∅ : gmap K V) l !! key x = Some (val x).
Proof.
  intros Hnd Hx. induction l as [|y l IH] using rev_ind; [by apply not_elem_of_nil in Hx|].
  rewrite foldl_snoc, !fmap_app in *. apply NoDup_app in Hnd as (Hnd & Hy & _).
  apply elem_of_app in Hx as [Hx|Hx%list_elem_of_singleton].
  - rewrite lookup_insert_ne; [by apply IH|]. intros E. apply (Hy (key x)); [by apply list_elem_of_fmap_2|].
    rewrite <- E. left.
  - subst. by rewrite lookup_insert_eq.
Qed.

(** Filtering the images. *)
Lemma filter_fmap {A B} (g : A → B) (p : B → bool) l : List.filter p (g <$> l) = g <$> List.filter (λ x, p (g x)) l.
Proof. induction l as [|x l IH]; [done|]. rewrite fmap_cons. cbn [List.filter]. rewrite IH. by destruct (p (g x)). Qed.


(** A part of a sorted list is sorted. *)
Lemma StronglySorted_sublist {A} (R : A → A → Prop) l k : sublist k l → StronglySorted R l → StronglySorted R k.
Proof.
  induction 1 as [|x k l Hk IH|x k l Hk IH]; intros Hs; [done| |]; inversion Hs as [|? ? Hl Hx]; subst; [|by apply IH].
  constructor; [by apply IH|]. rewrite Forall_forall in Hx |- *. intros y Hy. apply Hx. by eapply sublist_subseteq.
Qed.

(** ** Ordered dictionaries, extremes and queues *)

Lemma od_set_NoDup {K A} `{EqDecision K} (k : K) (a : A) (d : odict K A) : NoDup d.*1 → NoDup (od_set k a d).*1.
Proof.
  induction d as [|[k' a'] d IH]; simpl; [intros; apply NoDup_singleton|]. rewrite NoDup_cons. intros [Hk Hd].
  destruct (decide (k = k')) as [-> |]; simpl; rewrite NoDup_cons; [done|]. rewrite od_set_keys. split; [naive_solver|auto].
Qed.
Lemma od_get_set {K A} `{EqDecision K} (k k' : K) (a : A) (d : odict K A) :
  od_get k' (od_set k a d) = if decide (k = k') then Some a else od_get k' d.
Proof.
  induction d as [|[x b] d IH]; simpl; [by repeat case_decide|].
  destruct (decide (k = x)) as [<- |Hne]; simpl; [by repeat case_decide; congruence|].
  rewrite IH. repeat case_decide; congruence.
Qed.
Lemma max_of_elem (x : Z) l : max_of x l ∈ x :: l.
Proof.
  unfold max_of. revert x. induction l as [|y l IH]; intros x; simpl; [left|].
  destruct (Z.max_spec x y) as [[_ E]|[_ E]]; rewrite E; specialize (IH (Z.max x y)); rewrite E in IH;
    rewrite !elem_of_cons in *; tauto.
Qed.
Lemma max_of_ge (x : Z) l y : y ∈ x :: l → y <= max_of x l.
Proof.
  unfold max_of. revert x y. induction l as [|z l IH]; intros x y; simpl; [intros ->%list_elem_of_singleton; lia|].
  assert (Z.max x z <= foldl Z.max (Z.max x z) l) as Hm by (apply IH; left).
  rewrite !elem_of_cons. intros [-> |[-> |Hy]]; [lia|lia|]. apply IH. by right.
Qed.
Lemma min_of_elem (x : Z) l : min_of x l ∈ x :: l.
Proof.
  unfold min_of. revert x. induction l as [|y l IH]; intros x; simpl; [left|].
  destruct (Z.min_spec x y) as [[_ E]|[_ E]]; rewrite E; specialize (IH (Z.min x y)); rewrite E in IH;
    rewrite !elem_of_cons in *; tauto.
Qed.
(** [insort] keeps a sorted list sorted, and adds one element. *)
Lemma insort_perm {A} `{Cmp A} (x : A) l : insort x l ≡ₚ x :: l.
Proof.
  unfold insort. rewrite <- Permutation_middle. by rewrite take_drop.
Qed.
Lemma insort_cons {A} `{Cmp A} (x y : A) l : insort x (y :: l) = if leb y x then y :: insort x l else x :: y :: l.
Proof. unfold insort, bisect_right. simpl. by destruct (leb y x). Qed.
Lemma insort_sorted {A} `{TotalCmp A} (x : A) l : StronglySorted (key_le id) l → StronglySorted (key_le id) (insort x l).
Proof.
  induction 1 as [|y l Hl IH Hy]; [by repeat constructor|]. rewrite insort_cons. destruct (leb y x) eqn:E.
  - constructor; [done|]. rewrite Forall_forall in *. intros z. rewrite (insort_perm x l), elem_of_cons. intros [-> |?]; [by apply leb_le|by apply Hy].
  - assert (cmp_le x y) as Hxy. { destruct (cmp_le_total x y) as [?|?%leb_le]; [done|congruence]. }
    constructor; [by constructor|]. constructor; [done|]. eapply Forall_impl; [exact Hy|]. intros z Hz. unfold key_le, id in *. by etrans.
Qed.

Lemma size_list_to_set_le {A} `{Countable A} (l : list A) : (size (list_to_set l : gset A) ≤ length l)%nat.
Proof.
  induction l as [|x l IH]; [done|]. simpl. rewrite size_union_alt, size_singleton.
  transitivity (1 + size (list_to_set l : gset A))%nat; [|lia].
  apply Nat.add_le_mono_l, subseteq_size. set_solver.
Qed.
