(* ===== verification/Digest.v ===== *)
(** * Digests: SHA-256 and the fingerprints built on it

    [hashlib.sha256] (FIPS 180-4) over bytes, its hexadecimal digest, and the
    [_digest] helper that [models.py], [stream.py], [observation.py] and
    [correlation/flow.py] each declare with the same body.  A Python [str] is
    the list of its UTF-8 bytes, so [str.encode()] is the identity here, and
    code-point order is byte order.  The lemmas show when the text that is
    hashed determines the parts it was built from. *)

From S2P Require Import Prelude.

(** ** SHA-256 *)

Module Sha256.
Open Scope N_scope.

Definition mask32 : N := 4294967295.
Definition add32 (x y : N) : N := N.land (x + y) mask32.
Definition rotr (x n : N) : N :=
  N.lor (N.shiftr x n) (N.land (N.shiftl x (32 - n)) mask32).
Definition ch (x y z : N) : N := N.lxor (N.land x y) (N.land (N.lxor x mask32) z).
Definition maj (x y z : N) : N :=
  N.lxor (N.lxor (N.land x y) (N.land x z)) (N.land y z).
Definition bsig0 (x : N) : N := N.lxor (N.lxor (rotr x 2) (rotr x 13)) (rotr x 22).
Definition bsig1 (x : N) : N := N.lxor (N.lxor (rotr x 6) (rotr x 11)) (rotr x 25).
Definition ssig0 (x : N) : N := N.lxor (N.lxor (rotr x 7) (rotr x 18)) (N.shiftr x 3).
Definition ssig1 (x : N) : N := N.lxor (N.lxor (rotr x 17) (rotr x 19)) (N.shiftr x 10).

Definition K : list N := [
  1116352408; 1899447441; 3049323471; 3921009573; 961987163; 1508970993;
  2453635748; 2870763221; 3624381080; 310598401; 607225278; 1426881987;
  1925078388; 2162078206; 2614888103; 3248222580; 3835390401; 4022224774;
  264347078; 604807628; 770255983; 1249150122; 1555081692; 1996064986;
  2554220882; 2821834349; 2952996808; 3210313671; 3336571891; 3584528711;
  113926993; 338241895; 666307205; 773529912; 1294757372; 1396182291;
  1695183700; 1986661051; 2177026350; 2456956037; 2730485921; 2820302411;
  3259730800; 3345764771; 3516065817; 3600352804; 4094571909; 275423344;
  430227734; 506948616; 659060556; 883997877; 958139571; 1322822218;
  1537002063; 1747873779; 1955562222; 2024104815; 2227730452; 2361852424;
  2428436474; 2756734187; 3204031479; 3329325298].
Definition H0 : list N := [
  1779033703; 3144134277; 1013904242; 2773480762;
  1359893119; 2600822924; 528734635; 1541459225].

(** Message schedule, kept most recent first: w(t) from w(t-2), w(t-7),
    w(t-15) and w(t-16). *)
Fixpoint schedule (n : nat) (w : list N) : list N :=
  match n with
  | O => w
  | S n => let wt := add32 (add32 (ssig1 (nth 1 w 0)) (nth 6 w 0))
                           (add32 (ssig0 (nth 14 w 0)) (nth 15 w 0)) in
           schedule n (wt :: w)
  end.

Definition round (s : list N) (kw : N * N) : list N :=
  match s with
  | [a; b; c; d; e; f; g; h] =>
      let t1 := add32 (add32 h (bsig1 e)) (add32 (ch e f g) (add32 kw.1 kw.2)) in
      let t2 := add32 (bsig0 a) (maj a b c) in
      [add32 t1 t2; a; b; c; add32 d t1; e; f; g]
  | _ => s
  end.
Definition block (h w : list N) : list N :=
  zip_with add32 h (foldl round h (zip K (rev (schedule 48 (rev w))))).

Fixpoint words (l : list N) : list N :=
  match l with
  | a :: b :: c :: d :: l => (a * 16777216 + b * 65536 + c * 256 + d) :: words l
  | _ => []
  end.
(** Blocks of sixteen words. *)
Fixpoint blocks (fuel : nat) (h w : list N) : list N :=
  match fuel, w with
  | S fuel, _ :: _ => blocks fuel (block h (take 16 w)) (drop 16 w)
  | _, _ => h
  end.
Definition bytes_be (n : nat) (x : N) : list N :=
  rev ((λ i, N.land (N.shiftr x (8 * N.of_nat i)) 255) <$> seq 0 n).
Definition pad (l : list N) : list N :=
  let n := length l in
  l ++ [128] ++ replicate ((119 - n mod 64) mod 64)%nat 0 ++ bytes_be 8 (8 * N.of_nat n).
Definition sha256 (s : string) : list N :=
  let w := words (pad (N_of_ascii <$> list_ascii_of_string s)) in
  mjoin (bytes_be 4 <$> blocks (length w) H0 w).

Definition hexdigit (n : N) : ascii :=
  ascii_of_N (if n <? 10 then 48 + n else 87 + n).
(** [hashlib.sha256(s.encode()).hexdigest()] *)
Definition hexdigest (s : string) : string :=
  string_of_list_ascii
    (mjoin ((λ b, [hexdigit (N.shiftr b 4); hexdigit (N.land b 15)]) <$> sha256 s)).
End Sha256.

(** The FIPS test vectors. *)
Example sha256_empty : Sha256.hexdigest "" =
  "e3b0c44298fc1c149afbf4c8996fb92427ae41e4649b934ca495991b7852b855"%string.
Proof. vm_compute. reflexivity. Qed.
Example sha256_abc : Sha256.hexdigest "abc" =
  "ba7816bf8f01cfea414140de5dae2223b00361a396177a9cb410ff61f20015ad"%string.
Proof. vm_compute. reflexivity. Qed.
Example sha256_two_blocks :
  Sha256.hexdigest "abcdbcdecdefdefgefghfghighijhijkijkljklmklmnlmnomnopnopq" =
  "248d6a61d20638b8e5c026930c3e6039a33ce45964ff2167f6ecedd419db06c1"%string.
Proof. vm_compute. reflexivity. Qed.

(** [hashlib.sha256(s.encode()).hexdigest()[:16]] *)
Definition hash16 (s : string) : string := String.substring 0 16 (Sha256.hexdigest s).

(** [_SEP]: U+001F. *)
Definition _SEP_char : ascii := "031".
Definition _SEP : string := String _SEP_char "".

(** [_digest] of a sequence of parts. *)
Definition _digest (parts : list string) : string := hash16 (join _SEP parts).
