(* ===== verification/Numeric.v ===== *)
(** * Numeric: [decimal.Decimal] under the engine's context

    [numeric.py] fixes the context every public entry point computes under
    ([prec=28], [ROUND_HALF_EVEN]).  This file models the finite [Decimal]s of
    Python's standard library -- a sign, a coefficient and an exponent -- and the
    operations the source uses of them, each rounded to the context precision
    as the language defines it: [+], [-], [*], [/], [abs], unary [-], comparison
    (exact), [quantize], [to_integral_value], [sqrt], [str] and construction from
    an [int] or a literal.  Not modelled: NaN and infinities (the types of the
    source promise finite amounts) and the exponent limits [Emin]/[Emax]
    (±999999), which no reachable amount meets. *)

From Stdlib Require Import QArith Qpower Lqa.
From S2P Require Import Prelude.
Open Scope Z_scope.

(** ** Data and context *)

Record decimal := Dec { dneg : bool; dcoef : N; dexp : Z }.

Global Instance decimal_eq_dec : EqDecision decimal.
Proof. solve_decision. Defined.

(** [Context(prec=28, rounding=ROUND_HALF_EVEN)]; half-even is the only rounding
    the source ever names, so it is built into the operations. *)
Record Context := { prec : nat }.
Definition ENGINE_CONTEXT : Context := {| prec := 28 |}.
Definition PREC : nat := prec ENGINE_CONTEXT.

(** Signed coefficient, and the value scaled to a smaller exponent. *)
Definition dint (d : decimal) : Z :=
  if dneg d then - Z.of_N (dcoef d) else Z.of_N (dcoef d).
Definition dscale (d : decimal) (e : Z) : Z := dint d * 10 ^ (dexp d - e).
Definition dzero (d : decimal) : bool := (dcoef d =? 0)%N.

(** [len(str(n))] *)
Fixpoint ndigits_fuel (fuel : nat) (n : N) : nat :=
  match fuel with
  | O => 1%nat
  | S f => if (n <? 10)%N then 1%nat else S (ndigits_fuel f (n / 10)%N)
  end.
Definition ndigits (n : N) : nat := ndigits_fuel (N.to_nat (N.size n)) n.

(** Exponent of the leading digit. *)
Definition adjusted (d : decimal) : Z := dexp d + Z.of_nat (ndigits (dcoef d)) - 1.

(** The rational a decimal denotes. *)
Definition p10 (e : Z) : Q := Qpower 10 e.
Definition dval (d : decimal) : Q := (inject_Z (dint d) * p10 (dexp d))%Q.

(** Its magnitude. *)
Definition dmag (d : decimal) : Q := (inject_Z (Z.of_N (dcoef d)) * p10 (dexp d))%Q.

(** A coefficient the precision can hold. *)
Definition fits (d : decimal) : Prop := (dcoef d < 10 ^ N.of_nat PREC)%N.

(** ** Rounding *)

(** [n / m] rounded to the nearest integer, ties to even. *)
Definition div_half_even (n m : N) : N :=
  let q := (n / m)%N in
  let r := (n mod m)%N in
  match (2 * r ?= m)%N with
  | Lt => q
  | Gt => (q + 1)%N
  | Eq => if N.even q then q else (q + 1)%N
  end.

(** [_fix]: round to the context precision. *)
Definition fix_ (d : decimal) : decimal :=
  let n := ndigits (dcoef d) in
  if (n <=? PREC)%nat then d
  else
    let k := (n - PREC)%nat in
    let c := div_half_even (dcoef d) (10 ^ N.of_nat k)%N in
    if (c =? 10 ^ N.of_nat PREC)%N
    then Dec (dneg d) (c / 10)%N (dexp d + Z.of_nat k + 1)
    else Dec (dneg d) c (dexp d + Z.of_nat k).

(** [_rescale]: to a given exponent, padding or rounding half-even. *)
Definition rescale (d : decimal) (e : Z) : decimal :=
  if e <=? dexp d
  then Dec (dneg d) (dcoef d * Z.to_N (10 ^ (dexp d - e))) e
  else Dec (dneg d) (div_half_even (dcoef d) (Z.to_N (10 ^ (e - dexp d)))) e.

(** ** Operations *)

Definition of_int (z : Z) : decimal := Dec (z <? 0) (Z.abs_N z) 0.
Definition d0 : decimal := of_int 0.
Definition d1 : decimal := of_int 1.
(** [Decimal("<n>")] written with [k] decimals: [lit n k = n / 10^k]. *)
Definition lit (n : Z) (k : nat) : decimal := Dec (n <? 0) (Z.abs_N n) (- Z.of_nat k).

Definition copy_negate (d : decimal) : decimal := Dec (negb (dneg d)) (dcoef d) (dexp d).

Definition dadd_exact (x y : decimal) : decimal :=
  let e := Z.min (dexp x) (dexp y) in
  let s := dscale x e + dscale y e in
  let neg := if s =? 0 then (if dzero x && dzero y then dneg x && dneg y else false)
             else s <? 0 in
  Dec neg (Z.abs_N s) e.
Definition dadd (x y : decimal) : decimal := fix_ (dadd_exact x y).
Definition dsub (x y : decimal) : decimal := dadd x (copy_negate y).
Definition dmul_exact (x y : decimal) : decimal :=
  Dec (xorb (dneg x) (dneg y)) (dcoef x * dcoef y) (dexp x + dexp y).
Definition dmul (x y : decimal) : decimal := fix_ (dmul_exact x y).
(** Unary minus and [abs]: rounded, and never a negative zero. *)
Definition dopp (x : decimal) : decimal :=
  fix_ (Dec (if dzero x then false else negb (dneg x)) (dcoef x) (dexp x)).
Definition dabs (x : decimal) : decimal := fix_ (Dec false (dcoef x) (dexp x)).

(** Exact quotients drop trailing zeros down to the ideal exponent. *)
Fixpoint strip (fuel : nat) (c : N) (e ideal : Z) : N * Z :=
  match fuel with
  | O => (c, e)
  | S f => if (e <? ideal) && (c mod 10 =? 0)%N then strip f (c / 10)%N (e + 1) ideal
           else (c, e)
  end.
Definition div_shift (x y : decimal) : Z :=
  Z.of_nat (ndigits (dcoef y)) - Z.of_nat (ndigits (dcoef x)) + Z.of_nat PREC + 1.
Definition div_exp (x y : decimal) : Z := dexp x - dexp y - div_shift x y.
Definition div_num (x y : decimal) : N := (dcoef x * Z.to_N (10 ^ Z.max 0 (div_shift x y)))%N.
Definition div_den (x y : decimal) : N := (dcoef y * Z.to_N (10 ^ Z.max 0 (- div_shift x y)))%N.
Definition ddiv (x y : decimal) : res decimal :=
  let neg := xorb (dneg x) (dneg y) in
  if dzero y then (if dzero x then Raise InvalidOperation else Raise DivisionByZero)
  else if dzero x then Ok (fix_ (Dec neg 0 (dexp x - dexp y)))
  else
    let q := (div_num x y / div_den x y)%N in
    if (div_num x y mod div_den x y =? 0)%N then
      let '(c, e) := strip (ndigits q) q (div_exp x y) (dexp x - dexp y) in
      Ok (fix_ (Dec neg c e))
    else Ok (fix_ (Dec neg (if (q mod 5 =? 0)%N then q + 1 else q)%N (div_exp x y))).

(** Exact numeric comparison: [==], [<], [<=], [>] and [>=] read it. *)
Global Instance decimal_cmp : Cmp decimal := λ x y,
  let e := Z.min (dexp x) (dexp y) in dscale x e ?= dscale y e.
Definition deqb (x y : decimal) : bool := match cmp x y with Eq => true | _ => false end.
Definition dmax (x y : decimal) : decimal := if ltb x y then y else x.
Definition dmin (x y : decimal) : decimal := if ltb y x then y else x.

(** [x.quantize(q, rounding=ROUND_HALF_EVEN)]: raises when the coefficient would
    exceed the precision. *)
Definition quantize (x q : decimal) : res decimal :=
  if dzero x then Ok (Dec (dneg x) 0 (dexp q))
  else if Z.of_nat PREC <? adjusted x - dexp q + 1 then Raise InvalidOperation
  else
    let r := rescale x (dexp q) in
    if (PREC <? ndigits (dcoef r))%nat then Raise InvalidOperation else Ok r.

(** [x.to_integral_value(rounding=ROUND_HALF_EVEN)] *)
Definition to_integral_value (x : decimal) : decimal :=
  if 0 <=? dexp x then x else rescale x 0.

(** [x.sqrt()] of a non-negative value. *)
Definition dsqrt (x : decimal) : res decimal :=
  if dzero x then Ok (fix_ (Dec (dneg x) 0 (dexp x / 2)))
  else if dneg x then Raise InvalidOperation
  else
    let p := Z.of_nat PREC + 1 in
    let odd := Z.odd (dexp x) in
    let len := Z.of_nat (ndigits (dcoef x)) in
    let c := if odd then Z.of_N (dcoef x) * 10 else Z.of_N (dcoef x) in
    let l := if odd then len / 2 + 1 else (len + 1) / 2 in
    let shift := p - l in
    let c' := if 0 <=? shift then c * 100 ^ shift else c / 100 ^ (- shift) in
    let exact := if 0 <=? shift then true else c mod 100 ^ (- shift) =? 0 in
    let n := Z.sqrt c' in
    let e := dexp x / 2 in
    if exact && (n * n =? c')
    then Ok (fix_ (Dec false (Z.to_N (if 0 <=? shift then n / 10 ^ shift
                                      else n * 10 ^ (- shift))) e))
    else Ok (fix_ (Dec false (Z.to_N (if n mod 5 =? 0 then n + 1 else n)) (e - shift))).

(** ** [str(x)]: scientific notation only for large or tiny exponents *)

Definition zeros (n : nat) : string := string_of_list_ascii (replicate n "0"%char).
Definition signed_str (z : Z) : string :=
  if z <? 0 then str_Z z else String "+" (str_Z z).
Definition str_decimal (d : decimal) : string :=
  let ds := str_N (dcoef d) in
  let n := String.length ds in
  let left := dexp d + Z.of_nat n in
  let dot := if (dexp d <=? 0) && (-6 <? left) then left else 1 in
  let body :=
    if dot <=? 0 then ("0." +:+ zeros (Z.to_nat (- dot)) +:+ ds)%string
    else if Z.of_nat n <=? dot then (ds +:+ zeros (Z.to_nat (dot - Z.of_nat n)))%string
    else (String.substring 0 (Z.to_nat dot) ds +:+ "."
          +:+ String.substring (Z.to_nat dot) (n - Z.to_nat dot) ds)%string in
  let ex := if left =? dot then ""%string else ("E" +:+ signed_str (left - dot))%string in
  ((if dneg d then "-" else "") +:+ body +:+ ex)%string.

(** ** Lemmas: powers of ten and values *)

Lemma p10_pos e : (0 < p10 e)%Q.
Proof. apply Qpower_0_lt. reflexivity. Qed.

Lemma p10_plus a b : (p10 (a + b) == p10 a * p10 b)%Q.
Proof. apply Qpower_plus. discriminate. Qed.

Lemma p10_Z e : 0 <= e → (p10 e == inject_Z (10 ^ e))%Q.
Proof. intros He. unfold p10. by rewrite Zpower_Qpower. Qed.

Lemma inject_Z_mult_le a b q : (0 < q)%Q → a <= b → (inject_Z a * q <= inject_Z b * q)%Q.
Proof. intros Hq Hab. apply Qmult_le_compat_r; [by rewrite <- Zle_Qle | lra]. Qed.

Lemma inject_Z_mult_le_inv a b q : (0 < q)%Q → (inject_Z a * q <= inject_Z b * q)%Q → a <= b.
Proof.
  intros Hq H. rewrite !(Qmult_comm _ q) in H. apply Qmult_le_l in H; [|done].
  by rewrite <- Zle_Qle in H.
Qed.

Lemma dval_scale d e : e <= dexp d → (dval d == inject_Z (dscale d e) * p10 e)%Q.
Proof.
  intros He. unfold dval, dscale. rewrite inject_Z_mult, <- p10_Z by lia.
  rewrite <- Qmult_assoc, <- p10_plus. by replace (dexp d - e + e) with (dexp d) by lia.
Qed.

Lemma Qcompare_scale a b q : (0 < q)%Q → (inject_Z a * q ?= inject_Z b * q)%Q = (a ?= b).
Proof.
  intros Hq. symmetry. destruct (Z.compare_spec a b) as [->|L|L].
  - symmetry. apply (proj1 (Qeq_alt _ _)). reflexivity.
  - symmetry. apply Qlt_alt. apply Qmult_lt_compat_r; [done|]. by rewrite <- Zlt_Qlt.
  - symmetry. apply Qgt_alt. apply Qmult_lt_compat_r; [done|]. by rewrite <- Zlt_Qlt.
Qed.

Lemma cmp_dval x y : cmp x y = (dval x ?= dval y)%Q.
Proof.
  unfold cmp, decimal_cmp. rewrite <- (Qcompare_scale _ _ (p10 (Z.min (dexp x) (dexp y))))
    by apply p10_pos.
  by rewrite <- !dval_scale by lia.
Qed.

Global Instance decimal_total : TotalCmp decimal.
Proof.
  split; intros *; rewrite !cmp_dval; [symmetry; apply Qcompare_antisym|].
  rewrite <- !Qle_alt. apply Qle_trans.
Qed.

Lemma dle_val (x y : decimal) : cmp_le x y ↔ (dval x <= dval y)%Q.
Proof. unfold cmp_le. by rewrite cmp_dval, <- Qle_alt. Qed.

Lemma dlt_val (x y : decimal) : ltb x y = true ↔ (dval x < dval y)%Q.
Proof. unfold ltb. rewrite cmp_dval, Qlt_alt. destruct (_ ?= _)%Q; naive_solver. Qed.

Lemma dlt_false_val (x y : decimal) : ltb x y = false ↔ (dval y <= dval x)%Q.
Proof.
  rewrite <- not_true_iff_false, dlt_val. split; [apply Qnot_lt_le | apply Qle_not_lt].
Qed.

Lemma deqb_val (x y : decimal) : deqb x y = true ↔ (dval x == dval y)%Q.
Proof. unfold deqb. rewrite cmp_dval, Qeq_alt. destruct (_ ?= _)%Q; naive_solver. Qed.

Lemma dval_sign d :
  (dval d == (if dneg d then -1 else 1) * (inject_Z (Z.of_N (dcoef d)) * p10 (dexp d)))%Q.
Proof. unfold dval, dint. destruct (dneg d); rewrite ?inject_Z_opp; ring. Qed.

Lemma dzero_val d : dzero d = true ↔ (dval d == 0)%Q.
Proof.
  unfold dzero. rewrite N.eqb_eq, dval_sign. pose proof (p10_pos (dexp d)) as Hp. split.
  - intros ->. simpl. destruct (dneg d); ring.
  - intros H. destruct (decide (dcoef d = 0%N)) as [|Hn]; [done|]. exfalso.
    assert (0 < inject_Z (Z.of_N (dcoef d)) * p10 (dexp d))%Q.
    { apply Qmult_lt_0_compat; [|done]. rewrite <- (Zlt_Qlt 0). lia. }
    destruct (dneg d); lra.
Qed.

Lemma copy_negate_val d : (dval (copy_negate d) == - dval d)%Q.
Proof. rewrite !dval_sign. unfold copy_negate; simpl. destruct (dneg d); simpl; ring. Qed.

Lemma of_int_val z : (dval (of_int z) == inject_Z z)%Q.
Proof.
  unfold of_int, dval, dint; simpl. change (p10 0) with 1%Q. rewrite Qmult_1_r.
  destruct (Z.ltb_spec z 0); rewrite N2Z.inj_abs_N; [|by rewrite Z.abs_eq].
  by rewrite Z.abs_neq, Z.opp_involutive by lia.
Qed.

Lemma dadd_exact_val x y : (dval (dadd_exact x y) == dval x + dval y)%Q.
Proof.
  set (e := Z.min (dexp x) (dexp y)).
  rewrite (dval_scale x e), (dval_scale y e) by lia.
  unfold dadd_exact. fold e. set (s := dscale x e + dscale y e).
  assert (dint (Dec (if s =? 0 then (if dzero x && dzero y then dneg x && dneg y else false)
                     else s <? 0) (Z.abs_N s) e) = s) as Hs.
  { unfold dint; simpl. rewrite N2Z.inj_abs_N.
    destruct (Z.eqb_spec s 0) as [->|]; [repeat case_match; done|].
    destruct (Z.ltb_spec s 0); lia. }
  unfold dval. rewrite Hs; simpl. unfold s. rewrite inject_Z_plus. ring.
Qed.

Lemma dmul_exact_val x y : (dval (dmul_exact x y) == dval x * dval y)%Q.
Proof.
  rewrite !dval_sign. unfold dmul_exact; simpl.
  rewrite p10_plus, N2Z.inj_mul, inject_Z_mult. destruct (dneg x), (dneg y); simpl; ring.
Qed.

(** ** Lemmas: digits and rounding *)

Lemma ndigits_fuel_bounds f n : (0 < n < 2 ^ N.of_nat f)%N →
  (10 ^ (N.of_nat (ndigits_fuel f n) - 1) <= n < 10 ^ N.of_nat (ndigits_fuel f n))%N.
Proof.
  revert n; induction f as [|f IH]; intros n Hn.
  { change (2 ^ N.of_nat 0)%N with 1%N in Hn. lia. }
  cbn [ndigits_fuel]. destruct (N.ltb_spec n 10).
  { change (10 ^ (N.of_nat 1 - 1))%N with 1%N. change (10 ^ N.of_nat 1)%N with 10%N. lia. }
  rewrite Nat2N.inj_succ, N.pow_succ_r' in Hn.
  assert (0 < n / 10 < 2 ^ N.of_nat f)%N as H10.
  { set (b := (2 ^ N.of_nat f)%N) in *. split; [by apply N.div_str_pos; lia|].
    apply N.Div0.div_lt_upper_bound. lia. }
  specialize (IH _ H10). revert IH. generalize (ndigits_fuel f (n / 10)%N) as k. intros k IH.
  pose proof (N.div_mod n 10 ltac:(lia)) as Hdm. pose proof (N.mod_lt n 10 ltac:(lia)) as Hm.
  assert (N.of_nat (S k) - 1 = N.of_nat k)%N as -> by lia.
  rewrite Nat2N.inj_succ, N.pow_succ_r'. split; [|lia].
  destruct k as [|k]; [change (10 ^ N.of_nat 0)%N with 1%N in *; lia|].
  assert (N.of_nat (S k) - 1 = N.of_nat k)%N as E by lia. rewrite E in IH.
  rewrite Nat2N.inj_succ, N.pow_succ_r' in IH |- *.
  revert IH Hdm Hm. generalize (n / 10)%N (n mod 10)%N (10 ^ N.of_nat k)%N. intros; lia.
Qed.

Lemma ndigits_bounds n : (0 < n)%N →
  (10 ^ (N.of_nat (ndigits n) - 1) <= n < 10 ^ N.of_nat (ndigits n))%N.
Proof.
  intros Hn. apply ndigits_fuel_bounds. split; [done|].
  rewrite N2Nat.id. apply N.size_gt.
Qed.

Lemma p10_le a b : a <= b → (p10 a <= p10 b)%Q.
Proof.
  intros H. replace b with (b - a + a) by lia. rewrite p10_plus, (p10_Z (b - a)) by lia.
  rewrite <- (Qmult_1_l (p10 a)) at 1. apply (inject_Z_mult_le 1); [apply p10_pos|]. lia.
Qed.

Lemma dmag_nonneg d : (0 <= dmag d)%Q.
Proof.
  unfold dmag. pose proof (p10_pos (dexp d)).
  apply Qmult_le_0_compat; [|lra]. rewrite <- (Zle_Qle 0). lia.
Qed.

Lemma dval_mag d : (dval d == (if dneg d then - dmag d else dmag d))%Q.
Proof. rewrite dval_sign. unfold dmag. destruct (dneg d); ring. Qed.

Lemma div_half_even_le n m B : (0 < m)%N → (n <= B * m)%N → (div_half_even n m <= B)%N.
Proof.
  intros Hm Hn. unfold div_half_even. pose proof (N.div_mod n m ltac:(lia)) as Hdm.
  pose proof (N.mod_lt n m ltac:(lia)) as Hr.
  revert Hdm Hr. generalize (n / m)%N (n mod m)%N. intros q r Hdm Hr.
  assert (q < B ∨ q = B ∧ r = 0)%N as [?|[-> ->]].
  { destruct (N.lt_trichotomy q B) as [?|[->|?]]; [by left|right; nia|exfalso; nia]. }
  - repeat case_match; lia.
  - destruct (N.compare_spec (2 * 0) m); lia.
Qed.

Lemma div_half_even_ge n m B : (0 < m)%N → (B * m <= n)%N → (B <= div_half_even n m)%N.
Proof.
  intros Hm Hn. unfold div_half_even. pose proof (N.div_mod n m ltac:(lia)) as Hdm.
  pose proof (N.mod_lt n m ltac:(lia)) as Hr.
  revert Hdm Hr. generalize (n / m)%N (n mod m)%N. intros q r Hdm Hr.
  assert (B <= q)%N by nia. repeat case_match; lia.
Qed.

Lemma Z_of_N_pow10 n : Z.of_N (10 ^ n) = 10 ^ Z.of_N n.
Proof. by rewrite N2Z.inj_pow. Qed.

(** What rounding does to a coefficient that is too long: [k] digits go. *)
Lemma fix_long d : (PREC < ndigits (dcoef d))%nat →
  ∃ k : N, (1 <= k)%N ∧ (10 ^ (27 + k) <= dcoef d)%N ∧
    (dmag (fix_ d) == inject_Z (Z.of_N (div_half_even (dcoef d) (10 ^ k)))
                      * p10 (dexp d + Z.of_N k))%Q.
Proof.
  intros Hn. exists (N.of_nat (ndigits (dcoef d) - PREC)). change PREC with 28%nat in *.
  assert (dcoef d ≠ 0)%N as Hc by (intros E; rewrite E in Hn; change (ndigits 0) with 1%nat in Hn; lia).
  destruct (ndigits_bounds (dcoef d)) as [Hlo _]; [lia|].
  split; [lia|]. split.
  { by replace (27 + N.of_nat (ndigits (dcoef d) - 28))%N
      with (N.of_nat (ndigits (dcoef d)) - 1)%N by lia. }
  unfold fix_. change PREC with 28%nat.
  destruct (Nat.leb_spec (ndigits (dcoef d)) 28); [lia|].
  set (c := div_half_even _ _). destruct (N.eqb_spec c (10 ^ N.of_nat 28)) as [E|E];
    unfold dmag; simpl; rewrite nat_N_Z; [|reflexivity].
  rewrite E, p10_plus. change (p10 1) with 10%Q.
  change (Z.of_N (10 ^ N.of_nat 28 / 10)) with (10 ^ 27).
  change (Z.of_N (10 ^ N.of_nat 28)) with (10 ^ 27 * 10). rewrite inject_Z_mult.
  change (inject_Z 10) with 10%Q. ring.
Qed.

Lemma dmag_N_le (a b : N) e : (a <= b)%N →
  (inject_Z (Z.of_N a) * p10 e <= inject_Z (Z.of_N b) * p10 e)%Q.
Proof. intros. apply inject_Z_mult_le; [apply p10_pos | lia]. Qed.

(** [c 10^(e+k)] as a multiple of [10^e]. *)
Lemma mag_shift (c k : N) e :
  (inject_Z (Z.of_N c) * p10 (e + Z.of_N k) == inject_Z (Z.of_N (c * 10 ^ k)) * p10 e)%Q.
Proof.
  rewrite p10_plus, (p10_Z (Z.of_N k)), N2Z.inj_mul, Z_of_N_pow10, inject_Z_mult by lia. ring.
Qed.

Lemma mag_align b e : e <= dexp b →
  (dmag b == inject_Z (Z.of_N (dcoef b * 10 ^ Z.to_N (dexp b - e))) * p10 e)%Q.
Proof.
  intros He. unfold dmag. rewrite <- mag_shift.
  by replace (e + Z.of_N (Z.to_N (dexp b - e))) with (dexp b) by lia.
Qed.

(** A multiple of [10^(e+k)] compared with [c 10^e]. *)
Lemma mag_align_le (c k : N) d e : e = dexp d → (inject_Z (Z.of_N c) * p10 (e + Z.of_N k) <= dmag d)%Q →
  (c * 10 ^ k <= dcoef d)%N.
Proof.
  intros -> H. rewrite mag_shift in H. apply inject_Z_mult_le_inv in H; [lia | apply p10_pos].
Qed.
Lemma mag_align_ge (c k : N) d e : e = dexp d → (dmag d <= inject_Z (Z.of_N c) * p10 (e + Z.of_N k))%Q →
  (dcoef d <= c * 10 ^ k)%N.
Proof.
  intros -> H. rewrite mag_shift in H. apply inject_Z_mult_le_inv in H; [lia | apply p10_pos].
Qed.

Lemma mag_fits b e : fits b → dexp b <= e → (dmag b < p10 (e + 28))%Q.
Proof.
  unfold fits, dmag. intros Hf He. eapply Qlt_le_trans; [|apply p10_le, Zplus_le_compat_r, He].
  rewrite Z.add_comm, p10_plus, (p10_Z 28) by lia.
  apply Qmult_lt_compat_r; [apply p10_pos|]. rewrite <- Zlt_Qlt.
  change PREC with 28%nat in Hf. assert (10 ^ 28 = Z.of_N (10 ^ N.of_nat 28)) as -> by (vm_compute; reflexivity).
  lia.
Qed.

Lemma fix_short d : (ndigits (dcoef d) <= PREC)%nat → fix_ d = d.
Proof. intros H. unfold fix_. by rewrite (proj2 (Nat.leb_le _ _) H). Qed.

Lemma fix_neg d : dneg (fix_ d) = dneg d.
Proof. unfold fix_. repeat case_match; done. Qed.

Lemma mag_lower (c k : N) e : (10 ^ (27 + k) <= c)%N →
  (p10 (e + Z.of_N k + 27) <= inject_Z (Z.of_N c) * p10 e)%Q.
Proof.
  intros H. apply Qle_trans with (inject_Z (Z.of_N (10 ^ (27 + k))) * p10 e)%Q; [|by apply dmag_N_le].
  rewrite Z_of_N_pow10, <- p10_Z, <- p10_plus by lia.
  replace (Z.of_N (27 + k) + e) with (e + Z.of_N k + 27) by lia. apply Qle_refl.
Qed.

(** A representable bound survives rounding, in both directions. *)
Lemma fix_mag_le d b : fits b → (dmag d <= dmag b)%Q → (dmag (fix_ d) <= dmag b)%Q.
Proof.
  intros Hb Hd. destruct (le_lt_dec (ndigits (dcoef d)) PREC) as [Hs|Hl].
  { by rewrite fix_short. }
  destruct (fix_long d Hl) as (k & Hk & Hlo & ->).
  destruct (Z.le_gt_cases (dexp d + Z.of_N k) (dexp b)) as [He|He].
  2:{ exfalso. pose proof (mag_lower _ _ (dexp d) Hlo). fold (dmag d) in *.
      pose proof (mag_fits b (dexp d + Z.of_N k - 1) Hb ltac:(lia)) as Hlt.
      replace (dexp d + Z.of_N k - 1 + 28) with (dexp d + Z.of_N k + 27) in Hlt by lia. lra. }
  rewrite (mag_align b (dexp d + Z.of_N k)) in Hd |- * by lia.
  apply dmag_N_le, div_half_even_le; [apply N.neq_0_lt_0, N.pow_nonzero; lia|].
  by apply (mag_align_ge _ _ d) in Hd.
Qed.

Lemma fix_mag_ge d b : fits b → (dmag b <= dmag d)%Q → (dmag b <= dmag (fix_ d))%Q.
Proof.
  intros Hb Hd. destruct (le_lt_dec (ndigits (dcoef d)) PREC) as [Hs|Hl].
  { by rewrite fix_short. }
  destruct (fix_long d Hl) as (k & Hk & Hlo & ->).
  assert (0 < 10 ^ k)%N by (apply N.neq_0_lt_0, N.pow_nonzero; lia).
  destruct (Z.le_gt_cases (dexp d + Z.of_N k) (dexp b)) as [He|He].
  - rewrite (mag_align b (dexp d + Z.of_N k)) in Hd |- * by lia.
    apply dmag_N_le, div_half_even_ge; [done|]. by apply (mag_align_le _ _ d) in Hd.
  - pose proof (mag_fits b (dexp d + Z.of_N k - 1) Hb ltac:(lia)) as Hlt.
    replace (dexp d + Z.of_N k - 1 + 28) with (27 + (dexp d + Z.of_N k)) in Hlt by lia.
    apply Qlt_le_weak. eapply Qlt_le_trans; [done|].
    rewrite p10_plus, (p10_Z 27) by lia. assert (10 ^ 27 = Z.of_N (10 ^ 27)) as -> by (vm_compute; reflexivity).
    apply dmag_N_le, div_half_even_ge; [done|]. by rewrite <- N.pow_add_r.
Qed.

(** The same for signed values. *)
Lemma fix_le d b : fits b → (dval d <= dval b)%Q → (dval (fix_ d) <= dval b)%Q.
Proof.
  intros Hb. rewrite !dval_mag, fix_neg. pose proof (dmag_nonneg d). pose proof (dmag_nonneg b).
  pose proof (dmag_nonneg (fix_ d)). pose proof (fix_mag_le d b Hb).
  pose proof (fix_mag_ge d b Hb). destruct (dneg d), (dneg b); lra.
Qed.

Lemma fix_ge d b : fits b → (dval b <= dval d)%Q → (dval b <= dval (fix_ d))%Q.
Proof.
  intros Hb. rewrite !dval_mag, fix_neg. pose proof (dmag_nonneg d). pose proof (dmag_nonneg b).
  pose proof (dmag_nonneg (fix_ d)). pose proof (fix_mag_le d b Hb).
  pose proof (fix_mag_ge d b Hb). destruct (dneg d), (dneg b); lra.
Qed.

Lemma dadd_le x y b : fits b → (dval x + dval y <= dval b)%Q → (dval (dadd x y) <= dval b)%Q.
Proof. intros Hb H. apply fix_le; [done|]. by rewrite dadd_exact_val. Qed.
Lemma dadd_ge x y b : fits b → (dval b <= dval x + dval y)%Q → (dval b <= dval (dadd x y))%Q.
Proof. intros Hb H. apply fix_ge; [done|]. by rewrite dadd_exact_val. Qed.
Lemma dsub_le x y b : fits b → (dval x - dval y <= dval b)%Q → (dval (dsub x y) <= dval b)%Q.
Proof. intros Hb H. apply dadd_le; [done|]. by rewrite copy_negate_val. Qed.
Lemma dsub_ge x y b : fits b → (dval b <= dval x - dval y)%Q → (dval b <= dval (dsub x y))%Q.
Proof. intros Hb H. apply dadd_ge; [done|]. by rewrite copy_negate_val. Qed.
Lemma dmul_le x y b : fits b → (dval x * dval y <= dval b)%Q → (dval (dmul x y) <= dval b)%Q.
Proof. intros Hb H. apply fix_le; [done|]. by rewrite dmul_exact_val. Qed.
Lemma dmul_ge x y b : fits b → (dval b <= dval x * dval y)%Q → (dval b <= dval (dmul x y))%Q.
Proof. intros Hb H. apply fix_ge; [done|]. by rewrite dmul_exact_val. Qed.

Lemma dabs_nonneg x : (0 <= dval (dabs x))%Q.
Proof. unfold dabs. rewrite dval_mag, fix_neg. apply dmag_nonneg. Qed.

Lemma strip_val fuel c e ideal c' e' : strip fuel c e ideal = (c', e') →
  (inject_Z (Z.of_N c') * p10 e' == inject_Z (Z.of_N c) * p10 e)%Q.
Proof.
  revert c e; induction fuel as [|f IH]; intros c e; simpl; [by intros [= -> ->]|].
  destruct ((e <? ideal) && (c mod 10 =? 0)%N) eqn:E; [|by intros [= -> ->]].
  intros H. rewrite (IH _ _ H). apply andb_true_iff in E as [_ E]. apply N.eqb_eq in E.
  pose proof (N.div_mod c 10 ltac:(lia)) as Hc. rewrite E, N.add_0_r in Hc.
  rewrite Hc at 2. rewrite N2Z.inj_mul, inject_Z_mult, p10_plus.
  change (p10 1) with (inject_Z (Z.of_N 10)). ring.
Qed.

(** The scaled quotient: [num/den 10^exp = |x|/|y|]. *)
Lemma div_parts x y :
  (inject_Z (Z.of_N (div_num x y)) * p10 (div_exp x y) * dmag y ==
   inject_Z (Z.of_N (div_den x y)) * dmag x)%Q.
Proof.
  unfold div_num, div_den, dmag. rewrite !N2Z.inj_mul, !Z2N.id, !inject_Z_mult by lia.
  rewrite <- !p10_Z by lia. set (s := div_shift x y).
  transitivity (inject_Z (Z.of_N (dcoef x)) * inject_Z (Z.of_N (dcoef y)) *
                p10 (Z.max 0 s + (div_exp x y + dexp y)))%Q; [rewrite !p10_plus; ring|].
  replace (Z.max 0 s + (div_exp x y + dexp y)) with (Z.max 0 (- s) + dexp x)
    by (unfold div_exp; fold s; lia).
  rewrite p10_plus. ring.
Qed.

Lemma dmag_pos x : dzero x = false → (0 < dcoef x)%N.
Proof. unfold dzero. rewrite N.eqb_neq. lia. Qed.

Lemma div_den_pos x y : dzero y = false → (0 < div_den x y)%N.
Proof.
  intros H%dmag_pos. unfold div_den. apply N.mul_pos_pos; [done|].
  pose proof (Z.pow_pos_nonneg 10 (Z.max 0 (- div_shift x y))). lia.
Qed.

(** The quotient keeps more digits than the precision. *)
Lemma div_den_num x y : dzero x = false → dzero y = false → (div_den x y < div_num x y)%N.
Proof.
  intros Hx%dmag_pos Hy%dmag_pos. unfold div_num, div_den.
  destruct (ndigits_bounds _ Hx) as [Hx1 _], (ndigits_bounds _ Hy) as [_ Hy2].
  assert (0 < N.of_nat (ndigits (dcoef x)))%N as Hn.
  { destruct (ndigits_bounds _ Hx) as [? Hlt].
    destruct (ndigits (dcoef x)); [change (10 ^ N.of_nat 0)%N with 1%N in *; lia | lia]. }
  set (s := div_shift x y). set (nx := N.of_nat (ndigits (dcoef x))) in *.
  set (ny := N.of_nat (ndigits (dcoef y))) in *.
  apply N.lt_le_trans with (10 ^ ny * 10 ^ Z.to_N (Z.max 0 (- s)))%N.
  { rewrite Z2N.inj_pow by lia. apply N.mul_lt_mono_pos_r; [|done].
    apply N.neq_0_lt_0, N.pow_nonzero. done. }
  apply N.le_trans with (10 ^ (nx - 1) * 10 ^ Z.to_N (Z.max 0 s))%N.
  { rewrite <- !N.pow_add_r. apply N.pow_le_mono_r; [done|].
    unfold s, div_shift, nx, ny in *. change PREC with 28%nat. lia. }
  rewrite Z2N.inj_pow by lia. by apply N.mul_le_mono_r.
Qed.

Lemma div_exp_neg x y : dzero x = false → dzero y = false →
  (dmag x <= dmag y)%Q → div_exp x y < 0.
Proof.
  intros Hx Hy Hle. pose proof (div_den_num x y Hx Hy) as Hnd.
  pose proof (div_parts x y) as Hp. apply Z.nle_gt. intros He.
  assert (0 < dmag y)%Q.
  { unfold dmag. apply Qmult_lt_0_compat; [|apply p10_pos]. rewrite <- (Zlt_Qlt 0).
    apply dmag_pos in Hy. lia. }
  assert (1 <= p10 (div_exp x y))%Q as H1 by (apply (p10_le 0); lia).
  assert (inject_Z (Z.of_N (div_den x y)) < inject_Z (Z.of_N (div_num x y)))%Q as H2
    by (rewrite <- Zlt_Qlt; lia).
  assert (0 <= inject_Z (Z.of_N (div_den x y)))%Q by (rewrite <- (Zle_Qle 0); lia).
  assert (dmag y * inject_Z (Z.of_N (div_den x y)) < dmag y * inject_Z (Z.of_N (div_num x y)))%Q
    by by apply Qmult_lt_l.
  assert (inject_Z (Z.of_N (div_num x y)) * dmag y * 1 <=
          inject_Z (Z.of_N (div_num x y)) * dmag y * p10 (div_exp x y))%Q.
  { rewrite !(Qmult_comm (inject_Z _ * _)). apply Qmult_le_compat_r; [done|].
    apply Qmult_le_0_compat; lra. }
  assert (inject_Z (Z.of_N (div_den x y)) * dmag x <= inject_Z (Z.of_N (div_den x y)) * dmag y)%Q.
  { rewrite !(Qmult_comm (inject_Z _)). by apply Qmult_le_compat_r. }
  lra.
Qed.

(** [num <= den 10^(-exp)] when [|x| <= |y|]. *)
Lemma div_num_le x y : dzero x = false → dzero y = false → (dmag x <= dmag y)%Q →
  (div_num x y <= 10 ^ Z.to_N (- div_exp x y) * div_den x y)%N.
Proof.
  intros Hx Hy Hle. pose proof (div_exp_neg x y Hx Hy Hle) as He.
  pose proof (div_parts x y) as Hp. set (e := div_exp x y) in *.
  assert (0 < dmag y)%Q as Hyp.
  { unfold dmag. apply Qmult_lt_0_compat; [|apply p10_pos]. rewrite <- (Zlt_Qlt 0).
    apply dmag_pos in Hy. lia. }
  assert (0 <= inject_Z (Z.of_N (div_den x y)))%Q by (rewrite <- (Zle_Qle 0); lia).
  assert (dmag y * (inject_Z (Z.of_N (div_num x y)) * p10 e) <=
          dmag y * inject_Z (Z.of_N (div_den x y)))%Q as H1.
  { assert (inject_Z (Z.of_N (div_den x y)) * dmag x <=
            inject_Z (Z.of_N (div_den x y)) * dmag y)%Q; [|lra].
    rewrite !(Qmult_comm (inject_Z _)). by apply Qmult_le_compat_r. }
  apply Qmult_le_l in H1; [|done].
  assert (inject_Z (Z.of_N (div_den x y)) ==
          inject_Z (Z.of_N (10 ^ Z.to_N (- e) * div_den x y)) * p10 e)%Q as H2.
  { rewrite N2Z.inj_mul, inject_Z_mult, Z_of_N_pow10, <- p10_Z, Z2N.id by lia.
    transitivity (inject_Z (Z.of_N (div_den x y)) * p10 (- e + e))%Q; [|rewrite p10_plus; ring].
    replace (- e + e) with 0 by lia. change (p10 0) with 1%Q. ring. }
  rewrite H2 in H1. apply inject_Z_mult_le_inv in H1; [lia | apply p10_pos].
Qed.

Lemma unit_mag (c : N) e : e <= 0 → (c <= 10 ^ Z.to_N (- e))%N →
  (inject_Z (Z.of_N c) * p10 e <= 1)%Q.
Proof.
  intros He Hc. apply Qle_trans with (inject_Z (Z.of_N (10 ^ Z.to_N (- e))) * p10 e)%Q.
  { by apply dmag_N_le. }
  rewrite Z_of_N_pow10, <- p10_Z, <- p10_plus, Z2N.id by lia.
  replace (- e + e) with 0 by lia. apply Qle_refl.
Qed.

Lemma fix_unit c e : e <= 0 → (inject_Z (Z.of_N c) * p10 e <= 1)%Q →
  (0 <= dval (fix_ (Dec false c e)) <= 1)%Q.
Proof.
  intros He Hc. split.
  - change 0%Q with (dval d0) at 1. apply fix_ge; [done|].
    rewrite dval_mag. change (dval d0) with 0%Q. apply dmag_nonneg.
  - change 1%Q with (dval d1). apply fix_le; [done|]. rewrite dval_mag. done.
Qed.

Lemma dval_pos_sign x : (0 < dval x)%Q → dneg x = false ∧ dzero x = false.
Proof.
  intros H. rewrite dval_mag in H. pose proof (dmag_nonneg x). split.
  - destruct (dneg x); [lra | done].
  - apply not_true_is_false. intros Hz%dzero_val. rewrite dval_mag in Hz. destruct (dneg x); lra.
Qed.

(** A quotient of magnitudes [0 <= x <= y], [y > 0], stays in the unit interval. *)
Lemma ddiv_unit x y : (0 <= dval x)%Q → (dval x <= dval y)%Q → (0 < dval y)%Q →
  ∃ r, ddiv x y = Ok r ∧ (0 <= dval r <= 1)%Q.
Proof.
  intros Hx Hxy Hy. destruct (dval_pos_sign y Hy) as [Hny Hzy]. unfold ddiv. rewrite Hzy.
  destruct (dzero x) eqn:Hzx.
  { eexists; split; [done|]. rewrite fix_short by (cbn [dcoef]; change (ndigits 0) with 1%nat; change PREC with 28%nat; lia).
    set (z := Dec _ _ _). assert (dval z == 0)%Q as -> by by apply dzero_val. split; lra. }
  assert (dneg x = false) as Hnx.
  { apply dval_pos_sign. destruct (Qle_lt_or_eq _ _ Hx) as [|E]; [done|].
    symmetry in E. apply dzero_val in E. congruence. }
  rewrite Hnx, Hny; simpl. rewrite !dval_mag, Hnx, Hny in Hxy.
  pose proof (div_exp_neg x y Hzx Hzy Hxy) as He.
  pose proof (div_num_le x y Hzx Hzy Hxy) as Hn. pose proof (div_den_pos x y Hzy) as Hd.
  pose proof (N.div_mod (div_num x y) (div_den x y) ltac:(lia)) as Hdm.
  revert Hn Hdm. generalize (div_num x y / div_den x y)%N (div_num x y mod div_den x y)%N.
  intros q r Hn Hdm.
  set (B := (10 ^ Z.to_N (- div_exp x y))%N) in *. destruct (N.eqb_spec r 0) as [->|Hr].
  - destruct (strip _ _ _ _) as [c e] eqn:Es. eexists; split; [done|].
    pose proof (strip_val _ _ _ _ _ _ Es) as Hv.
    assert (inject_Z (Z.of_N c) * p10 e <= 1)%Q as H1.
    { rewrite Hv. apply unit_mag; [lia|]. fold B. nia. }
    split.
    + change 0%Q with (dval d0) at 1. apply fix_ge; [done|].
      rewrite dval_mag. change (dval d0) with 0%Q. apply dmag_nonneg.
    + change 1%Q with (dval d1). apply fix_le; [done|]. rewrite dval_mag. done.
  - eexists; split; [done|]. apply fix_unit; [lia|]. apply unit_mag; [lia|]. fold B.
    assert (q < B)%N by nia. case_match; lia.
Qed.

(** ** Lemmas: quantize *)

(** Rounding to an integer number of quanta stays between integer bounds. *)
Lemma rescale_le x e c : (dval x <= inject_Z c * p10 e)%Q →
  (dval (rescale x e) <= inject_Z c * p10 e)%Q.
Proof.
  intros H. unfold rescale. destruct (Z.leb_spec e (dexp x)) as [He|He].
  - rewrite (dval_scale x e He) in H. unfold dval, dint, dscale, dint in *; simpl in *.
    destruct (dneg x); rewrite N2Z.inj_mul, Z2N.id by lia; [|done].
    by replace (- (Z.of_N (dcoef x) * 10 ^ (dexp x - e)))
      with (- Z.of_N (dcoef x) * 10 ^ (dexp x - e)) by lia.
  - set (k := Z.to_N (e - dexp x)). replace (Z.to_N (10 ^ (e - dexp x))) with (10 ^ k)%N
      by (unfold k; rewrite Z2N.inj_pow by lia; done).
    unfold dval, dint in *; simpl. destruct (dneg x) eqn:Hn; apply inject_Z_mult_le;
      try apply p10_pos; replace e with (dexp x + Z.of_N k) in H by lia.
    + rewrite p10_plus, (p10_Z (Z.of_N k)), (Qmult_comm (p10 _)), Qmult_assoc, <- inject_Z_mult in H
        by lia.
      apply inject_Z_mult_le_inv in H; [|apply p10_pos]. rewrite <- Z_of_N_pow10 in H.
      destruct (Z.le_gt_cases 0 c) as [|Hc]; [lia|].
      assert (Z.to_N (- c) <= div_half_even (dcoef x) (10 ^ k))%N; [|lia].
      apply div_half_even_ge; [apply N.neq_0_lt_0, N.pow_nonzero; lia|].
      apply N2Z.inj_le. rewrite N2Z.inj_mul, Z2N.id by lia. lia.
    + rewrite p10_plus, (p10_Z (Z.of_N k)), (Qmult_comm (p10 _)), Qmult_assoc, <- inject_Z_mult in H
        by lia.
      apply inject_Z_mult_le_inv in H; [|apply p10_pos]. rewrite <- Z_of_N_pow10 in H.
      assert (0 < 10 ^ k)%N by (apply N.neq_0_lt_0, N.pow_nonzero; lia).
      assert (0 <= c) by nia.
      assert (div_half_even (dcoef x) (10 ^ k) <= Z.to_N c)%N; [|lia].
      apply div_half_even_le; [done|].
      apply N2Z.inj_le. rewrite N2Z.inj_mul, Z2N.id by lia. lia.
Qed.

Lemma rescale_opp x e : rescale (copy_negate x) e = copy_negate (rescale x e).
Proof. unfold rescale, copy_negate; simpl. by destruct (e <=? dexp x). Qed.

Lemma rescale_ge x e c : (inject_Z c * p10 e <= dval x)%Q →
  (inject_Z c * p10 e <= dval (rescale x e))%Q.
Proof.
  intros H. pose proof (rescale_le (copy_negate x) e (- c)) as Hn.
  rewrite rescale_opp, !copy_negate_val, inject_Z_opp in Hn. lra.
Qed.

Lemma ndigits_le n k : (n < 10 ^ N.of_nat k)%N → (0 < k)%nat → (ndigits n <= k)%nat.
Proof.
  intros Hn Hk. destruct (decide (n = 0)%N) as [->|].
  { change (ndigits 0) with 1%nat. lia. }
  destruct (ndigits_bounds n) as [Hlo _]; [lia|].
  apply Nat.nlt_ge. intros Hlt.
  assert (10 ^ N.of_nat k <= 10 ^ (N.of_nat (ndigits n) - 1))%N by (apply N.pow_le_mono_r; lia).
  lia.
Qed.

Lemma adjusted_mag x : dzero x = false → (p10 (adjusted x) <= dmag x)%Q.
Proof.
  intros Hx%dmag_pos. destruct (ndigits_bounds _ Hx) as [Hlo Hhi]. unfold adjusted, dmag.
  assert (ndigits (dcoef x) ≠ 0%nat) as Hn.
  { intros E. rewrite E in Hhi. change (10 ^ N.of_nat 0)%N with 1%N in Hhi. lia. }
  replace (dexp x + Z.of_nat (ndigits (dcoef x)) - 1)
    with (Z.of_N (N.of_nat (ndigits (dcoef x)) - 1) + dexp x) by lia.
  rewrite p10_plus, p10_Z, <- Z_of_N_pow10 by lia. by apply dmag_N_le.
Qed.

(** [quantize] returns, between the same integer bounds, when those leave room. *)
Lemma quantize_between x q c1 c2 :
  - 10 ^ 27 < c1 → c2 < 10 ^ 27 →
  (inject_Z c1 * p10 (dexp q) <= dval x)%Q → (dval x <= inject_Z c2 * p10 (dexp q))%Q →
  ∃ r, quantize x q = Ok r ∧
    (inject_Z c1 * p10 (dexp q) <= dval r)%Q ∧ (dval r <= inject_Z c2 * p10 (dexp q))%Q.
Proof.
  intros H1 H2 Hlo Hhi. unfold quantize. destruct (dzero x) eqn:Hz.
  { eexists; split; [done|]. apply dzero_val in Hz. rewrite Hz in Hlo, Hhi.
    set (z := Dec _ _ _). assert (dval z == 0)%Q as -> by by apply dzero_val. split; lra. }
  set (e := dexp q) in *.
  assert (inject_Z (- 10 ^ 27) * p10 e < inject_Z c1 * p10 e)%Q as H1'.
  { apply Qmult_lt_compat_r; [apply p10_pos|]. by rewrite <- Zlt_Qlt. }
  assert (inject_Z c2 * p10 e < inject_Z (10 ^ 27) * p10 e)%Q as H2'.
  { apply Qmult_lt_compat_r; [apply p10_pos|]. by rewrite <- Zlt_Qlt. }
  rewrite inject_Z_opp in H1'. rewrite <- p10_Z in H1', H2' by lia.
  assert (adjusted x < 27 + e) as Hadj.
  { apply Z.nle_gt. intros Hc. pose proof (adjusted_mag x Hz) as Ha.
    pose proof (p10_le _ _ Hc) as Hc'. rewrite dval_mag in Hlo, Hhi.
    rewrite p10_plus in Hc'.
    destruct (dneg x); lra. }
  destruct (Z.ltb_spec (Z.of_nat PREC) (adjusted x - e + 1)) as [Hc|_].
  { change (Z.of_nat PREC) with 28 in Hc. lia. }
  pose proof (rescale_le x e c2 Hhi) as Hr2. pose proof (rescale_ge x e c1 Hlo) as Hr1.
  destruct (Nat.ltb_spec PREC (ndigits (dcoef (rescale x e)))) as [Hc|_]; [|eauto].
  exfalso. enough (ndigits (dcoef (rescale x e)) <= PREC)%nat by lia.
  apply ndigits_le; [|change PREC with 28%nat; lia].
  assert (dexp (rescale x e) = e) as He by (unfold rescale; by case_match).
  unfold dval in Hr1, Hr2. rewrite He in Hr1, Hr2.
  apply inject_Z_mult_le_inv in Hr1, Hr2; try apply p10_pos. unfold dint in *.
  apply N.lt_le_trans with (10 ^ 27)%N; [|by vm_compute].
  assert (Z.of_N (10 ^ 27) = 10 ^ 27) by (vm_compute; reflexivity).
  destruct (dneg (rescale x e)); lia.
Qed.

(** ** Lemmas: results hold in the precision *)

Lemma ndigits_fits n : (ndigits n <= PREC)%nat → (n < 10 ^ N.of_nat PREC)%N.
Proof.
  intros H. destruct (decide (n = 0)%N) as [->|Hn]; [by vm_compute|].
  destruct (ndigits_bounds n) as [_ Hhi]; [lia|].
  eapply N.lt_le_trans; [exact Hhi|]. apply N.pow_le_mono_r; lia.
Qed.
Lemma fits_fix x : fits (fix_ x).
Proof.
  unfold fits, fix_. destruct (Nat.leb_spec (ndigits (dcoef x)) PREC) as [H|H]; [by apply ndigits_fits|].
  destruct (ndigits_bounds (dcoef x)) as [_ Hhi].
  { destruct (dcoef x); [|lia]. change (ndigits 0) with 1%nat in H. unfold PREC in H. simpl in H. lia. }
  set (k := (ndigits (dcoef x) - PREC)%nat).
  assert (div_half_even (dcoef x) (10 ^ N.of_nat k) <= 10 ^ N.of_nat PREC)%N as Hle.
  { apply div_half_even_le; [lia|]. rewrite <- N.pow_add_r.
    replace (N.of_nat PREC + N.of_nat k)%N with (N.of_nat (ndigits (dcoef x))) by lia. lia. }
  destruct (N.eqb_spec (div_half_even (dcoef x) (10 ^ N.of_nat k)) (10 ^ N.of_nat PREC)) as [E|E]; simpl.
  - rewrite E. by vm_compute.
  - lia.
Qed.
(** A quotient of a non-negative by a positive value. *)
Lemma ddiv_nonneg x y : dneg x = false → dneg y = false → dzero y = false →
  ∃ q, ddiv x y = Ok q ∧ (0 <= dval q)%Q.
Proof.
  intros Hx Hy Hz. unfold ddiv. rewrite Hz, Hx, Hy. cbn [xorb].
  assert (∀ c e, (0 <= dval (fix_ (Dec false c e)))%Q) as Hpos.
  { intros c e. rewrite dval_mag, fix_neg. cbn [dneg]. apply dmag_nonneg. }
  destruct (dzero x); [eauto|]. destruct (_ =? 0)%N; [|eauto]. destruct (strip _ _ _ _). eauto.
Qed.
Lemma ddiv_zero x y : dzero x = true → dzero y = false → ∃ q, ddiv x y = Ok q ∧ (dval q == 0)%Q.
Proof.
  intros Hx Hy. unfold ddiv. rewrite Hy, Hx. eexists. split; [done|].
  rewrite fix_short; [|simpl; change (ndigits 0) with 1%nat; unfold PREC; simpl; lia].
  by apply dzero_val.
Qed.
Lemma ddiv_total x y : dzero y = false → ∃ q, ddiv x y = Ok q.
Proof.
  intros Hy. unfold ddiv. rewrite Hy. destruct (dzero x); [eauto|].
  destruct (_ =? 0)%N; [|eauto]. destruct (strip _ _ _ _). eauto.
Qed.

(** The literals of the source print back as written. *)
Example str_lit : str_decimal (lit 125000 2) = "1250.00"%string.
Proof. reflexivity. Qed.
Example str_neg_zero : str_decimal (Dec true 0 (-2)) = "-0.00"%string.
Proof. reflexivity. Qed.
Example str_sci : str_decimal (Dec false 123 5) = "1.23E+7"%string.
Proof. reflexivity. Qed.
Example str_tiny : str_decimal (Dec false 12 (-9)) = "1.2E-8"%string.
Proof. reflexivity. Qed.
Example div_third : ddiv d1 (of_int 3) = Ok (Dec false 3333333333333333333333333333 (-28)).
Proof. reflexivity. Qed.
Example div_exact : ddiv d1 (of_int 8) = Ok (lit 125 3).
Proof. reflexivity. Qed.
Example sqrt_2 : dsqrt (of_int 2) = Ok (Dec false 1414213562373095048801688724 (-27)).
Proof. reflexivity. Qed.
Example sqrt_exact : dsqrt (lit 625 2) = Ok (lit 25 1).
Proof. reflexivity. Qed.
