(* ===== verification/DecimalText.v ===== *)
(** * Decimal text: [Decimal(s)] reads back what [str(d)] writes

    The engine's decimals reach a fingerprint, a database or a JSON document as
    [str(d)] and come back through [Decimal(s)].  [parse_decimal] is that
    constructor on ASCII text: a sign, digits with an optional point, an optional
    exponent.  NaN and infinities, underscores and surrounding blanks, which
    [str] never writes for a finite number, are not accepted here.  [strip_prefix] and
    [read_digits] are the readers of fixed parts and fixed-width numbers that the
    calendar and the JSON reader build on. *)

From S2P Require Import Prelude Numeric.

(** ** Reading *)

Definition is_digit (c : ascii) : bool := (48 <=? N_of_ascii c)%N && (N_of_ascii c <=? 57)%N.

(** The longest prefix of digits, and the rest. *)
Fixpoint span_digits (s : string) : string * string :=
  match s with
  | String c s' =>
      if is_digit c then let '(d, r) := span_digits s' in (String c d, r) else (EmptyString, s)
  | EmptyString => (EmptyString, EmptyString)
  end.

(** [int(digits)], continuing from [acc]. *)
Fixpoint digits_val (acc : N) (s : string) : N :=
  match s with
  | String c s' => digits_val (acc * 10 + (N_of_ascii c - 48))%N s'
  | EmptyString => acc
  end.

Definition read_sign (s : string) : bool * string :=
  match s with
  | String c s' =>
      if Ascii.eqb c "-" then (true, s') else if Ascii.eqb c "+" then (false, s') else (false, s)
  | EmptyString => (false, s)
  end.

(** [[-+]?\d+] to the end of the text. *)
Definition parse_int (s : string) : option Z :=
  let '(neg, r) := read_sign s in
  let '(ds, rest) := span_digits r in
  match ds, rest with
  | EmptyString, _ | _, String _ _ => None
  | _, EmptyString => Some (if neg then - Z.of_N (digits_val 0 ds) else Z.of_N (digits_val 0 ds))
  end.

Definition read_fraction (s : string) : string * string :=
  match s with
  | String c s' => if Ascii.eqb c "." then span_digits s' else (EmptyString, s)
  | EmptyString => (EmptyString, EmptyString)
  end.

Definition read_exponent (s : string) : option Z :=
  match s with
  | EmptyString => Some 0
  | String c s' => if Ascii.eqb c "E" || Ascii.eqb c "e" then parse_int s' else None
  end.

Definition parse_decimal (s : string) : option decimal :=
  let '(neg, r) := read_sign s in
  let '(ip, r1) := span_digits r in
  let '(fp, r2) := read_fraction r1 in
  match (ip +:+ fp)%string with
  | EmptyString => None
  | ds => e ← read_exponent r2; Some (Dec neg (digits_val 0 ds) (e - Z.of_nat (String.length fp)))
  end.

(** [s] without the prefix [p]. *)
Fixpoint strip_prefix (p s : string) : option string :=
  match p, s with
  | "", _ => Some s
  | String a p, String b s => if Ascii.eqb a b then strip_prefix p s else None
  | String _ _, "" => None
  end%string.
(** The number written by exactly [w] digits, and the rest. *)
Fixpoint read_digits (w : nat) (acc : N) (s : string) : option (N * string) :=
  match w, s with
  | O, _ => Some (acc, s)
  | S w, String c s => if is_digit c then read_digits w (acc * 10 + (N_of_ascii c - 48))%N s else None
  | S _, EmptyString => None
  end.

(** ** Lemmas *)

Notation all_digits := (all_chars is_digit).
Definition starts_with_digit (s : string) : bool :=
  match s with String c _ => is_digit c | EmptyString => false end.

Lemma span_digits_app a b : all_digits a = true → starts_with_digit b = false →
  span_digits (a +:+ b) = (a, b).
Proof.
  intros Ha Hb. induction a as [|c a IH].
  - rewrite str_app_nil. destruct b as [|c b]; simpl in *; [done|by rewrite Hb].
  - simpl in Ha. apply andb_true_iff in Ha as [Hc Ha]. rewrite str_app_cons. simpl.
    by rewrite Hc, IH.
Qed.

Lemma digits_val_app acc a b : digits_val acc (a +:+ b) = digits_val (digits_val acc a) b.
Proof.
  revert acc; induction a as [|c a IH]; intros acc; [done|]. rewrite str_app_cons. apply IH.
Qed.

Lemma zeros_digits n : all_digits (zeros n) = true ∧ digits_val 0 (zeros n) = 0%N.
Proof. induction n as [|n [IH1 IH2]]; [done|]. by split. Qed.
Lemma length_zeros n : String.length (zeros n) = n.
Proof. induction n as [|n IH]; [done|]. simpl. f_equal. exact IH. Qed.

Lemma digit_ok d : (d < 10)%N → is_digit (digit d) = true ∧ (N_of_ascii (digit d) - 48 = d)%N.
Proof.
  intros Hd. unfold is_digit, digit. rewrite N_ascii_embedding by lia.
  rewrite andb_true_iff, !N.leb_le. lia.
Qed.

Lemma digits_fuel_app f n acc : digits_fuel f n acc = (digits_fuel f n "" +:+ acc)%string.
Proof.
  revert n acc; induction f as [|f IH]; intros n acc; simpl; [done|].
  destruct (n <? 10)%N; [done|]. by rewrite IH, (IH _ (String _ "")), str_app_assoc.
Qed.

Lemma digits_fuel_spec f n : (n < 10 ^ N.of_nat f)%N → (0 < f)%nat →
  all_digits (digits_fuel f n "") = true ∧ digits_val 0 (digits_fuel f n "") = n ∧
  digits_fuel f n "" ≠ ""%string.
Proof.
  revert n; induction f as [|f IH]; intros n Hn Hf; [lia|]. cbn [digits_fuel].
  assert (n mod 10 < 10)%N as Hm by (apply N.mod_lt; lia).
  destruct (digit_ok _ Hm) as [Hd Hv]. destruct (N.ltb_spec n 10) as [Hs|Hb].
  - rewrite N.mod_small in * by done. cbn [all_chars digits_val]. by rewrite Hd, Hv.
  - assert (n / 10 < 10 ^ N.of_nat f)%N as Hq.
    { apply N.Div0.div_lt_upper_bound. rewrite Nat2N.inj_succ, N.pow_succ_r' in Hn. done. }
    assert (0 < f)%nat as Hf'.
    { destruct f; [|lia]. simpl in Hn. lia. }
    destruct (IH _ Hq Hf') as (H1 & H2 & H3). rewrite digits_fuel_app.
    rewrite all_chars_app, digits_val_app, H1, H2. cbn [all_chars digits_val]. rewrite Hd, Hv.
    split; [done|]. split; [|by destruct (digits_fuel f (n / 10) "")].
    pose proof (N.div_mod n 10). lia.
Qed.

Lemma str_N_spec n : all_digits (str_N n) = true ∧ digits_val 0 (str_N n) = n ∧ str_N n ≠ ""%string.
Proof.
  apply digits_fuel_spec; [|lia]. eapply N.lt_le_trans; [apply N.size_gt|].
  transitivity (10 ^ N.size n)%N; [apply N.pow_le_mono_l; lia|].
  apply N.pow_le_mono_r; lia.
Qed.

Lemma str_N_cons n : ∃ c s, str_N n = String c s ∧ is_digit c = true.
Proof.
  destruct (str_N_spec n) as (H & _ & Hne). destruct (str_N n) as [|c s]; [done|].
  exists c, s. by apply andb_true_iff in H as [? _].
Qed.

(** A digit is not a sign. *)
Lemma read_sign_digits s : starts_with_digit s = true → read_sign s = (false, s).
Proof.
  destruct s as [|c s]; simpl; [done|]. intros Hc.
  destruct (Ascii.eqb_spec c "-"), (Ascii.eqb_spec c "+"); subst; done.
Qed.

Lemma parse_int_N n : parse_int (str_N n) = Some (Z.of_N n).
Proof.
  destruct (str_N_spec n) as (Hd & Hv & Hne). destruct (str_N_cons n) as (c & s & E & Hc).
  unfold parse_int. rewrite read_sign_digits by by rewrite E.
  pose proof (span_digits_app (str_N n) "" Hd eq_refl) as Hs. rewrite str_app_nil_r in Hs.
  rewrite Hs. rewrite <- Hv at 2. by destruct (str_N n).
Qed.

Lemma parse_int_str_Z z : parse_int (str_Z z) = Some z.
Proof.
  unfold str_Z. destruct (Z.ltb_spec z 0) as [Hz|Hz].
  - pose proof (parse_int_N (Z.abs_N z)) as H. unfold parse_int in *.
    destruct (str_N_cons (Z.abs_N z)) as (c & s & E & Hc).
    rewrite read_sign_digits in H by by rewrite E. simpl.
    destruct (span_digits _) as [[|d ds] [|? ?]]; try discriminate. injection H as H.
    f_equal. cbn [digits_val] in *. lia.
  - rewrite parse_int_N. f_equal. lia.
Qed.

Lemma parse_signed z : parse_int (signed_str z) = Some z.
Proof.
  unfold signed_str. destruct (Z.ltb_spec z 0) as [Hz|Hz]; [apply parse_int_str_Z|].
  pose proof (parse_int_str_Z z) as H. unfold str_Z in *.
  rewrite (proj2 (Z.ltb_ge z 0)) in * by done. unfold parse_int in *.
  destruct (str_N_cons (Z.to_N z)) as (c & s & E & Hc).
  rewrite read_sign_digits in H by by rewrite E. exact H.
Qed.

Lemma substring_split k s : (k <= String.length s)%nat →
  (String.substring 0 k s +:+ String.substring k (String.length s - k) s)%string = s ∧
  String.length (String.substring k (String.length s - k) s) = (String.length s - k)%nat.
Proof.
  revert k; induction s as [|c s IH]; intros k Hk; simpl in Hk.
  - by destruct k.
  - destruct k as [|k]; simpl.
    + destruct (IH 0%nat ltac:(lia)) as [E1 E2]. rewrite Nat.sub_0_r in *.
      assert (String.substring 0 0 s = ""%string) as E0 by by destruct s.
      rewrite E0, str_app_nil in E1. by rewrite E1, str_app_nil.
    + destruct (IH k ltac:(lia)) as [E1 E2]. split; [by rewrite str_app_cons, E1|done].
Qed.

(** ** Lemmas: numbers of a fixed width *)

Lemma strip_prefix_app p s : strip_prefix p (p +:+ s) = Some s.
Proof. induction p as [|c p IH]; [done|]. rewrite str_app_cons. simpl. by rewrite Ascii.eqb_refl. Qed.
Lemma read_digits_app a acc s : all_digits a = true →
  read_digits (String.length a) acc (a +:+ s) = Some (digits_val acc a, s).
Proof.
  revert acc. induction a as [|c a IH]; intros acc H; [done|]. cbn [all_chars] in H.
  apply andb_true_iff in H as [Hc H]. rewrite str_app_cons. cbn [String.length read_digits digits_val].
  rewrite Hc. by apply IH.
Qed.
Lemma digits_fuel_length f n w : (n < 10 ^ N.of_nat w)%N → (0 < w)%nat →
  (String.length (digits_fuel f n "") <= w)%nat.
Proof.
  revert n w. induction f as [|f IH]; intros n w Hn Hw; cbn [digits_fuel]; [simpl; lia|].
  destruct (N.ltb_spec n 10) as [Hs|Hb]; [simpl; lia|]. rewrite digits_fuel_app, str_length_app.
  destruct w as [|w]; [lia|]. rewrite Nat2N.inj_succ, N.pow_succ_r' in Hn.
  assert (n / 10 < 10 ^ N.of_nat w)%N as Hq by by apply N.Div0.div_lt_upper_bound.
  destruct w as [|w]; [simpl in Hn; lia|]. specialize (IH _ (S w) Hq ltac:(lia)). simpl. lia.
Qed.
Lemma zeros_text n : string_of_list_ascii (replicate n "0"%char) = zeros n.
Proof. done. Qed.
(** Padding never changes the number, whatever its width. *)
Lemma zero_padded_val w n : digits_val 0 (zero_padded w n) = n.
Proof.
  unfold zero_padded. cbn zeta. rewrite zeros_text, digits_val_app.
  destruct (zeros_digits (w - String.length (str_N n))) as [_ ->]. apply str_N_spec.
Qed.
Lemma zero_padded_spec w n : (n < 10 ^ N.of_nat w)%N → (0 < w)%nat →
  all_digits (zero_padded w n) = true ∧ String.length (zero_padded w n) = w ∧
  digits_val 0 (zero_padded w n) = n.
Proof.
  intros Hn Hw. unfold zero_padded. cbn zeta. rewrite zeros_text.
  destruct (zeros_digits (w - String.length (str_N n))) as [Hz Hv].
  destruct (str_N_spec n) as (Hd & Hval & _).
  rewrite all_chars_app, Hz, Hd, str_length_app, length_zeros, digits_val_app, Hv, Hval.
  pose proof (digits_fuel_length (S (N.to_nat (N.size n))) n w Hn Hw). unfold str_N. split_and!; [done|lia|done].
Qed.
Lemma read_zero_padded w n s : (n < 10 ^ N.of_nat w)%N → (0 < w)%nat →
  read_digits w 0 (zero_padded w n +:+ s) = Some (n, s).
Proof.
  intros Hn Hw. destruct (zero_padded_spec w n Hn Hw) as (Hd & Hl & Hv).
  rewrite <- Hl at 1. rewrite read_digits_app by done. by rewrite Hv.
Qed.

(** ** Lemmas: reading the three layouts of [str] *)

Definition exponent_text (z : Z) : string :=
  if z =? 0 then ""%string else ("E" +:+ signed_str z)%string.

Lemma exponent_not_digit z : starts_with_digit (exponent_text z) = false.
Proof. unfold exponent_text. by destruct (z =? 0). Qed.
Lemma read_exponent_text z : read_exponent (exponent_text z) = Some z.
Proof.
  unfold exponent_text. destruct (Z.eqb_spec z 0) as [-> |]; [done|].
  rewrite str_app_cons. cbn [read_exponent]. apply parse_signed.
Qed.
Lemma exponent_no_point z : read_fraction (exponent_text z) = (""%string, exponent_text z).
Proof. unfold exponent_text. by destruct (z =? 0). Qed.

Lemma read_sign_text (neg : bool) s : starts_with_digit s = true →
  read_sign ((if neg then "-" else "") +:+ s)%string = (neg, s).
Proof. intros H. destruct neg; [done|]. rewrite str_app_nil. by apply read_sign_digits. Qed.

Lemma starts_app a b : a ≠ ""%string → starts_with_digit (a +:+ b) = starts_with_digit a.
Proof. by destruct a. Qed.
Lemma starts_all a : a ≠ ""%string → all_digits a = true → starts_with_digit a = true.
Proof. destruct a; [done|]. simpl. by intros _ [? _]%andb_true_iff. Qed.

(** Without a point. *)
Lemma parse_integral (neg : bool) ip z : all_digits ip = true → ip ≠ ""%string →
  parse_decimal ((if neg then "-" else "") +:+ ip +:+ exponent_text z)%string =
  Some (Dec neg (digits_val 0 ip) z).
Proof.
  intros Hd Hne. unfold parse_decimal.
  rewrite read_sign_text by (rewrite starts_app by done; by apply starts_all).
  rewrite span_digits_app by (done || apply exponent_not_digit).
  rewrite exponent_no_point, str_app_nil_r, read_exponent_text. destruct ip; [done|].
  simpl. by rewrite Z.sub_0_r.
Qed.

(** With a point. *)
Lemma parse_fractional (neg : bool) ip fp z :
  all_digits ip = true → ip ≠ ""%string → all_digits fp = true →
  parse_decimal ((if neg then "-" else "") +:+ ip +:+ "." +:+ fp +:+ exponent_text z)%string =
  Some (Dec neg (digits_val 0 (ip +:+ fp)) (z - Z.of_nat (String.length fp))).
Proof.
  intros Hd Hne Hf. unfold parse_decimal.
  rewrite read_sign_text by (rewrite starts_app by done; by apply starts_all).
  rewrite span_digits_app by done.
  assert (read_fraction ("." +:+ fp +:+ exponent_text z) = (fp, exponent_text z)) as ->.
  { rewrite str_app_cons. cbn [read_fraction]. simpl Ascii.eqb. cbv iota.
    rewrite str_app_nil. apply span_digits_app; [done|apply exponent_not_digit]. }
  rewrite read_exponent_text. destruct ip as [|c ip]; [done|]. by rewrite str_app_cons.
Qed.

Lemma substring_digits k s : all_digits s = true → (k <= String.length s)%nat →
  all_digits (String.substring 0 k s) = true ∧
  all_digits (String.substring k (String.length s - k) s) = true.
Proof.
  intros Hd Hk. destruct (substring_split k s Hk) as [E _].
  rewrite <- E, all_chars_app in Hd. by apply andb_true_iff.
Qed.

Lemma parse_str_decimal d : parse_decimal (str_decimal d) = Some d.
Proof.
  destruct d as [neg c e]. unfold str_decimal. cbn [dneg dcoef dexp].
  destruct (str_N_spec c) as (Hd & Hv & Hne). set (ds := str_N c) in *.
  set (n := String.length ds). assert (0 < n)%nat as Hn by (unfold n; destruct ds; simpl; [done|lia]).
  set (left := e + Z.of_nat n). set (dot := if _ && _ then left else 1).
  assert ((if left =? dot then ""%string else ("E" +:+ signed_str (left - dot))%string) =
          exponent_text (left - dot)) as ->.
  { unfold exponent_text. destruct (Z.eqb_spec left dot), (Z.eqb_spec (left - dot) 0); done || lia. }
  assert (dot = left ∧ e <= 0 ∨ dot = 1) as Hdot.
  { unfold dot. destruct (Z.leb_spec e 0), (Z.ltb_spec (-6) left); simpl; auto. }
  destruct (Z.leb_spec dot 0) as [Hz|Hz].
  - destruct (zeros_digits (Z.to_nat (- dot))) as [Hzd Hzv].
    rewrite !str_app_assoc.
    change ("0." +:+ ?x)%string with ("0" +:+ "." +:+ x)%string.
    rewrite <- (str_app_assoc (zeros _) ds), parse_fractional;
      [|done|done|by rewrite all_chars_app, Hzd].
    rewrite str_app_cons, str_app_nil. cbn [digits_val]. rewrite digits_val_app.
    change (0 * 10 + (N_of_ascii "0" - 48))%N with 0%N. rewrite Hzv, Hv.
    rewrite str_length_app, length_zeros. fold n. do 2 f_equal. lia.
  - destruct (Z.leb_spec (Z.of_nat n) dot) as [Hl|Hl].
    + assert (Z.to_nat (dot - Z.of_nat n) = 0%nat) as -> by lia.
      change (zeros 0) with ""%string. rewrite str_app_nil_r, parse_integral, Hv by done.
      do 2 f_equal. lia.
    + destruct (substring_digits (Z.to_nat dot) ds Hd ltac:(unfold n in *; lia)) as [H1 H2].
      destruct (substring_split (Z.to_nat dot) ds ltac:(unfold n in *; lia)) as [E1 E2].
      fold n in H2, E1, E2. rewrite !str_app_assoc, parse_fractional; [|done| |done].
      * rewrite E1, E2, Hv. do 2 f_equal. lia.
      * destruct ds as [|a ds]; [done|]. destruct (Z.to_nat dot) eqn:E; [lia|done].
Qed.

Lemma str_decimal_inj d d' : str_decimal d = str_decimal d' → d = d'.
Proof.
  intros E. pose proof (parse_str_decimal d) as H. rewrite E, parse_str_decimal in H.
  by injection H.
Qed.

(** ** Lemmas: the characters [str] writes *)

Definition decimal_char (c : ascii) : bool :=
  is_digit c || existsb (Ascii.eqb c) ["-"; "+"; "."; "E"]%char.

Lemma digits_decimal s : all_digits s = true → all_chars decimal_char s = true.
Proof. apply all_chars_impl. intros c H. unfold decimal_char. by rewrite H. Qed.

Lemma str_Z_chars z : all_chars decimal_char (str_Z z) = true.
Proof.
  unfold str_Z. destruct (z <? 0); [cbn [all_chars]; apply andb_true_iff; split; [done|]|];
    apply digits_decimal, str_N_spec.
Qed.

Lemma str_decimal_chars d : all_chars decimal_char (str_decimal d) = true.
Proof.
  unfold str_decimal. destruct (str_N_spec (dcoef d)) as (Hd & _ & _).
  set (ds := str_N (dcoef d)) in *. set (dot := if _ && _ then _ else 1).
  assert (∀ z, all_chars decimal_char (signed_str z) = true) as Hsigned.
  { intros z. unfold signed_str. destruct (z <? 0); [apply str_Z_chars|].
    cbn [all_chars]. apply andb_true_iff; split; [done|apply str_Z_chars]. }
  rewrite !all_chars_app, !andb_true_iff. split; [by destruct (dneg d)|]. split.
  - destruct (Z.leb_spec dot 0).
    + rewrite !all_chars_app, !andb_true_iff. split; [done|].
      split; apply digits_decimal; [apply zeros_digits|done].
    + destruct (Z.leb_spec (Z.of_nat (String.length ds)) dot).
      * rewrite all_chars_app, andb_true_iff. split; apply digits_decimal; [done|apply zeros_digits].
      * destruct (substring_digits (Z.to_nat dot) ds Hd ltac:(lia)) as [H1 H2].
        rewrite !all_chars_app, !andb_true_iff. split; [by apply digits_decimal|].
        split; [done|by apply digits_decimal].
  - case_match; [done|]. by rewrite all_chars_app, Hsigned.
Qed.

Lemma str_Z_inj z z' : str_Z z = str_Z z' → z = z'.
Proof.
  intros E. pose proof (parse_int_str_Z z) as H. rewrite E, parse_int_str_Z in H. by injection H.
Qed.

(** ** Guarantees *)

(** [Decimal(str(d)) = d] for every finite decimal, its sign and its exponent
    included: no digit and no trailing zero is lost on the way through text. *)
Theorem decimal_text_roundtrip d : parse_decimal (str_decimal d) = Some d.
Proof. apply parse_str_decimal. Qed.
