(* ===== verification/Json.v ===== *)
(** * Json: what the source uses of the standard library's json

    [json.dumps(v, sort_keys=True, separators=(",", ":"), ensure_ascii=False)] and
    [json.loads(text)] on UTF-8 text.  Objects keep the order of their keys.  A number
    with a fraction or an exponent, NaN, infinities and a lone surrogate escape, which
    [dumps] never writes here, are refused by [loads]. *)

From S2P Require Import Prelude DecimalText.

(** ** Values *)

Inductive json :=
| JNull
| JBool (b : bool)
| JInt (z : Z)
| JStr (s : string)
| JArr (l : list json)
| JObj (o : list (string * json)).

(** ** Writing *)

Definition dq : ascii := "034".
Definition backslash : ascii := "092".
Definition esc (c : ascii) : string := String backslash (String c "").
Definition hex_digit (n : N) : ascii := ascii_of_N (if (n <? 10)%N then 48 + n else 87 + n)%N.
(** [ESCAPE_DCT], and [\u00xx] for the other control characters. *)
Definition escape_char (c : ascii) : string :=
  let n := N_of_ascii c in
  if (n =? 34)%N || (n =? 92)%N then esc c
  else if (n =? 8)%N then esc "b" else if (n =? 9)%N then esc "t" else if (n =? 10)%N then esc "n"
  else if (n =? 12)%N then esc "f" else if (n =? 13)%N then esc "r"
  else if (n <? 32)%N then
    (esc "u" +:+ "00" +:+ String (hex_digit (n / 16)) (String (hex_digit (n mod 16)) ""))%string
  else String c "".
Fixpoint escape (s : string) : string :=
  match s with "" => "" | String c s => escape_char c +:+ escape s end%string.
Definition quote (s : string) : string := String dq (escape s +:+ String dq "").

(** A member of an object as it is written. *)
Definition member (kt : string * string) : string := (quote kt.1 +:+ ":" +:+ kt.2)%string.
Fixpoint dumps (v : json) : string :=
  match v with
  | JNull => "null"
  | JBool true => "true"
  | JBool false => "false"
  | JInt z => str_Z z
  | JStr s => quote s
  | JArr l => "[" +:+ join "," (dumps <$> l) +:+ "]"
  | JObj o => "{" +:+ join "," (member <$> sorted_by fst ((λ kv, (kv.1, dumps kv.2)) <$> o)) +:+ "}"
  end%string.

(** ** Reading *)

Definition JSONDecodeError : exn := ValueError "JSONDecodeError".
Definition is_ws (c : ascii) : bool :=
  let n := N_of_ascii c in (n =? 32)%N || (n =? 9)%N || (n =? 10)%N || (n =? 13)%N.
Fixpoint skip_ws (s : string) : string :=
  match s with String c r => if is_ws c then skip_ws r else s | "" => s end%string.

Definition hex_value (c : ascii) : option N :=
  let n := N_of_ascii c in
  if (48 <=? n)%N && (n <=? 57)%N then Some (n - 48)%N
  else if (97 <=? n)%N && (n <=? 102)%N then Some (n - 87)%N
  else if (65 <=? n)%N && (n <=? 70)%N then Some (n - 55)%N
  else None.
Definition hex4 (a b c d : ascii) : option N :=
  a ← hex_value a; b ← hex_value b; c ← hex_value c; d ← hex_value d;
  Some (((a * 16 + b) * 16 + c) * 16 + d)%N.
(** The UTF-8 text of a code point that is not a surrogate. *)
Definition utf8 (u : N) : string :=
  let byte n := ascii_of_N n in
  let tail n := byte (128 + n mod 64)%N in
  if (u <? 128)%N then String (byte u) ""
  else if (u <? 2048)%N then String (byte (192 + u / 64)%N) (String (tail u) "")
  else if (u <? 65536)%N then
    String (byte (224 + u / 4096)%N) (String (tail (u / 64)%N) (String (tail u) ""))
  else String (byte (240 + u / 262144)%N)
         (String (tail (u / 4096)%N) (String (tail (u / 64)%N) (String (tail u) ""))).
Definition high_surrogate (u : N) : bool := (55296 <=? u)%N && (u <=? 56319)%N.
Definition low_surrogate (u : N) : bool := (56320 <=? u)%N && (u <=? 57343)%N.

(** The character of a one-letter escape. *)
Definition unescape (c : ascii) : option ascii :=
  let n := N_of_ascii c in
  if (n =? 34)%N || (n =? 92)%N || (n =? 47)%N then Some c
  else if (n =? 98)%N then Some "008"%char else if (n =? 102)%N then Some "012"%char
  else if (n =? 110)%N then Some "010"%char else if (n =? 114)%N then Some "013"%char
  else if (n =? 116)%N then Some "009"%char else None.

(** [scanstring]: after the opening quote, the text and what follows the closing one. *)
Fixpoint scan_string (s : string) : res (string * string) :=
  let push t (m : res (string * string)) := '(u, r) ← m; Ok ((t +:+ u)%string, r) in
  match s with
  | "" => Raise JSONDecodeError
  | String c s =>
      if Ascii.eqb c dq then Ok (""%string, s)
      else if negb (Ascii.eqb c backslash) then
        if (N_of_ascii c <? 32)%N then Raise JSONDecodeError else push (String c "") (scan_string s)
      else
        match s with
        | "" => Raise JSONDecodeError
        | String e s =>
            if negb (Ascii.eqb e "u") then
              match unescape e with
              | Some c => push (String c "") (scan_string s)
              | None => Raise JSONDecodeError
              end
            else
              match s with
              | String h1 (String h2 (String h3 (String h4 s))) =>
                  u ← get (hex4 h1 h2 h3 h4) JSONDecodeError;
                  if negb (high_surrogate u || low_surrogate u) then push (utf8 u) (scan_string s)
                  else
                    match s with
                    | String b (String v (String l1 (String l2 (String l3 (String l4 s))))) =>
                        _ ← check (high_surrogate u && Ascii.eqb b backslash && Ascii.eqb v "u")
                              JSONDecodeError;
                        w ← get (hex4 l1 l2 l3 l4) JSONDecodeError;
                        _ ← check (low_surrogate w) JSONDecodeError;
                        push (utf8 (65536 + (u - 55296) * 1024 + (w - 56320))%N) (scan_string s)
                    | _ => Raise JSONDecodeError
                    end
              | _ => Raise JSONDecodeError
              end
        end
  end%string.

(** An optional minus and a number without leading zeros, with no fraction or exponent after it. *)
Definition scan_minus (s : string) : bool * string :=
  match s with
  | String c r => if Ascii.eqb c "-" then (true, r) else (false, s)
  | "" => (false, s)
  end%string.
Definition scan_natural (s : string) : string * string :=
  match s with
  | String c t => if Ascii.eqb c "0" then (String c "", t) else span_digits s
  | "" => ("", s)
  end%string.
Definition scan_int (s : string) : res (json * string) :=
  let '(neg, s) := scan_minus s in
  let '(ds, r) := scan_natural s in
  match ds with
  | "" => Raise JSONDecodeError
  | _ =>
      let real := match r with
                  | String c (String d _) =>
                      (Ascii.eqb c "." && is_digit d) ||
                      ((Ascii.eqb c "e" || Ascii.eqb c "E") &&
                       (is_digit d || Ascii.eqb d "+" || Ascii.eqb d "-"))
                  | _ => false
                  end in
      if real then Raise (ValueError "binary floats are not modelled")
      else let n := Z.of_N (digits_val 0 ds) in Ok (JInt (if neg then - n else n), r)
  end%string.

Definition keyword (s : string) : res (json * string) :=
  match strip_prefix "null" s, strip_prefix "true" s, strip_prefix "false" s with
  | Some r, _, _ => Ok (JNull, r)
  | _, Some r, _ => Ok (JBool true, r)
  | _, _, Some r => Ok (JBool false, r)
  | _, _, _ => scan_int s
  end.

(** [scan_once]: a value and what follows it; each nested call takes one unit of fuel. *)
Fixpoint scan_value (fuel : nat) (s : string) : res (json * string) :=
  match fuel with
  | O => Raise OutOfFuel
  | S f =>
      match s with
      | String c r =>
          if Ascii.eqb c dq then '(t, r) ← scan_string r; Ok (JStr t, r)
          else if Ascii.eqb c "[" then
            let r := skip_ws r in
            match strip_prefix "]" r with
            | Some r => Ok (JArr [], r)
            | None => '(l, r) ← scan_elements f r; Ok (JArr l, r)
            end
          else if Ascii.eqb c "{" then
            let r := skip_ws r in
            match strip_prefix "}" r with
            | Some r => Ok (JObj [], r)
            | None => '(o, r) ← scan_members f r; Ok (JObj (foldl (λ d kv, od_set kv.1 kv.2 d) [] o), r)
            end
          else keyword s
      | "" => Raise JSONDecodeError
      end
  end%string
with scan_elements (fuel : nat) (s : string) : res (list json * string) :=
  match fuel with
  | O => Raise OutOfFuel
  | S f =>
      '(v, r) ← scan_value f s;
      let r := skip_ws r in
      match strip_prefix "," r, strip_prefix "]" r with
      | Some r, _ => '(l, r) ← scan_elements f (skip_ws r); Ok (v :: l, r)
      | None, Some r => Ok ([v], r)
      | None, None => Raise JSONDecodeError
      end
  end
with scan_members (fuel : nat) (s : string) : res (list (string * json) * string) :=
  match fuel with
  | O => Raise OutOfFuel
  | S f =>
      r ← get (strip_prefix (String dq "") s) JSONDecodeError;
      '(k, r) ← scan_string r;
      r ← get (strip_prefix ":" (skip_ws r)) JSONDecodeError;
      '(v, r) ← scan_value f (skip_ws r);
      let r := skip_ws r in
      match strip_prefix "," r, strip_prefix "}" r with
      | Some r, _ => '(o, r) ← scan_members f (skip_ws r); Ok ((k, v) :: o, r)
      | None, Some r => Ok ([(k, v)], r)
      | None, None => Raise JSONDecodeError
      end
  end.

Definition loads (s : string) : res json :=
  '(v, r) ← scan_value (S (String.length s)) (skip_ws s);
  _ ← check (bool_decide (skip_ws r = ""%string)) JSONDecodeError;
  Ok v.

Example loads_ex :
  loads (dumps (JObj [("b", JArr [JInt (-3); JNull; JBool true; JArr []]); ("a", JStr (String dq "x"));
    ("c", JObj [])])) =
  Ok (JObj [("a", JStr (String dq "x")); ("b", JArr [JInt (-3); JNull; JBool true; JArr []]);
    ("c", JObj [])]).
Proof. vm_compute. reflexivity. Qed.
Example loads_refuses : (λ s, match loads s with Ok _ => true | Raise _ => false end) <$>
  ["01"; "[1,]"; "[1"; "1 2"; "-"; "nul"; ""; " 7 "]%string
  = [false; false; false; false; false; false; false; true].
Proof. vm_compute. reflexivity. Qed.

(** ** Well-formed values, and the order [sort_keys] gives them *)

(** Keys are distinct, as they are in a dict. *)
Fixpoint wf (v : json) : bool :=
  match v with
  | JArr l => forallb wf l
  | JObj o => bool_decide (NoDup o.*1) && forallb (λ kv, wf kv.2) o
  | _ => true
  end.
Fixpoint norm (v : json) : json :=
  match v with
  | JArr l => JArr (norm <$> l)
  | JObj o => JObj (sorted_by fst ((λ kv, (kv.1, norm kv.2)) <$> o))
  | _ => v
  end.
(** The calls [scan_value] nests to read a value. *)
Fixpoint jsize (v : json) : nat :=
  match v with
  | JArr l => S (foldr (λ v n, S (jsize v + n)) 0 l)
  | JObj o => S (foldr (λ kv n, S (jsize kv.2 + n)) 0 o)
  | _ => 1
  end%nat.

Section json_induction.
Context (P : json → Prop).
Context (Hnull : P JNull) (Hbool : ∀ b, P (JBool b)) (Hint : ∀ z, P (JInt z)) (Hstr : ∀ s, P (JStr s)).
Context (Harr : ∀ l, Forall P l → P (JArr l)).
Context (Hobj : ∀ o : list (string * json), Forall (λ kv, P kv.2) o → P (JObj o)).
Fixpoint json_induction (v : json) : P v :=
  match v with
  | JNull => Hnull
  | JBool b => Hbool b
  | JInt z => Hint z
  | JStr s => Hstr s
  | JArr l => Harr l ((fix all l : Forall P l :=
      match l with [] => List.Forall_nil _ | x :: l => List.Forall_cons _ x l (json_induction x) (all l) end) l)
  | JObj o => Hobj o ((fix all (o : list (string * json)) : Forall (λ kv, P kv.2) o :=
      match o with [] => List.Forall_nil _ | x :: o => List.Forall_cons _ x o (json_induction x.2) (all o) end) o)
  end.
End json_induction.

(** ** Lemmas: strings *)

Lemma scan_char c s : scan_string (escape_char c +:+ s) = '(u, r) ← scan_string s; Ok (String c u, r).
Proof. destruct c as [[] [] [] [] [] [] [] []]; reflexivity. Qed.
Lemma scan_quoted s r : scan_string (escape s +:+ String dq r) = Ok (s, r).
Proof.
  induction s as [|c s IH]; [done|]. cbn [escape]. rewrite str_app_assoc, scan_char, IH. done.
Qed.
Lemma quote_app s r : (quote s +:+ r)%string = String dq (escape s +:+ String dq r).
Proof. unfold quote. rewrite str_app_cons. f_equal. by rewrite str_app_assoc. Qed.

(** ** Lemmas: numbers *)

(** Text that cannot continue a number. *)
Definition stop (r : string) : bool :=
  match r with
  | String c _ => negb (is_digit c || Ascii.eqb c "." || Ascii.eqb c "e" || Ascii.eqb c "E")
  | EmptyString => true
  end.
Lemma digit_0 n : (n < 10)%N → digit n = "0"%char → n = 0%N.
Proof.
  intros Hn H. apply (f_equal N_of_ascii) in H. unfold digit in H.
  rewrite N_ascii_embedding in H by lia. change (N_of_ascii "0") with 48%N in H. lia.
Qed.
Lemma digits_no_zero f n : (0 < n)%N → (n < 10 ^ N.of_nat f)%N → ∀ s, digits_fuel f n "" ≠ String "0" s.
Proof.
  revert n. induction f as [|f IH]; intros n Hn Hf s; cbn [digits_fuel]; [done|].
  destruct (N.ltb_spec n 10) as [Hs|Hb].
  - rewrite N.mod_small by done. intros [= E _]. apply digit_0 in E; lia.
  - rewrite digits_fuel_app. assert (n / 10 < 10 ^ N.of_nat f)%N as Hq.
    { apply N.Div0.div_lt_upper_bound. by rewrite Nat2N.inj_succ, N.pow_succ_r' in Hf. }
    assert (0 < n / 10)%N as Hp by (apply N.div_str_pos; lia).
    destruct (digits_fuel f (n / 10) "") as [|c t] eqn:E.
    + destruct f; [simpl in Hq; lia|]. pose proof (digits_fuel_spec (S f) (n / 10) Hq ltac:(lia)) as (_ & _ & H).
      by rewrite E in H.
    + rewrite str_app_cons. intros [= -> _]. by apply (IH _ Hp Hq t).
Qed.
Lemma str_N_zero n s : str_N n = String "0" s → n = 0%N ∧ s = ""%string.
Proof.
  intros E. destruct (N.eq_dec n 0%N) as [-> |Hn]; [by injection E as <-|].
  exfalso. revert E. apply digits_no_zero; [lia|]. eapply N.lt_le_trans; [apply N.size_gt|].
  transitivity (10 ^ N.size n)%N; [apply N.pow_le_mono_l; lia|]. apply N.pow_le_mono_r; lia.
Qed.
Lemma stop_real r : stop r = true → match r with
  | String c (String d _) => (Ascii.eqb c "." && is_digit d) ||
      ((Ascii.eqb c "e" || Ascii.eqb c "E") && (is_digit d || Ascii.eqb d "+" || Ascii.eqb d "-"))
  | _ => false end = false.
Proof.
  destruct r as [|c [|d r]]; [done..|]. unfold stop.
  by destruct (is_digit c), (Ascii.eqb c "."), (Ascii.eqb c "e"), (Ascii.eqb c "E").
Qed.
Lemma scan_digits n r : stop r = true → scan_natural (str_N n +:+ r) = (str_N n, r).
Proof.
  intros Hr. destruct (str_N_spec n) as (Hd & _ & Hne). destruct (str_N n) as [|c t] eqn:E; [done|].
  rewrite str_app_cons. unfold scan_natural. destruct (Ascii.eqb_spec c "0") as [-> |].
  - apply str_N_zero in E as [_ ->]. done.
  - rewrite <- str_app_cons. apply span_digits_app; [done|]. destruct r as [|d r]; [done|].
    unfold stop in Hr. simpl. by destruct (is_digit d).
Qed.
Lemma scan_int_N (neg : bool) n r : stop r = true →
  scan_int ((if neg then "-" else "") +:+ str_N n +:+ r)%string =
  Ok (JInt (if neg then - Z.of_N n else Z.of_N n), r).
Proof.
  intros Hr. pose proof (scan_digits n r Hr) as Hs. pose proof (stop_real r Hr) as Hreal.
  destruct (str_N_spec n) as (_ & Hv & Hne). destruct (str_N_cons n) as (c & t & E & Hc).
  unfold scan_int.
  assert (scan_minus ((if neg then "-" else "") +:+ str_N n +:+ r) = (neg, (str_N n +:+ r)%string)) as ->.
  { destruct neg; [by rewrite str_app_cons|]. rewrite str_app_nil, E, str_app_cons.
    unfold scan_minus. by destruct (Ascii.eqb_spec c "-") as [-> |]. }
  rewrite Hs, Hreal, Hv. by destruct (str_N n).
Qed.
Lemma scan_int_Z z r : stop r = true → scan_int (str_Z z +:+ r) = Ok (JInt z, r).
Proof.
  intros Hr. unfold str_Z. destruct (Z.ltb_spec z 0).
  - pose proof (scan_int_N true (Z.abs_N z) r Hr) as H'. cbv iota in H'. rewrite str_app_cons, str_app_nil in H'.
    rewrite str_app_cons, H'. do 3 f_equal. lia.
  - pose proof (scan_int_N false (Z.to_N z) r Hr) as H'. cbv iota in H'. rewrite str_app_nil in H'.
    rewrite H'. do 3 f_equal. lia.
Qed.

(** ** Lemmas: reading back what is written *)

Lemma str_Z_head z : ∃ c t, str_Z z = String c t ∧ is_digit c || Ascii.eqb c "-" = true.
Proof.
  unfold str_Z. destruct (z <? 0); [by eexists _, _|].
  destruct (str_N_cons (Z.to_N z)) as (c & t & -> & Hc). exists c, t. by rewrite Hc.
Qed.
Lemma scan_value_int f c t : is_digit c || Ascii.eqb c "-" = true →
  scan_value (S f) (String c t) = scan_int (String c t).
Proof. destruct c as [[] [] [] [] [] [] [] []]; intros H; (discriminate H || reflexivity). Qed.
Lemma dumps_head v : ∃ c t, dumps v = String c t ∧ is_ws c = false ∧ Ascii.eqb "]" c = false.
Proof.
  destruct v as [|[]|z|s|l|o]; cbn [dumps]; [by eexists _, _..| |by eexists _, _|by eexists _, _|by eexists _, _].
  destruct (str_Z_head z) as (c & t & -> & Hc). exists c, t. split; [done|].
  destruct c as [[] [] [] [] [] [] [] []]; (discriminate Hc || by split).
Qed.
Lemma skip_ws_dumps v r : skip_ws (dumps v +:+ r) = (dumps v +:+ r)%string.
Proof. destruct (dumps_head v) as (c & t & -> & Hc & _). rewrite str_app_cons. simpl. by rewrite Hc. Qed.

(** The members of an object in the order they are written, before and after. *)
Lemma sorted_by_values {A B} (f : A → B) (o : list (string * A)) :
  sorted_by fst ((λ kv, (kv.1, f kv.2)) <$> o) = (λ kv, (kv.1, f kv.2)) <$> sorted_by fst o.
Proof.
  induction o as [|kv o IH]; [done|]. rewrite fmap_cons.
  change (sorted_by fst (?x :: ?l)) with (insert_by fst x (sorted_by fst l)). rewrite IH.
  generalize (sorted_by fst o) as l. induction l as [|kv' l IHl]; [done|]. rewrite fmap_cons.
  cbn [insert_by fst]. destruct (leb kv.1 kv'.1); [done|]. by rewrite IHl.
Qed.
Lemma od_sets_new (o d : list (string * json)) : NoDup (d ++ o).*1 →
  foldl (λ d kv, od_set kv.1 kv.2 d) d o = d ++ o.
Proof.
  revert d. induction o as [|kv o IH]; intros d H; [by rewrite app_nil_r|]. cbn [foldl].
  rewrite fmap_app, fmap_cons in H. apply NoDup_app in H as (Hd & Hn & Ho).
  assert (kv.1 ∉ d.*1) as Hk by (intros Hk; by apply (Hn _ Hk); left).
  rewrite od_set_new by done. destruct kv as [k v]. cbn [fst snd] in *.
  rewrite IH, <- app_assoc; [done|]. rewrite <- app_assoc. change ([(k, v)] ++ o) with ((k, v) :: o).
  rewrite fmap_app, fmap_cons. by apply NoDup_app.
Qed.

Lemma skip_ws_join l x : l ≠ [] → skip_ws (join "," (dumps <$> l) +:+ x) = (join "," (dumps <$> l) +:+ x)%string.
Proof.
  destruct l as [|v l]; [done|]. intros _. rewrite fmap_cons. destruct (dumps <$> l) as [|t ts].
  - apply skip_ws_dumps.
  - rewrite join_cons_cons, str_app_assoc. apply skip_ws_dumps.
Qed.

Definition reads (v : json) : Prop :=
  wf v = true → ∀ f r, (jsize v <= f)%nat → stop r = true →
    scan_value f (dumps v +:+ r) = Ok (norm v, r).

Lemma scan_elements_ok l : Forall reads l → l ≠ [] → forallb wf l = true → ∀ f r,
  (foldr (λ v n, S (jsize v + n)) 0 l <= f)%nat →
  scan_elements f (join "," (dumps <$> l) +:+ "]" +:+ r) = Ok (norm <$> l, r).
Proof.
  intros Hl Hne Hwf. induction Hl as [|v l Hv Hl IH]; [done|]. intros f r Hf.
  cbn [forallb] in Hwf. apply andb_true_iff in Hwf as [Hw Hwl]. cbn [foldr] in Hf.
  destruct f as [|f]; [lia|]. cbn [scan_elements]. destruct l as [|w l].
  - cbn [fmap list_fmap join]. rewrite (Hv Hw) by (done || lia). reflexivity.
  - rewrite fmap_cons. rewrite (fmap_cons dumps w l). rewrite join_cons_cons, <- fmap_cons.
    rewrite str_app_assoc, (Hv Hw) by (done || (cbn [foldr] in *; lia)).
    cbn [mbind res_bind]. rewrite str_app_cons.
    change (skip_ws (String "," ?x)) with (String "," x).
    change (strip_prefix "," (String "," ?x)) with (Some x). cbv iota.
    rewrite skip_ws_join, IH by (done || lia). done.
Qed.
Definition pairs (o : list (string * json)) : list string :=
  member <$> ((λ kv, (kv.1, dumps kv.2)) <$> o).
Lemma skip_ws_pairs o x : o ≠ [] → skip_ws (join "," (pairs o) +:+ x) = (join "," (pairs o) +:+ x)%string.
Proof. destruct o as [|kv o]; [done|]. intros _. by destruct o. Qed.
Lemma scan_member_ok f k v x : reads v → wf v = true → (jsize v <= f)%nat → stop x = true →
  scan_members (S f) (member (k, dumps v) +:+ x) =
  let r := skip_ws x in
  match strip_prefix "," r, strip_prefix "}" r with
  | Some r, _ => '(o, r) ← scan_members f (skip_ws r); Ok ((k, norm v) :: o, r)
  | None, Some r => Ok ([(k, norm v)], r)
  | None, None => Raise JSONDecodeError
  end.
Proof.
  intros Hv Hw Hf Hx. unfold member. cbn [fst snd]. rewrite str_app_assoc, quote_app.
  cbn [scan_members]. change (strip_prefix (String dq "") (String dq ?x)) with (Some x). cbn [get mbind res_bind].
  rewrite scan_quoted. cbn [mbind res_bind]. rewrite str_app_assoc, str_app_cons, str_app_nil.
  change (skip_ws (String ":" ?x)) with (String ":" x). change (strip_prefix ":" (String ":" ?x)) with (Some x).
  cbn [get mbind res_bind]. rewrite skip_ws_dumps, (Hv Hw) by done. done.
Qed.
Lemma scan_members_ok o : Forall (λ kv, reads kv.2) o → o ≠ [] → forallb (λ kv, wf kv.2) o = true → ∀ f r,
  (foldr (λ kv n, S (jsize kv.2 + n)) 0 o <= f)%nat →
  scan_members f (join "," (pairs o) +:+ "}" +:+ r) = Ok ((λ kv, (kv.1, norm kv.2)) <$> o, r).
Proof.
  intros Ho Hne Hwf. induction Ho as [|[k v] o Hv Ho IH]; [done|]. intros f r Hf.
  cbn [forallb snd] in Hwf. apply andb_true_iff in Hwf as [Hw Hwl]. cbn [foldr snd] in Hf, Hv.
  destruct f as [|f]; [lia|]. destruct o as [|e o].
  - change (join "," (pairs [(k, v)])) with (member (k, dumps v)). rewrite scan_member_ok by (done || lia). done.
  - assert (join "," (pairs ((k, v) :: e :: o)) =
      member (k, dumps v) +:+ "," +:+ join "," (pairs (e :: o)))%string as -> by done.
    rewrite str_app_assoc, scan_member_ok by (done || (cbn [foldr] in *; lia)).
    rewrite str_app_cons, str_app_nil, str_app_cons. cbv zeta.
    change (skip_ws (String "," ?x)) with (String "," x).
    change (strip_prefix "," (String "," ?x)) with (Some x). cbv iota.
    rewrite skip_ws_pairs, IH by (done || (cbn [foldr] in *; lia)). done.
Qed.

Lemma foldr_size_perm {A} (g : A → nat) (l k : list A) : l ≡ₚ k →
  foldr (λ x n, S (g x + n)) 0%nat l = foldr (λ x n, S (g x + n)) 0%nat k.
Proof. induction 1; simpl; lia. Qed.
Lemma forallb_elem {A} (p : A → bool) l : forallb p l = true ↔ ∀ x, x ∈ l → p x = true.
Proof. rewrite forallb_forall. by setoid_rewrite list_elem_of_In. Qed.

Lemma scan_value_dumps v : reads v.
Proof.
  induction v as [|[]|z|s|l IH|o IH] using json_induction; intros Hw f r Hf Hr;
    (destruct f as [|f]; [cbn [jsize] in Hf; lia|]).
  1-3: reflexivity.
  - cbn [dumps]. destruct (str_Z_head z) as (c & t & E & Hc). rewrite E, str_app_cons.
    rewrite scan_value_int, <- str_app_cons, <- E by done. by apply scan_int_Z.
  - cbn [dumps]. rewrite quote_app. cbn [scan_value]. rewrite Ascii.eqb_refl, scan_quoted. done.
  - destruct l as [|v l]; [done|]. cbn [dumps]. rewrite !str_app_assoc, str_app_cons, str_app_nil.
    change (scan_value (S f) (String "[" ?x)) with (let r := skip_ws x in
      match strip_prefix "]" r with
      | Some r => Ok (JArr [], r)
      | None => '(l, r) ← scan_elements f r; Ok (JArr l, r) end). cbv zeta.
    rewrite skip_ws_join, scan_elements_ok by (done || (cbn [jsize foldr] in *; lia)).
    assert (∀ x, strip_prefix "]" (join "," (dumps <$> v :: l) +:+ x) = None) as ->; [|done].
    intros x. destruct (dumps_head v) as (c & t & E & _ & Hc). rewrite fmap_cons.
    destruct (dumps <$> l); [|rewrite join_cons_cons, str_app_assoc]; cbn [join]; rewrite E, str_app_cons;
      cbn [strip_prefix]; by rewrite Hc.
  - cbn [wf] in Hw. apply andb_true_iff in Hw as [Hnd%bool_decide_eq_true Hw].
    cbn [dumps norm]. rewrite sorted_by_values. fold (pairs (sorted_by fst o)).
    assert (scan_value (S f) ("{" +:+ join "," (pairs (sorted_by fst o)) +:+ "}" +:+ r) =
      Ok (JObj ((λ kv, (kv.1, norm kv.2)) <$> sorted_by fst o), r)) as E.
    2: { rewrite sorted_by_values, !str_app_assoc in *. exact E. }
    assert (sorted_by fst o ≡ₚ o) as Hp by apply sorted_by_perm.
    change ("{" +:+ ?x)%string with (String "{" x).
    change (scan_value (S f) (String "{" ?x)) with (let r := skip_ws x in
      match strip_prefix "}" r with
      | Some r => Ok (JObj [], r)
      | None => '(o, r) ← scan_members f r; Ok (JObj (foldl (λ d kv, od_set kv.1 kv.2 d) [] o), r) end). cbv zeta.
    assert (NoDup (sorted_by fst o).*1) as Hnd' by by rewrite Hp.
    assert (Forall (λ kv, reads kv.2) (sorted_by fst o)) as IH' by by rewrite Hp.
    assert (forallb (λ kv, wf kv.2) (sorted_by fst o) = true) as Hw'.
    { rewrite forallb_elem in *. intros x. rewrite elem_of_sorted_by. apply Hw. }
    assert (foldr (λ kv n, S (jsize kv.2 + n)) 0 (sorted_by fst o) <= f)%nat as Hf'.
    { rewrite (foldr_size_perm (λ kv : string * json, jsize kv.2) _ _ Hp). cbn [jsize] in Hf. lia. }
    revert Hnd' IH' Hw' Hf'. generalize (sorted_by fst o) as o'. intros o' Hnd' IH' Hw' Hf'.
    destruct o' as [|[k v] o']; [done|].
    rewrite skip_ws_pairs, scan_members_ok by done.
    assert (∀ x, strip_prefix "}" (join "," (pairs ((k, v) :: o')) +:+ x) = None) as -> by by destruct o'.
    cbn [mbind res_bind]. rewrite od_sets_new; [done|].
    change ([] ++ ?l) with l. rewrite <- list_fmap_compose. exact Hnd'.
Qed.

Lemma jsize_le v : (jsize v <= String.length (dumps v))%nat.
Proof.
  assert (∀ l : list json, Forall (λ v, (jsize v <= String.length (dumps v))%nat) l →
    (foldr (λ v n, S (jsize v + n)) 0 l <= S (String.length (join "," (dumps <$> l))))%nat) as Hl.
  { clear v. intros l H. induction H as [|v l Hv Hl IH]; [simpl; lia|]. cbn [foldr]. destruct l as [|w l].
    - cbn [foldr fmap list_fmap join]. rewrite Nat.add_0_r. by apply le_n_S.
    - rewrite (fmap_cons dumps v). rewrite (fmap_cons dumps w) in *. rewrite join_cons_cons, !str_length_app.
      cbn [foldr] in *. change (String.length (String ?c ?x)) with (S (String.length x)). lia. }
  assert (∀ o : list (string * json), Forall (λ kv, (jsize kv.2 <= String.length (dumps kv.2))%nat) o →
    (foldr (λ kv n, S (jsize kv.2 + n)) 0 o <= S (String.length (join "," (pairs o))))%nat) as Ho.
  { intros o H. induction H as [|kv o Hv Ho IH]; [simpl; lia|]. cbn [foldr].
    assert (∀ t, String.length t <= String.length (member (kv.1, t)))%nat as Hm.
    { intros t. unfold member. cbn [fst snd]. rewrite str_length_app.
      change (String.length (":" +:+ t)%string) with (S (String.length t)). lia. }
    specialize (Hm (dumps kv.2)). destruct o as [|e o].
    - change (join "," (pairs [kv])) with (member (kv.1, dumps kv.2)). cbn [foldr] in *. lia.
    - assert (join "," (pairs (kv :: e :: o)) =
        member (kv.1, dumps kv.2) +:+ "," +:+ join "," (pairs (e :: o)))%string as -> by done.
      rewrite !str_length_app. cbn [foldr] in *. change (String.length ",") with 1%nat. lia. }
  induction v as [|[]|z|s|l IH|o IH] using json_induction; cbn [jsize dumps]; try (simpl; lia).
  - destruct (str_Z_head z) as (c & t & -> & _). simpl. lia.
  - rewrite !str_length_app. change (String.length "[") with 1%nat. change (String.length "]") with 1%nat.
    specialize (Hl l IH). lia.
  - rewrite !str_length_app, sorted_by_values. fold (pairs (sorted_by fst o)).
    change (String.length "{") with 1%nat. change (String.length "}") with 1%nat.
    rewrite <- (foldr_size_perm (λ kv : string * json, jsize kv.2) _ _ (sorted_by_perm fst o)).
    specialize (Ho (sorted_by fst o) ltac:(by rewrite (sorted_by_perm fst o))). lia.
Qed.

Lemma dumps_values (g : json → json) (o : list (string * json)) :
  (∀ kv, kv ∈ o → dumps (g kv.2) = dumps kv.2) →
  dumps (JObj ((λ kv, (kv.1, g kv.2)) <$> o)) = dumps (JObj o).
Proof.
  intros H. cbn [dumps]. do 5 f_equal. rewrite <- list_fmap_compose. apply list_fmap_ext.
  intros i x Hx. unfold compose. cbn [fst snd]. f_equal. apply H. by eapply list_elem_of_lookup_2.
Qed.
(** Putting the keys in order changes nothing to the text. *)
Lemma dumps_norm v : dumps (norm v) = dumps v.
Proof.
  induction v as [|[]|z|s|l IH|o IH] using json_induction; [done..| |]; cbn [norm].
  - cbn [dumps]. do 3 f_equal. rewrite <- list_fmap_compose. apply list_fmap_ext. intros i x Hx.
    rewrite Forall_forall in IH. apply IH. by eapply list_elem_of_lookup_2.
  - rewrite sorted_by_values, dumps_values.
    + cbn [dumps]. rewrite !sorted_by_values, sorted_by_id by apply sorted_by_sorted. done.
    + intros kv Hkv. rewrite Forall_forall in IH. apply IH. by apply (elem_of_sorted_by fst).
Qed.
(** A member is found under its key, in order or not. *)
Lemma od_get_norm k (o : list (string * json)) : NoDup o.*1 →
  od_get k (sorted_by fst ((λ kv, (kv.1, norm kv.2)) <$> o)) = norm <$> od_get k o.
Proof.
  intros Hnd. rewrite sorted_by_values.
  assert (NoDup (sorted_by fst o).*1) as Hnd' by by rewrite (sorted_by_perm fst o).
  assert (((λ kv : string * json, (kv.1, norm kv.2)) <$> sorted_by fst o).*1 = (sorted_by fst o).*1) as Ek
    by by rewrite <- list_fmap_compose.
  destruct (od_get k o) as [v|] eqn:E.
  - apply od_get_elem in E. apply od_get_in; [by rewrite Ek|]. apply list_elem_of_fmap. exists (k, v).
    split; [done|]. by apply elem_of_sorted_by.
  - apply od_get_None. rewrite Ek. apply od_get_None in E. by rewrite (sorted_by_perm fst o).
Qed.

(** ** Guarantees *)

(** What [dumps] writes, [loads] reads back, with the keys of every object in order. *)
Theorem loads_dumps v : wf v = true → loads (dumps v) = Ok (norm v).
Proof.
  intros Hw. unfold loads. pose proof (scan_value_dumps v Hw (S (String.length (dumps v))) "") as H.
  pose proof (skip_ws_dumps v "") as Hs. rewrite str_app_nil_r in *. rewrite Hs.
  pose proof (jsize_le v). rewrite H by (done || lia). done.
Qed.
