(* ===== verification/Calendar.v ===== *)
(** * Calendar: dates as text, and the day of an instant

    What the source uses of [datetime]: a date is its proleptic Gregorian ordinal
    (1 is 0001-01-01), [isoformat] writes it, [fromisoformat] reads it, and an aware
    [datetime] has a date in UTC.  A [datetime] is its wall clock in microseconds,
    counted from the start of day 0, and its offset, absent when it is naive; the text of
    an instant is that of its UTC wall clock, and is read back.  The range limits of the
    standard library (years 1 to 9999) are those of [valid_date]; an instant whose UTC
    date leaves them is not modelled. *)

From S2P Require Import Prelude DecimalText.

(** ** Ordinals *)

Definition is_leap (y : Z) : bool := (y mod 4 =? 0) && (negb (y mod 100 =? 0) || (y mod 400 =? 0)).
Definition days_before_year (y : Z) : Z := let y := y - 1 in y * 365 + y / 4 - y / 100 + y / 400.
(** Days of a common year before each month. *)
Definition month_start (m : Z) : Z :=
  nth (Z.to_nat m) [0; 0; 31; 59; 90; 120; 151; 181; 212; 243; 273; 304; 334; 365] 0.
Definition days_before_month (y m : Z) : Z :=
  month_start m + (if (2 <? m) && is_leap y then 1 else 0).
Definition days_in_month (y m : Z) : Z := days_before_month y (m + 1) - days_before_month y m.
Definition ymd_to_ordinal (y m d : Z) : Z := days_before_year y + days_before_month y m + d.

(** The largest month whose first day is not after the [n]-th day of the year (from 0). *)
Definition month_of (y n : Z) : Z :=
  foldl (λ m k, if days_before_month y k <=? n then k else m) 1 [2; 3; 4; 5; 6; 7; 8; 9; 10; 11; 12].
(** The year of an ordinal, by 400-, 100-, 4- and 1-year cycles. *)
Definition year_of (ordinal : Z) : Z :=
  let n := ordinal - 1 in
  let n400 := n / 146097 in let n := n mod 146097 in
  let n100 := n / 36524 in let n := n mod 36524 in
  let n4 := n / 1461 in let n := n mod 1461 in
  let n1 := n / 365 in
  let year := n400 * 400 + n100 * 100 + n4 * 4 + n1 + 1 in
  if (n1 =? 4) || (n100 =? 4) then year - 1 else year.
Definition ordinal_to_ymd (ordinal : Z) : Z * Z * Z :=
  let y := year_of ordinal in
  let n := ordinal - 1 - days_before_year y in
  let m := month_of y n in
  (y, m, n - days_before_month y m + 1).

Definition MAXORDINAL : Z := 3652059.
Definition valid_date (d : Z) : Prop := 1 <= d <= MAXORDINAL.

(** [date.isoformat()] *)
Definition isoformat (d : Z) : string :=
  let '(y, m, day) := ordinal_to_ymd d in
  (zero_padded 4 (Z.to_N y) +:+ "-" +:+ zero_padded 2 (Z.to_N m) +:+ "-" +:+ zero_padded 2 (Z.to_N day))%string.

(** [datetime.astimezone(UTC).date()] *)
Record datetime := mkDatetime { local_us : Z; utcoffset_us : option Z }.
Definition DAY_US : Z := 86400 * 1000000.
Definition utc_date (t : datetime) (offset : Z) : Z := (local_us t - offset) / DAY_US.

Example iso_1 : isoformat 1 = "0001-01-01"%string.
Proof. reflexivity. Qed.
Example iso_2 : isoformat 738000 = "2021-07-29"%string.
Proof. reflexivity. Qed.
Example iso_leap : isoformat 738580 = "2023-03-01"%string.
Proof. reflexivity. Qed.
Example iso_last : isoformat MAXORDINAL = "9999-12-31"%string.
Proof. reflexivity. Qed.

(** ** Reading *)

(** The extended format, which [isoformat] writes; the other layouts of ISO 8601 that
    [fromisoformat] also accepts are refused. *)
Definition read_date (s : string) : option (Z * string) :=
  '(y, s) ← read_digits 4 0 s;
  s ← strip_prefix "-" s;
  '(m, s) ← read_digits 2 0 s;
  s ← strip_prefix "-" s;
  '(d, s) ← read_digits 2 0 s;
  let y := Z.of_N y in let m := Z.of_N m in let d := Z.of_N d in
  if (1 <=? y) && ((1 <=? m) && (m <=? 12)) && ((1 <=? d) && (d <=? days_in_month y m))
  then Some (ymd_to_ordinal y m d, s) else None.
(** [date.fromisoformat] *)
Definition fromisoformat (s : string) : res Z :=
  match read_date s with
  | Some (d, ""%string) => Ok d
  | _ => Raise (ValueError "Invalid isoformat string")
  end.

(** ** Instants in UTC, in microseconds from the start of day 0 *)

Definition pad2 (n : Z) : string := zero_padded 2 (Z.to_N n).
(** [datetime.isoformat] of an instant in UTC. *)
Definition utc_isoformat (us : Z) : string :=
  let t := us mod DAY_US in
  let s := t / 1000000 in
  let f := t mod 1000000 in
  (isoformat (us / DAY_US) +:+ "T" +:+ pad2 (s / 3600) +:+ ":" +:+ pad2 (s / 60 mod 60) +:+ ":" +:+
   pad2 (s mod 60) +:+ (if Z.eqb f 0 then "" else "." +:+ zero_padded 6 (Z.to_N f)) +:+ "+00:00")%string.
Definition read_time (s : string) : option (Z * string) :=
  '(h, s) ← read_digits 2 0 s;
  s ← strip_prefix ":" s;
  '(m, s) ← read_digits 2 0 s;
  s ← strip_prefix ":" s;
  '(x, s) ← read_digits 2 0 s;
  '(f, s) ← match strip_prefix "." s with Some s => read_digits 6 0 s | None => Some (0%N, s) end;
  if (h <? 24)%N && (m <? 60)%N && (x <? 60)%N
  then Some (((Z.of_N h * 60 + Z.of_N m) * 60 + Z.of_N x) * 1000000 + Z.of_N f, s) else None.
(** [datetime.fromisoformat] of a text in that layout. *)
Definition utc_fromisoformat (s : string) : res Z :=
  let invalid := Raise (ValueError "Invalid isoformat string") in
  match read_date s with
  | Some (d, s) =>
      match strip_prefix "T" s ≫= read_time with
      | Some (us, s) => if bool_decide (s = "+00:00"%string) then Ok (d * DAY_US + us) else invalid
      | None => invalid
      end
  | None => invalid
  end.
Example utc_iso : utc_isoformat (738000 * DAY_US + 3723000042) = "2021-07-29T01:02:03.000042+00:00"%string.
Proof. reflexivity. Qed.

(** ** Lemmas *)

Lemma year_of_spec d : 1 <= d → days_before_year (year_of d) < d <= days_before_year (year_of d + 1).
Proof.
  intros Hd. unfold year_of, days_before_year. cbn zeta.
  set (n := d - 1). set (a := n / 146097). set (n1 := n mod 146097). set (b := n1 / 36524).
  set (n2 := n1 mod 36524). set (c := n2 / 1461). set (n3 := n2 mod 1461). set (e := n3 / 365).
  assert (n = 146097 * a + n1 ∧ 0 <= n1 < 146097) as [Ea Ha] by (unfold a, n1; Z.div_mod_to_equations; lia).
  assert (n1 = 36524 * b + n2 ∧ 0 <= n2 < 36524) as [Eb Hb] by (unfold b, n2; Z.div_mod_to_equations; lia).
  assert (n2 = 1461 * c + n3 ∧ 0 <= n3 < 1461) as [Ec Hc] by (unfold c, n3; Z.div_mod_to_equations; lia).
  assert (∃ n4, n3 = 365 * e + n4 ∧ 0 <= n4 < 365) as (n4 & Ee & He).
  { exists (n3 mod 365). unfold e. Z.div_mod_to_equations; lia. }
  clearbody a b c e n1 n2 n3. assert (d = n + 1) as Ed by (unfold n; lia). clearbody n. subst d.
  assert (0 <= b <= 4 ∧ 0 <= c <= 24 ∧ 0 <= e <= 4) as (Hb4 & Hc4 & He4) by lia.
  destruct (Z.eqb_spec e 4) as [-> |He'], (Z.eqb_spec b 4) as [-> |Hb']; cbn [orb];
    Z.div_mod_to_equations; lia.
Qed.
Definition leap_day (y : Z) : Z := if is_leap y then 1 else 0.
Lemma year_length y : days_before_year (y + 1) = days_before_year y + 365 + leap_day y.
Proof.
  unfold days_before_year, leap_day, is_leap. cbn zeta.
  destruct (Z.eqb_spec (y mod 4) 0), (Z.eqb_spec (y mod 100) 0), (Z.eqb_spec (y mod 400) 0); cbn [andb orb negb];
    Z.div_mod_to_equations; lia.
Qed.
Ltac each_month m :=
  let H := fresh in
  assert (m = 1 ∨ m = 2 ∨ m = 3 ∨ m = 4 ∨ m = 5 ∨ m = 6 ∨ m = 7 ∨ m = 8 ∨ m = 9 ∨ m = 10 ∨ m = 11 ∨ m = 12)
    as H by lia;
  destruct H as [-> |[-> |[-> |[-> |[-> |[-> |[-> |[-> |[-> |[-> |[-> | ->]]]]]]]]]]].
Ltac between_days :=
  match goal with |- ?a <= ?n < ?b =>
    let va := eval compute in a in let vb := eval compute in b in change (va <= n < vb); lia
  end.
Lemma month_of_spec y n : 0 <= n < 365 + leap_day y →
  1 <= month_of y n <= 12 ∧ days_before_month y (month_of y n) <= n < days_before_month y (month_of y n + 1).
Proof.
  intros Hn. unfold month_of. cbn [foldl]. unfold days_before_month, leap_day in *.
  destruct (is_leap y);
    repeat match goal with |- context [if ?a <=? n then ?x else _] =>
      let v := eval compute in a in change a with v; destruct (Z.leb_spec v n); [split; [lia|between_days]|]
    end; (split; [lia|between_days]).
Qed.
Lemma days_before_year_mono a b : a <= b → days_before_year a <= days_before_year b.
Proof.
  intros H. replace b with (a + Z.of_nat (Z.to_nat (b - a))) by lia.
  induction (Z.to_nat (b - a)) as [|k IH]; [by rewrite Z.add_0_r|].
  replace (a + Z.of_nat (S k)) with (a + Z.of_nat k + 1) by lia. rewrite year_length.
  unfold leap_day. destruct (is_leap _); lia.
Qed.

Lemma ordinal_to_ymd_spec d : valid_date d → let '(y, m, day) := ordinal_to_ymd d in
  1 <= y <= 9999 ∧ 1 <= m <= 12 ∧ 1 <= day <= days_in_month y m ∧ day <= 31 ∧ ymd_to_ordinal y m day = d.
Proof.
  unfold valid_date. intros Hd. unfold ordinal_to_ymd. cbn zeta. set (y := year_of d).
  pose proof (year_of_spec d ltac:(lia)) as Hy. fold y in Hy. rewrite year_length in Hy.
  destruct (month_of_spec y (d - 1 - days_before_year y) ltac:(lia)) as [Hm Hn].
  set (m := month_of y (d - 1 - days_before_year y)) in *.
  assert (1 <= y <= 9999) as Hyr.
  { split; apply Z.nlt_ge; intros Hlt.
    - pose proof (days_before_year_mono (y + 1) 1 ltac:(lia)) as H. rewrite year_length in H.
      change (days_before_year 1) with 0 in H. lia.
    - pose proof (days_before_year_mono 10000 y ltac:(lia)) as H.
      change (days_before_year 10000) with 3652059 in H. unfold MAXORDINAL in Hd. lia. }
  unfold ymd_to_ordinal, days_in_month. split_and!; try lia.
  assert (days_before_month y (m + 1) - days_before_month y m <= 31) as H31; [|lia].
  clear -Hm. unfold days_before_month. destruct (is_leap y); clearbody m; each_month m; compute; discriminate.
Qed.

Lemma read_date_isoformat d s : valid_date d → read_date (isoformat d +:+ s) = Some (d, s).
Proof.
  intros Hd. pose proof (ordinal_to_ymd_spec d Hd) as H. unfold isoformat.
  destruct (ordinal_to_ymd d) as [[y m] day]. destruct H as (Hy & Hm & Hday & H31 & E).
  unfold read_date. rewrite !str_app_assoc, read_zero_padded by lia. cbn [mbind option_bind].
  rewrite strip_prefix_app. cbn [mbind option_bind]. rewrite read_zero_padded by lia. cbn [mbind option_bind].
  rewrite strip_prefix_app. cbn [mbind option_bind]. rewrite read_zero_padded by lia. cbn [mbind option_bind].
  rewrite !Z2N.id by lia.
  assert ((1 <=? y) && ((1 <=? m) && (m <=? 12)) && ((1 <=? day) && (day <=? days_in_month y m)) = true) as ->
    by (rewrite !andb_true_iff, !Z.leb_le; lia).
  cbn zeta. by rewrite E.
Qed.

Lemma read_digits_bound w acc s n r : read_digits w acc s = Some (n, r) →
  (n < (acc + 1) * 10 ^ N.of_nat w)%N.
Proof.
  revert acc s. induction w as [|w IH]; intros acc s H; cbn [read_digits] in H.
  { injection H as <- _. simpl. lia. }
  destruct s as [|c s]; [done|]. destruct (is_digit c) eqn:Ec; [|done]. apply IH in H.
  unfold is_digit in Ec. rewrite andb_true_iff, !N.leb_le in Ec. rewrite Nat2N.inj_succ, N.pow_succ_r'.
  eapply N.lt_le_trans; [exact H|]. rewrite N.mul_assoc. apply N.mul_le_mono_r. lia.
Qed.
(** What is read is a date of the calendar. *)
Lemma read_date_valid s d r : read_date s = Some (d, r) → valid_date d.
Proof.
  unfold read_date. destruct (read_digits 4 0 s) as [[y s1]|] eqn:Ey; [|done]. cbn [mbind option_bind].
  destruct (strip_prefix "-" s1) as [s2|]; [|done]. cbn [mbind option_bind].
  destruct (read_digits 2 0 s2) as [[m s3]|]; [|done]. cbn [mbind option_bind].
  destruct (strip_prefix "-" s3) as [s4|]; [|done]. cbn [mbind option_bind].
  destruct (read_digits 2 0 s4) as [[n s5]|]; [|done]. cbn [mbind option_bind]. cbn zeta.
  destruct (_ && _) eqn:E; [|done]. intros [= <- _]. apply read_digits_bound in Ey.
  rewrite !andb_true_iff, !Z.leb_le in E. destruct E as [[Hy Hm] Hn].
  assert (Z.of_N y <= 9999) as Hy' by (change ((0 + 1) * 10 ^ N.of_nat 4)%N with 10000%N in Ey; lia).
  set (y' := Z.of_N y) in *. set (m' := Z.of_N m) in *. clearbody y' m'. unfold valid_date, ymd_to_ordinal.
  pose proof (days_before_year_mono 1 y' ltac:(lia)) as H1. change (days_before_year 1) with 0 in H1.
  pose proof (days_before_year_mono (y' + 1) 10000 ltac:(lia)) as H2.
  change (days_before_year 10000) with MAXORDINAL in H2. rewrite year_length in H2. unfold days_in_month in Hn.
  assert (0 <= days_before_month y' m' ∧ days_before_month y' (m' + 1) <= 365 + leap_day y'); [|lia].
  clear -Hm. unfold leap_day, days_before_month. destruct (is_leap y'); each_month m'; split; compute; discriminate.
Qed.
Lemma fromisoformat_valid s d : fromisoformat s = Ok d → valid_date d.
Proof.
  unfold fromisoformat. destruct (read_date s) as [[d' []]|] eqn:E; intros [= <-]. by eapply read_date_valid.
Qed.

(** ** Guarantees *)

(** [date.fromisoformat(d.isoformat()) == d], for every date of the calendar. *)
Theorem date_text_roundtrip d : valid_date d → fromisoformat (isoformat d) = Ok d.
Proof.
  intros Hd. unfold fromisoformat. pose proof (read_date_isoformat d "" Hd) as H.
  rewrite str_app_nil_r in H. by rewrite H.
Qed.

(** [datetime.fromisoformat(t.isoformat()) == t], for every instant in UTC. *)
Theorem datetime_text_roundtrip us : valid_date (us / DAY_US) → utc_fromisoformat (utc_isoformat us) = Ok us.
Proof.
  intros Hd. unfold utc_fromisoformat, utc_isoformat. cbn zeta. rewrite read_date_isoformat by done.
  set (t := us mod DAY_US). assert (0 <= t < DAY_US) as Ht by (apply Z.mod_pos_bound; done).
  rewrite strip_prefix_app. cbn [mbind option_bind]. unfold read_time, pad2.
  assert (0 <= t / 1000000 < 86400) as Hs by (unfold DAY_US in Ht; Z.div_mod_to_equations; lia).
  set (s := t / 1000000) in *. set (f := t mod 1000000).
  assert (0 <= f < 1000000) as Hf by by apply Z.mod_pos_bound.
  assert (0 <= s / 3600 < 24 ∧ 0 <= s / 60 mod 60 < 60 ∧ 0 <= s mod 60 < 60) as (Hh & Hm & Hx)
    by (clearbody s; Z.div_mod_to_equations; lia).
  rewrite read_zero_padded by lia. cbn [mbind option_bind]. rewrite strip_prefix_app. cbn [mbind option_bind].
  rewrite read_zero_padded by lia. cbn [mbind option_bind]. rewrite strip_prefix_app. cbn [mbind option_bind].
  rewrite read_zero_padded by lia. cbn [mbind option_bind].
  assert (((s / 3600 * 60 + s / 60 mod 60) * 60 + s mod 60) * 1000000 + f = t) as E.
  { assert (t = s * 1000000 + f) by (unfold s, f; Z.div_mod_to_equations; lia).
    clearbody s. Z.div_mod_to_equations; lia. }
  assert ((Z.to_N (s / 3600) <? 24)%N && (Z.to_N (s / 60 mod 60) <? 60)%N && (Z.to_N (s mod 60) <? 60)%N = true) as Hok
    by (rewrite !andb_true_iff, !N.ltb_lt; lia).
  assert (us = us / DAY_US * DAY_US + t) as Eus by (unfold t; pose proof (Z.div_mod us DAY_US); lia).
  destruct (Z.eqb_spec f 0) as [E0|].
  - rewrite str_app_nil. change (strip_prefix "." "+00:00") with (@None string). cbn [mbind option_bind].
    rewrite Hok. rewrite bool_decide_true by done. f_equal. rewrite !Z2N.id by lia. lia.
  - rewrite str_app_assoc, strip_prefix_app. rewrite read_zero_padded by lia. cbn [mbind option_bind].
    rewrite Hok. rewrite bool_decide_true by done. f_equal. rewrite !Z2N.id by lia. lia.
Qed.
