(* ===== verification/Models.v ===== *)
(** * Models: records, tolerance, decisions and their fingerprints

    [models.py].  Strings are UTF-8 byte strings, dates are proleptic ordinals
    ([date.toordinal()]), amounts are decimals of [Numeric].  The lemmas give
    the exact content a fingerprint commits to. *)

From S2P Require Import Prelude Digest Numeric DecimalText.

(** ** Data *)

Notation date := Z (only parsing).

Inductive RuleId := M0_REFERENCE | M1_EXACT | M2_TOLERANT | M3_AGGREGATE.

Inductive RejectReason :=
| NO_CANDIDATE
| DATE_OUT_OF_WINDOW
| AMOUNT_OUT_OF_TOLERANCE
| LOST_TO_BETTER_CANDIDATE
| AGGREGATE_NOT_FOUND
| BLOCK_TOO_LARGE.

Global Instance RuleId_eq_dec : EqDecision RuleId.
Proof. solve_decision. Defined.
Global Instance RejectReason_eq_dec : EqDecision RejectReason.
Proof. solve_decision. Defined.

(** The [IntEnum] values. *)
Definition RuleId_value (r : RuleId) : Z :=
  match r with M0_REFERENCE => 0 | M1_EXACT => 1 | M2_TOLERANT => 2 | M3_AGGREGATE => 3 end.
Definition RejectReason_value (r : RejectReason) : Z :=
  match r with
  | NO_CANDIDATE => 1 | DATE_OUT_OF_WINDOW => 2 | AMOUNT_OUT_OF_TOLERANCE => 3
  | LOST_TO_BETTER_CANDIDATE => 4 | AGGREGATE_NOT_FOUND => 5 | BLOCK_TOO_LARGE => 6
  end.
Global Instance RejectReason_countable : Countable RejectReason :=
  inj_countable RejectReason_value (λ z,
    find (λ r, RejectReason_value r =? z) [NO_CANDIDATE; DATE_OUT_OF_WINDOW;
      AMOUNT_OUT_OF_TOLERANCE; LOST_TO_BETTER_CANDIDATE; AGGREGATE_NOT_FOUND; BLOCK_TOO_LARGE])
    ltac:(by intros []).
Global Instance RuleId_cmp : Cmp RuleId := cmp_on RuleId_value.
Global Instance RejectReason_cmp : Cmp RejectReason := cmp_on RejectReason_value.

(** [r.name] *)
Definition RuleId_name (r : RuleId) : string :=
  match r with
  | M0_REFERENCE => "M0_REFERENCE" | M1_EXACT => "M1_EXACT"
  | M2_TOLERANT => "M2_TOLERANT" | M3_AGGREGATE => "M3_AGGREGATE"
  end.
Definition RejectReason_name (r : RejectReason) : string :=
  match r with
  | NO_CANDIDATE => "NO_CANDIDATE" | DATE_OUT_OF_WINDOW => "DATE_OUT_OF_WINDOW"
  | AMOUNT_OUT_OF_TOLERANCE => "AMOUNT_OUT_OF_TOLERANCE"
  | LOST_TO_BETTER_CANDIDATE => "LOST_TO_BETTER_CANDIDATE"
  | AGGREGATE_NOT_FOUND => "AGGREGATE_NOT_FOUND" | BLOCK_TOO_LARGE => "BLOCK_TOO_LARGE"
  end.
(** Iterating over the enum: declaration order. *)
Definition RuleId_all : list RuleId := [M0_REFERENCE; M1_EXACT; M2_TOLERANT; M3_AGGREGATE].

(** [Record]; the field [id] is [rid] here. *)
Record Rec := mkRec {
  rid : string;
  account : string;
  amount : decimal;
  value_date : date;
  reference : option string;
  currency : option string
}.
Global Instance Rec_eq_dec : EqDecision Rec.
Proof. solve_decision. Defined.
(** [==] of two records: amounts are compared as numbers, so 1.0 and 1.00 are equal. *)
Definition rec_eqb (a b : Rec) : bool :=
  bool_decide (rid a = rid b) && bool_decide (account a = account b) && deqb (amount a) (amount b) &&
  (value_date a =? value_date b) && bool_decide (reference a = reference b) &&
  bool_decide (currency a = currency b).

(** [if record.reference:] -- [None] and the empty string are both false. *)
Definition truthy (s : option string) : bool :=
  match s with None | Some EmptyString => false | Some _ => true end.

Record Tolerance := mkTolerance {
  amount_abs : decimal;
  amount_rel : decimal;
  date_days : Z;
  max_aggregate_size : Z;
  max_block_candidates : Z
}.
(** The dataclass defaults. *)
Definition Tolerance_default : Tolerance := mkTolerance (lit 0 2) (lit 0 0) 0 3 32.

Record Match := mkMatch {
  left_id : string;
  right_ids : list string;
  rule : RuleId;
  score : decimal;
  amount_residual : decimal;
  date_gap_days : Z
}.

(** [Reject]: [left_id], [right_id] and [reason]. *)
Record Reject := mkReject {
  rej_left : string;
  rej_right : option string;
  reason : RejectReason
}.
Global Instance Match_eq_dec : EqDecision Match.
Proof. solve_decision. Defined.
Global Instance Reject_eq_dec : EqDecision Reject.
Proof. solve_decision. Defined.

Record MatchResult := mkResult {
  matches : list Match;
  rejects : list Reject;
  counters : gmap string Z;
  result_ruleset_id : string
}.

(** ** Operations *)

(** [Tolerance.ruleset_id]: the text that is hashed, and its hash. *)
Definition ruleset_payload (t : Tolerance) : string :=
  join "|" ((RuleId_name <$> RuleId_all) ++
            [str_decimal (amount_abs t); str_decimal (amount_rel t); str_Z (date_days t);
             str_Z (max_aggregate_size t); str_Z (max_block_candidates t)]).
Definition ruleset_id (t : Tolerance) : string := hash16 (ruleset_payload t).

(** [Match.business_key] and [Match.fingerprint]. *)
Definition match_business_key (m : Match) : string := left_id m.
Definition match_parts (m : Match) : list string :=
  ["MATCH"; left_id m; join "," (right_ids m); RuleId_name (rule m);
   str_decimal (amount_residual m)]%string.
Definition match_fingerprint (m : Match) : string := _digest (match_parts m).

(** [Reject.business_key] and [Reject.fingerprint]. *)
Definition reject_business_key (r : Reject) : string := rej_left r.
Definition reject_parts (r : Reject) : list string :=
  ["BREAK"; rej_left r; default "" (rej_right r); RejectReason_name (reason r)]%string.
Definition reject_fingerprint (r : Reject) : string := _digest (reject_parts r).

(** [MatchResult.result_hash] *)
Definition result_hash (r : MatchResult) : string :=
  _digest (result_ruleset_id r ::
           sorted ((match_fingerprint <$> matches r) ++ (reject_fingerprint <$> rejects r))).

(** The fingerprint of the README's ruleset. *)
Example readme_ruleset_id :
  ruleset_id (mkTolerance (lit 50 2) (lit 0 0) 3 3 32) = "514101369862cbf6"%string.
Proof. vm_compute. reflexivity. Qed.

(** ** Lemmas: what a fingerprint commits to *)

(** Text that can be joined and cut again. *)
Definition plain (s : string) : bool := lacks _SEP_char s.
Definition match_ok (m : Match) : Prop :=
  plain (left_id m) = true ∧ right_ids m ≠ [] ∧
  ∀ x, x ∈ right_ids m → plain x = true ∧ lacks "," x = true.
Definition reject_ok (r : Reject) : Prop :=
  plain (rej_left r) = true ∧ ∀ x, rej_right r = Some x → plain x = true ∧ x ≠ ""%string.

Lemma decimal_char_plain c : decimal_char c = true → negb (Ascii.eqb c _SEP_char) = true.
Proof. destruct (Ascii.eqb_spec c _SEP_char) as [-> |]; done. Qed.

Lemma plain_str_decimal d : plain (str_decimal d) = true.
Proof. eapply all_chars_impl; [apply decimal_char_plain|apply str_decimal_chars]. Qed.

Lemma plain_join l : (∀ x, x ∈ l → plain x = true) → plain (join "," l) = true.
Proof.
  induction l as [|x l IH]; intros H; [done|]. destruct l as [|y l]; [apply H; left|].
  rewrite (join_cons_cons "," x y l). unfold plain, lacks in *.
  rewrite all_chars_app. cbn [all_chars]. rewrite IH by (intros; apply H; by right).
  by rewrite H by left.
Qed.

Lemma match_parts_plain m : match_ok m → Forall (λ s, lacks _SEP_char s = true) (match_parts m).
Proof.
  intros (Hl & _ & Hr). unfold match_parts. repeat constructor.
  - exact Hl.
  - apply plain_join. intros x Hx. by apply Hr.
  - by destruct (rule m).
  - apply plain_str_decimal.
Qed.

Lemma reject_parts_plain r : reject_ok r → Forall (λ s, lacks _SEP_char s = true) (reject_parts r).
Proof.
  intros (Hl & Hr). unfold reject_parts. repeat constructor.
  - exact Hl.
  - destruct (rej_right r) eqn:E; [by apply (Hr s)|done].
  - by destruct (reason r).
Qed.

Lemma RuleId_name_inj r r' : RuleId_name r = RuleId_name r' → r = r'.
Proof. by destruct r, r'. Qed.
Lemma RejectReason_name_inj r r' : RejectReason_name r = RejectReason_name r' → r = r'.
Proof. by destruct r, r'. Qed.

(** ** Guarantees *)

(** The text behind a match's fingerprint determines the decision -- its left
    record, its right records in order, its rule and its residual -- and nothing
    else: the score and the date gap do not contribute. *)
Theorem match_fingerprint_text m m' : match_ok m → match_ok m' →
  join _SEP (match_parts m) = join _SEP (match_parts m') ↔
  left_id m = left_id m' ∧ right_ids m = right_ids m' ∧ rule m = rule m' ∧
  amount_residual m = amount_residual m'.
Proof.
  intros Hm Hm'. split.
  - intros E. apply join_inj in E; [|done|done|by apply match_parts_plain..].
    unfold match_parts in E. injection E as E1 E2 E3 E4. split; [done|]. split.
    + destruct Hm as (_ & Hne & Hr), Hm' as (_ & Hne' & Hr').
      apply join_inj in E2; [done..| |]; apply Forall_forall; intros x Hx;
        [by apply Hr | by apply Hr'].
    + split; [by apply RuleId_name_inj|by apply str_decimal_inj].
  - intros (E1 & E2 & E3 & E4). unfold match_parts. by rewrite E1, E2, E3, E4.
Qed.

Lemma match_fingerprint_text_witness :
  let m := mkMatch "L1" ["R1"; "R2"] M3_AGGREGATE (lit 55 2) (lit 0 2) 1 in
  let m' := mkMatch "L1" ["R1"; "R2"] M3_AGGREGATE (lit 48 2) (lit 0 2) 3 in
  join _SEP (match_parts m) = join _SEP (match_parts m').
Proof.
  assert (∀ sc gap, match_ok (mkMatch "L1" ["R1"; "R2"]%string M3_AGGREGATE sc (lit 0 2) gap)) as Hok.
  { intros sc gap. split; [reflexivity|]. split; [discriminate|].
    intros x Hx. cbn [right_ids] in Hx. rewrite !elem_of_cons, elem_of_nil in Hx.
    destruct Hx as [-> | [-> | []]]; split; reflexivity. }
  intros m m'. apply (match_fingerprint_text m m' (Hok _ _) (Hok _ _)). repeat split.
Defined.

(** The right identifiers are joined with a comma: an identifier that holds one
    makes two different decisions commit to the same text. *)
Example comma_in_identifier :
  let m := mkMatch "L1" ["R1"; "R2"] M3_AGGREGATE (lit 55 2) (lit 0 2) 0 in
  let m' := mkMatch "L1" ["R1,R2"] M3_AGGREGATE (lit 55 2) (lit 0 2) 0 in
  match_fingerprint m = match_fingerprint m'.
Proof. vm_compute. reflexivity. Qed.

(** The text behind a break's fingerprint determines the pair and the reason,
    and it is never the text of a match. *)
Theorem reject_fingerprint_text r r' : reject_ok r → reject_ok r' →
  (join _SEP (reject_parts r) = join _SEP (reject_parts r') ↔ r = r') ∧
  (∀ m, match_ok m → join _SEP (reject_parts r) ≠ join _SEP (match_parts m)).
Proof.
  intros Hr Hr'. split.
  - split; [|by intros ->]. intros E.
    apply join_inj in E; [|done|done|by apply reject_parts_plain..].
    unfold reject_parts in E. injection E as E1 E2 E3. apply RejectReason_name_inj in E3.
    destruct Hr as [_ Hr], Hr' as [_ Hr']. destruct r as [a [b|] c], r' as [a' [b'|] c'];
      simpl in *; subst; try done.
    + by destruct (Hr _ eq_refl).
    + by destruct (Hr' _ eq_refl).
  - intros m Hm E. apply join_inj in E; [|done|done|by apply reject_parts_plain|by apply match_parts_plain].
    discriminate.
Qed.

Lemma reject_fingerprint_text_witness :
  let r := mkReject "L1" None NO_CANDIDATE in
  let r' := mkReject "L1" (Some "R1") DATE_OUT_OF_WINDOW in
  join _SEP (reject_parts r) ≠ join _SEP (reject_parts r').
Proof.
  intros r r' E.
  assert (reject_ok r) as Hr by (split; [reflexivity|]; intros x Hx; discriminate Hx).
  assert (reject_ok r') as Hr'
    by (split; [reflexivity|]; intros x Hx; injection Hx as <-; split; [reflexivity|discriminate]).
  apply (proj1 (reject_fingerprint_text r r' Hr Hr')) in E. discriminate E.
Defined.

(** The ruleset's fingerprint commits to every parameter: two tolerances have
    the same text exactly when they are the same, trailing zeros included. *)
Theorem ruleset_text t t' : ruleset_payload t = ruleset_payload t' ↔ t = t'.
Proof.
  split; [|by intros ->]. intros E.
  assert (∀ t, Forall (λ s, lacks "|" s = true) ((RuleId_name <$> RuleId_all) ++
    [str_decimal (amount_abs t); str_decimal (amount_rel t); str_Z (date_days t);
     str_Z (max_aggregate_size t); str_Z (max_block_candidates t)])) as Hp.
  { intros u. assert (∀ c, decimal_char c = true → negb (Ascii.eqb c "|") = true) as Hc
      by (intros c; by destruct (Ascii.eqb_spec c "|") as [-> |]).
    repeat (constructor; [first [reflexivity | eapply all_chars_impl; [exact Hc|];
      first [apply str_decimal_chars | apply str_Z_chars]]|]). constructor. }
  apply (join_inj "|") in E; [|done..|apply Hp|apply Hp]. injection E as E1 E2 E3 E4 E5.
  apply str_decimal_inj in E1, E2. apply str_Z_inj in E3, E4, E5.
  destruct t, t'; simpl in *; by subst.
Qed.

(** The hash of a result does not depend on the order of its decisions. *)
Theorem result_hash_set R R' :
  result_ruleset_id R = result_ruleset_id R' →
  matches R ≡ₚ matches R' → rejects R ≡ₚ rejects R' → result_hash R = result_hash R'.
Proof.
  intros Er Em Ej. unfold result_hash. rewrite Er. do 2 f_equal. apply sorted_perm_eq.
  by rewrite Em, Ej.
Qed.

Lemma result_hash_set_witness :
  let m := mkMatch "L1" ["R1"] M1_EXACT (lit 9 1) (lit 0 0) 0 in
  let m' := mkMatch "L2" ["R2"] M1_EXACT (lit 9 1) (lit 0 0) 0 in
  result_hash (mkResult [m; m'] [] ∅ "x") = result_hash (mkResult [m'; m] [] ∅ "x").
Proof.
  intros m m'. apply (result_hash_set (mkResult [m; m'] [] ∅ "x") (mkResult [m'; m] [] ∅ "x"));
    [reflexivity|apply Permutation_swap|reflexivity].
Defined.
