(* ===== verification/Rules.v ===== *)
(** * Rules: candidate generation, rule by rule

    [rules.py].  Each generator proposes every admissible candidate of its rule
    among the records it is given; the engine selects.  A generator can raise
    only through [Decimal.quantize] inside [_score], so it returns a [res]; the
    lemmas show it does not raise, what it proposes, and how scores of
    different rules compare. *)

From Stdlib Require Import QArith Lqa.
From S2P Require Import Prelude Numeric Models.
Open Scope Z_scope.

(** ** Operations *)

Definition _ZERO : decimal := lit 0 0.
Definition _QUANTUM : decimal := lit 1 6.
Definition _BASE_SCORE (r : RuleId) : decimal :=
  match r with
  | M0_REFERENCE => lit 10 1 | M1_EXACT => lit 9 1
  | M2_TOLERANT => lit 8 1 | M3_AGGREGATE => lit 6 1
  end.
Definition _AMOUNT_PENALTY : decimal := lit 5 2.
Definition _DATE_PENALTY : decimal := lit 5 2.
Definition _SIZE_PENALTY : decimal := lit 1 2.

Definition amount_tolerance (a : decimal) (tol : Tolerance) : decimal :=
  dadd (amount_abs tol) (dmul (dabs a) (amount_rel tol)).

Definition _date_gap (a b : date) : Z := Z.abs (a - b).

(** One proportional penalty, when it applies. *)
Definition penalise (on : bool) (x y weight penalty : decimal) : res decimal :=
  if on then q ← ddiv x y; Ok (dadd penalty (dmul q weight)) else Ok penalty.

Definition _score (r : RuleId) (residual limit : decimal) (date_gap : Z)
    (tol : Tolerance) (size : Z) : res decimal :=
  p1 ← penalise (ltb _ZERO limit) (dabs residual) limit _AMOUNT_PENALTY _ZERO;
  p2 ← penalise (0 <? date_days tol) (of_int date_gap) (of_int (date_days tol)) _DATE_PENALTY p1;
  let p3 := dadd p2 (dmul (of_int (size - 1)) _SIZE_PENALTY) in
  quantize (dsub (_BASE_SCORE r) p3) _QUANTUM.

(** A nested loop that appends to [out]. *)
Definition concat_res {A B} (f : A → res (list B)) (l : list A) : res (list B) :=
  (λ ys : list (list B), mjoin ys) <$> map_res f l.

(** [by_reference]: a [defaultdict(list)] of the rights with a reference. *)
Definition by_reference_add (m : gmap string (list Rec)) (r : Rec) : gmap string (list Rec) :=
  match reference r with
  | Some s => if truthy (reference r) then <[s := default [] (m !! s) ++ [r]]> m else m
  | None => m
  end.
Definition by_reference (rights : list Rec) : gmap string (list Rec) :=
  foldl by_reference_add ∅ rights.

Definition m0_match (l r : Rec) : Match :=
  mkMatch (rid l) [rid r] M0_REFERENCE (_BASE_SCORE M0_REFERENCE)
    (dsub (amount l) (amount r)) (_date_gap (value_date l) (value_date r)).
Definition m0_reference (lefts rights : list Rec) (tol : Tolerance) : res (list Match) :=
  let by_ref := by_reference rights in
  Ok (mjoin ((λ l,
    match reference l with
    | Some s => if truthy (reference l) then m0_match l <$> default [] (by_ref !! s) else []
    | None => []
    end) <$> lefts)).

Definition m1_pair (tol : Tolerance) (l r : Rec) : res (list Match) :=
  if negb (deqb (amount l) (amount r)) then Ok []
  else
    let gap := _date_gap (value_date l) (value_date r) in
    if date_days tol <? gap then Ok []
    else s ← _score M1_EXACT _ZERO _ZERO gap tol 1;
         Ok [mkMatch (rid l) [rid r] M1_EXACT s _ZERO gap].
Definition m1_exact (lefts rights : list Rec) (tol : Tolerance) : res (list Match) :=
  concat_res (λ l, concat_res (m1_pair tol l) rights) lefts.

Definition m2_pair (tol : Tolerance) (l : Rec) (limit : decimal) (r : Rec) : res (list Match) :=
  let residual := dsub (amount l) (amount r) in
  if ltb limit (dabs residual) then Ok []
  else
    let gap := _date_gap (value_date l) (value_date r) in
    if date_days tol <? gap then Ok []
    else s ← _score M2_TOLERANT residual limit gap tol 1;
         Ok [mkMatch (rid l) [rid r] M2_TOLERANT s residual gap].
Definition m2_tolerant (lefts rights : list Rec) (tol : Tolerance) : res (list Match) :=
  concat_res (λ l, concat_res (m2_pair tol l (amount_tolerance (amount l) tol)) rights) lefts.

(** [sum((r.amount for r in combo), _ZERO)], rounded at each step. *)
Definition sum_amounts (combo : list Rec) : decimal := foldl dadd _ZERO (amount <$> combo).
(** [max(_date_gap(...) for r in combo)]; gaps are not negative. *)
Definition max_gap (l : Rec) (combo : list Rec) : Z :=
  foldl Z.max 0 ((λ r, _date_gap (value_date l) (value_date r)) <$> combo).
Definition m3_combo (tol : Tolerance) (l : Rec) (limit : decimal) (size : Z)
    (combo : list Rec) : res (list Match) :=
  let residual := dsub (amount l) (sum_amounts combo) in
  if ltb limit (dabs residual) then Ok []
  else
    let gap := max_gap l combo in
    s ← _score M3_AGGREGATE residual limit gap tol size;
    Ok [mkMatch (rid l) (sorted (rid <$> combo)) M3_AGGREGATE s residual gap].
Definition in_window (tol : Tolerance) (l : Rec) (rights : list Rec) : list Rec :=
  List.filter (λ r, _date_gap (value_date l) (value_date r) <=? date_days tol) rights.
Definition m3_left (tol : Tolerance) (rights : list Rec) (l : Rec) : res (list Match) :=
  let win := in_window tol l rights in
  if (length win <? 2)%nat then Ok []
  else
    let limit := amount_tolerance (amount l) tol in
    concat_res (λ size,
      concat_res (m3_combo tol l limit size) (combinations win (Z.to_nat size)))
      (range 2 (max_aggregate_size tol + 1)).
Definition m3_aggregate (lefts rights : list Rec) (tol : Tolerance) : res (list Match) :=
  if max_aggregate_size tol <? 2 then Ok []
  else concat_res (m3_left tol rights) lefts.

Definition GENERATORS (r : RuleId) : list Rec → list Rec → Tolerance → res (list Match) :=
  match r with
  | M0_REFERENCE => m0_reference | M1_EXACT => m1_exact
  | M2_TOLERANT => m2_tolerant | M3_AGGREGATE => m3_aggregate
  end.

(** ** Specification: which pairs and combinations each rule admits *)

(** Within the date window. *)
Definition near (tol : Tolerance) (l r : Rec) : Prop :=
  _date_gap (value_date l) (value_date r) <= date_days tol.
(** Within the amount tolerance, as the code computes both sides. *)
Definition within (tol : Tolerance) (l : Rec) (total : decimal) : Prop :=
  cmp_le (dabs (dsub (amount l) total)) (amount_tolerance (amount l) tol).

Inductive admits (tol : Tolerance) (rights : list Rec) (l : Rec) : Match → Prop :=
| admits_m0 r s :
    r ∈ rights → reference l = Some s → reference r = Some s → s ≠ ""%string →
    admits tol rights l (m0_match l r)
| admits_m1 r sc :
    r ∈ rights → deqb (amount l) (amount r) = true → near tol l r →
    _score M1_EXACT _ZERO _ZERO (_date_gap (value_date l) (value_date r)) tol 1 = Ok sc →
    admits tol rights l
      (mkMatch (rid l) [rid r] M1_EXACT sc _ZERO (_date_gap (value_date l) (value_date r)))
| admits_m2 r sc :
    r ∈ rights → within tol l (amount r) → near tol l r →
    _score M2_TOLERANT (dsub (amount l) (amount r)) (amount_tolerance (amount l) tol)
      (_date_gap (value_date l) (value_date r)) tol 1 = Ok sc →
    admits tol rights l
      (mkMatch (rid l) [rid r] M2_TOLERANT sc (dsub (amount l) (amount r))
         (_date_gap (value_date l) (value_date r)))
| admits_m3 combo sc :
    sublist combo rights → 2 <= Z.of_nat (length combo) <= max_aggregate_size tol →
    Forall (near tol l) combo → within tol l (sum_amounts combo) →
    _score M3_AGGREGATE (dsub (amount l) (sum_amounts combo)) (amount_tolerance (amount l) tol)
      (max_gap l combo) tol (Z.of_nat (length combo)) = Ok sc →
    admits tol rights l
      (mkMatch (rid l) (sorted (rid <$> combo)) M3_AGGREGATE sc
         (dsub (amount l) (sum_amounts combo)) (max_gap l combo)).

(** Base score and amount of the proportional penalties, in hundredths. *)
Definition base_cents (r : RuleId) : Z :=
  match r with M0_REFERENCE => 100 | M1_EXACT => 90 | M2_TOLERANT => 80 | M3_AGGREGATE => 60 end.
Definition penalty_cents (limit : decimal) (tol : Tolerance) : Z :=
  (if ltb _ZERO limit then 5 else 0) + (if 0 <? date_days tol then 5 else 0).
Definition cents (z : Z) : Q := (inject_Z z * p10 (-2))%Q.

(** ** Lemmas: loops *)

Lemma concat_res_elem {A B} (f : A → res (list B)) l k y :
  concat_res f l = Ok k → (y ∈ k ↔ ∃ x ys, x ∈ l ∧ f x = Ok ys ∧ y ∈ ys).
Proof.
  unfold concat_res. intros H. apply fmap_Ok in H as (ks & H & ->).
  apply map_res_Forall2 in H. rewrite list_elem_of_join. split.
  - intros (ys & Hy & Hys). apply list_elem_of_lookup in Hys as [i Hi].
    destruct (Forall2_lookup_r _ _ _ _ _ H Hi) as (x & Hx & Hf).
    exists x, ys. split; [by eapply list_elem_of_lookup_2|done].
  - intros (x & ys & Hx & Hf & Hy). apply list_elem_of_lookup in Hx as [i Hi].
    destruct (Forall2_lookup_l _ _ _ _ _ H Hi) as (ys' & Hys' & Hf').
    rewrite Hf in Hf'. injection Hf' as <-. exists ys. split; [done|].
    by eapply list_elem_of_lookup_2.
Qed.

Lemma concat_res_total {A B} (f : A → res (list B)) l :
  (∀ x, x ∈ l → ∃ y, f x = Ok y) → ∃ k, concat_res f l = Ok k.
Proof. intros H. unfold concat_res. destruct (map_res_total f l H) as [k ->]. simpl; eauto. Qed.

Lemma concat_res_cons {A B} (f : A → res (list B)) x l :
  concat_res f (x :: l) = (y ← f x; ys ← concat_res f l; Ok (y ++ ys)).
Proof.
  unfold concat_res. simpl. destruct (f x) as [y|]; simpl; [|done].
  by destruct (map_res f l).
Qed.

Lemma by_reference_lookup rights s : s ≠ ""%string →
  default [] (by_reference rights !! s) = List.filter (λ r, bool_decide (reference r = Some s)) rights.
Proof.
  intros Hs. unfold by_reference. rewrite <- (rev_involutive rights).
  set (l := rev rights). induction l as [|r l IH]; [done|].
  simpl rev. rewrite foldl_app, List.filter_app. simpl. rewrite <- IH.
  generalize (foldl by_reference_add ∅ (rev l)) as m. intros m. unfold by_reference_add.
  destruct (reference r) as [t|] eqn:E; [|case_bool_decide; [done|by rewrite app_nil_r]].
  destruct t as [|c t]; simpl.
  - case_bool_decide; [congruence | by rewrite app_nil_r].
  - destruct (decide (String c t = s)) as [<-|Hne].
    + by rewrite lookup_insert_eq, bool_decide_eq_true_2.
    + rewrite lookup_insert_ne by done. case_bool_decide; [congruence | by rewrite app_nil_r].
Qed.

Lemma concat_res_sub {A B} (f : A → res (list B)) l k x :
  concat_res f l = Ok k → x ∈ l → ∃ ys, f x = Ok ys.
Proof.
  unfold concat_res. intros H Hx. apply fmap_Ok in H as (ks & H & ->).
  apply map_res_Forall2 in H. apply list_elem_of_lookup in Hx as [i Hi].
  destruct (Forall2_lookup_l _ _ _ _ _ H Hi) as (ys & _ & ?). eauto.
Qed.

Lemma within_ltb tol l total :
  within tol l total ↔ ltb (amount_tolerance (amount l) tol) (dabs (dsub (amount l) total)) = false.
Proof. unfold within. by rewrite dle_val, dlt_false_val. Qed.

Lemma truthy_Some s : truthy (Some s) = true ↔ s ≠ ""%string.
Proof. by destruct s. Qed.

(** ** Lemmas: each generator proposes exactly what its rule admits *)

Lemma m0_reference_spec lefts rights tol out m :
  m0_reference lefts rights tol = Ok out →
  m ∈ out ↔ ∃ l, l ∈ lefts ∧ admits tol rights l m ∧ rule m = M0_REFERENCE.
Proof.
  intros [= <-]. rewrite list_elem_of_join. split.
  - intros (ms & Hm & (l & -> & Hl)%list_elem_of_fmap). exists l. split; [done|].
    destruct (reference l) as [s|] eqn:Er; [|by apply not_elem_of_nil in Hm].
    destruct (truthy (Some s)) eqn:Et; [|by apply not_elem_of_nil in Hm].
    apply truthy_Some in Et. rewrite by_reference_lookup in Hm by done.
    apply list_elem_of_fmap in Hm as (r & -> & Hr).
    apply elem_of_filter_bool in Hr as [Hr Hs%bool_decide_eq_true_1].
    split; [by econstructor | done].
  - intros (l & Hl & Ha & Hr). destruct Ha; try discriminate Hr.
    eexists. split; [|apply list_elem_of_fmap; exists l; split; [done|exact Hl]].
    match goal with H : reference l = Some _ |- _ => rewrite H end.
    rewrite (proj2 (truthy_Some s)) by done. rewrite by_reference_lookup by done.
    apply list_elem_of_fmap_2, elem_of_filter_bool. split; [done|]. by apply bool_decide_eq_true_2.
Qed.

Lemma m1_exact_spec lefts rights tol out m :
  m1_exact lefts rights tol = Ok out →
  m ∈ out ↔ ∃ l, l ∈ lefts ∧ admits tol rights l m ∧ rule m = M1_EXACT.
Proof.
  intros H. rewrite (concat_res_elem _ _ _ _ H). split.
  - intros (l & ms & Hl & Hms & Hm). apply (concat_res_elem _ _ _ _ Hms) in Hm
      as (r & ms' & Hr & Hp & Hm). exists l. split; [done|].
    unfold m1_pair in Hp. destruct (deqb _ _) eqn:Eq; simpl in Hp;
      [|injection Hp as <-; by apply not_elem_of_nil in Hm].
    destruct (Z.ltb_spec (date_days tol) (_date_gap (value_date l) (value_date r)));
      [injection Hp as <-; by apply not_elem_of_nil in Hm|].
    apply bind_Ok in Hp as (sc & Hs & Hp). injection Hp as <-.
    apply list_elem_of_singleton in Hm as ->. split; [by constructor|done].
  - intros (l & Hl & Ha & Hrule). destruct Ha as [|r sc Hr Hq Hn Hs| |]; try discriminate Hrule.
    unfold m1_exact in H. destruct (concat_res_sub _ _ _ _ H Hl) as [ys Hys].
    exists l, ys. split; [done|]. split; [done|]. rewrite (concat_res_elem _ _ _ _ Hys).
    exists r. eexists. split; [done|]. unfold m1_pair. rewrite Hq; simpl.
    rewrite (proj2 (Z.ltb_ge _ _) Hn), Hs. simpl. split; [done|]. by left.
Qed.

Lemma m2_tolerant_spec lefts rights tol out m :
  m2_tolerant lefts rights tol = Ok out →
  m ∈ out ↔ ∃ l, l ∈ lefts ∧ admits tol rights l m ∧ rule m = M2_TOLERANT.
Proof.
  intros H. rewrite (concat_res_elem _ _ _ _ H). split.
  - intros (l & ms & Hl & Hms & Hm). apply (concat_res_elem _ _ _ _ Hms) in Hm
      as (r & ms' & Hr & Hp & Hm). exists l. split; [done|].
    unfold m2_pair in Hp. destruct (ltb _ _) eqn:Eq;
      [injection Hp as <-; by apply not_elem_of_nil in Hm|].
    destruct (Z.ltb_spec (date_days tol) (_date_gap (value_date l) (value_date r)));
      [injection Hp as <-; by apply not_elem_of_nil in Hm|].
    apply bind_Ok in Hp as (sc & Hs & Hp). injection Hp as <-.
    apply list_elem_of_singleton in Hm as ->. split; [|done].
    constructor; [done| |done|done]. by apply within_ltb.
  - intros (l & Hl & Ha & Hrule). destruct Ha as [| |r sc Hr Hq Hn Hs|]; try discriminate Hrule.
    unfold m2_tolerant in H. destruct (concat_res_sub _ _ _ _ H Hl) as [ys Hys].
    exists l, ys. split; [done|]. split; [done|]. rewrite (concat_res_elem _ _ _ _ Hys).
    exists r. eexists. split; [done|]. unfold m2_pair. apply within_ltb in Hq. rewrite Hq.
    rewrite (proj2 (Z.ltb_ge _ _) Hn), Hs. simpl. split; [done|]. by left.
Qed.

Lemma m3_aggregate_spec lefts rights tol out m :
  m3_aggregate lefts rights tol = Ok out →
  m ∈ out ↔ ∃ l, l ∈ lefts ∧ admits tol rights l m ∧ rule m = M3_AGGREGATE.
Proof.
  unfold m3_aggregate. destruct (Z.ltb_spec (max_aggregate_size tol) 2) as [Hmax|Hmax].
  { intros [= <-]. split; [by intros Hm%not_elem_of_nil|].
    intros (l & _ & Ha & Hrule). destruct Ha as [| | |c sc Hc Hlen]; try discriminate Hrule. lia. }
  intros H. rewrite (concat_res_elem _ _ _ _ H). split.
  - intros (l & ms & Hl & Hms & Hm). exists l. split; [done|]. unfold m3_left in Hms.
    destruct (length _ <? 2)%nat; [injection Hms as <-; by apply not_elem_of_nil in Hm|].
    apply (concat_res_elem _ _ _ _ Hms) in Hm as (size & ms1 & Hsz%elem_of_range & H1 & Hm).
    apply (concat_res_elem _ _ _ _ H1) in Hm as (combo & ms2 & Hc & H2 & Hm).
    apply combinations_sublist in Hc as [Hc Hlen]. apply sublist_filter_bool in Hc as [Hc Hnear].
    unfold m3_combo in H2. destruct (ltb _ _) eqn:Eq;
      [injection H2 as <-; by apply not_elem_of_nil in Hm|].
    apply bind_Ok in H2 as (sc & Hs & H2). injection H2 as <-.
    apply list_elem_of_singleton in Hm as ->. split; [|done].
    assert (size = Z.of_nat (length combo)) as -> by lia.
    constructor; [done|lia| |by apply within_ltb|done].
    eapply Forall_impl; [exact Hnear|]. intros r Hr. by apply Z.leb_le.
  - intros (l & Hl & Ha & Hrule). destruct Ha as [| | |c sc Hc Hlen Hn Hw Hs]; try discriminate Hrule.
    destruct (concat_res_sub _ _ _ _ H Hl) as [ys Hys]. exists l, ys. do 2 (split; [done|]).
    assert (sublist c (in_window tol l rights)) as Hcw.
    { apply sublist_filter_bool. split; [done|].
      eapply Forall_impl; [exact Hn|]. intros r Hr. by apply Z.leb_le. }
    unfold m3_left in Hys. pose proof (sublist_length _ _ Hcw).
    destruct (Nat.ltb_spec (length (in_window tol l rights)) 2); [lia|].
    rewrite (concat_res_elem _ _ _ _ Hys).
    assert (Z.of_nat (length c) ∈ range 2 (max_aggregate_size tol + 1)) as Hr
      by (apply elem_of_range; lia).
    destruct (concat_res_sub _ _ _ _ Hys Hr) as [zs Hzs].
    exists (Z.of_nat (length c)), zs. do 2 (split; [done|]). rewrite (concat_res_elem _ _ _ _ Hzs).
    exists c. eexists. split; [apply combinations_sublist; split; [done|lia]|].
    unfold m3_combo. apply within_ltb in Hw. rewrite Hw, Hs. simpl. split; [done|]. by left.
Qed.

Lemma GENERATORS_spec r lefts rights tol out m :
  GENERATORS r lefts rights tol = Ok out →
  m ∈ out ↔ ∃ l, l ∈ lefts ∧ admits tol rights l m ∧ rule m = r.
Proof.
  destruct r;
    [apply m0_reference_spec|apply m1_exact_spec|apply m2_tolerant_spec|apply m3_aggregate_spec].
Qed.

(** ** Lemmas: scores *)

Lemma lit_cents z : (dval (lit z 2) == cents z)%Q.
Proof.
  unfold cents, lit, dval, dint; simpl dneg; simpl dcoef; simpl dexp. rewrite N2Z.inj_abs_N.
  destruct (Z.ltb_spec z 0); [rewrite Z.abs_neq, Z.opp_involutive by lia|rewrite Z.abs_eq by lia];
    reflexivity.
Qed.

Lemma lit_fits z k : Z.abs z < 10 ^ 28 → fits (lit z k).
Proof.
  unfold fits; simpl. intros H. apply N2Z.inj_lt. rewrite N2Z.inj_abs_N.
  eapply Z.lt_le_trans; [done|]. by vm_compute.
Qed.

Lemma cents_le a b : a <= b → (cents a <= cents b)%Q.
Proof. intros. apply inject_Z_mult_le; [apply p10_pos|done]. Qed.

Lemma cents_plus a b : (cents (a + b) == cents a + cents b)%Q.
Proof. unfold cents. rewrite inject_Z_plus. ring. Qed.

Lemma cents_0 : (cents 0 == 0)%Q.
Proof. reflexivity. Qed.

(** One proportional penalty adds between nothing and five hundredths. *)
Lemma penalise_bounds on x y p n :
  (on = true → (0 <= dval x)%Q ∧ (dval x <= dval y)%Q ∧ (0 < dval y)%Q) →
  0 <= n <= 10 ^ 26 → (0 <= dval p)%Q → (dval p <= cents n)%Q →
  ∃ p', penalise on x y (lit 5 2) p = Ok p' ∧ (0 <= dval p')%Q ∧
        (dval p' <= cents (n + if on then 5 else 0))%Q.
Proof.
  intros Hon Hn Hp0 Hp. unfold penalise. destruct on.
  2:{ exists p. rewrite Z.add_0_r. done. }
  destruct (Hon eq_refl) as (Hx & Hxy & Hy). destruct (ddiv_unit x y Hx Hxy Hy) as (q & -> & Hq).
  simpl. eexists; split; [done|].
  assert (0 <= dval (dmul q (lit 5 2)))%Q.
  { change 0%Q with (dval d0) at 1. apply dmul_ge; [done|]. rewrite lit_cents.
    change (dval d0) with 0%Q. apply Qmult_le_0_compat; [apply Hq|discriminate]. }
  assert (dval (dmul q (lit 5 2)) <= dval (lit 5 2))%Q as Hm.
  { apply dmul_le; [done|]. assert (0 < dval (lit 5 2))%Q as H5 by reflexivity.
    rewrite <- (Qmult_1_l (dval (lit 5 2))) at 2. apply Qmult_le_compat_r; [apply Hq|lra]. }
  rewrite lit_cents in Hm. split.
  - change 0%Q with (dval d0) at 1. apply dadd_ge; [done|]. change (dval d0) with 0%Q. lra.
  - rewrite <- lit_cents. apply dadd_le; [apply lit_fits; lia|].
    rewrite lit_cents, cents_plus. lra.
Qed.

(** The size penalty is exact. *)
Lemma size_penalty_val k : 0 <= k < 10 ^ 26 →
  (dval (dmul (of_int k) _SIZE_PENALTY) == cents k)%Q.
Proof.
  intros Hk. assert (dval (of_int k) * dval _SIZE_PENALTY == dval (lit k 2))%Q as E.
  { rewrite of_int_val, lit_cents. unfold cents. change (dval _SIZE_PENALTY) with (dval (lit 1 2)).
    rewrite lit_cents. unfold cents. ring. }
  rewrite <- lit_cents. apply Qle_antisym.
  - apply dmul_le; [apply lit_fits; lia|]. rewrite E. apply Qle_refl.
  - apply dmul_ge; [apply lit_fits; lia|]. rewrite E. apply Qle_refl.
Qed.

Lemma base_score_val r : (dval (_BASE_SCORE r) == cents (base_cents r))%Q.
Proof. by destruct r. Qed.

Lemma cents_quanta z : (inject_Z (z * 10000) * p10 (dexp _QUANTUM) == cents z)%Q.
Proof.
  unfold cents. change (dexp _QUANTUM) with (-6). rewrite inject_Z_mult.
  transitivity (inject_Z z * (inject_Z 10000 * p10 (-6)))%Q; [ring|].
  assert (inject_Z 10000 * p10 (-6) == p10 (-2))%Q as -> by reflexivity. reflexivity.
Qed.

(** The score exists and lies between the base less every penalty and the base
    less the size penalty. *)
Lemma score_bounds r residual limit gap tol size :
  (ltb _ZERO limit = true → cmp_le (dabs residual) limit) →
  0 <= gap → (0 < date_days tol → gap <= date_days tol) → 1 <= size <= 10 ^ 20 →
  ∃ s, _score r residual limit gap tol size = Ok s ∧
    (cents (base_cents r - penalty_cents limit tol - (size - 1)) <= dval s)%Q ∧
    (dval s <= cents (base_cents r - (size - 1)))%Q.
Proof.
  intros Hres Hgap Hdays Hsize. unfold _score.
  destruct (penalise_bounds (ltb _ZERO limit) (dabs residual) limit _ZERO 0)
    as (p1 & E1 & H10 & H1); [|lia|discriminate|discriminate|].
  { intros Hl. split; [apply dabs_nonneg|]. split; [by apply dle_val, Hres|].
    apply dlt_val in Hl. exact Hl. }
  unfold _AMOUNT_PENALTY. rewrite E1. simpl.
  destruct (penalise_bounds (0 <? date_days tol) (of_int gap) (of_int (date_days tol)) p1
              (0 + if ltb _ZERO limit then 5 else 0)) as (p2 & E2 & H20 & H2);
    [|case_match; lia|done|done|].
  { intros Hd%Z.ltb_lt. rewrite !of_int_val. rewrite <- (Zle_Qle 0), <- Zle_Qle, <- (Zlt_Qlt 0).
    auto. }
  unfold _DATE_PENALTY. rewrite E2. simpl.
  set (n := 0 + (if ltb _ZERO limit then 5 else 0) + (if 0 <? date_days tol then 5 else 0)) in *.
  assert (penalty_cents limit tol = n) as -> by (unfold penalty_cents, n; lia).
  assert (0 <= n <= 10) as Hn by (unfold n; repeat case_match; lia).
  set (p3 := dadd p2 _). pose proof (size_penalty_val (size - 1) ltac:(lia)) as Hs.
  assert (cents (size - 1) <= dval p3)%Q as H3lo.
  { rewrite <- lit_cents. apply dadd_ge; [apply lit_fits; lia|]. rewrite lit_cents, Hs. lra. }
  assert (dval p3 <= cents (n + (size - 1)))%Q as H3hi.
  { rewrite <- lit_cents. apply dadd_le; [apply lit_fits; lia|].
    rewrite lit_cents, Hs, cents_plus. lra. }
  assert (0 <= base_cents r <= 100) as Hb by (destruct r; simpl; lia).
  set (b := base_cents r) in *.
  assert (cents b == cents (b - n - (size - 1)) + cents (n + (size - 1)))%Q as Eb1
    by (rewrite <- cents_plus; by replace (b - n - (size - 1) + (n + (size - 1))) with b by lia).
  assert (cents b == cents (b - (size - 1)) + cents (size - 1))%Q as Eb2
    by (rewrite <- cents_plus; by replace (b - (size - 1) + (size - 1)) with b by lia).
  destruct (quantize_between (dsub (_BASE_SCORE r) p3) _QUANTUM
              ((b - n - (size - 1)) * 10000) ((b - (size - 1)) * 10000)) as (s & Eq & Hlo & Hhi);
    [lia|lia| | |].
  - rewrite cents_quanta, <- lit_cents. apply dsub_ge; [apply lit_fits; lia|].
    rewrite lit_cents, base_score_val. fold b. lra.
  - rewrite cents_quanta, <- lit_cents. apply dsub_le; [apply lit_fits; lia|].
    rewrite lit_cents, base_score_val. fold b. lra.
  - exists s. rewrite cents_quanta in Hlo, Hhi. done.
Qed.

(** ** Lemmas: generators do not raise *)

Lemma _date_gap_nonneg a b : 0 <= _date_gap a b.
Proof. unfold _date_gap. lia. Qed.

Lemma max_gap_bounds tol l combo : combo ≠ [] → Forall (near tol l) combo →
  0 <= max_gap l combo <= date_days tol.
Proof.
  intros Hne Hn. rewrite Forall_forall in Hn. unfold max_gap. split.
  - apply (proj1 (foldl_max_ge _ 0)).
  - apply foldl_max_le.
    + destruct combo as [|r c]; [done|]. pose proof (Hn r ltac:(left)) as Hr. unfold near in Hr.
      pose proof (_date_gap_nonneg (value_date l) (value_date r)). lia.
    + intros x (r & -> & Hr)%list_elem_of_fmap. by apply Hn.
Qed.

Lemma m1_pair_total tol l r : ∃ ms, m1_pair tol l r = Ok ms.
Proof.
  unfold m1_pair. destruct (negb _); [eauto|].
  destruct (Z.ltb_spec (date_days tol) (_date_gap (value_date l) (value_date r))); [eauto|].
  pose proof (_date_gap_nonneg (value_date l) (value_date r)).
  destruct (score_bounds M1_EXACT _ZERO _ZERO (_date_gap (value_date l) (value_date r)) tol 1)
    as (s & -> & _); [done|done|lia|lia|]. simpl; eauto.
Qed.

Lemma m2_pair_total tol l limit r : ∃ ms, m2_pair tol l limit r = Ok ms.
Proof.
  unfold m2_pair. destruct (ltb _ _) eqn:E; [eauto|].
  destruct (Z.ltb_spec (date_days tol) (_date_gap (value_date l) (value_date r))); [eauto|].
  pose proof (_date_gap_nonneg (value_date l) (value_date r)).
  destruct (score_bounds M2_TOLERANT (dsub (amount l) (amount r)) limit
              (_date_gap (value_date l) (value_date r)) tol 1)
    as (s & -> & _); [|done|lia|lia|simpl; eauto].
  intros _. apply dle_val. by apply dlt_false_val.
Qed.

Lemma m3_combo_total tol l limit size combo :
  2 <= size <= 10 ^ 20 → combo ≠ [] → Forall (near tol l) combo →
  ∃ ms, m3_combo tol l limit size combo = Ok ms.
Proof.
  intros Hsize Hne Hn. unfold m3_combo. destruct (ltb _ _) eqn:E; [eauto|].
  pose proof (max_gap_bounds tol l combo Hne Hn).
  destruct (score_bounds M3_AGGREGATE (dsub (amount l) (sum_amounts combo)) limit
              (max_gap l combo) tol size) as (s & -> & _); [|lia|lia|lia|simpl; eauto].
  intros _. apply dle_val. by apply dlt_false_val.
Qed.

(** The only size that matters is that of an actual combination of rights. *)
Lemma m3_left_total tol rights l : Z.of_nat (length rights) <= 10 ^ 20 →
  ∃ ms, m3_left tol rights l = Ok ms.
Proof.
  intros Hlen. unfold m3_left. destruct (_ <? 2)%nat; [eauto|].
  apply concat_res_total. intros size Hsz%elem_of_range. apply concat_res_total.
  intros combo Hc%combinations_sublist. destruct Hc as [Hs Hl].
  apply sublist_filter_bool in Hs as [Hs Hn]. pose proof (sublist_length _ _ Hs).
  apply m3_combo_total; [lia| |].
  - intros ->. simpl in Hl. lia.
  - eapply Forall_impl; [exact Hn|]. intros r Hr. by apply Z.leb_le.
Qed.

Lemma GENERATORS_total r lefts rights tol : Z.of_nat (length rights) <= 10 ^ 20 →
  ∃ out, GENERATORS r lefts rights tol = Ok out.
Proof.
  intros Hlen. destruct r; simpl.
  - by eexists.
  - apply concat_res_total. intros l _. apply concat_res_total. intros; apply m1_pair_total.
  - apply concat_res_total. intros l _. apply concat_res_total. intros; apply m2_pair_total.
  - unfold m3_aggregate. destruct (_ <? 2); [eauto|].
    apply concat_res_total. intros l _. by apply m3_left_total.
Qed.

(** A proposal names its left and right records. *)
Lemma admits_left tol rights l m : admits tol rights l m → left_id m = rid l.
Proof. by destruct 1. Qed.

Lemma admits_right tol rights l m x : admits tol rights l m → x ∈ right_ids m →
  ∃ r, r ∈ rights ∧ rid r = x.
Proof.
  destruct 1 as [r ? Hr|r ? Hr|r ? Hr|c ? Hc]; simpl;
    [intros ->%list_elem_of_singleton; eauto..|].
  unfold sorted. rewrite elem_of_sorted_by. intros (r & -> & Hr)%list_elem_of_fmap.
  exists r. split; [|done]. eapply elem_of_sublist; eauto.
Qed.

(** The score of an admitted match, in hundredths. *)
Lemma admits_score tol rights l m : Z.of_nat (length rights) <= 10 ^ 20 →
  admits tol rights l m →
  ∃ pen size, 0 <= pen <= 10 /\ size = Z.of_nat (length (right_ids m)) ∧ 1 <= size ∧
    (rule m ≠ M3_AGGREGATE → size = 1) ∧
    (rule m = M0_REFERENCE ∨ rule m = M1_EXACT → pen <= 5) ∧
    (cents (base_cents (rule m) - pen - (size - 1)) <= dval (score m))%Q ∧
    (dval (score m) <= cents (base_cents (rule m) - (size - 1)))%Q.
Proof.
  intros Hlen. assert (∀ limit, 0 <= penalty_cents limit tol <= 10) as Hp
    by (intros; unfold penalty_cents; repeat case_match; lia).
  destruct 1 as [r s Hr ? ? ?|r sc Hr Hq Hn Hs|r sc Hr Hw Hn Hs|c sc Hc Hsz Hn Hw Hs];
    cbn [rule score right_ids m0_match length base_cents].
  - exists 0, 1. rewrite base_score_val. cbn [base_cents]. split_and!; try done;
      try (intros; lia); apply cents_le; lia.
  - pose proof (_date_gap_nonneg (value_date l) (value_date r)).
    destruct (score_bounds M1_EXACT _ZERO _ZERO (_date_gap (value_date l) (value_date r)) tol 1)
      as (s & Hs' & Hlo & Hhi); [done|done|by intros _|lia|].
    rewrite Hs in Hs'. injection Hs' as <-. exists (penalty_cents _ZERO tol), 1.
    assert (penalty_cents _ZERO tol <= 5)
      by (unfold penalty_cents; change (ltb _ZERO _ZERO) with false; simpl; case_match; lia).
    split_and!; try done; try lia; apply Hp.
  - pose proof (_date_gap_nonneg (value_date l) (value_date r)).
    destruct (score_bounds M2_TOLERANT (dsub (amount l) (amount r)) (amount_tolerance (amount l) tol)
      (_date_gap (value_date l) (value_date r)) tol 1)
      as (s & Hs' & Hlo & Hhi); [by intros _|done|by intros _|lia|].
    rewrite Hs in Hs'. injection Hs' as <-.
    exists (penalty_cents (amount_tolerance (amount l) tol) tol), 1.
    split_and!; try done; try lia; try apply Hp. by intros [?|?].
  - assert (c ≠ []) as Hne by (intros ->; simpl in Hsz; lia).
    pose proof (max_gap_bounds tol l c Hne Hn). pose proof (sublist_length _ _ Hc).
    destruct (score_bounds M3_AGGREGATE (dsub (amount l) (sum_amounts c))
      (amount_tolerance (amount l) tol) (max_gap l c) tol (Z.of_nat (length c)))
      as (s & Hs' & Hlo & Hhi); [by intros _|lia|lia|lia|].
    rewrite Hs in Hs'. injection Hs' as <-.
    exists (penalty_cents (amount_tolerance (amount l) tol) tol), (Z.of_nat (length c)).
    unfold sorted. rewrite length_sorted_by, length_fmap.
    split_and!; try done; try lia; try apply Hp. by intros [?|?].
Qed.

Lemma cents_lt a b : a < b → (cents a < cents b)%Q.
Proof.
  intros H. unfold cents. apply Qmult_lt_compat_r; [apply p10_pos|]. by rewrite <- Zlt_Qlt.
Qed.

(** ** Guarantees *)

(** C28: a generator proposes every match its rule admits and nothing else, and it
    never raises. *)
Theorem GENERATORS_refine r lefts rights tol : Z.of_nat (length rights) <= 10 ^ 20 →
  ∃ out, GENERATORS r lefts rights tol = Ok out ∧
    ∀ m, m ∈ out ↔ ∃ l, l ∈ lefts ∧ admits tol rights l m ∧ rule m = r.
Proof.
  intros Hlen. destruct (GENERATORS_total r lefts rights tol Hlen) as [out Hout].
  exists out. split; [done|]. intros m. by apply GENERATORS_spec.
Qed.

Definition ex_rec (id : string) (cents days : Z) : Rec :=
  mkRec id "ACC" (lit cents 2) days None None.

Lemma GENERATORS_refine_witness :
  ∃ out, GENERATORS M3_AGGREGATE [ex_rec "L" 600 1]
           [ex_rec "A" 100 1; ex_rec "B" 200 3; ex_rec "C" 300 2]
           (mkTolerance (lit 50 2) (lit 0 0) 3 3 32) = Ok out ∧ right_ids <$> out = [["A"; "B"; "C"]]%string.
Proof.
  destruct (GENERATORS_refine M3_AGGREGATE [ex_rec "L" 600 1]
    [ex_rec "A" 100 1; ex_rec "B" 200 3; ex_rec "C" 300 2]
    (mkTolerance (lit 50 2) (lit 0 0) 3 3 32) ltac:(vm_compute; discriminate)) as (out & Hout & _).
  exists out. split; [exact Hout|]. vm_compute in Hout. injection Hout as <-. reflexivity.
Defined.

(** A stricter rule always scores strictly higher than a more permissive one,
    whatever the penalties, up to any number of aggregated records. *)
Theorem score_separation tol rights l m rights' l' m' :
  Z.of_nat (length rights) <= 10 ^ 20 → Z.of_nat (length rights') <= 10 ^ 20 →
  admits tol rights l m → admits tol rights' l' m' →
  RuleId_value (rule m) < RuleId_value (rule m') → ltb (score m') (score m) = true.
Proof.
  intros Hlen Hlen' Ha Ha' Hr. apply dlt_val.
  destruct (admits_score tol rights l m Hlen Ha) as (p & k & Hp & _ & Hk & H1 & Hm1 & Hlo & _).
  destruct (admits_score tol rights' l' m' Hlen' Ha') as (p' & k' & Hp' & _ & Hk' & _ & _ & _ & Hhi).
  eapply Qle_lt_trans; [exact Hhi|]. eapply Qlt_le_trans; [|exact Hlo].
  apply cents_lt. destruct (rule m), (rule m'); simpl in *; try lia;
    rewrite H1 by done; try lia; specialize (Hm1 ltac:(auto)); lia.
Qed.

Lemma score_separation_witness : ∃ m m', rule m = M2_TOLERANT ∧ rule m' = M3_AGGREGATE ∧
  ltb (score m') (score m) = true.
Proof.
  pose (tol := mkTolerance (lit 50 2) (lit 0 0) 3 3 32).
  pose (l := ex_rec "L" 600 1). pose (rs := [ex_rec "A" 100 1; ex_rec "B" 200 3; ex_rec "C" 300 2]).
  pose (rs' := [ex_rec "D" 550 4]).
  destruct (m2_tolerant [l] rs' tol) as [out|] eqn:E2; [|exfalso; vm_compute in E2; discriminate].
  destruct (m3_aggregate [l] rs tol) as [out'|] eqn:E3; [|exfalso; vm_compute in E3; discriminate].
  pose proof (fun m => proj1 (m2_tolerant_spec _ _ _ _ m E2)) as S2.
  pose proof (fun m => proj1 (m3_aggregate_spec _ _ _ _ m E3)) as S3.
  vm_compute in E2, E3. injection E2 as <-. injection E3 as <-.
  destruct (S2 _ (list_elem_of_here _ _)) as (l2 & _ & A2 & R2).
  destruct (S3 _ (list_elem_of_here _ _)) as (l3 & _ & A3 & R3).
  eexists _, _. split; [exact R2|]. split; [exact R3|].
  apply (score_separation tol rs' l2 _ rs l3 _); [vm_compute; discriminate..|exact A2|exact A3|].
  rewrite R2, R3. reflexivity.
Defined.

(** The score of a match lies between its rule's base less the proportional
    penalties (five hundredths each, one for the amount and one for the date) and
    less one hundredth per aggregated record beyond the first, and its base. *)
Theorem score_penalty_bounds tol rights l m :
  Z.of_nat (length rights) <= 10 ^ 20 → admits tol rights l m →
  (cents (base_cents (rule m) - 10 - (Z.of_nat (length (right_ids m)) - 1)) <= dval (score m))%Q ∧
  (dval (score m) <= cents (base_cents (rule m) - (Z.of_nat (length (right_ids m)) - 1)))%Q.
Proof.
  intros Hlen Ha. destruct (admits_score tol rights l m Hlen Ha)
    as (p & k & Hp & -> & _ & _ & _ & Hlo & Hhi).
  split; [|done]. eapply Qle_trans; [|exact Hlo]. apply cents_le. lia.
Qed.

Lemma score_penalty_bounds_witness : ∃ m, rule m = M3_AGGREGATE ∧
  (cents (60 - 10 - 2) <= dval (score m))%Q.
Proof.
  destruct (m3_aggregate [ex_rec "L" 600 1] [ex_rec "A" 100 1; ex_rec "B" 200 3; ex_rec "C" 300 2]
    (mkTolerance (lit 50 2) (lit 0 0) 3 3 32)) as [out'|] eqn:E3;
    [|exfalso; vm_compute in E3; discriminate].
  pose proof (fun m => proj1 (m3_aggregate_spec _ _ _ _ m E3)) as S3.
  vm_compute in E3. injection E3 as <-.
  destruct (S3 _ (list_elem_of_here _ _)) as (l3 & _ & A3 & R3).
  match type of R3 with rule ?m = _ => exists m end. split; [exact R3|].
  assert (Z.of_nat 3 <= 10 ^ 20) as Hlen by (vm_compute; discriminate).
  pose proof (score_penalty_bounds _ [ex_rec "A" 100 1; ex_rec "B" 200 3; ex_rec "C" 300 2]
    _ _ Hlen A3) as [H _].
  rewrite R3 in H. exact H.
Defined.

(** The penalties reach 0.12 with the default aggregate size: the amount and the
    date at their limits, and two records beyond the first. *)
Example penalties_exceed_eleven_hundredths :
  let tol := mkTolerance (lit 50 2) (lit 0 0) 3 3 32 in
  match m3_aggregate [ex_rec "L" 600 1] [ex_rec "A" 100 1; ex_rec "B" 200 4; ex_rec "C" 250 1] tol with
  | Ok ms => score <$> ms = [lit 480000 6]
  | Raise _ => False
  end.
Proof. vm_compute. reflexivity. Qed.
