(* ===== verification/Engine.v ===== *)
(** * Engine: blocking, ordered rule application, resolution, audit

    [engine.py].  [reconcile] partitions the records by [blocking_key], applies
    the rules of [Rules] in order to each block, resolves the candidates
    greedily, and justifies every record left unmatched.  The source appends to
    shared lists and a shared [Counter]; here a block returns what it appends
    and threads the counters. *)

From stdpp Require Import sorting.
From S2P Require Import Prelude Numeric Models Rules.

(** ** Operations *)

Notation BlockKey := (list string).

Definition blocking_key (r : Rec) : list string :=
  match currency r with None => [account r] | Some c => [account r; c] end.

Definition _candidate_order (m : Match) : decimal * (string * list string) :=
  (dopp (score m), (left_id m, right_ids m)).

Definition _pair_reject_reason (l r : Rec) (tol : Tolerance) (right_taken : bool)
    : option RejectReason :=
  if right_taken then Some LOST_TO_BETTER_CANDIDATE
  else if date_days tol <? Z.abs (value_date l - value_date r) then Some DATE_OUT_OF_WINDOW
  else if ltb (amount_tolerance (amount l) tol) (dabs (dsub (amount l) (amount r)))
  then Some AMOUNT_OUT_OF_TOLERANCE
  else None.

(** [counters[k] += n] on a [Counter]. *)
Definition count (k : string) (n : Z) (c : gmap string Z) : gmap string Z :=
  <[k := default 0 (c !! k) + n]> c.

(** What one block holds while its rules run. *)
Record BlockState := mkBlock {
  taken_left : gset string;
  taken_right : gset string;
  found : list Match;
  block_counters : gmap string Z
}.

Definition blocked (st : BlockState) (m : Match) : bool :=
  bool_decide (left_id m ∈ taken_left st) ||
  existsb (λ x, bool_decide (x ∈ taken_right st)) (right_ids m).

(** One candidate of the sorted list: skipped, or taken for good. *)
Definition take_candidate (st : BlockState) (m : Match) : BlockState :=
  if blocked st m then st
  else mkBlock ({[left_id m]} ∪ taken_left st) (list_to_set (right_ids m) ∪ taken_right st)
         (found st ++ [m]) (count ("matched_" +:+ RuleId_name (rule m)) 1 (block_counters st)).

Definition free_in (taken : gset string) (l : list Rec) : list Rec :=
  List.filter (λ r, negb (bool_decide (rid r ∈ taken))) l.

(** The loop over the rules: [continue] skips M3 on an oversized block, [break]
    stops when a side has nothing left. *)
Fixpoint run_rules (rules : list RuleId) (lefts rights : list Rec) (tol : Tolerance)
    (oversized : bool) (st : BlockState) : res BlockState :=
  match rules with
  | [] => Ok st
  | r :: rules' =>
      if bool_decide (r = M3_AGGREGATE) && oversized
      then run_rules rules' lefts rights tol oversized st
      else
        match free_in (taken_left st) lefts, free_in (taken_right st) rights with
        | [], _ | _, [] => Ok st
        | al, ar =>
            cands ← GENERATORS r al ar tol;
            let st1 := mkBlock (taken_left st) (taken_right st) (found st)
              (count "candidates_evaluated" (Z.of_nat (length cands)) (block_counters st)) in
            run_rules rules' lefts rights tol oversized
              (foldl take_candidate st1 (sorted_by _candidate_order cands))
        end
  end.

(** The justifications of one unmatched left record. *)
Definition pair_rejects (rights : list Rec) (tol : Tolerance) (taken : gset string) (l : Rec)
    : list Reject :=
  omap (λ r, mkReject (rid l) (Some (rid r)) <$>
             _pair_reject_reason l r tol (bool_decide (rid r ∈ taken))) rights.
Definition aggregate_rejects (rights : list Rec) (tol : Tolerance) (taken : gset string) (l : Rec)
    : list Reject :=
  if 2 <=? max_aggregate_size tol then
    let free := List.filter (λ r, negb (bool_decide (rid r ∈ taken)) &&
                  (Z.abs (value_date l - value_date r) <=? date_days tol)) rights in
    if (2 <=? length free)%nat then [mkReject (rid l) None AGGREGATE_NOT_FOUND] else []
  else [].
Definition audit_left (rights : list Rec) (tol : Tolerance) (st : BlockState) (oversized : bool)
    (out : list Reject * gmap string Z) (l : Rec) : list Reject * gmap string Z :=
  if bool_decide (rid l ∈ taken_left st) then out
  else
    let c := count "unmatched_left" 1 out.2 in
    match rights with
    | [] => (out.1 ++ [mkReject (rid l) None NO_CANDIDATE], c)
    | _ =>
        if oversized
        then (out.1 ++ [mkReject (rid l) None BLOCK_TOO_LARGE], count "manual_review" 1 c)
        else (out.1 ++ pair_rejects rights tol (taken_right st) l
                    ++ aggregate_rejects rights tol (taken_right st) l, c)
    end.
Definition audit_right (st : BlockState) (c : gmap string Z) (r : Rec) : gmap string Z :=
  if bool_decide (rid r ∈ taken_right st) then c else count "unmatched_right" 1 c.
Definition _audit_unmatched (lefts rights : list Rec) (tol : Tolerance) (st : BlockState)
    (oversized : bool) : list Reject * gmap string Z :=
  let out := foldl (audit_left rights tol st oversized) ([], block_counters st) lefts in
  (out.1, foldl (audit_right st) out.2 rights).

Definition _reconcile_block (lefts rights : list Rec) (tol : Tolerance) (c : gmap string Z)
    : res (list Match * list Reject * gmap string Z) :=
  let lefts := sorted_by rid lefts in
  let rights := sorted_by rid rights in
  let oversized := max_block_candidates tol <? Z.of_nat (length rights) in
  st ← run_rules RuleId_all lefts rights tol oversized (mkBlock ∅ ∅ [] c);
  let '(rejs, c') := _audit_unmatched lefts rights tol st oversized in
  Ok (found st, rejs, c').

(** [blocks]: a [defaultdict] from key to the two sides. *)
Notation Blocks := (gmap (list string) (list Rec * list Rec)).
Definition add_left (b : Blocks) (r : Rec) : Blocks :=
  let '(ls, rs) := default ([], []) (b !! blocking_key r) in
  <[blocking_key r := (ls ++ [r], rs)]> b.
Definition add_right (b : Blocks) (r : Rec) : Blocks :=
  let '(ls, rs) := default ([], []) (b !! blocking_key r) in
  <[blocking_key r := (ls, rs ++ [r])]> b.
Definition blocks_of (left right : list Rec) : Blocks :=
  foldl add_right (foldl add_left ∅ left) right.

Definition block_step (tol : Tolerance) (b : Blocks)
    (out : list Match * list Reject * gmap string Z) (key : list string)
    : res (list Match * list Reject * gmap string Z) :=
  let '(ms, rs, c) := out in
  let '(ls, rts) := default ([], []) (b !! key) in
  '(ms', rs', c') ← _reconcile_block ls rts tol c;
  Ok (ms ++ ms', rs ++ rs', c').

Definition _reconcile (left right : list Rec) (otol : option Tolerance) : res MatchResult :=
  let tol := default Tolerance_default otol in
  let c0 := <["records_right" := Z.of_nat (length right)]>
              (<["records_left" := Z.of_nat (length left)]> ∅) in
  let b := blocks_of left right in
  let c1 := <["blocks" := Z.of_nat (size b)]> c0 in
  '(ms, rs, c) ← fold_res (block_step tol b) (sorted (map_to_list b).*1) ([], [], c1);
  Ok (mkResult ms rs c (ruleset_id tol)).

(** Decimal operations already compute under [ENGINE_CONTEXT] ([Numeric]). *)
Definition reconcile (left right : list Rec) (otol : option Tolerance) : res MatchResult :=
  _reconcile left right otol.

(** ** Specification of the resolution *)

(** Two matches compete when they share a record. *)
Definition conflict (m m' : Match) : Prop :=
  left_id m = left_id m' ∨ ∃ x, x ∈ right_ids m ∧ x ∈ right_ids m'.
(** [m'] is preferred to [m]: a stricter rule, or the same rule and an order that
    is not behind. *)
Definition outranks (m' m : Match) : Prop :=
  RuleId_value (rule m') < RuleId_value (rule m) ∨
  rule m' = rule m ∧ cmp_le (_candidate_order m') (_candidate_order m).

(** No admissible match is left out unless a preferred one holds its records. *)
Definition settled (lefts rights : list Rec) (tol : Tolerance) (r : RuleId) (ms : list Match)
    : Prop :=
  ∀ l m, l ∈ lefts → admits tol rights l m → rule m = r →
    m ∈ ms ∨ ∃ m', m' ∈ ms ∧ conflict m' m ∧ outranks m' m.

(** What holds of a block's state while the rules run. *)
Record block_ok (lefts rights : list Rec) (tol : Tolerance) (st : BlockState) : Prop := {
  ok_left x : x ∈ taken_left st ↔ ∃ m, m ∈ found st ∧ left_id m = x;
  ok_right x : x ∈ taken_right st ↔ ∃ m, m ∈ found st ∧ x ∈ right_ids m;
  ok_left_once : NoDup (left_id <$> found st);
  ok_right_once : NoDup (found st ≫= right_ids);
  ok_admits m : m ∈ found st → ∃ l, l ∈ lefts ∧ admits tol rights l m
}.

(** ** Lemmas: taking candidates *)

Lemma existsb_elem (f : string → bool) l : existsb f l = true ↔ ∃ x, x ∈ l ∧ f x = true.
Proof. rewrite existsb_exists. by setoid_rewrite list_elem_of_In. Qed.

Lemma blocked_spec st m :
  blocked st m = true ↔ left_id m ∈ taken_left st ∨ ∃ x, x ∈ right_ids m ∧ x ∈ taken_right st.
Proof.
  unfold blocked. rewrite orb_true_iff, bool_decide_eq_true, existsb_elem.
  by setoid_rewrite bool_decide_eq_true.
Qed.

Section block.
Context (lefts rights : list Rec) (tol : Tolerance).

(** What a candidate must be for taking it to be sound. *)
Definition candidate_ok (m : Match) : Prop :=
  (∃ l, l ∈ lefts ∧ admits tol rights l m) ∧ NoDup (right_ids m).

Lemma take_candidate_ok st m :
  block_ok lefts rights tol st → candidate_ok m → block_ok lefts rights tol (take_candidate st m).
Proof.
  intros [H1 H2 H3 H4 H5] [Ha Hnd]. unfold take_candidate.
  destruct (blocked st m) eqn:Eb; [done|].
  assert (¬ (left_id m ∈ taken_left st ∨ ∃ x, x ∈ right_ids m ∧ x ∈ taken_right st)) as Hb
    by (rewrite <- blocked_spec; congruence).
  split; simpl.
  - intros x. rewrite elem_of_union, elem_of_singleton, H1. setoid_rewrite elem_of_app.
    setoid_rewrite list_elem_of_singleton. naive_solver.
  - intros x. rewrite elem_of_union, elem_of_list_to_set, H2. setoid_rewrite elem_of_app.
    setoid_rewrite list_elem_of_singleton. naive_solver.
  - rewrite fmap_app. apply NoDup_app. split; [done|]. split; [|apply NoDup_singleton].
    intros x Hx. simpl. rewrite list_elem_of_singleton. intros ->. apply Hb. left.
    apply H1. apply list_elem_of_fmap in Hx as (m' & -> & ?). eauto.
  - rewrite bind_app. simpl. rewrite app_nil_r. apply NoDup_app. split; [done|]. split; [|done].
    intros x Hx Hx'. apply Hb. right. exists x. split; [done|]. apply H2.
    apply list_elem_of_bind in Hx as (m' & ? & ?). eauto.
  - intros m'. rewrite elem_of_app, list_elem_of_singleton. intros [? | ->]; auto.
Qed.

Lemma take_candidates_ok cands st :
  block_ok lefts rights tol st → Forall candidate_ok cands →
  block_ok lefts rights tol (foldl take_candidate st cands).
Proof.
  intros Hst Hc. revert st Hst. induction Hc as [|m cands Hm Hc IH]; intros st Hst; simpl; [done|].
  by apply IH, take_candidate_ok.
Qed.

Lemma take_candidate_found st m :
  found (take_candidate st m) = found st ∧ blocked st m = true ∨
  found (take_candidate st m) = found st ++ [m] ∧ blocked st m = false.
Proof. unfold take_candidate. destruct (blocked st m); auto. Qed.

Lemma take_candidates_found cands st :
  ∃ new, found (foldl take_candidate st cands) = found st ++ new ∧ ∀ m, m ∈ new → m ∈ cands.
Proof.
  revert st; induction cands as [|m cands IH]; intros st; simpl.
  { exists []. rewrite app_nil_r. split; [done|]. by intros m Hm%not_elem_of_nil. }
  destruct (IH (take_candidate st m)) as (new & -> & Hnew).
  destruct (take_candidate_found st m) as [[-> _]|[-> _]].
  - exists new. split; [done|]. intros; right; auto.
  - exists (m :: new). rewrite <- app_assoc. split; [done|].
    intros m' Hm'. apply elem_of_cons in Hm' as [-> |?]; [left|right; auto].
Qed.

(** Every candidate of the sorted list is taken, or loses a record to a match
    that was there before or that is not behind it. *)
Lemma take_candidates_settle cands st :
  block_ok lefts rights tol st → Forall candidate_ok cands →
  StronglySorted (key_le _candidate_order) cands →
  ∀ c, c ∈ cands →
    c ∈ found (foldl take_candidate st cands) ∨
    ∃ m, m ∈ found (foldl take_candidate st cands) ∧ conflict m c ∧
      (m ∈ found st ∨ m ∈ cands ∧ cmp_le (_candidate_order m) (_candidate_order c)).
Proof.
  intros Hst Hc Hs. revert st Hst. induction Hs as [|x cands Hs IH Hx]; intros st Hst c Hin.
  { by apply not_elem_of_nil in Hin. }
  apply Forall_cons in Hc as [Hcx Hc]. pose proof (take_candidate_ok st x Hst Hcx) as Hst'.
  simpl. destruct (take_candidates_found cands (take_candidate st x)) as (new & Hnew & _).
  apply elem_of_cons in Hin as [-> |Hin].
  - rewrite Hnew. destruct (take_candidate_found st x) as [[Hf Hb]|[Hf _]]; rewrite Hf.
    + right. apply blocked_spec in Hb. destruct Hst as [H1 H2 ? ? ?].
      destruct Hb as [Hb|(y & Hy & Hb)].
      * apply H1 in Hb as (m & Hm & E). exists m. rewrite elem_of_app. unfold conflict. auto.
      * apply H2 in Hb as (m & Hm & E). exists m. rewrite elem_of_app. unfold conflict. eauto 10.
    + left. rewrite !elem_of_app, list_elem_of_singleton. auto.
  - destruct (IH Hc _ Hst' c Hin) as [|(m & Hm & Hcf & Hwhy)]; [by left|]. right.
    exists m. split; [done|]. split; [done|].
    destruct Hwhy as [Hold|[? ?]]; [|right; split; [by right|done]].
    destruct (take_candidate_found st x) as [[Hf _]|[Hf _]]; rewrite Hf in Hold; [by left|].
    apply elem_of_app in Hold as [|Hold%list_elem_of_singleton]; [by left|]. subst m.
    right. split; [left|]. rewrite Forall_forall in Hx. by apply Hx.
Qed.

(** ** Lemmas: the rules in order *)

Lemma elem_of_free taken l r : r ∈ free_in taken l ↔ r ∈ l ∧ rid r ∉ taken.
Proof.
  unfold free_in. rewrite elem_of_filter_bool, negb_true_iff, bool_decide_eq_false. done.
Qed.

Lemma admits_mono ar l m : sublist ar rights → admits tol ar l m → admits tol rights l m.
Proof.
  intros Hs. destruct 1; econstructor; eauto using elem_of_sublist. by etrans.
Qed.

Lemma admits_free taken l m :
  admits tol rights l m → (∀ x, x ∈ right_ids m → x ∉ taken) → admits tol (free_in taken rights) l m.
Proof.
  destruct 1 as [r s Hr|r sc Hr|r sc Hr|c sc Hc]; simpl; intros Hx;
    try (econstructor; eauto; apply elem_of_free; split; [done|]; apply Hx; by left).
  econstructor; eauto. unfold free_in. apply sublist_filter_bool. split; [done|].
  apply Forall_forall. intros r Hr. rewrite negb_true_iff, bool_decide_eq_false. apply Hx.
  unfold sorted. rewrite elem_of_sorted_by. by apply list_elem_of_fmap_2.
Qed.

Lemma admits_rights_nonempty l m : admits tol rights l m → ∃ x, x ∈ right_ids m.
Proof.
  destruct 1 as [r|r|r|c sc Hc Hl]; simpl; [eexists; left..|].
  destruct c as [|r c]; simpl in Hl; [lia|]. exists (rid r).
  unfold sorted. rewrite elem_of_sorted_by. left.
Qed.

Lemma admits_right_NoDup l m : NoDup (rid <$> rights) → admits tol rights l m → NoDup (right_ids m).
Proof.
  intros Hnd. destruct 1 as [r|r|r|c sc Hc]; simpl; [apply NoDup_singleton..|].
  unfold sorted. rewrite sorted_by_perm.
  eapply sublist_NoDup; [done|by apply sublist_fmap].
Qed.

(** Either a match already holds one of its records, or it is still available. *)
Lemma free_or_conflict st l m :
  block_ok lefts rights tol st → l ∈ lefts → admits tol rights l m →
  (∃ m', m' ∈ found st ∧ conflict m' m) ∨
  (l ∈ free_in (taken_left st) lefts ∧ admits tol (free_in (taken_right st) rights) l m).
Proof.
  intros [H1 H2 _ _ _] Hl Ha. pose proof (admits_left _ _ _ _ Ha) as El.
  destruct (decide (rid l ∈ taken_left st)) as [Hin|Hout].
  { left. apply H1 in Hin as (m' & ? & E). exists m'. split; [done|]. left. congruence. }
  destruct (decide (Exists (.∈ taken_right st) (right_ids m))) as [Hin|Hout'].
  - left. apply Exists_exists in Hin as (x & Hx & Hin). apply H2 in Hin as (m' & ? & ?).
    exists m'. split; [done|]. right. eauto.
  - right. rewrite elem_of_free. split; [done|]. apply admits_free; [done|].
    intros x Hx Hin. apply Hout'. apply Exists_exists. eauto.
Qed.

Lemma candidates_ok r st cands : NoDup (rid <$> rights) →
  GENERATORS r (free_in (taken_left st) lefts) (free_in (taken_right st) rights) tol = Ok cands →
  Forall candidate_ok (sorted_by _candidate_order cands).
Proof.
  intros Hnd Hg. apply Forall_forall. intros m Hm%elem_of_sorted_by.
  apply (GENERATORS_spec _ _ _ _ _ _ Hg) in Hm as (l & Hl%elem_of_free & Ha & _).
  apply admits_mono in Ha; [|apply sublist_filter_bool_sub].
  split; [|by eapply admits_right_NoDup]. exists l. naive_solver.
Qed.

Lemma settled_mono r ms ms' : (∀ m, m ∈ ms → m ∈ ms') →
  settled lefts rights tol r ms → settled lefts rights tol r ms'.
Proof. intros Hsub H l m Hl Ha Hr. destruct (H l m Hl Ha Hr) as [?|(m' & ? & ?)]; eauto. Qed.

(** One executed rule: the state stays sound, only matches of that rule are
    added, and the rule is settled. *)
Lemma rule_pass r st cands : NoDup (rid <$> rights) →
  block_ok lefts rights tol st →
  GENERATORS r (free_in (taken_left st) lefts) (free_in (taken_right st) rights) tol = Ok cands →
  (∀ m, m ∈ found st → RuleId_value (rule m) < RuleId_value r) →
  let st' := foldl take_candidate st (sorted_by _candidate_order cands) in
  block_ok lefts rights tol st' ∧
  (∃ new, found st' = found st ++ new ∧ ∀ m, m ∈ new → rule m = r) ∧
  settled lefts rights tol r (found st').
Proof.
  intros Hnd Hst Hg Hlt st'. pose proof (candidates_ok r st cands Hnd Hg) as Hok.
  assert (∀ m, m ∈ sorted_by _candidate_order cands → rule m = r) as Hrule.
  { intros m Hm%elem_of_sorted_by.
    apply (GENERATORS_spec _ _ _ _ _ _ Hg) in Hm as (l & _ & _ & ?). done. }
  destruct (take_candidates_found (sorted_by _candidate_order cands) st) as (new & Hnew & Hin).
  split; [by apply take_candidates_ok|]. split; [exists new; eauto|].
  intros l m Hl Ha Hr. destruct (free_or_conflict st l m Hst Hl Ha) as [(m' & Hm' & Hc)|[Hfl Hfa]].
  - right. exists m'. split; [unfold st'; rewrite Hnew; apply elem_of_app; by left|].
    split; [done|]. left. rewrite Hr. by apply Hlt.
  - assert (m ∈ sorted_by _candidate_order cands) as Hm.
    { apply elem_of_sorted_by, (GENERATORS_spec _ _ _ _ _ _ Hg). eauto. }
    destruct (take_candidates_settle _ st Hst Hok (sorted_by_sorted _ _) m Hm)
      as [?|(m' & Hm' & Hc & [Hold|[Hnew' Hle]])]; [by left|right..]; exists m'.
    + split; [done|]. split; [done|]. left. rewrite Hr. by apply Hlt.
    + split; [done|]. split; [done|]. right. split; [|done]. rewrite Hr. by apply Hrule.
Qed.

(** When a side is exhausted, nothing admissible is left: the [break] is safe. *)
Lemma exhausted_settled r st : block_ok lefts rights tol st →
  free_in (taken_left st) lefts = [] ∨ free_in (taken_right st) rights = [] →
  (∀ m, m ∈ found st → RuleId_value (rule m) < RuleId_value r) →
  settled lefts rights tol r (found st).
Proof.
  intros Hst Hemp Hlt l m Hl Ha Hr.
  destruct (free_or_conflict st l m Hst Hl Ha) as [(m' & Hm' & Hc)|[Hfl Hfa]].
  - right. exists m'. split; [done|]. split; [done|]. left. rewrite Hr. by apply Hlt.
  - exfalso. destruct Hemp as [E|E]; [rewrite E in Hfl; by apply not_elem_of_nil in Hfl|].
    destruct (admits_rights_nonempty l m Ha) as [x Hx].
    destruct (admits_right _ _ _ _ _ Hfa Hx) as (rr & Hrr & _). rewrite E in Hrr.
    by apply not_elem_of_nil in Hrr.
Qed.

(** The rules still to come are all more permissive. *)
Definition ahead (rules : list RuleId) (st : BlockState) : Prop :=
  StronglySorted (λ a b, RuleId_value a < RuleId_value b) rules ∧
  ∀ m r, m ∈ found st → r ∈ rules → RuleId_value (rule m) < RuleId_value r.

Lemma run_rules_spec rules oversized st st' : NoDup (rid <$> rights) →
  block_ok lefts rights tol st → ahead rules st →
  run_rules rules lefts rights tol oversized st = Ok st' →
  block_ok lefts rights tol st' ∧
  (∃ new, found st' = found st ++ new ∧
     ∀ m, m ∈ new → rule m ∈ rules ∧ (oversized = true → rule m ≠ M3_AGGREGATE)) ∧
  (∀ r, r ∈ rules → (r = M3_AGGREGATE → oversized = false) →
     settled lefts rights tol r (found st')).
Proof.
  intros Hnd. revert st. induction rules as [|r rules IH]; intros st Hst [Hsort Hlt] Hrun; simpl in Hrun.
  { injection Hrun as <-. split; [done|]. split; [exists []; rewrite app_nil_r; split; [done|]|].
    - by intros m Hm%not_elem_of_nil.
    - by intros r Hr%not_elem_of_nil. }
  inversion Hsort as [|? ? Hsort' Hr]; subst. rewrite Forall_forall in Hr.
  assert (ahead rules st) as Hah by (split; [done|]; intros; apply Hlt; [done|by right]).
  assert (∀ m, m ∈ found st → RuleId_value (rule m) < RuleId_value r) as Hltr
    by (intros; apply Hlt; [done|left]).
  destruct (bool_decide (r = M3_AGGREGATE) && oversized) eqn:Eov.
  { apply andb_true_iff in Eov as [E3%bool_decide_eq_true_1 Eov].
    destruct (IH st Hst Hah Hrun) as (? & (new & ? & Hnew) & Hset). split; [done|]. split.
    - exists new. split; [done|]. intros m Hm. destruct (Hnew m Hm). split; [by right|done].
    - intros r' Hr' H3. apply elem_of_cons in Hr' as [-> | Hr']; [|by apply Hset].
      rewrite (H3 E3) in Eov. done. }
  assert (free_in (taken_left st) lefts = [] ∨ free_in (taken_right st) rights = [] ∨
    ∃ cands, GENERATORS r (free_in (taken_left st) lefts) (free_in (taken_right st) rights) tol
             = Ok cands ∧
      run_rules rules lefts rights tol oversized
        (foldl take_candidate (mkBlock (taken_left st) (taken_right st) (found st)
           (count "candidates_evaluated" (Z.of_nat (length cands)) (block_counters st)))
           (sorted_by _candidate_order cands)) = Ok st') as Hcase.
  { destruct (free_in (taken_left st) lefts) as [|a al]; [by left|].
    destruct (free_in (taken_right st) rights) as [|b ar]; [by right; left|].
    right; right. apply bind_Ok in Hrun as (cands & ? & ?). eauto. }
  assert (∀ r', r' ∈ r :: rules → ∀ m, m ∈ found st → RuleId_value (rule m) < RuleId_value r')
    as Hltall by eauto.
  destruct Hcase as [E|[E|(cands & Hg & Hrun')]].
  1,2: assert (st' = st) as -> by (rewrite E in Hrun; repeat case_match; congruence);
    split; [done|]; split; [exists []; rewrite app_nil_r; split; [done|];
      by intros m Hm%not_elem_of_nil|];
    intros r' Hr' _; apply exhausted_settled; eauto.
  clear Hrun. set (st1 := mkBlock _ _ _ _) in Hrun'.
  assert (block_ok lefts rights tol st1) as Hst1 by (destruct Hst; by split).
  destruct (rule_pass r st1 cands Hnd Hst1 Hg Hltr) as (Hst2 & (new1 & Hf1 & Hn1) & Hset1).
  set (st2 := foldl _ _ _) in *. assert (ahead rules st2) as Hah2.
  { split; [done|]. intros m r' Hm Hr'. rewrite Hf1 in Hm. apply elem_of_app in Hm as [Hm|Hm].
    - apply Hlt; [done|by right].
    - rewrite (Hn1 m Hm). by apply Hr. }
  destruct (IH st2 Hst2 Hah2 Hrun') as (Hst' & (new2 & Hf2 & Hn2) & Hset2).
  split; [done|]. split.
  - exists (new1 ++ new2). rewrite Hf2, Hf1, app_assoc. split; [done|].
    intros m [Hm|Hm]%elem_of_app.
    + rewrite (Hn1 m Hm). split; [left|]. intros ->.
      rewrite andb_true_r, bool_decide_eq_false in Eov. done.
    + destruct (Hn2 m Hm). split; [by right|done].
  - intros r' Hr' H3. apply elem_of_cons in Hr' as [-> | Hr']; [|by apply Hset2].
    eapply settled_mono; [|exact Hset1]. intros m Hm. rewrite Hf2. apply elem_of_app. by left.
Qed.

Lemma run_rules_total rules oversized st : Z.of_nat (length rights) <= 10 ^ 20 →
  ∃ st', run_rules rules lefts rights tol oversized st = Ok st'.
Proof.
  intros Hlen. revert st. induction rules as [|r rules IH]; intros st; simpl; [eauto|].
  destruct (_ && _); [apply IH|].
  pose proof (sublist_length _ _ (sublist_filter_bool_sub
    (λ r, negb (bool_decide (rid r ∈ taken_right st))) rights)) as Hf.
  fold (free_in (taken_right st) rights) in Hf.
  destruct (free_in (taken_left st) lefts) as [|a al] eqn:El; [eauto|].
  destruct (free_in (taken_right st) rights) as [|b ar] eqn:Er; [eauto|].
  destruct (GENERATORS_total r (a :: al) (b :: ar) tol) as [cands ->]; [lia|]. apply IH.
Qed.
End block.

(** ** Lemmas: audit *)

(** The justifications of one left record. *)
Definition left_rejects (rights : list Rec) (tol : Tolerance) (st : BlockState) (oversized : bool)
    (l : Rec) : list Reject :=
  if bool_decide (rid l ∈ taken_left st) then []
  else match rights with
       | [] => [mkReject (rid l) None NO_CANDIDATE]
       | _ => if oversized then [mkReject (rid l) None BLOCK_TOO_LARGE]
              else pair_rejects rights tol (taken_right st) l
                   ++ aggregate_rejects rights tol (taken_right st) l
       end.

Lemma audit_rejects lefts rights tol st oversized :
  (_audit_unmatched lefts rights tol st oversized).1 =
  lefts ≫= left_rejects rights tol st oversized.
Proof.
  unfold _audit_unmatched. simpl.
  assert (∀ out, (foldl (audit_left rights tol st oversized) out lefts).1 =
                 out.1 ++ (lefts ≫= left_rejects rights tol st oversized)) as H; [|by rewrite H].
  induction lefts as [|l lefts IH]; intros out; simpl; [by rewrite app_nil_r|].
  rewrite IH, app_assoc. f_equal. unfold audit_left, left_rejects.
  destruct (bool_decide _); [by rewrite app_nil_r|]. destruct rights; [done|]. by destruct oversized.
Qed.

Lemma left_rejects_left rights tol st oversized l j :
  j ∈ left_rejects rights tol st oversized l → rej_left j = rid l ∧ rid l ∉ taken_left st.
Proof.
  unfold left_rejects. case_bool_decide; [by intros ?%not_elem_of_nil|]. intros Hj. split; [|done].
  destruct rights as [|r rights]; [by apply list_elem_of_singleton in Hj as ->|].
  destruct oversized; [by apply list_elem_of_singleton in Hj as ->|].
  apply elem_of_app in Hj as [Hj|Hj].
  - apply list_elem_of_omap in Hj as (r' & _ & Hj). destruct (_pair_reject_reason _ _ _ _); [|done].
    by injection Hj as <-.
  - unfold aggregate_rejects in Hj. destruct (2 <=? _); [|by apply not_elem_of_nil in Hj].
    destruct (2 <=? _)%nat; [|by apply not_elem_of_nil in Hj].
    by apply list_elem_of_singleton in Hj as ->.
Qed.

(** The reason is always found: a free pair inside both bounds is an [M2]
    candidate, so it would have been taken. *)
Lemma pair_reason_found lefts rights tol st l r :
  Z.of_nat (length rights) <= 10 ^ 20 →
  block_ok lefts rights tol st → settled lefts rights tol M2_TOLERANT (found st) →
  l ∈ lefts → r ∈ rights → rid l ∉ taken_left st →
  ∃ why, _pair_reject_reason l r tol (bool_decide (rid r ∈ taken_right st)) = Some why.
Proof.
  intros Hlen [H1 H2 _ _ _] Hset Hl Hr Hfree. unfold _pair_reject_reason.
  case_bool_decide as Htaken; [eauto|].
  destruct (Z.ltb_spec (date_days tol) (Z.abs (value_date l - value_date r))); [eauto|].
  destruct (ltb _ _) eqn:Hw; [eauto|]. exfalso. apply within_ltb in Hw.
  assert (near tol l r) as Hn by done.
  pose proof (_date_gap_nonneg (value_date l) (value_date r)).
  destruct (score_bounds M2_TOLERANT (dsub (amount l) (amount r)) (amount_tolerance (amount l) tol)
              (_date_gap (value_date l) (value_date r)) tol 1) as (s & Hs & _);
    [by intros _|done|by intros _|lia|].
  destruct (Hset l _ Hl (admits_m2 tol rights l r s Hr Hw Hn Hs) eq_refl)
    as [Hm|(m' & Hm' & [E|(x & Hx & ->%list_elem_of_singleton)] & _)].
  - apply Hfree, H1. eexists; split; [exact Hm|done].
  - apply Hfree, H1. eexists; split; [exact Hm'|done].
  - apply Htaken, H2. eauto.
Qed.

(** ** Lemmas: blocks *)

Definition in_block (k : list string) (l : list Rec) : list Rec :=
  List.filter (λ r, bool_decide (blocking_key r = k)) l.
Definition sides (b : Blocks) (k : list string) : list Rec * list Rec :=
  default ([], []) (b !! k).

Lemma elem_of_in_block k l r : r ∈ in_block k l ↔ r ∈ l ∧ blocking_key r = k.
Proof. unfold in_block. by rewrite elem_of_filter_bool, bool_decide_eq_true. Qed.

Lemma add_left_sides l b k :
  sides (foldl add_left b l) k = ((sides b k).1 ++ in_block k l, (sides b k).2).
Proof.
  revert b; induction l as [|r l IH]; intros b; simpl; [by rewrite app_nil_r; destruct (sides b k)|].
  rewrite IH. unfold add_left, sides. destruct (default _ (b !! blocking_key r)) as [ls rs] eqn:E.
  case_bool_decide as Hk.
  - subst k. rewrite lookup_insert_eq, E. simpl. by rewrite <- app_assoc.
  - by rewrite lookup_insert_ne by done.
Qed.

Lemma add_right_sides l b k :
  sides (foldl add_right b l) k = ((sides b k).1, (sides b k).2 ++ in_block k l).
Proof.
  revert b; induction l as [|r l IH]; intros b; simpl; [by rewrite app_nil_r; destruct (sides b k)|].
  rewrite IH. unfold add_right, sides. destruct (default _ (b !! blocking_key r)) as [ls rs] eqn:E.
  case_bool_decide as Hk.
  - subst k. rewrite lookup_insert_eq, E. simpl. by rewrite <- app_assoc.
  - by rewrite lookup_insert_ne by done.
Qed.

Lemma blocks_of_sides left right k :
  sides (blocks_of left right) k = (in_block k left, in_block k right).
Proof.
  unfold blocks_of. rewrite add_right_sides, add_left_sides. unfold sides.
  by rewrite lookup_empty.
Qed.

Lemma add_dom (add : Blocks → Rec → Blocks) l b :
  (∀ b r, dom (add b r) = {[blocking_key r]} ∪ dom b) →
  dom (foldl add b l) = list_to_set (blocking_key <$> l) ∪ dom b.
Proof.
  intros Hadd. revert b; induction l as [|r l IH]; intros b; simpl; [set_solver|].
  rewrite IH, Hadd. set_solver.
Qed.

Lemma blocks_of_dom left right :
  dom (blocks_of left right) = list_to_set (blocking_key <$> (left ++ right)).
Proof.
  unfold blocks_of. rewrite !add_dom, fmap_app, list_to_set_app_L.
  - set_solver.
  - intros b r. unfold add_left. case_match. by rewrite dom_insert_L.
  - intros b r. unfold add_right. case_match. by rewrite dom_insert_L.
Qed.

Definition block_keys (b : Blocks) : list (list string) := sorted (map_to_list b).*1.

Lemma elem_of_block_keys b k : k ∈ block_keys b ↔ k ∈ dom b.
Proof.
  unfold block_keys, sorted. rewrite elem_of_sorted_by, elem_of_dom, list_elem_of_fmap.
  split.
  - intros ([k' v] & -> & ?%elem_of_map_to_list). by exists v.
  - intros [v ?]. exists (k, v). by rewrite elem_of_map_to_list.
Qed.

Lemma NoDup_block_keys b : NoDup (block_keys b).
Proof. unfold block_keys, sorted. rewrite sorted_by_perm. apply NoDup_fst_map_to_list. Qed.

Lemma block_keys_dom b1 b2 : dom b1 = dom b2 → block_keys b1 = block_keys b2.
Proof.
  intros Hd. refine (sorted_by_unique (λ k, k) _ _ _ _).
  - apply NoDup_Permutation; [apply NoDup_fst_map_to_list..|]. intros k.
    pose proof (elem_of_block_keys b1 k) as H1. pose proof (elem_of_block_keys b2 k) as H2.
    unfold block_keys, sorted in H1, H2. rewrite elem_of_sorted_by in H1, H2.
    by rewrite H1, H2, Hd.
  - rewrite list_fmap_id. apply NoDup_fst_map_to_list.
Qed.

(** What the run of one block establishes. *)
Record block_result (lefts rights : list Rec) (tol : Tolerance) (ms : list Match)
    (rejs : list Reject) (st : BlockState) : Prop := {
  br_found : found st = ms;
  br_ok : block_ok (sorted_by rid lefts) (sorted_by rid rights) tol st;
  br_settled r : (r = M3_AGGREGATE → (max_block_candidates tol <? Z.of_nat (length rights)) = false) →
    settled (sorted_by rid lefts) (sorted_by rid rights) tol r ms;
  br_oversized m : m ∈ ms → max_block_candidates tol < Z.of_nat (length rights) →
    rule m ≠ M3_AGGREGATE;
  br_rejects : rejs = sorted_by rid lefts ≫=
    left_rejects (sorted_by rid rights) tol st (max_block_candidates tol <? Z.of_nat (length rights))
}.

Lemma block_ok_init lefts rights tol c : block_ok lefts rights tol (mkBlock ∅ ∅ [] c).
Proof.
  split; simpl.
  - intros x. split; [set_solver|]. by intros (m & Hm%not_elem_of_nil & _).
  - intros x. split; [set_solver|]. by intros (m & Hm%not_elem_of_nil & _).
  - constructor.
  - constructor.
  - by intros m Hm%not_elem_of_nil.
Qed.

Lemma RuleId_all_ahead c : ahead RuleId_all (mkBlock ∅ ∅ [] c).
Proof.
  split; [|by intros m r Hm%not_elem_of_nil].
  unfold RuleId_all. repeat constructor.
Qed.

Lemma elem_of_RuleId_all r : r ∈ RuleId_all.
Proof. unfold RuleId_all. destruct r; rewrite !elem_of_cons; tauto. Qed.

Lemma _reconcile_block_result lefts rights tol c ms rejs c' :
  NoDup (rid <$> rights) →
  _reconcile_block lefts rights tol c = Ok (ms, rejs, c') →
  ∃ st, block_result lefts rights tol ms rejs st.
Proof.
  intros Hnd H. unfold _reconcile_block in H. rewrite length_sorted_by in H.
  set (ov := _ <? _) in H. apply bind_Ok in H as (st & Hrun & H).
  destruct (_audit_unmatched _ _ _ _ _) as [rejs0 c0] eqn:Ea. injection H as <- <- <-.
  assert (NoDup (rid <$> sorted_by rid rights)) as Hnd' by by rewrite sorted_by_perm.
  destruct (run_rules_spec _ _ _ _ _ _ _ Hnd' (block_ok_init _ _ _ c) (RuleId_all_ahead c) Hrun)
    as (Hok & (new & Hnew & Hrules) & Hset).
  exists st. split; [done|done| | |].
  - intros r Hr. apply Hset; [apply elem_of_RuleId_all|done].
  - intros m Hm Hlt. simpl in Hnew. rewrite Hnew in Hm. apply (Hrules m Hm). by apply Z.ltb_lt.
  - pose proof (audit_rejects (sorted_by rid lefts) (sorted_by rid rights) tol st ov) as Hr.
    by rewrite Ea in Hr.
Qed.

Lemma _reconcile_block_total lefts rights tol c : Z.of_nat (length rights) <= 10 ^ 20 →
  ∃ out, _reconcile_block lefts rights tol c = Ok out.
Proof.
  intros Hlen. unfold _reconcile_block.
  destruct (run_rules_total (sorted_by rid lefts) (sorted_by rid rights) tol RuleId_all
    (max_block_candidates tol <? Z.of_nat (length (sorted_by rid rights)))
    (mkBlock ∅ ∅ [] c)) as [st ->]; [by rewrite length_sorted_by|].
  by eexists.
Qed.

(** ** Lemmas: counters *)

(** [counters[k]] of a [Counter]. *)
Definition cnt (k : string) (c : gmap string Z) : Z := default 0 (c !! k).
Definition zlen {A} (p : A → bool) (l : list A) : Z := Z.of_nat (length (List.filter p l)).
Definition rule_counter (r : RuleId) : string := "matched_" +:+ RuleId_name r.
Definition has_left (ms : list Match) (l : Rec) : bool :=
  existsb (λ m, bool_decide (left_id m = rid l)) ms.
Definition has_right (ms : list Match) (r : Rec) : bool :=
  existsb (λ m, bool_decide (rid r ∈ right_ids m)) ms.
(** What a block adds to the counters the theorem is about. *)
Definition block_delta (lefts rights : list Rec) (ms : list Match) (k : string) : Z :=
  zlen (λ m, bool_decide (rule_counter (rule m) = k)) ms +
  (if bool_decide (k = "unmatched_left") then zlen (λ l, negb (has_left ms l)) lefts else 0) +
  (if bool_decide (k = "unmatched_right") then zlen (λ r, negb (has_right ms r)) rights else 0).
(** The counters it is not about. *)
Definition other_counter (k : string) : Prop := k = "candidates_evaluated" ∨ k = "manual_review".

Lemma cnt_count k k' n c :
  cnt k' (count k n c) = cnt k' c + if bool_decide (k' = k) then n else 0.
Proof.
  unfold cnt, count. case_bool_decide as E.
  - subst. by rewrite lookup_insert_eq.
  - rewrite lookup_insert_ne by congruence. lia.
Qed.

Lemma zlen_cons {A} (p : A → bool) x l : zlen p (x :: l) = (if p x then 1 else 0) + zlen p l.
Proof. unfold zlen. simpl. destruct (p x); simpl; lia. Qed.
Lemma zlen_app {A} (p : A → bool) l k : zlen p (l ++ k) = zlen p l + zlen p k.
Proof. unfold zlen. rewrite List.filter_app, length_app. lia. Qed.
Lemma zlen_perm {A} (p : A → bool) l k : l ≡ₚ k → zlen p l = zlen p k.
Proof. intros H. unfold zlen. by rewrite (filter_bool_perm p l k H). Qed.
Lemma zlen_ext {A} (p q : A → bool) l : (∀ x, x ∈ l → p x = q x) → zlen p l = zlen q l.
Proof.
  intros H. unfold zlen. do 2 f_equal. apply List.filter_ext_in. intros x Hx.
  by apply H, list_elem_of_In.
Qed.

(** [counters] grow by one for each element that satisfies [p]. *)
Lemma foldl_count {A S} (p : A → bool) (k' : string) (g : S → gmap string Z) (f : S → A → S) l s k :
  (∀ s x, x ∈ l → cnt k (g (f s x)) = cnt k (g s) + if p x && bool_decide (k = k') then 1 else 0) →
  cnt k (g (foldl f s l)) = cnt k (g s) + if bool_decide (k = k') then zlen p l else 0.
Proof.
  revert s; induction l as [|x l IH]; intros s H; simpl.
  { unfold zlen. simpl. case_bool_decide; lia. }
  rewrite IH by (intros; apply H; by right). rewrite (H s x) by left. rewrite zlen_cons.
  destruct (p x); case_bool_decide; simpl; lia.
Qed.

Lemma take_candidates_counters k cands st : ∃ new,
  found (foldl take_candidate st cands) = found st ++ new ∧
  cnt k (block_counters (foldl take_candidate st cands)) =
    cnt k (block_counters st) + zlen (λ m, bool_decide (rule_counter (rule m) = k)) new.
Proof.
  revert st; induction cands as [|m cands IH]; intros st; simpl.
  { exists []. rewrite app_nil_r. unfold zlen. simpl. split; [done|lia]. }
  destruct (IH (take_candidate st m)) as (new & -> & ->). unfold take_candidate.
  destruct (blocked st m); [by exists new|]. exists (m :: new). simpl.
  rewrite <- app_assoc. split; [done|]. rewrite cnt_count, zlen_cons. fold (rule_counter (rule m)).
  repeat case_bool_decide; try congruence; lia.
Qed.

Lemma run_rules_counters k rules lefts rights tol oversized st st' :
  ¬ other_counter k → run_rules rules lefts rights tol oversized st = Ok st' →
  ∃ new, found st' = found st ++ new ∧ cnt k (block_counters st') =
    cnt k (block_counters st) + zlen (λ m, bool_decide (rule_counter (rule m) = k)) new.
Proof.
  intros Hk. revert st. induction rules as [|r rules IH]; intros st H; simpl in H.
  { injection H as <-. exists []. rewrite app_nil_r. unfold zlen. simpl. split; [done|lia]. }
  destruct (_ && _); [by apply IH|].
  assert (∀ st0, Ok st0 = Ok st' → st0 = st → ∃ new, found st' = found st ++ new ∧
    cnt k (block_counters st') = cnt k (block_counters st) +
      zlen (λ m, bool_decide (rule_counter (rule m) = k)) new) as Hstop.
  { intros st0 [= <-] ->. exists []. rewrite app_nil_r. unfold zlen. simpl. split; [done|lia]. }
  destruct (free_in (taken_left st) lefts); [by eapply Hstop|].
  destruct (free_in (taken_right st) rights); [by eapply Hstop|].
  apply bind_Ok in H as (cands & _ & H). apply IH in H as (new2 & -> & ->).
  set (st1 := mkBlock _ _ _ _).
  destruct (take_candidates_counters k (sorted_by _candidate_order cands) st1) as (new1 & -> & ->).
  exists (new1 ++ new2). rewrite app_assoc. split; [done|]. rewrite zlen_app. simpl.
  rewrite cnt_count, bool_decide_eq_false_2; [lia|]. intros ->. apply Hk. by left.
Qed.

Lemma audit_counters k lefts rights tol st oversized : ¬ other_counter k →
  cnt k (_audit_unmatched lefts rights tol st oversized).2 =
  cnt k (block_counters st) +
  (if bool_decide (k = "unmatched_left"%string)
   then zlen (λ l, negb (bool_decide (rid l ∈ taken_left st))) lefts else 0) +
  (if bool_decide (k = "unmatched_right"%string)
   then zlen (λ r, negb (bool_decide (rid r ∈ taken_right st))) rights else 0).
Proof.
  intros Hk. unfold _audit_unmatched. simpl.
  rewrite (foldl_count (λ r, negb (bool_decide (rid r ∈ taken_right st))) "unmatched_right" (λ c, c)).
  - f_equal. rewrite (foldl_count (λ l, negb (bool_decide (rid l ∈ taken_left st)))
      "unmatched_left" (λ o : list Reject * gmap string Z, o.2)); [done|].
    intros [rj c] l _. unfold audit_left. destruct (bool_decide (rid l ∈ _)); simpl; [lia|].
    destruct rights; simpl; [by rewrite cnt_count|]. destruct oversized; simpl; [|by rewrite cnt_count].
    rewrite !cnt_count, (bool_decide_eq_false_2 (k = "manual_review"%string)); [lia|].
    intros ->. apply Hk. by right.
  - intros c r _. unfold audit_right. destruct (bool_decide (rid r ∈ _)); simpl; [lia|].
    by rewrite cnt_count.
Qed.

(** Records a block's matches hold, read off the matches. *)
Lemma has_left_taken lefts rights tol st l : block_ok lefts rights tol st →
  bool_decide (rid l ∈ taken_left st) = has_left (found st) l.
Proof.
  intros [H _ _ _ _]. apply eq_true_iff_eq. unfold has_left.
  rewrite bool_decide_eq_true, H, existsb_exists. setoid_rewrite <- list_elem_of_In.
  by setoid_rewrite bool_decide_eq_true.
Qed.
Lemma has_right_taken lefts rights tol st r : block_ok lefts rights tol st →
  bool_decide (rid r ∈ taken_right st) = has_right (found st) r.
Proof.
  intros [_ H _ _ _]. apply eq_true_iff_eq. unfold has_right.
  rewrite bool_decide_eq_true, H, existsb_exists. setoid_rewrite <- list_elem_of_In.
  by setoid_rewrite bool_decide_eq_true.
Qed.

Lemma _reconcile_block_counters k lefts rights tol c ms rejs c' :
  NoDup (rid <$> rights) → ¬ other_counter k →
  _reconcile_block lefts rights tol c = Ok (ms, rejs, c') →
  cnt k c' = cnt k c + block_delta lefts rights ms k.
Proof.
  intros Hnd Hk H. unfold _reconcile_block in H. apply bind_Ok in H as (st & Hrun & H).
  destruct (_audit_unmatched _ _ _ _ _) as [rejs0 c0] eqn:Ea. injection H as <- <- <-.
  assert (NoDup (rid <$> sorted_by rid rights)) as Hnd' by by rewrite sorted_by_perm.
  destruct (run_rules_spec _ _ _ _ _ _ _ Hnd' (block_ok_init _ _ _ c) (RuleId_all_ahead c) Hrun)
    as (Hok & _).
  destruct (run_rules_counters k _ _ _ _ _ _ _ Hk Hrun) as (new & Hnew & Ec).
  simpl in Hnew, Ec. subst new.
  pose proof (audit_counters k (sorted_by rid lefts) (sorted_by rid rights) tol st
    (max_block_candidates tol <? Z.of_nat (length (sorted_by rid rights))) Hk) as Hc.
  rewrite Ea in Hc. cbn [snd] in Hc. rewrite Hc, Ec. unfold block_delta.
  rewrite !(zlen_perm _ (sorted_by rid _) _ (sorted_by_perm rid _)).
  rewrite (zlen_ext _ _ lefts (λ l _, f_equal negb (has_left_taken _ _ _ _ l Hok))).
  rewrite (zlen_ext _ _ rights (λ r _, f_equal negb (has_right_taken _ _ _ _ r Hok))). lia.
Qed.

(** ** Lemmas: the whole run *)

Notation BlockOut := (list string * (list Match * list Reject))%type (only parsing).

Lemma block_steps left right tol keys ms rs c ms' rs' c' :
  NoDup (rid <$> right) →
  fold_res (block_step tol (blocks_of left right)) keys (ms, rs, c) = Ok (ms', rs', c') →
  ∃ bs : list BlockOut, bs.*1 = keys ∧
    ms' = ms ++ (bs ≫= λ b, b.2.1) ∧ rs' = rs ++ (bs ≫= λ b, b.2.2) ∧
    (∀ b, b ∈ bs → ∃ st,
      block_result (in_block b.1 left) (in_block b.1 right) tol b.2.1 b.2.2 st) ∧
    (∀ k, ¬ other_counter k → cnt k c' = cnt k c + zsum ((λ b : BlockOut,
      block_delta (in_block b.1 left) (in_block b.1 right) b.2.1 k) <$> bs)).
Proof.
  intros Hnd. revert ms rs c. induction keys as [|k keys IH]; intros ms rs c H; simpl in H.
  { injection H as <- <- <-. exists []. simpl. rewrite !app_nil_r. repeat split; try done.
    - by intros b Hb%not_elem_of_nil.
    - intros k _. unfold zsum. simpl. lia. }
  apply bind_Ok in H as ([[ms1 rs1] c1] & Hstep & H). unfold block_step in Hstep.
  pose proof (blocks_of_sides left right k) as Es. unfold sides in Es. rewrite Es in Hstep.
  apply bind_Ok in Hstep as ([[ms2 rs2] c2] & Hb & Hstep). injection Hstep as <- <- <-.
  destruct (IH _ _ _ H) as (bs & Hk & -> & -> & Hbs & Hc).
  assert (NoDup (rid <$> in_block k right)) as Hndk by by apply NoDup_filter_bool.
  exists ((k, (ms2, rs2)) :: bs). simpl. rewrite <- !app_assoc. split; [by f_equal|].
  do 2 (split; [done|]). split.
  - intros b [-> | Hb']%elem_of_cons; [|by apply Hbs]. simpl. by eapply _reconcile_block_result.
  - intros k' Hk'. rewrite Hc, zsum_cons by done.
    rewrite (_reconcile_block_counters k' _ _ _ _ _ _ _ Hndk Hk' Hb). cbn [fst snd]. symmetry. apply Z.add_assoc.
Qed.

(** The counters before the first block. *)
Definition initial_counters (left right : list Rec) : gmap string Z :=
  <["blocks" := Z.of_nat (size (blocks_of left right))]>
    (<["records_right" := Z.of_nat (length right)]>
       (<["records_left" := Z.of_nat (length left)]> ∅))%string.

Lemma reconcile_results left right otol R :
  NoDup (rid <$> right) → reconcile left right otol = Ok R →
  ∃ bs : list BlockOut, bs.*1 = block_keys (blocks_of left right) ∧
    matches R = (bs ≫= λ b, b.2.1) ∧ rejects R = (bs ≫= λ b, b.2.2) ∧
    (∀ b, b ∈ bs → ∃ st, block_result (in_block b.1 left) (in_block b.1 right)
      (default Tolerance_default otol) b.2.1 b.2.2 st) ∧
    (∀ k, ¬ other_counter k → cnt k (counters R) =
      cnt k (initial_counters left right) + zsum ((λ b : BlockOut,
        block_delta (in_block b.1 left) (in_block b.1 right) b.2.1 k) <$> bs)).
Proof.
  intros Hnd H. unfold reconcile, _reconcile in H.
  apply bind_Ok in H as ([[ms rs] c] & Hf & H). injection H as <-.
  apply (block_steps _ _ _ _ _ _ _ _ _ _ Hnd) in Hf. exact Hf.
Qed.

Section run.
Context (left right : list Rec) (tol : Tolerance) (R : MatchResult).
Context (Hleft : NoDup (rid <$> left)) (Hright : NoDup (rid <$> right)).
Context (HR : reconcile left right (Some tol) = Ok R).

(** The rights of a left record's block, in the order the engine reads them. *)
Definition counterparts (l : Rec) : list Rec := sorted_by rid (in_block (blocking_key l) right).
Definition block_lefts (l : Rec) : list Rec := sorted_by rid (in_block (blocking_key l) left).
Definition too_large (l : Rec) : bool :=
  max_block_candidates tol <? Z.of_nat (length (counterparts l)).

Lemma elem_of_counterparts l r :
  r ∈ counterparts l ↔ r ∈ right ∧ blocking_key r = blocking_key l.
Proof. unfold counterparts. by rewrite elem_of_sorted_by, elem_of_in_block. Qed.

Lemma elem_of_block_lefts l x :
  x ∈ block_lefts l ↔ x ∈ left ∧ blocking_key x = blocking_key l.
Proof. unfold block_lefts. by rewrite elem_of_sorted_by, elem_of_in_block. Qed.

(** The run, block by block. *)
Record run_ok (bs : list BlockOut) : Prop := {
  run_keys : NoDup bs.*1;
  run_has l : l ∈ left ++ right → blocking_key l ∈ bs.*1;
  run_matches : matches R = bs ≫= λ b, b.2.1;
  run_rejects : rejects R = bs ≫= λ b, b.2.2;
  run_block b : b ∈ bs → ∃ st,
    block_result (in_block b.1 left) (in_block b.1 right) tol b.2.1 b.2.2 st;
  run_counters k : ¬ other_counter k → cnt k (counters R) =
    cnt k (initial_counters left right) + zsum ((λ b : BlockOut,
      block_delta (in_block b.1 left) (in_block b.1 right) b.2.1 k) <$> bs)
}.

Lemma run_exists : ∃ bs, run_ok bs.
Proof.
  destruct (reconcile_results _ _ _ _ Hright HR) as (bs & Hk & Hms & Hrs & Hbs & Hc).
  exists bs. split; [| |done..].
  - rewrite Hk. apply NoDup_block_keys.
  - intros l Hl. rewrite Hk, elem_of_block_keys, blocks_of_dom, elem_of_list_to_set.
    by apply list_elem_of_fmap_2.
Qed.

(** Every match comes from one block, and its records belong to that block. *)
Lemma match_block bs m : run_ok bs → m ∈ matches R →
  ∃ b st l, b ∈ bs ∧ m ∈ b.2.1 ∧ l ∈ left ∧ blocking_key l = b.1 ∧
    admits tol (counterparts l) l m ∧
    block_result (in_block b.1 left) (in_block b.1 right) tol b.2.1 b.2.2 st.
Proof.
  intros [_ _ Hms _ Hbs _] Hm. rewrite Hms in Hm. apply list_elem_of_bind in Hm as (b & Hm & Hb).
  destruct (Hbs b Hb) as [st Hst]. pose proof Hst as [Hf Hok _ _ _].
  destruct (ok_admits _ _ _ _ Hok m) as (l & Hl & Ha); [by rewrite Hf|].
  rewrite elem_of_sorted_by, elem_of_in_block in Hl. destruct Hl as [Hl Ek].
  exists b, st, l. unfold counterparts. rewrite Ek. done.
Qed.

(** The block of one left record. *)
Lemma block_at bs l : run_ok bs → l ∈ left → ∃ ms rejs st,
  (blocking_key l, (ms, rejs)) ∈ bs ∧
  (∀ b, b ∈ bs → b.1 = blocking_key l → b = (blocking_key l, (ms, rejs))) ∧
  block_result (in_block (blocking_key l) left) (in_block (blocking_key l) right) tol ms rejs st.
Proof.
  intros Hrun Hl. pose proof (run_has _ Hrun l ltac:(apply elem_of_app; by left)) as Hin.
  apply list_elem_of_fmap in Hin as ([k [ms rejs]] & Ek & Hin). simpl in Ek. subst k.
  destruct (run_block _ Hrun _ Hin) as [st Hst]. exists ms, rejs, st. split; [done|].
  split; [|done]. intros b Hb E.
  exact (NoDup_fmap_inj fst bs b _ (run_keys _ Hrun) Hb Hin E).
Qed.

(** What concerns one left record is decided by its own block. *)
Record local_ok (l : Rec) (st : BlockState) : Prop := {
  loc_ok : block_ok (block_lefts l) (counterparts l) tol st;
  loc_sub m : m ∈ found st → m ∈ matches R;
  loc_settled r : (r = M3_AGGREGATE → too_large l = false) →
     settled (block_lefts l) (counterparts l) tol r (found st);
  loc_left m : m ∈ matches R → left_id m = rid l → m ∈ found st;
  loc_right m r : m ∈ matches R → r ∈ counterparts l → rid r ∈ right_ids m → m ∈ found st;
  loc_large m : m ∈ found st → too_large l = true → rule m ≠ M3_AGGREGATE;
  loc_rejects : List.filter (λ j, bool_decide (rej_left j = rid l)) (rejects R) =
    left_rejects (counterparts l) tol st (too_large l) l
}.

Lemma same_left bs l b x : run_ok bs → l ∈ left → b ∈ bs →
  x ∈ sorted_by rid (in_block b.1 left) → rid x = rid l → x = l ∧ b.1 = blocking_key l.
Proof.
  intros Hrun Hl Hb. rewrite elem_of_sorted_by, elem_of_in_block. intros [Hx Ek] E.
  assert (x = l) as -> by by eapply (NoDup_fmap_inj rid left). done.
Qed.

Lemma local_rejects bs l ms rejs st : run_ok bs → l ∈ left →
  (blocking_key l, (ms, rejs)) ∈ bs →
  rejs = block_lefts l ≫= left_rejects (counterparts l) tol st (too_large l) →
  List.filter (λ j, bool_decide (rej_left j = rid l)) (rejects R) =
    left_rejects (counterparts l) tol st (too_large l) l.
Proof.
  intros Hrun Hl Hin Hrej. set (p := λ j, bool_decide (rej_left j = rid l)).
  assert (NoDup (block_lefts l)) as Hndl.
  { apply (NoDup_fmap_1 rid). unfold block_lefts. rewrite sorted_by_perm. by apply NoDup_filter_bool. }
  assert (l ∈ block_lefts l) as Hll by by apply elem_of_block_lefts.
  transitivity (List.filter p rejs).
  - rewrite (run_rejects _ Hrun). pose proof (run_keys _ Hrun) as Hnd.
    rewrite (filter_bind_one _ p bs (blocking_key l, (ms, rejs))); [done| |done|].
    { by eapply NoDup_fmap_1. }
    intros b j Hb Hj Hp. apply bool_decide_eq_true_1 in Hp.
    destruct (run_block _ Hrun _ Hb) as [st' [_ _ _ _ Hr]]. rewrite Hr in Hj.
    apply list_elem_of_bind in Hj as (x & Hj & Hx). apply left_rejects_left in Hj as [Hj _].
    destruct (same_left bs l b x Hrun Hl Hb Hx) as [_ Ek]; [congruence|].
    exact (NoDup_fmap_inj fst bs b _ Hnd Hb Hin Ek).
  - rewrite Hrej, (filter_bind_one _ p _ l Hndl Hll).
    + apply filter_bool_all. intros j [Hj _]%left_rejects_left. by apply bool_decide_eq_true_2.
    + intros y j Hy Hj Hp. apply bool_decide_eq_true_1 in Hp. apply left_rejects_left in Hj as [Hj _].
      apply elem_of_block_lefts in Hy as [Hy _]. eapply (NoDup_fmap_inj rid left); eauto. congruence.
Qed.

Lemma local_result l : l ∈ left → ∃ st, local_ok l st.
Proof.
  intros Hl. destruct run_exists as [bs Hrun].
  destruct (block_at bs l Hrun Hl) as (ms & rejs & st & Hin & Huniq & Hst).
  pose proof Hst as [Hf Hok Hset Hov Hrej].
  assert (length (in_block (blocking_key l) right) = length (counterparts l)) as Elen
    by (unfold counterparts; by rewrite length_sorted_by).
  rewrite Elen in *. fold (counterparts l) (block_lefts l) (too_large l) in *.
  assert (∀ m l', m ∈ matches R → admits tol (counterparts l') l' m → l' ∈ left →
    blocking_key l' = blocking_key l → m ∈ ms) as Hown.
  { intros m l' Hm Ha Hl' Ek. destruct (match_block bs m Hrun Hm) as (b & st' & l2 & Hb & Hmb & Hl2 & Ek2 & Ha2 & _).
    assert (l2 = l') as ->.
    { eapply (NoDup_fmap_inj rid left); eauto.
      by rewrite <- (admits_left _ _ _ _ Ha), <- (admits_left _ _ _ _ Ha2). }
    by rewrite (Huniq b Hb) in Hmb by congruence. }
  exists st. split; [done| |rewrite Hf; exact Hset| | | |].
  - intros m Hm. rewrite (run_matches _ Hrun). apply list_elem_of_bind. rewrite Hf in Hm.
    by exists (blocking_key l, (ms, rejs)).
  - intros m Hm E. destruct (match_block bs m Hrun Hm) as (b & st' & l' & Hb & Hmb & Hl' & Ek & Ha & _).
    assert (l' = l) as ->.
    { eapply (NoDup_fmap_inj rid left); eauto. by rewrite <- (admits_left _ _ _ _ Ha). }
    rewrite Hf. by eapply Hown.
  - intros m r Hm Hr Hx. destruct (match_block bs m Hrun Hm) as (b & st' & l' & Hb & Hmb & Hl' & Ek & Ha & _).
    destruct (admits_right _ _ _ _ _ Ha Hx) as (r' & Hr' & Er).
    apply elem_of_counterparts in Hr as [Hr Ekr]. apply elem_of_counterparts in Hr' as [Hr' Ekr'].
    assert (r' = r) as -> by by eapply (NoDup_fmap_inj rid right).
    rewrite Hf. eapply Hown; [done|exact Ha|done|]. congruence.
  - intros m Hm Ht. rewrite Hf in Hm. apply Hov; [done|]. by apply Z.ltb_lt.
  - by eapply local_rejects.
Qed.
End run.
