(* ===== verification/EngineTheorems.v ===== *)
(** * Engine: what a reconciliation guarantees

    The theorems about [reconcile] as a whole, proved from the lemmas of
    [Engine] about one block. *)

From Stdlib Require Import QArith.
From S2P Require Import Prelude Numeric Models Rules Engine.
Open Scope Z_scope.

(** ** Specification *)

(** Some match of the result holds the record. *)
Definition matched_left (R : MatchResult) (l : Rec) : Prop :=
  ∃ m, m ∈ matches R ∧ left_id m = rid l.
Definition right_used (R : MatchResult) (r : Rec) : bool :=
  existsb (λ m, bool_decide (rid r ∈ right_ids m)) (matches R).

(** The rights the rules may use for [l]: those of its account and currency. *)
Definition same_block (right : list Rec) (l : Rec) : list Rec :=
  List.filter (λ r, bool_decide (blocking_key r = blocking_key l)) right.

(** ** Lemmas *)

Lemma in_block_perm k l l' : l ≡ₚ l' → NoDup (rid <$> l) →
  sorted_by rid (in_block k l) = sorted_by rid (in_block k l').
Proof.
  intros Hp Hnd. refine (sorted_by_unique rid _ _ _ _);
    [by apply filter_bool_perm|by apply NoDup_filter_bool].
Qed.

Lemma block_sorted lefts rights lefts' rights' tol c :
  sorted_by rid lefts = sorted_by rid lefts' → sorted_by rid rights = sorted_by rid rights' →
  _reconcile_block lefts rights tol c = _reconcile_block lefts' rights' tol c.
Proof. intros El Er. unfold _reconcile_block. by rewrite El, Er. Qed.

Lemma right_used_true R r : right_used R r = true ↔ ∃ m, m ∈ matches R ∧ rid r ∈ right_ids m.
Proof.
  unfold right_used. rewrite existsb_exists. setoid_rewrite <- list_elem_of_In.
  by setoid_rewrite bool_decide_eq_true.
Qed.

Section decided.
Context (left right : list Rec) (tol : Tolerance) (R : MatchResult).
Context (Hleft : NoDup (rid <$> left)) (Hright : NoDup (rid <$> right)).
Context (HR : reconcile left right (Some tol) = Ok R).

Lemma taken_left_matched l st : l ∈ left → local_ok left right tol R l st →
  rid l ∈ taken_left st ↔ matched_left R l.
Proof.
  intros Hl [[H1 _ _ _ _] Hsub _ Hin _ _ _]. rewrite H1. split.
  - intros (m & ? & ?). exists m. auto.
  - intros (m & ? & ?). exists m. auto.
Qed.

Lemma taken_right_used l r st : local_ok left right tol R l st →
  r ∈ counterparts right l → bool_decide (rid r ∈ taken_right st) = right_used R r.
Proof.
  intros [[_ H2 _ _ _] Hsub _ _ Hin _ _] Hr. apply eq_true_iff_eq.
  rewrite bool_decide_eq_true, right_used_true, H2. split; intros (m & ? & ?); eauto.
Qed.

(** The rejects of one pair, read off the result. *)
Lemma pair_rejects_one rights taken l r : NoDup (rid <$> rights) → r ∈ rights →
  List.filter (λ j, bool_decide (rej_right j = Some (rid r))) (pair_rejects rights tol taken l) =
  option_list (mkReject (rid l) (Some (rid r)) <$>
    _pair_reject_reason l r tol (bool_decide (rid r ∈ taken))).
Proof.
  intros Hnd Hr. unfold pair_rejects. rewrite omap_bind.
  rewrite (filter_bind_one _ _ rights r) by
    (first [by eapply NoDup_fmap_1 | done | intros y j Hy Hj Hp;
       apply (NoDup_fmap_inj rid rights); [done..|];
       destruct (_pair_reject_reason l y tol _); simpl in Hj;
       [apply list_elem_of_singleton in Hj as -> | by apply not_elem_of_nil in Hj];
       apply bool_decide_eq_true_1 in Hp; by injection Hp]).
  apply filter_bool_all. intros j Hj. apply bool_decide_eq_true_2.
  destruct (_pair_reject_reason l r tol _); simpl in Hj;
    [by apply list_elem_of_singleton in Hj as -> | by apply not_elem_of_nil in Hj].
Qed.

Lemma counterparts_NoDup l : NoDup (rid <$> counterparts right l).
Proof.
  unfold counterparts. rewrite sorted_by_perm. by apply NoDup_filter_bool.
Qed.

Lemma counterparts_length l : Z.of_nat (length (counterparts right l)) <= Z.of_nat (length right).
Proof.
  unfold counterparts. rewrite length_sorted_by. apply inj_le.
  apply sublist_length, sublist_filter_bool_sub.
Qed.

Lemma filter_andb {A} (p q : A → bool) (l : list A) :
  List.filter (λ x, p x && q x) l = List.filter q (List.filter p l).
Proof.
  induction l as [|x l IH]; simpl; [done|]. destruct (p x); simpl; [|done].
  by destruct (q x); rewrite IH.
Qed.

Lemma aggregate_rejects_pair rights taken l r :
  List.filter (λ j, bool_decide (rej_right j = Some (rid r))) (aggregate_rejects rights tol taken l)
  = [].
Proof.
  unfold aggregate_rejects. destruct (_ <=? _); [|done]. by destruct (_ <=? _)%nat.
Qed.

Lemma pair_reason_exists l r : Z.of_nat (length right) <= 10 ^ 20 →
  l ∈ left → r ∈ counterparts right l → ¬ matched_left R l →
  ∃ why, _pair_reject_reason l r tol (right_used R r) = Some why.
Proof.
  intros Hlen Hl Hr Hun. destruct (local_result _ _ _ _ Hleft Hright HR l Hl) as [st Hst].
  rewrite <- (taken_right_used l r st Hst Hr).
  eapply (pair_reason_found (block_lefts left l) (counterparts right l)).
  - pose proof (counterparts_length l). lia.
  - apply Hst.
  - by apply (loc_settled _ _ _ _ _ _ Hst).
  - by apply elem_of_block_lefts.
  - done.
  - by rewrite (taken_left_matched l st Hl Hst).
Qed.

(** The rejects of an unmatched record, by case. *)
Lemma unmatched_rejects l st : l ∈ left → local_ok left right tol R l st → ¬ matched_left R l →
  List.filter (λ j, bool_decide (rej_left j = rid l)) (rejects R) =
  match counterparts right l with
  | [] => [mkReject (rid l) None NO_CANDIDATE]
  | _ => if too_large right tol l then [mkReject (rid l) None BLOCK_TOO_LARGE]
         else pair_rejects (counterparts right l) tol (taken_right st) l ++
              aggregate_rejects (counterparts right l) tol (taken_right st) l
  end.
Proof.
  intros Hl Hst Hun. rewrite (loc_rejects _ _ _ _ _ _ Hst). unfold left_rejects.
  rewrite bool_decide_eq_false_2; [done|]. by rewrite (taken_left_matched l st Hl Hst).
Qed.
End decided.

Global Instance matched_left_dec R l : Decision (matched_left R l).
Proof.
  refine (cast_if (decide (Exists (λ m, left_id m = rid l) (matches R)))); unfold matched_left;
    by rewrite <- Exists_exists.
Defined.

Lemma not_matched R l :
  existsb (λ m, bool_decide (left_id m = rid l)) (matches R) = false → ¬ matched_left R l.
Proof.
  intros Hf (m & Hm & E). apply not_true_iff_false in Hf. apply Hf, existsb_exists.
  exists m. rewrite <- list_elem_of_In. by rewrite bool_decide_eq_true.
Qed.

(** The records of a block's matches are records of the block. *)
Lemma block_left_in left right tol ms (b : list string * (list Match * list Reject)) x :
  (∃ st, block_result (in_block b.1 left) (in_block b.1 right) tol ms b.2.2 st) →
  x ∈ left_id <$> ms → ∃ l, l ∈ left ∧ rid l = x ∧ blocking_key l = b.1.
Proof.
  intros [st [<- Hok _ _ _]] (m & -> & Hm)%list_elem_of_fmap.
  destruct (ok_admits _ _ _ _ Hok m Hm) as (l & Hl & Ha).
  rewrite elem_of_sorted_by, elem_of_in_block in Hl. exists l.
  pose proof (admits_left _ _ _ _ Ha). destruct Hl. split; [done|]. split; [congruence|done].
Qed.

Lemma block_right_in left right tol ms (b : list string * (list Match * list Reject)) x :
  (∃ st, block_result (in_block b.1 left) (in_block b.1 right) tol ms b.2.2 st) →
  x ∈ ms ≫= right_ids → ∃ r, r ∈ right ∧ rid r = x ∧ blocking_key r = b.1.
Proof.
  intros [st [<- Hok _ _ _]] (m & Hx & Hm)%list_elem_of_bind.
  destruct (ok_admits _ _ _ _ Hok m Hm) as (l & Hl & Ha).
  destruct (admits_right _ _ _ _ _ Ha Hx) as (r & Hr & E).
  rewrite elem_of_sorted_by, elem_of_in_block in Hr. destruct Hr. by exists r.
Qed.

Lemma aggregate_reject_iff rights tol taken l :
  mkReject (rid l) None AGGREGATE_NOT_FOUND ∈
    pair_rejects rights tol taken l ++ aggregate_rejects rights tol taken l ↔
  2 <= max_aggregate_size tol ∧
  (2 <= length (List.filter (λ r, negb (bool_decide (rid r ∈ taken)) &&
      (Z.abs (value_date l - value_date r) <=? date_days tol)%Z) rights))%nat.
Proof.
  rewrite elem_of_app. unfold aggregate_rejects.
  destruct (Z.leb_spec 2 (max_aggregate_size tol)), (Nat.leb_spec 2 (length (List.filter
    (λ r, negb (bool_decide (rid r ∈ taken)) &&
      (Z.abs (value_date l - value_date r) <=? date_days tol)) rights)));
    rewrite ?list_elem_of_singleton, ?elem_of_nil; split; try (intros; lia); try tauto.
  all: intros [Hp|[]]; apply list_elem_of_omap in Hp as (r & _ & Hp);
    by destruct (_pair_reject_reason _ _ _ _).
Qed.

(** ** Lemmas: the counters of the whole run *)

Lemma zsum_zlen {A B} (p : B → bool) (f : A → list B) l :
  zsum ((λ x, zlen p (f x)) <$> l) = zlen p (l ≫= f).
Proof. induction l as [|x l IH]; [done|]. by rewrite fmap_cons, zsum_cons, bind_cons, zlen_app, IH. Qed.

Lemma zlen_none {A} (p : A → bool) l : (∀ x, x ∈ l → p x = false) → zlen p l = 0.
Proof. intros H. unfold zlen. by rewrite filter_bool_none. Qed.

(** The blocks partition the records. *)
Lemma zlen_blocks (p : Rec → bool) keys (l : list Rec) :
  NoDup keys → (∀ x, x ∈ l → blocking_key x ∈ keys) →
  zsum ((λ k, zlen p (in_block k l)) <$> keys) = zlen p l.
Proof.
  intros Hnd. induction l as [|x l IH]; intros Hin; [apply zsum_0|].
  rewrite zlen_cons, <- IH by (intros; apply Hin; by right).
  assert (∀ k, zlen p (in_block k (x :: l)) =
    (if p x then if bool_decide (blocking_key x = k) then 1 else 0 else 0) + zlen p (in_block k l)) as E.
  { intros k. unfold in_block. simpl. case_bool_decide; [by rewrite zlen_cons|by destruct (p x)]. }
  rewrite (zsum_ext _ _ keys (λ k _, E k)), zsum_plus. f_equal.
  destruct (p x); [|apply zsum_0]. rewrite zsum_indicator by done.
  by rewrite bool_decide_eq_true_2 by (apply Hin; left).
Qed.

Lemma zsum_fst {B C} (f : B → Z) (l : list (B * C)) :
  zsum ((λ x, f x.1) <$> l) = zsum (f <$> l.*1).
Proof. by rewrite <- list_fmap_compose. Qed.

Section counters.
Context (left right : list Rec) (tol : Tolerance) (R : MatchResult).
Context (Hleft : NoDup (rid <$> left)) (Hright : NoDup (rid <$> right)).
Context (HR : reconcile left right (Some tol) = Ok R).

(** Whether a record is held is decided by its block's matches. *)
Lemma has_left_block bs b l : run_ok left right tol R bs → b ∈ bs → l ∈ in_block b.1 left →
  has_left b.2.1 l = has_left (matches R) l.
Proof.
  intros Hrun Hb [Hl Hk]%elem_of_in_block. apply eq_true_iff_eq. unfold has_left.
  rewrite !existsb_exists. setoid_rewrite <- list_elem_of_In. setoid_rewrite bool_decide_eq_true.
  split; intros (m & Hm & E).
  - exists m. split; [|done]. rewrite (run_matches _ _ _ _ _ Hrun). apply list_elem_of_bind. by exists b.
  - exists m. split; [|done].
    destruct (match_block left right tol R bs m Hrun Hm) as (b' & st & l' & Hb' & Hmb & Hl' & Ek & Ha & _).
    assert (l' = l) as ->.
    { apply (NoDup_fmap_inj rid left); [done..|]. by rewrite <- (admits_left _ _ _ _ Ha). }
    assert (b' = b) as ->; [|done].
    apply (NoDup_fmap_inj fst bs); [apply (run_keys _ _ _ _ _ Hrun)|done..|congruence].
Qed.

Lemma has_right_block bs b r : run_ok left right tol R bs → b ∈ bs → r ∈ in_block b.1 right →
  has_right b.2.1 r = has_right (matches R) r.
Proof.
  intros Hrun Hb [Hr Hk]%elem_of_in_block. apply eq_true_iff_eq. unfold has_right.
  rewrite !existsb_exists. setoid_rewrite <- list_elem_of_In. setoid_rewrite bool_decide_eq_true.
  split; intros (m & Hm & E).
  - exists m. split; [|done]. rewrite (run_matches _ _ _ _ _ Hrun). apply list_elem_of_bind. by exists b.
  - exists m. split; [|done].
    destruct (match_block left right tol R bs m Hrun Hm) as (b' & st & l' & Hb' & Hmb & Hl' & Ek & Ha & _).
    destruct (admits_right _ _ _ _ _ Ha E) as (r' & Hr' & Er).
    apply elem_of_counterparts in Hr' as [Hr' Ek'].
    assert (r' = r) as -> by (apply (NoDup_fmap_inj rid right); done).
    assert (b' = b) as ->; [|done].
    apply (NoDup_fmap_inj fst bs); [apply (run_keys _ _ _ _ _ Hrun)|done..|congruence].
Qed.


(** The sum of what the blocks add. *)
Lemma run_deltas bs k : run_ok left right tol R bs →
  cnt k (initial_counters left right) + zsum ((λ b : BlockOut,
    block_delta (in_block b.1 left) (in_block b.1 right) b.2.1 k) <$> bs) =
  cnt k (initial_counters left right) +
  zlen (λ m, bool_decide (rule_counter (rule m) = k)) (matches R) +
  (if bool_decide (k = "unmatched_left"%string)
   then zlen (λ l, negb (has_left (matches R) l)) left else 0) +
  (if bool_decide (k = "unmatched_right"%string)
   then zlen (λ r, negb (has_right (matches R) r)) right else 0).
Proof.
  intros Hrun. unfold block_delta. rewrite !zsum_plus, zsum_zlen.
  rewrite <- (run_matches _ _ _ _ _ Hrun), <- !Z.add_assoc.
  do 2 f_equal. pose proof (run_keys _ _ _ _ _ Hrun) as Hnd. f_equal; case_bool_decide;
    try apply zsum_0.
  - rewrite <- (zlen_blocks _ bs.*1 left Hnd), <- zsum_fst by
      (intros; apply (run_has _ _ _ _ _ Hrun), elem_of_app; by left).
    apply zsum_ext. intros b Hb. apply zlen_ext. intros l Hl. by rewrite (has_left_block bs).
  - rewrite <- (zlen_blocks _ bs.*1 right Hnd), <- zsum_fst by
      (intros; apply (run_has _ _ _ _ _ Hrun), elem_of_app; by right).
    apply zsum_ext. intros b Hb. apply zlen_ext. intros r Hr. by rewrite (has_right_block bs).
Qed.
End counters.

Lemma reconcile_runs left right otol :
  Z.of_nat (length right) <= 10 ^ 20 → ∃ R, reconcile left right otol = Ok R.
Proof.
  intros Hlen. unfold reconcile, _reconcile.
  match goal with |- context [fold_res ?f ?l ?s] => destruct (fold_res_total f l s) as [[[ms rs] c] ->] end.
  { intros [[ms rs] c] k _. unfold block_step.
    pose proof (blocks_of_sides left right k) as E. unfold sides in E. rewrite E.
    destruct (_reconcile_block_total (in_block k left) (in_block k right)
      (default Tolerance_default otol) c) as [[[? ?] ?] ->]; [|by eexists].
    pose proof (sublist_length _ _ (sublist_filter_bool_sub
      (λ r, bool_decide (blocking_key r = k)) right)). fold (in_block k right) in *. lia. }
  by eexists.
Qed.

Lemma match_admitted left right tol R m :
  NoDup (rid <$> right) → reconcile left right (Some tol) = Ok R → m ∈ matches R →
  ∃ l, l ∈ left ∧ left_id m = rid l ∧ admits tol (counterparts right l) l m.
Proof.
  intros Hr HR Hm. destruct (run_exists left right tol R Hr HR) as [bs Hrun].
  destruct (match_block left right tol R bs m Hrun Hm) as (b & st & l & _ & _ & Hl & _ & Ha & _).
  exists l. split; [done|]. split; [by eapply admits_left|done].
Qed.

(** The identifiers of a reject are those of records of the run. *)
Lemma left_rejects_right rights tol st oversized l j x :
  j ∈ left_rejects rights tol st oversized l → rej_right j = Some x → ∃ r, r ∈ rights ∧ rid r = x.
Proof.
  unfold left_rejects. case_bool_decide; [by intros ?%not_elem_of_nil|].
  destruct rights as [|r rights]; [by intros ->%list_elem_of_singleton|].
  destruct oversized; [by intros ->%list_elem_of_singleton|].
  intros [Hj|Hj]%elem_of_app Hx.
  - apply list_elem_of_omap in Hj as (r' & Hr' & Hj). exists r'. split; [done|].
    destruct (_pair_reject_reason _ _ _ _); [|done]. injection Hj as <-. by injection Hx.
  - unfold aggregate_rejects in Hj. destruct (2 <=? _); [|by apply not_elem_of_nil in Hj].
    destruct (2 <=? _)%nat; [|by apply not_elem_of_nil in Hj].
    by apply list_elem_of_singleton in Hj as ->.
Qed.

Lemma reject_records left right tol R j :
  NoDup (rid <$> right) → reconcile left right (Some tol) = Ok R → j ∈ rejects R →
  (∃ l, l ∈ left ∧ rid l = rej_left j) ∧ (∀ x, rej_right j = Some x → ∃ r, r ∈ right ∧ rid r = x).
Proof.
  intros Hr HR Hj. destruct (run_exists left right tol R Hr HR) as [bs Hrun].
  rewrite (run_rejects _ _ _ _ _ Hrun) in Hj. apply list_elem_of_bind in Hj as (b & Hj & Hb).
  destruct (run_block _ _ _ _ _ Hrun b Hb) as [st [_ _ _ _ Hrej]]. rewrite Hrej in Hj.
  apply list_elem_of_bind in Hj as (l & Hj & Hl).
  rewrite elem_of_sorted_by, elem_of_in_block in Hl. split.
  - exists l. split; [apply Hl|]. by apply left_rejects_left in Hj as [-> _].
  - intros x Hx. destruct (left_rejects_right _ _ _ _ _ _ _ Hj Hx) as (r & Hrin & E).
    rewrite elem_of_sorted_by, elem_of_in_block in Hrin. exists r. by destruct Hrin.
Qed.

(** ** A concrete run, for the witnesses *)

(** One account with a pair that differs by [0.40], two rights that add up to a
    third record, and an account that has no counterpart. *)
Definition ex_tol : Tolerance := mkTolerance (lit 50 2) (lit 0 0) 3 3 32.
Definition ex_left : list Rec :=
  [mkRec "L1" "ACC-A" (lit 10000 2) 100 None (Some "EUR");
   mkRec "L2" "ACC-A" (lit 50000 2) 100 None (Some "EUR");
   mkRec "L3" "ACC-A" (lit 77700 2) 100 None (Some "EUR");
   mkRec "L4" "ACC-B" (lit 100 2) 100 None None]%string.
Definition ex_right : list Rec :=
  [mkRec "R1" "ACC-A" (lit 9960 2) 102 None (Some "EUR");
   mkRec "R2" "ACC-A" (lit 20000 2) 100 None (Some "EUR");
   mkRec "R3" "ACC-A" (lit 30000 2) 101 None (Some "EUR");
   mkRec "R4" "ACC-A" (lit 1 2) 110 None (Some "EUR")]%string.
Definition ex_result : MatchResult :=
  match reconcile ex_left ex_right (Some ex_tol) with
  | Ok R => R
  | Raise _ => mkResult [] [] ∅ ""
  end.

Lemma ex_run : reconcile ex_left ex_right (Some ex_tol) = Ok ex_result.
Proof. vm_compute. reflexivity. Qed.
Lemma ex_left_NoDup : NoDup (rid <$> ex_left).
Proof. apply (bool_decide_unpack _). vm_compute. exact I. Qed.
Lemma ex_right_NoDup : NoDup (rid <$> ex_right).
Proof. apply (bool_decide_unpack _). vm_compute. exact I. Qed.

Example ex_matches : (λ m, (left_id m, right_ids m, rule m)) <$> matches ex_result =
  [("L1", ["R1"], M2_TOLERANT); ("L2", ["R2"; "R3"], M3_AGGREGATE)]%string.
Proof. vm_compute. reflexivity. Qed.

(** ** Guarantees *)

(** C1: the result -- matches, rejects, counters and ruleset, in this very order --
    does not depend on the order in which the records of either side are
    presented, as long as the identifiers of a side are distinct. *)
Theorem reconcile_permutation left right left' right' otol :
  NoDup (rid <$> left) → NoDup (rid <$> right) → left ≡ₚ left' → right ≡ₚ right' →
  reconcile left right otol = reconcile left' right' otol.
Proof.
  intros Hl Hr Pl Pr. unfold reconcile, _reconcile.
  rewrite (Permutation_length Pl), (Permutation_length Pr).
  assert (dom (blocks_of left right) = dom (blocks_of left' right')) as Ed.
  { rewrite !blocks_of_dom. apply set_eq. intros k. rewrite !elem_of_list_to_set. by rewrite Pl, Pr. }
  rewrite <- !size_dom, Ed. fold (block_keys (blocks_of left right)) (block_keys (blocks_of left' right')).
  rewrite (block_keys_dom _ _ Ed).
  erewrite fold_res_ext; [done|]. intros [[ms rs] c] k _. unfold block_step.
  pose proof (blocks_of_sides left right k) as E. pose proof (blocks_of_sides left' right' k) as E'.
  unfold sides in E, E'. rewrite E, E'.
  by erewrite block_sorted; [|by apply in_block_perm..].
Qed.

Lemma reconcile_permutation_witness :
  reconcile ex_left ex_right (Some ex_tol) = reconcile (rev ex_left) (rev ex_right) (Some ex_tol).
Proof.
  apply (reconcile_permutation ex_left ex_right (rev ex_left) (rev ex_right) (Some ex_tol)
           ex_left_NoDup ex_right_NoDup); apply Permutation_rev.
Defined.

(** Distinct identifiers are needed: two lefts that share an identifier are
    resolved by the order in which they arrive. *)
Example duplicate_ids_depend_on_order :
  let a := mkRec "L1" "ACC" (lit 100 2) 1 (Some "REF") None in
  let b := mkRec "L1" "ACC" (lit 900 2) 1 (Some "REF") None in
  let r := mkRec "R1" "ACC" (lit 100 2) 1 (Some "REF") None in
  match reconcile [a; b] [r] None, reconcile [b; a] [r] None with
  | Ok R, Ok R' => amount_residual <$> matches R = [lit 0 2] ∧
                   amount_residual <$> matches R' = [lit 800 2]
  | _, _ => False
  end%string.
Proof. vm_compute. split; reflexivity. Qed.

(** Reconciliation never raises: every [Decimal.quantize] of a score fits the
    engine's 28 digits. *)
Theorem reconcile_total left right otol :
  Z.of_nat (length right) <= 10 ^ 20 → ∃ R, reconcile left right otol = Ok R.
Proof. apply reconcile_runs. Qed.

Lemma reconcile_total_witness : ∃ R, reconcile ex_left ex_right None = Ok R.
Proof. apply (reconcile_total ex_left ex_right None). vm_compute. discriminate. Defined.

(** C6: every match is one a rule admits, between a left record and rights of the
    same account and currency: nothing is matched outside its bounds.  (Identifiers of
    right records are distinct.) *)
Theorem reconcile_sound left right tol R m :
  NoDup (rid <$> right) → reconcile left right (Some tol) = Ok R → m ∈ matches R →
  ∃ l, l ∈ left ∧ left_id m = rid l ∧ admits tol (counterparts right l) l m.
Proof. apply match_admitted. Qed.

Lemma reconcile_sound_witness : ∃ m, m ∈ matches ex_result ∧
  ∃ l, l ∈ ex_left ∧ left_id m = rid l ∧ admits ex_tol (counterparts ex_right l) l m.
Proof.
  eexists. split; [vm_compute; left|].
  apply (reconcile_sound ex_left ex_right ex_tol ex_result _ ex_right_NoDup ex_run).
  vm_compute. left.
Defined.

(** C5: with distinct identifiers on each side, no record is used twice: a left record
    appears in at most one match, and no right record appears twice, in one match or in
    two. *)
Theorem reconcile_once left right tol R :
  NoDup (rid <$> left) → NoDup (rid <$> right) → reconcile left right (Some tol) = Ok R →
  NoDup (left_id <$> matches R) ∧ NoDup (matches R ≫= right_ids).
Proof.
  intros Hl Hr HR. destruct (run_exists left right tol R Hr HR) as [bs Hrun].
  pose proof (run_keys _ _ _ _ _ Hrun) as Hnd. rewrite (run_matches _ _ _ _ _ Hrun).
  pose proof (run_block _ _ _ _ _ Hrun) as Hbs.
  rewrite fmap_bind, bind_bind. split.
  - apply NoDup_bind_keys with fst; [done| |].
    + intros b Hb. destruct (Hbs b Hb) as [st [<- Hok _ _ _]]. apply Hok.
    + intros b b' x Hb Hb' Hx Hx'.
      destruct (block_left_in _ _ _ _ b x (Hbs b Hb) Hx) as (l & Hin & E & Ek).
      destruct (block_left_in _ _ _ _ b' x (Hbs b' Hb') Hx') as (l' & Hin' & E' & Ek').
      rewrite <- Ek, <- Ek'. f_equal. apply (NoDup_fmap_inj rid left); [done..|congruence].
  - apply NoDup_bind_keys with fst; [done| |].
    + intros b Hb. destruct (Hbs b Hb) as [st [<- Hok _ _ _]]. apply Hok.
    + intros b b' x Hb Hb' Hx Hx'.
      destruct (block_right_in _ _ _ _ b x (Hbs b Hb) Hx) as (l & Hin & E & Ek).
      destruct (block_right_in _ _ _ _ b' x (Hbs b' Hb') Hx') as (l' & Hin' & E' & Ek').
      rewrite <- Ek, <- Ek'. f_equal. apply (NoDup_fmap_inj rid right); [done..|congruence].
Qed.

Lemma reconcile_once_witness :
  NoDup (left_id <$> matches ex_result) ∧ NoDup (matches ex_result ≫= right_ids).
Proof.
  exact (reconcile_once ex_left ex_right ex_tol ex_result ex_left_NoDup ex_right_NoDup ex_run).
Defined.

(** C2: with distinct identifiers on each side the resolution is stable: whatever a rule
    admits is either in the result or loses a record to a match of a stricter rule, or of the same rule and a
    candidate order that is not behind (greater score, then identifiers).
    Aggregates are excepted on blocks past [max_block_candidates]. *)
Theorem reconcile_stable left right tol R l m :
  NoDup (rid <$> left) → NoDup (rid <$> right) → reconcile left right (Some tol) = Ok R →
  l ∈ left → admits tol (counterparts right l) l m →
  (rule m = M3_AGGREGATE → too_large right tol l = false) →
  m ∈ matches R ∨ ∃ m', m' ∈ matches R ∧ conflict m' m ∧ outranks m' m.
Proof.
  intros Hl Hr HR Hin Ha H3. destruct (local_result _ _ _ _ Hl Hr HR l Hin) as [st Hst].
  pose proof (loc_sub _ _ _ _ _ _ Hst) as Hsub.
  destruct (loc_settled _ _ _ _ _ _ Hst (rule m) H3 l m) as [?|(m' & ? & ?)];
    [by apply elem_of_block_lefts|done|done|left|right]; eauto.
Qed.

(** [L1]/[R1] is admitted by [M2]. *)
Lemma reconcile_stable_witness : ∃ l m, l ∈ ex_left ∧
  admits ex_tol (counterparts ex_right l) l m ∧
  (m ∈ matches ex_result ∨ ∃ m', m' ∈ matches ex_result ∧ conflict m' m ∧ outranks m' m).
Proof.
  destruct (reconcile_sound_witness) as (m & Hm & l & Hl & _ & Ha). exists l, m.
  split; [exact Hl|]. split; [exact Ha|].
  apply (reconcile_stable ex_left ex_right ex_tol ex_result l m ex_left_NoDup ex_right_NoDup ex_run Hl Ha).
  intros _. unfold too_large, counterparts. rewrite length_sorted_by. apply Z.ltb_ge.
  transitivity (Z.of_nat (length ex_right)); [apply inj_le, sublist_length, sublist_filter_bool_sub|].
  vm_compute. discriminate.
Defined.

(** C4: with distinct identifiers on each side, and at most 10^20 records on the right,
    the audit is complete: every left record is either matched or carries a
    justification, and never both.  (The engine does not check that identifiers are
    distinct: a second left with a taken one is skipped.) *)
Theorem reconcile_partition left right tol R l :
  NoDup (rid <$> left) → NoDup (rid <$> right) → Z.of_nat (length right) <= 10 ^ 20 →
  reconcile left right (Some tol) = Ok R → l ∈ left →
  matched_left R l ↔ ¬ ∃ j, j ∈ rejects R ∧ rej_left j = rid l.
Proof.
  intros Hl Hr Hlen HR Hin. destruct (local_result _ _ _ _ Hl Hr HR l Hin) as [st Hst]. split.
  - intros Hm (j & Hj & E). apply (taken_left_matched _ _ _ _ l st Hin Hst) in Hm.
    assert (j ∈ List.filter (λ j, bool_decide (rej_left j = rid l)) (rejects R)) as Hj'
      by (apply elem_of_filter_bool; split; [done|by apply bool_decide_eq_true_2]).
    rewrite (loc_rejects _ _ _ _ _ _ Hst) in Hj'. by apply left_rejects_left in Hj' as [_ ?].
  - intros Hno. apply dec_stable. intros Hun. apply Hno.
    assert (∃ j, j ∈ List.filter (λ j, bool_decide (rej_left j = rid l)) (rejects R)) as [j Hj];
      [|apply elem_of_filter_bool in Hj as [Hj E%bool_decide_eq_true_1]; eauto].
    rewrite (unmatched_rejects left right tol R l st Hin Hst Hun).
    destruct (counterparts right l) as [|r rs] eqn:Ec; [eexists; left|].
    destruct (too_large right tol l); [eexists; left|].
    assert (r ∈ counterparts right l) as Hrin by (rewrite Ec; left).
    destruct (pair_reason_exists left right tol R Hl Hr HR l r Hlen Hin Hrin Hun) as [why Hwhy].
    rewrite <- (taken_right_used left right tol R l r st Hst Hrin) in Hwhy.
    eexists. apply elem_of_app. left. unfold pair_rejects. cbn [omap list_omap]. rewrite Hwhy. left.
Qed.

Lemma reconcile_partition_witness : ∃ l, l ∈ ex_left ∧
  (matched_left ex_result l ↔ ¬ ∃ j, j ∈ rejects ex_result ∧ rej_left j = rid l).
Proof.
  eexists. split; [left|].
  apply (reconcile_partition ex_left ex_right ex_tol ex_result _ ex_left_NoDup ex_right_NoDup);
    [vm_compute; discriminate|exact ex_run|left].
Defined.

(** C3: with distinct identifiers on each side, and at most 10^20 records on the right,
    every pair of an unmatched record is explained once: in a block within bounds the pair of an unmatched left with a right of its block gets exactly
    one reject, with the first reason that applies: lost to a better candidate,
    date out of window, amount out of tolerance.  (The code's last branch,
    [return None], is unreachable.) *)
Theorem reconcile_pair_explained left right tol R l r :
  NoDup (rid <$> left) → NoDup (rid <$> right) → Z.of_nat (length right) <= 10 ^ 20 →
  reconcile left right (Some tol) = Ok R → l ∈ left → ¬ matched_left R l →
  r ∈ right → blocking_key r = blocking_key l → too_large right tol l = false →
  List.filter (λ j, bool_decide (rej_left j = rid l) && bool_decide (rej_right j = Some (rid r)))
    (rejects R) =
  [mkReject (rid l) (Some (rid r))
     (if right_used R r then LOST_TO_BETTER_CANDIDATE
      else if date_days tol <? Z.abs (value_date l - value_date r) then DATE_OUT_OF_WINDOW
      else AMOUNT_OUT_OF_TOLERANCE)].
Proof.
  intros Hl Hr Hlen HR Hin Hun Hrin Hk Hbig.
  destruct (local_result _ _ _ _ Hl Hr HR l Hin) as [st Hst].
  assert (r ∈ counterparts right l) as Hc by by apply elem_of_counterparts.
  rewrite filter_andb, (unmatched_rejects left right tol R l st Hin Hst Hun).
  destruct (pair_reason_exists left right tol R Hl Hr HR l r Hlen Hin Hc Hun) as [why Hwhy].
  pose proof (taken_right_used left right tol R l r st Hst Hc) as Hused.
  pose proof (pair_rejects_one tol (counterparts right l) (taken_right st) l r
    (counterparts_NoDup right Hr l) Hc) as Hone.
  destruct (counterparts right l) as [|r0 rs] eqn:Ec; [by apply not_elem_of_nil in Hc|].
  rewrite Hbig, List.filter_app, Hone, aggregate_rejects_pair, Hused, Hwhy, app_nil_r. simpl.
  do 2 f_equal. unfold _pair_reject_reason in Hwhy.
  destruct (right_used R r); [congruence|]. destruct (_ <? _); [congruence|].
  destruct (ltb _ _); congruence.
Qed.

Lemma reconcile_pair_explained_witness :
  let l := mkRec "L3" "ACC-A" (lit 77700 2) 100 None (Some "EUR") in
  let r := mkRec "R4" "ACC-A" (lit 1 2) 110 None (Some "EUR") in
  List.filter (λ j, bool_decide (rej_left j = "L3") && bool_decide (rej_right j = Some "R4"))
    (rejects ex_result) = [mkReject "L3" (Some "R4") DATE_OUT_OF_WINDOW]%string.
Proof.
  intros l r. assert (right_used ex_result r = false) as Hu by (vm_compute; reflexivity).
  pose proof (reconcile_pair_explained ex_left ex_right ex_tol ex_result l r
    ex_left_NoDup ex_right_NoDup) as H.
  rewrite Hu in H. apply H; clear H;
    [vm_compute; discriminate|exact ex_run|right; right; left| |right; right; right; left|
     reflexivity|vm_compute; reflexivity].
  apply not_matched. vm_compute. reflexivity.
Defined.

(** The records that no rule could be tried on are said to be so, by a single
    reject: no right in the block, or a block past [max_block_candidates]; and an
    oversized block has no aggregate match. *)
Theorem reconcile_degenerate left right tol R l :
  NoDup (rid <$> left) → NoDup (rid <$> right) → reconcile left right (Some tol) = Ok R →
  l ∈ left → same_block right l = [] ∨ too_large right tol l = true →
  (¬ matched_left R l →
   List.filter (λ j, bool_decide (rej_left j = rid l)) (rejects R) =
     [mkReject (rid l) None
        (match same_block right l with [] => NO_CANDIDATE | _ => BLOCK_TOO_LARGE end)]) ∧
  (∀ m, m ∈ matches R → left_id m = rid l → rule m ≠ M3_AGGREGATE).
Proof.
  intros Hl Hr HR Hin Hcase. destruct (local_result _ _ _ _ Hl Hr HR l Hin) as [st Hst].
  assert (same_block right l = [] ↔ counterparts right l = []) as Hnil.
  { unfold counterparts. change (in_block _ right) with (same_block right l).
    rewrite <- !length_zero_iff_nil. by rewrite length_sorted_by. }
  split.
  - intros Hun. rewrite (unmatched_rejects left right tol R l st Hin Hst Hun).
    destruct (same_block right l) as [|r rs] eqn:Es; [by rewrite (proj1 Hnil eq_refl)|].
    destruct Hcase as [?|Hbig]; [done|].
    destruct (counterparts right l) eqn:Ec; [by pose proof (proj2 Hnil eq_refl)|by rewrite Hbig].
  - intros m Hm E H3. pose proof (loc_left _ _ _ _ _ _ Hst m Hm E) as Hf.
    destruct Hcase as [Hemp|Hbig]; [|by apply (loc_large _ _ _ _ _ _ Hst m Hf Hbig)].
    destruct (ok_admits _ _ _ _ (loc_ok _ _ _ _ _ _ Hst) m Hf) as (l' & _ & Ha).
    destruct (admits_rights_nonempty _ _ _ _ Ha) as [x Hx].
    destruct (admits_right _ _ _ _ _ Ha Hx) as (rr & Hrr & _).
    rewrite (proj1 Hnil Hemp) in Hrr. by apply not_elem_of_nil in Hrr.
Qed.

Lemma reconcile_degenerate_witness :
  let l := mkRec "L4" "ACC-B" (lit 100 2) 100 None None in
  List.filter (λ j, bool_decide (rej_left j = "L4")) (rejects ex_result) =
    [mkReject "L4" None NO_CANDIDATE]%string.
Proof.
  intros l. apply (reconcile_degenerate ex_left ex_right ex_tol ex_result l ex_left_NoDup
    ex_right_NoDup ex_run); [right; right; right; left|left; reflexivity|].
  apply not_matched. vm_compute. reflexivity.
Defined.

(** An unmatched record of a block within bounds is also told that no aggregate
    was found exactly when one was conceivable: aggregates are enabled and two
    rights are free and in the date window. *)
Theorem reconcile_aggregate_reject left right tol R l :
  NoDup (rid <$> left) → NoDup (rid <$> right) → reconcile left right (Some tol) = Ok R →
  l ∈ left → ¬ matched_left R l → too_large right tol l = false →
  mkReject (rid l) None AGGREGATE_NOT_FOUND ∈ rejects R ↔
  2 <= max_aggregate_size tol ∧
  (2 <= length (List.filter (λ r, negb (right_used R r) &&
      (Z.abs (value_date l - value_date r) <=? date_days tol)%Z) (same_block right l)))%nat.
Proof.
  intros Hl Hr HR Hin Hun Hbig. destruct (local_result _ _ _ _ Hl Hr HR l Hin) as [st Hst].
  set (f := λ r, negb (right_used R r) && _).
  assert (length (List.filter f (same_block right l)) =
    length (List.filter (λ r, negb (bool_decide (rid r ∈ taken_right st)) &&
      (Z.abs (value_date l - value_date r) <=? date_days tol)) (counterparts right l))) as ->.
  { transitivity (length (List.filter f (counterparts right l))).
    - apply Permutation_length, filter_bool_perm. unfold counterparts.
      by rewrite sorted_by_perm.
    - f_equal. apply List.filter_ext_in. intros r Hrin%list_elem_of_In. unfold f. f_equal. f_equal.
      symmetry. by apply (taken_right_used left right tol R l r st Hst). }
  pose proof (unmatched_rejects left right tol R l st Hin Hst Hun) as Hrej.
  transitivity (mkReject (rid l) None AGGREGATE_NOT_FOUND ∈
    List.filter (λ j, bool_decide (rej_left j = rid l)) (rejects R)).
  { rewrite elem_of_filter_bool, bool_decide_eq_true. naive_solver. }
  rewrite Hrej, Hbig, <- aggregate_reject_iff. destruct (counterparts right l); [|done].
  rewrite list_elem_of_singleton. split; [discriminate|].
  intros Ha%aggregate_reject_iff. simpl in Ha. lia.
Qed.

(** Two free rights that do not add up. *)
Lemma reconcile_aggregate_reject_witness :
  let l := mkRec "L1" "A" (lit 500 2) 1 None None in
  let rs := [mkRec "R1" "A" (lit 100 2) 1 None None; mkRec "R2" "A" (lit 200 2) 1 None None] in
  ∃ R, reconcile [l] rs (Some ex_tol) = Ok R ∧ mkReject "L1" None AGGREGATE_NOT_FOUND ∈ rejects R.
Proof.
  intros l rs. destruct (reconcile [l] rs (Some ex_tol)) as [R|e] eqn:HR;
    [|exfalso; vm_compute in HR; discriminate HR].
  exists R. split; [reflexivity|].
  apply (reconcile_aggregate_reject [l] rs ex_tol R l); try exact HR.
  - apply (bool_decide_unpack _). vm_compute. exact I.
  - apply (bool_decide_unpack _). vm_compute. exact I.
  - left.
  - apply not_matched. vm_compute in HR. injection HR as <-. vm_compute. reflexivity.
  - vm_compute. reflexivity.
  - vm_compute in HR. injection HR as <-. vm_compute. split; [discriminate|]. do 2 constructor.
Defined.

(** The counters of a run tell the truth: the records of each side, the blocks,
    the matches of each rule, and the records of each side that no match holds. *)
Theorem reconcile_counters left right tol R :
  NoDup (rid <$> left) → NoDup (rid <$> right) → reconcile left right (Some tol) = Ok R →
  cnt "records_left" (counters R) = Z.of_nat (length left) ∧
  cnt "records_right" (counters R) = Z.of_nat (length right) ∧
  cnt "blocks" (counters R) =
    Z.of_nat (size (list_to_set (blocking_key <$> left ++ right) : gset (list string))) ∧
  (∀ r, cnt (rule_counter r) (counters R) = zlen (λ m, bool_decide (rule m = r)) (matches R)) ∧
  cnt "unmatched_left" (counters R) = zlen (λ l, negb (has_left (matches R) l)) left ∧
  cnt "unmatched_right" (counters R) = zlen (λ r, negb (has_right (matches R) r)) right.
Proof.
  intros Hl Hr HR. destruct (run_exists left right tol R Hr HR) as [bs Hrun].
  assert (∀ k, ¬ other_counter k → cnt k (counters R) = cnt k (initial_counters left right) +
    zlen (λ m, bool_decide (rule_counter (rule m) = k)) (matches R) +
    (if bool_decide (k = "unmatched_left"%string)
     then zlen (λ l, negb (has_left (matches R) l)) left else 0) +
    (if bool_decide (k = "unmatched_right"%string)
     then zlen (λ r, negb (has_right (matches R) r)) right else 0)) as H.
  { intros k Hk. rewrite (run_counters _ _ _ _ _ Hrun k Hk). by apply (run_deltas left right tol R). }
  unfold other_counter in H. split_and!.
  1-3: rewrite H by (intros [?|?]; discriminate).
  1-3: rewrite (zlen_none _ (matches R)) by (intros m _; by destruct (rule m)).
  1-3: rewrite !bool_decide_eq_false_2, !Z.add_0_r by done.
  - done.
  - done.
  - by rewrite <- blocks_of_dom, size_dom.
  - intros r. rewrite H by (intros [?|?]; destruct r; discriminate).
    assert (cnt (rule_counter r) (initial_counters left right) = 0) as -> by by destruct r.
    rewrite !bool_decide_eq_false_2 by (by destruct r). rewrite !Z.add_0_r. apply zlen_ext.
    intros m _. apply bool_decide_ext. by destruct (rule m), r.
  - rewrite H by (intros [?|?]; discriminate).
    rewrite (zlen_none _ (matches R)) by (intros m _; by destruct (rule m)).
    by rewrite bool_decide_eq_true_2, bool_decide_eq_false_2, Z.add_0_r by done.
  - rewrite H by (intros [?|?]; discriminate).
    rewrite (zlen_none _ (matches R)) by (intros m _; by destruct (rule m)).
    by rewrite bool_decide_eq_false_2, bool_decide_eq_true_2 by done.
Qed.

Lemma reconcile_counters_witness : cnt "matched_M3_AGGREGATE" (counters ex_result) = 1.
Proof.
  destruct (reconcile_counters ex_left ex_right ex_tol ex_result ex_left_NoDup ex_right_NoDup ex_run)
    as (_ & _ & _ & H & _).
  specialize (H M3_AGGREGATE). change (rule_counter M3_AGGREGATE) with "matched_M3_AGGREGATE"%string in H.
  rewrite H. vm_compute. reflexivity.
Defined.
