(* ===== verification/Stream.v ===== *)
(** * Stream: provisional, final and superseded decisions

    [stream.py].  A journal of arrivals and progress signals is replayed into an
    append-only history of decisions.  [_Replay]'s attributes are the record
    [State]; a block's three dicts are the record [Block].  A method that mutates
    the state returns the new one; a block is held only by [blocks], so it is
    read, updated and written back.  The engine's version, which the package
    metadata provides, is a parameter, and so is the depth of recursion that the
    interpreter leaves to [root], the one recursive function. *)

From S2P Require Import Prelude Digest Numeric DecimalText Calendar Models Rules Engine EngineTheorems.

(** ** Data *)

Inductive Side := LEFT | RIGHT.
Global Instance Side_eq_dec : EqDecision Side.
Proof. solve_decision. Defined.
Global Instance Side_countable : Countable Side :=
  inj_countable' (λ s, match s with LEFT => false | RIGHT => true end)
    (λ b, if b : bool then RIGHT else LEFT) ltac:(by intros []).
Definition side_name (s : Side) : string := match s with LEFT => "left" | RIGHT => "right" end.
Global Instance Side_cmp : Cmp Side := cmp_on side_name.
Definition SIDES : list Side := [LEFT; RIGHT].
Definition OTHER (s : Side) : Side := match s with LEFT => RIGHT | RIGHT => LEFT end.

Notation BusinessKey := (Side * string)%type (only parsing).

Definition LATE : string := "LATE".
Definition REFERENCE_AFTER_FINAL : string := "REFERENCE_AFTER_FINAL".
Definition AS_COUNTERPART : string := "AS_COUNTERPART".

(** A journal entry; sides arrive as text and are checked. *)
Inductive Entry :=
| Arrival (side : string) (record : Rec) (source : string) (captured_at : option datetime)
| Progress (side : string) (until : date).

Inductive Status := PROVISIONAL | FINAL | SUPERSEDED.
Inductive DecisionType := MATCH | BREAK.
Global Instance Status_eq_dec : EqDecision Status.
Proof. solve_decision. Defined.
Global Instance DecisionType_eq_dec : EqDecision DecisionType.
Proof. solve_decision. Defined.
Definition Status_value (s : Status) : string :=
  match s with PROVISIONAL => "PROVISIONAL" | FINAL => "FINAL" | SUPERSEDED => "SUPERSEDED" end.
Definition DecisionType_value (t : DecisionType) : string :=
  match t with MATCH => "MATCH" | BREAK => "BREAK" end.

Record StreamConfig := mkConfig {
  tolerance : Tolerance;
  lateness_days : Z;
  reference_horizon_days : option Z;
  max_component_days : option Z
}.

(** [str] of an optional integer. *)
Definition str_opt (z : option Z) : string :=
  match z with None => "None" | Some z => str_Z z end.
Definition config_ruleset_id (c : StreamConfig) : string :=
  _digest [ruleset_id (tolerance c); "lateness"; str_Z (lateness_days c);
           "reference_horizon"; str_opt (reference_horizon_days c);
           "max_component"; str_opt (max_component_days c)]%string.

(** [Decision] *)
Record SDecision := mkDecision {
  decision_id : string;
  business_key : BusinessKey;
  chain_version : Z;
  status : Status;
  decision_type : DecisionType;
  input_ids : list string;
  dreason : string;
  druleset_id : string;
  engine_version : string;
  window_end : date;
  decided_at : Z;
  final_at : option Z;
  supersedes : option string;
  forced : bool
}.
Global Instance SDecision_eq_dec : EqDecision SDecision.
Proof. solve_decision. Defined.

Record StreamResult := mkStream { decisions : list SDecision; duplicates : Z }.

(** [StreamResult.status] and [StreamResult.effective]. *)
Definition result_status (r : StreamResult) (d : SDecision) : Status :=
  if existsb (λ x, bool_decide (supersedes x = Some (decision_id d))) (decisions r)
  then SUPERSEDED else status d.
Definition effective (r : StreamResult) (upto : option Z) : gmap BusinessKey SDecision :=
  foldl (λ st d,
    if match upto with None => true | Some u => decided_at d <=? u end
    then <[business_key d := d]> st else st) ∅ (decisions r).

(** [_Proposal] and its fingerprint. *)
Record Proposal := mkProposal {
  p_type : DecisionType;
  p_inputs : list string;
  p_reason : string;
  p_window_end : date
}.
Definition content_fingerprint (t : DecisionType) (inputs : list string) (why : string) : string :=
  _digest [DecisionType_value t; join "," inputs; why]%string.
Definition fingerprint (p : Proposal) : string :=
  content_fingerprint (p_type p) (p_inputs p) (p_reason p).
Definition _fingerprint (d : SDecision) : string :=
  content_fingerprint (decision_type d) (input_ids d) (dreason d).

(** [_Block] *)
Record Block := mkBlk {
  pool : Side → odict string Rec;
  latest : Side → option date;
  final_references : Side → gset string
}.
Definition Block_empty : Block := mkBlk (λ _, []) (λ _, None) (λ _, ∅).
(** [d[side] = x] on a dict with the two sides as keys. *)
Definition set_side {A} (f : Side → A) (s : Side) (x : A) : Side → A :=
  λ s', if decide (s' = s) then x else f s'.

(** The attributes [__init__] computes once, and the interpreter's [s_depth]: how many
    calls of [root] can be nested below [_components] before CPython raises
    [RecursionError] (its limit less the frames of the callers, counted for an arrival;
    a progress signal has one caller less). *)
Record Settings := mkSettings {
  tol : Tolerance;
  s_max_component_days : option Z;
  window : Z;
  reference_window : Z;
  lateness : Z;
  ruleset : string;
  s_engine_version : string;
  s_depth : nat
}.

(** The attributes the journal changes. *)
Record State := mkState {
  seen : gmap BusinessKey Rec;
  s_duplicates : Z;
  progress : Side → option date;
  blocks : gmap (list string) Block;
  current : gmap BusinessKey SDecision;
  s_decisions : list SDecision;
  position : Z
}.

(** ** Operations *)

Definition _check_side (s : string) : res Side :=
  if bool_decide (s = side_name LEFT) then Ok LEFT
  else if bool_decide (s = side_name RIGHT) then Ok RIGHT
  else Raise (ValueError "side must be 'left' or 'right'").

Definition _check_days (name : string) (value minimum : Z) : res unit :=
  check (minimum <=? value) (ValueError (name +:+ " must be an integer >= minimum")).

(** [_Replay.__init__] *)
Definition init_settings (version : string) (depth : nat) (c : StreamConfig) : res Settings :=
  _ ← _check_days "lateness_days" (lateness_days c) 0;
  let t := tolerance c in
  let reference_days := default (date_days t) (reference_horizon_days c) in
  _ ← _check_days "reference_horizon_days" reference_days (date_days t);
  _ ← match max_component_days c with
      | None => Ok tt
      | Some m => _check_days "max_component_days" m 0
      end;
  Ok (mkSettings t (max_component_days c) (date_days t) reference_days (lateness_days c)
        (config_ruleset_id c) version depth).
Definition init_state : State := mkState ∅ 0 (λ _, None) ∅ ∅ [] (-1).

Section replay.
Context (cfg : Settings).

Definition _horizon (r : Rec) : date :=
  value_date r + (if truthy (reference r) then reference_window cfg else window cfg).

(** [max] of a previous date, if any, and a new one. *)
Definition later (previous : option date) (d : date) : option date :=
  match previous with None => Some d | Some p => Some (Z.max p d) end.

Definition max_opt (a b : option date) : option date :=
  match a, b with
  | None, None => None
  | Some x, None => Some x
  | None, Some y => Some y
  | Some x, Some y => Some (Z.max x y)
  end.
Definition _watermark (prog : Side → option date) (b : Block) : option date :=
  match max_opt (latest b LEFT) (prog LEFT), max_opt (latest b RIGHT) (prog RIGHT) with
  | Some l, Some r => Some (Z.min l r - lateness cfg)
  | _, _ => None
  end.

Definition _emit (st : State) (key : BusinessKey) (p : Proposal) (s : Status) (f : bool) : State :=
  let previous := current st !! key in
  let version := match previous with None => 1 | Some d => chain_version d + 1 end in
  let id :=
    match s with
    | FINAL => _digest [side_name key.1; key.2; fingerprint p; if f then "FORCED" else Status_value FINAL]
    | _ => _digest [side_name key.1; key.2; str_Z version; fingerprint p]
    end%string in
  let d := mkDecision id key version s (p_type p) (p_inputs p) (p_reason p) (ruleset cfg)
             (s_engine_version cfg) (p_window_end p) (position st)
             (match s with FINAL => Some (position st) | _ => None end)
             (decision_id <$> previous) f in
  mkState (seen st) (s_duplicates st) (progress st) (blocks st) (<[key := d]> (current st))
    (s_decisions st ++ [d]) (position st).

(** *** Components *)

(** [root] follows [parent]: one nested call per link, of the [depth] that are left. *)
Fixpoint root (depth : nat) (parent : gmap BusinessKey BusinessKey) (k : BusinessKey)
    : res BusinessKey :=
  match depth with
  | O => Raise RecursionError
  | S f => p ← get (parent !! k) KeyError;
           if decide (p = k) then Ok k else root f parent p
  end.
Definition linked (l r : Rec) : bool :=
  (Z.abs (value_date l - value_date r) <=? date_days (tol cfg)) ||
  (truthy (reference l) && bool_decide (reference l = reference r)).
Definition link_pair (n : nat) (parent : gmap BusinessKey BusinessKey)
    (pair : (string * Rec) * (string * Rec)) : res (gmap BusinessKey BusinessKey) :=
  let '((li, l), (ri, r)) := pair in
  if linked l r then
    rl ← root n parent (LEFT, li);
    rr ← root n parent (RIGHT, ri);
    Ok (<[rr := rl]> parent)
  else Ok parent.
Definition keys_of (b : Block) : list BusinessKey :=
  (pair LEFT <$> (pool b LEFT).*1) ++ (pair RIGHT <$> (pool b RIGHT).*1).
Definition add_member (n : nat) (parent : gmap BusinessKey BusinessKey)
    (groups : odict BusinessKey (list BusinessKey)) (key : BusinessKey)
    : res (odict BusinessKey (list BusinessKey)) :=
  r ← root n parent key;
  Ok (od_set r (default [] (od_get r groups) ++ [key]) groups).
Definition components_at (n : nat) (b : Block) : res (list (list BusinessKey)) :=
  let parent := list_to_map ((λ k, (k, k)) <$> keys_of b) in
  let pairs := pool b LEFT ≫= λ l, pair l <$> pool b RIGHT in
  parent ← fold_res (link_pair n) pairs parent;
  groups ← fold_res (add_member n parent) (sorted (map_to_list parent).*1) [];
  Ok (sorted groups.*2).
Definition _components (b : Block) : res (list (list BusinessKey)) := components_at (s_depth cfg) b.

(** *** Finality *)

(** [max] / [min] of a non-empty sequence; Python raises on an empty one. *)
Definition max_list (l : list Z) : res Z :=
  match l with [] => Raise (ValueError "max() arg is an empty sequence") | x :: l => Ok (max_of x l) end.
Definition min_list (l : list Z) : res Z :=
  match l with [] => Raise (ValueError "min() arg is an empty sequence") | x :: l => Ok (min_of x l) end.

Definition close_component (b : Block) (cur : gmap BusinessKey SDecision) (watermark : date)
    (component : list BusinessKey) : res (list (SDecision * bool)) :=
  records ← map_res (λ k : BusinessKey, get (od_get k.2 (pool b k.1)) KeyError) component;
  ds ← map_res (λ k : BusinessKey, get (cur !! k) KeyError) component;
  last ← max_list (_horizon <$> records);
  if last <? watermark then Ok ((λ d, (d, false)) <$> ds)
  else
    match s_max_component_days cfg with
    | None => Ok []
    | Some m =>
        hi ← max_list (value_date <$> records);
        lo ← min_list (value_date <$> records);
        if m <? hi - lo
        then Ok ((λ d, (d, true)) <$> List.filter (λ d, window_end d <? watermark) ds)
        else Ok []
    end.
Definition _closing (st : State) (b : Block) : res (list (SDecision * bool)) :=
  match _watermark (progress st) b with
  | None => Ok []
  | Some w =>
      comps ← _components b;
      concat_res (close_component b (current st) w) comps
  end.

(** *** Evaluation *)

Notation Proposals := (gmap BusinessKey Proposal).
Notation Reasons := (gmap BusinessKey (gset RejectReason)).

Definition propose_match (lefts rights : odict string Rec) (ps : Proposals) (m : Match)
    : res Proposals :=
  let inputs := left_id m :: right_ids m in
  l ← get (od_get (left_id m) lefts) KeyError;
  rs ← map_res (λ r, get (od_get r rights) KeyError) (right_ids m);
  let window_end := max_of (_horizon l) (_horizon <$> rs) in
  let ps1 := <[(LEFT, left_id m) := mkProposal MATCH inputs (RuleId_name (rule m)) window_end]> ps in
  Ok (foldl (λ ps r, <[(RIGHT, r) := mkProposal MATCH inputs AS_COUNTERPART window_end]> ps)
        ps1 (right_ids m)).

Definition add_reason (key : BusinessKey) (why : RejectReason) (rs : Reasons) : Reasons :=
  <[key := {[why]} ∪ default ∅ (rs !! key)]> rs.
Definition collect_reason (lefts rights : odict string Rec) (rs : Reasons) (j : Reject)
    : res Reasons :=
  match rej_right j with
  | None => Ok (add_reason (LEFT, rej_left j) (reason j) rs)
  | Some right_id =>
      l ← get (od_get (rej_left j) lefts) KeyError;
      r ← get (od_get right_id rights) KeyError;
      if Z.abs (value_date l - value_date r) <=? date_days (tol cfg)
      then Ok (add_reason (RIGHT, right_id) (reason j) (add_reason (LEFT, rej_left j) (reason j) rs))
      else Ok rs
  end.

Definition break_reason (found : gset RejectReason) : string :=
  join "+" (RejectReason_name <$> sorted (elements found)).
Definition propose_break (reasons : Reasons) (ps : Proposals) (entry : BusinessKey * Rec)
    : Proposals :=
  let '(key, record) := entry in
  match ps !! key with
  | Some _ => ps
  | None =>
      let found := default {[NO_CANDIDATE]} (reasons !! key) in
      <[key := mkProposal BREAK [key.2] (break_reason found) (_horizon record)]> ps
  end.

(** Every open record of the block, left side first. *)
Definition open_records (b : Block) : list (BusinessKey * Rec) :=
  ((λ e : string * Rec, ((LEFT, e.1), e.2)) <$> pool b LEFT) ++
  ((λ e : string * Rec, ((RIGHT, e.1), e.2)) <$> pool b RIGHT).

Definition emit_changed (ps : Proposals) (st : State) (key : BusinessKey) : res State :=
  p ← get (ps !! key) KeyError;
  match current st !! key with
  | Some d => if bool_decide (_fingerprint d = fingerprint p) then Ok st
              else Ok (_emit st key p PROVISIONAL false)
  | None => Ok (_emit st key p PROVISIONAL false)
  end.
(** What the engine says now about each open record. *)
Definition proposals_of (b : Block) : res Proposals :=
  let lefts := pool b LEFT in
  let rights := pool b RIGHT in
  result ← reconcile lefts.*2 rights.*2 (Some (tol cfg));
  ps ← fold_res (propose_match lefts rights) (matches result) ∅;
  reasons ← fold_res (collect_reason lefts rights) (rejects result) ∅;
  Ok (foldl (propose_break reasons) ps (open_records b)).
Definition _evaluate (st : State) (b : Block) : res State :=
  ps ← proposals_of b;
  fold_res (emit_changed ps) (sorted (map_to_list ps).*1) st.

(** *** Settling *)

Definition finalise (sb : State * Block) (c : SDecision * bool) : res (State * Block) :=
  let '(st, b) := sb in
  let '(d, f) := c in
  let p := mkProposal (decision_type d) (input_ids d) (dreason d) (window_end d) in
  let st' := _emit st (business_key d) p FINAL f in
  let '(side, id) := business_key d in
  record ← get (od_get id (pool b side)) KeyError;
  let refs :=
    match reference record with
    | Some s => if truthy (reference record)
                then set_side (final_references b) side ({[s]} ∪ final_references b side)
                else final_references b
    | None => final_references b
    end in
  Ok (st', mkBlk (set_side (pool b) side (od_del id (pool b side))) (latest b) refs).

(** [while closing := self._closing(block)]: each round withdraws a record. *)
Fixpoint settle_loop (fuel : nat) (st : State) (b : Block) : res (State * Block) :=
  closing ← _closing st b;
  match closing, fuel with
  | [], _ => Ok (st, b)
  | _, O => Raise OutOfFuel
  | _, S f =>
      '(st1, b1) ← fold_res finalise closing (st, b);
      st2 ← match keys_of b1 with [] => Ok st1 | _ => _evaluate st1 b1 end;
      settle_loop f st2 b1
  end.
Definition _settle (st : State) (b : Block) : res (State * Block) :=
  settle_loop (length (keys_of b)) st b.

(** *** Journal *)

Definition put_block (st : State) (key : list string) (b : Block) : State :=
  mkState (seen st) (s_duplicates st) (progress st) (<[key := b]> (blocks st)) (current st)
    (s_decisions st) (position st).

Definition _arrival (st : State) (side_text : string) (record : Rec) : res State :=
  side ← _check_side side_text;
  let key := (side, rid record) in
  match seen st !! key with
  | Some known =>
      if rec_eqb known record
      then Ok (mkState (seen st) (s_duplicates st + 1) (progress st) (blocks st) (current st)
                 (s_decisions st) (position st))
      else Raise (ValueError "record delivered with different content")
  | None =>
      let bkey := blocking_key record in
      let block := default Block_empty (blocks st !! bkey) in
      let st1 := mkState (<[key := record]> (seen st)) (s_duplicates st) (progress st)
                   (<[bkey := block]> (blocks st)) (current st) (s_decisions st) (position st + 1) in
      let late := match _watermark (progress st1) block with
                  | Some w => value_date record <? w
                  | None => false
                  end in
      let after_final := match reference record with
                         | Some s => bool_decide (s ∈ final_references block (OTHER side))
                         | None => false
                         end in
      let alone why := mkProposal BREAK [rid record] why (_horizon record) in
      if late then Ok (_emit st1 key (alone LATE) FINAL false)
      else if after_final then Ok (_emit st1 key (alone REFERENCE_AFTER_FINAL) FINAL false)
      else
        let block1 := mkBlk (set_side (pool block) side (od_set (rid record) record (pool block side)))
                        (set_side (latest block) side (later (latest block side) (value_date record)))
                        (final_references block) in
        st2 ← _evaluate st1 block1;
        '(st3, block2) ← _settle st2 block1;
        Ok (put_block st3 bkey block2)
  end.

Definition settle_block (st : State) (key : list string) : res State :=
  b ← get (blocks st !! key) KeyError;
  '(st', b') ← _settle st b;
  Ok (put_block st' key b').

Definition _progress (st : State) (side_text : string) (until : date) : res State :=
  side ← _check_side side_text;
  let st1 := mkState (seen st) (s_duplicates st) (set_side (progress st) side (later (progress st side) until))
               (blocks st) (current st) (s_decisions st) (position st + 1) in
  fold_res settle_block (sorted (map_to_list (blocks st1)).*1) st1.

Definition feed (st : State) (e : Entry) : res State :=
  match e with
  | Arrival side record _ _ => _arrival st side record
  | Progress side until => _progress st side until
  end.
End replay.

(** [replay(journal, config)]; [version] is what the package metadata says, [depth] the
    recursion the interpreter allows. *)
Definition replay (version : string) (depth : nat) (journal : list Entry) (c : StreamConfig) : res StreamResult :=
  cfg ← init_settings version depth c;
  st ← fold_res (feed cfg) journal init_state;
  Ok (mkStream (s_decisions st) (s_duplicates st)).

(** ** Lemmas: the union-find of [_components] *)

Section union_find.
Implicit Types (p : gmap BusinessKey BusinessKey) (k : BusinessKey).

Definition nonroots p : nat := size (filter (λ e : BusinessKey * BusinessKey, e.1 ≠ e.2) p).

(** Every key reaches a root within as many steps as there are links. *)
Definition forest p : Prop :=
  ∀ k, k ∈ dom p → ∃ r, root (S (nonroots p)) p k = Ok r ∧ p !! r = Some r.

Lemma root_mono f f' p k r : (f <= f')%nat → root f p k = Ok r → root f' p k = Ok r.
Proof.
  revert f' k; induction f as [|f IH]; intros f' k Hf H; [done|]. destruct f' as [|f']; [lia|].
  simpl in *. apply bind_Ok in H as (q & Hq & H). rewrite Hq. simpl.
  destruct (decide (q = k)); [done|]. apply IH; [lia|done].
Qed.

Lemma root_is_root f p k r : root f p k = Ok r → p !! r = Some r.
Proof.
  revert k; induction f as [|f IH]; intros k H; [done|]. simpl in H.
  apply bind_Ok in H as (q & Hq%get_Ok & H). destruct (decide (q = k)) as [-> |]; [|eauto].
  by injection H as <-.
Qed.

Lemma nonroots_lt p r : p !! r = Some r → (nonroots p < size p)%nat.
Proof.
  intros Hr. unfold nonroots. apply map_subset_size. split; [apply map_filter_subseteq|].
  intros Hsub. pose proof (lookup_weaken _ _ _ _ Hr Hsub) as H.
  apply map_lookup_filter_Some in H as [_ H]. by apply H.
Qed.

Lemma forest_root p k : forest p → k ∈ dom p → ∃ r, root (size p) p k = Ok r ∧ p !! r = Some r.
Proof.
  intros Hf Hk. destruct (Hf k Hk) as (r & Hr & Hroot). exists r. split; [|done].
  eapply root_mono; [|exact Hr]. by apply (nonroots_lt p r).
Qed.

(** Linking two roots. *)
Lemma root_link f p k r rl rr : p !! rl = Some rl → p !! rr = Some rr → rr ≠ rl →
  root f p k = Ok r →
  root (S f) (<[rr := rl]> p) k = Ok (if decide (r = rr) then rl else r).
Proof.
  intros Hl Hr Hne. revert k; induction f as [|f IH]; intros k H; [done|].
  cbn [root] in H. apply bind_Ok in H as (q & Hq%get_Ok & H).
  change (root (S (S f)) (<[rr:=rl]> p) k) with
    (q ← get (<[rr:=rl]> p !! k) KeyError;
     if decide (q = k) then Ok k else root (S f) (<[rr:=rl]> p) q).
  destruct (decide (k = rr)) as [-> |Hk].
  - rewrite lookup_insert_eq. simpl. rewrite Hr in Hq. injection Hq as <-.
    rewrite decide_True in H by done. injection H as <-.
    rewrite decide_False by done. rewrite decide_True by done.
    rewrite lookup_insert_ne by done. rewrite Hl. simpl. by rewrite decide_True.
  - rewrite lookup_insert_ne by done. rewrite Hq. simpl.
    destruct (decide (q = k)) as [-> |Hqk].
    + injection H as <-. by rewrite decide_False.
    + by apply IH.
Qed.

Lemma nonroots_link p rl rr : p !! rr = Some rr → rr ≠ rl →
  nonroots (<[rr := rl]> p) = S (nonroots p).
Proof.
  intros Hr Hne. unfold nonroots. rewrite map_filter_insert_True by done.
  rewrite map_size_insert_None; [done|]. apply map_lookup_filter_None. right.
  intros x Hx. rewrite Hr in Hx. injection Hx as <-. simpl. by intros [].
Qed.

Lemma link_forest p rl rr : forest p → p !! rl = Some rl → p !! rr = Some rr →
  forest (<[rr := rl]> p) ∧ dom (<[rr := rl]> p) = dom p.
Proof.
  intros Hf Hl Hr. assert (dom (<[rr := rl]> p) = dom p) as Hd.
  { rewrite dom_insert_L. apply elem_of_dom_2 in Hr. set_solver. }
  split; [|done]. destruct (decide (rr = rl)) as [-> |Hne]; [by rewrite insert_id|].
  intros k Hk. rewrite Hd in Hk. destruct (Hf k Hk) as (r & Hr' & _).
  rewrite nonroots_link by done. pose proof (root_link _ _ _ _ _ _ Hl Hr Hne Hr') as H.
  eexists. split; [exact H|]. by eapply root_is_root.
Qed.
End union_find.

(** ** Lemmas: the components are the connected components *)

Lemma rtsc_iff {X} (R R' : X → X → Prop) x y :
  (∀ a b, R a b ↔ R' a b) → rtsc R x y ↔ rtsc R' x y.
Proof. intros H. split; apply rtc_subrel; intros u v [?|?]; [left|right|left|right]; by apply H. Qed.

(** One more edge merges two classes. *)
Lemma rtsc_add {X} (R R' : X → X → Prop) a b : (∀ x y, R' x y ↔ R x y ∨ x = a ∧ y = b) →
  ∀ x y, rtsc R' x y ↔ rtsc R x y ∨ rtsc R x a ∧ rtsc R b y ∨ rtsc R x b ∧ rtsc R a y.
Proof.
  intros HR. assert (∀ x y, rtsc R x y → rtsc R' x y) as Hsub.
  { intros x y. apply rtc_subrel. intros u v [H|H]; [left|right]; apply HR; by left. }
  assert (rtsc R' a b) as Hab by (apply rtc_once; left; apply HR; by right).
  intros x y. split.
  - induction 1 as [x|x z y Hxz _ IH]; [left; reflexivity|].
    assert (rtsc R x z ∨ x = a ∧ z = b ∨ x = b ∧ z = a) as Hs.
    { destruct Hxz as [H|H]; apply HR in H as [H|[-> ->]]; [|by auto| |by auto];
        left; apply rtc_once; [by left|by right]. }
    assert (Hrefl : ∀ u, rtsc R u u) by reflexivity.
    destruct Hs as [Hs|[[-> ->]|[-> ->]]].
    + destruct IH as [IH|[[? ?]|[? ?]]]; [left; by etrans|right; left|right; right];
        (split; [by etrans|done]).
    + destruct IH as [IH|[[? ?]|[? ?]]]; auto.
    + destruct IH as [IH|[[? ?]|[? ?]]]; auto.
  - intros [H|[[H1 H2]|[H1 H2]]]; [auto|etrans; [by apply Hsub|]; etrans; [exact Hab|auto]|].
    etrans; [by apply Hsub|]. etrans; [symmetry; exact Hab|auto].
Qed.

Section components.
Context (cfg : Settings).

(** The links the code walks over, as pairs of keys. *)
Definition pair_keys (e : (string * Rec) * (string * Rec)) : BusinessKey * BusinessKey :=
  ((LEFT, e.1.1), (RIGHT, e.2.1)).
Definition edge_of (pairs : list ((string * Rec) * (string * Rec))) (k k' : BusinessKey) : Prop :=
  ∃ e, e ∈ pairs ∧ linked cfg e.1.2 e.2.2 = true ∧ pair_keys e = (k, k').
Definition edge (b : Block) : BusinessKey → BusinessKey → Prop :=
  edge_of (pool b LEFT ≫= λ l, pair l <$> pool b RIGHT).

Definition same_root (n : nat) (p : gmap BusinessKey BusinessKey) (k k' : BusinessKey) : Prop :=
  ∃ r, root n p k = Ok r ∧ root n p k' = Ok r.

(** The forest after some links were processed. *)
Record linked_forest (n : nat) (keys : gset BusinessKey)
    (E : BusinessKey → BusinessKey → Prop) (p : gmap BusinessKey BusinessKey) : Prop := {
  lf_forest : forest p;
  lf_dom : dom p = keys;
  lf_size : size p = n;
  lf_same k k' : k ∈ keys → k' ∈ keys → same_root n p k k' ↔ rtsc E k k'
}.

Lemma same_root_sym n p k k' : same_root n p k k' → same_root n p k' k.
Proof. intros (r & ? & ?). by exists r. Qed.
Lemma same_root_trans n p a b c : same_root n p a b → same_root n p b c → same_root n p a c.
Proof. intros (r & H1 & H2) (r' & H3 & H4). exists r. split; [done|congruence]. Qed.

Lemma link_pair_ok n keys E p e : linked_forest n keys E p →
  (pair_keys e).1 ∈ keys → (pair_keys e).2 ∈ keys →
  ∃ p', link_pair cfg n p e = Ok p' ∧
    linked_forest n keys (λ k k', E k k' ∨ linked cfg e.1.2 e.2.2 = true ∧ pair_keys e = (k, k')) p'.
Proof.
  intros Hlf HL HR. pose proof Hlf as [Hf Hd Hn Hsame]. destruct e as [[li l] [ri r]].
  unfold pair_keys in *. cbn [fst snd] in *. unfold link_pair. cbn [fst snd].
  destruct (linked cfg l r) eqn:El.
  2:{ exists p. split; [done|]. split; [done..|]. intros k k' Hk Hk'. rewrite Hsame by done.
      apply rtsc_iff; intros x y; naive_solver. }
  destruct (forest_root p (LEFT, li) Hf) as (rl & Hrl & Rl); [by rewrite Hd|].
  destruct (forest_root p (RIGHT, ri) Hf) as (rr & Hrr & Rr); [by rewrite Hd|].
  rewrite Hn in Hrl, Hrr. rewrite Hrl. simpl. rewrite Hrr. simpl.
  destruct (link_forest p rl rr Hf Rl Rr) as [Hf' Hd'].
  exists (<[rr := rl]> p). split; [done|]. split; [done|congruence| |].
  { rewrite <- Hn, <- !size_dom. by rewrite Hd'. }
  assert (∀ k, k ∈ keys → ∃ s, root n p k = Ok s ∧
    root n (<[rr := rl]> p) k = Ok (if decide (s = rr) then rl else s)) as Hroots.
  { intros k Hk. destruct (forest_root p k Hf) as (s & Hs & _); [by rewrite Hd|].
    exists s. rewrite <- Hn. split; [done|]. destruct (decide (rr = rl)) as [-> |Hne].
    { rewrite insert_id by done. rewrite Hs. by destruct (decide (s = rl)) as [-> |]. }
    pose proof (root_link _ _ _ _ _ _ Rl Rr Hne Hs) as H.
    destruct (forest_root (<[rr := rl]> p) k Hf') as (s' & Hs' & _); [by rewrite Hd', Hd|].
    assert (size (<[rr := rl]> p) = size p) as Esz by (rewrite <- !size_dom; by rewrite Hd').
    rewrite Esz in Hs'. rewrite Hs'. rewrite (root_mono (size p) (S (size p)) _ _ _ ltac:(lia) Hs') in H.
    by rewrite H. }
  intros k k' Hk Hk'.
  rewrite (rtsc_add E _ (LEFT, li) (RIGHT, ri)) by (intros; naive_solver).
  rewrite <- !Hsame by done. unfold same_root.
  destruct (Hroots k Hk) as (s & Hs & Hs'), (Hroots k' Hk') as (t & Ht & Ht').
  rewrite Hs, Ht, Hs', Ht', Hrl, Hrr.
  destruct (decide (s = rr)), (decide (t = rr)); subst; naive_solver.
Qed.

Lemma linked_forest_iff n keys E E' p : (∀ k k', E k k' ↔ E' k k') →
  linked_forest n keys E p → linked_forest n keys E' p.
Proof.
  intros HE [? ? ? Hs]. split; [done..|]. intros k k' Hk Hk'.
  rewrite Hs by done. by apply rtsc_iff.
Qed.

Lemma link_pairs_ok n keys pairs done p : linked_forest n keys (edge_of done) p →
  (∀ e, e ∈ pairs → (pair_keys e).1 ∈ keys ∧ (pair_keys e).2 ∈ keys) →
  ∃ p', fold_res (link_pair cfg n) pairs p = Ok p' ∧ linked_forest n keys (edge_of (done ++ pairs)) p'.
Proof.
  revert p done; induction pairs as [|e pairs IH]; intros p done Hp Hin; simpl.
  { rewrite app_nil_r. eauto. }
  destruct (Hin e ltac:(left)) as [HL HR].
  destruct (link_pair_ok n keys _ p e Hp HL HR) as (p' & -> & Hp'). simpl.
  apply (linked_forest_iff _ _ _ (edge_of (done ++ [e]))) in Hp'.
  - destruct (IH p' (done ++ [e]) Hp') as (p2 & -> & H2); [intros; apply Hin; by right|].
    exists p2. split; [reflexivity|]. by rewrite <- app_assoc in H2.
  - intros k k'. unfold edge_of. setoid_rewrite elem_of_app. setoid_rewrite list_elem_of_singleton.
    naive_solver.
Qed.

(** Before any link every key is its own root. *)
Lemma initial_forest keys : NoDup keys →
  linked_forest (length keys) (list_to_set keys) (edge_of [])
    (list_to_map ((λ k, (k, k)) <$> keys)).
Proof.
  intros Hnd. set (p := list_to_map _).
  assert (∀ k, k ∈ keys → p !! k = Some k) as Hp.
  { intros k Hk. apply elem_of_list_to_map_1.
    - rewrite <- list_fmap_compose. by rewrite list_fmap_id.
    - apply list_elem_of_fmap. by exists k. }
  assert (dom p = list_to_set keys) as Hd.
  { unfold p. rewrite dom_list_to_map_L, <- list_fmap_compose. by rewrite list_fmap_id. }
  assert (∀ f k, k ∈ keys → root (S f) p k = Ok k) as Hroot.
  { intros f k Hk. simpl. rewrite (Hp k Hk). simpl. by rewrite decide_True. }
  split; [| done | |].
  - intros k Hk. rewrite Hd, elem_of_list_to_set in Hk. exists k. auto.
  - rewrite <- size_dom, Hd, size_list_to_set by done. done.
  - intros k k' Hk Hk'. rewrite elem_of_list_to_set in Hk, Hk'.
    assert (length keys ≠ 0%nat) as Hlen
      by (intros E%nil_length_inv; rewrite E in Hk; by apply not_elem_of_nil in Hk).
    destruct (length keys) as [|f]; [done|]. unfold same_root. rewrite !Hroot by done.
    split; [intros (r & [= ->] & [= ->]); reflexivity|]. intros H.
    assert (k = k') as ->; [|eauto].
    induction H as [|x y z [Hxy|Hxy] _ _]; [done|..];
      destruct Hxy as (e & He & _); by apply not_elem_of_nil in He.
Qed.

(** Grouping by root. *)
Definition groups_ok (n : nat) (p : gmap BusinessKey BusinessKey)
    (groups : list (BusinessKey * list BusinessKey)) : Prop :=
  NoDup groups.*1 ∧ ∀ r ms, (r, ms) ∈ groups → ms ≠ [] ∧ ∀ k, k ∈ ms → root n p k = Ok r.

Lemma od_set_groups n p groups r k : groups_ok n p groups → root n p k = Ok r →
  groups_ok n p (od_set r (default [] (od_get r groups) ++ [k]) groups).
Proof.
  intros [Hnd Hms] Hr. split.
  - clear Hms. induction groups as [|[r' ms] groups IH]; simpl; [apply NoDup_singleton|].
    rewrite fmap_cons, NoDup_cons in Hnd. destruct Hnd as [Hn Hnd].
    destruct (decide (r = r')) as [-> |Hne]; simpl; [by constructor|]. constructor; [|by apply IH].
    clear IH. induction groups as [|[r2 ms2] groups IHg]; simpl in *.
    + by rewrite list_elem_of_singleton.
    + rewrite NoDup_cons in Hnd. rewrite not_elem_of_cons in Hn.
      destruct (decide (r = r2)); simpl; rewrite not_elem_of_cons; [naive_solver|].
      split; [naive_solver|]. apply IHg; naive_solver.
  - intros r0 ms0 Hin. revert Hin. clear Hnd. revert Hms.
    induction groups as [|[r' ms] groups IH]; simpl; intros Hms Hin.
    + apply list_elem_of_singleton in Hin. injection Hin as -> ->. split; [done|].
      intros x ->%list_elem_of_singleton. done.
    + destruct (decide (r = r')) as [-> |Hne].
      * simpl in Hin. apply elem_of_cons in Hin as [E|Hin]; [|apply Hms; by right].
        injection E as -> ->. split; [by destruct ms|].
        intros x [Hx| ->%list_elem_of_singleton]%elem_of_app; [|done].
        by apply (Hms r' ms ltac:(left)).
      * apply elem_of_cons in Hin as [E|Hin]; [injection E as -> ->; apply Hms; left|].
        apply IH; [intros; apply Hms; by right|done].
Qed.

Lemma add_members_ok n p keys groups : groups_ok n p groups →
  (∀ k, k ∈ keys → ∃ r, root n p k = Ok r) →
  ∃ groups', fold_res (add_member n p) keys groups = Ok groups' ∧ groups_ok n p groups' ∧
    mjoin groups'.*2 ≡ₚ mjoin groups.*2 ++ keys.
Proof.
  revert groups; induction keys as [|k keys IH]; intros groups Hg Hk; simpl.
  { exists groups. by rewrite app_nil_r. }
  destruct (Hk k ltac:(left)) as [r Hr]. 
  assert (add_member n p groups k = Ok (od_set r (default [] (od_get r groups) ++ [k]) groups)) as ->
    by (unfold add_member; by rewrite Hr). simpl.
  destruct (IH _ (od_set_groups n p groups r k Hg Hr)) as (g' & -> & Hg' & Hp);
    [intros; apply Hk; by right|].
  exists g'. split; [done|]. split; [done|]. by rewrite Hp, od_set_perm, <- app_assoc.
Qed.

(** The keys of the open records are distinct. *)
Definition pools_ok (b : Block) : Prop := ∀ s, NoDup (pool b s).*1.

Lemma NoDup_keys_of b : pools_ok b → NoDup (keys_of b).
Proof.
  intros Hb. unfold keys_of. apply NoDup_app. split; [|split].
  - apply NoDup_fmap_2; [|apply Hb]. by intros x y [= ->].
  - intros [s k] (? & [= -> ->] & _)%list_elem_of_fmap (? & [= ] & _)%list_elem_of_fmap.
  - apply NoDup_fmap_2; [|apply Hb]. by intros x y [= ->].
Qed.

Lemma pair_keys_in b e : e ∈ (pool b LEFT ≫= λ l, pair l <$> pool b RIGHT) →
  (pair_keys e).1 ∈ keys_of b ∧ (pair_keys e).2 ∈ keys_of b.
Proof.
  intros (l & Hl & Hin)%list_elem_of_bind. apply list_elem_of_fmap in Hl as (r & -> & Hr).
  unfold keys_of, pair_keys. rewrite !elem_of_app. split.
  - left. by apply (list_elem_of_fmap_2 (pair LEFT)), (list_elem_of_fmap_2 fst).
  - right. by apply (list_elem_of_fmap_2 (pair RIGHT)), (list_elem_of_fmap_2 fst).
Qed.

Lemma components_at_ok b : pools_ok b → ∃ comps, components_at cfg (length (keys_of b)) b = Ok comps ∧
  mjoin comps ≡ₚ keys_of b ∧
  (∀ c, c ∈ comps → c ≠ []) ∧
  (∀ c k k', c ∈ comps → k ∈ c → k' ∈ keys_of b → k' ∈ c ↔ rtsc (edge b) k k').
Proof.
  intros Hb. pose proof (NoDup_keys_of b Hb) as Hnd. unfold components_at.
  destruct (link_pairs_ok _ _ (pool b LEFT ≫= λ l, pair l <$> pool b RIGHT) [] _
    (initial_forest (keys_of b) Hnd)) as (p & -> & [Hf Hd Hn Hs]).
  { intros e He. rewrite !elem_of_list_to_set. by apply pair_keys_in. }
  simpl. set (n := length (keys_of b)) in *.
  assert (sorted (map_to_list p).*1 ≡ₚ keys_of b) as Hsorted.
  { unfold sorted. rewrite sorted_by_perm. apply NoDup_Permutation; [apply NoDup_fst_map_to_list|done|].
    intros k. transitivity (k ∈ dom p); [|by rewrite Hd, elem_of_list_to_set].
    rewrite elem_of_dom, list_elem_of_fmap.
    split; [intros ([? v] & -> & ?%elem_of_map_to_list); by exists v|].
    intros [v ?]. exists (k, v). by rewrite elem_of_map_to_list. }
  assert (∀ k, k ∈ keys_of b → ∃ r, root n p k = Ok r) as Hroots.
  { intros k Hk. destruct (forest_root p k Hf) as (r & Hr & _); [by rewrite Hd, elem_of_list_to_set|].
    rewrite Hn in Hr. eauto. }
  destruct (add_members_ok n p (sorted (map_to_list p).*1) [])
    as (g & -> & [Hgnd Hg] & Hgp); [by split; [constructor|intros ? ? ?%not_elem_of_nil]| |].
  { intros k Hk. apply Hroots. by rewrite <- Hsorted. }
  simpl. eexists. split; [done|]. simpl in Hgp.
  assert (sorted g.*2 ≡ₚ g.*2) as Hsg by (unfold sorted; apply sorted_by_perm).
  assert (∀ c, c ∈ sorted g.*2 → ∃ r, (r, c) ∈ g) as Hc.
  { intros c Hc. rewrite Hsg in Hc. apply list_elem_of_fmap in Hc as ([r ms] & -> & ?). eauto. }
  assert (mjoin (sorted g.*2) ≡ₚ keys_of b) as Hperm by by rewrite Hsg, Hgp.
  split; [done|]. split.
  - intros c (r & Hin)%Hc. by apply (Hg r c).
  - intros c k k' Hcin Hk Hk'. destruct (Hc c Hcin) as (r & Hin).
    pose proof (proj2 (Hg r c Hin) k Hk) as Hr.
    assert (k ∈ keys_of b) as Hkk by (rewrite <- Hperm; apply list_elem_of_join; eauto).
    rewrite <- Hs by (by apply elem_of_list_to_set). unfold same_root. split.
    + intros Hk'c. exists r. split; [done|]. by apply (Hg r c Hin).
    + intros (r' & Hr1 & Hr2). assert (r' = r) as -> by congruence.
      rewrite <- Hperm in Hk'. apply list_elem_of_join in Hk' as (c' & Hk'c & Hc'in).
      destruct (Hc c' Hc'in) as (r2 & Hin2). pose proof (proj2 (Hg r2 c' Hin2) k' Hk'c) as Hr3.
      assert (r2 = r) as -> by congruence.
      assert ((r, c') = (r, c)) as [= ->]; [|done].
      by apply (NoDup_fmap_inj fst g _ _ Hgnd Hin2 Hin).
Qed.

(** More depth never changes an answer. *)
Lemma link_pair_mono n n' p e p' : (n <= n')%nat → link_pair cfg n p e = Ok p' →
  link_pair cfg n' p e = Ok p'.
Proof.
  intros Hn. destruct e as [[li l] [ri r]]. unfold link_pair. destruct (linked cfg l r); [|done].
  intros H. apply bind_Ok in H as (rl & Hl & H). apply bind_Ok in H as (rr & Hr & H).
  by rewrite (root_mono _ _ _ _ _ Hn Hl), (root_mono _ _ _ _ _ Hn Hr).
Qed.
Lemma add_member_mono n n' p gs k gs' : (n <= n')%nat → add_member n p gs k = Ok gs' →
  add_member n' p gs k = Ok gs'.
Proof.
  intros Hn H. unfold add_member in *. apply bind_Ok in H as (r & Hr & H).
  by rewrite (root_mono _ _ _ _ _ Hn Hr).
Qed.
Lemma components_at_mono n n' b comps : (n <= n')%nat → components_at cfg n b = Ok comps →
  components_at cfg n' b = Ok comps.
Proof.
  intros Hn H. unfold components_at in *. apply bind_Ok in H as (p & Hp & H).
  apply bind_Ok in H as (g & Hg & H).
  rewrite (fold_res_sub _ _ _ _ _ (λ s x s', link_pair_mono n n' s x s' Hn) Hp). cbn [mbind res_bind].
  by rewrite (fold_res_sub _ _ _ _ _ (λ s x s', add_member_mono n n' p s x s' Hn) Hg).
Qed.

(** Whatever depth an answer took, it is the connected components. *)
Lemma _components_inv b comps : pools_ok b → _components cfg b = Ok comps →
  mjoin comps ≡ₚ keys_of b ∧ (∀ c, c ∈ comps → c ≠ []) ∧
  (∀ c k k', c ∈ comps → k ∈ c → k' ∈ keys_of b → k' ∈ c ↔ rtsc (edge b) k k').
Proof.
  intros Hb H. destruct (components_at_ok b Hb) as (comps' & E & H').
  apply (components_at_mono _ (s_depth cfg + length (keys_of b))) in E; [|lia].
  apply (components_at_mono _ (s_depth cfg + length (keys_of b))) in H; [|lia].
  rewrite H in E. by injection E as ->.
Qed.
Lemma _components_ok b : pools_ok b → (length (keys_of b) <= s_depth cfg)%nat →
  ∃ comps, _components cfg b = Ok comps ∧ mjoin comps ≡ₚ keys_of b ∧ (∀ c, c ∈ comps → c ≠ []) ∧
  (∀ c k k', c ∈ comps → k ∈ c → k' ∈ keys_of b → k' ∈ c ↔ rtsc (edge b) k k').
Proof.
  intros Hb Hn. destruct (components_at_ok b Hb) as (comps & E & H'). exists comps.
  split; [by eapply components_at_mono|done].
Qed.
End components.

(** ** Lemmas: the history of decisions *)

Section history.
Context (cfg : Settings).

(** The decisions of one business key, in order. *)
Definition chain (key : BusinessKey) (ds : list SDecision) : list SDecision :=
  List.filter (λ d, bool_decide (business_key d = key)) ds.

(** The history of one key: numbered from 1, each decision replacing the one
    before, none after a FINAL one. *)
Definition chain_ok (ds : list SDecision) : Prop :=
  ∀ n d, ds !! n = Some d →
    chain_version d = Z.of_nat n + 1 ∧
    supersedes d = match n with O => None | S m => decision_id <$> ds !! m end ∧
    (status d = FINAL → S n = length ds) ∧ status d ≠ SUPERSEDED.

Definition history_ok (st : State) : Prop :=
  ∀ key, current st !! key = last (chain key (s_decisions st)) ∧ chain_ok (chain key (s_decisions st)).

Definition not_final (st : State) (key : BusinessKey) : Prop :=
  ∀ d, current st !! key = Some d → status d = PROVISIONAL.

(** What the methods do to the history: emit decisions on keys that are not
    final, or change only the other attributes. *)
Inductive step : State → State → Prop :=
| step_emit st key p s f : not_final st key → s ≠ SUPERSEDED → step st (_emit cfg st key p s f)
| step_frame st st' : s_decisions st' = s_decisions st → current st' = current st →
    position st <= position st' → step st st'.

Lemma chain_app key ds ds' : chain key (ds ++ ds') = chain key ds ++ chain key ds'.
Proof. apply List.filter_app. Qed.

Lemma chain_ok_snoc ds d : chain_ok ds →
  (∀ p, last ds = Some p → status p ≠ FINAL) →
  chain_version d = Z.of_nat (length ds) + 1 → supersedes d = decision_id <$> last ds →
  status d ≠ SUPERSEDED → chain_ok (ds ++ [d]).
Proof.
  intros Hds Hlast Hv Hs Hst n x Hx. rewrite lookup_app in Hx. rewrite length_app. simpl.
  destruct (ds !! n) as [y|] eqn:En.
  - injection Hx as <-. destruct (Hds n y En) as (H1 & H2 & H3 & H4). split; [done|].
    split; [|split; [|done]].
    + destruct n as [|n]; [done|]. rewrite lookup_app_l; [done|].
      apply lookup_lt_Some in En. lia.
    + intros Hf. exfalso. specialize (H3 Hf). apply (Hlast y); [|done].
      rewrite last_lookup, <- H3. done.
  - apply list_lookup_singleton_Some in Hx as [Hn <-]. apply lookup_ge_None in En.
    assert (n = length ds) as -> by lia. split; [done|]. split; [|split; [lia|done]].
    rewrite Hs, last_lookup. destruct ds as [|x ds]; [done|]. simpl length. cbn [Nat.pred].
    rewrite lookup_app_l by (simpl; lia). done.
Qed.

Lemma chain_version_length ds : chain_ok ds → ∀ p, last ds = Some p →
  chain_version p = Z.of_nat (length ds).
Proof.
  intros Hds p Hp. rewrite last_lookup in Hp. destruct (Hds _ _ Hp) as [-> _].
  destruct ds; [done|]. simpl. lia.
Qed.

Lemma step_history st st' : step st st' → history_ok st → history_ok st'.
Proof.
  intros [st1 key p s f Hnf Hs|st1 st2 E1 E2 _] H; [|intros k; unfold history_ok in H; by rewrite E1, E2].
  intros k. unfold _emit. cbn [current s_decisions]. rewrite chain_app.
  unfold chain at 2 4. cbn [List.filter business_key].
  destruct (H k) as [Hc Hok]. case_bool_decide as Ek.
  - subst k. rewrite lookup_insert_eq, last_snoc. split; [done|]. apply chain_ok_snoc; [done| | | |done].
    + intros q Hq Hf. rewrite <- Hc in Hq. apply Hnf in Hq. congruence.
    + cbn [chain_version]. rewrite Hc. destruct (last (chain key (s_decisions st1))) as [q|] eqn:El.
      * by rewrite (chain_version_length _ Hok q El).
      * apply last_None in El. by rewrite El.
    + cbn [supersedes]. by rewrite Hc.
  - rewrite lookup_insert_ne by done. by rewrite app_nil_r.
Qed.

Lemma steps_history st st' : rtc step st st' → history_ok st → history_ok st'.
Proof. induction 1 as [|x y z Hxy _ IH]; [done|]. intros H. by apply IH, (step_history x). Qed.

Lemma history_current_key st key d : history_ok st → current st !! key = Some d → business_key d = key.
Proof.
  intros H Hc. destruct (H key) as [E _]. rewrite E in Hc. apply last_Some_elem_of in Hc.
  apply elem_of_filter_bool in Hc as [_ Hk]. by apply bool_decide_eq_true_1 in Hk.
Qed.

(** The history only grows, and positions do not go back. *)
Lemma steps_append st st' : rtc step st st' →
  ∃ new, s_decisions st' = s_decisions st ++ new.
Proof.
  induction 1 as [x|x y z Hxy _ (new & IH)]; [exists []; by rewrite app_nil_r|].
  destruct Hxy as [x key p s f|x y E].
  - cbn [s_decisions _emit] in IH. eexists. rewrite IH, <- app_assoc. done.
  - exists new. by rewrite IH, E.
Qed.

(** A decision carries the position of the entry it was made at. *)
Definition positions_ok (st : State) : Prop :=
  ∀ d, d ∈ s_decisions st → 0 <= decided_at d <= position st ∧
    (final_at d = if decide (status d = FINAL) then Some (decided_at d) else None).
End history.

(** ** Lemmas: evaluation and settling do what they should, and never raise *)

Section totality.
Context (cfg : Settings).

(** Every open record is known, under its own identifier and in its own block, and
    [root] has the depth for all of them in one chain. *)
Record blk_wf (known : gmap BusinessKey Rec) (k : list string) (b : Block) : Prop := {
  wf_pools : pools_ok b;
  wf_entry s e : e ∈ pool b s → rid e.2 = e.1 ∧ known !! (s, e.1) = Some e.2 ∧ blocking_key e.2 = k;
  wf_depth : (length (keys_of b) <= s_depth cfg)%nat
}.

(** The open records of a block have a provisional decision. *)
Definition live (st : State) (b : Block) : Prop :=
  ∀ key, key ∈ keys_of b → ∃ d, current st !! key = Some d ∧ status d = PROVISIONAL.

(** What a method that works on the keys [K] may change. *)
Record touch (K : list BusinessKey) (st st' : State) : Prop := {
  t_steps : rtc (step cfg) st st';
  t_seen : seen st' = seen st;
  t_duplicates : s_duplicates st' = s_duplicates st;
  t_progress : progress st' = progress st;
  t_blocks : blocks st' = blocks st;
  t_position : position st' = position st;
  t_current key : key ∉ K → current st' !! key = current st !! key
}.

Lemma touch_refl K st : touch K st st.
Proof. by split. Qed.
Lemma touch_trans K st1 st2 st3 : touch K st1 st2 → touch K st2 st3 → touch K st1 st3.
Proof.
  intros [? ? ? ? ? ? H1] [? ? ? ? ? ? H2]. split; try congruence; [by etrans|].
  intros key Hk. by rewrite H2, H1.
Qed.
Lemma touch_weaken K K' st st' : (∀ k, k ∈ K → k ∈ K') → touch K st st' → touch K' st st'.
Proof. intros H [? ? ? ? ? ? Hc]. split; try done. intros key Hk. apply Hc. naive_solver. Qed.

Lemma touch_emit st key p s f : not_final st key → s ≠ SUPERSEDED →
  touch [key] st (_emit cfg st key p s f).
Proof.
  intros Hnf Hs. split; try done; [by apply rtc_once, step_emit|].
  intros k Hk. unfold _emit. cbn [current]. rewrite lookup_insert_ne; [done|].
  intros ->. apply Hk. left.
Qed.

Lemma keys_of_elem b s id : (s, id) ∈ keys_of b ↔ id ∈ (pool b s).*1.
Proof.
  unfold keys_of. rewrite elem_of_app, (list_elem_of_fmap (pair LEFT)), (list_elem_of_fmap (pair RIGHT)). split.
  - intros [(x & [= -> ->] & ?)|(x & [= -> ->] & ?)]; done.
  - intros H. destruct s; [left|right]; eauto.
Qed.

Lemma live_not_final st b key : live st b → key ∈ keys_of b → not_final st key.
Proof. intros H Hk d Hd. destruct (H key Hk) as (d' & Hd' & ?). congruence. Qed.

(** *** Evaluation *)

Lemma pool_get known k b s id : blk_wf known k b → id ∈ (pool b s).*1 →
  ∃ r, od_get id (pool b s) = Some r ∧ rid r = id.
Proof.
  intros Hwf Hid. destruct (od_get_Some id (pool b s) Hid) as [r Hr].
  exists r. split; [done|]. by apply (wf_entry _ _ _ Hwf s (id, r)), od_get_elem.
Qed.

Lemma pool_rids known k b s : blk_wf known k b → rid <$> (pool b s).*2 = (pool b s).*1.
Proof.
  intros Hwf. rewrite <- list_fmap_compose. apply list_fmap_ext. intros i e He.
  apply (wf_entry _ _ _ Hwf s e). by eapply list_elem_of_lookup_2.
Qed.

Lemma pool_rid_in known k b s r : blk_wf known k b → r ∈ (pool b s).*2 → rid r ∈ (pool b s).*1.
Proof. intros Hwf Hr. rewrite <- (pool_rids known k) by done. by apply list_elem_of_fmap_2. Qed.

Lemma pool_NoDup known k b s : blk_wf known k b → NoDup (rid <$> (pool b s).*2).
Proof. intros Hwf. rewrite (pool_rids known k) by done. apply Hwf. Qed.

Lemma gets_ok known k b s ids : blk_wf known k b → (∀ x, x ∈ ids → x ∈ (pool b s).*1) →
  ∃ rs, map_res (λ r, get (od_get r (pool b s)) KeyError) ids = Ok rs.
Proof.
  intros Hwf Hids. apply map_res_total. intros x Hx.
  destruct (pool_get known k b s x Hwf (Hids x Hx)) as (r & -> & _). by exists r.
Qed.

Definition match_in (b : Block) (m : Match) : Prop :=
  left_id m ∈ (pool b LEFT).*1 ∧ ∀ x, x ∈ right_ids m → x ∈ (pool b RIGHT).*1.
Definition reject_in (b : Block) (j : Reject) : Prop :=
  rej_left j ∈ (pool b LEFT).*1 ∧ ∀ x, rej_right j = Some x → x ∈ (pool b RIGHT).*1.

Lemma propose_match_ok known k b m ps : blk_wf known k b → match_in b m →
  (∀ key, key ∈ dom ps → key ∈ keys_of b) →
  ∃ ps', propose_match cfg (pool b LEFT) (pool b RIGHT) ps m = Ok ps' ∧
    ∀ key, key ∈ dom ps' → key ∈ keys_of b.
Proof.
  intros Hwf [Hl Hr] Hps. unfold propose_match.
  destruct (pool_get _ _ _ _ _ Hwf Hl) as (l & -> & _). simpl.
  destruct (gets_ok _ _ _ RIGHT _ Hwf Hr) as [rs ->]. simpl. eexists. split; [done|].
  apply foldl_inv.
  - intros key. rewrite dom_insert_L, elem_of_union, elem_of_singleton.
    intros [-> |]; [by apply keys_of_elem|auto].
  - intros ps0 x Hx H0 key. rewrite dom_insert_L, elem_of_union, elem_of_singleton.
    intros [-> |]; [|auto]. by apply keys_of_elem, Hr.
Qed.

Lemma propose_matches_ok known k b ms ps : blk_wf known k b → Forall (match_in b) ms →
  (∀ key, key ∈ dom ps → key ∈ keys_of b) →
  ∃ ps', fold_res (propose_match cfg (pool b LEFT) (pool b RIGHT)) ms ps = Ok ps' ∧
    ∀ key, key ∈ dom ps' → key ∈ keys_of b.
Proof.
  intros Hwf Hms. revert ps. induction Hms as [|m ms Hm Hms IH]; intros ps Hps; simpl; [eauto|].
  destruct (propose_match_ok _ _ _ _ _ Hwf Hm Hps) as (ps1 & -> & H1). by apply IH.
Qed.

Lemma collect_reasons_ok known k b js rs : blk_wf known k b → Forall (reject_in b) js →
  ∃ rs', fold_res (collect_reason cfg (pool b LEFT) (pool b RIGHT)) js rs = Ok rs'.
Proof.
  intros Hwf Hjs. apply fold_res_total. intros s j Hj. rewrite Forall_forall in Hjs.
  destruct (Hjs j Hj) as [Hl Hr]. unfold collect_reason.
  destruct (rej_right j) as [x|]; [|eauto].
  destruct (pool_get _ _ _ _ _ Hwf Hl) as (l & -> & _). simpl.
  destruct (pool_get _ _ _ RIGHT x Hwf (Hr x eq_refl)) as (r & -> & _). simpl.
  destruct (_ <=? _); eauto.
Qed.

Lemma open_records_keys b : (open_records b).*1 = keys_of b.
Proof.
  unfold open_records, keys_of. rewrite fmap_app. f_equal; rewrite <- !list_fmap_compose; done.
Qed.

Lemma propose_breaks_dom reasons entries ps :
  dom (foldl (propose_break cfg reasons) ps entries) = dom ps ∪ list_to_set entries.*1.
Proof.
  revert ps; induction entries as [|[key r] entries IH]; intros ps; simpl; [set_solver|].
  rewrite IH. destruct (ps !! key) as [p|] eqn:E.
  - apply elem_of_dom_2 in E. set_solver.
  - rewrite dom_insert_L. set_solver.
Qed.

(** The proposals are total and concern the open records exactly. *)
Lemma proposals_of_ok known k b : blk_wf known k b →
  Z.of_nat (length (pool b RIGHT)) <= 10 ^ 20 →
  ∃ ps, proposals_of cfg b = Ok ps ∧ dom ps = list_to_set (keys_of b).
Proof.
  intros Hwf Hlen. unfold proposals_of.
  destruct (reconcile_runs (pool b LEFT).*2 (pool b RIGHT).*2 (Some (tol cfg))) as [R HR];
    [by rewrite length_fmap|].
  rewrite HR. simpl. pose proof (pool_NoDup _ _ _ RIGHT Hwf) as Hnd.
  assert (Forall (match_in b) (matches R)) as Hms.
  { apply Forall_forall. intros m Hm.
    destruct (match_admitted _ _ _ _ m Hnd HR Hm) as (l & Hl & E & Ha). split.
    - rewrite E. by eapply pool_rid_in.
    - intros x Hx. destruct (admits_right _ _ _ _ _ Ha Hx) as (r & Hr & <-).
      apply elem_of_counterparts in Hr as [Hr _]. by eapply pool_rid_in. }
  assert (Forall (reject_in b) (rejects R)) as Hjs.
  { apply Forall_forall. intros j Hj.
    destruct (reject_records _ _ _ _ j Hnd HR Hj) as ((l & Hl & E) & Hr). split.
    - rewrite <- E. by eapply pool_rid_in.
    - intros x Hx. destruct (Hr x Hx) as (r & Hrin & <-). by eapply pool_rid_in. }
  destruct (propose_matches_ok _ _ _ _ ∅ Hwf Hms) as (ps & -> & Hps); [set_solver|]. simpl.
  destruct (collect_reasons_ok _ _ _ _ ∅ Hwf Hjs) as (rs & ->). simpl.
  eexists. split; [done|]. rewrite propose_breaks_dom, open_records_keys.
  apply set_eq. intros key. rewrite elem_of_union, elem_of_list_to_set. naive_solver.
Qed.

Lemma emit_changed_ok ps st key p : ps !! key = Some p → not_final st key →
  ∃ st', emit_changed cfg ps st key = Ok st' ∧ touch [key] st st' ∧
    ∃ d, current st' !! key = Some d ∧ status d = PROVISIONAL.
Proof.
  intros Hp Hnf. unfold emit_changed. rewrite Hp. simpl.
  assert (∃ st', Ok (_emit cfg st key p PROVISIONAL false) = Ok st' ∧ touch [key] st st' ∧
    ∃ d, current st' !! key = Some d ∧ status d = PROVISIONAL) as Hemit.
  { eexists. split; [done|]. split; [by apply touch_emit|].
    unfold _emit. cbn [current]. rewrite lookup_insert_eq. eexists. by split. }
  destruct (current st !! key) as [d|] eqn:Ec; [|done].
  case_bool_decide; [|done]. exists st. split; [done|]. split; [apply touch_refl|].
  exists d. split; [done|]. by apply Hnf.
Qed.

Lemma emit_all_ok ps keys st : (∀ k, k ∈ keys → is_Some (ps !! k)) →
  (∀ k, k ∈ keys → not_final st k) →
  ∃ st', fold_res (emit_changed cfg ps) keys st = Ok st' ∧ touch keys st st' ∧
    ∀ k, k ∈ keys → ∃ d, current st' !! k = Some d ∧ status d = PROVISIONAL.
Proof.
  revert st; induction keys as [|k keys IH]; intros st Hps Hnf; simpl.
  { exists st. split; [done|]. split; [apply touch_refl|]. by intros k ?%not_elem_of_nil. }
  destruct (Hps k ltac:(left)) as [p Hp].
  destruct (emit_changed_ok ps st k p Hp (Hnf k ltac:(left))) as (st1 & -> & Ht1 & d & Hd & Hs). simpl.
  assert (not_final st1 k) as Hk1 by (intros d' ?; congruence).
  destruct (IH st1) as (st' & -> & Ht & Hcur).
  - intros; apply Hps; by right.
  - intros k' Hk'. destruct (decide (k' = k)) as [-> |Hne]; [done|].
    intros d' Hd'. rewrite (t_current _ _ _ Ht1) in Hd' by (by rewrite list_elem_of_singleton).
    by apply (Hnf k' ltac:(by right)).
  - exists st'. split; [done|]. split.
    + eapply touch_trans; (eapply touch_weaken; [|done]); [|by right].
      intros x ->%list_elem_of_singleton. left.
    + intros k' [-> |Hk']%elem_of_cons; [|by apply Hcur].
      destruct (decide (k ∈ keys)) as [Hin|Hout]; [by apply Hcur|].
      rewrite (t_current _ _ _ Ht) by done. eauto.
Qed.

Lemma sorted_keys {K A} `{Countable K, Cmp K} (m : gmap K A) k :
  k ∈ sorted (map_to_list m).*1 ↔ k ∈ dom m.
Proof.
  unfold sorted. rewrite elem_of_sorted_by, elem_of_dom, list_elem_of_fmap. split.
  - intros ([? v] & -> & ?%elem_of_map_to_list). by exists v.
  - intros [v ?]. exists (k, v). by rewrite elem_of_map_to_list.
Qed.

Lemma _evaluate_ok known k st b : blk_wf known k b → Z.of_nat (length (pool b RIGHT)) <= 10 ^ 20 →
  (∀ key, key ∈ keys_of b → not_final st key) →
  ∃ st', _evaluate cfg st b = Ok st' ∧ touch (keys_of b) st st' ∧ live st' b.
Proof.
  intros Hwf Hlen Hnf. unfold _evaluate.
  destruct (proposals_of_ok _ _ _ Hwf Hlen) as (ps & -> & Hd). simpl.
  assert (∀ key, key ∈ sorted (map_to_list ps).*1 ↔ key ∈ keys_of b) as Hkeys.
  { intros key. by rewrite sorted_keys, Hd, elem_of_list_to_set. }
  destruct (emit_all_ok ps (sorted (map_to_list ps).*1) st) as (st' & -> & Ht & Hcur).
  - intros key Hk. apply elem_of_dom. by apply sorted_keys in Hk.
  - intros key Hk. apply Hnf. by apply Hkeys.
  - exists st'. split; [done|]. split; [eapply touch_weaken; [|done]; intros; by apply Hkeys|].
    intros key Hk. apply Hcur. by apply Hkeys.
Qed.

(** *** Withdrawing the closed records *)

Lemma finalise_ok known k st b d f : blk_wf known k b →
  business_key d ∈ keys_of b → not_final st (business_key d) →
  ∃ st' b', finalise cfg (st, b) (d, f) = Ok (st', b') ∧ touch [business_key d] st st' ∧
    blk_wf known k b' ∧ length (keys_of b) = S (length (keys_of b')) ∧
    (∀ s, sublist (pool b' s) (pool b s)) ∧
    (∀ key, key ∈ keys_of b' ↔ key ∈ keys_of b ∧ key ≠ business_key d) ∧
    ∃ d', current st' !! business_key d = Some d' ∧ status d' = FINAL.
Proof.
  intros Hwf Hk Hnf. destruct (business_key d) as [s id] eqn:Ek.
  pose proof (proj1 (keys_of_elem b s id) Hk) as Hid.
  destruct (pool_get _ _ _ _ _ Hwf Hid) as (r & Hr & _).
  unfold finalise. rewrite Ek, Hr. simpl. eexists _, _. split; [done|].
  split; [by apply touch_emit|].
  assert (∀ s', pool (mkBlk (set_side (pool b) s (od_del id (pool b s))) (latest b)
    (match reference r with
     | Some s0 => if truthy (reference r)
                  then set_side (final_references b) s ({[s0]} ∪ final_references b s)
                  else final_references b
     | None => final_references b end)) s' = if decide (s' = s) then od_del id (pool b s) else pool b s') as Ep
    by done.
  set (b' := mkBlk _ _ _) in *.
  assert (∀ s', sublist (pool b' s') (pool b s')) as Hsub.
  { intros s'. rewrite Ep. case_decide; [subst; apply od_del_sublist|done]. }
  assert (∀ s', NoDup (pool b' s').*1) as Hnd.
  { intros s'. eapply sublist_NoDup; [apply (wf_pools _ _ _ Hwf s')|]. by apply sublist_fmap. }
  split.
  { split; [done| |].
    - intros s' e He. apply (wf_entry _ _ _ Hwf). by eapply elem_of_sublist.
    - etrans; [|apply (wf_depth _ _ _ Hwf)]. unfold keys_of. rewrite !length_app, !length_fmap.
      apply Nat.add_le_mono; by apply sublist_length. }
  assert (∀ key, key ∈ keys_of b' ↔ key ∈ keys_of b ∧ key ≠ (s, id)) as Hkeys.
  { intros [s' id']. rewrite !keys_of_elem, Ep. case_decide as Es; [subst s'|naive_solver].
    rewrite !list_elem_of_fmap. setoid_rewrite od_del_elem; [|apply (wf_pools _ _ _ Hwf)].
    split.
    - intros (e & -> & He & Hne). split; [eauto|]. intros [= ?]. done.
    - intros [(e & -> & He) Hne]. exists e. split; [done|]. split; [done|]. intros <-. by apply Hne. }
  split; [|split; [done|split; [done|]]].
  - unfold keys_of. rewrite !length_app, !length_fmap, !Ep.
    destruct s; simpl; rewrite (od_del_length id _ Hid); lia.
  - unfold _emit. cbn [current]. rewrite lookup_insert_eq. eexists. by split.
Qed.

(** Decisions to finalise: of distinct open keys, and current. *)
Definition closing_list (st : State) (b : Block) (cs : list (SDecision * bool)) : Prop :=
  NoDup ((λ c : SDecision * bool, business_key c.1) <$> cs) ∧
  ∀ c, c ∈ cs → business_key c.1 ∈ keys_of b.

Lemma finalise_all_ok known k cs st b : blk_wf known k b → live st b → closing_list st b cs →
  ∃ st' b', fold_res (finalise cfg) cs (st, b) = Ok (st', b') ∧ touch (keys_of b) st st' ∧
    blk_wf known k b' ∧ live st' b' ∧
    (length (keys_of b) = length cs + length (keys_of b'))%nat ∧
    (∀ s, sublist (pool b' s) (pool b s)).
Proof.
  revert st b; induction cs as [|[d f] cs IH]; intros st b Hwf Hlive [Hnd Hin].
  { exists st, b. split; [done|]. split; [apply touch_refl|]. done. }
  pose proof (Hin (d, f) ltac:(left)) as Hk. cbn [fst] in Hk.
  destruct (finalise_ok _ _ st b d f Hwf Hk (live_not_final _ _ _ Hlive Hk))
    as (st1 & b1 & Ef & Ht1 & Hwf1 & Hlen1 & Hsub1 & Hkeys1 & _).
  rewrite fmap_cons, NoDup_cons in Hnd. destruct Hnd as [Hd Hnd].
  destruct (IH st1 b1 Hwf1) as (st2 & b2 & E2 & Ht2 & Hwf2 & Hlive2 & Hlen2 & Hsub2).
  - intros key [Hkb Hne]%Hkeys1. rewrite (t_current _ _ _ Ht1); [by apply Hlive|].
    by rewrite list_elem_of_singleton.
  - split; [done|]. intros c Hc. apply Hkeys1. split; [apply Hin; by right|].
    intros E. apply Hd. cbn [fst]. rewrite <- E. by apply (list_elem_of_fmap_2 (λ c : SDecision * bool, business_key c.1)).
  - exists st2, b2. change (fold_res (finalise cfg) ((d, f) :: cs) (st, b)) with
      (finalise cfg (st, b) (d, f) ≫= fold_res (finalise cfg) cs). rewrite Ef. simpl.
    split; [done|]. split; [|split; [done|split; [done|split; [simpl; lia|intros s; etrans; [apply Hsub2|apply Hsub1]]]]].
    eapply touch_trans; (eapply touch_weaken; [|eassumption]).
    + intros x ->%list_elem_of_singleton. done.
    + intros x Hx. by apply Hkeys1.
Qed.

(** *** What closes *)

Lemma max_list_ok l : l ≠ [] → ∃ x, max_list l = Ok x.
Proof. destruct l; [done|]. eexists; done. Qed.
Lemma min_list_ok l : l ≠ [] → ∃ x, min_list l = Ok x.
Proof. destruct l; [done|]. eexists; done. Qed.

Lemma close_component_ok known k st b w c : blk_wf known k b → live st b → history_ok st →
  c ≠ [] → (∀ key, key ∈ c → key ∈ keys_of b) →
  ∃ cs, close_component cfg b (current st) w c = Ok cs ∧
    sublist ((λ c : SDecision * bool, business_key c.1) <$> cs) c.
Proof.
  intros Hwf Hlive Hh Hne Hc. unfold close_component.
  destruct (map_res_total (λ k : BusinessKey, get (od_get k.2 (pool b k.1)) KeyError) c) as [rs Hrs].
  { intros [s id] Hk%Hc%keys_of_elem. destruct (pool_get _ _ _ _ _ Hwf Hk) as (r & E & _). cbn [fst snd]. rewrite E. by exists r. }
  rewrite Hrs. simpl.
  destruct (map_res_total (λ k : BusinessKey, get (current st !! k) KeyError) c) as [ds Hds].
  { intros key Hk. destruct (Hlive key (Hc key Hk)) as (d & -> & _). eauto. }
  rewrite Hds. simpl. apply map_res_Forall2 in Hrs, Hds.
  assert (business_key <$> ds = c) as Ebk.
  { clear Hrs Hne Hc. induction Hds as [|key d c ds Hd Hds IH]; [done|]. rewrite fmap_cons, IH.
    f_equal. apply get_Ok in Hd. by eapply history_current_key. }
  assert (rs ≠ []) as Hrn by (intros ->; by inversion Hrs; subst).
  destruct (max_list_ok (_horizon cfg <$> rs)) as [last ->]; [by destruct rs|]. simpl.
  assert (∀ f ds', (λ c : SDecision * bool, business_key c.1) <$> ((λ d, (d, f)) <$> ds') =
    business_key <$> ds') as Efl by (intros; by rewrite <- list_fmap_compose).
  destruct (last <? w).
  { eexists. split; [done|]. by rewrite Efl, Ebk. }
  destruct (s_max_component_days cfg) as [m|]; [|eexists; split; [done|apply sublist_nil_l]].
  destruct (max_list_ok (value_date <$> rs)) as [hi ->]; [by destruct rs|]. simpl.
  destruct (min_list_ok (value_date <$> rs)) as [lo ->]; [by destruct rs|]. simpl.
  destruct (m <? hi - lo); eexists; (split; [done|]); [|apply sublist_nil_l].
  rewrite Efl, <- Ebk. apply sublist_fmap, sublist_filter_bool_sub.
Qed.

Lemma close_components_ok known k st b w comps : blk_wf known k b → live st b → history_ok st →
  (∀ c, c ∈ comps → c ≠ []) → (∀ key, key ∈ mjoin comps → key ∈ keys_of b) →
  ∃ cs, concat_res (close_component cfg b (current st) w) comps = Ok cs ∧
    sublist ((λ c : SDecision * bool, business_key c.1) <$> cs) (mjoin comps).
Proof.
  intros Hwf Hlive Hh. induction comps as [|c comps IH]; intros Hne Hc.
  { exists []. split; [done|constructor]. }
  rewrite concat_res_cons.
  destruct (close_component_ok _ _ st b w c Hwf Hlive Hh) as (cs & -> & Hs); [apply Hne; left| |].
  { intros key Hk. apply Hc. simpl. apply elem_of_app. by left. }
  destruct IH as (cs' & -> & Hs').
  - intros; apply Hne; by right.
  - intros key Hk. apply Hc. simpl. apply elem_of_app. by right.
  - simpl. eexists. split; [done|]. rewrite fmap_app. by apply sublist_app.
Qed.

Lemma _closing_ok known k st b : blk_wf known k b → live st b → history_ok st →
  ∃ cs, _closing cfg st b = Ok cs ∧ closing_list st b cs.
Proof.
  intros Hwf Hlive Hh. unfold _closing. destruct (_watermark cfg (progress st) b) as [w|].
  2:{ exists []. split; [done|]. split; [constructor|]. by intros c ?%not_elem_of_nil. }
  destruct (_components_ok cfg b (wf_pools _ _ _ Hwf) (wf_depth _ _ _ Hwf)) as (comps & -> & Hperm & Hne & _). simpl.
  destruct (close_components_ok _ _ st b w comps Hwf Hlive Hh Hne) as (cs & -> & Hs).
  { intros key. by rewrite Hperm. }
  exists cs. split; [done|]. split.
  - eapply sublist_NoDup; [|exact Hs]. rewrite Hperm. apply NoDup_keys_of, Hwf.
  - intros c Hc. rewrite <- Hperm. eapply elem_of_sublist; [|exact Hs].
    by apply (list_elem_of_fmap_2 (λ c : SDecision * bool, business_key c.1)).
Qed.

(** *** Settling terminates *)

Lemma settle_loop_ok known k fuel st b : blk_wf known k b → live st b → history_ok st →
  (length (keys_of b) <= fuel)%nat → Z.of_nat (length (pool b RIGHT)) <= 10 ^ 20 →
  ∃ st' b', settle_loop cfg fuel st b = Ok (st', b') ∧ touch (keys_of b) st st' ∧
    blk_wf known k b' ∧ live st' b' ∧ (∀ s, sublist (pool b' s) (pool b s)) ∧
    _closing cfg st' b' = Ok [].
Proof.
  revert st b; induction fuel as [|fuel IH]; intros st b Hwf Hlive Hh Hf Hlen;
    destruct (_closing_ok _ _ st b Hwf Hlive Hh) as (cs & Ecs & Hcs); simpl; rewrite Ecs; simpl.
  - destruct Hcs as [_ Hin]. destruct cs as [|c cs]; [exists st, b; split_and!; auto using touch_refl|].
    pose proof (Hin c ltac:(left)) as Hc. destruct (keys_of b); [by apply not_elem_of_nil in Hc|].
    simpl in Hf. lia.
  - destruct (finalise_all_ok _ _ cs st b Hwf Hlive Hcs)
      as (st1 & b1 & E1 & Ht1 & Hwf1 & Hlive1 & Hlen1 & Hsub1).
    destruct cs as [|c cs]; [exists st, b; split_and!; auto using touch_refl|].
    rewrite E1. simpl in Hlen1. cbn [mbind res_bind].
    assert (Z.of_nat (length (pool b1 RIGHT)) <= 10 ^ 20) as Hlenr.
    { pose proof (sublist_length _ _ (Hsub1 RIGHT)). lia. }
    assert (∀ x, x ∈ keys_of b1 → x ∈ keys_of b) as Hincl.
    { intros [s id]. rewrite !keys_of_elem. intros Hx. eapply elem_of_sublist; [exact Hx|].
      apply sublist_fmap, Hsub1. }
    assert (∃ st2, match keys_of b1 with [] => Ok st1 | _ => _evaluate cfg st1 b1 end = Ok st2 ∧
      touch (keys_of b1) st1 st2 ∧ live st2 b1) as (st2 & E2 & Ht2 & Hlive2).
    { destruct (_evaluate_ok _ _ st1 b1 Hwf1 Hlenr) as (st2 & E2 & ?).
      - intros key Hk. by apply (live_not_final st1 b1).
      - destruct (keys_of b1) eqn:Ek; [|by eauto].
        exists st1. split; [done|]. split; [apply touch_refl|]. intros key. rewrite Ek.
        by intros ?%not_elem_of_nil. }
    rewrite E2. cbn [mbind res_bind].
    assert (history_ok st2) as Hh2.
    { eapply steps_history; [apply Ht2|]. eapply steps_history; [apply Ht1|done]. }
    destruct (IH st2 b1 Hwf1 Hlive2 Hh2 ltac:(lia) Hlenr) as (st3 & b3 & E3 & Ht3 & Hwf3 & Hlive3 & Hsub3 & Hcl).
    exists st3, b3. split; [done|]. split; [|split; [done|split; [done|split; [intros s; etrans; [apply Hsub3|apply Hsub1]|done]]]].
    eapply touch_trans; [exact Ht1|]. eapply touch_weaken; [exact Hincl|].
    by eapply touch_trans.
Qed.

(** ** Lemmas: the journal *)

Record Inv (st : State) : Prop := {
  inv_history : history_ok st;
  inv_blocks k b : blocks st !! k = Some b → blk_wf (seen st) k b ∧ live st b;
  inv_known key d : current st !! key = Some d → is_Some (seen st !! key)
}.

Lemma Inv_init : Inv init_state.
Proof. split; [|done|done]. intros key. split; [done|]. by intros [|n] d Hd. Qed.

Lemma blk_wf_known known known' k b : known ⊆ known' → blk_wf known k b → blk_wf known' k b.
Proof.
  intros Hsub [Hp He Hd]. split; [done| |done]. intros s e Hin. destruct (He s e Hin) as (? & ? & ?).
  split; [done|]. split; [|done]. by eapply lookup_weaken.
Qed.

Lemma keys_known known k b key : blk_wf known k b → key ∈ keys_of b →
  ∃ r, known !! key = Some r ∧ blocking_key r = k.
Proof.
  intros Hwf. destruct key as [s id]. rewrite keys_of_elem. intros (e & -> & He)%list_elem_of_fmap.
  destruct (wf_entry _ _ _ Hwf s e He) as (_ & ? & ?). eauto.
Qed.

Lemma right_length known k b : blk_wf known k b →
  Z.of_nat (length (pool b RIGHT)) <= Z.of_nat (size known).
Proof.
  intros Hwf. apply inj_le. transitivity (size (list_to_set (keys_of b) : gset BusinessKey)).
  - rewrite size_list_to_set by (apply NoDup_keys_of, Hwf). unfold keys_of.
    rewrite length_app, !length_fmap. lia.
  - rewrite <- size_dom. apply subseteq_size. intros key. rewrite elem_of_list_to_set.
    intros Hk. destruct (keys_known _ _ _ _ Hwf Hk) as (r & Hr & _). by apply elem_of_dom_2 in Hr.
Qed.

(** Work on one block leaves the open records of the others alone. *)
Lemma touch_other known k k' b b' st st' : k ≠ k' → blk_wf known k b → blk_wf known k' b' →
  touch (keys_of b) st st' → live st b' → live st' b'.
Proof.
  intros Hne Hwf Hwf' Ht Hlive key Hk. rewrite (t_current _ _ _ Ht); [by apply Hlive|].
  intros Hk'. destruct (keys_known _ _ _ _ Hwf' Hk) as (r & Hr & Er).
  destruct (keys_known _ _ _ _ Hwf Hk') as (r' & Hr' & Er'). congruence.
Qed.

(** Writing back a block that was worked on. *)
Lemma put_block_Inv k b b' st st' : Inv st → blk_wf (seen st) k b →
  touch (keys_of b) st st' → blk_wf (seen st) k b' → live st' b' → Inv (put_block st' k b').
Proof.
  intros [Hh Hb Hkn] Hwf Ht Hwf' Hlive. split.
  - unfold put_block, history_ok. cbn [current s_decisions].
    eapply steps_history; [apply Ht|done].
  - unfold put_block. cbn [blocks seen current]. intros k2 b2. rewrite (t_seen _ _ _ Ht).
    destruct (decide (k2 = k)) as [-> |Hne].
    + rewrite lookup_insert_eq. intros [= <-]. split; [done|]. exact Hlive.
    + rewrite lookup_insert_ne, (t_blocks _ _ _ Ht) by done. intros Hk2.
      destruct (Hb k2 b2 Hk2) as [Hwf2 Hl2]. split; [done|].
      change (live st' b2). apply (touch_other (seen st) k k2 b b2 st st'); done.
  - unfold put_block. cbn [current seen]. intros key d Hd. rewrite (t_seen _ _ _ Ht).
    destruct (decide (key ∈ keys_of b)) as [Hin|Hout].
    + destruct (keys_known _ _ _ _ Hwf Hin) as (r & Hr & _). by rewrite Hr.
    + rewrite (t_current _ _ _ Ht) in Hd by done. by apply (Hkn key d).
Qed.

Lemma put_block_step st k b : step cfg st (put_block st k b).
Proof. by apply step_frame. Qed.

Lemma settle_block_ok st k : Inv st → is_Some (blocks st !! k) → Z.of_nat (size (seen st)) <= 10 ^ 20 →
  ∃ st', settle_block cfg st k = Ok st' ∧ Inv st' ∧ rtc (step cfg) st st' ∧
    seen st' = seen st ∧ dom (blocks st') = dom (blocks st) ∧ progress st' = progress st ∧
    s_duplicates st' = s_duplicates st ∧ position st' = position st.
Proof.
  intros Hinv [b Hk] Hsz. destruct (inv_blocks _ Hinv k b Hk) as [Hwf Hlive].
  unfold settle_block. rewrite Hk. simpl. unfold _settle.
  pose proof (right_length _ _ _ Hwf).
  destruct (settle_loop_ok _ _ (length (keys_of b)) st b Hwf Hlive (inv_history _ Hinv))
    as (st1 & b1 & -> & Ht & Hwf1 & Hlive1 & _); [lia|lia|].
  simpl. eexists. split; [done|]. split; [by apply (put_block_Inv k b b1 st)|]. split.
  - eapply rtc_r; [apply Ht|apply put_block_step].
  - unfold put_block. cbn [seen blocks progress s_duplicates position].
    destruct Ht as [_ -> -> -> -> -> _]. split_and!; try done.
    rewrite dom_insert_L. apply elem_of_dom_2 in Hk. set_solver.
Qed.

Lemma settle_blocks_ok keys st : Inv st → (∀ k, k ∈ keys → k ∈ dom (blocks st)) →
  Z.of_nat (size (seen st)) <= 10 ^ 20 →
  ∃ st', fold_res (settle_block cfg) keys st = Ok st' ∧ Inv st' ∧ rtc (step cfg) st st' ∧
    seen st' = seen st ∧ progress st' = progress st ∧ s_duplicates st' = s_duplicates st ∧
    position st' = position st.
Proof.
  revert st; induction keys as [|k keys IH]; intros st Hinv Hk Hsz.
  { exists st. by split_and!. }
  destruct (settle_block_ok st k Hinv) as (st1 & E1 & Hinv1 & Hs1 & Es & Ed & Ep & Eu & Eo); [|done|].
  { apply elem_of_dom, Hk. left. }
  change (fold_res (settle_block cfg) (k :: keys) st) with
    (settle_block cfg st k ≫= fold_res (settle_block cfg) keys). rewrite E1. simpl.
  destruct (IH st1 Hinv1) as (st2 & -> & Hinv2 & Hs2 & Es2 & Ep2 & Eu2 & Eo2).
  - intros k' Hk'. rewrite Ed. apply Hk. by right.
  - by rewrite Es.
  - exists st2. split; [done|]. split; [done|]. split; [by etrans|]. split_and!; congruence.
Qed.

Lemma _progress_ok st s until : Inv st → Z.of_nat (size (seen st)) <= 10 ^ 20 →
  ∃ st', _progress cfg st (side_name s) until = Ok st' ∧ Inv st' ∧ rtc (step cfg) st st' ∧
    seen st' = seen st ∧ progress st' = set_side (progress st) s (later (progress st s) until) ∧
    s_duplicates st' = s_duplicates st ∧ position st' = position st + 1.
Proof.
  intros Hinv Hsz. unfold _progress.
  assert (_check_side (side_name s) = Ok s) as -> by by destruct s. simpl.
  set (st1 := mkState _ _ _ _ _ _ _).
  assert (Inv st1) as Hinv1 by (destruct Hinv as [Hh Hb Hk]; by split).
  destruct (settle_blocks_ok (sorted (map_to_list (blocks st)).*1) st1 Hinv1)
    as (st' & -> & Hinv' & Hsteps & ? & ? & ? & ?); [|done|].
  { intros k Hk. by apply sorted_keys in Hk. }
  exists st'. split; [done|]. split; [done|]. split; [|done].
  eapply rtc_l; [|exact Hsteps]. apply step_frame; [done..|]. simpl. lia.
Qed.

Lemma emit_Inv st key p s f : Inv st → is_Some (seen st !! key) → not_final st key →
  s ≠ SUPERSEDED → (∀ k b, blocks st !! k = Some b → key ∉ keys_of b) →
  Inv (_emit cfg st key p s f).
Proof.
  intros [Hh Hb Hk] Hseen Hnf Hs Hout. pose proof (touch_emit st key p s f Hnf Hs) as Ht. split.
  - eapply steps_history; [apply Ht|done].
  - intros k b Hkb. destruct (Hb k b Hkb) as [Hwf Hl]. split; [done|].
    intros key' Hk'. rewrite (t_current _ _ _ Ht); [by apply Hl|].
    rewrite list_elem_of_singleton. intros ->. by apply (Hout k b).
  - intros key' d Hd. destruct (decide (key' = key)) as [-> |Hne]; [done|].
    rewrite (t_current _ _ _ Ht) in Hd by by rewrite list_elem_of_singleton. by eapply Hk.
Qed.

(** A new record enters its block. *)
Definition entered (b : Block) (s : Side) (r : Rec) : Block :=
  mkBlk (set_side (pool b) s (od_set (rid r) r (pool b s)))
    (set_side (latest b) s (later (latest b s) (value_date r))) (final_references b).

Lemma entered_wf known b s r : blk_wf known (blocking_key r) b → known !! (s, rid r) = None →
  (length (keys_of b) < s_depth cfg)%nat →
  blk_wf (<[(s, rid r) := r]> known) (blocking_key r) (entered b s r) ∧
  (∀ key, key ∈ keys_of (entered b s r) ↔ key ∈ keys_of b ∨ key = (s, rid r)).
Proof.
  intros Hwf Hnew Hroom. assert (rid r ∉ (pool b s).*1) as Hout.
  { intros Hin. apply keys_of_elem in Hin. destruct (keys_known _ _ _ _ Hwf Hin) as (x & ? & _).
    congruence. }
  assert (∀ s', pool (entered b s r) s' = if decide (s' = s) then pool b s ++ [(rid r, r)] else pool b s') as Ep.
  { intros s'. unfold entered, set_side. cbn [pool]. case_decide; [|done]. by apply od_set_new. }
  split; [split|].
  3:{ unfold keys_of. rewrite length_app, !length_fmap, !Ep. unfold keys_of in Hroom.
      rewrite length_app, !length_fmap in Hroom. destruct s; simpl; rewrite length_app; simpl; lia. }
  - intros s'. rewrite Ep. case_decide; [|apply Hwf]. rewrite fmap_app. apply NoDup_app.
    split; [apply Hwf|]. split; [|apply NoDup_singleton]. simpl. intros x Hx.
    rewrite list_elem_of_singleton. by intros ->.
  - intros s' e. rewrite Ep. intros He.
    assert (e ∈ pool b s' ∨ s' = s ∧ e = (rid r, r)) as [Hold|[-> ->]].
    { case_decide; [subst|by left]. apply elem_of_app in He as [?|He%list_elem_of_singleton]; auto. }
    + destruct (wf_entry _ _ _ Hwf s' e Hold) as (? & Hk & ?). split; [done|]. split; [|done].
      rewrite lookup_insert_ne; [done|]. intros E. rewrite <- E in Hk. congruence.
    + by rewrite lookup_insert_eq.
  - intros [s' id]. rewrite !keys_of_elem, Ep. case_decide as Es; [subst s'|naive_solver].
    rewrite fmap_app, elem_of_app. simpl. rewrite list_elem_of_singleton. naive_solver.
Qed.

Lemma Block_empty_wf known k : blk_wf known k Block_empty.
Proof. split; [intros s; constructor| |simpl; lia]. by intros s e ?%not_elem_of_nil. Qed.

(** [root] has the depth for one more open record in the block of [r]. *)
Definition has_room (st : State) (r : Rec) : Prop :=
  (length (keys_of (default Block_empty (blocks st !! blocking_key r))) < s_depth cfg)%nat.

(** The block a new record enters, before it is evaluated. *)
Definition arrival_state st (s : Side) (r : Rec) : State :=
  mkState (<[(s, rid r) := r]> (seen st)) (s_duplicates st) (progress st)
    (<[blocking_key r := default Block_empty (blocks st !! blocking_key r)]> (blocks st))
    (current st) (s_decisions st) (position st + 1).
Lemma arrival_block st s r : Inv st → seen st !! (s, rid r) = None →
  Z.of_nat (size (seen st)) < 10 ^ 20 → has_room st r →
  let block := default Block_empty (blocks st !! blocking_key r) in
  blk_wf (seen (arrival_state st s r)) (blocking_key r) (entered block s r) ∧
  (∀ key, key ∈ keys_of (entered block s r) ↔ key ∈ keys_of block ∨ key = (s, rid r)) ∧
  (∀ key, key ∈ keys_of (entered block s r) → not_final (arrival_state st s r) key) ∧
  Z.of_nat (length (pool (entered block s r) RIGHT)) <= 10 ^ 20.
Proof.
  intros Hinv Es Hsz Hroom block.
  assert (blk_wf (seen st) (blocking_key r) block ∧ live st block) as [Hwf Hl].
  { unfold block. destruct (blocks st !! blocking_key r) as [b|] eqn:Eb; [by apply (inv_blocks _ Hinv)|].
    split; [apply Block_empty_wf|]. by intros key ?%not_elem_of_nil. }
  destruct (entered_wf (seen st) block s r Hwf Es Hroom) as [Hwf1 Hkeys1]. split; [done|]. split; [done|].
  split.
  - intros key [Hin| ->]%Hkeys1; [by apply (live_not_final st block key Hl)|].
    intros d Hd. destruct (inv_known _ Hinv _ _ Hd). congruence.
  - pose proof (right_length _ _ _ Hwf1). rewrite map_size_insert_None in * by done. lia.
Qed.

Lemma _arrival_ok st s r : Inv st → Z.of_nat (size (seen st)) < 10 ^ 20 →
  (∀ known, seen st !! (s, rid r) = Some known → rec_eqb known r = true) →
  (seen st !! (s, rid r) = None → has_room st r) →
  ∃ st', _arrival cfg st (side_name s) r = Ok st' ∧ Inv st' ∧ rtc (step cfg) st st' ∧
    seen st' = (if seen st !! (s, rid r) then seen st else <[(s, rid r) := r]> (seen st)) ∧
    progress st' = progress st ∧
    s_duplicates st' = s_duplicates st + (if seen st !! (s, rid r) then 1 else 0) ∧
    position st' = position st + (if seen st !! (s, rid r) then 0 else 1).
Proof.
  intros Hinv Hsz Hsame Hroom. unfold _arrival.
  assert (_check_side (side_name s) = Ok s) as -> by by destruct s. cbn [mbind res_bind].
  destruct (seen st !! (s, rid r)) as [known|] eqn:Es.
  { rewrite (Hsame known eq_refl).
    eexists. split; [done|]. cbn [seen progress s_duplicates position].
    split; [destruct Hinv; by split|]. split; [apply rtc_once, step_frame; done|].
    split_and!; try done. lia. }
  set (block := default _ _). set (st1 := mkState _ _ _ _ _ _ _).
  assert (blk_wf (seen st) (blocking_key r) block) as Hwf.
  { unfold block. destruct (blocks st !! blocking_key r) as [b|] eqn:Eb;
      [by apply (inv_blocks _ Hinv)|apply Block_empty_wf]. }
  assert (seen st ⊆ seen st1) as Hsub by (by apply insert_subseteq).
  assert (∀ k b, blocks st1 !! k = Some b → blk_wf (seen st) k b ∧ live st b) as Hblocks.
  { intros k b. unfold st1. cbn [blocks]. destruct (decide (k = blocking_key r)) as [-> |Hne].
    - rewrite lookup_insert_eq. intros [= <-]. split; [done|]. unfold block.
      destruct (blocks st !! blocking_key r) as [b|] eqn:Eb; [by apply (inv_blocks _ Hinv) in Eb as []|].
      by intros key ?%not_elem_of_nil.
    - rewrite lookup_insert_ne by done. apply (inv_blocks _ Hinv). }
  assert (Inv st1) as Hinv1.
  { split; [apply (inv_history _ Hinv)| |].
    - intros k b Hk. destruct (Hblocks k b Hk). split; [by eapply blk_wf_known|done].
    - intros key d Hd. destruct (inv_known _ Hinv key d Hd). eexists. by eapply lookup_weaken. }
  assert (step cfg st st1) as Hstep1 by (apply step_frame; [done..|simpl; lia]).
  assert (current st1 !! (s, rid r) = None) as Hcur.
  { destruct (current st1 !! (s, rid r)) as [d|] eqn:E; [|done].
    destruct (inv_known _ Hinv _ _ E). congruence. }
  assert (not_final st1 (s, rid r)) as Hnf by (intros d ?; congruence).
  assert (∀ p, ∃ st', Ok (_emit cfg st1 (s, rid r) p FINAL false) = Ok st' ∧ Inv st' ∧
    rtc (step cfg) st st' ∧ seen st' = <[(s, rid r) := r]> (seen st) ∧ progress st' = progress st ∧
    s_duplicates st' = s_duplicates st + 0 ∧ position st' = position st + 1) as Halone.
  { intros p. eexists. split; [done|]. split; [|split].
    - apply emit_Inv; [done| |done|done|].
      + unfold st1. cbn [seen]. by rewrite lookup_insert_eq.
      + intros k b Hk Hin. destruct (Hblocks k b Hk) as [Hwfb _].
        destruct (keys_known _ _ _ _ Hwfb Hin) as (x & ? & _). congruence.
    - eapply rtc_l; [exact Hstep1|]. by apply rtc_once, step_emit.
    - unfold _emit, st1. cbn. split_and!; [done..|lia|done]. }
  destruct (match _watermark _ _ _ with Some w => value_date r <? w | None => false end); [apply Halone|].
  destruct (match reference r with Some s0 => _ | None => false end); [apply Halone|].
  fold (entered block s r).
  destruct (arrival_block st s r Hinv Es Hsz (Hroom eq_refl)) as (Hwf1 & Hkeys1 & Hnf1 & Hlen).
  change (arrival_state st s r) with st1 in *. fold block in Hwf1, Hkeys1, Hnf1, Hlen.
  destruct (_evaluate_ok _ _ st1 (entered block s r) Hwf1 Hlen Hnf1) as (st2 & E2 & Ht2 & Hlive2).
  rewrite E2. cbn [mbind res_bind]. unfold _settle.
  assert (history_ok st2) as Hh2 by (eapply steps_history; [apply Ht2|apply (inv_history _ Hinv1)]).
  destruct (settle_loop_ok _ _ (length (keys_of (entered block s r))) st2 (entered block s r)
    Hwf1 Hlive2 Hh2) as (st3 & b3 & -> & Ht3 & Hwf3 & Hlive3 & _); [lia|lia|].
  cbn [mbind res_bind]. eexists. split; [done|].
  assert (touch (keys_of (entered block s r)) st1 st3) as Ht by by eapply touch_trans.
  split; [by apply (put_block_Inv _ (entered block s r) b3 st1)|]. split.
  - eapply rtc_l; [exact Hstep1|]. eapply rtc_r; [apply Ht|apply put_block_step].
  - unfold put_block. cbn [seen progress s_duplicates position].
    destruct Ht as [_ -> -> -> _ -> _]. split_and!; [done..| |done]. unfold st1. simpl. lia.
Qed.
End totality.
