(* ===== verification/StreamTheorems.v ===== *)
(** * Stream: what the history of decisions guarantees

    The theorems about [replay], proved from the invariant of [Stream]. *)

From S2P Require Import Prelude Digest Numeric DecimalText Models Rules Engine Stream.

(** ** Specification *)

(** What the source expects of a configuration and of a journal. *)
Definition valid_config (c : StreamConfig) : Prop :=
  0 <= lateness_days c ∧
  date_days (tolerance c) <= default (date_days (tolerance c)) (reference_horizon_days c) ∧
  (∀ m, max_component_days c = Some m → 0 <= m).
Definition entry_side (e : Entry) : string :=
  match e with Arrival s _ _ _ => s | Progress s _ => s end.
Definition valid_journal (j : list Entry) : Prop :=
  (∀ e, e ∈ j → entry_side e = side_name LEFT ∨ entry_side e = side_name RIGHT) ∧
  (∀ s r1 x1 t1 r2 x2 t2, Arrival s r1 x1 t1 ∈ j → Arrival s r2 x2 t2 ∈ j →
     rid r1 = rid r2 → rec_eqb r1 r2 = true) ∧
  Z.of_nat (length j) <= 10 ^ 20.
(** The records of a journal that share a blocking key: the side each came on, and its
    identifier. *)
Definition block_records (j : list Entry) (k : list string) : list (string * string) :=
  omap (λ e, match e with
    | Arrival s r _ _ => if decide (blocking_key r = k) then Some (s, rid r) else None
    | Progress _ _ => None
    end) j.
(** No block of the journal has more distinct records than [root] may nest calls. *)
Definition within_depth (depth : nat) (j : list Entry) : Prop :=
  ∀ k, (size (list_to_set (block_records j k) : gset (string * string)) <= depth)%nat.

(** ** Lemmas *)

Lemma init_settings_ok version depth c : valid_config c →
  ∃ cfg, init_settings version depth c = Ok cfg ∧ s_depth cfg = depth.
Proof.
  intros (H1 & H2 & H3). unfold init_settings, _check_days.
  rewrite (proj2 (Z.leb_le _ _) H1). cbn [check mbind res_bind].
  rewrite (proj2 (Z.leb_le _ _) H2). cbn [check mbind res_bind].
  destruct (max_component_days c) as [m|]; [|eexists; by split_and!].
  rewrite (proj2 (Z.leb_le _ _) (H3 m eq_refl)). eexists; by split_and!.
Qed.

Lemma side_text s : s = side_name LEFT ∨ s = side_name RIGHT → ∃ s', s = side_name s'.
Proof. intros [-> | ->]; eauto. Qed.

Lemma _check_side_inv s s' : _check_side s = Ok s' → s = side_name s'.
Proof.
  unfold _check_side. case_bool_decide as E1; [by intros [= <-]|].
  case_bool_decide as E2; [by intros [= <-]|done].
Qed.

(** *** More depth never changes an answer *)

Definition deeper (cfg : Settings) (d : nat) : Settings :=
  mkSettings (tol cfg) (s_max_component_days cfg) (window cfg) (reference_window cfg) (lateness cfg)
    (ruleset cfg) (s_engine_version cfg) d.

Section deeper.
Context (cfg : Settings) (d : nat) (Hd : (s_depth cfg <= d)%nat).

Lemma _closing_mono st b cs : _closing cfg st b = Ok cs → _closing (deeper cfg d) st b = Ok cs.
Proof.
  unfold _closing. change (_watermark (deeper cfg d)) with (_watermark cfg).
  destruct (_watermark cfg (progress st) b) as [w|]; [|done]. intros H.
  apply bind_Ok in H as (comps & Hc & H). unfold _components in *.
  apply (components_at_mono _ _ d) in Hc; [|done].
  change (components_at (deeper cfg d)) with (components_at cfg). cbn [s_depth deeper].
  by rewrite Hc.
Qed.

Lemma settle_loop_mono fuel st b r : settle_loop cfg fuel st b = Ok r →
  settle_loop (deeper cfg d) fuel st b = Ok r.
Proof.
  revert st b; induction fuel as [|fuel IH]; intros st b H; cbn [settle_loop] in *;
    apply bind_Ok in H as (cs & Hcs & H); rewrite (_closing_mono _ _ _ Hcs); cbn [mbind res_bind];
    destruct cs as [|c cs]; try done.
  change (finalise (deeper cfg d)) with (finalise cfg).
  apply bind_Ok in H as ([st1 b1] & -> & H). cbn [mbind res_bind].
  change (_evaluate (deeper cfg d)) with (_evaluate cfg).
  apply bind_Ok in H as (st2 & -> & H). cbn [mbind res_bind]. by apply IH.
Qed.

Lemma settle_block_mono st k st' : settle_block cfg st k = Ok st' →
  settle_block (deeper cfg d) st k = Ok st'.
Proof.
  unfold settle_block, _settle. intros H. apply bind_Ok in H as (b & -> & H).
  apply bind_Ok in H as ([st1 b1] & Hs & H). cbn [mbind res_bind].
  by rewrite (settle_loop_mono _ _ _ _ Hs).
Qed.

Lemma _arrival_mono st s r st' : _arrival cfg st s r = Ok st' → _arrival (deeper cfg d) st s r = Ok st'.
Proof.
  unfold _arrival, _settle. change (_watermark (deeper cfg d)) with (_watermark cfg).
  change (_emit (deeper cfg d)) with (_emit cfg). change (_horizon (deeper cfg d)) with (_horizon cfg).
  change (_evaluate (deeper cfg d)) with (_evaluate cfg). intros H.
  apply bind_Ok in H as (side & -> & H). cbn [mbind res_bind].
  destruct (seen st !! (side, rid r)); [done|]. cbn zeta in *.
  destruct (match _watermark _ _ _ with Some w => _ | None => _ end); [done|].
  destruct (match reference r with Some w => _ | None => _ end); [done|].
  apply bind_Ok in H as (st2 & -> & H). cbn [mbind res_bind].
  apply bind_Ok in H as ([st3 b3] & Hs & H). by rewrite (settle_loop_mono _ _ _ _ Hs).
Qed.

Lemma feed_mono st e st' : feed cfg st e = Ok st' → feed (deeper cfg d) st e = Ok st'.
Proof.
  destruct e as [s r x t|s u]; simpl; [apply _arrival_mono|]. unfold _progress. intros H.
  apply bind_Ok in H as (side & -> & H). cbn [mbind res_bind].
  by apply (fold_res_sub (settle_block cfg)); [intros ???; apply settle_block_mono|].
Qed.

Lemma feeds_mono j st st' : fold_res (feed cfg) j st = Ok st' →
  fold_res (feed (deeper cfg d)) j st = Ok st'.
Proof. apply fold_res_sub. intros ???. apply feed_mono. Qed.
End deeper.

(** ** Lemmas: feeding the journal *)

Section journal.
Context (cfg : Settings).

(** What a fed journal leaves: the invariant, and the records it has seen. *)
Definition seen_from (j : list Entry) (st : State) : Prop :=
  (∀ s id r, seen st !! (s, id) = Some r → ∃ x t, Arrival (side_name s) r x t ∈ j ∧ rid r = id) ∧
  ∀ s r x t, Arrival (side_name s) r x t ∈ j → is_Some (seen st !! (s, rid r)).

Record fed (j : list Entry) (st : State) : Prop := {
  fed_inv : Inv cfg st;
  fed_size : Z.of_nat (size (seen st)) <= Z.of_nat (length j);
  fed_steps : rtc (step cfg) init_state st
}.

(** The open records of a block are among the records seen. *)
Lemma open_seen st k b : Inv cfg st → blocks st !! k = Some b → NoDup (keys_of b) ∧
  ∀ s id, (s, id) ∈ keys_of b → ∃ r, seen st !! (s, id) = Some r ∧ blocking_key r = k.
Proof.
  intros Hinv Hb. destruct (inv_blocks _ _ Hinv k b Hb) as [Hwf _].
  split; [apply NoDup_keys_of, (wf_pools _ _ _ _ Hwf)|]. intros s id Hk.
  by apply (keys_known _ _ _ _ _ Hwf).
Qed.

(** An entry that the source accepts is answered, and keeps the invariant. *)
Lemma feed_answers j st e : fed j st → Z.of_nat (length j) < 10 ^ 20 →
  (∃ s, entry_side e = side_name s) →
  (∀ s r x t, e = Arrival (side_name s) r x t →
     (∀ known, seen st !! (s, rid r) = Some known → rec_eqb known r = true) ∧
     (seen st !! (s, rid r) = None → has_room cfg st r)) →
  ∃ st', feed cfg st e = Ok st' ∧ fed (j ++ [e]) st' ∧ rtc (step cfg) st st' ∧
    seen st' = match e with
               | Arrival s r _ _ => match _check_side s with
                   | Ok s => if seen st !! (s, rid r) then seen st else <[(s, rid r) := r]> (seen st)
                   | Raise _ => seen st end
               | Progress _ _ => seen st
               end.
Proof.
  intros [Hinv Hsz Hsteps] Hlen [s Es] He. destruct e as [side r src cap|side until]; simpl in Es |- *; subst side.
  - destruct (He s r src cap eq_refl) as [Hsame Hroom].
    destruct (_arrival_ok cfg st s r Hinv ltac:(lia) Hsame Hroom)
      as (st1 & E & Hinv1 & Hs1 & Eseen & _). exists st1.
    assert (_check_side (side_name s) = Ok s) as -> by by destruct s.
    split; [done|]. split; [|done]. split; [done| |by etrans].
    rewrite Eseen, length_app. simpl. destruct (seen st !! (s, rid r)) as [k|] eqn:Ek; [lia|].
    rewrite map_size_insert_None by done. lia.
  - destruct (_progress_ok cfg st s until Hinv ltac:(lia)) as (st1 & E & Hinv1 & Hs1 & Eseen & _).
    exists st1. split; [done|]. split; [|done]. split; [done| |by etrans].
    rewrite Eseen, length_app. simpl. lia.
Qed.

(** With depth for the whole journal, there is room for a record whose block is no
    larger than what was delivered. *)
Lemma deep_room j st r : fed j st → (length j < s_depth cfg)%nat → has_room cfg st r.
Proof.
  intros [Hinv Hsz _] Hd. unfold has_room. destruct (blocks st !! blocking_key r) as [b|] eqn:Eb;
    [|simpl; lia]. change (default Block_empty (Some b)) with b. destruct (open_seen st _ b Hinv Eb) as [Hnd Hin].
  assert (length (keys_of b) <= size (seen st))%nat; [|lia].
  rewrite <- size_dom, <- (size_list_to_set (C := gset BusinessKey) (keys_of b)) by done.
  apply subseteq_size. intros [s id] (x & Hx & _)%elem_of_list_to_set%Hin. by eapply elem_of_dom_2.
Qed.

(** Every entry that does not raise keeps the invariant. *)
Lemma feed_fed j st e st' : fed j st → Z.of_nat (length j) < 10 ^ 20 →
  (length j < s_depth cfg)%nat →
  feed cfg st e = Ok st' → fed (j ++ [e]) st' ∧ rtc (step cfg) st st'.
Proof.
  intros Hfed Hlen Hdep H.
  assert (∃ s, entry_side e = side_name s) as Hs.
  { destruct e as [side r x t|side u]; simpl in *; destruct (_check_side side) as [s|] eqn:Es.
    - exists s. by apply _check_side_inv.
    - unfold _arrival in H. by rewrite Es in H.
    - exists s. by apply _check_side_inv.
    - unfold _progress in H. by rewrite Es in H. }
  destruct (feed_answers j st e Hfed Hlen Hs) as (st1 & E & Hf & Hst & _).
  - intros s r x t ->. split; [|by intros _; apply (deep_room j)].
    intros known Hk. cbn [feed] in H. unfold _arrival in H.
    assert (_check_side (side_name s) = Ok s) as E by by destruct s.
    rewrite E in H. cbn [mbind res_bind] in H. rewrite Hk in H. by destruct (rec_eqb known r).
  - rewrite H in E. by injection E as <-.
Qed.

Lemma feeds_fed k j st st' : fed j st → Z.of_nat (length (j ++ k)) <= 10 ^ 20 →
  (length (j ++ k) <= s_depth cfg)%nat →
  fold_res (feed cfg) k st = Ok st' → fed (j ++ k) st' ∧ rtc (step cfg) st st'.
Proof.
  revert j st; induction k as [|e k IH]; intros j st Hfed Hlen Hdep H; simpl in H.
  { injection H as <-. by rewrite app_nil_r. }
  apply bind_Ok in H as (st1 & He & H). rewrite length_app in Hlen, Hdep. simpl in Hlen, Hdep.
  destruct (feed_fed j st e st1 Hfed ltac:(lia) ltac:(lia) He) as [Hfed1 Hs1].
  destruct (IH (j ++ [e]) st1 Hfed1) as [Hfed2 Hs2]; [rewrite !length_app; simpl; lia..|done|].
  rewrite <- app_assoc in Hfed2. split; [done|by etrans].
Qed.

Lemma fed_init : fed [] init_state.
Proof. split; [apply Inv_init|done|done]. Qed.

Lemma replayed j st : Z.of_nat (length j) <= 10 ^ 20 → (length j <= s_depth cfg)%nat →
  fold_res (feed cfg) j init_state = Ok st → fed j st.
Proof. intros Hlen Hdep H. by apply (feeds_fed j [] init_state st fed_init). Qed.

Lemma seen_from_arrival j st st1 s r src cap : seen_from j st →
  seen st1 = (if seen st !! (s, rid r) then seen st else <[(s, rid r) := r]> (seen st)) →
  seen_from (j ++ [Arrival (side_name s) r src cap]) st1.
Proof.
  intros [H1 H2] E. split.
  - intros s' id r' Hr. rewrite E in Hr. setoid_rewrite elem_of_app. setoid_rewrite list_elem_of_singleton.
    assert (seen st !! (s', id) = Some r' ∨ (s', id) = (s, rid r) ∧ r' = r) as [Hr'|[[= -> ->] ->]].
    { destruct (seen st !! (s, rid r)); [by left|]. apply lookup_insert_Some in Hr as [[??]|[_ ?]]; auto. }
    + destruct (H1 _ _ _ Hr') as (x & t & ? & ?). eauto.
    + eauto.
  - intros s' r' x t Hin. assert (seen st ⊆ seen st1) as Hsub.
    { rewrite E. destruct (seen st !! (s, rid r)) eqn:Es; [done|by apply insert_subseteq]. }
    apply elem_of_app in Hin as [Hin|Hin%list_elem_of_singleton].
    + destruct (H2 _ _ _ _ Hin) as [y Hy]. exists y. by eapply lookup_weaken.
    + injection Hin as Es -> _ _. assert (s' = s) as -> by (by destruct s, s'). rewrite E.
      destruct (seen st !! (s, rid r)) eqn:Ek; [by rewrite Ek|]. by rewrite lookup_insert_eq.
Qed.

(** A block of a journal within the depth has room for the next of its records. *)
Lemma seen_room j k st s r x t : fed j st → seen_from j st → seen st !! (s, rid r) = None →
  within_depth (s_depth cfg) (j ++ Arrival (side_name s) r x t :: k) → has_room cfg st r.
Proof.
  intros [Hinv _ _] [Hseen _] Es Hwd. specialize (Hwd (blocking_key r)). unfold has_room.
  set (b := default _ _).
  assert (NoDup ((s, rid r) :: keys_of b) ∧
    ∀ s' id, (s', id) ∈ (s, rid r) :: keys_of b →
      (side_name s', id) ∈ block_records (j ++ Arrival (side_name s) r x t :: k) (blocking_key r)) as [Hnd Hin].
  { unfold block_records. rewrite omap_app. cbn [omap list_omap]. rewrite decide_True by done.
    assert (NoDup (keys_of b) ∧ ∀ s' id, (s', id) ∈ keys_of b →
      ∃ y, seen st !! (s', id) = Some y ∧ blocking_key y = blocking_key r) as [Hnd Hb].
    { unfold b. destruct (blocks st !! blocking_key r) as [b0|] eqn:Eb; [by apply open_seen|].
      split; [constructor|]. by intros s' id ?%not_elem_of_nil. }
    split.
    - constructor; [|done]. intros (y & Hy & _)%Hb. congruence.
    - intros s' id [[= -> ->]|H]%elem_of_cons; apply elem_of_app; [right; left|left].
      destruct (Hb _ _ H) as (y & (x' & t' & Hj & Eid)%Hseen & Ey).
      apply list_elem_of_omap. eexists. split; [exact Hj|]. simpl. by rewrite decide_True, Eid. }
  assert (NoDup ((λ k : BusinessKey, (side_name k.1, k.2)) <$> (s, rid r) :: keys_of b)) as Hnd'.
  { apply NoDup_fmap_2; [|done]. intros [[] ?] [[] ?]; naive_solver. }
  eapply Nat.le_trans; [|exact Hwd].
  transitivity (size (list_to_set ((λ k : BusinessKey, (side_name k.1, k.2)) <$> (s, rid r) :: keys_of b)
    : gset (string * string))).
  - rewrite size_list_to_set by done. rewrite length_fmap. simpl. lia.
  - apply subseteq_size. intros p. rewrite !elem_of_list_to_set.
    intros ([s' id] & -> & H)%list_elem_of_fmap. by apply Hin.
Qed.

(** A valid journal within the depth never raises. *)
Lemma feeds_total k j st : fed j st → seen_from j st → valid_journal (j ++ k) →
  within_depth (s_depth cfg) (j ++ k) →
  ∃ st', fold_res (feed cfg) k st = Ok st' ∧ fed (j ++ k) st' ∧ seen_from (j ++ k) st'.
Proof.
  revert j st; induction k as [|e k IH]; intros j st Hfed Hseen Hv Hwd; simpl;
    [rewrite app_nil_r; eauto|].
  destruct Hv as (Hside & Hsame & Hlen). rewrite length_app in Hlen. simpl in Hlen.
  assert (e ∈ j ++ e :: k) as Hein by (apply elem_of_app; right; left).
  destruct (side_text _ (Hside e Hein)) as [s Es].
  destruct (feed_answers j st e Hfed ltac:(lia) ltac:(by exists s)) as (st1 & E & Hfed1 & _ & Eseen).
  { intros s' r x t ->. split; [|by intros; apply (seen_room j k st s' r x t)].
    intros known (x' & t' & Hin & Eid)%(proj1 Hseen).
    apply (Hsame (side_name s') known x' t' r x t); [|done|done]. apply elem_of_app. by left. }
  assert (seen_from (j ++ [e]) st1) as Hseen1.
  { destruct e as [side r src cap|side until]; simpl in Es; subst side.
    - assert (_check_side (side_name s) = Ok s) as E' by by destruct s. rewrite E' in Eseen.
      by apply (seen_from_arrival j st).
    - destruct Hseen as [H1 H2]. split.
      + intros s' id r' Hr. rewrite Eseen in Hr. destruct (H1 _ _ _ Hr) as (x & t & Hin & ?).
        exists x, t. split; [|done]. apply elem_of_app. by left.
      + intros s' r' x t [Hin|Hin%list_elem_of_singleton]%elem_of_app; [|done].
        rewrite Eseen. by eapply H2. }
  rewrite E. simpl. destruct (IH (j ++ [e]) st1 Hfed1 Hseen1) as (st2 & E2 & Hf2 & Hs2);
    rewrite <- app_assoc in *; [|done|by exists st2].
  split_and!; [done..|]. rewrite length_app. simpl. lia.
Qed.
Lemma seen_from_init : seen_from [] init_state.
Proof.
  split; [|by intros ???? ?%not_elem_of_nil]. intros s id r. cbn. by rewrite lookup_empty.
Qed.
End journal.

(** A replay that returned returns the same with any more depth, where the invariant
    of the journal is available. *)
Lemma replayed_deeper cfg j st : Z.of_nat (length j) <= 10 ^ 20 →
  fold_res (feed cfg) j init_state = Ok st →
  let cfg' := deeper cfg (s_depth cfg + length j) in
  fold_res (feed cfg') j init_state = Ok st ∧ fed cfg' j st.
Proof.
  intros Hlen H cfg'. apply (feeds_mono cfg (s_depth cfg + length j) ltac:(lia)) in H.
  split; [done|]. apply replayed; [done| |done]. cbn [s_depth deeper cfg']. lia.
Qed.

(** ** A concrete journal, for the witnesses *)

Definition ex_arrival (side id : string) (cents day : Z) : Entry :=
  Arrival side (mkRec id "ACC" (lit cents 2) day None None) "" None.
(** A break, superseded when its counterpart arrives, then closed by progress. *)
Definition ex_journal : list Entry :=
  [ex_arrival "left" "A1" 10000 11; ex_arrival "right" "R1" 10000 12;
   ex_arrival "left" "A1" 10000 11; Progress "left" 20; Progress "right" 20].
Definition ex_config : StreamConfig :=
  mkConfig (mkTolerance (lit 0 2) (lit 0 0) 3 3 32) 0 None None.
Definition ex_stream : StreamResult :=
  match replay "0.1.0" 100 ex_journal ex_config with Ok R => R | Raise _ => mkStream [] 0 end.

Lemma ex_replay : replay "0.1.0" 100 ex_journal ex_config = Ok ex_stream.
Proof. vm_compute. reflexivity. Qed.
Lemma ex_journal_valid : valid_journal ex_journal.
Proof.
  split; [|split].
  - intros e He. unfold ex_journal in He. rewrite !elem_of_cons, elem_of_nil in He.
    destruct He as [-> |[-> |[-> |[-> |[-> |[]]]]]]; simpl; auto.
  - intros s r1 x1 t1 r2 x2 t2 H1 H2 E. unfold ex_journal in *.
    rewrite !elem_of_cons, elem_of_nil in H1, H2.
    destruct H1 as [[=]|[[=]|[[=]|[[=]|[[=]|[]]]]]]; destruct H2 as [[=]|[[=]|[[=]|[[=]|[[=]|[]]]]]];
      subst; done.
  - vm_compute. discriminate.
Qed.

(** The history of the example, as the tests of the source expect it. *)
Example ex_history :
  (λ d, (business_key d, chain_version d, status d, decision_type d, dreason d, decided_at d)) <$>
    decisions ex_stream =
  [((LEFT, "A1"), 1, PROVISIONAL, BREAK, "NO_CANDIDATE", 0);
   ((LEFT, "A1"), 2, PROVISIONAL, MATCH, "M1_EXACT", 1);
   ((RIGHT, "R1"), 1, PROVISIONAL, MATCH, "AS_COUNTERPART", 1);
   ((LEFT, "A1"), 3, FINAL, MATCH, "M1_EXACT", 3);
   ((RIGHT, "R1"), 2, FINAL, MATCH, "AS_COUNTERPART", 3)]%string
  ∧ duplicates ex_stream = 1.
Proof. vm_compute. split; reflexivity. Qed.

(** ** Guarantees *)

(** C7: replay is total: with a valid configuration, a journal of at most 10^20
    entries whose sides are
    "left" or "right" and that never delivers an identifier with two contents
    is replayed to the end, provided that no block has more records than the calls
    of [root] that the interpreter lets nest -- [root] recurses once per link, and
    beyond that depth it may raise [RecursionError].  No lookup fails, no [max] is
    empty, and the settling loop terminates.  (Dates are ordinals without an end: a
    horizon past year 9999 would raise in Python.) *)
Theorem replay_total version depth j c : valid_config c → valid_journal j → within_depth depth j →
  ∃ R, replay version depth j c = Ok R.
Proof.
  intros Hc Hj Hwd. unfold replay.
  destruct (init_settings_ok version depth c Hc) as (cfg & -> & <-). simpl.
  destruct (feeds_total cfg j [] init_state (fed_init cfg) seen_from_init Hj Hwd) as (st & -> & _).
  simpl. eauto.
Qed.

(** A journal is within the depth when it is no longer than that. *)
Lemma short_within_depth depth j : (length j <= depth)%nat → within_depth depth j.
Proof.
  intros H k. etrans; [|exact H].
  transitivity (length (block_records j k)).
  - apply size_list_to_set_le.
  - unfold block_records. clear H. induction j as [|e j IH]; simpl; [done|].
    destruct e as [s r x t|s u]; simpl; [case_decide; simpl|].
    + apply le_n_S, IH.
    + etrans; [apply IH|lia].
    + etrans; [apply IH|lia].
Qed.

Lemma replay_total_witness : ∃ R, replay "0.1.0" 100 ex_journal ex_config = Ok R.
Proof.
  apply (replay_total "0.1.0" 100 ex_journal ex_config); [|exact ex_journal_valid|].
  - split_and!; [simpl; lia|simpl; lia|intros m; discriminate].
  - apply short_within_depth. simpl. lia.
Defined.

(** The bound is needed: three lefts near one right chain [root] through four keys, and
    with depth three the replay raises what CPython raises near a thousand of them. *)
Definition ex_star : list Entry :=
  [ex_arrival "right" "R1" 50000 12; ex_arrival "left" "A1" 10000 11;
   ex_arrival "left" "A2" 20000 11; ex_arrival "left" "A3" 30000 11].
Example ex_recursion :
  (∃ R, replay "0.1.0" 4 ex_star ex_config = Ok R) ∧
  replay "0.1.0" 3 ex_star ex_config = Raise RecursionError.
Proof. split; [eexists|]; vm_compute; reflexivity. Qed.

(** C19: the decisions of a business key form a chain: numbered from 1 without a
    gap, each superseding exactly the one before it, and nothing follows a FINAL
    decision; SUPERSEDED is never written. *)
Theorem replay_chains version depth j c R key : Z.of_nat (length j) <= 10 ^ 20 →
  replay version depth j c = Ok R → chain_ok (chain key (decisions R)).
Proof.
  intros Hlen H. unfold replay in H. apply bind_Ok in H as (cfg & _ & H).
  apply bind_Ok in H as (st & Hst & H). injection H as <-.
  apply replayed_deeper in Hst as (_ & Hst); [|done].
  destruct (fed_inv _ _ _ Hst) as [Hh _ _]. apply Hh.
Qed.

Lemma replay_chains_witness :
  ∃ d, chain (LEFT, "A1"%string) (decisions ex_stream) !! 2%nat = Some d ∧
    chain_version d = 3 ∧ status d = FINAL.
Proof.
  pose proof (replay_chains "0.1.0" 100 ex_journal ex_config ex_stream (LEFT, "A1"%string)
    ltac:(vm_compute; discriminate) ex_replay) as H.
  destruct (chain (LEFT, "A1"%string) (decisions ex_stream) !! 2%nat) as [d|] eqn:E;
    [|exfalso; vm_compute in E; discriminate E].
  exists d. split; [reflexivity|]. destruct (H 2%nat d E) as (Hv & _). split; [rewrite Hv; reflexivity|].
  vm_compute in E. injection E as <-. reflexivity.
Defined.

(** The history is append-only: replaying a longer journal keeps every decision
    already made, at its place. *)
Theorem replay_append_only version depth j k c R' : Z.of_nat (length (j ++ k)) <= 10 ^ 20 →
  replay version depth (j ++ k) c = Ok R' →
  ∃ R new, replay version depth j c = Ok R ∧ decisions R' = decisions R ++ new.
Proof.
  intros Hlen H. unfold replay in *. apply bind_Ok in H as (cfg & Hc & H). rewrite Hc. simpl.
  apply bind_Ok in H as (st' & Hst' & H). injection H as <-. rewrite fold_res_app in Hst'.
  apply bind_Ok in Hst' as (st & Hst & Hst'). rewrite Hst. simpl.
  assert (Z.of_nat (length j) <= 10 ^ 20) as Hj by (rewrite length_app in Hlen; lia).
  set (d := (s_depth cfg + length (j ++ k))%nat).
  apply (feeds_mono cfg d ltac:(lia)) in Hst, Hst'.
  destruct (feeds_fed (deeper cfg d) k j st st') as [_ Hs]; [|done| |done|].
  - apply replayed; [done| |done]. cbn [s_depth deeper]. unfold d; rewrite length_app; lia.
  - cbn [s_depth deeper]. lia.
  - destruct (steps_append _ st st' Hs) as [new Hnew].
    eexists _, new. split; [done|]. exact Hnew.
Qed.

Lemma replay_append_only_witness : ∃ R new,
  replay "0.1.0" 100 (take 2 ex_journal) ex_config = Ok R ∧ decisions ex_stream = decisions R ++ new.
Proof.
  apply (replay_append_only "0.1.0" 100 (take 2 ex_journal) (drop 2 ex_journal) ex_config ex_stream);
    [vm_compute; discriminate|exact ex_replay].
Defined.

(** C20: the components of a block are exactly its connected components: they
    partition the open records, and two records are in the same one if and only
    if a chain of links -- opposite sides, within the date window or with the
    same reference -- joins them.  That holds of every answer, and there is one whenever
    the open records are no more than the calls of [root] that may nest. *)
Theorem components_connected cfg b : pools_ok b →
  ((length (keys_of b) <= s_depth cfg)%nat → ∃ comps, _components cfg b = Ok comps) ∧
  ∀ comps, _components cfg b = Ok comps → mjoin comps ≡ₚ keys_of b ∧
    ∀ c k k', c ∈ comps → k ∈ c → k' ∈ keys_of b → (k' ∈ c ↔ rtsc (edge cfg b) k k').
Proof.
  intros Hb. split.
  - intros Hn. destruct (_components_ok cfg b Hb Hn) as (comps & E & _). by exists comps.
  - intros comps H. by destruct (_components_inv cfg b comps Hb H) as (? & _ & ?).
Qed.

Definition ex_settings : Settings := mkSettings (tolerance ex_config) None 3 3 0 "" "" 100.
Definition ex_block : Block :=
  mkBlk (λ s, match s with
    | LEFT => [("A1", mkRec "A1" "ACC" (lit 1 0) 10 None None);
               ("A2", mkRec "A2" "ACC" (lit 1 0) 15 None None)]
    | RIGHT => [("R1", mkRec "R1" "ACC" (lit 1 0) 12 None None);
                ("R2", mkRec "R2" "ACC" (lit 1 0) 30 None None)]
    end%string) (λ _, None) (λ _, ∅).
Lemma components_connected_witness :
  ∃ comps, _components ex_settings ex_block = Ok comps ∧ mjoin comps ≡ₚ keys_of ex_block ∧
    comps = [[(LEFT, "A1"); (LEFT, "A2"); (RIGHT, "R1")]; [(RIGHT, "R2")]]%string.
Proof.
  destruct (components_connected ex_settings ex_block) as [[comps E] H].
  { intros []; apply (bool_decide_unpack _); vm_compute; exact I. }
  { vm_compute. lia. }
  exists comps. split; [exact E|]. split; [by apply H|]. clear H. vm_compute in E. injection E as <-. reflexivity.
Defined.
