(* ===== verification/StreamProgress.v ===== *)
(** * Stream: every record is eventually final

    Once both sides report progress past the horizon of every record, the settling
    loop leaves no block open, and each record's chain ends with a FINAL decision. *)

From S2P Require Import Prelude Digest Numeric DecimalText Models Rules Engine EngineTheorems Stream StreamTheorems.

Section progress.
Context (cfg : Settings).
Implicit Types (st : State) (b : Block) (key : Side * string).

Definition is_final st key : Prop := ∃ d, current st !! key = Some d ∧ status d = FINAL.
Definition is_open st key : Prop := ∃ k b, blocks st !! k = Some b ∧ key ∈ keys_of b.
(** No record is lost: each one seen is open in a block, or final. *)
Definition covered st : Prop := ∀ key, is_Some (seen st !! key) → is_final st key ∨ is_open st key.
(** What work on a block keeps: its open records stay open or become final. *)
Definition resolves st b st' b' : Prop :=
  ∀ key, key ∈ keys_of b → key ∈ keys_of b' ∨ is_final st' key.

Lemma step_final st st' key : step cfg st st' → is_final st key → is_final st' key.
Proof.
  intros [st1 k p s f Hnf _|st1 st2 _ E _] (d & Hd & Hf).
  - exists d. split; [|done]. unfold _emit. cbn [current]. rewrite lookup_insert_ne; [done|].
    intros ->. rewrite (Hnf d Hd) in Hf. done.
  - exists d. by rewrite E.
Qed.
Lemma steps_final st st' key : rtc (step cfg) st st' → is_final st key → is_final st' key.
Proof. induction 1 as [|x y z Hxy _ IH]; [done|]. intros H. by eapply IH, step_final. Qed.

(** ** Settling one block *)

Lemma finalise_all_resolves known k cs st b st' b' : blk_wf cfg known k b → live st b →
  closing_list st b cs → fold_res (finalise cfg) cs (st, b) = Ok (st', b') → resolves st b st' b'.
Proof.
  revert st b. induction cs as [|[d f] cs IH]; intros st b Hwf Hlive Hcl H; cbn [fold_res] in H.
  { injection H as <- <-. intros key Hk. by left. }
  destruct Hcl as [Hnd Hin]. pose proof (Hin (d, f) ltac:(left)) as Hk. cbn [fst] in Hk.
  destruct (finalise_ok cfg _ _ st b d f Hwf Hk (live_not_final _ _ _ Hlive Hk))
    as (st1 & b1 & Ef & Ht1 & Hwf1 & _ & _ & Hkeys1 & Hfin).
  rewrite Ef in H. cbn [mbind res_bind] in H. rewrite fmap_cons, NoDup_cons in Hnd.
  destruct Hnd as [Hd Hnd].
  assert (live st1 b1) as Hlive1.
  { intros key [Hkb Hne]%Hkeys1. rewrite (t_current _ _ _ _ Ht1); [by apply Hlive|].
    by rewrite list_elem_of_singleton. }
  assert (closing_list st1 b1 cs) as Hcl1.
  { split; [done|]. intros c Hc. apply Hkeys1. split; [apply Hin; by right|].
    intros E. apply Hd. cbn [fst]. rewrite <- E.
    by apply (list_elem_of_fmap_2 (λ c : SDecision * bool, business_key c.1)). }
  destruct (finalise_all_ok cfg _ _ cs st1 b1 Hwf1 Hlive1 Hcl1) as (st2 & b2 & E2 & Ht2 & _).
  rewrite H in E2. injection E2 as <- <-. intros key Hkey.
  destruct (decide (key = business_key d)) as [-> |Hne].
  - right. eapply steps_final; [apply Ht2|exact Hfin].
  - apply (IH st1 b1 Hwf1 Hlive1 Hcl1 H). by apply Hkeys1.
Qed.

Lemma settle_loop_resolves known k fuel st b st' b' : blk_wf cfg known k b → live st b → history_ok st →
  (length (keys_of b) <= fuel)%nat → Z.of_nat (length (pool b RIGHT)) <= 10 ^ 20 →
  settle_loop cfg fuel st b = Ok (st', b') → resolves st b st' b'.
Proof.
  revert st b; induction fuel as [|fuel IH]; intros st b Hwf Hlive Hh Hf Hlen H;
    destruct (_closing_ok cfg _ _ st b Hwf Hlive Hh) as (cs & Ecs & Hcs); cbn [settle_loop] in H;
    rewrite Ecs in H; cbn [mbind res_bind] in H.
  - destruct cs as [|c cs]; [|done]. injection H as <- <-. intros key Hk. by left.
  - destruct cs as [|c cs]; [injection H as <- <-; intros key Hk; by left|].
    destruct (finalise_all_ok cfg _ _ (c :: cs) st b Hwf Hlive Hcs)
      as (st1 & b1 & E1 & Ht1 & Hwf1 & Hlive1 & Hlen1 & Hsub1).
    pose proof (finalise_all_resolves _ _ _ _ _ _ _ Hwf Hlive Hcs E1) as Hres.
    rewrite E1 in H. simpl in Hlen1. cbn [mbind res_bind] in H.
    assert (Z.of_nat (length (pool b1 RIGHT)) <= 10 ^ 20) as Hlenr.
    { pose proof (sublist_length _ _ (Hsub1 RIGHT)). lia. }
    apply bind_Ok in H as (st2 & E2 & H).
    assert (touch cfg (keys_of b1) st1 st2 ∧ live st2 b1) as [Ht2 Hlive2].
    { destruct (_evaluate_ok cfg _ _ st1 b1 Hwf1 Hlenr) as (st2' & E2' & ?).
      - intros key Hk. by apply (live_not_final st1 b1).
      - destruct (keys_of b1) eqn:Ek.
        + injection E2 as <-. split; [apply touch_refl|]. intros key. rewrite Ek. by intros ?%not_elem_of_nil.
        + rewrite E2 in E2'. by injection E2' as <-. }
    assert (history_ok st2) as Hh2.
    { eapply steps_history; [apply Ht2|]. eapply steps_history; [apply Ht1|done]. }
    destruct (settle_loop_ok cfg _ _ fuel st2 b1 Hwf1 Hlive2 Hh2) as (st3 & b3 & E3 & Ht3 & _); [lia|lia|].
    rewrite H in E3. injection E3 as <- <-.
    intros key Hk. destruct (Hres key Hk) as [Hb1|Hf1].
    + apply (IH st2 b1 Hwf1 Hlive2 Hh2); [lia|lia|done|done].
    + right. eapply steps_final; [apply Ht3|]. by eapply steps_final; [apply Ht2|].
Qed.

(** Nothing closes any more only when nothing is open, once the watermark is past
    every horizon. *)
Lemma closing_empty known k st b w : blk_wf cfg known k b → live st b → history_ok st →
  _watermark cfg (progress st) b = Some w →
  (∀ s e, e ∈ pool b s → _horizon cfg e.2 < w) → _closing cfg st b = Ok [] → keys_of b = [].
Proof.
  intros Hwf Hlive Hh Hw Hpast H. unfold _closing in H. rewrite Hw in H.
  destruct (_components_ok cfg b (wf_pools _ _ _ _ Hwf) (wf_depth _ _ _ _ Hwf)) as (comps & Ec & Hperm & Hne & _).
  rewrite Ec in H. cbn [mbind res_bind] in H. destruct comps as [|c comps].
  { simpl in Hperm. by apply Permutation_nil_l in Hperm. }
  exfalso. rewrite concat_res_cons in H. apply bind_Ok in H as (cs & Hcs & H).
  apply bind_Ok in H as (cs' & _ & H). injection H as E. apply app_eq_nil in E as [-> _].
  pose proof (Hne c ltac:(left)) as Hcne. unfold close_component in Hcs.
  apply bind_Ok in Hcs as (rs & Hrs & Hcs). apply bind_Ok in Hcs as (ds & Hds & Hcs).
  apply bind_Ok in Hcs as (last & Hlast & Hcs). apply map_res_Forall2 in Hrs, Hds.
  assert (∀ r, r ∈ rs → _horizon cfg r < w) as Hr.
  { intros r (i & Hi)%list_elem_of_lookup. destruct (Forall2_lookup_r _ _ _ _ _ Hrs Hi) as (kk & _ & Hg).
    apply get_Ok, od_get_elem in Hg. by apply Hpast in Hg. }
  assert (last < w) as Hlt.
  { destruct rs as [|r rs]; [done|]. injection Hlast as <-.
    apply Z.lt_le_pred, foldl_max_le.
    - specialize (Hr r ltac:(left)). lia.
    - intros x (y & -> & Hy)%list_elem_of_fmap. specialize (Hr y ltac:(by right)). lia. }
  rewrite (proj2 (Z.ltb_lt _ _) Hlt) in Hcs. injection Hcs as Hcs.
  destruct ds; [|done]. apply Forall2_nil_inv_r in Hds. done.
Qed.

(** ** Settling every block *)

(** The watermark of any block is past the horizon of every record. *)
Definition past st : Prop := ∀ b, ∃ w, _watermark cfg (progress st) b = Some w ∧
  ∀ key r, seen st !! key = Some r → _horizon cfg r < w.
Definition empty_at st k : Prop := ∀ b, blocks st !! k = Some b → keys_of b = [].

(** Writing back a block that was settled. *)
Lemma put_block_covered k b st st' b' : covered st → (∀ b0, blocks st !! k = Some b0 →
    ∀ key, key ∈ keys_of b0 → key ∈ keys_of b) →
  touch cfg (keys_of b) st st' → resolves st b st' b' → covered (put_block st' k b').
Proof.
  intros Hcov Hb Ht Hres key Hk. unfold put_block in Hk. cbn [seen] in Hk.
  rewrite (t_seen _ _ _ _ Ht) in Hk. destruct (Hcov key Hk) as [Hf|(k2 & b2 & Hk2 & Hin)].
  { left. exact (steps_final _ _ _ (t_steps _ _ _ _ Ht) Hf). }
  destruct (decide (k2 = k)) as [-> |Hne].
  - destruct (Hres key (Hb b2 Hk2 key Hin)) as [Hin'|Hf]; [|by left].
    right. exists k, b'. split; [|done]. unfold put_block. cbn [blocks]. by rewrite lookup_insert_eq.
  - right. exists k2, b2. split; [|done]. unfold put_block. cbn [blocks].
    rewrite lookup_insert_ne by done. by rewrite (t_blocks _ _ _ _ Ht).
Qed.

Lemma settle_block_progress st k st' : Inv cfg st → Z.of_nat (size (seen st)) <= 10 ^ 20 →
  settle_block cfg st k = Ok st' →
  (covered st → covered st') ∧ (past st → empty_at st' k) ∧
  ∀ k', k' ≠ k → blocks st' !! k' = blocks st !! k'.
Proof.
  intros Hinv Hsz H. unfold settle_block in H. apply bind_Ok in H as (b & Hk%get_Ok & H).
  apply bind_Ok in H as ([st1 b1] & Hs & [= <-]). unfold _settle in Hs.
  destruct (inv_blocks _ _ Hinv k b Hk) as [Hwf Hlive]. pose proof (right_length _ _ _ _ Hwf) as Hlen.
  destruct (settle_loop_ok cfg _ _ (length (keys_of b)) st b Hwf Hlive (inv_history _ _ Hinv))
    as (st2 & b2 & E & Ht & Hwf2 & Hlive2 & _ & Hcl); [lia|lia|].
  rewrite Hs in E. injection E as <- <-.
  apply (settle_loop_resolves _ _ _ _ _ _ _ Hwf Hlive (inv_history _ _ Hinv)) in Hs as Hres; [|lia|lia].
  split; [|split].
  - intros Hcov. eapply put_block_covered; [done| |done|done]. rewrite Hk. by intros b0 [= <-].
  - intros Hpast b0. unfold put_block. cbn [blocks]. rewrite lookup_insert_eq. intros [= <-].
    destruct (Hpast b1) as (w & Hw & Hh).
    apply (closing_empty _ _ st1 b1 w Hwf2 Hlive2); [|by rewrite (t_progress _ _ _ _ Ht)| |done].
    + eapply steps_history; [apply Ht|]. apply (inv_history _ _ Hinv).
    + intros s e He. destruct (wf_entry _ _ _ _ Hwf2 s e He) as (_ & Hseen & _). by eapply Hh.
  - intros k' Hne. unfold put_block. cbn [blocks]. rewrite lookup_insert_ne by done.
    by rewrite (t_blocks _ _ _ _ Ht).
Qed.

Lemma settle_blocks_progress keys st st' : Inv cfg st → (∀ k, k ∈ keys → k ∈ dom (blocks st)) →
  Z.of_nat (size (seen st)) <= 10 ^ 20 → fold_res (settle_block cfg) keys st = Ok st' →
  (covered st → covered st') ∧
  (past st → ∀ k, k ∈ keys ∨ empty_at st k → empty_at st' k).
Proof.
  revert st; induction keys as [|k keys IH]; intros st Hinv Hk Hsz H; cbn [fold_res] in H.
  { injection H as <-. split; [done|]. by intros _ k [?%not_elem_of_nil|?]. }
  apply bind_Ok in H as (st1 & H1 & H).
  destruct (settle_block_ok cfg st k Hinv) as (st1' & E1 & Hinv1 & _ & Es & Ed & Ep & _); [|done|].
  { apply elem_of_dom, Hk. left. }
  rewrite H1 in E1. injection E1 as <-.
  apply settle_block_progress in H1 as (Hc1 & He1 & Hb1); [|done|done].
  apply IH in H as [Hc He]; [|done|intros k' Hk'; rewrite Ed; apply Hk; by right|by rewrite Es].
  split; [by auto|]. intros Hp k' Hk'. assert (past st1) as Hp1 by (unfold past; by rewrite Es, Ep).
  apply He; [done|]. destruct (decide (k' = k)) as [-> |Hne]; [right; by apply He1|].
  destruct Hk' as [[-> |Hk']%elem_of_cons|Hk']; [done|by left|right]. unfold empty_at. by rewrite Hb1.
Qed.

Lemma _progress_progress st s until st' : Inv cfg st → Z.of_nat (size (seen st)) <= 10 ^ 20 →
  _progress cfg st (side_name s) until = Ok st' →
  (covered st → covered st') ∧
  (past (mkState (seen st) (s_duplicates st) (set_side (progress st) s (later (progress st s) until))
           (blocks st) (current st) (s_decisions st) (position st + 1)) →
   ∀ k, empty_at st' k).
Proof.
  intros Hinv Hsz H. unfold _progress in H.
  assert (_check_side (side_name s) = Ok s) as E by by destruct s. rewrite E in H.
  cbn [mbind res_bind] in H. set (st1 := mkState _ _ _ _ _ _ _) in *.
  assert (Inv cfg st1) as Hinv1 by (destruct Hinv as [Hh Hb Hk]; by split).
  pose proof H as H'. apply settle_blocks_progress in H' as [Hc He]; [|done| |done].
  - split; [done|]. intros Hp k. apply He; [done|].
    destruct (blocks st1 !! k) as [b|] eqn:Ek; [left|right; intros b; by rewrite Ek].
    apply sorted_keys. by apply elem_of_dom_2 in Ek.
  - intros k Hk. by apply sorted_keys in Hk.
Qed.

(** ** Arrivals *)

Lemma _arrival_covered st s r st' : Inv cfg st → Z.of_nat (size (seen st)) < 10 ^ 20 → has_room cfg st r →
  covered st → _arrival cfg st (side_name s) r = Ok st' → covered st'.
Proof.
  intros Hinv Hsz Hroom Hcov H. unfold _arrival in H.
  assert (_check_side (side_name s) = Ok s) as E by by destruct s. rewrite E in H.
  cbn [mbind res_bind] in H. destruct (seen st !! (s, rid r)) as [known|] eqn:Es.
  { destruct (rec_eqb _ _); [|done]. by injection H as <-. }
  set (block := default _ _) in *. set (st1 := mkState _ _ _ _ _ _ _) in *.
  assert (∀ key, key ≠ (s, rid r) → is_Some (seen st1 !! key) → is_final st1 key ∨ is_open st1 key) as Hcov1.
  { intros key Hne Hk. unfold st1 in Hk. cbn [seen] in Hk. rewrite lookup_insert_ne in Hk by done.
    destruct (Hcov key Hk) as [Hf|(k & b & Hkb & Hin)]; [by left|right]. exists k, b. split; [|done].
    unfold st1. cbn [blocks]. destruct (decide (k = blocking_key r)) as [-> |?];
      [|by rewrite lookup_insert_ne]. rewrite lookup_insert_eq. unfold block. by rewrite Hkb. }
  assert (∀ p, covered (_emit cfg st1 (s, rid r) p FINAL false)) as Halone.
  { intros p key Hk. destruct (decide (key = (s, rid r))) as [-> |Hne].
    - left. unfold _emit. eexists. cbn [current]. rewrite lookup_insert_eq. by split.
    - destruct (Hcov1 key Hne Hk) as [(d & Hd & Hf)|Ho]; [left|by right].
      exists d. unfold _emit. cbn [current]. by rewrite lookup_insert_ne. }
  destruct (match _watermark _ _ _ with Some w => value_date r <? w | None => false end);
    [injection H as <-; apply Halone|].
  destruct (match reference r with Some s0 => _ | None => false end); [injection H as <-; apply Halone|].
  fold (entered block s r) in H. apply bind_Ok in H as (st2 & E2 & H).
  apply bind_Ok in H as ([st3 b3] & E3 & [= <-]).
  destruct (arrival_block cfg st s r Hinv Es) as (Hwf1 & Hkeys1 & Hlive & Hlen); [lia|done|].
  change (arrival_state st s r) with st1 in *. fold block in Hwf1, Hkeys1, Hlive, Hlen.
  destruct (_evaluate_ok cfg _ _ st1 (entered block s r) Hwf1 Hlen) as (st2' & E2' & Ht2 & Hlive2); [done|].
  rewrite E2 in E2'. injection E2' as <-.
  assert (history_ok st2) as Hh2.
  { eapply steps_history; [apply Ht2|]. apply (inv_history _ _ Hinv). }
  unfold _settle in E3.
  destruct (settle_loop_ok cfg _ _ (length (keys_of (entered block s r))) st2 (entered block s r)
    Hwf1 Hlive2 Hh2) as (st3' & b3' & E3' & Ht3 & _); [lia|lia|].
  rewrite E3 in E3'. injection E3' as <- <-.
  apply (settle_loop_resolves _ _ _ _ _ _ _ Hwf1 Hlive2 Hh2) in E3 as Hres; [|lia|lia].
  assert (touch cfg (keys_of (entered block s r)) st1 st3) as Ht by by eapply touch_trans.
  intros key Hk. destruct (decide (key = (s, rid r))) as [-> |Hne].
  - assert ((s, rid r) ∈ keys_of (entered block s r)) as Hin by (apply Hkeys1; by right).
    destruct (Hres _ Hin) as [Hin3|Hf]; [right|by left]. exists (blocking_key r), b3. split; [|done].
    unfold put_block. cbn [blocks]. by rewrite lookup_insert_eq.
  - unfold put_block in Hk. cbn [seen] in Hk. rewrite (t_seen _ _ _ _ Ht) in Hk.
    destruct (Hcov1 key Hne Hk) as [Hf|(k & b & Hkb & Hin)].
    + left. exact (steps_final _ _ _ (t_steps _ _ _ _ Ht) Hf).
    + unfold st1 in Hkb. cbn [blocks] in Hkb. apply lookup_insert_Some in Hkb as [[<- <-]|[Hnk Hkb]].
      * destruct (Hres key) as [Hin3|Hf]; [apply Hkeys1; by left| |by left].
        right. exists (blocking_key r), b3. split; [|done]. unfold put_block. cbn [blocks].
        by rewrite lookup_insert_eq.
      * right. exists k, b. split; [|done]. unfold put_block. cbn [blocks].
        rewrite lookup_insert_ne, (t_blocks _ _ _ _ Ht) by done. unfold st1. cbn [blocks].
        by rewrite lookup_insert_ne.
Qed.
End progress.

Section journal.
Context (cfg : Settings).

Lemma feed_covered j st e st' : fed cfg j st → Z.of_nat (length j) < 10 ^ 20 →
  (length j < s_depth cfg)%nat → covered st →
  feed cfg st e = Ok st' → covered st'.
Proof.
  intros Hfed Hlen Hdep Hcov H. pose proof Hfed as [Hinv Hsz _].
  destruct e as [side r src cap|side until]; cbn [feed] in H.
  - destruct (_check_side side) as [s|] eqn:Es; [|by unfold _arrival in H; rewrite Es in H].
    apply _check_side_inv in Es as ->.
    eapply _arrival_covered; [exact Hinv|lia|by eapply deep_room|done|exact H].
  - destruct (_check_side side) as [s|] eqn:Es; [|by unfold _progress in H; rewrite Es in H].
    apply _check_side_inv in Es as ->. eapply _progress_progress; [exact Hinv| |exact H|done]. lia.
Qed.
Lemma feeds_covered k j st st' : fed cfg j st → Z.of_nat (length (j ++ k)) <= 10 ^ 20 →
  (length (j ++ k) <= s_depth cfg)%nat → covered st →
  fold_res (feed cfg) k st = Ok st' → covered st'.
Proof.
  revert j st; induction k as [|e k IH]; intros j st Hfed Hlen Hdep Hcov H; cbn [fold_res] in H.
  { by injection H as <-. }
  apply bind_Ok in H as (st1 & He & H). rewrite length_app in Hlen, Hdep. simpl in Hlen, Hdep.
  destruct (feed_fed cfg j st e st1 Hfed ltac:(lia) ltac:(lia) He) as [Hfed1 _].
  apply (IH (j ++ [e]) st1 Hfed1); [rewrite <- app_assoc, length_app; simpl; lia..| |done].
  eapply feed_covered; [exact Hfed|lia|lia|done..].
Qed.

(** Both sides have reported [until]. *)
Lemma watermark_past prog b u : (∀ s, ∃ x, prog s = Some x ∧ u <= x) →
  ∃ w, _watermark cfg prog b = Some w ∧ u - lateness cfg <= w.
Proof.
  intros H. unfold _watermark. destruct (H LEFT) as (x & -> & Hx), (H RIGHT) as (y & -> & Hy).
  unfold max_opt. destruct (latest b LEFT), (latest b RIGHT); eexists; (split; [done|]); lia.
Qed.
Lemma later_ge previous u : ∃ x, later previous u = Some x ∧ u <= x.
Proof. destruct previous; eexists; (split; [done|]); lia. Qed.

(** After both sides reported past every horizon, no block has an open record. *)
Lemma both_progress_empty j u st0 st' : fed cfg j st0 → Z.of_nat (length j) + 2 <= 10 ^ 20 →
  (length j + 2 <= s_depth cfg)%nat → fold_res (feed cfg) [Progress "left" u; Progress "right" u] st0 = Ok st' →
  (∀ key r, seen st' !! key = Some r → _horizon cfg r < u - lateness cfg) → ∀ k, empty_at st' k.
Proof.
  intros Hfed0 Hlen Hdep H Hpast. cbn [fold_res] in H. apply bind_Ok in H as (st1 & E1 & H).
  apply bind_Ok in H as (st2 & E2 & [= <-]).
  destruct (feed_fed cfg j st0 _ st1 Hfed0 ltac:(lia) ltac:(lia) E1) as [[Hinv1 Hsz1 _] _].
  rewrite length_app in Hsz1. simpl in Hsz1. destruct Hfed0 as [Hinv0 Hsz0 _].
  destruct (_progress_ok cfg st0 LEFT u Hinv0 ltac:(lia)) as (st1' & E1' & _ & _ & _ & Ep1 & _).
  change (feed cfg st0 (Progress "left" u) = Ok st1') in E1'. rewrite E1 in E1'. injection E1' as <-.
  destruct (_progress_ok cfg st1 RIGHT u Hinv1 ltac:(lia)) as (st2' & E2' & _ & _ & Es2 & _).
  change (feed cfg st1 (Progress "right" u) = Ok st2') in E2'. rewrite E2 in E2'. injection E2' as <-.
  destruct (_progress_progress cfg st1 RIGHT u st2 Hinv1 ltac:(lia) E2) as [_ He]. apply He.
  intros b. cbn [progress seen]. destruct (watermark_past (set_side (progress st1) RIGHT
    (later (progress st1 RIGHT) u)) b u) as (w & Hw & Hle).
  - intros []; unfold set_side; simpl; [rewrite Ep1; unfold set_side; simpl|]; apply later_ge.
  - exists w. split; [exact Hw|]. intros key r0 Hr0. rewrite <- Es2 in Hr0. apply Hpast in Hr0. lia.
Qed.
End journal.

Lemma init_settings_spec version depth c cfg : init_settings version depth c = Ok cfg →
  lateness cfg = lateness_days c ∧ ∀ r, valid_config c →
    _horizon cfg r <= value_date r + default (date_days (tolerance c)) (reference_horizon_days c).
Proof.
  unfold init_settings. intros H. apply bind_Ok in H as (_ & _ & H). apply bind_Ok in H as (_ & _ & H).
  apply bind_Ok in H as (_ & _ & [= <-]). split; [done|]. intros r (_ & Hd & _). unfold _horizon. simpl.
  destruct (truthy (reference r)); lia.
Qed.

(** C15: every record is eventually final: when a valid journal ends with both sides
    reporting progress past the horizon of every record and the lateness, and no block
    has more records than the calls of [root] that the interpreter lets nest, the
    replay succeeds and the chain of every record that arrived ends with a FINAL
    decision.  (Dates are ordinals without an end, as everywhere in Stream.) *)
Theorem replay_settles version depth j c u : valid_config c →
  valid_journal (j ++ [Progress "left" u; Progress "right" u]) → within_depth depth j →
  (∀ side r x t, Arrival side r x t ∈ j →
     value_date r + default (date_days (tolerance c)) (reference_horizon_days c) + lateness_days c < u) →
  ∃ R, replay version depth (j ++ [Progress "left" u; Progress "right" u]) c = Ok R ∧
    ∀ s r x t, Arrival (side_name s) r x t ∈ j →
      ∃ d, last (chain (s, rid r) (decisions R)) = Some d ∧ status d = FINAL.
Proof.
  intros Hc Hj Hwd Hpast. unfold replay.
  destruct (init_settings_ok version depth c Hc) as (cfg & Ecfg & <-).
  rewrite Ecfg. cbn [mbind res_bind]. apply init_settings_spec in Ecfg as [El Eh].
  set (tail := [Progress "left" u; Progress "right" u]) in *.
  assert (within_depth (s_depth cfg) (j ++ tail)) as Hwd'.
  { intros k. specialize (Hwd k). unfold block_records in *. rewrite omap_app. cbn [omap list_omap tail].
    by rewrite app_nil_r. }
  destruct (feeds_total cfg (j ++ tail) [] init_state (fed_init cfg) seen_from_init Hj Hwd')
    as (st' & Est & _ & Hseen). change ([] ++ j ++ tail) with (j ++ tail) in *. rewrite Est. cbn [mbind res_bind]. eexists. split; [done|].
  intros s r x t Hr. cbn [decisions].
  destruct Hj as (_ & _ & Hlen). destruct (replayed_deeper cfg _ _ Hlen Est) as [Est' Hfed].
  set (cfg' := deeper cfg _) in *.
  assert (covered st') as Hcov.
  { eapply (feeds_covered cfg' (j ++ tail) [] init_state);
      [apply fed_init|done|cbn [s_depth deeper cfg']; simpl; lia| |exact Est'].
    intros key [y Hy]. cbn in Hy. by rewrite lookup_empty in Hy. }
  assert (∀ k, empty_at st' k) as Hempty.
  { rewrite fold_res_app in Est'. apply bind_Ok in Est' as (st0 & E0 & Est').
    assert (length j + 2 <= s_depth cfg')%nat as Hdep.
    { cbn [s_depth deeper cfg']. rewrite length_app. simpl. lia. }
    rewrite length_app in Hlen. simpl in Hlen.
    apply (both_progress_empty cfg' j u st0 st'); [apply replayed; [lia|lia|done]|lia|done|done|].
    change (lateness cfg') with (lateness cfg). change (_horizon cfg') with (_horizon cfg).
    intros [s0 id] r0 (x0 & t0 & [Hin|Hin]%elem_of_app & _)%(proj1 Hseen).
    - specialize (Eh r0 Hc). specialize (Hpast _ _ _ _ Hin). lia.
    - unfold tail in Hin. rewrite !elem_of_cons, elem_of_nil in Hin. naive_solver. }
  assert (is_Some (seen st' !! (s, rid r))) as Hk.
  { apply (proj2 Hseen _ _ x t), elem_of_app. by left. }
  destruct (inv_history _ _ (fed_inv _ _ _ Hfed) (s, rid r)) as [Ecur _].
  destruct (Hcov _ Hk) as [(d & Hd & Hf)|(k & b & Hb & Hin)].
  - exists d. by rewrite <- Ecur.
  - rewrite (Hempty k b Hb) in Hin. by apply not_elem_of_nil in Hin.
Qed.

Lemma replay_settles_witness :
  ∃ R, replay "0.1.0" 100 ex_journal ex_config = Ok R ∧
    ∀ s r x t, Arrival (side_name s) r x t ∈ take 3 ex_journal →
      ∃ d, last (chain (s, rid r) (decisions R)) = Some d ∧ status d = FINAL.
Proof.
  apply (replay_settles "0.1.0" 100 (take 3 ex_journal) ex_config 20); [|exact ex_journal_valid| |].
  - split_and!; [simpl; lia|simpl; lia|intros m; discriminate].
  - apply short_within_depth. simpl. lia.
  - intros side r x t H. unfold ex_journal, take in H. rewrite !elem_of_cons, elem_of_nil in H.
    destruct H as [E|[E|[E|[]]]]; injection E as -> -> _ _; vm_compute; reflexivity.
Defined.
