(* ===== verification/Observation.v ===== *)
(** * Observation: the evidence, watched

    [observation.py].  Pure functions over a replayed journal: series of final
    decisions, drift verdicts from Wilson bounds, and typed alerts.  Counters and
    dictionaries are finite maps, read in sorted order where the source sorts them; when
    several entries would raise, which one does first is not modelled.  The bounds are
    computed under the engine context; the comparisons with a margin and [quantize] run
    under the ambient context, which is taken to be the default one (the same precision
    and rounding). *)

From S2P Require Import Prelude Digest Numeric DecimalText Calendar Models Rules Engine Stream.

(** ** Data *)

Definition _PLACES : decimal := lit 1 4.
Definition UNDECIDED : gset string := {[LATE; REFERENCE_AFTER_FINAL; "BLOCK_TOO_LARGE"%string]}.
Definition _digest (parts : list string) : string := hash16 (join _SEP parts).

Record DriftRule := mkDriftRule {
  reference_days : Z;
  min_decisions : Z;
  margin : decimal;
  dz : decimal
}.
Definition drift_rule_id (d : DriftRule) : string :=
  _digest ["drift"%string; str_Z (reference_days d); str_Z (min_decisions d);
           str_decimal (margin d); str_decimal (dz d)].
Record EvidenceRule := mkEvidenceRule {
  silent_days : Z;
  max_capture_failure : decimal
}.
Definition evidence_rule_id (e : EvidenceRule) : string :=
  _digest ["evidence"%string; str_Z (silent_days e); str_decimal (max_capture_failure e)].
Definition DEFAULT_DRIFT : DriftRule := mkDriftRule 14 200 (lit 5 2) (lit 196 2).
Definition DEFAULT_EVIDENCE : EvidenceRule := mkEvidenceRule 2 (lit 1 2).

Record CaptureFailure := mkFailure {
  cf_side : string;
  cf_source : string;
  cf_captured_at : option datetime
}.
Record Count := mkCount {
  c_side : string;
  c_source : string;
  c_day : date;
  c_outcome : string;
  c_forced : bool;
  c_count : Z
}.
Inductive Verdict := NORMAL | DROP | INSUFFICIENT | NO_REFERENCE.
Global Instance Verdict_eq_dec : EqDecision Verdict.
Proof. solve_decision. Defined.
Record DayVerdict := mkDayVerdict {
  v_side : string;
  v_source : string;
  v_rule : string;
  v_day : date;
  verdict : Verdict;
  matched : Z;
  decided : Z;
  reference_matched : Z;
  reference_decided : Z;
  upper : option decimal;
  reference_lower : option decimal
}.
Inductive AlertKind := MATCH_RATE_DROP | SOURCE_SILENT | CAPTURE_FAILURE | UNDECIDED_JUMP.
Definition AlertKind_value (k : AlertKind) : string :=
  match k with
  | MATCH_RATE_DROP => "MATCH_RATE_DROP" | SOURCE_SILENT => "SOURCE_SILENT"
  | CAPTURE_FAILURE => "CAPTURE_FAILURE" | UNDECIDED_JUMP => "UNDECIDED_JUMP"
  end.
Record Alert := mkAlert {
  a_kind : AlertKind;
  a_side : string;
  a_source : string;
  a_day : date;
  a_detail : string;
  a_rule_id : string
}.
Record Observation := mkObservation {
  o_counts : list Count;
  o_verdicts : list DayVerdict;
  o_alerts : list Alert
}.

(** ** Checks *)

Definition _check_drift (d : DriftRule) : res unit :=
  _ ← check (1 <=? reference_days d) (ValueError "reference_days must be an integer >= 1");
  _ ← check (1 <=? min_decisions d) (ValueError "min_decisions must be an integer >= 1");
  _ ← check (leb d0 (margin d)) (ValueError "margin must be a Decimal >= 0");
  check (ltb d0 (dz d)) (ValueError "z must be a Decimal > 0").
Definition _check_evidence (e : EvidenceRule) : res unit :=
  _ ← check (1 <=? silent_days e) (ValueError "silent_days must be an integer >= 1");
  check (leb d0 (max_capture_failure e) && leb (max_capture_failure e) d1)
    (ValueError "max_capture_failure must be a Decimal in [0, 1]").
Definition _capture_day (captured_at : option datetime) : res date :=
  t ← get captured_at (ValueError "no captured_at: it cannot be placed in time");
  offset ← get (utcoffset_us t) (ValueError "captured_at has no timezone");
  Ok (utc_date t offset).

(** ** Wilson *)

Definition _wilson (successes trials : Z) (z : decimal) : res (decimal * decimal) :=
  _ ← check ((0 <=? successes) && (successes <=? trials) && (1 <=? trials))
        (ValueError "need 0 <= successes <= trials and trials >= 1");
  let n := of_int trials in
  p ← ddiv (of_int successes) n;
  let z2 := dmul z z in
  half ← ddiv z2 (dmul (of_int 2) n);
  let centre := dadd p half in
  variance ← ddiv (dmul p (dsub d1 p)) n;
  correction ← ddiv z2 (dmul (dmul (of_int 4) n) n);
  root ← dsqrt (dadd variance correction);
  let spread := dmul z root in
  excess ← ddiv z2 n;
  let denominator := dadd d1 excess in
  low ← ddiv (dsub centre spread) denominator;
  high ← ddiv (dadd centre spread) denominator;
  Ok (dmax d0 low, dmin d1 high).
Definition wilson (successes trials : Z) (z : decimal) : res (decimal * decimal) :=
  _wilson successes trials z.
Definition _bound (value : decimal) : res string := q ← quantize value _PLACES; Ok (str_decimal q).

(** ** Series *)

Notation Origins := (gmap (string * string) (string * date)).
Definition add_origin (origins : Origins) (e : Entry) : res Origins :=
  match e with
  | Arrival side record source captured_at =>
      let key := (side, rid record) in
      match origins !! key with
      | Some _ => Ok origins
      | None => day ← _capture_day captured_at; Ok (<[key := (source, day)]> origins)
      end
  | Progress _ _ => Ok origins
  end.
Definition _origins (journal : list Entry) : res Origins := fold_res add_origin journal ∅.

Notation CountKey := (string * string * date * string * bool)%type (only parsing).
(** [counter[key] += k] *)
Definition bump {K} `{Countable K} (k : K) (by_ : Z) (c : gmap K Z) : gmap K Z :=
  <[k := default 0 (c !! k) + by_]> c.
(** The outcome a final decision is counted under. *)
Definition outcome_of (effective : gmap (Side * string) SDecision) (d : SDecision) : res string :=
  if bool_decide (dreason d = AS_COUNTERPART) then
    left_id ← get (head (input_ids d)) IndexError;
    m ← get (effective !! (LEFT, left_id)) KeyError;
    Ok (dreason m)
  else Ok (dreason d).
Definition count_final (effective : gmap (Side * string) SDecision) (origins : Origins)
    (counter : gmap CountKey Z) (e : (Side * string) * SDecision) : res (gmap CountKey Z) :=
  let '(key, d) := e in
  match status d with
  | FINAL =>
      outcome ← outcome_of effective d;
      '(source, day) ← get (origins !! (side_name key.1, key.2)) KeyError;
      Ok (bump (side_name key.1, source, day, outcome, forced d) 1 counter)
  | _ => Ok counter
  end.
Definition count_of (e : CountKey * Z) : Count :=
  let '(side, source, day, outcome, forced, count) := e in
  mkCount side source day outcome forced count.
Definition series (journal : list Entry) (result : StreamResult) : res (list Count) :=
  origins ← _origins journal;
  let eff := effective result None in
  counter ← fold_res (count_final eff origins) (map_to_list eff) ∅;
  Ok (count_of <$> sorted_by fst (map_to_list counter)).

(** ** Drift *)

Notation Daily := (gmap string (gmap date (Z * Z))).
Definition add_cell (hit : Count → bool) (days : Daily) (c : Count) : Daily :=
  let by_day := default ∅ (days !! c_source c) in
  let '(h, t) := default (0, 0) (by_day !! c_day c) in
  <[c_source c := <[c_day c := (h + (if hit c then c_count c else 0), t + c_count c)]> by_day]> days.
Definition _daily (counts : list Count) (side : string) (hit : Count → bool) : Daily :=
  foldl (add_cell hit) ∅ (List.filter (λ c, bool_decide (c_side c = side)) counts).
(** [sorted(d)] of the sources, [sorted(by_day.items())] of a source. *)
Definition rows_of (d : Daily) : list (string * list (date * (Z * Z))) :=
  (λ e : string * gmap date (Z * Z), (e.1, sorted_by fst (map_to_list e.2))) <$>
    sorted_by fst (map_to_list d).
Definition _reference (by_day : list (date * (Z * Z))) (day : date) (span : Z) : Z * Z :=
  foldl (λ acc offset,
    let '(h, t) := default (0, 0) (od_get (day - offset) by_day) in (acc.1 + h, acc.2 + t))
    (0, 0) (range 1 (span + 1)).

Definition day_verdict (side rule source : string) (drift : DriftRule) (by_day : list (date * (Z * Z)))
    (e : date * (Z * Z)) : res DayVerdict :=
  let '(day, (matched, decided)) := e in
  let '(ref_matched, ref_decided) := _reference by_day day (reference_days drift) in
  let make v up low :=
    mkDayVerdict side source rule day v matched decided ref_matched ref_decided up low in
  if decided <? min_decisions drift then Ok (make INSUFFICIENT None None)
  else if ref_decided <? min_decisions drift then Ok (make NO_REFERENCE None None)
  else
    '(_, upper) ← wilson matched decided (dz drift);
    '(reference_lower, _) ← wilson ref_matched ref_decided (dz drift);
    let dropped := ltb upper (dsub reference_lower (margin drift)) in
    Ok (make (if dropped then DROP else NORMAL) (Some upper) (Some reference_lower)).
Definition match_rate (counts : list Count) (side rule : string) (drift : DriftRule)
    : res (list DayVerdict) :=
  _ ← _check_drift drift;
  let unforced := List.filter (λ c, negb (c_forced c)) counts in
  let daily := _daily unforced side (λ c, bool_decide (c_outcome c = rule)) in
  concat_res (λ row : string * list (date * (Z * Z)),
    map_res (day_verdict side rule row.1 drift row.2) row.2) (rows_of daily).

(** ** Evidence *)

Definition see_last (last_seen : gmap (string * string) date) (e : (string * string) * (string * date))
    : gmap (string * string) date :=
  let '((side, _), (source, day)) := e in
  <[(side, source) := Z.max day (default day (last_seen !! (side, source)))]> last_seen.
Definition silent_alert (e : EvidenceRule) (last : date) (x : (string * string) * date) : option Alert :=
  let '((side, source), seen) := x in
  if silent_days e <? last - seen then
    Some (mkAlert SOURCE_SILENT side source last
      ("last capture " +:+ isoformat seen +:+ ", " +:+ str_Z (last - seen) +:+ " days before "
        +:+ isoformat last)%string (evidence_rule_id e))
  else None.
Definition _silent (origins : Origins) (e : EvidenceRule) : list Alert :=
  let last_seen := foldl see_last ∅ (map_to_list origins) in
  match (map_to_list last_seen).*2 with
  | [] => []
  | d :: ds => omap (silent_alert e (max_of d ds)) (sorted_by fst (map_to_list last_seen))
  end.

Definition count_failure (c : gmap (string * string * date) Z) (f : CaptureFailure)
    : res (gmap (string * string * date) Z) :=
  day ← _capture_day (cf_captured_at f); Ok (bump (cf_side f, cf_source f, day) 1 c).
Definition arrived_of (origins : Origins) : gmap (string * string * date) Z :=
  foldl (λ c (e : (string * string) * (string * date)), bump (e.1.1, e.2.1, e.2.2) 1 c) ∅
    (map_to_list origins).
Definition failure_alert (drift : DriftRule) (ev : EvidenceRule) (arrived : gmap (string * string * date) Z)
    (x : (string * string * date) * Z) : res (list Alert) :=
  let '((side, source, day), bad) := x in
  let total := bad + default 0 (arrived !! (side, source, day)) in
  if total <? min_decisions drift then Ok []
  else
    '(lower, _) ← wilson bad total (dz drift);
    if ltb (max_capture_failure ev) lower then
      text ← _bound lower;
      Ok [mkAlert CAPTURE_FAILURE side source day
            (str_Z bad +:+ "/" +:+ str_Z total +:+ " failed, lower bound " +:+ text +:+ " > "
              +:+ str_decimal (max_capture_failure ev))%string (evidence_rule_id ev)]
    else Ok [].
Definition _capture_failures (origins : Origins) (failures : list CaptureFailure) (drift : DriftRule)
    (ev : EvidenceRule) : res (list Alert) :=
  failed ← fold_res count_failure failures ∅;
  concat_res (failure_alert drift ev (arrived_of origins)) (sorted_by fst (map_to_list failed)).

(** [s.split("+")] *)
Fixpoint split_on (c : ascii) (s : string) : list string :=
  match s with
  | EmptyString => [""%string]
  | String a s =>
      if Ascii.eqb a c then ""%string :: split_on c s
      else match split_on c s with
           | [] => [String a ""]
           | w :: ws => String a w :: ws
           end
  end.
Definition undecided_hit (c : Count) : bool :=
  c_forced c || existsb (λ w, bool_decide (w ∈ UNDECIDED)) (split_on "+" (c_outcome c)).
Definition undecided_alert (side source : string) (drift : DriftRule) (by_day : list (date * (Z * Z)))
    (e : date * (Z * Z)) : res (list Alert) :=
  let '(day, (undecided, total)) := e in
  let '(ref_undecided, ref_total) := _reference by_day day (reference_days drift) in
  if (total <? min_decisions drift) || (ref_total <? min_decisions drift) then Ok []
  else
    '(lower, _) ← wilson undecided total (dz drift);
    '(_, reference_upper) ← wilson ref_undecided ref_total (dz drift);
    if ltb (dadd reference_upper (margin drift)) lower then
      low ← _bound lower;
      up ← _bound reference_upper;
      Ok [mkAlert UNDECIDED_JUMP side source day
            (str_Z undecided +:+ "/" +:+ str_Z total +:+ " undecided, lower bound " +:+ low +:+ " > "
              +:+ "reference upper " +:+ up +:+ " + margin " +:+ str_decimal (margin drift))%string
            (drift_rule_id drift)]
    else Ok [].
Definition _undecided (counts : list Count) (drift : DriftRule) : res (list Alert) :=
  concat_res (λ side,
    concat_res (λ row : string * list (date * (Z * Z)),
      concat_res (undecided_alert side row.1 drift row.2) row.2)
      (rows_of (_daily counts side undecided_hit)))
    (side_name <$> SIDES).

(** ** All together *)

Definition drop_alert (drift : DriftRule) (v : DayVerdict) : res (list Alert) :=
  match verdict v with
  | DROP =>
      up ← get (upper v) TypeError;
      low ← get (reference_lower v) TypeError;
      up ← _bound up;
      low ← _bound low;
      Ok [mkAlert MATCH_RATE_DROP (v_side v) (v_source v) (v_day v)
            (v_rule v +:+ " " +:+ str_Z (matched v) +:+ "/" +:+ str_Z (decided v) +:+ ", upper bound "
              +:+ up +:+ " < reference lower " +:+ low +:+ " - margin " +:+ str_decimal (margin drift))%string
            (drift_rule_id drift)]
  | _ => Ok []
  end.
Definition alert_key (a : Alert) : date * string * string * string * string :=
  (a_day a, AlertKind_value (a_kind a), a_side a, a_source a, a_detail a).
Definition observe (journal : list Entry) (result : StreamResult) (failures : list CaptureFailure)
    (drift : DriftRule) (ev : EvidenceRule) (rules : list string) : res Observation :=
  _ ← _check_drift drift;
  _ ← _check_evidence ev;
  origins ← _origins journal;
  counts ← series journal result;
  verdicts ← concat_res (λ side, concat_res (λ rule, match_rate counts side rule drift) rules)
               (side_name <$> SIDES);
  drops ← concat_res (drop_alert drift) verdicts;
  failed ← _capture_failures origins failures drift ev;
  undecided ← _undecided counts drift;
  Ok (mkObservation counts verdicts
        (sorted_by alert_key (drops ++ _silent origins ev ++ failed ++ undecided))).

Example split_ex : split_on "+" "A+B" = ["A"; "B"]%string.
Proof. reflexivity. Qed.
Example wilson_ex :
  ('(low, high) ← wilson 150 200 (lit 196 2); l ← _bound low; h ← _bound high; Ok (l, h))
  = Ok ("0.6857", "0.8049")%string.
Proof. vm_compute. reflexivity. Qed.
