(* ===== verification/ObservationTheorems.v ===== *)
(** * Observation: what the watched evidence guarantees

    The Wilson interval is always defined and lies in [0, 1]; the series counts every
    final decision once; a day's verdict is computed from exactly the counts of that
    day and of its reference days. *)

From Stdlib Require Import QArith Lqa.
From S2P Require Import Prelude Digest Numeric DecimalText Calendar Models Rules Engine Stream Observation.
Open Scope Z_scope.

(** ** Lemmas: signs *)

Lemma dval_nonneg x : dneg x = false → (0 <= dval x)%Q.
Proof. intros H. rewrite dval_mag, H. apply dmag_nonneg. Qed.
Lemma ddiv_sign x y q : ddiv x y = Ok q → dneg q = xorb (dneg x) (dneg y).
Proof.
  unfold ddiv. destruct (dzero y); [by destruct (dzero x)|].
  destruct (dzero x); [intros [= <-]; by rewrite fix_neg|].
  destruct (_ =? 0)%N; [destruct (strip _ _ _ _)|]; intros [= <-]; by rewrite fix_neg.
Qed.
Lemma dmul_sign x y : dneg x = false → dneg y = false → dneg (dmul x y) = false.
Proof. intros Hx Hy. unfold dmul. rewrite fix_neg. simpl. by rewrite Hx, Hy. Qed.
Lemma dadd_sign x y : dneg x = false → (0 <= dval x + dval y)%Q → dneg (dadd x y) = false.
Proof.
  intros Hx Hs. unfold dadd. rewrite fix_neg. apply Bool.not_true_iff_false. intros Hneg.
  pose proof (dadd_exact_val x y) as Hv. rewrite <- Hv, dval_mag, Hneg in Hs.
  pose proof (dmag_nonneg (dadd_exact x y)) as Hm.
  assert (dzero (dadd_exact x y) = true) as Hz by (apply dzero_val; rewrite dval_mag, Hneg; lra).
  unfold dzero, dadd_exact in Hz. cbn [dcoef] in Hz. apply N.eqb_eq in Hz.
  unfold dadd_exact in Hneg. cbn [dneg] in Hneg. destruct (Z.eqb_spec (dscale x (Z.min (dexp x) (dexp y)) +
    dscale y (Z.min (dexp x) (dexp y))) 0) as [_|Hn]; [|lia].
  rewrite Hx in Hneg. by destruct (dzero x && dzero y).
Qed.
Lemma dsqrt_nonneg x : dneg x = false → ∃ r, dsqrt x = Ok r ∧ dneg r = false.
Proof.
  intros Hx. unfold dsqrt. rewrite Hx. destruct (dzero x); [eexists; split; [done|by rewrite fix_neg]|].
  cbn zeta. destruct (_ && _); eexists; (split; [done|by rewrite fix_neg]).
Qed.
Lemma of_int_sign n : 0 <= n → dneg (of_int n) = false.
Proof. intros H. unfold of_int. simpl. by apply Z.ltb_ge. Qed.
Lemma dzero_false x : (0 < dval x)%Q → dzero x = false.
Proof. intros H. apply Bool.not_true_iff_false. rewrite dzero_val. lra. Qed.
Lemma dmul_ge_1 x y : (1 <= dval x)%Q → (1 <= dval y)%Q → (1 <= dval (dmul x y))%Q.
Proof.
  intros Hx Hy. change 1%Q with (dval d1). apply dmul_ge; [by vm_compute|]. change (dval d1) with 1%Q. nra.
Qed.
Lemma of_int_ge_1 n : 1 <= n → (1 <= dval (of_int n))%Q.
Proof. intros H. rewrite of_int_val. change 1%Q with (inject_Z 1). by rewrite <- Zle_Qle. Qed.

(** ** The Wilson interval *)

Lemma wilson_ok s n z : 0 <= s <= n → 1 <= n → (0 < dval z)%Q →
  ∃ low high, wilson s n z = Ok (low, high) ∧
    (0 <= dval low)%Q ∧ (0 <= dval high)%Q ∧ (dval high <= 1)%Q.
Proof.
  intros Hs Hn Hz. unfold wilson, _wilson.
  assert ((0 <=? s) && (s <=? n) && (1 <=? n) = true) as -> by
    (rewrite !andb_true_iff, !Z.leb_le; lia).
  cbn [check mbind res_bind]. pose proof (of_int_ge_1 n Hn) as Hn1.
  pose proof (of_int_sign n ltac:(lia)) as Hns. pose proof (dzero_false (of_int n) ltac:(lra)) as Hnz.
  destruct (ddiv_unit (of_int s) (of_int n)) as (p & Ep & Hp0 & Hp1).
  { apply dval_nonneg, of_int_sign. lia. }
  { rewrite !of_int_val, <- Zle_Qle. lia. }
  { lra. }
  pose proof (ddiv_sign _ _ _ Ep) as Hps. rewrite Hns, (of_int_sign s) in Hps by lia. cbn [xorb] in Hps.
  rewrite Ep. cbn [mbind res_bind].
  destruct (dval_pos_sign z Hz) as [Hzs _]. pose proof (dmul_sign z z Hzs Hzs) as Hz2.
  assert (∀ y, (1 <= dval y)%Q → dneg y = false → ∃ q, ddiv (dmul z z) y = Ok q ∧ dneg q = false) as Hdiv.
  { intros y Hy Hys. destruct (ddiv_total (dmul z z) y) as [q Eq]; [apply dzero_false; lra|].
    exists q. split; [done|]. apply ddiv_sign in Eq. by rewrite Eq, Hz2, Hys. }
  destruct (Hdiv (dmul (of_int 2) (of_int n))) as (half & -> & Hhs);
    [by apply dmul_ge_1; [apply of_int_ge_1|]|by apply dmul_sign|]. cbn [mbind res_bind].
  assert (dneg (dsub d1 p) = false) as H1p.
  { apply dadd_sign; [done|]. rewrite copy_negate_val. change (dval d1) with 1%Q. lra. }
  destruct (ddiv_total (dmul p (dsub d1 p)) (of_int n) Hnz) as [variance Ev]. rewrite Ev. cbn [mbind res_bind].
  apply ddiv_sign in Ev. rewrite Hns, (dmul_sign _ _ Hps H1p) in Ev. cbn [xorb] in Ev.
  destruct (Hdiv (dmul (dmul (of_int 4) (of_int n)) (of_int n))) as (correction & -> & Hcs).
  { apply dmul_ge_1; [|done]. by apply dmul_ge_1; [apply of_int_ge_1|]. }
  { apply dmul_sign; [|done]. by apply dmul_sign. }
  cbn [mbind res_bind].
  destruct (dsqrt_nonneg (dadd variance correction)) as (root & -> & Hrs).
  { apply dadd_sign; [done|]. pose proof (dval_nonneg _ Ev). pose proof (dval_nonneg _ Hcs). lra. }
  cbn [mbind res_bind]. destruct (Hdiv (of_int n) Hn1 Hns) as (excess & -> & Hes). cbn [mbind res_bind].
  assert (1 <= dval (dadd d1 excess))%Q as Hden.
  { change 1%Q with (dval d1) at 1. apply dadd_ge; [by vm_compute|]. pose proof (dval_nonneg _ Hes). lra. }
  pose proof (dzero_false (dadd d1 excess) ltac:(lra)) as Hdz.
  destruct (ddiv_total (dsub (dadd p half) (dmul z root)) _ Hdz) as [low ->]. cbn [mbind res_bind].
  assert (dneg (dadd p half) = false) as Hcentre.
  { apply dadd_sign; [done|]. pose proof (dval_nonneg _ Hhs). lra. }
  destruct (ddiv_nonneg (dadd (dadd p half) (dmul z root)) (dadd d1 excess)) as (high & -> & Hhigh).
  { apply dadd_sign; [done|]. pose proof (dval_nonneg _ Hcentre).
    pose proof (dval_nonneg _ (dmul_sign z root Hzs Hrs)). lra. }
  { apply dval_pos_sign. lra. }
  { done. }
  cbn [mbind res_bind]. eexists _, _. split; [done|]. unfold dmax, dmin. split; [|split].
  - destruct (ltb d0 low) eqn:E; [apply dlt_val in E; change (dval d0) with 0%Q in E; lra|done].
  - by destruct (ltb high d1).
  - destruct (ltb high d1) eqn:E; [|done]. apply dlt_val in E. change (dval d1) with 1%Q in E. lra.
Qed.

(** ** Lemmas: counters *)

Definition total (l : list Z) : Z := foldr Z.add 0 l.
Lemma total_cons x l : total (x :: l) = x + total l.
Proof. done. Qed.
Lemma total_app l k : total (l ++ k) = total l + total k.
Proof. induction l as [|x l IH]; simpl; [done|]. rewrite IH. lia. Qed.
Global Instance total_perm : Proper (Permutation ==> (=)) total.
Proof. intros l k H. induction H; simpl; lia. Qed.
Lemma map_total_insert {K} `{Countable K} (k : K) v (c : gmap K Z) : c !! k = None →
  total (map_to_list (<[k := v]> c)).*2 = v + total (map_to_list c).*2.
Proof. intros Hk. by rewrite (map_to_list_insert c k v Hk). Qed.

Section counter.
Context {K : Type} `{Countable K}.
Lemma bump_total (k : K) v (c : gmap K Z) :
  total (map_to_list (bump k v c)).*2 = total (map_to_list c).*2 + v.
Proof.
  unfold bump. destruct (c !! k) as [x|] eqn:Ek.
  - rewrite <- (insert_delete_id c k x Ek) at 2. rewrite <- insert_delete_eq.
    rewrite !map_total_insert by apply lookup_delete_eq. simpl. lia.
  - rewrite map_total_insert by done. simpl. lia.
Qed.
Lemma bump_pos (k : K) v (c : gmap K Z) : 0 < v → (∀ k x, c !! k = Some x → 0 < x) →
  ∀ k' x, bump k v c !! k' = Some x → 0 < x.
Proof.
  intros Hv Hc k' x. unfold bump. rewrite lookup_insert_Some. intros [[<- <-]|[_ Hx]]; [|by eapply Hc].
  destruct (c !! k) as [y|] eqn:E; simpl; [|lia]. specialize (Hc k y E). lia.
Qed.
End counter.

Definition is_FINAL (e : (Side * string) * SDecision) : bool := bool_decide (status e.2 = FINAL).

Lemma count_finals_total eff origins l c c' : fold_res (count_final eff origins) l c = Ok c' →
  (∀ k x, c !! k = Some x → 0 < x) →
  total (map_to_list c').*2 = total (map_to_list c).*2 + Z.of_nat (length (List.filter is_FINAL l)) ∧
  ∀ k x, c' !! k = Some x → 0 < x.
Proof.
  revert c. induction l as [|[key d] l IH]; intros c H Hpos; cbn [fold_res] in H.
  { injection H as <-. simpl. split; [lia|done]. }
  apply bind_Ok in H as (c1 & H1 & H). unfold count_final in H1. simpl.
  unfold is_FINAL at 1. simpl. destruct (status d) eqn:Es; simpl in H1.
  - injection H1 as <-. apply IH; done.
  - apply bind_Ok in H1 as (outcome & _ & H1). apply bind_Ok in H1 as ([source day] & _ & [= <-]).
    apply IH in H as [Hs Hp]; [|by apply bump_pos]. rewrite Hs, bump_total. split; [simpl; lia|done].
  - injection H1 as <-. apply IH; done.
Qed.

(** ** Lemmas: the cells of a day *)

Definition sum_counts (p : Count → bool) (l : list Count) : Z := total (c_count <$> List.filter p l).
Definition on_day (source : string) (day : date) (c : Count) : bool :=
  bool_decide (c_source c = source) && (c_day c =? day).
Definition cell (d : gmap string (gmap date (Z * Z))) (source : string) (day : date) : option (Z * Z) :=
  by_day ← d !! source; by_day !! day.

Lemma cell_add hit d c source day : cell (add_cell hit d c) source day =
  if on_day source day c then
    let '(h, t) := default (0, 0) (cell d source day) in
    Some (h + (if hit c then c_count c else 0), t + c_count c)
  else cell d source day.
Proof.
  unfold add_cell, cell, on_day. destruct (default (0, 0) (default ∅ (d !! c_source c) !! c_day c)) as [h t] eqn:E.
  case_bool_decide as Es; simpl.
  - subst source. rewrite lookup_insert_eq. simpl. destruct (Z.eqb_spec (c_day c) day) as [<-|Hne].
    + rewrite lookup_insert_eq. destruct (d !! c_source c) as [m|]; simpl in *; [by rewrite E|].
      rewrite lookup_empty in E. by injection E as <- <-.
    + rewrite lookup_insert_ne by done. destruct (d !! c_source c) as [m|]; simpl; [done|].
      by rewrite lookup_empty.
  - by rewrite lookup_insert_ne.
Qed.
Lemma filter_existsb_none {A} (p q : A → bool) l : existsb q l = false →
  (∀ x, p x = true → q x = true) → List.filter p l = [].
Proof.
  intros E Hp. apply filter_bool_none. intros x Hx. apply Bool.not_true_iff_false. intros Hpx.
  apply Bool.not_true_iff_false in E. apply E, existsb_exists. exists x.
  split; [by apply list_elem_of_In|by apply Hp].
Qed.
Lemma sum_counts_cons p c l : sum_counts p (c :: l) = (if p c then c_count c else 0) + sum_counts p l.
Proof. unfold sum_counts. cbn [List.filter]. by destruct (p c). Qed.
Lemma sum_counts_none p q l : existsb q l = false → (∀ x, p x = true → q x = true) → sum_counts p l = 0.
Proof. intros E H. unfold sum_counts. by rewrite (filter_existsb_none p q l E H). Qed.

Lemma cells_spec hit l d source day :
  cell (foldl (add_cell hit) d l) source day =
  if existsb (on_day source day) l then
    let '(h, t) := default (0, 0) (cell d source day) in
    Some (h + sum_counts (λ c, on_day source day c && hit c) l, t + sum_counts (on_day source day) l)
  else cell d source day.
Proof.
  revert d. induction l as [|c l IH]; intros d; [done|]. cbn [foldl existsb].
  rewrite IH, cell_add, !sum_counts_cons. destruct (on_day source day c) eqn:Ec; cbn [orb andb]; [|done].
  destruct (default (0, 0) (cell d source day)) as [h t]. cbn [default from_option id].
  destruct (existsb (on_day source day) l) eqn:El; [f_equal; f_equal; lia|].
  rewrite (sum_counts_none (on_day source day) _ _ El) by done.
  rewrite (sum_counts_none (λ c, on_day source day c && hit c) _ _ El) by (by intros x [? _]%andb_true_iff).
  f_equal; f_equal; lia.
Qed.

(** ** Lemmas: the reference days *)

Lemma rows_get {A} (m : gmap Z A) k : od_get k (sorted_by fst (map_to_list m)) = m !! k.
Proof.
  assert (NoDup (sorted_by fst (map_to_list m)).*1) as Hnd.
  { rewrite (sorted_by_perm fst (map_to_list m)). apply NoDup_fst_map_to_list. }
  destruct (m !! k) as [a|] eqn:E.
  - apply od_get_in; [done|]. by rewrite elem_of_sorted_by, elem_of_map_to_list.
  - apply od_get_None. intros (e & -> & He)%list_elem_of_fmap. rewrite elem_of_sorted_by in He.
    destruct e as [k a]. apply elem_of_map_to_list in He. simpl in E. congruence.
Qed.
Lemma range_from_1 n : 0 <= n → range 1 (n + 1) = (λ i, 1 + Z.of_nat i) <$> seq 0 (Z.to_nat n).
Proof. intros H. unfold range. by replace (n + 1 - 1) with n by lia. Qed.

Lemma reference_totals by_day day span :
  _reference by_day day span =
  (total ((λ o, (default (0, 0) (od_get (day - o) by_day)).1) <$> range 1 (span + 1)),
   total ((λ o, (default (0, 0) (od_get (day - o) by_day)).2) <$> range 1 (span + 1))).
Proof.
  unfold _reference.
  enough (∀ l a b, foldl (λ acc offset, let '(h, t) := default (0, 0) (od_get (day - offset) by_day) in
      (acc.1 + h, acc.2 + t)) (a, b) l =
    (a + total ((λ o, (default (0, 0) (od_get (day - o) by_day)).1) <$> l),
     b + total ((λ o, (default (0, 0) (od_get (day - o) by_day)).2) <$> l))) as H by by rewrite H.
  induction l as [|o l IH]; intros a b; [simpl; f_equal; lia|]. rewrite !fmap_cons, !total_cons.
  cbn [foldl]. destruct (default (0, 0) (od_get (day - o) by_day)) as [h t] eqn:E. cbn [fst snd].
  rewrite IH. f_equal; lia.
Qed.

(** The days of a window, counted one by one or at once. *)
Lemma window_once x day d n :
  total ((λ i, if d =? day - (1 + Z.of_nat i) then x else 0) <$> seq 0 n) =
  if (day - Z.of_nat n <=? d) && (d <? day) then x else 0.
Proof.
  induction n as [|n IH].
  { change (0 = if (day - Z.of_nat 0 <=? d) && (d <? day) then x else 0).
    destruct (Z.leb_spec (day - Z.of_nat 0) d), (Z.ltb_spec d day); cbn [andb]; lia. }
  rewrite seq_S, fmap_app, total_app, IH, fmap_cons, total_cons, Nat.add_0_l. cbn [fmap list_fmap total foldr].
  destruct (Z.leb_spec (day - Z.of_nat n) d), (Z.ltb_spec d day), (Z.leb_spec (day - Z.of_nat (S n)) d),
    (Z.eqb_spec d (day - (1 + Z.of_nat n))); simpl; lia.
Qed.
Lemma total_plus {A} (f g : A → Z) l : total ((λ x, f x + g x) <$> l) = total (f <$> l) + total (g <$> l).
Proof. induction l as [|x l IH]; [done|]. rewrite !fmap_cons, !total_cons. lia. Qed.

Definition in_window (source : string) (day : date) (span : Z) (c : Count) : bool :=
  bool_decide (c_source c = source) && ((day - span <=? c_day c) && (c_day c <? day)).
Lemma window_sum source day span (hit : Count → bool) l : 0 <= span →
  total ((λ o, sum_counts (λ c, on_day source (day - o) c && hit c) l) <$> range 1 (span + 1)) =
  sum_counts (λ c, in_window source day span c && hit c) l.
Proof.
  intros Hs. rewrite range_from_1, <- list_fmap_compose by done. induction l as [|c l IH].
  { induction (seq 0 (Z.to_nat span)) as [|i k IHk]; [done|]. by rewrite fmap_cons, total_cons, IHk. }
  rewrite sum_counts_cons, <- IH.
  rewrite (list_fmap_ext _ (λ i, (if c_day c =? day - (1 + Z.of_nat i)
      then (if bool_decide (c_source c = source) && hit c then c_count c else 0) else 0) +
    sum_counts (λ c, on_day source (day - (1 + Z.of_nat i)) c && hit c) l)).
  2: { intros _ i _. unfold compose. rewrite sum_counts_cons. unfold on_day.
       destruct (bool_decide _), (hit c), (_ =? _); simpl; lia. }
  rewrite total_plus, window_once, Z2Nat.id by done. f_equal. unfold in_window.
  destruct (bool_decide _), (hit c), (_ <=? _), (_ <? _); done.
Qed.

(** ** Lemmas: verdicts *)

Lemma map_res_elem {A B} (f : A → res B) l ys y : map_res f l = Ok ys → y ∈ ys ↔ ∃ x, x ∈ l ∧ f x = Ok y.
Proof.
  intros H. apply map_res_Forall2 in H. split.
  - intros (i & Hi)%list_elem_of_lookup. destruct (Forall2_lookup_r _ _ _ _ _ H Hi) as (x & Hx & E).
    exists x. split; [by eapply list_elem_of_lookup_2|done].
  - intros (x & (i & Hi)%list_elem_of_lookup & E). destruct (Forall2_lookup_l _ _ _ _ _ H Hi) as (y' & Hy & E').
    rewrite E in E'. injection E' as <-. by eapply list_elem_of_lookup_2.
Qed.

(** The counts a rate is computed on: one side, forced decisions aside. *)
Definition unforced_on (side : string) (counts : list Count) : list Count :=
  List.filter (λ c, bool_decide (c_side c = side)) (List.filter (λ c, negb (c_forced c)) counts).

(** What a verdict says, by its kind. *)
Definition verdict_ok (drift : DriftRule) (v : DayVerdict) : Prop :=
  match verdict v with
  | INSUFFICIENT => decided v < min_decisions drift
  | NO_REFERENCE => min_decisions drift <= decided v ∧ reference_decided v < min_decisions drift
  | k =>
      min_decisions drift <= decided v ∧ min_decisions drift <= reference_decided v ∧
      ∃ low up low' up', wilson (matched v) (decided v) (dz drift) = Ok (low, up) ∧
        wilson (reference_matched v) (reference_decided v) (dz drift) = Ok (low', up') ∧
        upper v = Some up ∧ reference_lower v = Some low' ∧
        (k = DROP ↔ (dval up < dval (dsub low' (margin drift)))%Q)
  end.

Lemma day_verdict_ok side rule source drift by_day e v :
  day_verdict side rule source drift by_day e = Ok v →
  v_side v = side ∧ v_rule v = rule ∧ v_source v = source ∧ v_day v = e.1 ∧
  (matched v, decided v) = e.2 ∧
  (reference_matched v, reference_decided v) = _reference by_day e.1 (reference_days drift) ∧
  verdict_ok drift v.
Proof.
  destruct e as [day [m n]]. unfold day_verdict. destruct (_reference _ _ _) as [rm rd] eqn:Er.
  destruct (Z.ltb_spec n (min_decisions drift)); [intros [= <-]; by split_and!|].
  destruct (Z.ltb_spec rd (min_decisions drift)); [intros [= <-]; by split_and!|]. intros H1.
  apply bind_Ok in H1 as ([low up] & Hw & H1). apply bind_Ok in H1 as ([low' up'] & Hw' & [= <-]).
  split_and!; [done..|]. unfold verdict_ok. simpl.
  destruct (ltb up (dsub low' (margin drift))) eqn:Ed; simpl; (split; [done|]); (split; [done|]);
    exists low, up, low', up'; (split_and!; [done..|]); rewrite <- dlt_val, Ed; done.
Qed.

Lemma rows_daily counts side hit source by_day :
  (source, by_day) ∈ rows_of (_daily counts side hit) → ∀ day,
  od_get day by_day = cell (_daily counts side hit) source day.
Proof.
  unfold rows_of. intros ([s m] & E & Hin)%list_elem_of_fmap day. injection E as -> ->.
  rewrite elem_of_sorted_by, elem_of_map_to_list in Hin. unfold cell. rewrite Hin. simpl. apply rows_get.
Qed.
Lemma rows_daily_in counts side hit source day x : cell (_daily counts side hit) source day = Some x →
  ∃ by_day, (source, by_day) ∈ rows_of (_daily counts side hit) ∧ (day, x) ∈ by_day.
Proof.
  unfold cell. intros H. destruct (_daily counts side hit !! source) as [m|] eqn:E; [|done]. simpl in H.
  exists (sorted_by fst (map_to_list m)). split.
  - apply list_elem_of_fmap. exists (source, m). split; [done|]. by rewrite elem_of_sorted_by, elem_of_map_to_list.
  - by rewrite elem_of_sorted_by, elem_of_map_to_list.
Qed.
Lemma daily_cell counts side hit source day :
  cell (_daily counts side hit) source day =
  let mine := List.filter (λ c, bool_decide (c_side c = side)) counts in
  if existsb (on_day source day) mine
  then Some (sum_counts (λ c, on_day source day c && hit c) mine, sum_counts (on_day source day) mine)
  else None.
Proof.
  unfold _daily. rewrite cells_spec. unfold cell at 1. rewrite lookup_empty. simpl. by destruct (existsb _ _).
Qed.
(** The cell of a day, zero when it has no counts. *)
Lemma daily_cell_default counts side hit source day :
  let mine := List.filter (λ c, bool_decide (c_side c = side)) counts in
  default (0, 0) (cell (_daily counts side hit) source day) =
  (sum_counts (λ c, on_day source day c && hit c) mine, sum_counts (on_day source day) mine).
Proof.
  rewrite daily_cell. cbn zeta. set (mine := List.filter _ counts).
  destruct (existsb (on_day source day) mine) eqn:E; [done|]. cbn [default from_option].
  rewrite (sum_counts_none (on_day source day) (on_day source day) _ E) by done.
  by rewrite (sum_counts_none (λ c, on_day source day c && hit c) (on_day source day) _ E) by (by intros x [? _]%andb_true_iff).
Qed.
Lemma reference_spec counts side hit source day span by_day : 0 <= span →
  (source, by_day) ∈ rows_of (_daily counts side hit) →
  let mine := List.filter (λ c, bool_decide (c_side c = side)) counts in
  _reference by_day day span =
  (sum_counts (λ c, in_window source day span c && hit c) mine, sum_counts (in_window source day span) mine).
Proof.
  intros Hs Hin mine. rewrite reference_totals. f_equal.
  - rewrite <- window_sum by done. f_equal. apply list_fmap_ext. intros _ o _.
    rewrite (rows_daily _ _ hit _ _ Hin), daily_cell_default. done.
  - assert (∀ l, sum_counts (in_window source day span) l =
      sum_counts (λ c, in_window source day span c && true) l) as E.
    { intros l. unfold sum_counts. do 2 f_equal. apply List.filter_ext. intros c. by rewrite andb_true_r. }
    rewrite E, <- window_sum by done. f_equal. apply list_fmap_ext. intros _ o _.
    rewrite (rows_daily _ _ hit _ _ Hin), daily_cell_default. cbn [snd]. unfold sum_counts. do 2 f_equal.
    apply List.filter_ext. intros c. by rewrite andb_true_r.
Qed.

Lemma sum_counts_nonneg p l : (∀ c, c ∈ l → 0 <= c_count c) → 0 <= sum_counts p l.
Proof.
  induction l as [|c l IH]; intros H; [done|]. rewrite sum_counts_cons.
  assert (0 <= c_count c) by (apply H; left). assert (0 <= sum_counts p l) by (apply IH; intros; apply H; by right).
  destruct (p c); lia.
Qed.
Lemma sum_counts_le p q l : (∀ c, p c = true → q c = true) → (∀ c, c ∈ l → 0 <= c_count c) →
  sum_counts p l <= sum_counts q l.
Proof.
  intros Hpq. induction l as [|c l IH]; intros H; [done|]. rewrite !sum_counts_cons.
  assert (0 <= c_count c) by (apply H; left).
  assert (sum_counts p l <= sum_counts q l) by (apply IH; intros; apply H; by right).
  destruct (p c) eqn:E; [rewrite (Hpq c E); lia|]. destruct (q c); lia.
Qed.
Lemma sum_counts_and p q l : (∀ c, c ∈ l → 0 <= c_count c) →
  0 <= sum_counts (λ c, p c && q c) l <= sum_counts p l.
Proof.
  intros H. split; [by apply sum_counts_nonneg|].
  apply sum_counts_le; [|done]. by intros c [? _]%andb_true_iff.
Qed.

(** The counts of a verdict, as sums over the counts it was computed from. *)
Definition verdict_counts (mine : list Count) (hit : Count → bool) (span : Z) (v : DayVerdict) : Prop :=
  matched v = sum_counts (λ c, on_day (v_source v) (v_day v) c && hit c) mine ∧
  decided v = sum_counts (on_day (v_source v) (v_day v)) mine ∧
  reference_matched v = sum_counts (λ c, in_window (v_source v) (v_day v) span c && hit c) mine ∧
  reference_decided v = sum_counts (in_window (v_source v) (v_day v) span) mine.

Lemma check_drift_ok drift : _check_drift drift = Ok tt →
  1 <= reference_days drift ∧ 1 <= min_decisions drift ∧ (0 < dval (dz drift))%Q.
Proof.
  unfold _check_drift. intros H. apply bind_Ok in H as (? & H1%check_Ok & H).
  apply bind_Ok in H as (? & H2%check_Ok & H). apply bind_Ok in H as (? & _ & H3%check_Ok).
  apply Z.leb_le in H1, H2. apply dlt_val in H3. done.
Qed.

Section verdicts.
Context (counts : list Count) (side rule : string) (drift : DriftRule).
Notation unforced := (List.filter (λ c, negb (c_forced c)) counts).
Notation hit := (λ c, bool_decide (c_outcome c = rule)).
Notation daily := (_daily unforced side hit).
Context (Hdrift : _check_drift drift = Ok tt).

Lemma row_cells source by_day day x : (source, by_day) ∈ rows_of daily → (day, x) ∈ by_day →
  let mine := unforced_on side counts in
  x = (sum_counts (λ c, on_day source day c && hit c) mine, sum_counts (on_day source day) mine) ∧
  _reference by_day day (reference_days drift) =
    (sum_counts (λ c, in_window source day (reference_days drift) c && hit c) mine,
     sum_counts (in_window source day (reference_days drift)) mine).
Proof.
  intros Hrow Hx mine. destruct (check_drift_ok drift Hdrift) as (Hspan & _ & _). split.
  - pose proof (rows_daily _ _ _ _ _ Hrow day) as E.
    assert (od_get day by_day = Some x) as Ex.
    { unfold rows_of in Hrow. apply list_elem_of_fmap in Hrow as ([s m] & [= -> ->] & _). cbn [snd] in Hx |- *.
      rewrite elem_of_sorted_by, elem_of_map_to_list in Hx. by rewrite rows_get. }
    rewrite Ex in E. rewrite <- (daily_cell_default unforced side hit source day), <- E. done.
  - by apply reference_spec; [lia|].
Qed.

Lemma day_verdict_total source by_day e : (∀ c, c ∈ counts → 0 <= c_count c) →
  (source, by_day) ∈ rows_of daily → e ∈ by_day →
  ∃ v, day_verdict side rule source drift by_day e = Ok v.
Proof.
  intros Hpos Hrow He. destruct e as [day x]. destruct (check_drift_ok drift Hdrift) as (_ & Hmin & Hz).
  assert (∀ c, c ∈ unforced_on side counts → 0 <= c_count c) as Hmine.
  { intros c Hc. apply Hpos. unfold unforced_on in Hc. apply list_elem_of_In in Hc.
    apply filter_In in Hc as [Hc _]. apply filter_In in Hc as [Hc _]. by apply list_elem_of_In. }
  destruct (row_cells _ _ _ _ Hrow He) as [-> Er]. unfold day_verdict. rewrite Er.
  destruct (Z.ltb_spec (sum_counts (on_day source day) (unforced_on side counts)) (min_decisions drift)); [eauto|].
  destruct (Z.ltb_spec (sum_counts (in_window source day (reference_days drift)) (unforced_on side counts))
    (min_decisions drift)); [eauto|].
  repeat match goal with |- context [wilson ?a ?b (dz drift)] =>
    let l := fresh "l" in let u := fresh "u" in
    destruct (wilson_ok a b (dz drift)) as (l & u & -> & _);
      [by apply sum_counts_and|lia|done|]; cbn [mbind res_bind]
  end.
  eauto.
Qed.
End verdicts.

(** ** The claims *)

(** For every number of trials and any positive z the Wilson interval is defined,
    non-negative and at most one, and any other input is refused. *)
Theorem wilson_defined s n z : (0 < dval z)%Q →
  if (0 <=? s) && (s <=? n) && (1 <=? n)
  then ∃ low high, wilson s n z = Ok (low, high) ∧
         (0 <= dval low)%Q ∧ (0 <= dval high)%Q ∧ (dval high <= 1)%Q
  else wilson s n z = Raise (ValueError "need 0 <= successes <= trials and trials >= 1").
Proof.
  intros Hz. destruct (_ && _) eqn:E.
  - rewrite !andb_true_iff, !Z.leb_le in E. destruct E. by apply wilson_ok.
  - unfold wilson, _wilson. by rewrite E.
Qed.

(** C24: a series counts every final decision exactly once: its counts are positive, one
    per side, source, day, outcome and forced flag, and add up to the final decisions. *)
Theorem series_conservation journal result counts : series journal result = Ok counts →
  total (c_count <$> counts) =
    Z.of_nat (length (List.filter is_FINAL (map_to_list (effective result None)))) ∧
  (∀ c, c ∈ counts → 0 < c_count c) ∧
  NoDup ((λ c, (c_side c, c_source c, c_day c, c_outcome c, c_forced c)) <$> counts).
Proof.
  unfold series. intros H. apply bind_Ok in H as (origins & _ & H). cbn zeta in H.
  apply bind_Ok in H as (counter & H & [= <-]).
  apply count_finals_total in H as [Hs Hp]; [|by intros ?? ?%lookup_empty_Some].
  rewrite map_to_list_empty in Hs. cbn [fmap list_fmap total foldr] in Hs. rewrite Z.add_0_l in Hs. split_and!.
  - rewrite <- Hs, <- list_fmap_compose, (sorted_by_perm fst (map_to_list counter)). f_equal.
    apply list_fmap_ext. by intros _ [[[[[? ?] ?] ?] ?] ?] _.
  - intros c (e & -> & He)%list_elem_of_fmap. rewrite elem_of_sorted_by in He.
    destruct e as [k x]. apply elem_of_map_to_list in He. apply Hp in He. by destruct k as [[[[? ?] ?] ?] ?].
  - rewrite <- list_fmap_compose. rewrite (list_fmap_ext _ fst) by (by intros _ [[[[[? ?] ?] ?] ?] ?] _).
    rewrite (sorted_by_perm fst (map_to_list counter)). apply NoDup_fst_map_to_list.
Qed.

(** C23: under a valid drift rule the match rate is always computed; each of its verdicts
    is about one day of one source, its counts are exactly the unforced counts of that day
    and of its reference days, and its kind says what those counts allow: too few
    decisions, too few in the reference, or a drop if and only if the upper bound of the
    day is below the lower bound of the reference less the margin; every source and day
    with an unforced count has a verdict. *)
Theorem match_rate_verdicts counts side rule drift : _check_drift drift = Ok tt →
  (∀ c, c ∈ counts → 0 <= c_count c) →
  ∃ vs, match_rate counts side rule drift = Ok vs ∧
    (∀ v, v ∈ vs → v_side v = side ∧ v_rule v = rule ∧
       verdict_counts (unforced_on side counts) (λ c, bool_decide (c_outcome c = rule)) (reference_days drift) v ∧
       verdict_ok drift v) ∧
    (∀ c, c ∈ unforced_on side counts → ∃ v, v ∈ vs ∧ v_source v = c_source c ∧ v_day v = c_day c).
Proof.
  intros Hd Hpos. unfold match_rate. rewrite Hd. cbn [mbind res_bind]. cbn zeta.
  set (daily := _daily _ _ _).
  destruct (concat_res_total (λ row : string * list (date * (Z * Z)),
    map_res (day_verdict side rule row.1 drift row.2) row.2) (rows_of daily)) as [vs Hvs].
  { intros [source by_day] Hrow. apply map_res_total. intros e He. by eapply day_verdict_total. }
  exists vs. split; [done|]. split.
  - intros v Hv. apply (concat_res_elem _ _ _ _ Hvs) in Hv as ([source by_day] & ws & Hrow & Hws & Hv).
    apply (map_res_elem _ _ _ _ Hws) in Hv as ([day x] & He & Hv). cbn [fst snd] in He, Hv.
    apply day_verdict_ok in Hv as (? & ? & Hsrc & Hday & Hx & Hr & Hok). cbn [fst snd] in Hday, Hx, Hr.
    split_and!; [done..| |done]. unfold verdict_counts. rewrite Hsrc, Hday.
    destruct (row_cells _ _ _ _ Hd _ _ _ _ Hrow He) as [Ex Er].
    rewrite Ex in Hx. rewrite Er in Hr. injection Hx as -> ->. by injection Hr as -> ->.
  - intros c Hc. destruct (cell daily (c_source c) (c_day c)) as [x|] eqn:Ex.
    + apply rows_daily_in in Ex as (by_day & Hrow & Hx).
      destruct (day_verdict_total _ _ rule _ Hd _ _ _ Hpos Hrow Hx) as [v Hv]. exists v. split.
      * apply (concat_res_elem _ _ _ _ Hvs). destruct (map_res_total (day_verdict side rule (c_source c) drift by_day)
          by_day) as [ws Hws]; [by intros e He; eapply day_verdict_total|].
        exists (c_source c, by_day), ws. split; [done|]. split; [done|].
        apply (map_res_elem _ _ _ _ Hws). eauto.
      * by apply day_verdict_ok in Hv as (_ & _ & -> & -> & _).
    + exfalso. subst daily. rewrite daily_cell in Ex. cbn zeta in Ex.
      destruct (existsb _ _) eqn:E; [done|]. apply Bool.not_true_iff_false in E. apply E, existsb_exists.
      exists c. split; [by apply list_elem_of_In|]. unfold on_day. by rewrite bool_decide_true, Z.eqb_refl.
Qed.

(** ** Witnesses *)

Definition ex_captured (side id : string) (cents day : Z) : Entry :=
  Arrival side (mkRec id "ACC" (lit cents 2) day None None) "bank"
    (Some (mkDatetime (day * DAY_US) (Some 0))).
(** A match made final by the progress of both sides. *)
Definition ex_watched : list Entry :=
  [ex_captured "left" "A1" 10000 11; ex_captured "right" "R1" 10000 12;
   Progress "left" 20; Progress "right" 20].
Definition ex_watched_result : StreamResult :=
  match replay "0.1.0" 100 ex_watched (mkConfig (mkTolerance (lit 0 2) (lit 0 0) 3 3 32) 0 None None) with
  | Ok R => R | Raise _ => mkStream [] 0
  end.
Definition ex_counts : list Count :=
  [mkCount "left" "bank" 11 "M1_EXACT" false 1; mkCount "right" "bank" 12 "M1_EXACT" false 1].
Lemma ex_series : series ex_watched ex_watched_result = Ok ex_counts.
Proof. vm_compute. reflexivity. Qed.

(** Ten steady days at 95 %, then a day at 50 %. *)
Definition ex_rates : list Count :=
  ((λ d : nat, mkCount "left" "bank" (100 + Z.of_nat d) "M1_EXACT" false 190) <$> seq 0 10) ++
  ((λ d : nat, mkCount "left" "bank" (100 + Z.of_nat d) "NO_CANDIDATE" false 10) <$> seq 0 10) ++
  [mkCount "left" "bank" 110 "M1_EXACT" false 100; mkCount "left" "bank" 110 "NO_CANDIDATE" false 100].
Example ex_verdicts :
  (vs ← match_rate ex_rates "left" "M1_EXACT" DEFAULT_DRIFT;
   Ok ((λ v, (v_day v, verdict v, (matched v, decided v), (reference_matched v, reference_decided v))) <$> drop 9 vs))
  = Ok [(109, NORMAL, (190, 200), (1710, 1800)); (110, DROP, (100, 200), (1900, 2000))].
Proof. vm_compute. reflexivity. Qed.

Lemma wilson_defined_witness :
  ∃ low high, wilson 150 200 (lit 196 2) = Ok (low, high) ∧
    (0 <= dval low)%Q ∧ (0 <= dval high)%Q ∧ (dval high <= 1)%Q.
Proof. exact (wilson_defined 150 200 (lit 196 2) ltac:(reflexivity)). Defined.
Lemma series_conservation_witness :
  total (c_count <$> ex_counts) =
    Z.of_nat (length (List.filter is_FINAL (map_to_list (effective ex_watched_result None)))) ∧
  (∀ c, c ∈ ex_counts → 0 < c_count c) ∧
  NoDup ((λ c, (c_side c, c_source c, c_day c, c_outcome c, c_forced c)) <$> ex_counts).
Proof. exact (series_conservation ex_watched ex_watched_result ex_counts ex_series). Defined.
Lemma match_rate_verdicts_witness :
  ∃ vs, match_rate ex_rates "left" "M1_EXACT" DEFAULT_DRIFT = Ok vs ∧
    (∀ v, v ∈ vs → v_side v = "left"%string ∧ v_rule v = "M1_EXACT"%string ∧
       verdict_counts (unforced_on "left" ex_rates) (λ c, bool_decide (c_outcome c = "M1_EXACT"%string)) 14 v ∧
       verdict_ok DEFAULT_DRIFT v) ∧
    (∀ c, c ∈ unforced_on "left" ex_rates → ∃ v, v ∈ vs ∧ v_source v = c_source c ∧ v_day v = c_day c).
Proof.
  apply (match_rate_verdicts ex_rates "left" "M1_EXACT" DEFAULT_DRIFT); [reflexivity|].
  assert (Forall (λ c, 0 <= c_count c) ex_rates) as H by (vm_compute; repeat constructor; discriminate).
  intros c Hc. rewrite Forall_forall in H. by apply H.
Defined.
