(* ===== verification/Stability.v ===== *)
(** * Stability: the gate on the spread between runs

    [m0/stability.py].  Repetitions carry metrics as fractions of a count; a group of
    them is judged on the worst standard deviation.  [statistics.stdev] of [Decimal]s
    is exact up to its last step, as the standard library defines it: the sum of
    squares is a [Fraction], and the square root of that fraction is taken in the
    context and then moved to the neighbouring decimal when that one is closer
    ([_decimal_sqrt_of_frac], Python 3.11 and later).  [metrics] is a finite map, so
    which of several refused metrics a message names is not modelled. *)

From Stdlib Require Import QArith Qreduction.
From S2P Require Import Prelude Numeric.

(** ** Constants *)

Definition MIN_REPS : nat := 5.
Definition EXTENDED_REPS : nat := 10.
Definition MIN_GT_OPS_PER_REP : Z := 10000.
Definition MAX_SD : decimal := lit 15 3.
Definition _ZERO : decimal := of_int 0.
Definition _ONE : decimal := of_int 1.

(** [a <= x <= b] *)
Definition between (a x b : decimal) : bool := leb a x && leb x b.

(** Is [value] exactly [k / denominator], at its own number of places? *)
Definition _achievable (value : decimal) (denominator : Z) : res bool :=
  if denominator =? 0 then Ok true
  else
    let places := if dexp value <? 0 then - dexp value else 0 in
    let quantum := Dec false 1 (- places) in
    let k := to_integral_value (dmul value (of_int denominator)) in
    if negb (between _ZERO k (of_int denominator)) then Ok false
    else
      ratio ← ddiv k (of_int denominator);
      rounded ← quantize ratio quantum;
      Ok (deqb rounded value).

Inductive Stability :=
| STABLE | STABLE_LOAD_SENSITIVE | UNSTABLE | EXTEND_TO_10 | INSUFFICIENT.
Global Instance Stability_eq_dec : EqDecision Stability.
Proof. solve_decision. Defined.

Record Repetition := mkRepetition {
  metrics : gmap string decimal;
  deterministic_gt_ops : Z
}.

(** [__post_init__]: a repetition that does not validate is never built. *)
Definition validate_repetition (r : Repetition) : res unit :=
  _ ← fold_res (λ _ e, check (between _ZERO e.2 _ONE) (ValueError "metric must be a fraction in [0, 1]"))
        (map_to_list (metrics r)) tt;
  _ ← check (0 <=? deterministic_gt_ops r) (ValueError "deterministic_gt_ops cannot be negative");
  fold_res (λ _ e,
      ok ← _achievable e.2 (deterministic_gt_ops r);
      check ok (ValueError "metric is not achievable as k/deterministic_gt_ops"))
    (map_to_list (metrics r)) tt.

(** ** [statistics.stdev] *)

Definition zsum (l : list Q) : Q := foldr Qplus 0%Q l.
(** The variance: [(n * sum(x^2) - sum(x)^2) / n / (n - 1)], in lowest terms. *)
Definition variance (xs : list decimal) : Q :=
  let qs := dval <$> xs in
  let n := inject_Z (Z.of_nat (length xs)) in
  Qred (((n * zsum ((λ q, q * q) <$> qs) - zsum qs * zsum qs) / n) / (n - 1))%Q.

(** [next_plus] and [next_minus] of a positive value: its neighbours at the precision. *)
Definition padded (x : decimal) : N * Z :=
  let k := (PREC - ndigits (dcoef x))%nat in
  ((dcoef x * 10 ^ N.of_nat k)%N, dexp x - Z.of_nat k).
Definition next_plus (x : decimal) : decimal :=
  let '(c, e) := padded x in fix_ (Dec false (c + 1) e).
Definition next_minus (x : decimal) : decimal :=
  let '(c, e) := padded x in
  if (c =? 10 ^ (N.of_nat PREC - 1))%N
  then Dec false (10 ^ N.of_nat PREC - 1) (e - 1) else Dec false (c - 1) e.

Definition Qltb (a b : Q) : bool := match (a ?= b)%Q with Lt => true | _ => false end.
(** The decimal closest to the square root of a fraction. *)
Definition sqrt_of_frac (q : Q) : res decimal :=
  if Qnum q =? 0 then Ok (lit 0 1)
  else
    ratio ← ddiv (of_int (Qnum q)) (of_int (Zpos (Qden q)));
    root ← dsqrt ratio;
    let plus := next_plus root in
    let mid := (dval root + dval plus)%Q in
    if Qltb (mid * mid) (4 * q) then Ok plus
    else
      let minus := next_minus root in
      let mid := (dval root + dval minus)%Q in
      if Qltb (4 * q) (mid * mid) then Ok minus else Ok root.
Definition stdev (xs : list decimal) : res decimal :=
  _ ← check (2 <=? length xs)%nat (ValueError "stdev requires at least two data points");
  sqrt_of_frac (variance xs).

(** ** The gate *)

(** The metric names every repetition of the group shares. *)
Definition _metric_names (reps : list Repetition) : res (gset string) :=
  first ← get (head reps) IndexError;
  let names : gset string := dom (metrics first) in
  _ ← check (negb (bool_decide (names = ∅))) (ValueError "a repetition's metrics must be nonempty");
  _ ← fold_res (λ _ r, check (bool_decide (dom (metrics r) = names))
        (ValueError "all repetitions in a group must track the same metrics")) reps tt;
  Ok names.
Definition metric_sd (reps : list Repetition) (name : string) : res decimal :=
  xs ← map_res (λ r, get (metrics r !! name) KeyError) reps;
  stdev xs.
Definition _worst_sd (reps : list Repetition) : res decimal :=
  names ← _metric_names reps;
  sds ← map_res (metric_sd reps) (elements names);
  match sds with
  | [] => Raise (ValueError "max() of nothing")
  | d :: ds => Ok (foldl dmax d ds)
  end.

Definition enough (g : list Repetition) : bool := (MIN_REPS <=? length g)%nat.
Definition enough_ops (g : list Repetition) : bool :=
  forallb (λ r, MIN_GT_OPS_PER_REP <=? deterministic_gt_ops r) g.
Definition _assess (fixed_seed variable_seed : list Repetition) : res Stability :=
  if negb (enough fixed_seed && enough variable_seed && enough_ops fixed_seed && enough_ops variable_seed)
  then Ok INSUFFICIENT
  else
    fixed_names ← _metric_names fixed_seed;
    variable_names ← _metric_names variable_seed;
    _ ← check (bool_decide (fixed_names = variable_names))
          (ValueError "fixed and variable seed groups must track the same metrics");
    fixed ← _worst_sd fixed_seed;
    if ltb MAX_SD fixed
    then Ok (if (EXTENDED_REPS <=? length fixed_seed)%nat then UNSTABLE else EXTEND_TO_10)
    else
      variable ← _worst_sd variable_seed;
      if ltb MAX_SD variable then Ok STABLE_LOAD_SENSITIVE else Ok STABLE.
Definition assess (fixed_seed variable_seed : list Repetition) : res Stability :=
  _assess fixed_seed variable_seed.

Example stdev_1 : stdev [lit 1 0; lit 2 0; lit 3 0; lit 4 0] = Ok (Dec false 1290994448735805628393088467 (-27)).
Proof. vm_compute. reflexivity. Qed.
Example stdev_at_bound : stdev [lit 925 3; lit 955 3; lit 940 3] = Ok (lit 15 3).
Proof. vm_compute. reflexivity. Qed.

(** ** Lemmas: the order of the repetitions *)

Lemma zsum_perm l k : l ≡ₚ k → (zsum l == zsum k)%Q.
Proof.
  induction 1 as [|x l k _ IH|x y l|l k m _ IH1 _ IH2]; simpl; [done| | |by rewrite IH1].
  - by rewrite IH.
  - ring.
Qed.
Lemma variance_perm xs ys : xs ≡ₚ ys → variance xs = variance ys.
Proof.
  intros H. unfold variance. apply Qred_complete. rewrite (Permutation_length H).
  rewrite (zsum_perm (dval <$> xs) (dval <$> ys)) by by rewrite H.
  rewrite (zsum_perm ((λ q, (q * q)%Q) <$> (dval <$> xs)) ((λ q, (q * q)%Q) <$> (dval <$> ys)));
    [reflexivity|by rewrite H].
Qed.
Lemma stdev_perm xs ys : xs ≡ₚ ys → stdev xs = stdev ys.
Proof. intros H. unfold stdev. by rewrite (variance_perm xs ys H), (Permutation_length H). Qed.

(** A fold of checks passes when each one does. *)
Lemma checks_Ok {A} (p : A → bool) e l :
  fold_res (λ _ x, check (p x) e) l tt = if forallb p l then Ok tt else Raise e.
Proof. induction l as [|x l IH]; simpl; [done|]. destruct (p x); simpl; [exact IH|done]. Qed.
Lemma forallb_perm {A} (p : A → bool) l k : l ≡ₚ k → forallb p l = forallb p k.
Proof.
  intros H. apply eq_iff_eq_true. rewrite !forallb_forall.
  split; intros Hp x Hx; apply Hp; revert Hx; by rewrite <- !list_elem_of_In, H.
Qed.

Lemma _metric_names_cons r0 reps : _metric_names (r0 :: reps) =
  if bool_decide (dom (metrics r0) = ∅)
  then Raise (ValueError "a repetition's metrics must be nonempty")
  else if forallb (λ r, bool_decide (dom (metrics r) = dom (metrics r0))) (r0 :: reps)
  then Ok (dom (metrics r0))
  else Raise (ValueError "all repetitions in a group must track the same metrics").
Proof.
  unfold _metric_names. cbn [head get mbind res_bind]. rewrite checks_Ok.
  destruct (bool_decide _); [done|]. by destruct (forallb _ _).
Qed.
Lemma _metric_names_Ok reps names : _metric_names reps = Ok names ↔
  names ≠ ∅ ∧ reps ≠ [] ∧ ∀ r, r ∈ reps → dom (metrics r) = names.
Proof.
  destruct reps as [|r0 reps]; [split; [done|by intros (_ & ? & _)]|]. rewrite _metric_names_cons.
  case_bool_decide as E0.
  { split; [done|]. intros (Hn & _ & H). by rewrite (H r0 ltac:(left)) in E0. }
  destruct (forallb _ _) eqn:Ef.
  - rewrite forallb_forall in Ef. split.
    + intros [= <-]. split; [done|]. split; [done|]. intros r Hr.
      apply list_elem_of_In, Ef in Hr. by apply bool_decide_eq_true in Hr.
    + intros (_ & _ & H). f_equal. apply H. left.
  - split; [done|]. intros (_ & _ & H). exfalso. apply Bool.not_true_iff_false in Ef. apply Ef, forallb_forall.
    intros r Hr%list_elem_of_In. apply bool_decide_eq_true. by rewrite (H r Hr), (H r0 ltac:(left)).
Qed.

Lemma metric_sd_perm reps reps' name sd : reps ≡ₚ reps' → metric_sd reps name = Ok sd →
  metric_sd reps' name = Ok sd.
Proof.
  intros Hp H. unfold metric_sd in *. apply bind_Ok in H as (xs & Hx & H).
  assert (∃ ys, map_res (λ r, get (metrics r !! name) KeyError) reps' = Ok ys ∧ xs ≡ₚ ys) as (ys & -> & Hxy).
  { clear H sd. revert xs Hx.
    induction Hp as [|r l k _ IH|r s l|l k m _ IH1 _ IH2]; intros xs H; simpl in *.
    - injection H as <-. by exists [].
    - apply bind_Ok in H as (x & -> & H). apply bind_Ok in H as (zs & Hz & [= <-]).
      destruct (IH zs Hz) as (ys & -> & ?). eexists. split; [done|]. by constructor.
    - apply bind_Ok in H as (x & -> & H). apply bind_Ok in H as (zs & Hz & [= <-]).
      apply bind_Ok in Hz as (y & -> & H). apply bind_Ok in H as (ws & -> & [= <-]).
      eexists. split; [done|]. constructor.
    - destruct (IH1 xs H) as (ys & Hy & ?). destruct (IH2 ys Hy) as (zs & -> & ?).
      exists zs. split; [done|]. by etrans. }
  simpl. by rewrite <- (stdev_perm xs ys Hxy).
Qed.
Lemma _worst_sd_perm reps reps' sd : reps ≡ₚ reps' → _worst_sd reps = Ok sd → _worst_sd reps' = Ok sd.
Proof.
  intros Hp H. unfold _worst_sd in *. apply bind_Ok in H as (names & Hn & H).
  apply bind_Ok in H as (sds & Hs & H).
  assert (_metric_names reps' = Ok names) as ->.
  { apply _metric_names_Ok in Hn as (Hn & Hne & Hr). apply _metric_names_Ok. split; [done|].
    split; [intros ->; by apply Permutation_nil_r in Hp|]. intros r. rewrite <- Hp. apply Hr. }
  simpl. assert (map_res (metric_sd reps') (elements names) = Ok sds) as ->; [|done].
  apply map_res_Forall2. apply map_res_Forall2 in Hs. eapply Forall2_impl; [exact Hs|].
  intros x y. by apply metric_sd_perm.
Qed.

(** ** Guarantees *)

(** Stability does not depend on the order in which the repetitions were run: any
    reordering of the two groups gives the same verdict, because the standard
    deviation of the metrics is computed exactly. *)
Theorem assess_order_free f v f' v' verdict : f ≡ₚ f' → v ≡ₚ v' →
  assess f v = Ok verdict → assess f' v' = Ok verdict.
Proof.
  intros Hf Hv. unfold assess, _assess, enough, enough_ops.
  rewrite (Permutation_length Hf), (Permutation_length Hv).
  rewrite (forallb_perm _ _ _ Hf), (forallb_perm _ _ _ Hv). destruct (negb _); [done|].
  intros H. apply bind_Ok in H as (fn & Hfn & H). apply bind_Ok in H as (vn & Hvn & H).
  apply bind_Ok in H as (u & He & H). apply bind_Ok in H as (fsd & Hfsd & H).
  assert (∀ l l' names, l ≡ₚ l' → _metric_names l = Ok names → _metric_names l' = Ok names) as Hnames.
  { intros l l0 names Hp Hn. apply _metric_names_Ok in Hn as (? & Hne & Hr). apply _metric_names_Ok. split; [done|].
    split; [intros ->; by apply Permutation_nil_r in Hp|]. intros r. rewrite <- Hp. apply Hr. }
  rewrite (Hnames _ _ _ Hf Hfn), (Hnames _ _ _ Hv Hvn). cbn [mbind res_bind]. rewrite He.
  cbn [mbind res_bind]. rewrite (_worst_sd_perm _ _ _ Hf Hfsd). cbn [mbind res_bind].
  destruct (ltb MAX_SD fsd); [done|]. apply bind_Ok in H as (vsd & Hvsd & H).
  by rewrite (_worst_sd_perm _ _ _ Hv Hvsd).
Qed.

Definition rep (m : Z) : Repetition := mkRepetition {["d_cov"%string := lit m 3]} 10000.
Definition ex_fixed : list Repetition := rep <$> [940; 940; 950; 950; 955].
Definition ex_variable : list Repetition := rep <$> [850; 900; 940; 950; 990].
Lemma assess_order_free_witness :
  assess (reverse ex_fixed) (reverse ex_variable) = Ok STABLE_LOAD_SENSITIVE.
Proof.
  apply (assess_order_free ex_fixed ex_variable);
    [symmetry; apply reverse_Permutation|symmetry; apply reverse_Permutation|].
  vm_compute. reflexivity.
Defined.
