(* ===== verification/Attribution.v ===== *)
(** * Attribution: the pre-registered decision rules

    [m0/attribution.py].  Thresholds and measurements are validated when they are
    built, gate 0 says whether a run counts, [_classify] is the decision tree and
    [decide] perturbs every input metric by its band before it pronounces a verdict.
    Every operation runs under the engine context. *)

From Stdlib Require Import QArith Qreduction Lqa.
From S2P Require Import Prelude Numeric Stability.

(** ** Data *)

Definition MIN_SAMPLE_SIZE : Z := MIN_GT_OPS_PER_REP.
Definition MIN_RESIDUAL_SAMPLE_SIZE : Z := MIN_GT_OPS_PER_REP.

Inductive RunStatus := NULL | VALID_BUT_INCONCLUSIVE | VALID.
Inductive Attribution :=
| A | A_WITH_WEAK_RESIDUAL | NEEDS_DIFFERENT_MECHANISM | C_SCORING_REQUIRED | B_HYBRID
| BORDERLINE | CORRELATOR_NOT_MEASURED.
Global Instance RunStatus_eq_dec : EqDecision RunStatus.
Proof. solve_decision. Defined.
Global Instance Attribution_eq_dec : EqDecision Attribution.
Proof. solve_decision. Defined.

Record Thresholds := mkThresholds {
  q_acceptable_min : decimal;
  d_min : decimal;
  d_acc_min : decimal;
  unresolved_max : decimal;
  r_min : decimal;
  e_min : decimal;
  capture_failure_max : decimal;
  truth_coverage_min : decimal;
  borderline_band : decimal;
  d_acc_band : decimal
}.
(** The defaults; [q_acceptable_min] has none. *)
Definition Thresholds_default (q : decimal) : Thresholds :=
  mkThresholds q (lit 95 2) (lit 99 2) (lit 3 2) (lit 80 2) (lit 90 2) (lit 1 2) (lit 95 2)
    (lit 2 2) (lit 5 3).
Definition RUN_001 : Thresholds := Thresholds_default (lit 90 2).

(** A fraction in [[0, 1]], and in [(0, 1]]. *)
Definition fraction (x : decimal) : bool := between _ZERO x _ONE.
Definition positive_fraction (x : decimal) : bool := ltb _ZERO x && leb x _ONE.

Definition validate_thresholds (th : Thresholds) : res unit :=
  _ ← fold_res (λ _ x, check (fraction x) (ValueError "must be a fraction in [0, 1]"))
        [q_acceptable_min th; d_min th; d_acc_min th; unresolved_max th; e_min th;
         capture_failure_max th; truth_coverage_min th] tt;
  fold_res (λ _ x, check (positive_fraction x) (ValueError "must be a positive fraction in (0, 1]"))
    [r_min th; borderline_band th; d_acc_band th] tt.

Record Metrics := mkMetrics {
  d_cov : decimal;
  d_acc : decimal;
  r : option decimal;
  t : option decimal;
  truth_coverage : decimal;
  oracle_capture_failure : decimal;
  n : Z;
  n_residual : option Z
}.

Definition unresolved (m : Metrics) : decimal := dsub _ONE (truth_coverage m).
Definition d (m : Metrics) : decimal := dmul (d_cov m) (d_acc m).
Definition f (m : Metrics) : decimal := dsub _ONE (d m).
Definition _e (d t : decimal) : decimal := dadd d (dmul (dsub _ONE d) t).
Definition e (m : Metrics) : option decimal := _e (d m) <$> t m.

Definition measured {X} (x : option X) : bool := bool_decide (is_Some x).
Definition check_achievable (value : decimal) (count : Z) : res unit :=
  ok ← _achievable value count; check ok (ValueError "not achievable as k/n").
(** The count of attempts that D_cov implies: the denominator of D_acc. *)
Definition d_cov_count (m : Metrics) : Z :=
  dscale (to_integral_value (dmul (d_cov m) (of_int (n m)))) 0.
Definition validate_metrics (m : Metrics) : res unit :=
  _ ← fold_res (λ _ x, check (fraction x) (ValueError "must be a fraction in [0, 1]"))
        [d_cov m; d_acc m; truth_coverage m; oracle_capture_failure m] tt;
  _ ← fold_res (λ _ x, check (match x with Some x => fraction x | None => true end)
                         (ValueError "must be a fraction in [0, 1], or None if not measured"))
        [r m; t m] tt;
  _ ← check (eqb (measured (r m)) (measured (t m)))
        (ValueError "r and t must both be measured or both be None");
  _ ← check (match r m, t m with Some r, Some t => leb t r | _, _ => true end)
        (ValueError "t cannot exceed r: T <= R always");
  _ ← check (leb (oracle_capture_failure m) (unresolved m))
        (ValueError "oracle_capture_failure cannot exceed the unresolved zone");
  _ ← check (MIN_SAMPLE_SIZE <=? n m) (ValueError "n is below the minimum sample size");
  _ ← check (eqb (measured (r m)) (measured (n_residual m)))
        (ValueError "n_residual must be set iff r/t are measured");
  _ ← check (match n_residual m with Some k => MIN_RESIDUAL_SAMPLE_SIZE <=? k | None => true end)
        (ValueError "n_residual is below the minimum");
  _ ← fold_res (λ _ x, check_achievable x (n m))
        [d_cov m; truth_coverage m; oracle_capture_failure m] tt;
  _ ← check_achievable (d_acc m) (d_cov_count m);
  match n_residual m with
  | None => Ok tt
  | Some k => fold_res (λ _ x, match x with Some x => check_achievable x k | None => Ok tt end)
                [r m; t m] tt
  end.

(** ** The decision *)

(** [T / R], defined only for [R >= r_min]. *)
Definition _q (r t : decimal) (th : Thresholds) : res (option decimal) :=
  if leb (r_min th) r then q ← ddiv t r; Ok (Some q) else Ok None.

Definition _gate0 (m : Metrics) (th : Thresholds) : RunStatus :=
  if ltb (capture_failure_max th) (oracle_capture_failure m) then NULL
  else if ltb (truth_coverage m) (truth_coverage_min th) then VALID_BUT_INCONCLUSIVE
  else VALID.
Definition gate0 (m : Metrics) (th : Thresholds) : RunStatus := _gate0 m th.

(** The five metrics the tree reads. *)
Record Point := mkPoint {
  p_d : decimal;
  p_d_acc : decimal;
  p_unresolved : decimal;
  p_r : option decimal;
  p_t : option decimal
}.
Definition _classify (p : Point) (th : Thresholds) : res Attribution :=
  if deqb (p_d p) _ONE && deqb (p_d_acc p) _ONE then Ok A
  else if leb (d_min th) (p_d p) && leb (d_acc_min th) (p_d_acc p)
          && leb (p_unresolved p) (unresolved_max th) then
    match p_r p, p_t p with
    | Some r, Some t =>
        q ← _q r t th;
        Ok (match q with
            | Some q => if leb (q_acceptable_min th) q then A else A_WITH_WEAK_RESIDUAL
            | None => A_WITH_WEAK_RESIDUAL
            end)
    | _, _ => Ok CORRELATOR_NOT_MEASURED
    end
  else if leb (d_min th) (p_d p) then Ok NEEDS_DIFFERENT_MECHANISM
  else
    match p_r p, p_t p with
    | Some r, Some t =>
        if ltb r (r_min th) then Ok NEEDS_DIFFERENT_MECHANISM
        else if leb (e_min th) (_e (p_d p) t) then Ok B_HYBRID
        else Ok C_SCORING_REQUIRED
    | _, _ => Ok CORRELATOR_NOT_MEASURED
    end.

Record Decision := mkDecision {
  run : RunStatus;
  attribution : option Attribution;
  nominal : option Attribution;
  borderline_checked : bool
}.

Inductive Axis := Axis_d | Axis_d_acc | Axis_unresolved | Axis_r | Axis_t.
Definition axes : list Axis := [Axis_d; Axis_d_acc; Axis_unresolved; Axis_r; Axis_t].
Definition band (th : Thresholds) (a : Axis) : decimal :=
  match a with Axis_d_acc => d_acc_band th | _ => borderline_band th end.
Definition point_of (m : Metrics) : Point := mkPoint (d m) (d_acc m) (unresolved m) (r m) (t m).
(** [{**point, name: value + sign * band}] *)
Definition moved (th : Thresholds) (p : Point) (a : Axis) (sign : Z) : Point :=
  let by_ (x : decimal) := dadd x (dmul (of_int sign) (band th a)) in
  match a with
  | Axis_d => mkPoint (by_ (p_d p)) (p_d_acc p) (p_unresolved p) (p_r p) (p_t p)
  | Axis_d_acc => mkPoint (p_d p) (by_ (p_d_acc p)) (p_unresolved p) (p_r p) (p_t p)
  | Axis_unresolved => mkPoint (p_d p) (p_d_acc p) (by_ (p_unresolved p)) (p_r p) (p_t p)
  | Axis_r => mkPoint (p_d p) (p_d_acc p) (p_unresolved p) (by_ <$> p_r p) (p_t p)
  | Axis_t => mkPoint (p_d p) (p_d_acc p) (p_unresolved p) (p_r p) (by_ <$> p_t p)
  end.
(** A point no measurement could produce: [d > d_acc] or [t > r]. *)
Definition impossible (p : Point) : bool :=
  ltb (p_d_acc p) (p_d p) || match p_r p, p_t p with Some r, Some t => ltb r t | _, _ => false end.

(** Does one of the moves change the verdict? *)
Fixpoint any_change (th : Thresholds) (p : Point) (v : Attribution) (moves : list (Axis * Z)) : res bool :=
  match moves with
  | [] => Ok false
  | (a, sign) :: moves =>
      let q := moved th p a sign in
      if impossible q then any_change th p v moves
      else w ← _classify q th; if bool_decide (w = v) then any_change th p v moves else Ok true
  end.
Definition moves : list (Axis * Z) := axes ≫= λ a, [(a, -1); (a, 1)].
Definition _decide (m : Metrics) (th : Thresholds) : res Decision :=
  let status := gate0 m th in
  match status with
  | VALID =>
      let point := point_of m in
      v ← _classify point th;
      if negb (measured (r m) && measured (t m)) then Ok (mkDecision status (Some v) (Some v) false)
      else
        changed ← any_change th point v moves;
        Ok (mkDecision status (Some (if changed : bool then BORDERLINE else v)) (Some v) true)
  | _ => Ok (mkDecision status None None false)
  end.
Definition decide (m : Metrics) (th : Thresholds) : res Decision := _decide m th.

(** ** Lemmas: validation *)

Lemma fold_checks {X} (p : X → bool) err l u : fold_res (λ _ x, check (p x) err) l tt = Ok u →
  ∀ x, x ∈ l → p x = true.
Proof.
  rewrite checks_Ok. destruct (forallb p l) eqn:E; [|done]. intros _ x Hx.
  rewrite forallb_forall in E. by apply E, list_elem_of_In.
Qed.
Lemma leb_val x y : leb x y = true ↔ (dval x <= dval y)%Q.
Proof. rewrite leb_le. apply dle_val. Qed.
Lemma between_val a x b : between a x b = true ↔ (dval a <= dval x)%Q ∧ (dval x <= dval b)%Q.
Proof. unfold between. by rewrite andb_true_iff, !leb_val. Qed.
Lemma ZERO_val : (dval _ZERO == 0)%Q.
Proof. reflexivity. Qed.
Lemma ONE_val : (dval _ONE == 1)%Q.
Proof. reflexivity. Qed.
Lemma fraction_val x : fraction x = true ↔ (0 <= dval x)%Q ∧ (dval x <= 1)%Q.
Proof. unfold fraction. by rewrite between_val, ZERO_val, ONE_val. Qed.
Lemma positive_val x : positive_fraction x = true → (0 < dval x)%Q.
Proof. unfold positive_fraction. rewrite andb_true_iff, dlt_val, ZERO_val. by intros [? _]. Qed.


(** *** Achievable ratios *)

Lemma _achievable_inv v n : _achievable v n = Ok true → n ≠ 0 →
  ∃ ratio rounded, ddiv (to_integral_value (dmul v (of_int n))) (of_int n) = Ok ratio ∧
    quantize ratio (Dec false 1 (- (if dexp v <? 0 then - dexp v else 0))) = Ok rounded ∧
    deqb rounded v = true.
Proof.
  unfold _achievable. intros H Hn. destruct (Z.eqb_spec n 0); [done|].
  destruct (negb _); [done|]. apply bind_Ok in H as (ratio & Hr & H).
  apply bind_Ok in H as (rounded & Hq & [= H]). eauto.
Qed.
Lemma quantize_fits x q r : quantize x q = Ok r → fits r ∧ dexp r = dexp q.
Proof.
  unfold quantize. destruct (dzero x); [by intros [= <-]|]. destruct (_ <? _); [done|].
  destruct (Nat.ltb_spec PREC (ndigits (dcoef (rescale x (dexp q))))) as [|H]; [done|]. intros [= <-].
  split; [by apply ndigits_fits|]. unfold rescale. by case_match.
Qed.
Lemma deqb_coef x y : dexp x = dexp y → deqb x y = true → dcoef x = dcoef y.
Proof.
  intros E H. unfold deqb, cmp, decimal_cmp in H. rewrite E, Z.min_id in H. unfold dscale in H.
  rewrite E, Z.sub_diag, !Z.mul_1_r in H.
  destruct (Z.compare_spec (dint x) (dint y)) as [Hd| |]; [|done..]. unfold dint in Hd.
  destruct (dneg x), (dneg y); lia.
Qed.
(** A fraction that is achievable holds in the precision. *)
Lemma achievable_fits v n : _achievable v n = Ok true → n ≠ 0 → fraction v = true → fits v.
Proof.
  intros H Hn [Hlo Hhi]%fraction_val. destruct (_achievable_inv v n H Hn) as (ratio & rounded & _ & Hq & He).
  apply quantize_fits in Hq as [Hf Hd]. cbn [dexp] in Hd. destruct (Z.ltb_spec (dexp v) 0) as [Hneg|Hpos].
  - unfold fits. rewrite <- (deqb_coef rounded v); [done|lia|done].
  - unfold fits. apply N.le_lt_trans with 1%N; [|by vm_compute]. rewrite dval_mag in Hlo, Hhi.
    destruct (dneg v) eqn:En.
    + pose proof (dmag_nonneg v) as Hm. assert (dval v == 0)%Q as Hz by (rewrite dval_mag, En; lra).
      apply dzero_val, N.eqb_eq in Hz. lia.
    + unfold dmag in Hhi. rewrite p10_Z in Hhi by done. rewrite <- inject_Z_mult in Hhi.
      change 1%Q with (inject_Z 1) in Hhi. rewrite <- Zle_Qle in Hhi.
      assert (0 < 10 ^ dexp v) by (apply Z.pow_pos_nonneg; lia). nia.
Qed.
(** A fraction whose count rounds to nothing is zero. *)
Lemma achievable_zero v n : _achievable v n = Ok true → n ≠ 0 →
  dscale (to_integral_value (dmul v (of_int n))) 0 = 0 → (dval v == 0)%Q.
Proof.
  intros H Hn H0. destruct (_achievable_inv v n H Hn) as (ratio & rounded & Hr & Hq & He).
  set (k := to_integral_value _) in *.
  assert (dzero k = true) as Hk.
  { assert (0 <= dexp k) as Hexp.
    { unfold k, to_integral_value. destruct (Z.leb_spec 0 (dexp (dmul v (of_int n)))); [done|].
      unfold rescale. destruct (_ <=? _); simpl; lia. }
    unfold dscale in H0. rewrite Z.sub_0_r in H0.
    assert (0 < 10 ^ dexp k) by (apply Z.pow_pos_nonneg; lia).
    assert (dint k = 0) as Hd by nia. unfold dzero. apply N.eqb_eq. unfold dint in Hd. destruct (dneg k); lia. }
  destruct (ddiv_zero k (of_int n) Hk) as (q & Eq & Hz).
  { unfold dzero. apply N.eqb_neq. simpl. lia. }
  rewrite Hr in Eq. injection Eq as <-. unfold quantize in Hq.
  apply dzero_val in Hz. rewrite Hz in Hq. injection Hq as <-. apply deqb_val in He. rewrite <- He.
  by apply dzero_val.
Qed.

(** What a validated measurement satisfies. *)
Record valid_metrics (m : Metrics) : Prop := {
  vm_fractions x : x ∈ [d_cov m; d_acc m; truth_coverage m; oracle_capture_failure m] → fraction x = true;
  vm_residual x : r m = Some x ∨ t m = Some x → fraction x = true;
  vm_both : measured (r m) = measured (t m);
  vm_order x y : r m = Some x → t m = Some y → leb y x = true;
  vm_sample : MIN_SAMPLE_SIZE <= n m;
  vm_d_cov : _achievable (d_cov m) (n m) = Ok true;
  vm_d_acc : _achievable (d_acc m) (d_cov_count m) = Ok true
}.
Lemma check_achievable_Ok v k u : check_achievable v k = Ok u → _achievable v k = Ok true.
Proof. unfold check_achievable. intros H. apply bind_Ok in H as ([] & ? & H); done. Qed.
Lemma validate_metrics_Ok m u : validate_metrics m = Ok u → valid_metrics m.
Proof.
  unfold validate_metrics. intros H.
  apply bind_Ok in H as (? & H1 & H). pose proof (fold_checks _ _ _ _ H1) as H1'.
  apply bind_Ok in H as (? & H2 & H). pose proof (fold_checks _ _ _ _ H2) as H2'.
  apply bind_Ok in H as (? & H3%check_Ok%eqb_prop & H). apply bind_Ok in H as (? & H4%check_Ok & H).
  apply bind_Ok in H as (? & _ & H). apply bind_Ok in H as (? & H5%check_Ok%Z.leb_le & H).
  do 2 apply bind_Ok in H as (? & _ & H). apply bind_Ok in H as (? & H6 & H).
  apply bind_Ok in H as (? & H7%check_achievable_Ok & _).
  split; [done| |done| |done| |done].
  - intros v [E|E]; [specialize (H2' (r m) ltac:(left))|specialize (H2' (t m) ltac:(right; left))];
      by rewrite E in H2'.
  - intros v w Ev Ew. by rewrite Ev, Ew in H4.
  - cbn [fold_res] in H6. by apply bind_Ok in H6 as (? & ?%check_achievable_Ok & _).
Qed.

Lemma fits_0 : fits d0.
Proof. by vm_compute. Qed.
Lemma fits_1 : fits d1.
Proof. by vm_compute. Qed.

(** [1 - x] of a fraction is a fraction. *)
Lemma one_minus x : (0 <= dval x)%Q ∧ (dval x <= 1)%Q →
  (0 <= dval (dsub _ONE x))%Q ∧ (dval (dsub _ONE x) <= 1)%Q.
Proof.
  intros [H0 H1]. split.
  - change 0%Q with (dval d0) at 1. apply dsub_ge; [exact fits_0|]. change (dval d0) with 0%Q. rewrite ONE_val. lra.
  - change 1%Q with (dval d1). apply dsub_le; [exact fits_1|]. change (dval d1) with 1%Q. rewrite ONE_val. lra.
Qed.
Lemma dmul_unit x y : (0 <= dval x)%Q ∧ (dval x <= 1)%Q → (0 <= dval y)%Q ∧ (dval y <= 1)%Q →
  (0 <= dval (dmul x y))%Q ∧ (dval (dmul x y) <= 1)%Q.
Proof.
  intros [? ?] [? ?]. split.
  - change 0%Q with (dval d0) at 1. apply dmul_ge; [exact fits_0|]. change (dval d0) with 0%Q. nra.
  - change 1%Q with (dval d1). apply dmul_le; [exact fits_1|]. change (dval d1) with 1%Q. nra.
Qed.

(** *** The rounded complement *)

Lemma div_half_even_near n m : (0 < m)%N → (2 * (div_half_even n m * m) <= 2 * n + m)%N.
Proof.
  intros Hm. unfold div_half_even. pose proof (N.div_mod n m ltac:(lia)) as Hdm.
  revert Hdm. generalize (n / m)%N (n mod m)%N. intros q r Hdm.
  destruct (N.compare_spec (2 * r) m); [destruct (N.even q)| |]; nia.
Qed.
(** Rounding a magnitude below a power of ten adds at most half a unit in the last place. *)
Lemma fix_near x g : (dmag x < p10 g)%Q → (dmag (fix_ x) <= dmag x + p10 (g - 28) * (1 # 2))%Q.
Proof.
  intros Hg. pose proof (p10_pos (g - 28)). destruct (le_lt_dec (ndigits (dcoef x)) PREC) as [Hs|Hl].
  { rewrite fix_short by done. lra. }
  destruct (fix_long x Hl) as (k & Hk & Hlo & ->). pose proof (mag_lower _ _ (dexp x) Hlo) as Hm. fold (dmag x) in Hm.
  assert (dexp x + Z.of_N k <= g - 28) as He.
  { apply Z.nlt_ge. intros He. pose proof (p10_le g (dexp x + Z.of_N k + 27) ltac:(lia)). lra. }
  pose proof (p10_le _ _ He) as Hp. rewrite mag_shift. unfold dmag at 1.
  assert (0 < 10 ^ k)%N as Hpos by (apply N.neq_0_lt_0, N.pow_nonzero; lia).
  pose proof (dmag_N_le _ _ (dexp x) (div_half_even_near (dcoef x) (10 ^ k) Hpos)) as Hn.
  rewrite N2Z.inj_add, !(N2Z.inj_mul 2), inject_Z_plus, !inject_Z_mult in Hn.
  change (inject_Z (Z.of_N 2)) with 2%Q in Hn.
  pose proof (mag_shift 1 k (dexp x)) as H1. rewrite N.mul_1_l in H1.
  change (inject_Z (Z.of_N 1)) with 1%Q in H1. lra.
Qed.
(** No number of 28 digits lies just above one. *)
Lemma fits_above_one x : fits x → (1 < dmag x)%Q → (1 + p10 (-27) <= dmag x)%Q.
Proof.
  intros Hf H1. destruct (Z.le_gt_cases (dexp x) (-28)) as [He|He].
  { pose proof (mag_fits x (-28) Hf He) as H. change (p10 (-28 + 28)) with 1%Q in H. lra. }
  rewrite (mag_align x (-27)) in H1 |- * by lia. set (N := (dcoef x * _)%N) in *.
  assert (1 == inject_Z (Z.of_N (10 ^ 27)) * p10 (-27))%Q as E by (vm_compute; reflexivity).
  assert (10 ^ 27 + 1 <= N)%N as HN.
  { assert (¬ (N <= 10 ^ 27)%N); [|lia]. intros Hle. pose proof (dmag_N_le _ _ (-27) Hle). lra. }
  pose proof (dmag_N_le _ _ (-27) HN) as H. rewrite N2Z.inj_add, inject_Z_plus in H.
  change (inject_Z (Z.of_N 1)) with 1%Q in H. lra.
Qed.
(** A fraction and its rounded complement, or less of it, sum to a fraction. *)
Lemma complement_sum x y : (0 <= dval x)%Q ∧ (dval x <= 1)%Q → (0 <= dval y)%Q →
  (dval y <= dval (dsub _ONE x))%Q → (dval (dadd x y) <= 1)%Q.
Proof.
  intros [Hx0 Hx1] Hy Hyc. assert (dval (dsub _ONE x) <= 1 - dval x + p10 (-28) * (1 # 2))%Q as Hc.
  { unfold dsub, dadd. set (z := dadd_exact _ _).
    assert (dval z == 1 - dval x)%Q as Ez by (unfold z; rewrite dadd_exact_val, copy_negate_val, ONE_val; lra).
    assert (dmag z == dval z)%Q as Em.
    { pose proof (dval_mag z). pose proof (dmag_nonneg z). destruct (dneg z); lra. }
    pose proof (p10_pos (-28)). rewrite (dval_mag (fix_ z)), fix_neg. pose proof (dmag_nonneg (fix_ z)).
    assert (dmag (fix_ z) <= 1 - dval x + p10 (-28) * (1 # 2))%Q; [|destruct (dneg z); lra].
    destruct (Qlt_le_dec (dmag z) 1) as [Hlt|Hge].
    - pose proof (fix_near z 0 Hlt) as H1. change (0 - 28) with (-28) in H1. lra.
    - pose proof (fix_mag_le z d1 fits_1) as H1. change (dmag d1) with 1%Q in H1. specialize (H1 ltac:(lra)). lra. }
  unfold dadd. set (v := dadd_exact x y).
  assert (dval v == dval x + dval y)%Q as Ev by apply dadd_exact_val.
  assert (dmag v == dval v)%Q as Em.
  { pose proof (dval_mag v). pose proof (dmag_nonneg v). destruct (dneg v); lra. }
  rewrite dval_mag, fix_neg. pose proof (dmag_nonneg (fix_ v)). destruct (dneg v); [lra|].
  destruct (Qlt_le_dec 1 (dmag (fix_ v))) as [Hgt|]; [exfalso|done].
  pose proof (fits_above_one _ (fits_fix v) Hgt) as Ha.
  assert (p10 (-28) == p10 (-27) * (1 # 10))%Q as E28 by (vm_compute; reflexivity).
  assert (p10 (-27) < 1)%Q as E27 by (vm_compute; reflexivity). pose proof (p10_pos (-27)).
  pose proof (fix_near v 1) as Hn. change (p10 1) with 10%Q in Hn. change (1 - 28) with (-27) in Hn.
  specialize (Hn ltac:(lra)). lra.
Qed.

Lemma d_le_d_acc m : valid_metrics m → (dval (d m) <= dval (d_acc m))%Q.
Proof.
  intros Hm. pose proof (vm_fractions m Hm) as Hf.
  destruct (proj1 (fraction_val _) (Hf (d_cov m) ltac:(left))) as [Hc0 Hc1].
  destruct (proj1 (fraction_val _) (Hf (d_acc m) ltac:(right; left))) as [Ha0 Ha1].
  destruct (Z.eq_dec (d_cov_count m) 0) as [E0|Hn].
  - assert (dval (d_cov m) == 0)%Q as Hz.
    { apply (achievable_zero _ (n m)); [by apply vm_d_cov| |done].
      pose proof (vm_sample m Hm). unfold MIN_SAMPLE_SIZE, MIN_GT_OPS_PER_REP in *. lia. }
    apply Qle_trans with 0%Q; [|done]. change 0%Q with (dval d0). apply dmul_le; [exact fits_0|].
    change (dval d0) with 0%Q. rewrite Hz. lra.
  - apply dmul_le; [|nra]. eapply achievable_fits; [by apply vm_d_acc|done|apply Hf; right; left].
Qed.

(** ** Lemmas: the decision tree *)

Lemma validate_thresholds_Ok th u : validate_thresholds th = Ok u → (0 < dval (r_min th))%Q.
Proof.
  unfold validate_thresholds. intros H. apply bind_Ok in H as (? & _ & H).
  apply positive_val. by apply (fold_checks _ _ _ _ H); left.
Qed.
Lemma _q_total x y th : (0 < dval (r_min th))%Q → ∃ q, _q x y th = Ok q.
Proof.
  intros Hr. unfold _q. destruct (leb (r_min th) x) eqn:E; [|eauto]. apply leb_val in E.
  destruct (ddiv_total y x) as [q ->]; [|simpl; eauto].
  apply Bool.not_true_iff_false. rewrite dzero_val. lra.
Qed.
Lemma _classify_total p th : (0 < dval (r_min th))%Q → ∃ v, _classify p th = Ok v.
Proof.
  intros Hr. unfold _classify. destruct (_ && _); [eauto|]. destruct (_ && _ && _).
  - destruct (p_r p) as [x|]; [|eauto]. destruct (p_t p) as [y|]; [|eauto].
    destruct (_q_total x y th Hr) as [q ->]. simpl. eauto.
  - destruct (leb _ _); [eauto|]. destruct (p_r p); [|eauto]. destruct (p_t p); [|eauto].
    destruct (ltb _ _); [eauto|]. destruct (leb _ _); eauto.
Qed.
(** The tree itself never answers BORDERLINE. *)
Lemma _classify_verdict p th v : _classify p th = Ok v → v ≠ BORDERLINE.
Proof.
  unfold _classify. destruct (_ && _); [by intros [= <-]|]. destruct (_ && _ && _).
  - destruct (p_r p) as [x|], (p_t p) as [y|]; try by intros [= <-]. intros H.
    apply bind_Ok in H as ([q|] & _ & [= <-]); [|done]. by destruct (leb _ _).
  - destruct (leb _ _); [by intros [= <-]|]. destruct (p_r p), (p_t p); try by intros [= <-].
    destruct (ltb _ _); [by intros [= <-]|]. by destruct (leb _ _); intros [= <-].
Qed.
Lemma any_change_total th p v ms : (0 < dval (r_min th))%Q → ∃ b, any_change th p v ms = Ok b.
Proof.
  intros Hr. induction ms as [|[a s] ms IH]; simpl; [eauto|]. destruct (impossible _); [done|].
  destruct (_classify_total (moved th p a s) th Hr) as [w ->]. simpl. case_bool_decide; [done|eauto].
Qed.
(** A move to a possible point that changes the verdict. *)
Definition changes (th : Thresholds) (p : Point) (v : Attribution) (a : Axis) (s : Z) : Prop :=
  impossible (moved th p a s) = false ∧ ∃ w, _classify (moved th p a s) th = Ok w ∧ w ≠ v.
Lemma any_change_spec th p v ms b : any_change th p v ms = Ok b →
  b = true ↔ ∃ a s, (a, s) ∈ ms ∧ changes th p v a s.
Proof.
  induction ms as [|[a s] ms IH]; simpl; intros H.
  { injection H as <-. split; [done|]. by intros (? & ? & ?%not_elem_of_nil & _). }
  assert (¬ changes th p v a s → any_change th p v ms = Ok b →
    b = true ↔ ∃ a' s', (a', s') ∈ (a, s) :: ms ∧ changes th p v a' s') as Hskip.
  { intros Hn H'. rewrite (IH H'). split; intros (a' & s' & Hin & Hc); exists a', s'; (split; [|done]).
    - by right.
    - apply elem_of_cons in Hin as [[= -> ->]|]; done. }
  destruct (impossible _) eqn:Ei; [apply Hskip; [|done]; intros [E _]; congruence|].
  apply bind_Ok in H as (w & Hw & H). case_bool_decide as Ev.
  - apply Hskip; [|done]. intros (_ & w' & Hw' & Hne). congruence.
  - injection H as <-. split; [|done]. intros _. exists a, s. split; [left|]. split; [done|]. eauto.
Qed.

(** ** Guarantees *)

(** C26: a measurement that was built is consistent: the derived quantities -- D, F, the
    unresolved zone, and E when the correlator was measured -- stay in [0, 1] after
    rounding, the share of correct identifiers never exceeds the share of correct ones
    among those supplied, T never exceeds R, and the correlator never lowers the
    end-to-end share. *)
Theorem metrics_consistent m : validate_metrics m = Ok tt →
  (∀ x, x ∈ [d m; f m; unresolved m] → (0 <= dval x)%Q ∧ (dval x <= 1)%Q) ∧
  (dval (d m) <= dval (d_acc m))%Q ∧
  (∀ x y, r m = Some x → t m = Some y → (dval y <= dval x)%Q) ∧
  (∀ x, e m = Some x → (dval (d m) <= dval x)%Q ∧ (0 <= dval x)%Q ∧ (dval x <= 1)%Q).
Proof.
  intros Hv. pose proof (validate_metrics_Ok m tt Hv) as Hm. pose proof (vm_fractions m Hm) as Hf.
  assert (∀ x, x ∈ [d_cov m; d_acc m; truth_coverage m; oracle_capture_failure m] →
    (0 <= dval x)%Q ∧ (dval x <= 1)%Q) as Hin by (intros; by apply fraction_val, Hf).
  assert ((0 <= dval (d m))%Q ∧ (dval (d m) <= 1)%Q) as Hd
    by (apply dmul_unit; apply Hin; [left|right; left]).
  split; [|split; [by apply d_le_d_acc|split]].
  - intros x Hx. rewrite !elem_of_cons, elem_of_nil in Hx. destruct Hx as [-> |[-> |[-> |[]]]].
    + done.
    + by apply one_minus.
    + apply one_minus, Hin. do 2 right. left.
  - intros x y Hx Hy. apply leb_val. by eapply vm_order.
  - intros x Hx. unfold e in Hx. destruct (t m) as [y|] eqn:Et; [|done]. injection Hx as <-.
    assert ((0 <= dval y)%Q ∧ (dval y <= 1)%Q) as Hy by (apply fraction_val; eapply vm_residual; eauto).
    destruct (dmul_unit (dsub _ONE (d m)) y (one_minus _ Hd) Hy) as [Hp _].
    assert (dval (d m) <= dval (_e (d m) y))%Q as Hge by (apply dadd_ge; [apply fits_fix|lra]).
    split; [done|]. split; [lra|]. apply complement_sum; [done|done|]. apply dmul_le; [apply fits_fix|].
    pose proof (one_minus _ Hd). nra.
Qed.

(** With validated thresholds a decision is always reached: no division by zero, in
    the nominal point nor in any perturbed one. *)
Theorem decide_total m th : validate_thresholds th = Ok tt → ∃ D, decide m th = Ok D.
Proof.
  intros Hr%validate_thresholds_Ok. unfold decide, _decide. destruct (gate0 m th); [eauto..|].
  destruct (_classify_total (point_of m) th Hr) as [v ->]. cbn [mbind res_bind].
  destruct (negb _); [eauto|]. destruct (any_change_total th (point_of m) v moves Hr) as [b ->].
  simpl. eauto.
Qed.

(** C22: what a decision means: nothing is attributed unless gate 0 passes; then the
    nominal verdict is the tree's; it stands unchecked when the correlator was not
    measured; otherwise it is BORDERLINE exactly when moving one metric by its band,
    to a point a measurement could produce, changes the tree's verdict. *)
Theorem decide_robust m th D : decide m th = Ok D →
  run D = gate0 m th ∧
  match gate0 m th with
  | VALID => ∃ v, _classify (point_of m) th = Ok v ∧ nominal D = Some v ∧
      borderline_checked D = measured (r m) && measured (t m) ∧
      (borderline_checked D = false → attribution D = Some v) ∧
      (borderline_checked D = true →
        (attribution D = Some BORDERLINE ↔ ∃ a s, (a, s) ∈ moves ∧ changes th (point_of m) v a s) ∧
        (attribution D = Some BORDERLINE ∨ attribution D = Some v))
  | _ => attribution D = None ∧ nominal D = None ∧ borderline_checked D = false
  end.
Proof.
  unfold decide, _decide. destruct (gate0 m th); [by intros [= <-]..|]. intros H.
  apply bind_Ok in H as (v & Hv & H). destruct (measured (r m) && measured (t m)) eqn:Em; cbn [negb] in H.
  - apply bind_Ok in H as (b & Hb & [= <-]). apply any_change_spec in Hb. split; [done|]. exists v.
    split_and!; [done..|]. intros _. simpl. rewrite <- Hb. apply _classify_verdict in Hv.
    destruct b; split; [done|by left| |by right]. split; [congruence|done].
  - injection H as <-. split; [done|]. exists v. by split_and!.
Qed.

(** A measured run of ten thousand operations: its own figures say category A, but
    two points less coverage would not. *)
Definition ex_metrics : Metrics :=
  mkMetrics (lit 970 3) (lit 1 0) (Some (lit 90 2)) (Some (lit 85 2)) (lit 98 2) (lit 0 2) 10000 (Some 10000).
Lemma metrics_consistent_witness :
  (dval (d ex_metrics) <= 1)%Q ∧ validate_metrics ex_metrics = Ok tt.
Proof.
  assert (validate_metrics ex_metrics = Ok tt) as Hv by (vm_compute; reflexivity). split; [|exact Hv].
  destruct (metrics_consistent ex_metrics Hv) as [H _]. apply H. left.
Defined.
Lemma decide_total_witness : ∃ D, decide ex_metrics RUN_001 = Ok D.
Proof. apply (decide_total ex_metrics RUN_001). vm_compute. reflexivity. Defined.
Lemma decide_robust_witness :
  ∃ a s, (a, s) ∈ moves ∧ changes RUN_001 (point_of ex_metrics) A a s.
Proof.
  destruct (decide_robust ex_metrics RUN_001 (mkDecision VALID (Some BORDERLINE) (Some A) true))
    as (_ & v & Hv & Hn & _ & _ & H); [vm_compute; reflexivity|].
  injection Hn as <-. apply H; reflexivity.
Defined.
