(* ===== verification/Floats.v ===== *)
(** * Floats: binary64 numbers, as Python's [float]

    A [float] is a binary64 number, [spec_float] at precision 53 and exponent 1024, with
    the standard library's rounded operations; [int / int] and [float * int] are exact
    conversions followed by the rounded operation (the integers met here are far below
    2^53).  A decimal literal is the float nearest to it, which is what the rounded
    division gives.  [sorted] is modelled on lists without NaN, which is where Python's
    sort is defined by the order of the values. *)

From Stdlib Require Import SpecFloat.
From S2P Require Import Prelude.

(** ** Binary floats *)

Notation float := spec_float.
Definition fsub : float → float → float := SFsub 53 1024.
Definition fmul : float → float → float := SFmul 53 1024.
Definition fdiv : float → float → float := SFdiv 53 1024.
Definition float_of_int (z : Z) : float := binary_normalize 53 1024 z 0 false.
Definition isfinite (x : float) : bool :=
  match x with S754_zero _ | S754_finite _ _ _ => true | _ => false end.
(** [math.ceil]; infinities raise OverflowError and NaN raises ValueError. *)
Definition ceil (x : float) : res Z :=
  match x with
  | S754_zero _ => Ok 0
  | S754_finite s m e =>
      let n := if s then Z.neg m else Z.pos m in
      Ok (if 0 <=? e then n * 2 ^ e else - ((- n) / 2 ^ (- e)))
  | _ => Raise (ValueError "cannot convert float to integer")
  end.
(** [int(x)]: towards zero. *)
Definition trunc (x : float) : res Z :=
  match x with
  | S754_zero _ => Ok 0
  | S754_finite s m e =>
      let n := if 0 <=? e then Z.pos m * 2 ^ e else Z.pos m / 2 ^ (- e) in Ok (if s then - n else n)
  | _ => Raise (ValueError "cannot convert float to integer")
  end.
(** [round(x, n)]: the decimal of [n] digits nearest to the exact value, ties to even, read
    back as a float. *)
Definition round_to (n : Z) (x : float) : float :=
  match x with
  | S754_finite s m e =>
      let num := Z.pos m * 10 ^ n * 2 ^ Z.max 0 e in
      let den := 2 ^ Z.max 0 (- e) in
      let q := num / den in
      let z := match 2 * (num mod den) ?= den with Lt => q | Gt => q + 1 | Eq => if Z.even q then q else q + 1 end in
      if z =? 0 then S754_zero s
      else fdiv (float_of_int (if s then - z else z)) (float_of_int (10 ^ n))
  | _ => x
  end.
(** The order [sorted] and [<=] read. *)
Global Instance float_cmp : Cmp float := λ x y, default Eq (SFcompare x y).

Example ceil_ex : (ceil (fdiv (float_of_int 7) (float_of_int 2)), ceil (fdiv (float_of_int (-7)) (float_of_int 2)))
  = (Ok 4, Ok (-3)).
Proof. reflexivity. Qed.
Example trunc_ex : (trunc (fdiv (float_of_int 7) (float_of_int 2)), trunc (fdiv (float_of_int (-7)) (float_of_int 2)))
  = (Ok 3, Ok (-3)).
Proof. reflexivity. Qed.
Example round_ex : (round_to 1 (fdiv (float_of_int 1) (float_of_int 4)), round_to 3 (fdiv (float_of_int 2) (float_of_int 3)))
  = (fdiv (float_of_int 2) (float_of_int 10), fdiv (float_of_int 667) (float_of_int 1000)).
Proof. reflexivity. Qed.
(** ** Lemmas: the order of floats without NaN *)

Definition notnan (x : float) : bool := match x with S754_nan => false | _ => true end.
(** Sign and magnitude as a key: infinities outermost, zeros equal. *)
Definition float_key (x : float) : Z * (Z * Z) :=
  match x with
  | S754_zero _ | S754_nan => (0, (0, 0))
  | S754_infinity s => (if s then -2 else 2, (0, 0))
  | S754_finite s m e => if s then (-1, (- e, Z.neg m)) else (1, (e, Z.pos m))
  end.
Lemma SFcompare_key x y : notnan x = true → notnan y = true →
  SFcompare x y = Some (cmp (float_key x) (float_key y)).
Proof.
  assert (∀ a b c d : Z, cmp (1, (a, b)) (1, (c, d)) = lex (a ?= c) (b ?= d)) as E1 by done.
  assert (∀ a b c d : Z, cmp (-1, (a, b)) (-1, (c, d)) = lex (a ?= c) (b ?= d)) as E2 by done.
  destruct x as [[]|[]| |[] m e], y as [[]|[]| |[] m' e']; try done; intros _ _; cbn [SFcompare float_key].
  - rewrite E2. f_equal. rewrite Z.compare_opp, (Z.compare_antisym e e').
    destruct (e ?= e'); [|done..]. cbn [lex CompOpp]. change (Z.neg m ?= Z.neg m') with (CompOpp (Pos.compare m m')). done.
  - rewrite E1. f_equal. destruct (e ?= e'); [|done..]. done.
Qed.
Lemma SFleb_key x y : notnan x = true → notnan y = true → SFleb x y = leb (float_key x) (float_key y).
Proof. intros Hx Hy. unfold SFleb, leb. rewrite SFcompare_key by done. by destruct (cmp _ _). Qed.
Lemma sorted_key l : forallb notnan l = true → sorted l = sorted_by float_key l.
Proof.
  unfold sorted. induction l as [|x l IH]; intros H; [done|]. cbn [forallb] in H.
  apply andb_true_iff in H as [Hx Hl]. cbn [sorted_by foldr]. fold (sorted_by (λ x : float, x) l).
  fold (sorted_by float_key l). rewrite (IH Hl).
  assert (forallb notnan (sorted_by float_key l) = true) as Hs.
  { apply forallb_forall. intros y Hy%list_elem_of_In. rewrite elem_of_sorted_by in Hy.
    eapply forallb_forall in Hl; [exact Hl|]. by apply list_elem_of_In. }
  revert Hs. generalize (sorted_by float_key l) as k. induction k as [|y k IHk]; intros Hs; [done|].
  cbn [forallb] in Hs. apply andb_true_iff in Hs as [Hy Hk]. cbn [insert_by].
  assert (leb x y = leb (float_key x) (float_key y)) as ->.
  { unfold leb at 1, cmp, float_cmp. rewrite SFcompare_key by done. done. }
  destruct (leb _ _); [done|]. by rewrite IHk.
Qed.

(** ** Lemmas: rounding to 53 bits *)

Lemma digits2_bounds p : 2 ^ (Z.pos (digits2_pos p) - 1) <= Z.pos p < 2 ^ Z.pos (digits2_pos p).
Proof.
  induction p as [p IH|p IH|]; cbn [digits2_pos]; [| |done];
    rewrite Pos2Z.inj_succ; unfold Z.succ; rewrite Z.add_simpl_r, Z.pow_add_r, Z.pow_1_r by lia;
    replace (Z.pos (digits2_pos p)) with (Z.pos (digits2_pos p) - 1 + 1) at 1 by lia;
    rewrite Z.pow_add_r, Z.pow_1_r by lia; lia.
Qed.
Lemma digits2_unique p d : 2 ^ (d - 1) <= Z.pos p < 2 ^ d → Z.pos (digits2_pos p) = d.
Proof.
  intros [H1 H2]. destruct (digits2_bounds p) as [H3 H4].
  assert (d - 1 < Z.pos (digits2_pos p)) by (apply (Z.pow_lt_mono_r_iff 2); lia).
  assert (Z.pos (digits2_pos p) - 1 < d); [|lia]. apply (Z.pow_lt_mono_r_iff 2); [lia| |lia].
  destruct (Z.le_gt_cases 0 d); [done|]. rewrite (Z.pow_neg_r 2 d) in H2 by done. lia.
Qed.
Lemma shr_1_half r : 0 <= shr_m r → shr_m (shr_1 r) = shr_m r / 2.
Proof.
  destruct r as [[|p|p] br bs]; cbn [shr_m]; intros H; [done| |lia].
  destruct p as [p|p|]; cbn [shr_1 shr_m]; [apply Z.div_unique with 1; lia|apply Z.div_unique with 0; lia|done].
Qed.
Lemma shr_iter p r : 0 <= shr_m r → shr_m (SpecFloat.iter_pos shr_1 p r) = shr_m r / 2 ^ Z.pos p.
Proof.
  revert r. induction p as [p IH|p IH|]; intros r H; cbn [SpecFloat.iter_pos]; [| |by apply shr_1_half].
  - assert (0 <= shr_m r / 2) by by apply Z.div_pos.
    rewrite IH; rewrite IH; rewrite shr_1_half by done; try (done || apply Z.div_pos; lia).
    rewrite !Z.div_div by lia. f_equal.
    rewrite <- (Z.pow_1_r 2) at 1. rewrite <- !Z.pow_add_r by lia. f_equal. lia.
  - rewrite IH; rewrite IH; try (done || apply Z.div_pos; lia).
    rewrite Z.div_div by lia. f_equal. rewrite <- Z.pow_add_r by lia. f_equal. lia.
Qed.
Lemma shr_m_of_loc m l : shr_m (shr_record_of_loc m l) = m.
Proof. by destruct l as [|[]]. Qed.
(** Rounding shifts out all but 53 digits. *)
Lemma shr_fexp_spec p e l : -1021 <= Z.pos (digits2_pos p) + e →
  let s := Z.max 0 (Z.pos (digits2_pos p) - 53) in
  ∃ r, shr_fexp 53 1024 (Z.pos p) e l = (r, e + s) ∧ shr_m r = Z.pos p / 2 ^ s ∧
    (s = 0 → r = shr_record_of_loc (Z.pos p) l).
Proof.
  intros He s. unfold shr_fexp. cbn [Zdigits2].
  assert (fexp 53 1024 (Z.pos (digits2_pos p) + e) - e = Z.pos (digits2_pos p) - 53) as ->.
  { unfold fexp, emin. lia. }
  unfold shr. destruct (Z.pos (digits2_pos p) - 53) as [|q|q] eqn:E.
  - assert (s = 0) as -> by lia. eexists. rewrite Z.add_0_r. split; [done|].
    split; [by rewrite shr_m_of_loc, Z.pow_0_r, Z.div_1_r|done].
  - assert (s = Z.pos q) as -> by lia. eexists. split; [done|]. split; [|done].
    rewrite shr_iter by by rewrite shr_m_of_loc. by rewrite shr_m_of_loc.
  - assert (s = 0) as -> by lia. eexists. rewrite Z.add_0_r. split; [done|].
    split; [by rewrite shr_m_of_loc, Z.pow_0_r, Z.div_1_r|done].
Qed.
Lemma round_near m l : round_nearest_even m l = m ∨ round_nearest_even m l = m + 1.
Proof. unfold round_nearest_even. destruct l as [|[]]; auto. destruct (Z.even m); auto. Qed.

(** A rounded product is the truncated one or the next, at the exponent of the shift. *)
Lemma round_aux_spec p e : 53 <= Z.pos (digits2_pos p) → -900 <= Z.pos (digits2_pos p) + e <= 900 →
  let E := e + (Z.pos (digits2_pos p) - 53) in let q := Z.pos p / 2 ^ (Z.pos (digits2_pos p) - 53) in
  ∃ m e', binary_round_aux 53 1024 false (Z.pos p) e loc_Exact = S754_finite false m e' ∧
    (e' = E ∨ e' = E + 1) ∧ (Z.pos m * 2 ^ (e' - E) = q ∨ Z.pos m * 2 ^ (e' - E) = q + 1) ∧
    (Z.pos (digits2_pos p) = 53 → Z.pos m = Z.pos p ∧ e' = e).
Proof.
  intros Hd He E q. unfold binary_round_aux. set (D := Z.pos (digits2_pos p)) in *.
  destruct (shr_fexp_spec p e loc_Exact ltac:(lia)) as (r & -> & Hr & Hr0). fold D in Hr, Hr0 |- *.
  rewrite Z.max_r in * by lia. fold E q in Hr |- *.
  assert (2 ^ 52 <= q < 2 ^ 53) as Hq.
  { destruct (digits2_bounds p) as [H1 H2]. fold D in H1, H2. unfold q. split.
    - apply Z.div_le_lower_bound; [lia|]. rewrite <- Z.pow_add_r by lia. replace (D - 53 + 52) with (D - 1) by lia. done.
    - apply Z.div_lt_upper_bound; [lia|]. rewrite <- Z.pow_add_r by lia. by replace (D - 53 + 53) with D by lia. }
  rewrite Hr. set (x := round_nearest_even q (loc_of_shr_record r)).
  assert (x = q ∨ x = q + 1) as Hx by apply round_near.
  destruct x as [|x'|x'] eqn:Ex; [lia| |lia].
  assert (Z.pos (digits2_pos x') = 53 ∨ Z.pos (digits2_pos x') = 54 ∧ Z.pos x' = 2 ^ 53) as Hdx.
  { destruct (Z.eq_dec (Z.pos x') (2 ^ 53)) as [E'|Hne]; [right; split; [|done]|left]; apply digits2_unique; lia. }
  destruct (shr_fexp_spec x' E loc_Exact ltac:(lia)) as (r' & -> & Hr' & _).
  assert (E <= 900) by lia.
  destruct Hdx as [Edx|[Edx Ex']]; rewrite Edx in Hr' |- *.
  - change (Z.max 0 (53 - 53)) with 0 in *. rewrite Z.div_1_r in Hr'. rewrite Z.add_0_r. rewrite Hr'.
    assert (E <=? 1024 - 53 = true) as -> by (apply Z.leb_le; lia).
    exists x', E. split; [done|]. split; [by left|]. rewrite Z.sub_diag, Z.pow_0_r, Z.mul_1_r. split; [done|].
    intros ED. assert (q = Z.pos p) as Eq by (unfold q; rewrite ED; apply Z.div_1_r).
    split; [|lia]. rewrite <- Ex. unfold x. rewrite (Hr0 ltac:(lia)). by rewrite Eq.
  - change (Z.max 0 (54 - 53)) with 1 in *. rewrite Ex' in Hr'. change (2 ^ 53 / 2 ^ 1) with (Z.pos (2 ^ 52)) in Hr'.
    rewrite Hr'. assert (E + 1 <=? 1024 - 53 = true) as -> by (apply Z.leb_le; lia).
    exists (2 ^ 52)%positive, (E + 1). split; [done|]. split; [by right|].
    replace (E + 1 - E) with 1 by lia. change (Z.pos (2 ^ 52) * 2 ^ 1) with (2 ^ 53). split; [lia|].
    intros ED. exfalso. assert (q = Z.pos p) as Eq by (unfold q; rewrite ED; apply Z.div_1_r).
    assert (Z.pos x' = q) as E2 by (rewrite <- Ex; unfold x; by rewrite (Hr0 ltac:(lia))). lia.
Qed.

(** An integer of at most 53 digits is a float, exactly. *)
Lemma shl_iter (p d : positive) : Z.pos (Pos.iter xO p d) = Z.pos p * 2 ^ Z.pos d.
Proof.
  induction d as [|d IH] using Pos.peano_ind; [simpl; lia|].
  rewrite Pos.iter_succ, Pos2Z.inj_xO, IH, Pos2Z.inj_succ, Z.pow_succ_r by lia. ring.
Qed.
Lemma float_of_pos n : Z.pos (digits2_pos n) <= 53 → let d := Z.pos (digits2_pos n) in
  ∃ m, float_of_int (Z.pos n) = S754_finite false m (d - 53) ∧ Z.pos m = Z.pos n * 2 ^ (53 - d) ∧
    Z.pos (digits2_pos m) = 53.
Proof.
  intros Hd d. unfold float_of_int, binary_normalize, binary_round. fold d in Hd.
  assert (fexp 53 1024 (Z.pos (digits2_pos n) + 0) = d - 53) as -> by (unfold fexp, emin; fold d; lia).
  assert (∃ m, shl_align n 0 (d - 53) = (m, d - 53) ∧ Z.pos m = Z.pos n * 2 ^ (53 - d)) as (m & -> & Em).
  { unfold shl_align. rewrite Z.sub_0_r. destruct (d - 53) as [|q|q] eqn:E; [|lia|].
    - exists n. replace (53 - d) with 0 by lia. split; [done|lia].
    - eexists. split; [done|]. rewrite shl_iter. f_equal. f_equal. lia. }
  exists m. assert (Z.pos (digits2_pos m) = 53) as Dm.
  { apply digits2_unique. rewrite Em. destruct (digits2_bounds n) as [H1 H2]. fold d in H1, H2.
    replace (2 ^ (53 - 1)) with (2 ^ (d - 1) * 2 ^ (53 - d)) by (rewrite <- Z.pow_add_r by lia; f_equal; lia).
    replace (2 ^ 53) with (2 ^ d * 2 ^ (53 - d)) by (rewrite <- Z.pow_add_r by lia; f_equal; lia).
    assert (0 < 2 ^ (53 - d)) by (apply Z.pow_pos_nonneg; lia). nia. }
  destruct (round_aux_spec m (d - 53)) as (m' & e' & -> & _ & _ & Hexact); [lia|lia|].
  destruct (Hexact Dm) as [E ->]. assert (m' = m) as -> by lia. done.
Qed.

Lemma ceil_finite m e : e < 0 → ceil (S754_finite false m e) = Ok (- ((- Z.pos m) / 2 ^ (- e))).
Proof. intros H. unfold ceil. by rewrite (proj2 (Z.leb_gt 0 e)). Qed.
(** The ceiling of [X / 2^t], by its bounds. *)
Lemma ceil_bounds X t k : 0 <= t → (k - 1) * 2 ^ t < X <= k * 2 ^ t → - ((- X) / 2 ^ t) = k.
Proof.
  intros Ht H. assert (0 < 2 ^ t) by (apply Z.pow_pos_nonneg; lia).
  assert ((- X) / 2 ^ t = - k); [|lia]. symmetry. apply Z.div_unique with (k * 2 ^ t - X); lia.
Qed.

(** The product of two numbers of 53 digits has 105 or 106. *)
Lemma digits2_mul a m : Z.pos (digits2_pos a) = 53 → Z.pos (digits2_pos m) = 53 →
  105 <= Z.pos (digits2_pos (a * m)) <= 106.
Proof.
  intros Hda Dm. set (D := Z.pos (digits2_pos (a * m))).
  assert (2 ^ 104 <= Z.pos a * Z.pos m < 2 ^ 106) as HP.
  { destruct (digits2_bounds a) as [H1 H2], (digits2_bounds m) as [H3 H4]. rewrite Hda in H1, H2. rewrite Dm in H3, H4.
    change (2 ^ 104) with (2 ^ (53 - 1) * 2 ^ (53 - 1)). change (2 ^ 106) with (2 ^ 53 * 2 ^ 53). nia. }
  destruct (digits2_bounds (a * m)) as [H1 H2]. rewrite Pos2Z.inj_mul in H1, H2. fold D in H1, H2. split.
  - assert (104 < D); [|lia]. apply (Z.pow_lt_mono_r_iff 2); lia.
  - assert (D - 1 < 106); [|lia]. apply (Z.pow_lt_mono_r_iff 2); lia.
Qed.

(** The product of an integer and of a fraction [p / den] that is rounded down, by less than
    one unit in the last place, stays between the integers around the exact product. *)
Section product.
Context (p den : Z) (a : positive) (Hden : 2 <= den <= 1000).
Context (Hda : Z.pos (digits2_pos a) = 53).
Context (Hlow : Z.pos a * den < p * 2 ^ 53) (Hhigh : p * 2 ^ 53 <= (Z.pos a + 1) * den).

Lemma product_between n : 1 <= n <= 2 ^ 40 → ∃ m e k,
  fmul (S754_finite false a (-53)) (float_of_int n) = S754_finite false m e ∧ e < 0 ∧ 1 <= k ∧
  den * (k - 1) < p * n <= den * k ∧ (k - 1) * 2 ^ (- e) < Z.pos m <= k * 2 ^ (- e).
Proof.
  intros Hn. destruct n as [|x|x]; [lia| |lia].
  assert (Z.pos (digits2_pos x) <= 41) as Hd.
  { assert (Z.pos (digits2_pos x) - 1 < 41); [|lia]. apply (Z.pow_lt_mono_r_iff 2); [lia..|].
    destruct (digits2_bounds x) as [H1 _]. lia. }
  destruct (float_of_pos x ltac:(lia)) as (m & Em & Hm & Dm). set (d := Z.pos (digits2_pos x)) in *.
  rewrite Em. unfold fmul, SFmul. cbn [xorb].
  pose proof (digits2_mul a m Hda Dm) as HD. set (D := Z.pos (digits2_pos (a * m))) in *.
  destruct (round_aux_spec (a * m) (-53 + (d - 53))) as (m' & e' & E & He' & HX & _); [lia|lia|].
  fold D in He', HX. rewrite E. clear E. set (e := -53 + (d - 53) + (D - 53)) in *.
  set (X := Z.pos m' * 2 ^ (e' - e)) in *. set (q := Z.pos (a * m) / 2 ^ (D - 53)) in *.
  set (k := - ((- (p * Z.pos x)) / den)).
  assert (den * (k - 1) < p * Z.pos x <= den * k) as Hk by (unfold k; Z.div_mod_to_equations; lia).
  assert (1 <= k) as Hk1.
  { destruct (Z.le_gt_cases 1 k); [done|]. assert (0 < p) by lia. nia. }
  assert ((k - 1) * 2 ^ (- e) < X <= k * 2 ^ (- e)) as HXk.
  { assert (0 < 2 ^ (D - 53) ∧ 0 < 2 ^ (- e) ∧ 0 < 2 ^ (53 - d)) as (P1 & P2 & P3)
      by (split_and!; apply Z.pow_pos_nonneg; lia).
    assert (2 ^ (- e) * 2 ^ (D - 53) = 2 ^ 53 * 2 ^ (53 - d)) as EP by (rewrite <- !Z.pow_add_r by lia; f_equal; lia).
    assert (2 ^ (D - 53) <= 2 ^ 53) as HD53 by (apply Z.pow_le_mono_r; lia).
    assert (2 ^ 53 = 2 ^ d * 2 ^ (53 - d)) as E53 by (rewrite <- Z.pow_add_r by lia; f_equal; lia).
    assert (2 ^ d <= 2 * Z.pos x) as Hx2.
    { destruct (digits2_bounds x) as [H1 _]. fold d in H1. replace d with (d - 1 + 1) by lia.
      rewrite Z.pow_add_r by lia. lia. }
    assert (Z.pos (a * m) = Z.pos a * Z.pos x * 2 ^ (53 - d)) as EPm by (rewrite Pos2Z.inj_mul, Hm; ring).
    assert (q < k * 2 ^ (- e)) as Hup.
    { apply Z.div_lt_upper_bound; [done|]. rewrite EPm.
      replace (2 ^ (D - 53) * (k * 2 ^ (- e))) with (k * 2 ^ 53 * 2 ^ (53 - d)) by (rewrite <- !Z.mul_assoc, <- EP; ring).
      apply Z.mul_lt_mono_pos_r; [done|]. nia. }
    assert ((k - 1) * 2 ^ (- e) + 1 <= q) as Hdown.
    { apply Z.div_le_lower_bound; [done|]. rewrite EPm.
      replace (2 ^ (D - 53) * ((k - 1) * 2 ^ (- e) + 1)) with ((k - 1) * (2 ^ (- e) * 2 ^ (D - 53)) + 2 ^ (D - 53)) by ring.
      rewrite EP. transitivity ((k - 1) * (2 ^ 53 * 2 ^ (53 - d)) + 2 ^ d * 2 ^ (53 - d)); [lia|].
      replace ((k - 1) * (2 ^ 53 * 2 ^ (53 - d)) + 2 ^ d * 2 ^ (53 - d))
        with (((k - 1) * 2 ^ 53 + 2 ^ d) * 2 ^ (53 - d)) by ring.
      apply Z.mul_le_mono_nonneg_r; [lia|]. change (2 ^ 40) with 1099511627776 in Hn. nia. }
    lia. }
  exists m', e', k. split; [done|]. split; [lia|]. split; [done|]. split; [done|].
  destruct He' as [-> | ->]; unfold X in HXk.
  - rewrite Z.sub_diag, Z.pow_0_r, Z.mul_1_r in HXk. done.
  - replace (e + 1 - e) with 1 in HXk by lia. rewrite Z.pow_1_r in HXk.
    replace (2 ^ (- e)) with (2 * 2 ^ (- (e + 1))) in HXk by (rewrite <- Z.pow_succ_r by lia; f_equal; lia). lia.
Qed.
End product.

(** [int(x)] of a positive number between two integers. *)
Lemma trunc_between m e k : e < 0 → (k - 1) * 2 ^ (- e) < Z.pos m <= k * 2 ^ (- e) →
  ∃ j, trunc (S754_finite false m e) = Ok j ∧ k - 1 <= j <= k.
Proof.
  intros He H. unfold trunc. rewrite (proj2 (Z.leb_gt 0 e)) by done. eexists. split; [done|].
  assert (0 < 2 ^ (- e)) by (apply Z.pow_pos_nonneg; lia). split.
  - apply Z.div_le_lower_bound; lia.
  - apply Z.div_le_upper_bound; lia.
Qed.
(** [int(f * n)] of a positive fraction [f] with 53 digits exists and is not negative. *)
Lemma trunc_product a n : Z.pos (digits2_pos a) = 53 → 1 <= n <= 2 ^ 40 →
  ∃ j, trunc (fmul (S754_finite false a (-53)) (float_of_int n)) = Ok j ∧ 0 <= j.
Proof.
  intros Hda Hn. destruct n as [|x|x]; [lia| |lia].
  assert (Z.pos (digits2_pos x) <= 41) as Hd.
  { assert (Z.pos (digits2_pos x) - 1 < 41); [|lia]. apply (Z.pow_lt_mono_r_iff 2); [lia..|].
    destruct (digits2_bounds x) as [H1 _]. lia. }
  destruct (float_of_pos x ltac:(lia)) as (m & -> & _ & Dm). unfold fmul, SFmul. cbn [xorb].
  pose proof (digits2_mul a m Hda Dm) as HD.
  destruct (round_aux_spec (a * m) (-53 + (Z.pos (digits2_pos x) - 53))) as (m' & e' & -> & _); [lia|lia|].
  unfold trunc. eexists. split; [reflexivity|]. destruct (Z.leb_spec 0 e'); [|apply Z.div_pos; [lia|apply Z.pow_pos_nonneg; lia]].
  apply Z.mul_nonneg_nonneg; [lia|]. apply Z.pow_nonneg. lia.
Qed.
