(* ===== verification/Latency.v ===== *)
(** * Latency: the gate on signal availability

    [m0/latency.py], on the binary floats of [Floats]: the percentile of a sample, and the
    gate that reads two of them. *)

From Stdlib Require Import SpecFloat.
From S2P Require Import Prelude Floats.

(** ** Signals *)

Definition P95_MAX_S : float := float_of_int 1.
Definition P99_MAX_S : float := float_of_int 2.
Definition MIN_SIGNALS : nat := 100.
Inductive LatencyVerdict := PASS | FAIL.
Global Instance LatencyVerdict_eq_dec : EqDecision LatencyVerdict.
Proof. solve_decision. Defined.
Record Signal := mkSignal { node : string; source_event_time : float; correlator_ingest_time : float }.

Definition signal_availability (signals : list Signal) (skew_s : gmap string float) : res (list float) :=
  map_res (λ s, skew ← get (skew_s !! node s) KeyError;
                Ok (fsub (correlator_ingest_time s) (fsub (source_event_time s) skew))) signals.

(** [max(math.ceil(p / 100 * n), 1)]: the rank of the percentile, from 1. *)
Definition rank (p : Z) (n : nat) : res Z :=
  c ← ceil (fmul (fdiv (float_of_int p) (float_of_int 100)) (float_of_int (Z.of_nat n)));
  Ok (Z.max c 1).
Definition percentile (values : list float) (p : Z) : res float :=
  let ordered := sorted values in
  r ← rank p (length ordered);
  get (ordered !! Z.to_nat (r - 1)) IndexError.

Definition gate (l1_corrected : list float) : res LatencyVerdict :=
  _ ← check (MIN_SIGNALS <=? length l1_corrected)%nat (ValueError "not enough signals");
  _ ← check (forallb isfinite l1_corrected) (ValueError "signals are not finite");
  _ ← check (forallb (λ v, negb (SFltb v (float_of_int 0))) l1_corrected)
        (ValueError "signals have negative L1");
  p95 ← percentile l1_corrected 95;
  (* [and] reads the second percentile only when the first is within its bound *)
  if SFleb p95 P95_MAX_S then
    p99 ← percentile l1_corrected 99;
    Ok (if SFleb p99 P99_MAX_S then PASS else FAIL)
  else Ok FAIL.

(** The rank is computed in binary: 7 / 100 is above seven hundredths, so the 7th percentile
    of 100 values is the 8th value.  95 and 99 are not affected. *)
Example rank_off_by_one : (rank 7 100, rank 95 100, rank 99 100) = (Ok 8, Ok 95, Ok 99).
Proof. vm_compute. reflexivity. Qed.

(** ** Lemmas: ranks *)

(** The rank of a percentile whose quotient [p / 100] is rounded down. *)
Lemma rank_computed p a n : fdiv (float_of_int p) (float_of_int 100) = S754_finite false a (-53) →
  Z.pos (digits2_pos a) = 53 → Z.pos a * 100 < p * 2 ^ 53 <= (Z.pos a + 1) * 100 →
  1 <= Z.of_nat n <= 2 ^ 40 → ∃ k, rank p n = Ok k ∧ 100 * (k - 1) < p * Z.of_nat n <= 100 * k.
Proof.
  intros Ha Hda [H1 H2] Hn. unfold rank. rewrite Ha.
  destruct (product_between p 100 a ltac:(lia) Hda H1 H2 _ Hn) as (m & e & k & -> & He & Hk1 & Hk & Hm).
  rewrite ceil_finite by done. rewrite (ceil_bounds _ _ k) by (lia || done).
  cbn [mbind res_bind]. exists k. by rewrite Z.max_l by lia.
Qed.
Lemma rank_95 n : 1 <= Z.of_nat n <= 2 ^ 40 → ∃ k, rank 95 n = Ok k ∧ 100 * (k - 1) < 95 * Z.of_nat n <= 100 * k.
Proof. by apply (rank_computed 95 8556839292003942). Qed.
Lemma rank_99 n : 1 <= Z.of_nat n <= 2 ^ 40 → ∃ k, rank 99 n = Ok k ∧ 100 * (k - 1) < 99 * Z.of_nat n <= 100 * k.
Proof. by apply (rank_computed 99 8917127262193582). Qed.

(** ** Lemmas: percentiles as counts *)

(** How many values are within a bound. *)
Definition within (b : float) (l : list float) : Z := Z.of_nat (length (List.filter (λ v, SFleb v b) l)).
Lemma within_perm b l k : l ≡ₚ k → within b l = within b k.
Proof. intros H. unfold within. f_equal. apply Permutation_length. by apply filter_bool_perm. Qed.

Lemma sorted_within (k : list float) b i v : forallb notnan k = true → notnan b = true →
  StronglySorted (λ x y, cmp_le (float_key x) (float_key y)) k → k !! i = Some v →
  SFleb v b = true ↔ (i < length (List.filter (λ v, SFleb v b) k))%nat.
Proof.
  intros Hk Hb Hs. revert i. induction Hs as [|x k Hs IH Hx]; intros i Hi; [done|].
  cbn [forallb] in Hk. apply andb_true_iff in Hk as [Hxn Hkn].
  cbn [List.filter]. destruct (SFleb x b) eqn:Ex.
  - destruct i as [|i]; [injection Hi as <-; rewrite Ex; split; [simpl; lia|done]|].
    cbn [lookup list_lookup] in Hi. rewrite (IH Hkn i Hi). simpl. lia.
  - assert (∀ y, y ∈ k → SFleb y b = false) as Hall.
    { intros y Hy. rewrite Forall_forall in Hx. specialize (Hx y Hy).
      assert (notnan y = true) as Hyn by (eapply forallb_forall in Hkn; [exact Hkn|by apply list_elem_of_In]).
      rewrite SFleb_key in Ex |- * by done. apply Bool.not_true_iff_false. intros Hyb.
      apply Bool.not_true_iff_false in Ex. apply Ex. apply leb_le. apply leb_le in Hyb. by etrans. }
    rewrite (filter_bool_none _ k Hall). destruct i as [|i].
    + injection Hi as <-. rewrite Ex. split; [done|simpl; lia].
    + cbn [lookup list_lookup] in Hi. rewrite (Hall v) by (by eapply list_elem_of_lookup_2). split; [done|simpl; lia].
Qed.
Lemma percentile_within l p r b : forallb notnan l = true → notnan b = true →
  rank p (length l) = Ok r → 1 <= r <= Z.of_nat (length l) →
  ∃ v, percentile l p = Ok v ∧ (SFleb v b = true ↔ r <= within b l).
Proof.
  intros Hl Hb Hr Hrn. unfold percentile. cbn zeta. rewrite sorted_key by done. rewrite length_sorted_by, Hr.
  cbn [mbind res_bind]. set (k := sorted_by float_key l). assert (k ≡ₚ l) as Hp by apply sorted_by_perm.
  destruct (k !! Z.to_nat (r - 1)) as [v|] eqn:E.
  2: { apply lookup_ge_None in E. rewrite Hp in E. lia. }
  exists v. split; [done|]. rewrite (sorted_within k b (Z.to_nat (r - 1)) v); [| |done| |exact E].
  - rewrite <- (within_perm b k l Hp). unfold within. lia.
  - apply forallb_forall. intros x Hx%list_elem_of_In. rewrite Hp in Hx. eapply forallb_forall in Hl; [exact Hl|].
    by apply list_elem_of_In.
  - apply (sorted_by_sorted float_key).
Qed.
Lemma finite_notnan l : forallb isfinite l = true → forallb notnan l = true.
Proof.
  intros H. apply forallb_forall. intros x Hx. eapply forallb_forall in H; [|exact Hx]. by destruct x.
Qed.

(** ** Guarantees *)

(** C27: the gate decides by counting.  It refuses too few, non-finite or negative
    latencies; otherwise it always answers, and passes if and only if at least 95 % of the
    signals are within one second and at least 99 % within two.  The ranks are computed in
    binary floating point, and for any sample of up to 2^40 signals this loses nothing. *)
Theorem gate_counts l : Z.of_nat (length l) <= 2 ^ 40 →
  if (MIN_SIGNALS <=? length l)%nat then
    if forallb isfinite l then
      if forallb (λ v, negb (SFltb v (float_of_int 0))) l then
        ∃ v, gate l = Ok v ∧
          (v = PASS ↔ 95 * Z.of_nat (length l) <= 100 * within P95_MAX_S l ∧
                      99 * Z.of_nat (length l) <= 100 * within P99_MAX_S l)
      else gate l = Raise (ValueError "signals have negative L1")
    else gate l = Raise (ValueError "signals are not finite")
  else gate l = Raise (ValueError "not enough signals").
Proof.
  intros Hlen. unfold gate. destruct (Nat.leb_spec MIN_SIGNALS (length l)) as [Hmin|]; [|done].
  cbn [check mbind res_bind]. destruct (forallb isfinite l) eqn:Hf; [|done]. cbn [check mbind res_bind].
  destruct (forallb (λ v, negb (SFltb v (float_of_int 0))) l); [|done]. cbn [check mbind res_bind]. unfold MIN_SIGNALS in Hmin.
  destruct (rank_95 (length l) ltac:(lia)) as (r1 & Hr1 & B1), (rank_99 (length l) ltac:(lia)) as (r2 & Hr2 & B2).
  apply finite_notnan in Hf.
  destruct (percentile_within l 95 r1 P95_MAX_S Hf eq_refl Hr1 ltac:(lia)) as (v1 & -> & E1).
  destruct (percentile_within l 99 r2 P99_MAX_S Hf eq_refl Hr2 ltac:(lia)) as (v2 & -> & E2).
  cbn [mbind res_bind]. set (w1 := within P95_MAX_S l) in *. set (w2 := within P99_MAX_S l) in *.
  destruct (SFleb v1 P95_MAX_S).
  - assert (r1 <= w1) by by apply E1. eexists. split; [done|]. destruct (SFleb v2 P99_MAX_S).
    + assert (r2 <= w2) by by apply E2. split; [intros _; lia|done].
    + split; [done|]. intros [_ H2]. assert (r2 <= w2) as Hr by lia. by apply E2 in Hr.
  - exists FAIL. split; [done|]. split; [done|]. intros [H1 _]. assert (r1 <= w1) as Hr by lia. by apply E1 in Hr.
Qed.

(** Ninety-five fast signals and five of a second and a half. *)
Definition ex_latencies : list float :=
  replicate 5 (fdiv (float_of_int 3) (float_of_int 2)) ++ replicate 95 (fdiv (float_of_int 1) (float_of_int 10)).
Lemma gate_counts_witness : ∃ v, gate ex_latencies = Ok v ∧
  (v = PASS ↔ 95 * Z.of_nat (length ex_latencies) <= 100 * within P95_MAX_S ex_latencies ∧
              99 * Z.of_nat (length ex_latencies) <= 100 * within P99_MAX_S ex_latencies).
Proof. exact (gate_counts ex_latencies ltac:(vm_compute; discriminate)). Defined.
Example gate_ex : gate ex_latencies = Ok PASS.
Proof. vm_compute. reflexivity. Qed.
