(* ===== verification/Assignment.v ===== *)
(** * Assignment: from a candidate graph to one decision per record

    [correlation/assignment.py].  Connected components of the candidate graph,
    an optimal assignment of each (Hungarian algorithm on a square cost matrix),
    and a decision per record: MATCHED only when no assignment within the margin
    of the optimum does otherwise.  A Python list updated by index is a list
    here; every index the code uses is in range, so [!!!] and [<[i:=x]>] read and
    write what Python does.  [math.inf] is [None]. *)

From S2P Require Import Prelude.

(** ** Data *)

Definition MAX_WEIGHT : Z := 10 ^ 9.

Record Edge := mkEdge { e_left : string; e_right : string; e_weight : Z }.

Inductive Status := MATCHED | UNMATCHED | AMBIGUOUS | OVERSIZED | NO_CANDIDATE | DENSE.
Global Instance Status_eq_dec : EqDecision Status.
Proof. solve_decision. Defined.
Definition Status_name (s : Status) : string :=
  match s with
  | MATCHED => "MATCHED" | UNMATCHED => "UNMATCHED" | AMBIGUOUS => "AMBIGUOUS"
  | OVERSIZED => "OVERSIZED" | NO_CANDIDATE => "NO_CANDIDATE" | DENSE => "DENSE"
  end.

(** [Decision] *)
Record ADecision := mkADecision {
  d_id : string;
  d_status : Status;
  d_partner : option string;
  d_component : option nat
}.
Record Component := mkComponent { c_left : list string; c_right : list string; c_best : option Z }.
Record AResult := mkAResult {
  r_left : list ADecision;
  r_right : list ADecision;
  r_components : list Component
}.
Global Instance ADecision_eq_dec : EqDecision ADecision.
Proof. solve_decision. Defined.

(** The two sides of the graph, and a record on one of them. *)
Definition L : string := "L".
Definition R : string := "R".
Notation Node := (string * string)%type (only parsing).
Notation Weights := (gmap (string * string) Z).

(** ** Validation *)

Definition validate_edge (known_l known_r : list string) (weights : Weights) (e : Edge)
    : res Weights :=
  _ ← check (bool_decide (e_left e ∈ known_l)) (ValueError "unknown left id in edge");
  _ ← check (bool_decide (e_right e ∈ known_r)) (ValueError "unknown right id in edge");
  _ ← check (bool_decide (weights !! (e_left e, e_right e) = None)) (ValueError "duplicate edge");
  _ ← check ((1 <=? e_weight e) && (e_weight e <=? MAX_WEIGHT)) (ValueError "weight");
  Ok (<[(e_left e, e_right e) := e_weight e]> weights).
Definition _validated (lefts rights : list string) (edges : list Edge) (margin max_component : Z)
    : res (list string * list string * Weights) :=
  _ ← check (0 <=? margin) (ValueError "margin must be an integer >= 0");
  _ ← check (1 <=? max_component) (ValueError "max_component must be an integer >= 1");
  _ ← check (bool_decide (NoDup lefts)) (ValueError "duplicate left id");
  _ ← check (bool_decide (NoDup rights)) (ValueError "duplicate right id");
  weights ← fold_res (validate_edge lefts rights) edges ∅;
  Ok (sorted lefts, sorted rights, weights).

(** ** Components *)

(** [neighbours]: a [defaultdict(set)]. *)
Notation Graph := (gmap (string * string) (gset (string * string))).
Definition add_neighbour (a b : Node) (g : Graph) : Graph := <[a := {[b]} ∪ default ∅ (g !! a)]> g.
Definition add_edge (g : Graph) (e : string * string) : Graph :=
  add_neighbour (R, e.2) (L, e.1) (add_neighbour (L, e.1) (R, e.2) g).
Definition neighbours (weights : Weights) : Graph :=
  foldl add_edge ∅ (map_to_list weights).*1.

(** One element of the queue: its neighbours not yet reached join the queue. *)
Definition visit (st : gset Node * list Node) (other : Node) : gset Node * list Node :=
  let '(reached, members) := st in
  if bool_decide (other ∈ reached) then st else ({[other]} ∪ reached, members ++ [other]).
(** The walk: [for k in range(len(neighbours))], ended when the queue is. *)
Fixpoint walk (fuel k : nat) (g : Graph) (reached : gset Node) (members : list Node)
    : gset Node * list Node :=
  match fuel with
  | O => (reached, members)
  | S f =>
      match members !! k with
      | None => (reached, members)
      | Some m =>
          let '(reached', members') :=
            foldl visit (reached, members) (sorted (elements (default ∅ (g !! m)))) in
          walk f (S k) g reached' members'
      end
  end.
Definition side_ids (side : string) (members : list Node) : list string :=
  sorted (snd <$> List.filter (λ m, bool_decide (m.1 = side)) members).
Definition component_from (g : Graph) (st : gset Node * list (list string * list string)) (start : Node)
    : gset Node * list (list string * list string) :=
  let '(reached, out) := st in
  if bool_decide (start ∈ reached) then st
  else
    let '(reached', members) := walk (size g) 0 g ({[start]} ∪ reached) [start] in
    (reached', out ++ [(side_ids L members, side_ids R members)]).
Definition _components (weights : Weights) : list (list string * list string) :=
  let g := neighbours weights in
  (foldl (component_from g) (∅, []) (sorted (map_to_list g).*1)).2.

(** ** The Hungarian algorithm *)

Section hungarian.
Context (cost : list (list Z)) (n : nat).

Record HState := mkH { hu : list Z; hv : list Z; hp : list nat; hway : list nat }.
(** The state of one row's search tree. *)
Record TState := mkT { t_h : HState; t_minv : list (option Z); t_used : list bool; t_j0 : nat }.

Definition lt_inf (a : Z) (b : option Z) : bool :=
  match b with None => true | Some b => a <? b end.

(** [for j in range(1, n + 1)]: relax the free columns, and find the nearest. *)
Definition scan_column (u v : list Z) (used : list bool) (i0 j0 : nat)
    (st : list (option Z) * list nat * option Z * nat) (j : nat)
    : list (option Z) * list nat * option Z * nat :=
  let '(minv, way, delta, j1) := st in
  if (used !!! j : bool) then st
  else
    let cur := (cost !!! (i0 - 1)%nat) !!! (j - 1)%nat - u !!! i0 - v !!! j in
    let '(minv, way) :=
      if lt_inf cur (minv !!! j) then (<[j := Some cur]> minv, <[j := j0]> way) else (minv, way) in
    match minv !!! j with
    | Some m => if lt_inf m delta then (minv, way, Some m, j) else (minv, way, delta, j1)
    | None => (minv, way, delta, j1)
    end.

(** [for j in range(n + 1)]: shift the potentials by [delta]. *)
Definition shift_column (p : list nat) (used : list bool) (delta : Z)
    (st : list Z * list Z * list (option Z)) (j : nat) : list Z * list Z * list (option Z) :=
  let '(u, v, minv) := st in
  if (used !!! j : bool)
  then (<[p !!! j := u !!! (p !!! j) + delta]> u, <[j := v !!! j - delta]> v, minv)
  else (u, v, <[j := (λ m, m - delta) <$> (minv !!! j)]> minv).

Definition tree_step (t : TState) : res TState :=
  let '(mkT (mkH u v p way) minv used j0) := t in
  let used := <[j0 := true]> used in
  let i0 := p !!! j0 in
  let '(minv, way, delta, j1) :=
    foldl (scan_column u v used i0 j0) (minv, way, None, 0%nat) (seq 1 n) in
  match delta with
  | None => Raise (AssertionError "no free column")   (* delta stays infinite: not reached *)
  | Some d =>
      let '(u, v, minv) := foldl (shift_column p used d) (u, v, minv) (seq 0 (S n)) in
      Ok (mkT (mkH u v p way) minv used j1)
  end.
(** [for _ in range(n + 1)] with its [break] and its [else]. *)
Fixpoint grow (fuel : nat) (t : TState) : res TState :=
  match fuel with
  | O => Raise (AssertionError "assignment did not converge")
  | S f => if (hp (t_h t) !!! t_j0 t =? 0)%nat then Ok t else t' ← tree_step t; grow f t'
  end.
(** [while j0]: flip the matching along the path. *)
Fixpoint augment (fuel : nat) (way p : list nat) (j0 : nat) : res (list nat) :=
  match fuel with
  | O => Raise OutOfFuel
  | S f =>
      match j0 with
      | O => Ok p
      | _ => let j1 := way !!! j0 in augment f way (<[j0 := p !!! j1]> p) j1
      end
  end.
Definition add_row (h : HState) (i : nat) : res HState :=
  let h := mkH (hu h) (hv h) (<[0%nat := i]> (hp h)) (hway h) in
  t ← grow (S n) (mkT h (replicate (S n) None) (replicate (S n) false) 0);
  p ← augment (S (S n)) (hway (t_h t)) (hp (t_h t)) (t_j0 t);
  Ok (mkH (hu (t_h t)) (hv (t_h t)) p (hway (t_h t))).
Definition H_init : HState :=
  mkH (replicate (S n) 0) (replicate (S n) 0) (replicate (S n) 0%nat) (replicate (S n) 0%nat).
Definition row_to_col (p : list nat) : list nat :=
  foldl (λ r j, <[((p !!! j) - 1)%nat := (j - 1)%nat]> r) (replicate n 0%nat) (seq 1 n).
Definition total_cost (column : list nat) : Z :=
  foldl (λ s i, s + (cost !!! i) !!! (column !!! i)) 0 (seq 0 n).
End hungarian.

Definition _min_cost_assignment (cost : list (list Z)) : res (Z * list nat) :=
  let n := length cost in
  h ← fold_res (add_row cost n) (seq 1 n) (H_init n);
  let column := row_to_col n (hp h) in
  Ok (total_cost cost n column, column).

(** ** Decisions *)

(** The cost matrix of one component. *)
Section matrix.
Context (left_ids right_ids : list string) (weights : Weights).

Definition forbidden : Z :=
  1 + foldr Z.add 0 (left_ids ≫= λ x, omap (λ y, weights !! (x, y)) right_ids).
Definition cell (i j : nat) : Z :=
  let nl := length left_ids in
  let nr := length right_ids in
  if (i <? nl)%nat then
    if (j <? nr)%nat then
      match weights !! ((left_ids !!! i : string), (right_ids !!! j : string)) with
      | Some w => - w
      | None => forbidden
      end
    else if (j =? nr + i)%nat then 0 else forbidden
  else
    if (j <? nr)%nat then (if (i =? nl + j)%nat then 0 else forbidden)
    else 0.
Definition cost_matrix : list (list Z) :=
  let size := (length left_ids + length right_ids)%nat in
  (λ i, cell i <$> seq 0 size) <$> seq 0 size.
(** [cost[row][col] = forbidden] *)
Definition forbid (row col : nat) : list (list Z) :=
  <[row := <[col := forbidden]> (cost_matrix !!! row)]> cost_matrix.
Definition near_optimal_without (margin total : Z) (row col : nat) : res bool :=
  '(alternative, _) ← _min_cost_assignment (forbid row col);
  Ok (alternative - total <=? margin).

Notation Decided := (gmap string (Status * option string)).
Definition decide_left (margin total : Z) (column : list nat) (decs : Decided * Decided) (i : nat)
    : res (Decided * Decided) :=
  let '(ld, rd) := decs in
  let nr := length right_ids in
  let x : string := left_ids !!! i in
  let j : nat := column !!! i in
  if (j <? nr)%nat then
    ambiguous ← near_optimal_without margin total i j;
    let y : string := right_ids !!! j in
    if (ambiguous : bool)
    then Ok (<[x := (AMBIGUOUS, None)]> ld, <[y := (AMBIGUOUS, None)]> rd)
    else Ok (<[x := (MATCHED, Some y)]> ld, <[y := (MATCHED, Some x)]> rd)
  else
    ambiguous ← near_optimal_without margin total i (nr + i);
    Ok (<[x := (if ambiguous : bool then AMBIGUOUS else UNMATCHED, None)]> ld, rd).
Definition decide_right (margin total : Z) (column : list nat) (rd : Decided) (j : nat)
    : res Decided :=
  let nl := length left_ids in
  let y : string := right_ids !!! j in
  if existsb (λ i, ((column !!! i : nat) =? j)%nat) (seq 0 nl) then Ok rd
  else
    ambiguous ← near_optimal_without margin total (nl + j) j;
    Ok (<[y := (if ambiguous : bool then AMBIGUOUS else UNMATCHED, None)]> rd).
Definition _resolve (margin : Z) : res (Z * Decided * Decided) :=
  '(total, column) ← _min_cost_assignment cost_matrix;
  '(ld, rd) ← fold_res (decide_left margin total column) (seq 0 (length left_ids)) (∅, ∅);
  rd ← fold_res (decide_right margin total column) (seq 0 (length right_ids)) rd;
  Ok (- total, ld, rd).
End matrix.

Notation Decisions := (gmap (string * string) ADecision).
Definition put_decisions (side : string) (index : nat) (decs : gmap string (Status * option string))
    (d : Decisions) : Decisions :=
  foldl (λ d '(x, (status, partner)), <[(side, x) := mkADecision x status partner (Some index)]> d)
    d (map_to_list decs).
Definition put_oversized (side : string) (index : nat) (ids : list string) (d : Decisions) : Decisions :=
  foldl (λ d x, <[(side, x) := mkADecision x OVERSIZED None (Some index)]> d) d ids.
Definition assign_component (weights : Weights) (margin max_component : Z)
    (st : Decisions * list Component) (c : nat * (list string * list string))
    : res (Decisions * list Component) :=
  let '(decided, comps) := st in
  let '(index, (left_ids, right_ids)) := c in
  if max_component <? Z.max (Z.of_nat (length left_ids)) (Z.of_nat (length right_ids))
  then Ok (put_oversized R index right_ids (put_oversized L index left_ids decided),
           comps ++ [mkComponent left_ids right_ids None])
  else
    '(best, ld, rd) ← _resolve left_ids right_ids weights margin;
    Ok (put_decisions R index rd (put_decisions L index ld decided),
        comps ++ [mkComponent left_ids right_ids (Some best)]).
Definition _decision (decided : Decisions) (side x : string) : ADecision :=
  default (mkADecision x NO_CANDIDATE None None) (decided !! (side, x)).
Definition assign (lefts rights : list string) (edges : list Edge) (margin max_component : Z)
    : res AResult :=
  '(lefts, rights, weights) ← _validated lefts rights edges margin max_component;
  let comps := _components weights in
  '(decided, components) ← fold_res (assign_component weights margin max_component)
    (zip (seq 0 (length comps)) comps) (∅, []);
  Ok (mkAResult (_decision decided L <$> lefts) (_decision decided R <$> rights) components).

Example assign_margin :
  match assign ["a"; "b"]%string ["x"; "y"; "z"]%string
          [mkEdge "a" "x" 5; mkEdge "b" "y" 7; mkEdge "b" "x" 5] 1 32 with
  | Ok r => ((λ d, (d_status d, d_partner d)) <$> r_left r, (λ d, (d_status d, d_partner d)) <$> r_right r) =
      ([(MATCHED, Some "x"); (MATCHED, Some "y")],
       [(MATCHED, Some "a"); (MATCHED, Some "b"); (NO_CANDIDATE, None)])%string
  | Raise _ => False
  end.
Proof. vm_compute. reflexivity. Qed.
