(* ===== verification/Hungarian.v ===== *)
(** * Hungarian: the assignment of minimal cost

    The loop of [assignment._min_cost_assignment] is the Hungarian algorithm with
    potentials.  Its invariant: the potentials [u], [v] never exceed a cell's cost on
    the rows already placed, and meet it on every cell of the current matching
    (complementary slackness).  A tree of columns grows from the row being placed
    along cells that meet their potentials; when it reaches a free column, the path
    back to the root is flipped.  At the end the matching is perfect, and the
    potentials prove that no permutation costs less. *)

From S2P Require Import Prelude Assignment.

(** ** Lemmas: lists updated by index *)

Lemma upd_lookup {A} `{Inhabited A} (l : list A) i j x : (i < length l)%nat →
  <[i := x]> l !!! j = if decide (i = j) then x else l !!! j.
Proof.
  intros Hi. destruct (decide (i = j)) as [-> |Hne].
  - by apply list_lookup_total_insert_eq.
  - by apply list_lookup_total_insert_ne.
Qed.

Section hungarian.
Context (cost : list (list Z)) (n : nat).

(** The cell of row [r] and column [c], counted from 1 as the code counts them. *)
Definition cell_at (r c : nat) : Z := (cost !!! (r - 1)%nat) !!! (c - 1)%nat.
Definition slack (u v : list Z) (r c : nat) : Z := cell_at r c - u !!! r - v !!! c.

(** ** Scanning the free columns *)

Section scan.
Context (u v : list Z) (used : list bool) (i0 j0 : nat) (minv0 : list (option Z)) (way0 : list nat).

Record scanned (l : list nat) (st : list (option Z) * list nat * option Z * nat) : Prop := {
  sc_len : length st.1.1.1 = length minv0 ∧ length st.1.1.2 = length way0;
  sc_same c : c ∉ l ∨ used !!! c = true →
    st.1.1.1 !!! c = minv0 !!! c ∧ st.1.1.2 !!! c = way0 !!! c;
  sc_free c : c ∈ l → used !!! c = false →
    (st.1.1.1 !!! c = Some (slack u v i0 c) ∧ st.1.1.2 !!! c = j0 ∧
       match minv0 !!! c with Some m => slack u v i0 c < m | None => True end) ∨
    (∃ m, minv0 !!! c = Some m ∧ m <= slack u v i0 c ∧
       st.1.1.1 !!! c = Some m ∧ st.1.1.2 !!! c = way0 !!! c);
  sc_none : st.1.2 = None → ∀ c, c ∈ l → used !!! c = true;
  sc_some d : st.1.2 = Some d → st.2 ∈ l ∧ used !!! st.2 = false ∧ st.1.1.1 !!! st.2 = Some d ∧
    ∀ c m, c ∈ l → used !!! c = false → st.1.1.1 !!! c = Some m → d <= m
}.

Lemma scan_init : scanned [] (minv0, way0, None, 0%nat).
Proof. split; simpl; try done; intros; exfalso; by eapply not_elem_of_nil. Qed.

Lemma scan_step l st j : j ∉ l → (j < length minv0)%nat → (j < length way0)%nat →
  scanned l st → scanned (l ++ [j]) (scan_column cost u v used i0 j0 st j).
Proof.
  intros Hj Hm Hw [Hl Hs Hf Hn Hd]. destruct st as [[[minv way] delta] j1]. simpl in *.
  destruct Hl as [Hl1 Hl2]. unfold scan_column.
  destruct (used !!! j) eqn:Hu.
  { split; simpl; [done| | | |].
    - intros c Hc. apply Hs. rewrite elem_of_app in Hc. naive_solver.
    - intros c [Hc| ->%list_elem_of_singleton]%elem_of_app Hc'; [by apply Hf|congruence].
    - intros Ed c [Hc| ->%list_elem_of_singleton]%elem_of_app; [by apply Hn|done].
    - intros d Ed. destruct (Hd d Ed) as (H1 & H2 & H3 & H4). split_and!; [set_solver|done|done|].
      intros c m [Hc| ->%list_elem_of_singleton]%elem_of_app Hc'; [by apply H4|congruence]. }
  fold (cell_at i0 j). change (cell_at i0 j - u !!! i0 - v !!! j) with (slack u v i0 j).
  destruct (Hs j ltac:(by left)) as [Ej Ewj].
  set (mw := if lt_inf _ _ then _ else _).
  assert (∃ m, mw.1 !!! j = Some m ∧ length mw.1 = length minv0 ∧ length mw.2 = length way0 ∧
    (∀ c, c ≠ j → mw.1 !!! c = minv !!! c ∧ mw.2 !!! c = way !!! c) ∧
    ((m = slack u v i0 j ∧ mw.2 !!! j = j0 ∧
       match minv0 !!! j with Some m => slack u v i0 j < m | None => True end) ∨
     (minv0 !!! j = Some m ∧ m <= slack u v i0 j ∧ mw.2 !!! j = way0 !!! j)))
    as (m & Em & L1 & L2 & Ho & Hm').
  { unfold mw. rewrite Ej. destruct (minv0 !!! j) as [m0|] eqn:E0; simpl.
    - destruct (Z.ltb_spec (slack u v i0 j) m0); simpl.
      + eexists. rewrite !length_insert, !upd_lookup, !decide_True by (done || lia).
        split_and!; [done|done|done| |by left].
        intros c Hc. by rewrite !list_lookup_total_insert_ne.
      + exists m0. split_and!; [congruence|done|done|done|]. right. done.
    - eexists. rewrite !length_insert, !upd_lookup, !decide_True by (done || lia).
      split_and!; [done|done|done| |by left].
      intros c Hc. by rewrite !list_lookup_total_insert_ne. }
  destruct mw as [minv' way']. simpl in *. rewrite Em.
  assert (∀ c, c ∈ l → c ≠ j) as Hne by (intros c Hc ->; done).
  assert (∀ d k, scanned (l ++ [j]) (minv', way', Some d, k) ↔
    (k ∈ l ++ [j] ∧ used !!! k = false ∧ minv' !!! k = Some d ∧
     ∀ c m, c ∈ l ++ [j] → used !!! c = false → minv' !!! c = Some m → d <= m)) as Hgoal.
  { intros d k. split; [intros [_ _ _ _ H]; by apply H|]. intros H.
    split; simpl; [done| | |done|by intros ? [= <-]].
    - intros c Hc. rewrite elem_of_app, list_elem_of_singleton in Hc.
      destruct (Ho c) as [-> ->]; [naive_solver congruence|]. apply Hs. naive_solver.
    - intros c [Hc| ->%list_elem_of_singleton]%elem_of_app Hc'.
      + destruct (Ho c) as [-> ->]; [by apply Hne|]. by apply Hf.
      + destruct Hm' as [(-> & ? & ?)|(? & ? & ?)]; [left|right; exists m]; done. }
  assert (∀ c m', c ∈ l → used !!! c = false → minv' !!! c = Some m' →
            minv !!! c = Some m') as Hold.
  { intros c m' Hc _ E. destruct (Ho c) as [E' _]; [by apply Hne|]. congruence. }
  destruct delta as [d|]; simpl.
  - destruct (Hd d eq_refl) as (H1 & H2 & H3 & H4). destruct (Z.ltb_spec m d); apply Hgoal.
    + split_and!; [set_solver|done|done|].
      intros c m' [Hc| ->%list_elem_of_singleton]%elem_of_app Hc' E; [|simplify_eq; lia].
      pose proof (H4 c m' Hc Hc' (Hold c m' Hc Hc' E)). lia.
    + split_and!; [set_solver|done| |].
      * destruct (Ho j1) as [-> _]; [by apply Hne|done].
      * intros c m' [Hc| ->%list_elem_of_singleton]%elem_of_app Hc' E; [|simplify_eq; lia].
        by apply (H4 c m'); auto.
  - apply Hgoal. split_and!; [set_solver|done|done|].
    intros c m' [Hc| ->%list_elem_of_singleton]%elem_of_app Hc' E; [|simplify_eq; lia].
    by rewrite (Hn eq_refl c Hc) in Hc'.
Qed.

Lemma scan_all l : NoDup l → (∀ j, j ∈ l → (j < length minv0)%nat ∧ (j < length way0)%nat) →
  scanned l (foldl (scan_column cost u v used i0 j0) (minv0, way0, None, 0%nat) l).
Proof.
  induction l as [|j l IH] using rev_ind; intros Hnd Hl; [apply scan_init|].
  rewrite foldl_snoc. apply NoDup_app in Hnd as (Hnd & Hj & _).
  assert (j ∈ l ++ [j]) as Hin by (apply elem_of_app; right; left).
  destruct (Hl j Hin). apply scan_step; [|done|done|].
  - intros Hc. apply (Hj j Hc). left.
  - apply IH; [done|]. intros k Hk. apply Hl, elem_of_app. by left.
Qed.
End scan.

(** ** Shifting the potentials *)

Section shift.
Context (p : list nat) (used : list bool) (d : Z) (u0 v0 : list Z) (minv0 : list (option Z)).

(** The rows of the used columns of [l]. *)
Definition used_rows (l : list nat) : list nat :=
  (λ c, p !!! c) <$> List.filter (λ c, used !!! c : bool) l.

Record shifted (l : list nat) (st : list Z * list Z * list (option Z)) : Prop := {
  sh_len : length st.1.1 = length u0 ∧ length st.1.2 = length v0 ∧ length st.2 = length minv0;
  sh_u r : st.1.1 !!! r = u0 !!! r + (if bool_decide (r ∈ used_rows l) then d else 0);
  sh_v c : st.1.2 !!! c = v0 !!! c - (if bool_decide (c ∈ l) && (used !!! c : bool) then d else 0);
  sh_minv c : st.2 !!! c = if bool_decide (c ∈ l) && negb (used !!! c)
                           then (λ m, m - d) <$> minv0 !!! c else minv0 !!! c
}.

Lemma used_rows_snoc l j : used_rows (l ++ [j]) =
  used_rows l ++ (if used !!! j : bool then [p !!! j] else []).
Proof.
  unfold used_rows. rewrite List.filter_app, fmap_app. simpl. by destruct (used !!! j).
Qed.

Lemma shift_step l st j : j ∉ l → (j < length v0)%nat → (j < length minv0)%nat →
  (used !!! j = true → (p !!! j < length u0)%nat ∧ p !!! j ∉ used_rows l) →
  shifted l st → shifted (l ++ [j]) (shift_column p used d st j).
Proof.
  intros Hj Hv Hm Hu [(L1 & L2 & L3) Su Sv Sm]. destruct st as [[u v] minv]. simpl in *.
  unfold shift_column. destruct (used !!! j) eqn:Ej.
  - destruct (Hu eq_refl) as [Hpj Hnew]. split; simpl; [by rewrite !length_insert| | |].
    + intros r. rewrite used_rows_snoc, Ej, upd_lookup, !Su by lia.
      destruct (decide (p !!! j = r)) as [<- |Hne].
      * rewrite bool_decide_eq_false_2, bool_decide_eq_true_2 by set_solver. lia.
      * by rewrite (bool_decide_ext (r ∈ used_rows l ++ [p !!! j]) (r ∈ used_rows l)) by set_solver.
    + intros c. rewrite upd_lookup, !Sv by lia. destruct (decide (j = c)) as [<- |Hne].
      * rewrite Ej, bool_decide_eq_false_2, bool_decide_eq_true_2 by set_solver. simpl. lia.
      * by rewrite (bool_decide_ext (c ∈ l ++ [j]) (c ∈ l)) by set_solver.
    + intros c. rewrite Sm. destruct (decide (j = c)) as [<- |Hne].
      * by rewrite Ej, !andb_false_r.
      * by rewrite (bool_decide_ext (c ∈ l ++ [j]) (c ∈ l)) by set_solver.
  - split; simpl; [by rewrite !length_insert| | |].
    + intros r. by rewrite used_rows_snoc, Ej, app_nil_r.
    + intros c. rewrite Sv. destruct (decide (j = c)) as [<- |Hne].
      * by rewrite Ej, !andb_false_r.
      * by rewrite (bool_decide_ext (c ∈ l ++ [j]) (c ∈ l)) by set_solver.
    + intros c. rewrite upd_lookup, !Sm by lia. destruct (decide (j = c)) as [<- |Hne].
      * by rewrite Ej, bool_decide_eq_false_2, bool_decide_eq_true_2 by set_solver.
      * by rewrite (bool_decide_ext (c ∈ l ++ [j]) (c ∈ l)) by set_solver.
Qed.

Lemma shift_all l : NoDup l → NoDup (used_rows l) →
  (∀ j, j ∈ l → (j < length v0)%nat ∧ (j < length minv0)%nat) →
  (∀ j, j ∈ l → used !!! j = true → (p !!! j < length u0)%nat) →
  shifted l (foldl (shift_column p used d) (u0, v0, minv0) l).
Proof.
  induction l as [|j l IH] using rev_ind; intros Hnd Hr Hl Hu.
  { split; simpl; [done|intros; lia..|done]. }
  rewrite foldl_snoc. apply NoDup_app in Hnd as (Hnd & Hj & _).
  rewrite used_rows_snoc in Hr. apply NoDup_app in Hr as (Hr & Hnew & _).
  assert (j ∈ l ++ [j]) as Hin by (apply elem_of_app; right; left).
  destruct (Hl j Hin). apply shift_step; [|done|done| |].
  - intros Hc. apply (Hj j Hc). left.
  - intros Ej. split; [by apply Hu|]. intros Hc. apply (Hnew _ Hc). rewrite Ej. left.
  - apply IH; [done|done| |]; intros k Hk; [apply Hl|apply Hu]; apply elem_of_app; by left.
Qed.
End shift.

(** ** The tree of one row *)

(** A column other than 0 points to a column added before it. *)
Fixpoint branch (way : list nat) (T : list nat) : Prop :=
  match T with
  | [] => True
  | c :: T' => (if decide (c = 0%nat) then T' = [] else way !!! c ∈ T') ∧ branch way T'
  end.

Lemma branch_ext way way' T : (∀ c, c ∈ T → way' !!! c = way !!! c) → branch way T → branch way' T.
Proof.
  induction T as [|c T IH]; intros He; [done|]. simpl. intros [Hc Hb]. split.
  - rewrite He by left. done.
  - apply IH; [|done]. intros; apply He; by right.
Qed.

Lemma branch_at way T k : branch way T → k ∈ T → ∃ T1 T2, T = T1 ++ k :: T2 ∧ branch way (k :: T2).
Proof.
  induction T as [|c T IH]; intros Hb Hk; [by apply not_elem_of_nil in Hk|].
  apply elem_of_cons in Hk as [-> |Hk]; [by exists [], T|].
  destruct Hb as [_ Hb]. destruct (IH Hb Hk) as (T1 & T2 & -> & ?). by exists (c :: T1), T2.
Qed.

Section tree.
(** The row being placed, and the matching with that row at column 0. *)
Context (i : nat) (P : list nat).
Hypothesis Hi : (1 <= i <= n)%nat.
Hypothesis HP_len : length P = S n.
Hypothesis HP_root : P !!! 0%nat = i.
Hypothesis HP_le : ∀ c, (c <= n)%nat → (P !!! c <= i)%nat.
Hypothesis HP_inj : ∀ a b, (a <= n)%nat → (b <= n)%nat → P !!! a ≠ 0%nat → P !!! a = P !!! b → a = b.

Record Tree (T : list nat) (t : TState) : Prop := {
  tr_p : hp (t_h t) = P;
  tr_len : length (hu (t_h t)) = S n ∧ length (hv (t_h t)) = S n ∧ length (hway (t_h t)) = S n ∧
           length (t_minv t) = S n ∧ length (t_used t) = S n;
  tr_used c : (c <= n)%nat → t_used t !!! c = true ↔ c ∈ T;
  tr_bound c : c ∈ T → (c <= n)%nat;
  tr_nodup : NoDup T;
  tr_matched c : c ∈ T → P !!! c ≠ 0%nat;
  tr_root : (T = [] ∧ t_j0 t = 0%nat) ∨ (0%nat ∈ T ∧ t_j0 t ∉ T ∧ (1 <= t_j0 t <= n)%nat);
  tr_branch : branch (hway (t_h t)) (t_j0 t :: T);
  tr_edges c : c ∈ t_j0 t :: T → c ≠ 0%nat →
    slack (hu (t_h t)) (hv (t_h t)) (P !!! (hway (t_h t) !!! c)) c = 0;
  tr_feas r c : (1 <= r <= i)%nat → (r = i → T ≠ []) → (1 <= c <= n)%nat →
    0 <= slack (hu (t_h t)) (hv (t_h t)) r c;
  tr_tight c : (1 <= c <= n)%nat → P !!! c ≠ 0%nat →
    slack (hu (t_h t)) (hv (t_h t)) (P !!! c) c = 0;
  tr_minv c : (1 <= c <= n)%nat → c ∉ T →
    match T with
    | [] => t_minv t !!! c = None
    | _ => ∃ m, t_minv t !!! c = Some m ∧ hway (t_h t) !!! c ∈ T ∧
        m = slack (hu (t_h t)) (hv (t_h t)) (P !!! (hway (t_h t) !!! c)) c ∧
        ∀ c', c' ∈ T → m <= slack (hu (t_h t)) (hv (t_h t)) (P !!! c') c
    end
}.

Lemma rows_NoDup (T : list nat) : NoDup T → (∀ c, c ∈ T → (c <= n)%nat ∧ P !!! c ≠ 0%nat) →
  NoDup ((λ c, P !!! c) <$> T).
Proof.
  intros Hnd HT. apply NoDup_fmap_2_strong; [|done]. intros a b Ha Hb E.
  destruct (HT a Ha), (HT b Hb). by apply HP_inj.
Qed.

(** A tree of matched columns has at most as many columns as rows placed. *)
Lemma tree_size (T : list nat) : NoDup T → (∀ c, c ∈ T → (c <= n)%nat ∧ P !!! c ≠ 0%nat) → (length T <= i)%nat.
Proof.
  intros Hnd HT. rewrite <- (length_fmap (λ c, P !!! c)), <- (length_seq i 1).
  apply submseteq_length, NoDup_submseteq; [by apply rows_NoDup|].
  intros r (c & -> & Hc)%list_elem_of_fmap. destruct (HT c Hc) as [H1 H2].
  apply elem_of_seq. pose proof (HP_le c H1). lia.
Qed.

Lemma free_column (T : list nat) : NoDup T → (∀ c, c ∈ T → (c <= n)%nat ∧ P !!! c ≠ 0%nat) → 0%nat ∈ T →
  ¬ (∀ c, c ∈ seq 1 n → c ∈ T).
Proof.
  intros Hnd HT H0 Hall. pose proof (tree_size T Hnd HT).
  assert (length (seq 0 (S n)) <= length T)%nat as Hle; [|rewrite length_seq in Hle; lia].
  apply submseteq_length, NoDup_submseteq; [apply NoDup_seq|].
  intros c Hc%elem_of_seq. destruct c as [|c]; [done|]. apply Hall, elem_of_seq. lia.
Qed.

(** The rows of the tree are the rows whose potential moves. *)
Lemma used_rows_tree (T : list nat) (used : list bool) : (∀ c, (c <= n)%nat → used !!! c = true ↔ c ∈ T) →
  (∀ c, c ∈ T → (c <= n)%nat) →
  ∀ r, r ∈ used_rows P used (seq 0 (S n)) ↔ r ∈ (λ c, P !!! c) <$> T.
Proof.
  intros Hu Hb r. unfold used_rows. rewrite !list_elem_of_fmap. setoid_rewrite elem_of_filter_bool.
  setoid_rewrite elem_of_seq. split.
  - intros (c & -> & Hc & Hc'). exists c. split; [done|]. apply Hu; [lia|done].
  - intros (c & -> & Hc). exists c. split; [done|]. pose proof (Hb c Hc). split; [lia|].
    by apply Hu.
Qed.

(** How a shift of [d] along the tree moves the slack of a cell. *)
Lemma slack_shifted (T : list nat) (used : list bool) d u v minv u' v' minv' r c :
  shifted P used d u v minv (seq 0 (S n)) (u', v', minv') →
  (∀ c, (c <= n)%nat → used !!! c = true ↔ c ∈ T) → (∀ c, c ∈ T → (c <= n)%nat) → (c <= n)%nat →
  slack u' v' r c = slack u v r c - (if bool_decide (r ∈ (λ c, P !!! c) <$> T) then d else 0)
                    + (if bool_decide (c ∈ T) then d else 0).
Proof.
  intros [_ Su Sv _] Hu Hb Hc. unfold slack. simpl in *. rewrite Su, Sv.
  rewrite (bool_decide_ext (r ∈ used_rows P used (seq 0 (S n))) (r ∈ (λ c, P !!! c) <$> T))
    by by apply used_rows_tree.
  rewrite (bool_decide_eq_true_2 (c ∈ seq 0 (S n))) by (apply elem_of_seq; lia). simpl.
  rewrite (bool_decide_ext (c ∈ T) (used !!! c = true)) by (symmetry; by apply Hu).
  destruct (used !!! c);
    [rewrite (bool_decide_eq_true_2 (true = true)) by done|rewrite (bool_decide_eq_false_2 (false = true)) by done];
    lia.
Qed.

(** What the scan of the free columns finds, for the tree [T' = j0 :: T]. *)
Lemma scan_tree T t used' :
  Tree T t → P !!! t_j0 t ≠ 0%nat → used' = <[t_j0 t := true]> (t_used t) →
  let u := hu (t_h t) in
  let v := hv (t_h t) in
  let T' := t_j0 t :: T in
  ∃ minv way d j1,
    foldl (scan_column cost u v used' (P !!! t_j0 t) (t_j0 t))
      (t_minv t, hway (t_h t), None, 0%nat) (seq 1 n) = (minv, way, Some d, j1) ∧
    length minv = S n ∧ length way = S n ∧
    (1 <= j1 <= n)%nat ∧ j1 ∉ T' ∧ minv !!! j1 = Some d ∧
    (∀ c, c ∈ T' → way !!! c = hway (t_h t) !!! c) ∧
    (∀ c, (1 <= c <= n)%nat → c ∉ T' → ∃ m, minv !!! c = Some m ∧ d <= m ∧ way !!! c ∈ T' ∧
       m = slack u v (P !!! (way !!! c)) c ∧ ∀ c', c' ∈ T' → m <= slack u v (P !!! c') c).
Proof.
  intros HT HP Hused. pose proof HT as [Ep Hlen Hu Hb Hnd Hm Hr Hbr He Hf Ht Hv].
  destruct Hlen as (L1 & L2 & L3 & L4 & L5). set (u := hu (t_h t)). set (v := hv (t_h t)).
  set (T' := t_j0 t :: T). set (j0 := t_j0 t) in *. cbv zeta.
  assert ((j0 <= n)%nat ∧ j0 ∉ T) as [Hj0 Hj0T].
  { destruct Hr as [[-> ->]|(? & ? & ?)]; [split; [lia|by apply not_elem_of_nil]|split; [lia|done]]. }
  assert (∀ c, (c <= n)%nat → used' !!! c = true ↔ c ∈ T') as Hu'.
  { intros c Hc. rewrite Hused, upd_lookup by lia. unfold T'. rewrite elem_of_cons, <- (Hu c Hc).
    destruct (decide (j0 = c)); naive_solver. }
  assert (∀ c, c ∈ seq 1 n ↔ (1 <= c <= n)%nat) as Hseq by (intros; rewrite elem_of_seq; lia).
  pose proof (scan_all u v used' (P !!! j0) j0 (t_minv t) (hway (t_h t)) (seq 1 n) (NoDup_seq _ _))
    as Hscan.
  destruct (foldl _ _ _) as [[[minv way] delta] j1] eqn:Efold.
  destruct Hscan as [Slen Ssame Sfree Snone Ssome]; [intros j Hj%Hseq; lia|]. simpl in *.
  assert (NoDup T' ∧ ∀ c, c ∈ T' → (c <= n)%nat ∧ P !!! c ≠ 0%nat) as [HnT' HT'].
  { split; [by constructor|]. intros c [-> |Hc]%elem_of_cons; [done|]. auto. }
  assert (0%nat ∈ T') as H0.
  { unfold T'. destruct Hr as [[-> ->]|(? & _)]; [left|by right]. }
  assert (∀ c, (1 <= c <= n)%nat → c ∉ T' → ∃ m, minv !!! c = Some m ∧ way !!! c ∈ T' ∧
       m = slack u v (P !!! (way !!! c)) c ∧ ∀ c', c' ∈ T' → m <= slack u v (P !!! c') c) as Hfree.
  { intros c Hc HcT. assert (used' !!! c = false) as Huc.
    { apply not_true_is_false. rewrite Hu' by lia. done. }
    assert (c ∉ T) as HcT0 by (intros ?; apply HcT; by right).
    pose proof (Hv c Hc HcT0) as Hold. destruct (Sfree c) as [(E & Ew & Hlt)|(m & Em & Hle & E & Ew)];
      [by apply Hseq|done| |].
    - exists (slack u v (P !!! j0) c). rewrite E, Ew. split_and!; [done|left|done|].
      intros c' [-> |Hc']%elem_of_cons; [done|]. destruct T as [|x T0]; [by apply not_elem_of_nil in Hc'|].
      destruct Hold as (m & Em & _ & _ & Hmin). rewrite Em in Hlt. specialize (Hmin c' Hc').
      fold u v in Hmin. lia.
    - rewrite Em in Hold. destruct T as [|x T0]; [done|]. destruct Hold as (m' & [= <-] & Hw & Es & Hmin).
      exists m. rewrite E, Ew. split_and!; [done|by right|done|].
      intros c' [-> |Hc']%elem_of_cons; [done|by apply Hmin]. }
  destruct delta as [d|].
  - destruct (Ssome d eq_refl) as (Hj1 & Huj1 & Ej1 & Hmin). apply Hseq in Hj1.
    exists minv, way, d, j1. split_and!; [done|lia|lia|lia|lia| |done| |].
    + rewrite <- Hu' by lia. by rewrite Huj1.
    + intros c Hc. destruct (Ssame c) as [_ E]; [right|done]. apply Hu'; [by apply HT'|done].
    + intros c Hc HcT. destruct (Hfree c Hc HcT) as (m & Em & Hrest). exists m.
      split; [done|]. split; [|done]. apply (Hmin c m); [by apply Hseq| |done].
      apply not_true_is_false. by rewrite Hu' by lia.
  - exfalso. apply (free_column T' HnT' HT' H0). intros c Hc. apply Hu'; [apply Hseq in Hc; lia|].
    by apply Snone.
Qed.

(** One step adds the nearest column to the tree. *)
Lemma tree_step_ok T t : Tree T t → P !!! t_j0 t ≠ 0%nat →
  ∃ t', tree_step cost n t = Ok t' ∧ Tree (t_j0 t :: T) t'.
Proof.
  intros HT HP. destruct (scan_tree T t _ HT HP eq_refl)
    as (minv & way & d & j1 & Efold & Lm & Lw & Hj1 & Hj1T & Ej1 & Hway & Hfree).
  pose proof HT as [Ep (L1 & L2 & L3 & L4 & L5) Hu Hb Hnd Hm Hr Hbr He Hf Ht Hv].
  destruct t as [[u v p way0] minv0 used j0]. simpl in *. subst p. set (T' := j0 :: T) in *.
  assert ((j0 <= n)%nat ∧ j0 ∉ T) as [Hj0 Hj0T].
  { destruct Hr as [[-> ->]|(? & ? & ?)]; [split; [lia|by apply not_elem_of_nil]|split; [lia|done]]. }
  assert (∀ c, (c <= n)%nat → <[j0 := true]> used !!! c = true ↔ c ∈ T') as Hu'.
  { intros c Hc. rewrite upd_lookup by lia. unfold T'. rewrite elem_of_cons, <- (Hu c Hc).
    destruct (decide (j0 = c)); naive_solver. }
  assert (NoDup T' ∧ ∀ c, c ∈ T' → (c <= n)%nat ∧ P !!! c ≠ 0%nat) as [HnT' HT'].
  { split; [by constructor|]. intros c [-> |Hc]%elem_of_cons; [done|]. auto. }
  assert (0%nat ∈ T') as H0.
  { unfold T'. destruct Hr as [[-> ->]|(? & _)]; [left|by right]. }
  unfold tree_step. rewrite Efold.
  pose proof (shift_all P (<[j0 := true]> used) d u v minv (seq 0 (S n)) (NoDup_seq _ _)) as Hshift.
  destruct (foldl (shift_column _ _ _) _ _) as [[u' v'] minv'] eqn:Es.
  assert (shifted P (<[j0:=true]> used) d u v minv (seq 0 (S n)) (u', v', minv')) as Hsh.
  { apply Hshift.
    - unfold used_rows. apply rows_NoDup.
      + eapply sublist_NoDup; [apply (NoDup_seq 0 (S n))|apply sublist_filter_bool_sub].
      + intros c [Hc Hc']%elem_of_filter_bool. apply elem_of_seq in Hc. apply HT', Hu'; [lia|done].
    - intros j Hj%elem_of_seq. lia.
    - intros j Hj%elem_of_seq _. pose proof (HP_le j). lia. }
  clear Hshift. eexists. split; [reflexivity|].
  assert (∀ r c, (c <= n)%nat → slack u' v' r c = slack u v r c
      - (if bool_decide (r ∈ (λ c, P !!! c) <$> T') then d else 0)
      + (if bool_decide (c ∈ T') then d else 0)) as Hslack.
  { intros r c Hc. apply (slack_shifted T' (<[j0:=true]> used) d u v minv u' v' minv'); [done|done| |done].
    intros c' Hc'. by apply HT'. }
  assert (∀ c, c ∈ T' → P !!! c ∈ (λ c, P !!! c) <$> T') as Hrow
    by (intros; by apply (list_elem_of_fmap_2 (λ c, P !!! c))).
  assert (∀ c, (c <= n)%nat → P !!! c ≠ 0%nat → P !!! c ∈ (λ c, P !!! c) <$> T' → c ∈ T') as Hrow'.
  { intros c Hc Hne (c' & E & Hc')%list_elem_of_fmap. destruct (HT' c' Hc').
    by rewrite (HP_inj c c'). }
  assert (∀ c, (1 <= c)%nat → c ∈ T' → T ≠ []) as HTne.
  { intros c Hc HcT ->. destruct Hr as [[_ ->]|(H & _)]; [|by apply not_elem_of_nil in H].
    apply list_elem_of_singleton in HcT. lia. }
  destruct Hsh as [(S1 & S2 & S3) _ _ Sm]. cbn [fst snd] in S1, S2, S3, Sm.
  split; simpl; try done.
  - rewrite length_insert. lia.
  - intros c Hc. by apply HT'.
  - intros c Hc. by apply HT'.
  - right. split; [done|]. split; [done|lia].
  - assert (j1 ≠ 0%nat) as Hne by lia. rewrite decide_False by done. split.
    + by destruct (Hfree j1 Hj1 Hj1T) as (? & _ & _ & Hw & _).
    + apply (branch_ext way0 way (j0 :: T)); [done|exact Hbr].
  - intros c [-> |Hc]%elem_of_cons Hne.
    + destruct (Hfree j1 Hj1 Hj1T) as (m & Em & _ & Hw & Es1 & _). rewrite Ej1 in Em. injection Em as <-.
      rewrite Hslack by lia. rewrite bool_decide_eq_true_2 by by apply Hrow.
      rewrite bool_decide_eq_false_2 by done. lia.
    + rewrite (Hway c Hc), Hslack by by apply HT'.
      assert (way0 !!! c ∈ T') as Hw.
      { destruct (branch_at way0 T' c Hbr Hc) as (T1 & T2 & E & Hb2 & _).
        rewrite decide_False in Hb2 by done. rewrite E. apply elem_of_app. right. by right. }
      rewrite !bool_decide_eq_true_2 by auto. rewrite (He c Hc Hne). lia.
  - intros r c Hr' _ Hc. rewrite Hslack by lia.
    destruct (decide (c ∈ T')) as [HcT|HcT];
      [rewrite (bool_decide_eq_true_2 (c ∈ T')) by done|rewrite (bool_decide_eq_false_2 (c ∈ T')) by done];
      case_bool_decide as Hrr.
    + pose proof (Hf r c Hr' (λ _, HTne c (proj1 Hc) HcT) Hc). lia.
    + assert (r ≠ i) as Hri by (intros ->; apply Hrr; rewrite <- HP_root at 1; by apply Hrow).
      pose proof (Hf r c Hr' (λ E, False_ind _ (Hri E)) Hc).
      assert (0 <= d); [|lia].
      destruct (Hfree j1 Hj1 Hj1T) as (m & Em & _ & Hw & -> & _). rewrite Ej1 in Em. injection Em as ->.
      destruct (HT' _ Hw) as [Hw1 Hw2]. apply Hf; [pose proof (HP_le _ Hw1); lia| |done].
      intros _. apply (HTne c); [lia|done].
    + apply list_elem_of_fmap in Hrr as (c' & -> & Hc').
      destruct (Hfree c Hc HcT) as (m & _ & Hd & _ & _ & Hmin). specialize (Hmin c' Hc'). lia.
    + assert (r ≠ i) as Hri by (intros ->; apply Hrr; rewrite <- HP_root at 1; by apply Hrow).
      pose proof (Hf r c Hr' (λ E, False_ind _ (Hri E)) Hc). lia.
  - intros c Hc Hne. rewrite Hslack, Ht by (done || lia).
    destruct (decide (c ∈ T')) as [HcT|HcT].
    + rewrite !bool_decide_eq_true_2 by auto. lia.
    + rewrite !bool_decide_eq_false_2; [lia|done|]. intros Hin. apply HcT. apply Hrow'; [lia|done|done].
  - intros c Hc HcT. destruct (Hfree c Hc HcT) as (m & Em & Hd & Hw & Es1 & Hmin). exists (m - d).
    assert (<[j0:=true]> used !!! c = false) as Huc.
    { apply not_true_is_false. by rewrite Hu' by lia. }
    rewrite Sm, Em, Huc, bool_decide_eq_true_2 by (apply elem_of_seq; lia). simpl.
    split_and!; [done|done| |].
    + rewrite Hslack, bool_decide_eq_true_2, bool_decide_eq_false_2 by (lia || done || by apply Hrow). lia.
    + intros c' Hc'. rewrite Hslack, bool_decide_eq_true_2, bool_decide_eq_false_2
        by (lia || done || by apply Hrow). specialize (Hmin c' Hc'). lia.
Qed.

(** The bounded loop reaches a free column before its fuel runs out. *)
Lemma grow_ok fuel T t : Tree T t → (i < fuel + length T)%nat →
  ∃ t' T', grow cost n fuel t = Ok t' ∧ Tree T' t' ∧ P !!! t_j0 t' = 0%nat.
Proof.
  revert T t. induction fuel as [|f IH]; intros T t HT Hfuel.
  - pose proof HT as [_ _ _ Hb Hnd Hm _ _ _ _ _ _].
    pose proof (tree_size T Hnd (λ c Hc, conj (Hb c Hc) (Hm c Hc))). simpl in Hfuel. lia.
  - cbn [grow]. rewrite (tr_p _ _ HT). destruct (Nat.eqb_spec (P !!! t_j0 t) 0) as [E|E]; [by eauto|].
    destruct (tree_step_ok T t HT E) as (t' & -> & HT'). cbn [mbind res_bind].
    apply (IH _ _ HT'). simpl. lia.
Qed.

(** ** Flipping the path *)

Lemma delete_moved (p : list nat) j k : j ≠ k → (j < length p)%nat → (k < length p)%nat →
  delete k (<[j := p !!! k]> p) ≡ₚ delete j p.
Proof.
  intros Hne Hj Hk. apply (Permutation_cons_inv (a := p !!! k)).
  rewrite <- (delete_Permutation (<[j := p !!! k]> p) k (p !!! k)).
  - rewrite (delete_Permutation (<[j := p !!! k]> p) j (p !!! k)) by by apply list_lookup_insert_eq.
    constructor. by rewrite !delete_take_drop, take_insert_ge, drop_insert_lt by lia.
  - rewrite list_lookup_insert_ne by done. by apply list_lookup_lookup_total_lt.
Qed.

Lemma augment_ok u v way fuel T p j : (length T < fuel)%nat → length p = S n →
  branch way (j :: T) → NoDup (j :: T) → (∀ c, c ∈ j :: T → (c <= n)%nat) →
  (∀ c, c ∈ T → p !!! c = P !!! c) →
  (∀ c, c ∈ j :: T → c ≠ 0%nat → slack u v (P !!! (way !!! c)) c = 0) →
  (∀ c, (1 <= c <= n)%nat → c ≠ j → p !!! c ≠ 0%nat → slack u v (p !!! c) c = 0) →
  ∃ p', augment fuel way p j = Ok p' ∧ length p' = S n ∧ delete 0%nat p' ≡ₚ delete j p ∧
    ∀ c, (1 <= c <= n)%nat → p' !!! c ≠ 0%nat → slack u v (p' !!! c) c = 0.
Proof.
  revert T p j. induction fuel as [|f IH]; intros T p j Hf Hlen Hbr Hnd Hb Hp He Ht; [lia|].
  cbn [augment]. destruct j as [|j'].
  { exists p. split_and!; [done|done|done|]. intros c Hc. apply Ht; [done|lia]. }
  set (j := S j') in *. destruct Hbr as [Hw Hbr]. rewrite decide_False in Hw by done.
  set (k := way !!! j) in *. apply NoDup_cons in Hnd as [Hj Hnd].
  assert (j ≠ k) as Hjk by (intros E; apply Hj; by rewrite E).
  assert ((j <= n)%nat ∧ (k <= n)%nat) as [Hjn Hkn] by (split; apply Hb; [left|by right]).
  destruct (branch_at way T k Hbr Hw) as (T1 & T2 & -> & Hbr2).
  apply NoDup_app in Hnd as (_ & _ & Hnd2). rewrite length_app in Hf. simpl in Hf.
  assert (∀ c, c ∈ k :: T2 → c ∈ j :: T1 ++ k :: T2) as Hsub by set_solver.
  destruct (IH T2 (<[j := p !!! k]> p) k) as (p' & E & L & Hperm & Ht').
  - lia.
  - by rewrite length_insert.
  - done.
  - done.
  - intros c Hc. apply Hb. by apply Hsub.
  - intros c Hc. rewrite list_lookup_total_insert_ne; [apply Hp; set_solver|].
    intros E. apply Hj. rewrite E. set_solver.
  - intros c Hc. apply He. by apply Hsub.
  - intros c Hc Hck. rewrite upd_lookup by lia. destruct (decide (j = c)) as [<- |Hne].
    + intros _. rewrite (Hp k) by done. apply He; [left|done].
    + apply Ht; [done|congruence].
  - exists p'. split_and!; [done|done| |done]. rewrite Hperm. apply delete_moved; [done|lia|lia].
Qed.
End tree.

(** ** Placing the rows one by one *)

Notation nonzero := (List.filter (λ r, negb (r =? 0)%nat)).

Record Placed (i : nat) (h : HState) : Prop := {
  pl_len : length (hu h) = S n ∧ length (hv h) = S n ∧ length (hp h) = S n ∧ length (hway h) = S n;
  pl_rows : nonzero (tail (hp h)) ≡ₚ seq 1 i;
  pl_feas r c : (1 <= r <= i)%nat → (1 <= c <= n)%nat → 0 <= slack (hu h) (hv h) r c;
  pl_tight c : (1 <= c <= n)%nat → hp h !!! c ≠ 0%nat → slack (hu h) (hv h) (hp h !!! c) c = 0
}.

Lemma nonzero_elem l x : x ∈ nonzero l ↔ x ∈ l ∧ x ≠ 0%nat.
Proof. rewrite elem_of_filter_bool, negb_true_iff, Nat.eqb_neq. done. Qed.

Lemma nonzero_inj l a b x : NoDup (nonzero l) → x ≠ 0%nat → l !! a = Some x → l !! b = Some x → a = b.
Proof.
  intros Hnd Hx. revert a b Hnd. induction l as [|y l IH]; intros a b Hnd Ha Hb; [done|].
  assert (x ≠ y ∨ x = y ∧ x ∉ l) as Hxy.
  { destruct (decide (x = y)) as [-> |]; [right|by left]. split; [done|]. intros Hin.
    simpl in Hnd. destruct (Nat.eqb_spec y 0); [done|]. apply NoDup_cons in Hnd as [Hnd _].
    apply Hnd. by apply nonzero_elem. }
  assert (NoDup (nonzero l)) as Hnd'.
  { simpl in Hnd. destruct (y =? 0)%nat; simpl in Hnd; [done|by apply NoDup_cons in Hnd as [_ ?]]. }
  destruct a as [|a], b as [|b]; simpl in *; simplify_eq; [done| | |].
  - destruct Hxy as [?|[_ Hin]]; [done|]. destruct Hin. by eapply list_elem_of_lookup_2.
  - destruct Hxy as [?|[_ Hin]]; [done|]. destruct Hin. by eapply list_elem_of_lookup_2.
  - f_equal. by apply IH.
Qed.

Lemma total_Some (l : list nat) a : (a < length l)%nat → l !! a = Some (l !!! a).
Proof. intros Ha. by apply list_lookup_lookup_total_lt. Qed.

Lemma add_row_ok i h : (i < n)%nat → Placed i h →
  ∃ h', add_row cost n h (S i) = Ok h' ∧ Placed (S i) h'.
Proof.
  intros Hi [(L1 & L2 & L3 & L4) Hrows Hfeas Htight]. unfold add_row.
  set (P := <[0%nat := S i]> (hp h)).
  assert (length P = S n) as HP by (unfold P; by rewrite length_insert).
  assert (P !!! 0%nat = S i) as HP0 by (unfold P; rewrite upd_lookup by lia; done).
  assert (P = S i :: tail (hp h)) as EP by (unfold P; by destruct (hp h)).
  assert (nonzero P ≡ₚ seq 1 (S i)) as HProws.
  { rewrite EP, seq_S. simpl. rewrite Hrows. by rewrite Permutation_app_comm. }
  assert (∀ c, (c <= n)%nat → (P !!! c <= S i)%nat) as HPle.
  { intros c Hc. destruct (decide (P !!! c = 0%nat)) as [-> |Hne]; [lia|].
    assert (P !!! c ∈ nonzero P) as Hin.
    { apply nonzero_elem. split; [|done]. eapply list_elem_of_lookup_2, total_Some. lia. }
    rewrite HProws, elem_of_seq in Hin. lia. }
  assert (∀ a b, (a <= n)%nat → (b <= n)%nat → P !!! a ≠ 0%nat → P !!! a = P !!! b → a = b) as HPinj.
  { intros a b Ha Hb Hne E. apply (nonzero_inj P a b (P !!! a)).
    - rewrite HProws. apply NoDup_seq.
    - done.
    - apply total_Some; lia.
    - rewrite E. apply total_Some; lia. }
  assert (1 <= S i <= n)%nat as Hb by lia.
  assert (∀ c, (1 <= c)%nat → P !!! c = hp h !!! c) as HPc.
  { intros c Hc. unfold P. apply list_lookup_total_insert_ne. lia. }
  destruct (grow_ok (S i) P Hb HP HP0 HPle HPinj (S n) []
    (mkT (mkH (hu h) (hv h) P (hway h)) (replicate (S n) None) (replicate (S n) false) 0))
    as (t & T & -> & HT & Hfree).
  { split; cbn [t_h t_minv t_used t_j0 hu hv hp hway]; rewrite ?length_replicate; try done.
    - intros c Hc. rewrite lookup_total_replicate_2 by lia. split; [done|]. by intros ?%not_elem_of_nil.
    - by intros c ?%not_elem_of_nil.
    - constructor.
    - by intros c ?%not_elem_of_nil.
    - by left.
    - by intros c ->%list_elem_of_singleton.
    - intros r c Hr Hri Hc. apply Hfeas; [|done]. destruct (decide (r = S i)); [by destruct Hri|lia].
    - intros c Hc. rewrite HPc by lia. by apply Htight.
    - intros c Hc _. rewrite lookup_total_replicate_2 by lia. done. }
  { simpl. lia. }
  cbn [mbind res_bind]. destruct HT as [Ep (K1 & K2 & K3 & _ & _) _ HTb HTn HTm HTr HTbr HTe HTf HTt _].
  assert (T ≠ [] ∧ t_j0 t ∉ T ∧ (1 <= t_j0 t <= n)%nat) as (HTne & Hj & Hjn).
  { destruct HTr as [[_ E]|(H0 & ? & ?)]; [rewrite E, HP0 in Hfree; lia|].
    split_and!; [by intros ->; apply not_elem_of_nil in H0|done|lia|lia]. }
  pose proof (tree_size (S i) P Hb HP HP0 HPle HPinj T HTn (λ c Hc, conj (HTb c Hc) (HTm c Hc))) as Hsize.
  rewrite Ep. destruct (augment_ok (S i) P Hb HP HP0 HPle HPinj (hu (t_h t)) (hv (t_h t)) (hway (t_h t)) (S (S n)) T P (t_j0 t))
    as (p' & -> & Lp & Hperm & Ht'); [lia|done|done| | |done|done| |].
  { by constructor. }
  { intros c [-> |Hc]%elem_of_cons; [lia|by apply HTb]. }
  { intros c Hc _ Hne. by apply HTt. }
  cbn [mbind res_bind]. eexists. split; [reflexivity|]. split; simpl; [lia| | |done].
  - assert (tail p' = delete 0%nat p') as -> by by destruct p'.
    rewrite (filter_bool_perm _ _ _ Hperm), <- HProws.
    pose proof (delete_Permutation P (t_j0 t) 0%nat) as Hd.
    rewrite (filter_bool_perm _ P (0%nat :: delete (t_j0 t) P)); [done|].
    apply Hd. rewrite <- Hfree. apply total_Some. lia.
  - intros r c Hr Hc. by apply HTf.
Qed.
End hungarian.

(** ** The matching read back, and its cost *)

(** Row [i] takes column [sigma i]. *)
Definition assignment_cost (cost : list (list Z)) (sigma : list nat) : Z :=
  foldr Z.add 0 ((λ i, (cost !!! i) !!! (sigma !!! i)) <$> seq 0 (length cost)).
Definition square (cost : list (list Z)) : Prop := Forall (λ row, length row = length cost) cost.

Lemma sum_perm (l k : list Z) : l ≡ₚ k → foldr Z.add 0 l = foldr Z.add 0 k.
Proof. induction 1; simpl; lia. Qed.
Lemma sum_plus {A} (f g : A → Z) l :
  foldr Z.add 0 ((λ x, f x + g x) <$> l) = foldr Z.add 0 (f <$> l) + foldr Z.add 0 (g <$> l).
Proof. induction l as [|x l IH]; [done|]. rewrite !fmap_cons. simpl. lia. Qed.
Lemma sum_le {A} (f g : A → Z) l : (∀ x, x ∈ l → f x <= g x) →
  foldr Z.add 0 (f <$> l) <= foldr Z.add 0 (g <$> l).
Proof.
  induction l as [|x l IH]; intros H; [done|]. rewrite !fmap_cons. simpl.
  pose proof (H x ltac:(left)). assert (∀ y, y ∈ l → f y <= g y) as Hl by (intros; apply H; by right).
  specialize (IH Hl). lia.
Qed.
Lemma total_cost_sum cost sigma : total_cost cost (length cost) sigma = assignment_cost cost sigma.
Proof.
  unfold total_cost, assignment_cost. generalize (seq 0 (length cost)). intros l.
  assert (∀ s, foldl (λ s i, s + (cost !!! i) !!! (sigma !!! i)) s l =
    s + foldr Z.add 0 ((λ i, (cost !!! i) !!! (sigma !!! i)) <$> l)) as H; [|by rewrite H].
  induction l as [|x l IH]; intros s; [simpl; lia|]. cbn [foldl]. rewrite IH, fmap_cons. simpl. lia.
Qed.

Section placed_all.
Context (cost : list (list Z)) (n : nat) (h : HState).
Hypothesis Hh : Placed cost n n h.

Lemma columns_rows : tail (hp h) ≡ₚ seq 1 n.
Proof.
  destruct Hh as [(_ & _ & Hl & _) Hr _ _]. rewrite <- Hr. symmetry.
  assert (length (tail (hp h)) = n) as Ht by (destruct (hp h); simpl in *; lia).
  assert (length (List.filter (λ r, negb (r =? 0)%nat) (tail (hp h))) = n) as Hf
    by by rewrite Hr, length_seq.
  rewrite filter_bool_all; [done|]. intros x Hx. apply not_false_is_true. intros E.
  assert (length (List.filter (λ r, negb (r =? 0)%nat) (tail (hp h))) < length (tail (hp h)))%nat; [|lia].
  clear -Hx E. induction (tail (hp h)) as [|y l IH]; [by apply not_elem_of_nil in Hx|].
  simpl. assert (length (List.filter (λ r, negb (r =? 0)%nat) l) <= length l)%nat
    by apply List.filter_length_le.
  apply elem_of_cons in Hx as [-> |Hx]; [rewrite E; simpl; lia|].
  specialize (IH Hx). destruct (y =? 0)%nat; simpl; lia.
Qed.

Lemma row_of j : (1 <= j <= n)%nat → (1 <= hp h !!! j <= n)%nat.
Proof.
  intros Hj. destruct Hh as [(_ & _ & Hl & _) _ _ _].
  assert (hp h !!! j ∈ tail (hp h)) as Hin.
  { destruct (hp h) as [|x l]; [done|]. destruct j as [|j]; [lia|]. simpl in *.
    eapply list_elem_of_lookup_2, total_Some. lia. }
  rewrite columns_rows, elem_of_seq in Hin. lia.
Qed.
Lemma row_of_inj a b : (1 <= a <= n)%nat → (1 <= b <= n)%nat → hp h !!! a = hp h !!! b → a = b.
Proof.
  intros Ha Hb E. destruct Hh as [(_ & _ & Hl & _) _ _ _].
  assert (NoDup (tail (hp h))) as Hnd by (rewrite columns_rows; apply NoDup_seq).
  destruct (hp h) as [|x l]; [done|]. destruct a as [|a], b as [|b]; [lia..|]. simpl in *.
  f_equal. eapply NoDup_lookup; [done|apply total_Some; lia|]. rewrite E. apply total_Some. lia.
Qed.

Lemma row_to_col_ok : length (row_to_col n (hp h)) = n ∧
  ∀ j, (1 <= j <= n)%nat → row_to_col n (hp h) !!! (hp h !!! j - 1)%nat = (j - 1)%nat.
Proof.
  unfold row_to_col.
  assert (∀ k, (k <= n)%nat →
    let r := foldl (λ r j, <[(hp h !!! j - 1)%nat := (j - 1)%nat]> r) (replicate n 0%nat) (seq 1 k) in
    length r = n ∧ ∀ j, (1 <= j <= k)%nat → r !!! (hp h !!! j - 1)%nat = (j - 1)%nat) as H;
    [|by apply (H n)].
  induction k as [|k IH]; intros Hk; cbv zeta.
  { split; [apply length_replicate|lia]. }
  rewrite seq_S, foldl_snoc. destruct IH as [L IH]; [lia|]. split; [by rewrite length_insert|].
  intros j Hj. pose proof (row_of (S k) ltac:(lia)) as Hrow.
  change (1 + k)%nat with (S k). rewrite upd_lookup by lia. destruct (decide (_ = _)) as [E|E].
  - pose proof (row_of j ltac:(lia)).
    assert (S k = j) as <- by (apply row_of_inj; lia). lia.
  - apply IH. destruct (decide (j = S k)) as [-> |]; [done|lia].
Qed.

Lemma row_to_col_perm : row_to_col n (hp h) ≡ₚ seq 0 n.
Proof.
  destruct row_to_col_ok as [L H]. symmetry.
  apply submseteq_length_Permutation; [|by rewrite L, length_seq].
  apply NoDup_submseteq; [apply NoDup_seq|]. intros c Hc%elem_of_seq.
  pose proof (row_of (S c) ltac:(lia)). pose proof (H (S c) ltac:(lia)) as E.
  replace c with (S c - 1)%nat by lia. rewrite <- E.
  eapply list_elem_of_lookup_2, total_Some. lia.
Qed.

(** The cells of the matching meet their potentials. *)
Lemma row_to_col_tight r : (r < n)%nat →
  slack cost (hu h) (hv h) (S r) (S (row_to_col n (hp h) !!! r)) = 0.
Proof.
  intros Hr. destruct row_to_col_ok as [L H].
  assert (S r ∈ tail (hp h)) as Hin by (rewrite columns_rows; apply elem_of_seq; lia).
  apply list_elem_of_lookup in Hin as [j Hj].
  assert (hp h !!! S j = S r) as E.
  { destruct (hp h) as [|x l]; [done|]. simpl in *. by apply list_lookup_total_correct. }
  assert (j < n)%nat as Hjn.
  { apply lookup_lt_Some in Hj. destruct Hh as [(_ & _ & Hl & _) _ _ _]. destruct (hp h); simpl in *; lia. }
  pose proof (H (S j) ltac:(lia)) as Ec. rewrite E in Ec.
  replace (S r - 1)%nat with r in Ec by lia. replace (S j - 1)%nat with j in Ec by lia. rewrite Ec.
  rewrite <- E. apply (pl_tight _ _ _ _ Hh); [lia|]. rewrite E. lia.
Qed.

(** The sum of the potentials bounds every permutation from below. *)
Lemma dual_bound sigma : sigma ≡ₚ seq 0 n → length cost = n →
  foldr Z.add 0 ((λ i, hu h !!! S i) <$> seq 0 n) + foldr Z.add 0 ((λ c, hv h !!! S c) <$> seq 0 n)
  = assignment_cost cost sigma -
    foldr Z.add 0 ((λ i, slack cost (hu h) (hv h) (S i) (S (sigma !!! i))) <$> seq 0 n).
Proof.
  intros Hs Hn. assert (length sigma = n) as Hl by (by rewrite Hs, length_seq).
  unfold assignment_cost. rewrite Hn.
  assert (foldr Z.add 0 ((λ c, hv h !!! S c) <$> seq 0 n) =
          foldr Z.add 0 ((λ i, hv h !!! S (sigma !!! i)) <$> seq 0 n)) as ->.
  { rewrite (sum_perm _ ((λ c, hv h !!! S c) <$> sigma)) by by rewrite Hs.
    rewrite <- (lookup_total_seq sigma) at 1. rewrite Hl. by rewrite <- list_fmap_compose. }
  rewrite <- sum_plus. generalize (seq 0 n). intros l. unfold slack, cell_at. simpl.
  induction l as [|i l IH]; [done|]. rewrite !fmap_cons. simpl. rewrite !Nat.sub_0_r. lia.
Qed.
End placed_all.

Lemma place_rows cost n : ∀ m i h, (i + m <= n)%nat → Placed cost n i h →
  ∃ h', fold_res (add_row cost n) (seq (S i) m) h = Ok h' ∧ Placed cost n (i + m) h'.
Proof.
  induction m as [|m IH]; intros i h Hm Hp; simpl; [exists h; by rewrite Nat.add_0_r|].
  destruct (add_row_ok cost n i h) as (h1 & -> & H1); [lia|done|]. cbn [mbind res_bind].
  destruct (IH (S i) h1) as (h2 & E & H2); [lia|done|]. exists h2. split; [done|].
  by rewrite Nat.add_succ_r.
Qed.

Lemma Placed_init cost n : Placed cost n 0 (H_init n).
Proof.
  unfold H_init. split; cbn [hu hv hp hway]; rewrite ?length_replicate; [done| |lia|].
  - simpl. rewrite filter_bool_none; [done|]. by intros x [-> _]%elem_of_replicate.
  - intros c Hc Hne. by rewrite lookup_total_replicate_2 in Hne by lia.
Qed.

Lemma min_cost_ok cost : ∃ total column, _min_cost_assignment cost = Ok (total, column) ∧
  column ≡ₚ seq 0 (length cost) ∧ total = assignment_cost cost column ∧
  ∀ sigma, sigma ≡ₚ seq 0 (length cost) → total <= assignment_cost cost sigma.
Proof.
  destruct (place_rows cost (length cost) (length cost) 0 _ ltac:(lia) (Placed_init _ _))
    as (h & E & Hh). simpl in Hh. unfold _min_cost_assignment. rewrite E. cbn [mbind res_bind].
  set (n := length cost) in *. pose proof (row_to_col_perm cost n h Hh) as Hp.
  eexists _, _. split; [reflexivity|]. split; [done|]. split; [apply total_cost_sum|].
  intros sigma Hs. rewrite total_cost_sum.
  pose proof (dual_bound cost n h sigma Hs eq_refl) as Hd.
  pose proof (dual_bound cost n h _ Hp eq_refl) as Hd'. rewrite Hd in Hd'.
  assert (foldr Z.add 0 ((λ i, slack cost (hu h) (hv h) (S i) (S (row_to_col n (hp h) !!! i))) <$> seq 0 n)
          <= foldr Z.add 0 ((λ i, slack cost (hu h) (hv h) (S i) (S (sigma !!! i))) <$> seq 0 n)); [|lia].
  apply sum_le. intros i Hi%elem_of_seq. rewrite (row_to_col_tight cost n h Hh) by lia.
  apply (pl_feas _ _ _ _ Hh); [lia|].
  assert (sigma !!! i ∈ seq 0 n) as Hin.
  { rewrite <- Hs. eapply list_elem_of_lookup_2, total_Some. rewrite Hs, length_seq. lia. }
  apply elem_of_seq in Hin. lia.
Qed.

(** ** Guarantees *)

(** C39: the assignment is optimal.  On every square matrix, of any integer costs,
    the algorithm returns (its bounded loops never run out, its "did not converge"
    is never raised), the returned columns are a permutation, the returned total is
    their cost, and no permutation costs less. *)
Theorem min_cost_optimal cost : square cost →
  ∃ total column, _min_cost_assignment cost = Ok (total, column) ∧
    column ≡ₚ seq 0 (length cost) ∧ total = assignment_cost cost column ∧
    ∀ sigma, sigma ≡ₚ seq 0 (length cost) → total <= assignment_cost cost sigma.
Proof. intros _. apply min_cost_ok. Qed.

Lemma min_cost_optimal_witness :
  ∃ total column, _min_cost_assignment [[4; 1; 3]; [2; 0; 5]; [3; 2; -2]] = Ok (total, column) ∧
    column ≡ₚ seq 0 3 ∧ total = assignment_cost [[4; 1; 3]; [2; 0; 5]; [3; 2; -2]] column ∧
    ∀ sigma, sigma ≡ₚ seq 0 3 →
      total <= assignment_cost [[4; 1; 3]; [2; 0; 5]; [3; 2; -2]] sigma.
Proof. apply (min_cost_optimal [[4; 1; 3]; [2; 0; 5]; [3; 2; -2]]). by repeat constructor. Defined.
Example min_cost_example :
  _min_cost_assignment [[4; 1; 3]; [2; 0; 5]; [3; 2; -2]] = Ok (1, [1; 0; 2]%nat).
Proof. reflexivity. Qed.
