(* ===== verification/Resolve.v ===== *)
(** * Resolve: a decision is what every near-optimal assignment agrees on

    [assignment._resolve] decides the records of one component from minimal-cost
    permutations of a square matrix.  This file relates those permutations to the
    matchings of the candidate graph and proves what the three statuses mean: a
    record is MATCHED with a partner exactly when every matching within the margin of
    the best gives it that partner, UNMATCHED exactly when none gives it one, and
    AMBIGUOUS otherwise. *)

From S2P Require Import Prelude Assignment Hungarian.

(** ** Matchings of a component *)

Section component.
Context (left_ids right_ids : list string) (weights : gmap (string * string) Z).

(** A partner for some of the left records, each right record used once. *)
Record matching (f : string → option string) : Prop := {
  mt_edge x y : x ∈ left_ids → f x = Some y → y ∈ right_ids ∧ is_Some (weights !! (x, y));
  mt_inj x x' y : x ∈ left_ids → x' ∈ left_ids → f x = Some y → f x' = Some y → x = x'
}.
Definition edge_weight (x : string) (p : option string) : Z :=
  match p with Some y => default 0 (weights !! (x, y)) | None => 0 end.
Definition worth (f : string → option string) : Z :=
  foldr Z.add 0 ((λ x, edge_weight x (f x)) <$> left_ids).
(** Within the margin of the best. *)
Definition near (margin best : Z) (f : string → option string) : Prop :=
  matching f ∧ best - margin <= worth f.

Hypothesis left_NoDup : NoDup left_ids.
Hypothesis right_NoDup : NoDup right_ids.
Hypothesis weights_pos : ∀ e w, weights !! e = Some w → 1 <= w.

Notation nl := (length left_ids).
Notation nr := (length right_ids).
Notation size := (length left_ids + length right_ids)%nat.
Notation xl i := (left_ids !!! i : string).
Notation yr j := (right_ids !!! j : string).

(** ** Records and their index *)

Lemma at_index (l : list string) i : (i < length l)%nat → l !! i = Some (l !!! i).
Proof. intros Hi. by apply list_lookup_lookup_total_lt. Qed.

Definition index_of (x : string) (l : list string) : option nat := fst <$> list_find (x =.) l.

Lemma index_of_Some l x i : NoDup l → index_of x l = Some i ↔ (i < length l)%nat ∧ l !!! i = x.
Proof.
  intros Hnd. unfold index_of. split.
  - intros H. apply fmap_Some in H as ([k y] & H & ->). apply list_find_Some in H as (H & -> & _).
    simpl. split; [by eapply lookup_lt_Some|]. by apply list_lookup_total_correct.
  - intros [Hi <-]. apply fmap_Some. exists (i, l !!! i). split; [|done]. apply list_find_Some.
    split; [by apply at_index|]. split; [done|]. intros j y Hj Hlt <-.
    assert (j = i); [|lia]. eapply NoDup_lookup; [done|done|by apply at_index].
Qed.

Lemma elem_index (l : list string) x : x ∈ l → ∃ i, (i < length l)%nat ∧ l !!! i = x.
Proof.
  intros [i Hi]%list_elem_of_lookup. exists i. split; [by eapply lookup_lt_Some|].
  by apply list_lookup_total_correct.
Qed.
Lemma index_elem (l : list string) i : (i < length l)%nat → l !!! i ∈ l.
Proof. intros Hi. by eapply list_elem_of_lookup_2, at_index. Qed.
Lemma index_inj (l : list string) i j : NoDup l → (i < length l)%nat → (j < length l)%nat →
  l !!! i = l !!! j → i = j.
Proof.
  intros Hnd Hi Hj E. eapply NoDup_lookup; [done|by apply at_index|]. rewrite E. by apply at_index.
Qed.

Lemma seq_perm_of_inj (g : nat → nat) n : (∀ i, (i < n)%nat → (g i < n)%nat) →
  (∀ i j, (i < n)%nat → (j < n)%nat → g i = g j → i = j) → g <$> seq 0 n ≡ₚ seq 0 n.
Proof.
  intros Hb Hi. apply submseteq_length_Permutation; [|by rewrite length_fmap].
  apply NoDup_submseteq.
  - apply NoDup_fmap_2_strong; [|apply NoDup_seq]. intros a b Ha%elem_of_seq Hb'%elem_of_seq.
    apply Hi; lia.
  - intros c (i & -> & Hc%elem_of_seq)%list_elem_of_fmap. apply elem_of_seq.
    pose proof (Hb i ltac:(lia)). lia.
Qed.
Lemma lookup_map_seq (g : nat → nat) n i : (i < n)%nat → (g <$> seq 0 n) !!! i = g i.
Proof.
  intros Hi. apply list_lookup_total_correct. rewrite list_lookup_fmap, lookup_seq_lt by done. done.
Qed.
Lemma lookup_map_seq_Z (g : nat → Z) n i : (i < n)%nat → (g <$> seq 0 n) !!! i = g i.
Proof.
  intros Hi. apply list_lookup_total_correct. rewrite list_lookup_fmap, lookup_seq_lt by done. done.
Qed.
Lemma perm_bound sigma n i : sigma ≡ₚ seq 0 n → (i < n)%nat → (sigma !!! i < n)%nat.
Proof.
  intros Hp Hi. assert (sigma !!! i ∈ seq 0 n) as H; [|apply elem_of_seq in H; lia].
  rewrite <- Hp. eapply list_elem_of_lookup_2, total_Some. by rewrite Hp, length_seq.
Qed.
Lemma perm_inj sigma n i j : sigma ≡ₚ seq 0 n → (i < n)%nat → (j < n)%nat →
  sigma !!! i = sigma !!! j → i = j.
Proof.
  intros Hp Hi Hj E. assert (length sigma = n) as Hl by (by rewrite Hp, length_seq).
  assert (NoDup sigma) as Hnd by (rewrite Hp; apply NoDup_seq).
  apply (NoDup_lookup sigma i j (sigma !!! i) Hnd); [apply total_Some; lia|].
  rewrite E. apply total_Some. lia.
Qed.
Lemma perm_onto sigma n c : sigma ≡ₚ seq 0 n → (c < n)%nat → ∃ i, (i < n)%nat ∧ sigma !!! i = c.
Proof.
  intros Hp Hc. assert (c ∈ sigma) as Hin by (rewrite Hp; apply elem_of_seq; lia).
  apply list_elem_of_lookup in Hin as [i Hi]. exists i. split.
  - apply lookup_lt_Some in Hi. by rewrite Hp, length_seq in Hi.
  - by apply list_lookup_total_correct.
Qed.

(** ** The cells of the matrix *)

Notation cell' := (cell left_ids right_ids weights).
Notation forbidden' := (forbidden left_ids right_ids weights).

(** What a cell costs when it is not forbidden. *)
Definition gain (i j : nat) : Z :=
  if (i <? nl)%nat && (j <? nr)%nat then default 0 (weights !! (xl i, yr j)) else 0.
Definition allowed (i j : nat) : bool :=
  if (i <? nl)%nat
  then if (j <? nr)%nat then bool_decide (is_Some (weights !! (xl i, yr j))) else (j =? nr + i)%nat
  else if (j <? nr)%nat then (i =? nl + j)%nat else true.

Lemma cell_allowed i j : cell' i j = if allowed i j then - gain i j else forbidden'.
Proof.
  unfold cell, allowed, gain. destruct (i <? nl)%nat, (j <? nr)%nat; simpl; try done.
  destruct (weights !! _); simpl; done.
Qed.

(** All the weights of one row. *)
Definition row_gain (i : nat) : Z :=
  if (i <? nl)%nat then foldr Z.add 0 ((λ y, default 0 (weights !! (xl i, y))) <$> right_ids) else 0.

Lemma gain_nonneg e : 0 <= default 0 (weights !! e).
Proof. destruct (weights !! e) as [w|] eqn:E; simpl; [|lia]. pose proof (weights_pos _ _ E). lia. Qed.

Lemma sum_nonneg {A} (f : A → Z) l : (∀ x, x ∈ l → 0 <= f x) → 0 <= foldr Z.add 0 (f <$> l).
Proof.
  induction l as [|x l IH]; intros Hf; [done|]. rewrite fmap_cons. simpl.
  pose proof (Hf x ltac:(left)). assert (∀ x, x ∈ l → 0 <= f x) as Hl by (intros; apply Hf; by right).
  specialize (IH Hl). lia.
Qed.
Lemma sum_term {A} (f : A → Z) l x : (∀ x, x ∈ l → 0 <= f x) → x ∈ l →
  f x <= foldr Z.add 0 (f <$> l).
Proof.
  induction l as [|y l IH]; intros Hf Hx; [by apply not_elem_of_nil in Hx|]. rewrite fmap_cons. simpl.
  assert (∀ x, x ∈ l → 0 <= f x) as Hl by (intros; apply Hf; by right).
  pose proof (sum_nonneg f l Hl). pose proof (Hf y ltac:(left)).
  apply elem_of_cons in Hx as [-> |Hx]; [lia|]. specialize (IH Hl Hx). lia.
Qed.

Lemma row_gain_nonneg i : 0 <= row_gain i.
Proof. unfold row_gain. destruct (i <? nl)%nat; [|lia]. apply sum_nonneg. intros. apply gain_nonneg. Qed.
Lemma gain_row i j : gain i j <= row_gain i.
Proof.
  unfold gain, row_gain. destruct (Nat.ltb_spec i nl), (Nat.ltb_spec j nr); simpl; try lia.
  - apply (sum_term (λ y, default 0 (weights !! (xl i, y)))); [intros; apply gain_nonneg|].
    by apply index_elem.
  - apply sum_nonneg. intros. apply gain_nonneg.
Qed.

Lemma omap_sum {A} (f : A → option Z) l :
  foldr Z.add 0 (omap f l) = foldr Z.add 0 ((λ x, default 0 (f x)) <$> l).
Proof.
  induction l as [|x l IH]; [done|]. cbn [omap list_omap]. rewrite fmap_cons.
  destruct (f x); simpl; rewrite IH; lia.
Qed.
Lemma bind_sum {A} (f : A → list Z) l :
  foldr Z.add 0 (l ≫= f) = foldr Z.add 0 ((λ x, foldr Z.add 0 (f x)) <$> l).
Proof.
  induction l as [|x l IH]; [done|]. rewrite bind_cons, fmap_cons. simpl. rewrite <- IH.
  generalize (l ≫= f). intros k. induction (f x) as [|y m IHm]; simpl; [lia|]. rewrite IHm. lia.
Qed.

(** A sum over the left rows of the matrix is a sum over the left records. *)
Lemma sum_rows (f : string → Z) :
  foldr Z.add 0 ((λ i, if (i <? nl)%nat then f (xl i) else 0) <$> seq 0 size) =
  foldr Z.add 0 (f <$> left_ids).
Proof.
  rewrite seq_app, fmap_app, foldr_app. simpl.
  assert (∀ a m, (nl <= a)%nat →
    foldr Z.add 0 ((λ i, if (i <? nl)%nat then f (xl i) else 0) <$> seq a m) = 0) as Hz.
  { intros a m. revert a. induction m as [|m IH]; intros a Ha; [done|]. simpl.
    destruct (Nat.ltb_spec a nl); [lia|]. rewrite IH by lia. lia. }
  rewrite Hz by lia. rewrite <- (lookup_total_seq left_ids) at 2. rewrite <- list_fmap_compose. f_equal.
  apply list_fmap_ext. intros ? i Hi%lookup_seq. unfold compose.
  destruct (Nat.ltb_spec i nl); [done|lia].
Qed.

Lemma forbidden_sum : forbidden' = 1 + foldr Z.add 0 (row_gain <$> seq 0 size).
Proof.
  unfold forbidden. f_equal. rewrite bind_sum.
  transitivity (foldr Z.add 0 ((λ x, foldr Z.add 0 ((λ y, default 0 (weights !! (x, y))) <$> right_ids))
                               <$> left_ids)).
  - f_equal. apply list_fmap_ext. intros _ x _. apply omap_sum.
  - symmetry. apply (sum_rows (λ x, foldr Z.add 0 ((λ y, default 0 (weights !! (x, y))) <$> right_ids))).
Qed.

(** ** Permutations with one more forbidden cell *)

(** The cost of a cell when the cell at [row], [col] is forbidden too. *)
Definition cell_without (forb : option (nat * nat)) (i j : nat) : Z :=
  if bool_decide (forb = Some (i, j)) then forbidden' else cell' i j.
Definition bad (forb : option (nat * nat)) (i j : nat) : bool :=
  bool_decide (forb = Some (i, j)) || negb (allowed i j).
Definition cost_without (forb : option (nat * nat)) (sigma : list nat) : Z :=
  foldr Z.add 0 ((λ i, cell_without forb i (sigma !!! i)) <$> seq 0 size).

Lemma cell_without_good forb i j : bad forb i j = false → cell_without forb i j = - gain i j.
Proof.
  unfold bad, cell_without. intros [H1 H2]%orb_false_iff. rewrite H1, cell_allowed.
  apply negb_false_iff in H2. by rewrite H2.
Qed.
Lemma cell_without_bad forb i j : bad forb i j = true → cell_without forb i j = forbidden'.
Proof.
  unfold bad, cell_without. intros H. case_bool_decide; [done|]. simpl in H.
  apply negb_true_iff in H. by rewrite cell_allowed, H.
Qed.

(** A permutation through a forbidden cell costs more than leaving all alone. *)
Lemma bad_cost forb sigma i : (i < size)%nat → bad forb i (sigma !!! i) = true →
  1 <= cost_without forb sigma.
Proof.
  intros Hi Hbad.
  assert (forbidden' <= foldr Z.add 0 ((λ i, cell_without forb i (sigma !!! i) + row_gain i) <$> seq 0 size)) as H.
  { transitivity (cell_without forb i (sigma !!! i) + row_gain i).
    - rewrite cell_without_bad by done. pose proof (row_gain_nonneg i). lia.
    - apply (sum_term (λ i, cell_without forb i (sigma !!! i) + row_gain i)); [|apply elem_of_seq; lia].
      intros k _. pose proof (row_gain_nonneg k). pose proof (gain_row k (sigma !!! k)).
      destruct (bad forb k (sigma !!! k)) eqn:E.
      + rewrite cell_without_bad, forbidden_sum by done.
        pose proof (sum_nonneg row_gain (seq 0 size) (λ x _, row_gain_nonneg x)). lia.
      + rewrite cell_without_good by done. lia. }
  rewrite sum_plus, forbidden_sum in H. unfold cost_without. lia.
Qed.

(** ** From a matching to a permutation *)

(** The index of the left record that has [y] for partner. *)
Definition holder (f : string → option string) (y : string) : option nat :=
  fst <$> list_find (λ x, f x = Some y) left_ids.
Definition row_col (f : string → option string) (i : nat) : nat :=
  if (i <? nl)%nat
  then match f (xl i) with Some y => default 0%nat (index_of y right_ids) | None => (nr + i)%nat end
  else match holder f (yr (i - nl)%nat) with Some k => (nr + k)%nat | None => (i - nl)%nat end.
Definition perm_of (f : string → option string) : list nat := row_col f <$> seq 0 size.

Section one_matching.
Context (f : string → option string) (Hf : matching f).

Lemma row_col_matched i y : (i < nl)%nat → f (xl i) = Some y →
  (row_col f i < nr)%nat ∧ yr (row_col f i) = y.
Proof.
  intros Hi E. unfold row_col. rewrite (proj2 (Nat.ltb_lt i nl)), E by done.
  destruct (mt_edge f Hf (xl i) y) as [Hy _]; [by apply index_elem|done|].
  apply elem_index in Hy as (j & Hj & Ej).
  rewrite (proj2 (index_of_Some right_ids y j right_NoDup)) by done. done.
Qed.
Lemma row_col_alone i : (i < nl)%nat → f (xl i) = None → row_col f i = (nr + i)%nat.
Proof. intros Hi E. unfold row_col. by rewrite (proj2 (Nat.ltb_lt i nl)), E. Qed.

Lemma holder_Some y k : holder f y = Some k ↔ (k < nl)%nat ∧ f (xl k) = Some y.
Proof.
  unfold holder. split.
  - intros H. apply fmap_Some in H as ([k' x] & H & ->). apply list_find_Some in H as (H & E & _).
    simpl. split; [by eapply lookup_lt_Some|]. by rewrite (list_lookup_total_correct _ _ _ H).
  - intros [Hk E]. apply fmap_Some. exists (k, xl k). split; [|done]. apply list_find_Some.
    split; [by apply at_index|]. split; [done|]. intros j x Hj Hlt Ej.
    assert (j < nl)%nat as Hjl by lia. rewrite <- (list_lookup_total_correct _ _ _ Hj) in Ej.
    pose proof (mt_inj f Hf (xl k) (xl j) y (index_elem _ _ Hk) (index_elem _ _ Hjl) E Ej) as Exj.
    apply index_inj in Exj; [lia|done..].
Qed.
Lemma row_col_low j : (j < nr)%nat →
  row_col f (nl + j)%nat = match holder f (yr j) with Some k => (nr + k)%nat | None => j end.
Proof.
  intros Hj. unfold row_col. rewrite (proj2 (Nat.ltb_ge (nl + j)%nat nl)) by lia.
  replace (nl + j - nl)%nat with j by lia. done.
Qed.

(** Each row of the matrix is a left row or the row of a right record alone. *)
Lemma row_cases i : (i < size)%nat → (i < nl)%nat ∨ ∃ j, (j < nr)%nat ∧ i = (nl + j)%nat.
Proof. intros Hi. destruct (decide (i < nl)%nat); [by left|right]. exists (i - nl)%nat. lia. Qed.

Lemma row_col_lt i : (i < size)%nat → (row_col f i < size)%nat.
Proof.
  intros [Hi|(j & Hj & ->)]%row_cases.
  - destruct (f (xl i)) as [y|] eqn:E; [destruct (row_col_matched i y Hi E); lia|].
    rewrite row_col_alone by done. lia.
  - rewrite row_col_low by done. destruct (holder f (yr j)) as [k|] eqn:E; [|lia].
    apply holder_Some in E. lia.
Qed.

Lemma row_col_inj a b : (a < size)%nat → (b < size)%nat → row_col f a = row_col f b → a = b.
Proof.
  assert (∀ a j, (a < nl)%nat → (j < nr)%nat → row_col f a = row_col f (nl + j)%nat → False) as Hcross.
  { intros a' j Ha Hj E. rewrite row_col_low in E by done.
    destruct (f (xl a')) as [y|] eqn:Ea.
    - destruct (row_col_matched a' y Ha Ea) as [Hc Ey]. destruct (holder f (yr j)) as [k|] eqn:Ek; [lia|].
      assert (holder f (yr j) = Some a') as Hh; [|congruence].
      apply holder_Some. split; [done|]. by rewrite <- E, Ey.
    - rewrite (row_col_alone a' Ha Ea) in E. destruct (holder f (yr j)) as [k|] eqn:Ek; [|lia].
      apply holder_Some in Ek as [_ Ek]. assert (k = a') as -> by lia. congruence. }
  intros [Ha|(j & Hj & ->)]%row_cases [Hb|(j' & Hj' & ->)]%row_cases E.
  - destruct (f (xl a)) as [y|] eqn:Ea, (f (xl b)) as [y'|] eqn:Eb.
    + destruct (row_col_matched a y Ha Ea) as [_ E1], (row_col_matched b y' Hb Eb) as [_ E2].
      assert (y = y') as <- by congruence. apply (index_inj left_ids); [done..|].
      by apply (mt_inj f Hf _ _ y); try apply index_elem.
    + destruct (row_col_matched a y Ha Ea). rewrite (row_col_alone b) in E by done. lia.
    + destruct (row_col_matched b y' Hb Eb). rewrite (row_col_alone a) in E by done. lia.
    + rewrite !row_col_alone in E by done. lia.
  - by destruct (Hcross a j' Ha Hj').
  - by destruct (Hcross b j Hb Hj).
  - rewrite !row_col_low in E by done.
    destruct (holder f (yr j)) as [k|] eqn:Ek, (holder f (yr j')) as [k'|] eqn:Ek'.
    + assert (k = k') as <- by lia. apply holder_Some in Ek as [_ Ek], Ek' as [_ Ek'].
      f_equal. apply (index_inj right_ids); [done..|]. congruence.
    + lia.
    + lia.
    + lia.
Qed.

Lemma perm_of_perm : perm_of f ≡ₚ seq 0 size.
Proof.
  unfold perm_of. apply seq_perm_of_inj; [apply row_col_lt|]. intros i j Hi Hj. by apply row_col_inj.
Qed.
Lemma perm_of_at i : (i < size)%nat → perm_of f !!! i = row_col f i.
Proof. apply lookup_map_seq. Qed.

Lemma row_col_allowed i : (i < size)%nat → allowed i (row_col f i) = true ∧
  gain i (row_col f i) = if (i <? nl)%nat then edge_weight (xl i) (f (xl i)) else 0.
Proof.
  intros [Hi|(j & Hj & ->)]%row_cases; unfold allowed, gain.
  - rewrite (proj2 (Nat.ltb_lt i nl)) by done. destruct (f (xl i)) as [y|] eqn:E.
    + destruct (row_col_matched i y Hi E) as [Hc Ey]. rewrite (proj2 (Nat.ltb_lt _ nr)), Ey by done.
      destruct (mt_edge f Hf (xl i) y) as [_ Hw]; [by apply index_elem|done|].
      by rewrite bool_decide_eq_true_2.
    + rewrite row_col_alone by done. rewrite (proj2 (Nat.ltb_ge _ nr)) by lia.
      by rewrite Nat.eqb_refl.
  - rewrite (proj2 (Nat.ltb_ge (nl + j)%nat nl)) by lia. split; [|done]. rewrite row_col_low by done.
    destruct (holder f (yr j)) as [k|].
    + by rewrite (proj2 (Nat.ltb_ge _ nr)) by lia.
    + rewrite (proj2 (Nat.ltb_lt j nr)) by done. apply Nat.eqb_refl.
Qed.

(** Its cost is the opposite of the worth of the matching. *)
Lemma perm_of_cost forb : (∀ i, (i < size)%nat → forb ≠ Some (i, row_col f i)) →
  cost_without forb (perm_of f) = - worth f.
Proof.
  intros Hforb. unfold cost_without, worth. rewrite <- sum_rows.
  assert (∀ (g h : nat → Z) l, (∀ i, i ∈ l → g i = - h i) →
    foldr Z.add 0 (g <$> l) = - foldr Z.add 0 (h <$> l)) as Hopp.
  { intros g h l. induction l as [|x l IH]; intros H; [done|]. rewrite !fmap_cons. simpl.
    rewrite (H x) by left. rewrite IH; [lia|]. intros; apply H; by right. }
  apply Hopp. intros i Hi%elem_of_seq. assert (i < size)%nat as Hi' by lia.
  rewrite perm_of_at by done. destruct (row_col_allowed i Hi') as [Ha Hg].
  rewrite cell_without_good, Hg; [done|]. unfold bad. rewrite Ha. simpl. rewrite orb_false_r.
  apply bool_decide_eq_false_2. by apply Hforb.
Qed.
End one_matching.

(** ** From a permutation to a matching *)

Definition partner_in (sigma : list nat) (x : string) : option string :=
  match index_of x left_ids with
  | Some i => if (sigma !!! i <? nr)%nat then Some (yr (sigma !!! i)) else None
  | None => None
  end.

Section one_perm.
Context (sigma : list nat) (Hs : sigma ≡ₚ seq 0 size).
Hypothesis Hgood : ∀ i, (i < size)%nat → allowed i (sigma !!! i) = true.

Lemma partner_at i : (i < nl)%nat →
  partner_in sigma (xl i) = if (sigma !!! i <? nr)%nat then Some (yr (sigma !!! i)) else None.
Proof.
  intros Hi. unfold partner_in. by rewrite (proj2 (index_of_Some left_ids (xl i) i left_NoDup)) by done.
Qed.
Lemma partner_Some i y : (i < nl)%nat → partner_in sigma (xl i) = Some y →
  (sigma !!! i < nr)%nat ∧ yr (sigma !!! i) = y ∧ is_Some (weights !! (xl i, y)).
Proof.
  intros Hi E. rewrite partner_at in E by done.
  destruct (Nat.ltb_spec (sigma !!! i) nr) as [Hlt|]; [|done]. injection E as <-.
  split; [done|]. split; [done|]. pose proof (Hgood i ltac:(lia)) as Ha. unfold allowed in Ha.
  rewrite (proj2 (Nat.ltb_lt i nl)), (proj2 (Nat.ltb_lt _ nr)) in Ha by done.
  by apply bool_decide_eq_true in Ha.
Qed.
Lemma partner_None i : (i < nl)%nat → partner_in sigma (xl i) = None → sigma !!! i = (nr + i)%nat.
Proof.
  intros Hi E. rewrite partner_at in E by done.
  pose proof (Hgood i ltac:(lia)) as Ha. unfold allowed in Ha. rewrite (proj2 (Nat.ltb_lt i nl)) in Ha by done.
  destruct (sigma !!! i <? nr)%nat; [done|]. by apply Nat.eqb_eq in Ha.
Qed.

Lemma partner_matching : matching (partner_in sigma).
Proof.
  split.
  - intros x y (i & Hi & <-)%elem_index E. destruct (partner_Some i y Hi E) as (Hc & <- & Hw).
    split; [by apply index_elem|done].
  - intros x x' y (i & Hi & <-)%elem_index (i' & Hi' & <-)%elem_index E E'.
    destruct (partner_Some i y Hi E) as (Hc & Ey & _), (partner_Some i' y Hi' E') as (Hc' & Ey' & _).
    f_equal. apply (perm_inj sigma size); [done|lia|lia|].
    apply (index_inj right_ids); [done..|]. congruence.
Qed.

Lemma partner_row i : (i < nl)%nat → row_col (partner_in sigma) i = sigma !!! i.
Proof.
  intros Hi. destruct (partner_in sigma (xl i)) as [y|] eqn:E.
  - destruct (row_col_matched _ partner_matching i y Hi E) as [Hc Ey].
    destruct (partner_Some i y Hi E) as (Hc' & Ey' & _).
    apply (index_inj right_ids); [done..|]. congruence.
  - rewrite row_col_alone by done. by rewrite (partner_None i).
Qed.

Lemma low_row_cell j : (j < nr)%nat → row_col (partner_in sigma) (nl + j)%nat = j ↔ sigma !!! (nl + j)%nat = j.
Proof.
  intros Hj. rewrite row_col_low by done. destruct (perm_onto sigma size j Hs) as (r & Hr & Er); [lia|].
  destruct (holder (partner_in sigma) (yr j)) as [k|] eqn:Ek.
  - apply holder_Some in Ek as [Hk Ek]; [|apply partner_matching].
    destruct (partner_Some k _ Hk Ek) as (Hc & Ey & _). apply index_inj in Ey; [|done..].
    split; [lia|]. intros E. assert (k = (nl + j)%nat); [|lia].
    apply (perm_inj sigma size); [done|lia|lia|congruence].
  - split; [intros _|done]. apply row_cases in Hr as [Hr|(j' & Hj' & ->)].
    + assert (holder (partner_in sigma) (yr j) = Some r) as Hh; [|congruence].
      apply holder_Some; [apply partner_matching|]. split; [done|]. rewrite partner_at by done.
      rewrite Er. by rewrite (proj2 (Nat.ltb_lt j nr)).
    + pose proof (Hgood (nl + j')%nat ltac:(lia)) as Ha. unfold allowed in Ha. rewrite Er in Ha.
      rewrite (proj2 (Nat.ltb_ge (nl + j')%nat nl)), (proj2 (Nat.ltb_lt j nr)) in Ha by lia.
      apply Nat.eqb_eq in Ha. by assert (j' = j) as -> by lia.
Qed.

Lemma partner_worth forb : (∀ i, (i < size)%nat → forb ≠ Some (i, sigma !!! i)) →
  cost_without forb sigma = - worth (partner_in sigma).
Proof.
  intros Hforb. unfold worth. rewrite <- sum_rows. unfold cost_without.
  assert (∀ (g h : nat → Z) l, (∀ i, i ∈ l → g i = - h i) →
    foldr Z.add 0 (g <$> l) = - foldr Z.add 0 (h <$> l)) as Hopp.
  { intros g h l. induction l as [|x l IH]; intros H; [done|]. rewrite !fmap_cons. simpl.
    rewrite (H x) by left. rewrite IH; [lia|]. intros; apply H; by right. }
  apply Hopp. intros i Hi%elem_of_seq. assert (i < size)%nat as Hi' by lia.
  rewrite cell_without_good.
  - f_equal. unfold gain. destruct (Nat.ltb_spec i nl) as [Hl|]; simpl; [|done].
    rewrite partner_at by done. by destruct (sigma !!! i <? nr)%nat.
  - unfold bad. rewrite Hgood by done. simpl. rewrite orb_false_r.
    apply bool_decide_eq_false_2. by apply Hforb.
Qed.
End one_perm.

(** ** The minimum of a matrix is the best matching that avoids a cell *)

(** A cell that tells the decision of a record. *)
Definition decision_cell (row col : nat) : Prop :=
  (row < nl)%nat ∨ ∃ j, (j < nr)%nat ∧ row = (nl + j)%nat ∧ col = j.
Definition avoids (f : string → option string) (forb : option (nat * nat)) : Prop :=
  match forb with Some (row, col) => row_col f row ≠ col | None => True end.
Definition entries (m : list (list Z)) (forb : option (nat * nat)) : Prop :=
  length m = size ∧
  ∀ i j, (i < size)%nat → (j < size)%nat → (m !!! i) !!! j = cell_without forb i j.

Lemma cost_entries m forb sigma : entries m forb → sigma ≡ₚ seq 0 size →
  assignment_cost m sigma = cost_without forb sigma.
Proof.
  intros [Hl He] Hs. unfold assignment_cost, cost_without. rewrite Hl. f_equal.
  apply list_fmap_ext. intros ? i Hi%lookup_seq. apply He; [lia|]. apply (perm_bound sigma size); [done|lia].
Qed.

Lemma worth_nonneg f : 0 <= worth f.
Proof.
  unfold worth. apply sum_nonneg. intros x _. unfold edge_weight.
  destruct (f x); [apply gain_nonneg|lia].
Qed.

(** [decision_cell] is needed to read the cell back from the matching. *)
Lemma best_avoiding m forb f0 : entries m forb → matching f0 → avoids f0 forb →
  (∀ row col, forb = Some (row, col) → decision_cell row col) →
  ∃ total column, _min_cost_assignment m = Ok (total, column) ∧ column ≡ₚ seq 0 size ∧
    (∀ i, (i < size)%nat → allowed i (column !!! i) = true) ∧
    avoids (partner_in column) forb ∧ total = - worth (partner_in column) ∧
    ∀ f, matching f → avoids f forb → total <= - worth f.
Proof.
  intros He Hf0 Ha0 Hdec. destruct (min_cost_ok m) as (total & column & E & Hp & Ht & Hmin).
  rewrite (proj1 He) in Hp, Hmin. rewrite (cost_entries m forb column He Hp) in Ht.
  assert (∀ f, matching f → avoids f forb → total <= - worth f) as Hbound.
  { intros f Hf Ha. pose proof (Hmin (perm_of f) (perm_of_perm f Hf)) as H.
    rewrite (cost_entries m forb _ He (perm_of_perm f Hf)), perm_of_cost in H; [done|done|].
    intros i Hi Ef. rewrite Ef in Ha. by apply Ha. }
  assert (∀ i, (i < size)%nat → bad forb i (column !!! i) = false) as Hgood.
  { intros i Hi. apply not_true_is_false. intros Hb. pose proof (bad_cost forb column i Hi Hb).
    pose proof (Hbound f0 Hf0 Ha0). pose proof (worth_nonneg f0). lia. }
  assert (∀ i, (i < size)%nat → allowed i (column !!! i) = true) as Hall.
  { intros i Hi. pose proof (Hgood i Hi) as [_ H]%orb_false_iff. by apply negb_false_iff in H. }
  assert (∀ i, (i < size)%nat → forb ≠ Some (i, column !!! i)) as Hforb.
  { intros i Hi. pose proof (Hgood i Hi) as [H _]%orb_false_iff. by apply bool_decide_eq_false in H. }
  exists total, column. split_and!; [done|done|done| |by rewrite Ht; apply partner_worth|done].
  destruct forb as [[row col]|]; [|done]. simpl. intros Hc.
  destruct (Hdec row col eq_refl) as [Hr|(j & Hj & -> & ->)].
  - rewrite partner_row in Hc by done. apply (Hforb row); [lia|]. by rewrite Hc.
  - apply low_row_cell in Hc; [|done..]. apply (Hforb (nl + j)%nat); [lia|]. by rewrite Hc.
Qed.

Lemma entries_matrix : entries (cost_matrix left_ids right_ids weights) None.
Proof.
  unfold cost_matrix. split; [by rewrite length_fmap, length_seq|]. intros i j Hi Hj.
  rewrite (list_lookup_total_correct _ _ (cell' i <$> seq 0 size)).
  - by rewrite lookup_map_seq_Z.
  - by rewrite list_lookup_fmap, lookup_seq_lt.
Qed.

Lemma entries_forbid row col : (row < size)%nat → (col < size)%nat →
  entries (forbid left_ids right_ids weights row col) (Some (row, col)).
Proof.
  intros Hr Hc. destruct entries_matrix as [Hl He]. unfold forbid. split; [by rewrite length_insert|].
  intros i j Hi Hj. unfold cell_without. rewrite upd_lookup by lia. destruct (decide (row = i)) as [<- |Hne].
  - assert (length (cost_matrix left_ids right_ids weights !!! row) = size) as Hlr.
    { unfold cost_matrix. rewrite (list_lookup_total_correct _ _ (cell' row <$> seq 0 size)).
      - by rewrite length_fmap, length_seq.
      - by rewrite list_lookup_fmap, lookup_seq_lt. }
    rewrite upd_lookup by lia. destruct (decide (col = j)) as [<- |Hne].
    + by rewrite bool_decide_eq_true_2.
    + rewrite bool_decide_eq_false_2 by congruence. rewrite He by done. done.
  - rewrite bool_decide_eq_false_2 by congruence. by rewrite He by done.
Qed.

(** Whether the decision of a cell could be avoided at little cost. *)
Lemma near_iff margin total row col f0 :
  decision_cell row col → (row < size)%nat → (col < size)%nat → matching f0 → row_col f0 row ≠ col →
  ∃ b, near_optimal_without left_ids right_ids weights margin total row col = Ok b ∧
    (b = true ↔ ∃ f, matching f ∧ row_col f row ≠ col ∧ - worth f - total <= margin).
Proof.
  intros Hd Hr Hc Hf0 Ha0. unfold near_optimal_without.
  destruct (best_avoiding _ _ f0 (entries_forbid row col Hr Hc) Hf0 Ha0)
    as (alt & column & E & Hp & Hall & Ha & -> & Hmin); [by intros ? ? [= <- <-]|].
  rewrite E. cbn [mbind res_bind]. eexists. split; [reflexivity|]. rewrite Z.leb_le. split.
  - intros H. exists (partner_in column). split; [by apply partner_matching|done].
  - intros (f & Hf & Hfa & Hle). pose proof (Hmin f Hf Hfa). lia.
Qed.

(** ** The cells of the three decisions, read on a matching *)

(** The left record that has [y] for partner. *)
Definition holder_id (f : string → option string) (y : string) : option string :=
  (λ k, xl k) <$> holder f y.

Lemma cell_matched f i j : matching f → (i < nl)%nat → (j < nr)%nat →
  row_col f i = j ↔ f (xl i) = Some (yr j).
Proof.
  intros Hf Hi Hj. split.
  - intros E. destruct (f (xl i)) as [y|] eqn:Ef.
    + destruct (row_col_matched f Hf i y Hi Ef) as [_ Ey]. congruence.
    + rewrite row_col_alone in E by done. lia.
  - intros Ef. destruct (row_col_matched f Hf i _ Hi Ef) as [Hc Ey]. by apply index_inj in Ey.
Qed.
Lemma cell_alone f i : matching f → (i < nl)%nat → row_col f i = (nr + i)%nat ↔ f (xl i) = None.
Proof.
  intros Hf Hi. split; [|by apply row_col_alone]. intros E. destruct (f (xl i)) as [y|] eqn:Ef; [|done].
  destruct (row_col_matched f Hf i y Hi Ef). lia.
Qed.
Lemma cell_right_alone f j : matching f → (j < nr)%nat →
  row_col f (nl + j)%nat = j ↔ holder_id f (yr j) = None.
Proof.
  intros Hf Hj. rewrite row_col_low by done. unfold holder_id.
  destruct (holder f (yr j)) as [k|]; simpl; split; intros; try done; lia.
Qed.
Lemma holder_id_Some f x y : matching f → x ∈ left_ids → holder_id f y = Some x ↔ f x = Some y.
Proof.
  intros Hf (i & Hi & <-)%elem_index. unfold holder_id. split.
  - intros H. apply fmap_Some in H as (k & Hk & Ek). apply holder_Some in Hk as [Hk Ef]; [|done]. congruence.
  - intros E. assert (holder f y = Some i) as ->; [|done]. by apply holder_Some.
Qed.

Lemma nothing_matching : matching (λ _, None).
Proof. by split. Qed.
Lemma single_matching x y : y ∈ right_ids → is_Some (weights !! (x, y)) →
  matching (λ z, if decide (z = x) then Some y else None).
Proof.
  intros Hy Hw. split.
  - intros z w _ E. destruct (decide (z = x)) as [-> |]; [|done]. by injection E as <-.
  - intros z z' w _ _ E E'. destruct (decide (z = x)), (decide (z' = x)); congruence.
Qed.

(** ** The two loops *)

Section loops.
Context (margin total : Z) (column : list nat).
Hypothesis Hp : column ≡ₚ seq 0 size.
Hypothesis Hall : ∀ i, (i < size)%nat → allowed i (column !!! i) = true.
Hypothesis left_edge : ∀ x, x ∈ left_ids → ∃ y, y ∈ right_ids ∧ is_Some (weights !! (x, y)).
Hypothesis right_edge : ∀ y, y ∈ right_ids → ∃ x, x ∈ left_ids ∧ is_Some (weights !! (x, y)).

Notation near' := (near_optimal_without left_ids right_ids weights margin total).
Definition nearly (row col : nat) : bool := match near' row col with Ok b => b | Raise _ => false end.
Notation others row col := (∃ f, matching f ∧ row_col f row ≠ col ∧ - worth f - total <= margin).

Lemma nearly_left i : (i < nl)%nat →
  near' i (column !!! i) = Ok (nearly i (column !!! i)) ∧
  (nearly i (column !!! i) = true ↔ others i (column !!! i)).
Proof.
  intros Hi. assert (∃ f0, matching f0 ∧ row_col f0 i ≠ column !!! i) as (f0 & Hf0 & Ha).
  { pose proof (Hall i ltac:(lia)) as Ha. unfold allowed in Ha.
    rewrite (proj2 (Nat.ltb_lt i nl)) in Ha by done. destruct (Nat.ltb_spec (column !!! i) nr) as [Hc|Hc].
    - exists (λ _, None). split; [apply nothing_matching|]. rewrite row_col_alone by done. lia.
    - destruct (left_edge (xl i)) as (y & Hy & Hw); [by apply index_elem|].
      eexists. split; [by apply (single_matching (xl i) y)|].
      destruct (row_col_matched _ (single_matching (xl i) y Hy Hw) i y Hi) as [Hlt _]; [|lia].
      by rewrite decide_True. }
  destruct (near_iff margin total i (column !!! i) f0) as (b & E & Hb); [by left|lia| |done|done|].
  - apply (perm_bound column size); [done|lia].
  - unfold nearly. by rewrite E.
Qed.
Lemma nearly_right j : (j < nr)%nat →
  near' (nl + j)%nat j = Ok (nearly (nl + j) j) ∧ (nearly (nl + j) j = true ↔ others (nl + j)%nat j).
Proof.
  intros Hj. destruct (right_edge (yr j)) as (x & Hx & Hw); [by apply index_elem|].
  assert (yr j ∈ right_ids) as Hy by by apply index_elem.
  pose proof (single_matching x (yr j) Hy Hw) as Hf. set (f0 := λ z, _) in Hf.
  destruct (near_iff margin total (nl + j)%nat j f0) as (b & E & Hb); [|lia|lia|done| |].
  - right. by exists j.
  - rewrite cell_right_alone by done. intros En.
    assert (holder_id f0 (yr j) = Some x) as Hs; [|congruence].
    apply holder_id_Some; [done|done|]. unfold f0. by rewrite decide_True.
  - unfold nearly. by rewrite E.
Qed.

Definition left_status (i : nat) : Status * option string :=
  if (column !!! i <? nr)%nat
  then if nearly i (column !!! i) then (AMBIGUOUS, None) else (MATCHED, Some (yr (column !!! i)))
  else (if nearly i (column !!! i) then AMBIGUOUS else UNMATCHED, None).
Definition taken_status (i : nat) : Status * option string :=
  if nearly i (column !!! i) then (AMBIGUOUS, None) else (MATCHED, Some (xl i)).
Definition alone_status (j : nat) : Status * option string :=
  (if nearly (nl + j) j then AMBIGUOUS else UNMATCHED, None).

Record left_done (k : nat) (st : gmap string (Status * option string) * gmap string (Status * option string))
    : Prop := {
  ld_left i : (i < k)%nat → st.1 !! xl i = Some (left_status i);
  ld_right i : (i < k)%nat → (column !!! i < nr)%nat → st.2 !! yr (column !!! i) = Some (taken_status i);
  ld_dom x : is_Some (st.1 !! x) → x ∈ left_ids;
  ld_rdom y : is_Some (st.2 !! y) → ∃ i, (i < k)%nat ∧ (column !!! i < nr)%nat ∧ y = yr (column !!! i)
}.

Lemma alone_column i : (i < nl)%nat → ¬ (column !!! i < nr)%nat → column !!! i = (nr + i)%nat.
Proof.
  intros Hi Hc. pose proof (Hall i ltac:(lia)) as Ha. unfold allowed in Ha.
  rewrite (proj2 (Nat.ltb_lt i nl)), (proj2 (Nat.ltb_ge _ nr)) in Ha by lia. by apply Nat.eqb_eq in Ha.
Qed.

Lemma decide_left_ok k st : (k < nl)%nat → left_done k st →
  ∃ st', decide_left left_ids right_ids weights margin total column st k = Ok st' ∧ left_done (S k) st'.
Proof.
  intros Hk [Hl Hr Hd Hrd]. destruct st as [ld rd]. unfold decide_left.
  destruct (nearly_left k Hk) as [En _]. simpl in *.
  assert (∀ i, (i < k)%nat → xl i ≠ xl k) as Hxne.
  { intros i Hi E. apply index_inj in E; [lia|done|lia|lia]. }
  assert (∀ i, (i < k)%nat → column !!! i ≠ column !!! k) as Hcne.
  { intros i Hi E. apply (perm_inj column size) in E; [lia|done|lia|lia]. }
  destruct (Nat.ltb_spec (column !!! k) nr) as [Hc|Hc].
  - rewrite En. cbn [mbind res_bind].
    set (s := left_status k). set (r := taken_status k).
    assert (∃ st', (if nearly k (column !!! k)
      then Ok (<[xl k := (AMBIGUOUS, None)]> ld, <[yr (column !!! k) := (AMBIGUOUS, None)]> rd)
      else Ok (<[xl k := (MATCHED, Some (yr (column !!! k)))]> ld,
               <[yr (column !!! k) := (MATCHED, Some (xl k))]> rd)) = Ok st' ∧
      st' = (<[xl k := s]> ld, <[yr (column !!! k) := r]> rd)) as (st' & -> & ->).
    { unfold s, r, left_status, taken_status. rewrite (proj2 (Nat.ltb_lt _ nr)) by done.
      destruct (nearly k (column !!! k)); eauto. }
    eexists; split; [done|]. split; simpl.
    + intros i Hi. destruct (decide (i = k)) as [-> |]; [by rewrite lookup_insert_eq|].
      rewrite lookup_insert_ne by (intros E; apply (Hxne i); [lia|done]). apply Hl. lia.
    + intros i Hi Hci. destruct (decide (i = k)) as [-> |]; [by rewrite lookup_insert_eq|].
      rewrite lookup_insert_ne; [apply Hr; [lia|done]|]. intros E. apply (Hcne i); [lia|].
      apply (index_inj right_ids); [done..|]. congruence.
    + intros x [<- |[_ Hx]]%lookup_insert_is_Some; [by apply index_elem|by apply Hd].
    + intros y [<- |[_ Hy]]%lookup_insert_is_Some; [exists k; auto|].
      destruct (Hrd y Hy) as (i & ? & ? & ?). exists i. auto with lia.
  - pose proof (alone_column k Hk ltac:(lia)) as Ec. rewrite <- Ec, En. cbn [mbind res_bind].
    eexists; split; [reflexivity|]. split; simpl.
    + intros i Hi. destruct (decide (i = k)) as [-> |].
      * rewrite lookup_insert_eq. unfold left_status. by rewrite (proj2 (Nat.ltb_ge _ nr)) by done.
      * rewrite lookup_insert_ne by (intros E; apply (Hxne i); [lia|done]). apply Hl. lia.
    + intros i Hi Hci. destruct (decide (i = k)) as [-> |]; [lia|]. apply Hr; [lia|done].
    + intros x [<- |[_ Hx]]%lookup_insert_is_Some; [by apply index_elem|by apply Hd].
    + intros y Hy. destruct (Hrd y Hy) as (i & ? & ? & ?). exists i. auto with lia.
Qed.

Lemma decide_lefts_ok k : (k <= nl)%nat → ∃ st,
  fold_res (decide_left left_ids right_ids weights margin total column) (seq 0 k) (∅, ∅) = Ok st ∧
  left_done k st.
Proof.
  induction k as [|k IH]; intros Hk.
  - exists (∅, ∅). split; [done|]. split; simpl; [lia|lia| |];
      intros ? [? H]; by rewrite lookup_empty in H.
  - destruct IH as (st & E & Hst); [lia|]. destruct (decide_left_ok k st) as (st' & E' & Hst'); [lia|done|].
    exists st'. rewrite seq_S, fold_res_app, E. cbn [mbind res_bind fold_res].
    change (0 + k)%nat with k. by rewrite E'.
Qed.

(** The right records: those taken keep their status, the others are decided alone. *)
Lemma decide_rights_ok ld rd k : left_done nl (ld, rd) → (k <= nr)%nat → ∃ rd',
  fold_res (decide_right left_ids right_ids weights margin total column) (seq 0 k) rd = Ok rd' ∧
  (∀ i, (i < nl)%nat → (column !!! i < nr)%nat → rd' !! yr (column !!! i) = Some (taken_status i)) ∧
  (∀ j, (j < k)%nat → (∀ i, (i < nl)%nat → column !!! i ≠ j) → rd' !! yr j = Some (alone_status j)).
Proof.
  intros [_ Hr _ _]. simpl in Hr. induction k as [|k IH]; intros Hk.
  { exists rd. split; [done|]. split; [done|lia]. }
  destruct IH as (rd' & E & Ht & Ha); [lia|]. rewrite seq_S, fold_res_app, E. cbn [mbind res_bind fold_res].
  unfold decide_right. change (0 + k)%nat with k.
  destruct (existsb _ (seq 0 nl)) eqn:Ex; cbn [mbind res_bind].
  - exists rd'. split; [done|]. split; [done|]. intros j Hj Hno. apply Ha; [|done].
    destruct (decide (j = k)) as [-> |]; [|lia]. apply existsb_exists in Ex as (i & Hi & Ei).
    apply Nat.eqb_eq in Ei. apply in_seq in Hi. destruct (Hno i); [lia|done].
  - destruct (nearly_right k) as [En _]; [lia|]. rewrite En. cbn [mbind res_bind].
    eexists. split; [reflexivity|].
    assert (∀ i, (i < nl)%nat → column !!! i ≠ k) as Hno.
    { intros i Hi Ei. apply not_true_iff_false in Ex. apply Ex, existsb_exists. exists i.
      split; [apply in_seq; lia|by apply Nat.eqb_eq]. }
    split.
    + intros i Hi Hc. rewrite lookup_insert_ne; [by apply Ht|].
      intros Ey. apply index_inj in Ey; [by apply (Hno i)|done|lia|done].
    + intros j Hj Hnj. destruct (decide (j = k)) as [-> |]; [by rewrite lookup_insert_eq|].
      rewrite lookup_insert_ne; [apply Ha; [lia|done]|].
      intros Ey. apply index_inj in Ey; [lia|done|lia|lia].
Qed.
End loops.

(** ** What a status says *)

(** [agree p]: every near-optimal matching gives the record the partner [p]. *)
Definition says (agree : option string → Prop) (s : Status * option string) : Prop :=
  match s with
  | (MATCHED, Some p) => agree (Some p)
  | (UNMATCHED, None) => agree None
  | (AMBIGUOUS, None) => ∀ p, ¬ agree p
  | _ => False
  end.

(** One decision cell, read with [view]: the partner of the record. *)
Lemma says_decided (view : (string → option string) → option string) p0 (b : bool) margin best f0 s :
  near margin best f0 → view f0 = p0 →
  (b = true ↔ ∃ f, near margin best f ∧ view f ≠ p0) →
  s = (if b then (AMBIGUOUS, None) else match p0 with Some p => (MATCHED, Some p) | None => (UNMATCHED, None) end) →
  says (λ p, ∀ f, near margin best f → view f = p) s.
Proof.
  intros Hn0 Hv Hb ->. destruct b; simpl.
  - destruct Hb as [Hb _]. destruct (Hb eq_refl) as (f & Hf & Hne). intros p Hall.
    apply Hne. by rewrite (Hall f Hf), <- Hv, (Hall f0 Hn0).
  - assert (∀ f, near margin best f → view f = p0) as Hall.
    { intros f Hf. destruct (decide (view f = p0)); [done|]. destruct Hb as [_ Hb].
      discriminate Hb. by exists f. }
    by destruct p0.
Qed.

Lemma resolve_ok margin : 0 <= margin →
  (∀ x, x ∈ left_ids → ∃ y, y ∈ right_ids ∧ is_Some (weights !! (x, y))) →
  (∀ y, y ∈ right_ids → ∃ x, x ∈ left_ids ∧ is_Some (weights !! (x, y))) →
  ∃ best ld rd, _resolve left_ids right_ids weights margin = Ok (best, ld, rd) ∧
    (∃ f, matching f ∧ worth f = best) ∧ (∀ f, matching f → worth f <= best) ∧
    (∀ x, x ∈ left_ids → ∃ s, ld !! x = Some s ∧
       says (λ p, ∀ f, near margin best f → f x = p) s) ∧
    (∀ y, y ∈ right_ids → ∃ s, rd !! y = Some s ∧
       says (λ p, ∀ f, near margin best f → holder_id f y = p) s).
Proof.
  intros Hm Hle Hre.
  destruct (best_avoiding _ None (λ _, None) entries_matrix nothing_matching I)
    as (total & column & E & Hp & Hall & _ & Ht & Hmin); [by intros|].
  pose proof (partner_matching column Hp Hall) as Hopt. set (f0 := partner_in column) in *.
  destruct (decide_lefts_ok margin total column Hp Hall Hle nl) as ([ld rd] & El & Hl); [done|].
  destruct (decide_rights_ok margin total column Hre ld rd nr Hl) as (rd' & Er & Ht' & Ha'); [done|].
  exists (- total), ld, rd'. unfold _resolve. rewrite E. cbn [mbind res_bind]. rewrite El.
  cbn [mbind res_bind]. rewrite Er. split; [done|].
  assert (near margin (- total) f0) as Hn0 by (split; [done|]; rewrite Ht; lia).
  split; [exists f0; split; [done|lia]|].
  split; [intros f Hf; pose proof (Hmin f Hf I); lia|].
  assert (∀ (view : (string → option string) → option string) row col p0,
    (∀ f, matching f → row_col f row = col ↔ view f = p0) →
    (nearly margin total row col = true ↔
       ∃ f, matching f ∧ row_col f row ≠ col ∧ - worth f - total <= margin) →
    (nearly margin total row col = true ↔ ∃ f, near margin (- total) f ∧ view f ≠ p0)) as Hview.
  { intros view row col p0 Hv ->. split.
    - intros (f & Hf & Hne & Hw). exists f. split; [split; [done|lia]|]. by rewrite <- (Hv f Hf).
    - intros (f & [Hf Hw] & Hne). exists f. split; [done|]. split; [by rewrite (Hv f Hf)|lia]. }
  split.
  - intros x (i & Hi & <-)%elem_index. destruct Hl as [Hl _ _ _]. simpl in Hl.
    exists (left_status margin total column i). split; [by apply Hl|].
    destruct (nearly_left margin total column Hp Hall Hle i Hi) as [_ Hb].
    pose proof (partner_at column i Hi) as Hpi. fold f0 in Hpi. unfold left_status.
    destruct (Nat.ltb_spec (column !!! i) nr) as [Hc|Hc].
    + eapply (says_decided (λ f, f (xl i)) _ _ margin (- total) f0 _ Hn0 Hpi); [|reflexivity].
      apply Hview; [|done]. intros f Hf. by apply cell_matched.
    + apply (says_decided (λ f, f (xl i)) None (nearly margin total i (column !!! i)) margin (- total)
               f0 _ Hn0 Hpi); [|by destruct (nearly _ _ _ _)].
      apply Hview; [|done]. intros f Hf. rewrite (alone_column column Hall i Hi) by lia. by apply cell_alone.
  - intros y (j & Hj & <-)%elem_index.
    destruct (perm_onto column size j Hp) as (r & Hr & Erj); [lia|].
    apply row_cases in Hr as [Hr|(j' & Hj' & ->)].
    + exists (taken_status margin total column r). subst j. split; [by apply Ht'|].
      destruct (nearly_left margin total column Hp Hall Hle r Hr) as [_ Hb].
      assert (holder_id f0 (yr (column !!! r)) = Some (xl r)) as Hh.
      { apply holder_id_Some; [done|by apply index_elem|]. unfold f0. rewrite partner_at by done.
        by rewrite (proj2 (Nat.ltb_lt _ nr)). }
      eapply (says_decided (λ f, holder_id f (yr (column !!! r))) _ _ margin (- total) f0 _ Hn0 Hh);
        [|reflexivity].
      apply Hview; [|done]. intros f Hf. rewrite holder_id_Some by (done || by apply index_elem).
      by apply cell_matched.
    + pose proof (Hall (nl + j')%nat ltac:(lia)) as Hal. unfold allowed in Hal. rewrite Erj in Hal.
      rewrite (proj2 (Nat.ltb_ge (nl + j')%nat nl)), (proj2 (Nat.ltb_lt j nr)) in Hal by lia.
      apply Nat.eqb_eq in Hal. assert (j' = j) as -> by lia.
      exists (alone_status margin total j). split.
      * apply Ha'; [done|]. intros i Hi Ei. assert (i = (nl + j)%nat); [|lia].
        apply (perm_inj column size); [done|lia|lia|congruence].
      * destruct (nearly_right margin total Hre j Hj) as [_ Hb].
        assert (holder_id f0 (yr j) = None) as Hh.
        { apply cell_right_alone; [done|done|]. by apply low_row_cell. }
        apply (says_decided (λ f, holder_id f (yr j)) None (nearly margin total (nl + j) j) margin
                 (- total) f0 _ Hn0 Hh); [|by unfold alone_status; destruct (nearly _ _ _ _)].
        apply Hview; [|done]. intros f Hf. by apply cell_right_alone.
Qed.
End component.

(** ** The whole assignment returns *)

Lemma near_total l r w margin total row col :
  ∃ b, near_optimal_without l r w margin total row col = Ok b.
Proof.
  unfold near_optimal_without. destruct (min_cost_ok (forbid l r w row col)) as (t & c & -> & _).
  cbn [mbind res_bind]. eauto.
Qed.

Lemma resolve_total l r w margin : ∃ best ld rd, _resolve l r w margin = Ok (best, ld, rd).
Proof.
  unfold _resolve. destruct (min_cost_ok (cost_matrix l r w)) as (t & c & -> & _). cbn [mbind res_bind].
  destruct (fold_res_total (decide_left l r w margin t c) (seq 0 (length l)) (∅, ∅)) as [[ld rd] ->].
  { intros [ld rd] i _. unfold decide_left.
    destruct (_ <? _)%nat; [destruct (near_total l r w margin t i (c !!! i)) as [b ->]
                           |destruct (near_total l r w margin t i (length r + i)) as [b ->]];
      cbn [mbind res_bind]; [destruct b|]; eauto. }
  cbn [mbind res_bind].
  destruct (fold_res_total (decide_right l r w margin t c) (seq 0 (length r)) rd) as [rd' ->].
  { intros d j _. unfold decide_right. destruct (existsb _ _); [eauto|].
    destruct (near_total l r w margin t (length l + j) j) as [b ->]. cbn [mbind res_bind]. eauto. }
  cbn [mbind res_bind]. eauto.
Qed.

(** A decision is filed under its own record. *)
Definition filed (d : gmap (string * string) ADecision) : Prop :=
  ∀ s x a, d !! (s, x) = Some a → d_id a = x.
Lemma filed_insert d s x a : filed d → d_id a = x → filed (<[(s, x) := a]> d).
Proof. intros Hd Ha s' x' a' [[[= <- <-] <-]|[_ H]]%lookup_insert_Some; [done|by eapply Hd]. Qed.
Lemma put_decisions_filed s i decs d : filed d → filed (put_decisions s i decs d).
Proof.
  intros Hd. unfold put_decisions. apply foldl_inv; [done|].
  intros d' [x [st p]] _ Hd'. by apply filed_insert.
Qed.
Lemma put_oversized_filed s i ids d : filed d → filed (put_oversized s i ids d).
Proof.
  intros Hd. unfold put_oversized. apply foldl_inv; [done|]. intros d' x _ Hd'. by apply filed_insert.
Qed.

Lemma assign_components_ok weights margin mc cs st : filed st.1 →
  ∃ st', fold_res (assign_component weights margin mc) cs st = Ok st' ∧ filed st'.1.
Proof.
  revert st. induction cs as [|[i [l r]] cs IH]; intros [d comps] Hd; simpl; [eauto|].
  destruct (mc <? _); simpl.
  - apply IH. simpl. by do 2 apply put_oversized_filed.
  - destruct (resolve_total l r weights margin) as (best & ld & rd & ->). simpl.
    apply IH. simpl. by do 2 apply put_decisions_filed.
Qed.

Lemma validate_edges_ok (lefts rights : list string) edges weights :
  NoDup ((λ e, (e_left e, e_right e)) <$> edges) →
  (∀ e, e ∈ edges → e_left e ∈ lefts ∧ e_right e ∈ rights ∧ 1 <= e_weight e <= MAX_WEIGHT ∧
                    weights !! (e_left e, e_right e) = None) →
  ∃ w, fold_res (validate_edge lefts rights) edges weights = Ok w.
Proof.
  revert weights. induction edges as [|e edges IH]; intros weights Hnd He; simpl; [eauto|].
  rewrite fmap_cons in Hnd. apply NoDup_cons in Hnd as [Hnew Hnd].
  destruct (He e) as (Hl & Hr & Hw & Hnone); [left|].
  assert (validate_edge lefts rights weights e =
          Ok (<[(e_left e, e_right e) := e_weight e]> weights)) as ->.
  { unfold validate_edge. rewrite !bool_decide_eq_true_2 by done.
    by rewrite (proj2 (Z.leb_le 1 (e_weight e))), (proj2 (Z.leb_le (e_weight e) MAX_WEIGHT)) by lia. }
  cbn [mbind res_bind]. apply IH; [done|]. intros e' He'.
  destruct (He e') as (? & ? & ? & Hn); [by right|]. split_and!; [done|done|lia|lia|].
  rewrite lookup_insert_ne; [done|]. intros E. apply Hnew. apply list_elem_of_fmap. by exists e'.
Qed.

(** ** Guarantees *)

(** A decision is exactly what the near-optimal assignments agree on.  In a
    component whose records each have a candidate edge, with positive weights, the
    resolution returns; [best] is the largest worth of a matching (each record used
    at most once, along candidate edges).  Over all the matchings within [margin]
    of it, a left or right record is MATCHED with a partner exactly when every one
    gives it that partner, UNMATCHED exactly when every one leaves it alone, and
    AMBIGUOUS when they disagree. *)
Theorem resolve_unanimous left_ids right_ids weights margin :
  NoDup left_ids → NoDup right_ids → (∀ e w, weights !! e = Some w → 1 <= w) → 0 <= margin →
  (∀ x, x ∈ left_ids → ∃ y, y ∈ right_ids ∧ is_Some (weights !! (x, y))) →
  (∀ y, y ∈ right_ids → ∃ x, x ∈ left_ids ∧ is_Some (weights !! (x, y))) →
  ∃ best ld rd, _resolve left_ids right_ids weights margin = Ok (best, ld, rd) ∧
    (∃ f, matching left_ids right_ids weights f ∧ worth left_ids weights f = best) ∧
    (∀ f, matching left_ids right_ids weights f → worth left_ids weights f <= best) ∧
    (∀ x, x ∈ left_ids → ∃ s, ld !! x = Some s ∧
       says (λ p, ∀ f, near left_ids right_ids weights margin best f → f x = p) s) ∧
    (∀ y, y ∈ right_ids → ∃ s, rd !! y = Some s ∧
       says (λ p, ∀ f, near left_ids right_ids weights margin best f → holder_id left_ids f y = p) s).
Proof. intros Hl Hr Hw. exact (resolve_ok left_ids right_ids weights Hl Hr Hw margin). Qed.

(** Every record leaves with exactly one decision.  On valid input (distinct
    identifiers on each side, distinct edges between known records with weights in
    range, a margin and a component bound in range) the assignment returns, and the
    decisions of each side are those of its records, each once, in sorted order. *)
Theorem assign_total lefts rights edges margin max_component :
  0 <= margin → 1 <= max_component → NoDup lefts → NoDup rights →
  NoDup ((λ e, (e_left e, e_right e)) <$> edges) →
  (∀ e, e ∈ edges → e_left e ∈ lefts ∧ e_right e ∈ rights ∧ 1 <= e_weight e <= MAX_WEIGHT) →
  ∃ result, assign lefts rights edges margin max_component = Ok result ∧
    d_id <$> r_left result = sorted lefts ∧ d_id <$> r_right result = sorted rights.
Proof.
  intros Hm Hc Hl Hr He Hes. unfold assign, _validated.
  rewrite (proj2 (Z.leb_le 0 margin)), (proj2 (Z.leb_le 1 max_component)) by done.
  rewrite !bool_decide_eq_true_2 by done. cbn [check mbind res_bind].
  destruct (validate_edges_ok lefts rights edges ∅ He) as [w ->].
  { intros e Hin. destruct (Hes e Hin) as (? & ? & ?). by rewrite lookup_empty. }
  cbn [mbind res_bind].
  destruct (assign_components_ok w margin max_component
    (zip (seq 0 (length (_components w))) (_components w)) (∅, [])) as ([d comps] & -> & Hd).
  { by intros s x a. }
  cbn [mbind res_bind]. eexists. split; [reflexivity|]. simpl in Hd. simpl.
  assert (∀ (side : string) (l : list string), d_id <$> (_decision d side <$> l) = l) as Hids; [|by rewrite !Hids].
  intros side l. rewrite <- list_fmap_compose. rewrite <- (list_fmap_id l) at 2.
  apply list_fmap_ext. intros _ x _. unfold compose, _decision.
  destruct (d !! (side, x)) as [a|] eqn:E; [|done]. by apply (Hd side x a).
Qed.

(** ** Witnesses *)

Lemma assign_total_witness : ∃ result,
  assign ["b"; "a"]%string ["x"; "y"; "z"]%string
    [mkEdge "a" "x" 5; mkEdge "b" "y" 7; mkEdge "b" "x" 5] 1 32 = Ok result ∧
  d_id <$> r_left result = sorted ["b"; "a"]%string ∧
  d_id <$> r_right result = sorted ["x"; "y"; "z"]%string.
Proof.
  apply (assign_total ["b"; "a"]%string ["x"; "y"; "z"]%string
    [mkEdge "a" "x" 5; mkEdge "b" "y" 7; mkEdge "b" "x" 5] 1 32); [lia|lia|..].
  - repeat constructor; set_solver.
  - repeat constructor; set_solver.
  - repeat constructor; set_solver.
  - intros e [-> |[-> |[-> |[]%not_elem_of_nil]%elem_of_cons]%elem_of_cons]%elem_of_cons;
      (split; [set_solver|]; split; [set_solver|]; unfold MAX_WEIGHT; simpl; lia).
Defined.

Definition ex_weights : gmap (string * string) Z :=
  {[("a", "x") := 5; ("b", "y") := 7; ("b", "x") := 5]}%string.
Lemma ex_weights_pos e w : ex_weights !! e = Some w → 1 <= w.
Proof.
  unfold ex_weights. rewrite !lookup_insert_Some, lookup_singleton_Some.
  intros [[_ <-]|[_ [[_ <-]|[_ [_ <-]]]]]; done.
Qed.
Lemma resolve_unanimous_witness :
  ∃ best ld rd, _resolve ["a"; "b"]%string ["x"; "y"]%string ex_weights 1 = Ok (best, ld, rd) ∧
    (∃ f, matching ["a"; "b"]%string ["x"; "y"]%string ex_weights f ∧
          worth ["a"; "b"]%string ex_weights f = best) ∧
    (∀ f, matching ["a"; "b"]%string ["x"; "y"]%string ex_weights f →
          worth ["a"; "b"]%string ex_weights f <= best) ∧
    (∀ x, x ∈ ["a"; "b"]%string → ∃ s, ld !! x = Some s ∧
       says (λ p, ∀ f, near ["a"; "b"]%string ["x"; "y"]%string ex_weights 1 best f → f x = p) s) ∧
    (∀ y, y ∈ ["x"; "y"]%string → ∃ s, rd !! y = Some s ∧
       says (λ p, ∀ f, near ["a"; "b"]%string ["x"; "y"]%string ex_weights 1 best f →
                       holder_id ["a"; "b"]%string f y = p) s).
Proof.
  apply (resolve_unanimous ["a"; "b"]%string ["x"; "y"]%string ex_weights 1).
  - repeat constructor; set_solver.
  - repeat constructor; set_solver.
  - exact ex_weights_pos.
  - lia.
  - intros x [-> |[-> |[]%not_elem_of_nil]%elem_of_cons]%elem_of_cons;
      [exists "x"%string|exists "y"%string]; (split; [set_solver|by vm_compute; eauto]).
  - intros y [-> |[-> |[]%not_elem_of_nil]%elem_of_cons]%elem_of_cons;
      [exists "a"%string|exists "b"%string]; (split; [set_solver|by vm_compute; eauto]).
Defined.
(** The best total is 12; with a margin of 7, leaving [b] and [y] alone is as good,
    and so is pairing [b] with [x]: nothing is certain any more. *)
Example resolve_margin :
  (λ r, (r.1.1, map_to_list r.1.2)) <$> _resolve ["a"; "b"]%string ["x"; "y"]%string ex_weights 7 =
  Ok (12, [("a", (AMBIGUOUS, None)); ("b", (AMBIGUOUS, None))]%string).
Proof. vm_compute. reflexivity. Qed.
