(* ===== verification/AssignTheorems.v ===== *)
(** * AssignTheorems: what [assign] promises as a whole

    [correlation/assignment.py], end to end.  [_components] walks the candidate graph
    breadth first: its components are the connected components of that graph.  Each is
    decided by [_resolve] (see [Resolve]) or, when it is too large, not at all, and the
    decisions of different components do not touch one another.  [assign_sound] is the
    interface the clients of the assignment rely on. *)

From S2P Require Import Prelude Assignment Hungarian Resolve.

(** ** The candidate graph *)

Section graph.
Context (w : Weights).
Implicit Types (a b : Node).

(** Two records of an edge, in either order. *)
Definition adj (a b : Node) : Prop :=
  ∃ x y, is_Some (w !! (x, y)) ∧ (a = (L, x) ∧ b = (R, y) ∨ a = (R, y) ∧ b = (L, x)).
Lemma adj_sym a b : adj a b → adj b a.
Proof. unfold adj. naive_solver. Qed.
Lemma adj_edge x y : adj (L, x) (R, y) ↔ is_Some (w !! (x, y)).
Proof. unfold adj, L, R. naive_solver. Qed.
Lemma linked_sym a b : rtc adj a b → rtc adj b a.
Proof. induction 1; [done|]. eapply rtc_r; [done|by apply adj_sym]. Qed.

Definition nb (g : Graph) (a : Node) : gset Node := default ∅ (g !! a).
Lemma nb_add a b g c d : d ∈ nb (add_neighbour a b g) c ↔ d ∈ nb g c ∨ c = a ∧ d = b.
Proof.
  unfold nb, add_neighbour. destruct (decide (a = c)) as [<- |].
  - rewrite lookup_insert_eq. simpl. set_solver.
  - rewrite lookup_insert_ne by done. naive_solver.
Qed.
Lemma dom_add a b g : dom (add_neighbour a b g) = {[a]} ∪ dom g.
Proof. apply dom_insert_L. Qed.
Lemma nb_edges (l : list (string * string)) g c d : d ∈ nb (foldl add_edge g l) c ↔ d ∈ nb g c ∨
  ∃ e, e ∈ l ∧ (c = (L, e.1) ∧ d = (R, e.2) ∨ c = (R, e.2) ∧ d = (L, e.1)).
Proof.
  revert g. induction l as [|e l IH]; intros g; simpl; [set_solver|].
  rewrite IH. unfold add_edge. rewrite !nb_add. setoid_rewrite elem_of_cons. naive_solver.
Qed.
Lemma nb_neighbours a b : b ∈ nb (neighbours w) a ↔ adj a b.
Proof.
  unfold neighbours. rewrite nb_edges. unfold nb at 1. rewrite lookup_empty. simpl.
  unfold adj. setoid_rewrite list_elem_of_fmap. split.
  - intros [H|([x y] & ([e n] & -> & He) & H)]; [by apply not_elem_of_empty in H|].
    apply elem_of_map_to_list in He. destruct e. naive_solver.
  - intros (x & y & [n Hn] & H). right. exists (x, y). split; [|naive_solver].
    exists ((x, y), n). split; [done|]. by apply elem_of_map_to_list.
Qed.
Lemma dom_neighbours a : a ∈ dom (neighbours w) ↔ ∃ b, adj a b.
Proof.
  setoid_rewrite <- nb_neighbours. split.
  - intros Ha. assert (∀ c, c ∈ dom (neighbours w) → ∃ b, b ∈ nb (neighbours w) c) as H; [|by apply H].
    clear a Ha. unfold neighbours.
    apply (foldl_inv (λ g, ∀ c, c ∈ dom g → ∃ b, b ∈ nb g c)).
    { intros c Hc. by apply elem_of_dom in Hc as [? Hc]. }
    intros g e _ IH c. unfold add_edge. setoid_rewrite nb_add. setoid_rewrite nb_add.
    rewrite !dom_add, !elem_of_union, !elem_of_singleton. intros [-> |[-> |Hc]]; [eauto 10..|].
    destruct (IH c Hc). eauto 10.
  - intros [b Hb]. unfold nb in Hb. apply elem_of_dom. destruct (_ !! a); [done|]. by apply not_elem_of_empty in Hb.
Qed.
End graph.

(** ** The walk *)

Section walk.
Context (w : Weights).
Notation g := (neighbours w).
Implicit Types (a b start : Node).

Definition closed (S : gset Node) : Prop := ∀ a b, a ∈ S → adj w a b → b ∈ S.

(** What the queue holds: the reached records that were not reached before it. *)
Record walked (old : gset Node) (start : Node) (k : nat) (st : gset Node * list Node) : Prop := {
  wk_reached : ∀ a, a ∈ st.1 ↔ a ∈ old ∨ a ∈ st.2;
  wk_new : ∀ a, a ∈ st.2 → a ∉ old;
  wk_NoDup : NoDup st.2;
  wk_linked : ∀ a, a ∈ st.2 → rtc (adj w) start a;
  wk_dom : ∀ a, a ∈ st.2 → a ∈ dom g;
  wk_start : start ∈ st.2;
  wk_len : (k <= length st.2)%nat;
  wk_done : ∀ i a b, (i < k)%nat → st.2 !! i = Some a → adj w a b → b ∈ st.1
}.

Lemma visit_walked old start k st b m : walked old start k st → m ∈ st.2 → adj w m b →
  walked old start k (visit st b) ∧ b ∈ (visit st b).1 ∧
  (∀ a, a ∈ st.1 → a ∈ (visit st b).1) ∧ (∀ i a, st.2 !! i = Some a → (visit st b).2 !! i = Some a).
Proof.
  intros [H1 H2 H3 H4 H5 H6 H7 H8] Hm Hb. destruct st as [reached members]. unfold visit. simpl in *.
  case_bool_decide as Hr; [by split_and!|]. simpl.
  assert (b ∉ old ∧ b ∉ members) as [Hn Hnm] by (rewrite H1 in Hr; naive_solver).
  split_and!; [|set_solver|set_solver|by intros i a Hi; apply lookup_app_l_Some].
  split; simpl.
  - intros a. rewrite elem_of_union, elem_of_singleton, H1, elem_of_app, list_elem_of_singleton. naive_solver.
  - intros a. rewrite elem_of_app, list_elem_of_singleton. naive_solver.
  - apply NoDup_app. split; [done|]. split; [|apply NoDup_singleton].
    by intros a Ha ->%list_elem_of_singleton.
  - intros a. rewrite elem_of_app, list_elem_of_singleton. intros [?| ->]; [by apply H4|].
    eapply rtc_r; [by apply H4|done].
  - intros a. rewrite elem_of_app, list_elem_of_singleton. intros [?| ->]; [by apply H5|].
    apply dom_neighbours. exists m. by apply adj_sym.
  - rewrite elem_of_app. by left.
  - rewrite length_app. lia.
  - intros i a c Hi Ha Hc. apply elem_of_union_r. rewrite lookup_app_l in Ha by lia. by eapply H8.
Qed.
Lemma visits_walked old start k l st m : walked old start k st → m ∈ st.2 → (∀ b, b ∈ l → adj w m b) →
  walked old start k (foldl visit st l) ∧ (∀ b, b ∈ l → b ∈ (foldl visit st l).1) ∧
  (∀ a, a ∈ st.1 → a ∈ (foldl visit st l).1) ∧
  (∀ i a, st.2 !! i = Some a → (foldl visit st l).2 !! i = Some a).
Proof.
  revert st. induction l as [|b l IH]; intros st Hst Hm Hl; simpl.
  { split_and!; [done|by intros b ?%not_elem_of_nil|done|done]. }
  destruct (visit_walked old start k st b m Hst Hm) as (Hst' & Hb & Hmono & Hpre); [apply Hl; left|].
  destruct (IH (visit st b) Hst') as (Hw & Hall & Hmono' & Hpre').
  - apply list_elem_of_lookup in Hm as [i Hi]. eapply list_elem_of_lookup_2. by apply Hpre.
  - intros c Hc. apply Hl. by right.
  - split_and!; [done| |by eauto|by eauto]. intros c [-> |Hc]%elem_of_cons; eauto.
Qed.
Lemma walk_step old start k st m : walked old start k st → st.2 !! k = Some m →
  walked old start (S k) (foldl visit st (sorted (elements (nb g m)))).
Proof.
  intros Hst Hk. assert (m ∈ st.2) as Hm by by eapply list_elem_of_lookup_2.
  assert (∀ b, b ∈ sorted (elements (nb g m)) ↔ adj w m b) as Hl.
  { intros b. unfold sorted. by rewrite elem_of_sorted_by, elem_of_elements, nb_neighbours. }
  destruct (visits_walked old start k (sorted (elements (nb g m))) st m Hst Hm ltac:(by intros b ?%Hl))
    as (Hw & Hall & _ & Hpre).
  pose proof (Hpre k m Hk) as Hk'. destruct Hw as [H1 H2 H3 H4 H5 H6 H7 H8]. split; try done.
  - by apply lookup_lt_Some in Hk'.
  - intros i a b Hi Ha Hab. destruct (decide (i = k)) as [-> |]; [|eapply H8; [|done..]; lia].
    rewrite Hk' in Ha. injection Ha as <-. apply Hall. by apply Hl.
Qed.
Lemma walk_walked old start fuel k reached members : walked old start k (reached, members) →
  ∃ k', walked old start k' (walk fuel k g reached members) ∧
    ((length (walk fuel k g reached members).2 <= k')%nat ∨ k' = (fuel + k)%nat).
Proof.
  revert k reached members. induction fuel as [|fuel IH]; intros k reached members Hst; simpl; [eauto|].
  destruct (members !! k) as [m|] eqn:Em.
  - pose proof (walk_step old start k (reached, members) m Hst Em) as Hw. unfold nb in Hw.
    destruct (foldl visit _ _) as [reached' members']. destruct (IH (S k) reached' members' Hw) as (k' & ? & ?).
    exists k'. split; [done|]. destruct H0; [by left|right; lia].
  - exists k. split; [done|]. left. by apply lookup_ge_None.
Qed.

(** Started outside a closed set, the walk reaches a whole component and nothing else. *)
Lemma walk_component old start : closed old → start ∉ old → start ∈ dom g →
  let '(reached, members) := walk (size g) 0 g ({[start]} ∪ old) [start] in
  closed reached ∧ NoDup members ∧ (∀ a, a ∈ members ↔ rtc (adj w) start a) ∧
  (∀ a, a ∈ reached ↔ a ∈ old ∨ a ∈ members) ∧ (∀ a, a ∈ members → a ∉ old).
Proof.
  intros HR Hs Hd. destruct (walk_walked old start (size g) 0 ({[start]} ∪ old) [start]) as (k & Hw & Hk).
  { split; simpl.
    - intros a. rewrite elem_of_union, elem_of_singleton, list_elem_of_singleton. naive_solver.
    - by intros a ->%list_elem_of_singleton.
    - apply NoDup_singleton.
    - by intros a ->%list_elem_of_singleton.
    - by intros a ->%list_elem_of_singleton.
    - by left.
    - lia.
    - lia. }
  destruct (walk _ _ _ _ _) as [reached members]. destruct Hw as [H1 H2 H3 H4 H5 H6 H7 H8]. simpl in *.
  assert (length members <= k)%nat as Hlen.
  { destruct Hk as [|Hk]; [done|]. rewrite Nat.add_0_r in Hk. rewrite Hk, <- size_dom.
    rewrite <- (size_list_to_set members (C := gset Node)) by done. apply subseteq_size.
    intros a Ha%elem_of_list_to_set. by apply H5. }
  assert (∀ a b, a ∈ members → adj w a b → b ∈ members) as Hc.
  { intros a b Ha Hab. apply list_elem_of_lookup in Ha as [i Hi]. pose proof (lookup_lt_Some _ _ _ Hi).
    assert (b ∈ reached) as [Hb|]%H1 by (eapply H8; [|done..]; lia); [|done].
    destruct (H2 a); [by eapply list_elem_of_lookup_2|]. apply (HR b a); [done|]. by apply adj_sym. }
  split_and!; [|done| |done|done].
  - intros a b [Ha|Ha]%H1 Hab; apply H1; [left; by eapply HR|right; by eapply Hc].
  - intros a. split; [by apply H4|]. intros Ha. clear -Ha H6 Hc. induction Ha; [done|eauto].
Qed.
End walk.

(** ** The components *)

(** The records of a component, as nodes of the graph. *)
Definition nodes (c : list string * list string) : list Node := (pair L <$> c.1) ++ (pair R <$> c.2).
Lemma elem_of_nodes_l c x : (L, x) ∈ nodes c ↔ x ∈ c.1.
Proof. unfold nodes, L, R. rewrite elem_of_app, !list_elem_of_fmap. naive_solver. Qed.
Lemma elem_of_nodes_r c y : (R, y) ∈ nodes c ↔ y ∈ c.2.
Proof. unfold nodes, L, R. rewrite elem_of_app, !list_elem_of_fmap. naive_solver. Qed.

Section components.
Context (w : Weights).
Notation g := (neighbours w).

Lemma dom_side a : a ∈ dom g → a.1 = L ∨ a.1 = R.
Proof. intros (b & x & y & _ & H)%dom_neighbours. naive_solver. Qed.
Lemma elem_of_side_ids s members x : x ∈ side_ids s members ↔ (s, x) ∈ members.
Proof.
  unfold side_ids, sorted. rewrite elem_of_sorted_by, list_elem_of_fmap. setoid_rewrite elem_of_filter_bool. split.
  - intros ([s' x'] & -> & H & Hs). apply bool_decide_eq_true in Hs. simpl in *. by subst s'.
  - intros H. exists (s, x). split; [done|]. split; [done|by apply bool_decide_eq_true_2].
Qed.
Lemma side_ids_NoDup s members : NoDup members → NoDup (side_ids s members).
Proof.
  intros H. unfold side_ids, sorted. rewrite sorted_by_perm. apply NoDup_fmap_2_strong.
  2: { apply NoDup_ListNoDup, List.NoDup_filter. by apply NoDup_ListNoDup. }
  intros [s1 x1] [s2 x2] [_ H1]%elem_of_filter_bool [_ H2]%elem_of_filter_bool E.
  apply bool_decide_eq_true in H1, H2. simpl in *. congruence.
Qed.
Lemma nodes_side_ids members a : (∀ b, b ∈ members → b.1 = L ∨ b.1 = R) →
  a ∈ nodes (side_ids L members, side_ids R members) ↔ a ∈ members.
Proof.
  intros Hs. unfold nodes. rewrite elem_of_app, !list_elem_of_fmap. simpl. setoid_rewrite elem_of_side_ids. split.
  - intros [(x & -> & H)|(x & -> & H)]; done.
  - intros Ha. destruct a as [s x]. destruct (Hs _ Ha); simpl in *; subst s; eauto.
Qed.

(** One component: its records are distinct, and they are those linked to one of them. *)
Record component_ok (c : list string * list string) : Prop := {
  co_left : NoDup c.1;
  co_right : NoDup c.2;
  co_linked : ∃ start, start ∈ dom g ∧ ∀ a, a ∈ nodes c ↔ rtc (adj w) start a
}.
Record split_ok (st : gset Node * list (list string * list string)) : Prop := {
  sp_closed : closed w st.1;
  sp_reached : ∀ a, a ∈ st.1 ↔ ∃ i c, st.2 !! i = Some c ∧ a ∈ nodes c;
  sp_ok : ∀ i c, st.2 !! i = Some c → component_ok c;
  sp_apart : ∀ i j c c' a, st.2 !! i = Some c → st.2 !! j = Some c' → a ∈ nodes c → a ∈ nodes c' → i = j
}.
Lemma lookup_snoc_cases {A} (l : list A) x i y : (l ++ [x]) !! i = Some y ↔
  l !! i = Some y ∨ i = length l ∧ y = x.
Proof.
  rewrite lookup_app_Some. split.
  - intros [H|[H1 H2]]; [by left|right]. apply list_lookup_singleton_Some in H2 as [H2 ->]. split; [lia|done].
  - intros [H|[-> ->]]; [by left|right]. split; [done|]. by rewrite Nat.sub_diag.
Qed.
Lemma component_from_ok st start : split_ok st → start ∈ dom g →
  split_ok (component_from g st start) ∧ start ∈ (component_from g st start).1 ∧
  (∀ a, a ∈ st.1 → a ∈ (component_from g st start).1).
Proof.
  intros [H1 H2 H3 H4] Hd. destruct st as [reached out]. unfold component_from. simpl in *.
  case_bool_decide as Hr; [by split_and!|].
  pose proof (walk_component w reached start H1 Hr Hd) as Hw. destruct (walk _ _ _ _ _) as [reached' members].
  destruct Hw as (Hc & Hn & Hm & Hr' & Hnew). simpl.
  assert (∀ a, a ∈ nodes (side_ids L members, side_ids R members) ↔ a ∈ members) as Hnodes.
  { intros a. apply nodes_side_ids. intros b Hb%Hm. apply dom_side. apply linked_sym in Hb.
    destruct Hb as [|b c ? Hbc]; [done|]. apply dom_neighbours. eauto. }
  split_and!; [|apply Hr'; right; by apply Hm|by intros a Ha; apply Hr'; left].
  split; simpl.
  - done.
  - intros a. rewrite Hr'. setoid_rewrite lookup_snoc_cases. rewrite H2, <- Hnodes. naive_solver.
  - intros i c [Hi|[_ ->]]%lookup_snoc_cases; [by eapply H3|].
    split; [by apply side_ids_NoDup|by apply side_ids_NoDup|]. exists start. split; [done|].
    intros a. by rewrite Hnodes.
  - intros i j c c' a [Hi|[-> ->]]%lookup_snoc_cases [Hj|[-> ->]]%lookup_snoc_cases Ha Ha'; [by eapply H4| | |done].
    + destruct (Hnew a); [by apply Hnodes|]. apply H2. eauto.
    + destruct (Hnew a); [by apply Hnodes|]. apply H2. eauto.
Qed.
Lemma components_split : ∃ reached, split_ok (reached, _components w) ∧ ∀ a, a ∈ dom g → a ∈ reached.
Proof.
  unfold _components. set (l := sorted (map_to_list g).*1).
  assert (∀ a, a ∈ l ↔ a ∈ dom g) as Hl.
  { intros a. unfold l, sorted. rewrite elem_of_sorted_by, elem_of_dom. split.
    - intros ([? s] & -> & H)%list_elem_of_fmap. apply elem_of_map_to_list in H. eauto.
    - intros [s H]. apply list_elem_of_fmap. exists (a, s). split; [done|]. by apply elem_of_map_to_list. }
  clearbody l.
  assert (∀ st, split_ok st → split_ok (foldl (component_from g) st l) ∧
    (∀ a, a ∈ l → a ∈ (foldl (component_from g) st l).1) ∧
    (∀ a, a ∈ st.1 → a ∈ (foldl (component_from g) st l).1)) as H.
  { assert (∀ a, a ∈ l → a ∈ dom g) as Hl' by (intros; by apply Hl). clear Hl.
    induction l as [|s l IH]; intros st Hst; simpl; [by split_and!; [|intros a ?%not_elem_of_nil|]|].
    destruct (component_from_ok st s Hst) as (H1 & H2 & H3); [apply Hl'; left|].
    destruct (IH ltac:(intros; apply Hl'; by right) _ H1) as (H4 & H5 & H6). split_and!; [done| |by eauto].
    intros a [-> |Ha]%elem_of_cons; eauto. }
  destruct (H (∅, [])) as (H1 & H2 & _).
  { split; simpl; [by intros a b ?%not_elem_of_empty| |done|done].
    intros a. split; [by intros ?%not_elem_of_empty|]. by intros (? & ? & ? & _). }
  destruct (foldl _ _ l) as [reached out]. exists reached. split; [done|]. intros a Ha. apply H2. by apply Hl.
Qed.

(** The components are the connected components of the candidate graph. *)
Lemma components_spec :
  (∀ i c, _components w !! i = Some c → component_ok c) ∧
  (∀ a, a ∈ dom g → ∃ i c, _components w !! i = Some c ∧ a ∈ nodes c) ∧
  (∀ i j c c' a, _components w !! i = Some c → _components w !! j = Some c' →
     a ∈ nodes c → a ∈ nodes c' → i = j).
Proof.
  destruct components_split as (reached & [H1 H2 H3 H4] & Hall). simpl in *.
  split_and!; [done| |done]. intros a Ha. by apply H2, Hall.
Qed.
(** A component holds an edge. *)
Lemma component_edge c : component_ok c → ∃ x y, is_Some (w !! (x, y)) ∧ x ∈ c.1 ∧ y ∈ c.2.
Proof.
  intros [_ _ (s & Hs & H)]. apply dom_neighbours in Hs as [b Hb].
  assert (s ∈ nodes c ∧ b ∈ nodes c) as [Hsn Hbn] by (rewrite !H; split; [done|by apply rtc_once]).
  destruct Hb as (x & y & Hxy & [[-> ->]|[-> ->]]); exists x, y; split_and!;
    by apply elem_of_nodes_l || apply elem_of_nodes_r || done.
Qed.
Lemma component_linked c a : component_ok c → a ∈ nodes c → ∀ b, b ∈ nodes c ↔ rtc (adj w) a b.
Proof.
  intros [_ _ (s & _ & H)] Ha%H b. rewrite H. split; intros Hb.
  - etrans; [by apply linked_sym|done].
  - by etrans.
Qed.
Lemma component_dom c a : component_ok c → a ∈ nodes c → a ∈ dom g.
Proof.
  intros [_ _ (s & Hs & H)] Ha%H. apply linked_sym in Ha. destruct Ha as [|a b ? Hab]; [done|].
  apply dom_neighbours. eauto.
Qed.
(** An edge stays in the component of its ends. *)
Lemma component_left c x : component_ok c → x ∈ c.1 → ∃ y, y ∈ c.2 ∧ is_Some (w !! (x, y)).
Proof.
  intros Hc Hx%elem_of_nodes_l. pose proof (component_dom c _ Hc Hx) as (b & Hb)%dom_neighbours.
  assert (b ∈ nodes c) as Hn by (apply (component_linked c _ Hc Hx); by apply rtc_once).
  destruct Hb as (x' & y & Hw & [[[= <-] ->]|[? _]]); [|done]. exists y. by rewrite <- elem_of_nodes_r.
Qed.
Lemma component_right c y : component_ok c → y ∈ c.2 → ∃ x, x ∈ c.1 ∧ is_Some (w !! (x, y)).
Proof.
  intros Hc Hy%elem_of_nodes_r. pose proof (component_dom c _ Hc Hy) as (b & Hb)%dom_neighbours.
  assert (b ∈ nodes c) as Hn by (apply (component_linked c _ Hc Hy); by apply rtc_once).
  destruct Hb as (x & y' & Hw & [[? _]|[[= <-] ->]]); [done|]. exists x. by rewrite <- elem_of_nodes_l.
Qed.
End components.

(** ** Filing the decisions *)

Lemma put_decisions_lookup s i decs d s' x : put_decisions s i decs d !! (s', x) =
  match (if decide (s' = s) then decs !! x else None) with
  | Some (st, p) => Some (mkADecision x st p (Some i))
  | None => d !! (s', x)
  end.
Proof.
  unfold put_decisions. replace (decs !! x) with ((list_to_map (map_to_list decs) : gmap string (Status * option string)) !! x)
    by by rewrite list_to_map_to_list.
  pose proof (NoDup_fst_map_to_list decs) as Hn. revert d. induction (map_to_list decs) as [|[x' [st p]] l IH]; intros d.
  { simpl. by destruct (decide _). }
  cbn [foldl]. rewrite fmap_cons in Hn. apply NoDup_cons in Hn as [Hx Hn]. rewrite (IH Hn). cbn [list_to_map foldr fst snd].
  destruct (decide (s' = s)) as [-> |Hs].
  - destruct (decide (x = x')) as [-> |Hne].
    + rewrite lookup_insert_eq, (not_elem_of_list_to_map_1 l) by done. by rewrite lookup_insert_eq.
    + rewrite (lookup_insert_ne _ x') by done. destruct (list_to_map l !! x) as [[??]|]; [done|].
      by rewrite lookup_insert_ne by congruence.
  - by rewrite lookup_insert_ne by congruence.
Qed.
Lemma put_oversized_lookup s i ids d s' x : put_oversized s i ids d !! (s', x) =
  if decide (s' = s ∧ x ∈ ids) then Some (mkADecision x OVERSIZED None (Some i)) else d !! (s', x).
Proof.
  unfold put_oversized. revert d. induction ids as [|y ids IH]; intros d; simpl.
  { case_decide as H; [|done]. by destruct H as [_ ?%not_elem_of_nil]. }
  rewrite IH. destruct (decide (s' = s ∧ x ∈ ids)) as [[-> H]|H].
  - rewrite decide_True by (split; [done|by right]). done.
  - destruct (decide ((s', x) = (s, y))) as [[= -> ->]|Hne].
    + rewrite lookup_insert_eq. rewrite decide_True by (split; [done|by left]). done.
    + rewrite lookup_insert_ne by done. rewrite decide_False; [done|].
      intros [-> [-> |Hx]%elem_of_cons]; [done|]. by apply H.
Qed.

(** [_resolve] decides records of its component only. *)
Lemma resolve_dom l r w margin best ld rd : _resolve l r w margin = Ok (best, ld, rd) →
  (∀ x, is_Some (ld !! x) → x ∈ l) ∧ (∀ y, is_Some (rd !! y) → y ∈ r).
Proof.
  unfold _resolve. intros H. apply bind_Ok in H as ([t column] & _ & H).
  apply bind_Ok in H as ([ld' rd'] & E1 & H). apply bind_Ok in H as (rd2 & E2 & [= _ -> <-]).
  assert ((∀ x, is_Some (ld !! x) → x ∈ l) ∧ ∀ y, is_Some (rd' !! y) → y ∈ r) as [Hl Hr].
  { revert E1. apply (fold_res_ind (λ st : gmap string (Status * option string) * gmap string (Status * option string),
      (∀ x, is_Some (st.1 !! x) → x ∈ l) ∧ ∀ y, is_Some (st.2 !! y) → y ∈ r)).
    { by split; intros ? [? ?]. }
    intros i [a b] [a' b'] Hi [Ha Hb] H. unfold decide_left in H. apply list_elem_of_In, in_seq in Hi.
    assert (l !!! i ∈ l) as Hli by (apply index_elem; lia).
    destruct (Nat.ltb_spec (column !!! i) (length r)) as [Hc|Hc].
    - apply bind_Ok in H as (m & _ & H). assert (r !!! (column !!! i) ∈ r) as Hri by by apply index_elem.
      destruct m; injection H as <- <-; simpl in *; split; intros z [<- |[_ Hz]]%lookup_insert_is_Some; auto.
    - apply bind_Ok in H as (m & _ & [= <- <-]). simpl in *. split; [|done].
      intros z [<- |[_ Hz]]%lookup_insert_is_Some; auto. }
  split; [done|]. revert E2. apply (fold_res_ind (λ rd : gmap string (Status * option string),
    ∀ y, is_Some (rd !! y) → y ∈ r)); [done|].
  intros j a a' Hj Ha H. unfold decide_right in H. apply list_elem_of_In, in_seq in Hj.
  destruct (existsb _ _); [by injection H as <-|]. apply bind_Ok in H as (m & _ & [= <-]).
  intros z [<- |[_ Hz]]%lookup_insert_is_Some; [apply index_elem; lia|auto].
Qed.

(** ** Deciding every component *)

Section decide.
Context (w : Weights) (margin max_component : Z).
Hypothesis weights_pos : ∀ e n, w !! e = Some n → 1 <= n.
Hypothesis margin_pos : 0 <= margin.

Notation near_of c best := (near (c_left c) (c_right c) w margin best).
(** What the decision of a record of component [c] says, on either side. *)
Definition decided_left (c : Component) (x : string) (s : Status * option string) : Prop :=
  match c_best c with
  | None => s = (OVERSIZED, None)
  | Some best => says (λ p, ∀ f, near_of c best f → f x = p) s
  end.
Definition decided_right (c : Component) (y : string) (s : Status * option string) : Prop :=
  match c_best c with
  | None => s = (OVERSIZED, None)
  | Some best => says (λ p, ∀ f, near_of c best f → holder_id (c_left c) f y = p) s
  end.
(** A component is oversized, or its [c_best] is the largest worth of a matching. *)
Definition weighed (c : Component) : Prop :=
  let width := Z.max (Z.of_nat (length (c_left c))) (Z.of_nat (length (c_right c))) in
  match c_best c with
  | None => max_component < width
  | Some best => width <= max_component ∧
      (∃ f, matching (c_left c) (c_right c) w f ∧ worth (c_left c) w f = best) ∧
      (∀ f, matching (c_left c) (c_right c) w f → worth (c_left c) w f <= best)
  end.
(** The decisions filed for the component of rank [i]. *)
Record filed_component (i : nat) (c : Component) (d : Decisions) : Prop := {
  fc_weighed : weighed c;
  fc_left x : x ∈ c_left c → ∃ s, d !! (L, x) = Some (mkADecision x s.1 s.2 (Some i)) ∧ decided_left c x s;
  fc_right y : y ∈ c_right c → ∃ s, d !! (R, y) = Some (mkADecision y s.1 s.2 (Some i)) ∧ decided_right c y s
}.

Lemma assign_component_filed d comps i c : component_ok w c →
  ∃ d' comp, assign_component w margin max_component (d, comps) (i, c) = Ok (d', comps ++ [comp]) ∧
    (c_left comp, c_right comp) = c ∧ filed_component i comp d' ∧ (∀ n, n ∉ nodes c → d' !! n = d !! n).
Proof.
  intros Hc. destruct c as [l r]. unfold assign_component. destruct (Z.ltb_spec max_component
    (Z.max (Z.of_nat (length l)) (Z.of_nat (length r)))) as [Hw|Hw].
  - do 2 eexists. split; [reflexivity|]. split; [done|]. split.
    + split; simpl; [done| |]; intros x Hx; exists (OVERSIZED, None); (split; [|done]); rewrite !put_oversized_lookup.
      * by rewrite decide_False by (by intros [? _]); rewrite decide_True.
      * by rewrite decide_True.
    + intros [s x] Hn. rewrite !put_oversized_lookup.
      rewrite decide_False by (intros [-> H]; by apply Hn, elem_of_nodes_r).
      by rewrite decide_False by (intros [-> H]; by apply Hn, elem_of_nodes_l).
  - destruct (resolve_ok l r w (co_left _ _ Hc) (co_right _ _ Hc) weights_pos margin margin_pos)
      as (best & ld & rd & E & Hbest & Hmax & Hl & Hr).
    { intros x Hx. by apply (component_left w (l, r)). }
    { intros y Hy. by apply (component_right w (l, r)). }
    destruct (resolve_dom l r w margin best ld rd E) as [Dl Dr].
    rewrite E. cbn [mbind res_bind]. do 2 eexists. split; [reflexivity|]. split; [done|]. split.
    + split; simpl; [by split_and!| |].
      * intros x Hx. destruct (Hl x Hx) as ([st p] & Es & Hs). exists (st, p). split; [|done].
        rewrite !put_decisions_lookup. rewrite decide_False by done. by rewrite decide_True, Es.
      * intros y Hy. destruct (Hr y Hy) as ([st p] & Es & Hs). exists (st, p). split; [|done].
        by rewrite put_decisions_lookup, decide_True, Es.
    + intros [s x] Hn. rewrite !put_decisions_lookup.
      assert ((if decide (s = R) then rd !! x else None) = None) as ->.
      { case_decide as Hs; [subst s|done]. apply eq_None_not_Some. intros Hx. by apply Hn, elem_of_nodes_r, Dr. }
      assert ((if decide (s = L) then ld !! x else None) = None) as ->; [|done].
      case_decide as Hs; [subst s|done]. apply eq_None_not_Some. intros Hx. by apply Hn, elem_of_nodes_l, Dl.
Qed.

Lemma filed_component_ext i comp d d' :
  (∀ n, n ∈ nodes (c_left comp, c_right comp) → d' !! n = d !! n) → filed_component i comp d → filed_component i comp d'.
Proof.
  intros He [H1 H2 H3]. split; [done| |].
  - intros x Hx. rewrite He by by apply elem_of_nodes_l. auto.
  - intros y Hy. rewrite He by by apply elem_of_nodes_r. auto.
Qed.

Lemma assign_components_filed cs n d comps : (∀ k c, cs !! k = Some c → component_ok w c) →
  (∀ i j c c' a, cs !! i = Some c → cs !! j = Some c' → a ∈ nodes c → a ∈ nodes c' → i = j) →
  ∃ d' out, fold_res (assign_component w margin max_component) (zip (seq n (length cs)) cs) (d, comps)
      = Ok (d', comps ++ out) ∧
    (λ c, (c_left c, c_right c)) <$> out = cs ∧
    (∀ k comp, out !! k = Some comp → filed_component (n + k) comp d') ∧
    (∀ a, (∀ k c, cs !! k = Some c → a ∉ nodes c) → d' !! a = d !! a).
Proof.
  revert n d comps. induction cs as [|c cs IH]; intros n d comps Hok Hap; cbn [length seq zip_with fold_res].
  { exists d, []. rewrite app_nil_r. split_and!; [done|done|by intros ? ? ?|done]. }
  destruct (assign_component_filed d comps n c (Hok 0%nat c eq_refl)) as (d1 & comp & -> & Ec & Hf & Hout).
  cbn [mbind res_bind]. destruct (IH (S n) d1 (comps ++ [comp])) as (d2 & out & -> & Eo & Hfo & Ho2).
  { intros k. exact (Hok (S k)). }
  { intros i j c1 c2 a Hi Hj Ha Ha'. assert (S i = S j); [|lia]. by eapply (Hap (S i) (S j)). }
  exists d2, (comp :: out). rewrite <- app_assoc. split; [done|]. split; [by rewrite fmap_cons, Ec, Eo|]. split.
  - intros [|k] comp' Hk; simpl in Hk.
    + injection Hk as <-. rewrite Nat.add_0_r. eapply filed_component_ext; [|exact Hf]. rewrite Ec.
      intros a Ha. apply Ho2. intros k c' Hk Ha'. pose proof (Hap 0%nat (S k) c c' a eq_refl Hk Ha Ha'). done.
    + rewrite Nat.add_succ_r. by apply (Hfo k).
  - intros a Ha. rewrite Ho2 by (intros k c' Hk; by apply (Ha (S k))). apply Hout. by apply (Ha 0%nat).
Qed.
End decide.

(** ** The contract of [assign] *)

(** The weights of the edges, by pair. *)
Definition weights_of (edges : list Edge) : Weights :=
  list_to_map ((λ e, ((e_left e, e_right e), e_weight e)) <$> edges).

(** What a result says of its components and of every record of each side. *)
Record assigned (lefts rights : list string) (w : Weights) (margin max_component : Z) (result : AResult) : Prop := {
  as_left : d_id <$> r_left result = sorted lefts;
  as_right : d_id <$> r_right result = sorted rights;
  as_component c : c ∈ r_components result → weighed w max_component c ∧
    NoDup (c_left c) ∧ NoDup (c_right c) ∧
    (∀ a, a ∈ nodes (c_left c, c_right c) → ∀ b, b ∈ nodes (c_left c, c_right c) ↔ rtc (adj w) a b) ∧
    ∃ x y, is_Some (w !! (x, y)) ∧ x ∈ c_left c ∧ y ∈ c_right c;
  as_apart i j c c' a : r_components result !! i = Some c → r_components result !! j = Some c' →
    a ∈ nodes (c_left c, c_right c) → a ∈ nodes (c_left c', c_right c') → i = j;
  as_decision_left d : d ∈ r_left result →
    match d_component d with
    | None => d_status d = NO_CANDIDATE ∧ d_partner d = None ∧ ∀ y, w !! (d_id d, y) = None
    | Some i => ∃ c, r_components result !! i = Some c ∧ d_id d ∈ c_left c ∧
        decided_left w margin c (d_id d) (d_status d, d_partner d)
    end;
  as_decision_right d : d ∈ r_right result →
    match d_component d with
    | None => d_status d = NO_CANDIDATE ∧ d_partner d = None ∧ ∀ x, w !! (x, d_id d) = None
    | Some i => ∃ c, r_components result !! i = Some c ∧ d_id d ∈ c_right c ∧
        decided_right w margin c (d_id d) (d_status d, d_partner d)
    end
}.

Lemma validate_edges_weights lefts rights edges w0 w : NoDup ((λ e, (e_left e, e_right e)) <$> edges) →
  fold_res (validate_edge lefts rights) edges w0 = Ok w → w = weights_of edges ∪ w0.
Proof.
  revert w0. induction edges as [|e edges IH]; intros w0 Hn H; cbn [fold_res] in H.
  { injection H as <-. unfold weights_of. simpl. by rewrite (left_id_L ∅ (∪)). }
  rewrite fmap_cons in Hn. apply NoDup_cons in Hn as [Hnew Hn].
  apply bind_Ok in H as (w1 & H1 & H). apply IH in H; [|done]. subst w.
  unfold validate_edge in H1. inv_res. subst w1. unfold weights_of. rewrite fmap_cons. cbn [list_to_map foldr fst snd].
  rewrite <- insert_union_l, insert_union_r; [done|]. apply not_elem_of_list_to_map_1.
  rewrite <- list_fmap_compose. exact Hnew.
Qed.
Lemma weights_of_spec edges x y n : NoDup ((λ e, (e_left e, e_right e)) <$> edges) →
  weights_of edges !! (x, y) = Some n ↔ mkEdge x y n ∈ edges.
Proof.
  intros Hn. unfold weights_of. rewrite <- elem_of_list_to_map by (rewrite <- list_fmap_compose; exact Hn).
  rewrite list_elem_of_fmap. split.
  - by intros ([l r k] & [= -> -> ->] & He).
  - intros He. by exists (mkEdge x y n).
Qed.

(** The decisions of one side, read off the filed components. *)
Lemma decisions_filed (side : string) (w : Weights) (margin mc : Z) (comps : list Component) (d : Decisions) (ids : list string)
    (in_comp : Component → list string) (said : Component → string → Status * option string → Prop) :
  (∀ k c, comps !! k = Some c → filed_component w margin mc k c d) →
  (∀ k c x, filed_component w margin mc k c d → x ∈ in_comp c →
     ∃ s, d !! (side, x) = Some (mkADecision x s.1 s.2 (Some k)) ∧ said c x s) →
  (∀ x, (∀ k c, comps !! k = Some c → x ∉ in_comp c) → d !! (side, x) = None) →
  (∀ x, (∃ k c, comps !! k = Some c ∧ x ∈ in_comp c) ∨ ∀ k c, comps !! k = Some c → x ∉ in_comp c) →
  d_id <$> (_decision d side <$> ids) = ids ∧
  ∀ a, a ∈ _decision d side <$> ids →
    match d_component a with
    | None => d_status a = NO_CANDIDATE ∧ d_partner a = None ∧ ∀ k c, comps !! k = Some c → d_id a ∉ in_comp c
    | Some i => ∃ c, comps !! i = Some c ∧ d_id a ∈ in_comp c ∧ said c (d_id a) (d_status a, d_partner a)
    end.
Proof.
  intros Hf Hin Hout Hcase.
  assert (∀ x, d_id (_decision d side x) = x ∧
    match d_component (_decision d side x) with
    | None => d_status (_decision d side x) = NO_CANDIDATE ∧ d_partner (_decision d side x) = None ∧
        ∀ k c, comps !! k = Some c → x ∉ in_comp c
    | Some i => ∃ c, comps !! i = Some c ∧ x ∈ in_comp c ∧
        said c x (d_status (_decision d side x), d_partner (_decision d side x))
    end) as H.
  { intros x. unfold _decision. destruct (Hcase x) as [(k & c & Hk & Hx)|Hno].
    - destruct (Hin k c x (Hf k c Hk) Hx) as ([st p] & -> & Hs). simpl. eauto.
    - by rewrite (Hout x Hno). }
  split.
  - rewrite <- list_fmap_compose. rewrite <- (list_fmap_id ids) at 2. apply list_fmap_ext. intros _ x _. apply H.
  - intros a (x & -> & _)%list_elem_of_fmap. destruct (H x) as [-> Hx]. exact Hx.
Qed.

Lemma assign_ok lefts rights edges margin max_component :
  0 <= margin → 1 <= max_component → NoDup lefts → NoDup rights →
  NoDup ((λ e, (e_left e, e_right e)) <$> edges) →
  (∀ e, e ∈ edges → e_left e ∈ lefts ∧ e_right e ∈ rights ∧ 1 <= e_weight e <= MAX_WEIGHT) →
  ∃ result, assign lefts rights edges margin max_component = Ok result ∧
    assigned lefts rights (weights_of edges) margin max_component result.
Proof.
  intros Hm Hc Hl Hr He Hes. unfold assign, _validated.
  rewrite (proj2 (Z.leb_le 0 margin)), (proj2 (Z.leb_le 1 max_component)) by done.
  rewrite !bool_decide_eq_true_2 by done. cbn [check mbind res_bind].
  destruct (validate_edges_ok lefts rights edges ∅ He) as [w Ew].
  { intros e Hin. destruct (Hes e Hin) as (? & ? & ?). by rewrite lookup_empty. }
  rewrite Ew. apply validate_edges_weights in Ew as ->; [|done]. rewrite (right_id_L ∅ (∪)). set (w := weights_of edges).
  cbn [mbind res_bind]. destruct (components_spec w) as (Hok & Hdom & Hap).
  destruct (assign_components_filed w margin max_component) with (cs := _components w) (n := 0%nat)
    (d := (∅ : Decisions)) (comps := @nil Component) as (d & out & -> & Eout & Hf & Hno); [|done..|].
  { intros [x y] n Hn%weights_of_spec; [|done]. apply Hes in Hn as (_ & _ & Hn). simpl in Hn. lia. }
  cbn [mbind res_bind app]. eexists. split; [reflexivity|]. subst w. set (w := weights_of edges) in *.
  assert (∀ k c, _components w !! k = Some c → ∃ comp, out !! k = Some comp ∧ (c_left comp, c_right comp) = c) as Hto.
  { intros k c Hk. rewrite <- Eout, list_lookup_fmap in Hk. destruct (out !! k); simplify_eq/=. eauto. }
  assert (∀ k comp, out !! k = Some comp → _components w !! k = Some (c_left comp, c_right comp)) as Hfrom.
  { intros k comp Hk. by rewrite <- Eout, list_lookup_fmap, Hk. }
  assert (∀ a, (∃ k c, out !! k = Some c ∧ a ∈ nodes (c_left c, c_right c)) ∨
               ∀ k c, out !! k = Some c → a ∉ nodes (c_left c, c_right c)) as Hcase.
  { intros a. destruct (decide (a ∈ dom (neighbours w))) as [Ha|Ha]; [left|right].
    - destruct (Hdom a Ha) as (k & c & Hk & Hc'). destruct (Hto k c Hk) as (comp & ? & <-). eauto.
    - intros k c Hk Hn. apply Ha. eapply component_dom; [|done]. eapply Hok. by apply Hfrom. }
  assert (∀ a, (∀ k c, out !! k = Some c → a ∉ nodes (c_left c, c_right c)) → d !! a = None) as Hnone.
  { intros a Ha. rewrite Hno; [done|]. intros k c Hk. destruct (Hto k c Hk) as (comp & Hk' & <-). by eapply Ha. }
  destruct (decisions_filed L w margin max_component out d (sorted lefts) c_left (decided_left w margin) Hf)
    as [Il Dl].
  { intros k c x Hk. by apply (fc_left _ _ _ _ _ _ Hk). }
  { intros x Hx. apply Hnone. intros k c Hk Hn%elem_of_nodes_l. by eapply Hx. }
  { intros x. destruct (Hcase (L, x)) as [(k & c & Hk & Hn%elem_of_nodes_l)|H]; [by left; eauto|right].
    intros k c Hk Hx. eapply H; [done|]. by apply elem_of_nodes_l. }
  destruct (decisions_filed R w margin max_component out d (sorted rights) c_right (decided_right w margin) Hf)
    as [Ir Dr].
  { intros k c x Hk. by apply (fc_right _ _ _ _ _ _ Hk). }
  { intros x Hx. apply Hnone. intros k c Hk Hn%elem_of_nodes_r. by eapply Hx. }
  { intros x. destruct (Hcase (R, x)) as [(k & c & Hk & Hn%elem_of_nodes_r)|H]; [by left; eauto|right].
    intros k c Hk Hx. eapply H; [done|]. by apply elem_of_nodes_r. }
  assert (∀ x y k c, w !! (x, y) ≠ None → out !! k = Some c → (x ∈ c_left c ↔ y ∈ c_right c)) as Hedge.
  { intros x y k c Hn Hk. pose proof (Hok k _ (Hfrom k c Hk)) as Hco.
    assert (adj w (L, x) (R, y)) as Ha by by apply adj_edge, not_eq_None_Some.
    split; intros Hx.
    - change (c_right c) with (c_left c, c_right c).2. apply elem_of_nodes_r.
      eapply (component_linked w _ (L, x)); [done|by apply elem_of_nodes_l|by apply rtc_once].
    - change (c_left c) with (c_left c, c_right c).1. apply elem_of_nodes_l.
      eapply (component_linked w _ (R, y)); [done|by apply elem_of_nodes_r|by apply rtc_once, adj_sym]. }
  split; simpl; [done|done| | | |].
  2: { intros i j c c' a Hi Hj. by apply (Hap i j _ _ a (Hfrom _ _ Hi) (Hfrom _ _ Hj)). }
  - intros c (k & Hk)%list_elem_of_lookup. split; [by apply (fc_weighed _ _ _ _ _ _ (Hf k c Hk))|].
    pose proof (Hok k _ (Hfrom k c Hk)) as Hco. split; [by apply (co_left _ _ Hco)|]. split; [by apply (co_right _ _ Hco)|].
    split; [intros a Ha; by apply component_linked|]. by apply (component_edge w _ Hco).
  - intros a Ha. specialize (Dl a Ha). destruct (d_component a); [done|]. destruct Dl as (? & ? & Hx).
    split_and!; [done..|]. intros y. apply eq_None_not_Some. intros Hs.
    destruct (Hcase (L, d_id a)) as [(k & c & Hk & Hn%elem_of_nodes_l)|H1]; [by eapply Hx|].
    assert ((L, d_id a) ∈ dom (neighbours w)) as Hd by (apply dom_neighbours; exists (R, y); by apply adj_edge).
    destruct (Hdom _ Hd) as (k & c & Hk & Hn). destruct (Hto k c Hk) as (comp & Hk' & <-). by eapply H1.
  - intros a Ha. specialize (Dr a Ha). destruct (d_component a); [done|]. destruct Dr as (? & ? & Hx).
    split_and!; [done..|]. intros x. apply eq_None_not_Some. intros Hs.
    assert ((R, d_id a) ∈ dom (neighbours w)) as Hd by (apply dom_neighbours; exists (L, x); by apply adj_sym, adj_edge).
    destruct (Hdom _ Hd) as (k & c & Hk & Hn). destruct (Hto k c Hk) as (comp & Hk' & <-).
    eapply Hx; [done|]. by apply elem_of_nodes_r in Hn.
Qed.

(** ** What the clients use *)

Section clients.
Context {lefts rights : list string} {w : Weights} {margin max_component : Z} {result : AResult}.
Hypothesis Ha : assigned lefts rights w margin max_component result.
Hypothesis margin_pos : 0 <= margin.

(** There are no more components than left records. *)
Lemma components_length : (∀ x y, is_Some (w !! (x, y)) → x ∈ lefts) →
  (length (r_components result) <= length lefts)%nat.
Proof using Ha.
  intros Hl. assert (∀ cs, (∀ c, c ∈ cs → ∃ x, x ∈ c_left c ∧ x ∈ lefts) →
    ∃ xs, Forall2 (λ c x, x ∈ c_left c ∧ x ∈ lefts) cs xs) as Hpick.
  { induction cs as [|c cs IH]; intros H; [exists []; constructor|].
    destruct (H c ltac:(left)) as [x Hx]. destruct IH as [xs Hxs]; [intros; apply H; by right|].
    exists (x :: xs). by constructor. }
  destruct (Hpick (r_components result)) as [xs Hxs].
  { intros c Hc. destruct (as_component _ _ _ _ _ _ Ha c Hc) as (_ & _ & _ & _ & x & y & Hxy & Hx & _). eauto. }
  rewrite (Forall2_length _ _ _ Hxs). apply submseteq_length, NoDup_submseteq.
  - apply NoDup_alt. intros i j x Hi Hj.
    destruct (Forall2_lookup_r _ _ _ _ _ Hxs Hi) as (c & Hc & Hx & _), (Forall2_lookup_r _ _ _ _ _ Hxs Hj) as (c' & Hc' & Hx' & _).
    eapply (as_apart _ _ _ _ _ _ Ha i j c c' (L, x)); [done|done|by apply elem_of_nodes_l|by apply elem_of_nodes_l].
  - intros x Hx. apply list_elem_of_lookup in Hx as [i Hi].
    by destruct (Forall2_lookup_r _ _ _ _ _ Hxs Hi) as (c & _ & _ & ?).
Qed.

(** The optimum is one of the near-optimal matchings. *)
Lemma near_exists c best : c ∈ r_components result → c_best c = Some best →
  ∃ f, near (c_left c) (c_right c) w margin best f.
Proof.
  intros Hc Hb. destruct (as_component _ _ _ _ _ _ Ha c Hc) as [Hw _]. unfold weighed in Hw. rewrite Hb in Hw.
  destruct Hw as (_ & (f & Hf & Hbest) & _). exists f. split; [done|lia].
Qed.
(** The status of a decision tells its partner. *)
Lemma said_partner agree s p : says agree (s, p) → (s = MATCHED ∧ ∃ y, p = Some y ∧ agree (Some y)) ∨
  (s = UNMATCHED ∧ p = None) ∨ (s = AMBIGUOUS ∧ p = None).
Proof. destruct s, p; simpl; naive_solver. Qed.
Lemma decided_cases d : d ∈ r_left result → d_status d = MATCHED ∨ d_partner d = None ∧
  (d_status d = UNMATCHED ∨ d_status d = AMBIGUOUS ∨ d_status d = OVERSIZED ∨ d_status d = NO_CANDIDATE).
Proof.
  intros Hd. pose proof (as_decision_left _ _ _ _ _ _ Ha d Hd) as H. destruct (d_component d) as [i|]; [|naive_solver].
  destruct H as (c & _ & _ & H). unfold decided_left in H. destruct (c_best c); [|naive_solver].
  apply said_partner in H. naive_solver.
Qed.

(** A matched record has a partner along an edge, which is matched with it. *)
Lemma matched_left d : (∀ x y, is_Some (w !! (x, y)) → y ∈ rights) → d ∈ r_left result → d_status d = MATCHED →
  ∃ y, d_partner d = Some y ∧ is_Some (w !! (d_id d, y)) ∧
    ∃ e, e ∈ r_right result ∧ d_id e = y ∧ d_status e = MATCHED ∧ d_partner e = Some (d_id d).
Proof.
  intros Hknown Hd Hm. pose proof (as_decision_left _ _ _ _ _ _ Ha d Hd) as H.
  destruct (d_component d) as [i|]; [|destruct H as [H _]; congruence]. destruct H as (c & Hi & Hx & H). unfold decided_left in H.
  destruct (c_best c) as [best|] eqn:Hb; [|congruence]. rewrite Hm in H.
  apply said_partner in H as [(_ & y & -> & Hy)|[[? _]|[? _]]]; [|done..]. exists y. split; [done|].
  destruct (near_exists c best) as [f0 Hf0]; [by eapply list_elem_of_lookup_2|done|].
  destruct (mt_edge _ _ _ _ (proj1 Hf0) (d_id d) y Hx (Hy f0 Hf0)) as [Hyc Hw]. split; [done|].
  assert (y ∈ d_id <$> r_right result) as (e & -> & He)%list_elem_of_fmap.
  { rewrite (as_right _ _ _ _ _ _ Ha). unfold sorted. rewrite elem_of_sorted_by. by eapply Hknown. }
  exists e. split; [done|]. split; [done|]. pose proof (as_decision_right _ _ _ _ _ _ Ha e He) as H.
  destruct (d_component e) as [j|]; [|by destruct H as (_ & _ & Hn); rewrite Hn in Hw; destruct Hw].
  destruct H as (c' & Hj & Hyc' & H).
  assert (i = j) as <- by (eapply (as_apart _ _ _ _ _ _ Ha); [done|done|by apply elem_of_nodes_r|by apply elem_of_nodes_r]).
  rewrite Hi in Hj. injection Hj as <-. unfold decided_right in H. rewrite Hb in H.
  assert (∀ f, near (c_left c) (c_right c) w margin best f → holder_id (c_left c) f (d_id e) = Some (d_id d)) as Hh.
  { destruct (as_component _ _ _ _ _ _ Ha c) as (_ & Hn & _); [by eapply list_elem_of_lookup_2|].
    intros f Hf. apply holder_id_Some with (right_ids := c_right c) (weights := w); [done|apply Hf|done|by apply Hy]. }
  destruct (d_status e), (d_partner e); simpl in H; try done.
  - split; [done|]. by rewrite <- (H f0 Hf0), Hh.
  - specialize (H f0 Hf0). by rewrite Hh in H.
  - by destruct (H _ Hh).
Qed.
(** Two matched records do not share a partner. *)
Lemma partner_inj d d' : NoDup rights → (∀ x y, is_Some (w !! (x, y)) → y ∈ rights) → d ∈ r_left result → d' ∈ r_left result →
  d_status d = MATCHED → d_status d' = MATCHED → d_partner d = d_partner d' → d_id d = d_id d'.
Proof.
  intros Hn Hk Hd Hd' Hm Hm' Hp.
  destruct (matched_left d Hk Hd Hm) as (y & Ey & _ & e & He & Ee & _ & Pe).
  destruct (matched_left d' Hk Hd' Hm') as (y' & Ey' & _ & e' & He' & Ee' & _ & Pe').
  assert (e = e') as <-; [|congruence]. apply (NoDup_fmap_inj d_id (r_right result)); [|done|done|congruence].
  rewrite (as_right _ _ _ _ _ _ Ha). unfold sorted. by rewrite sorted_by_perm.
Qed.
Lemma holder_id_in l (f : string → option string) y x : holder_id l f y = Some x → x ∈ l.
Proof.
  unfold holder_id, holder. intros (k & Hk & ->)%fmap_Some. apply fmap_Some in Hk as ([i z] & Hk & ->).
  apply list_find_Some in Hk as (Hi & _). apply index_elem. by eapply lookup_lt_Some.
Qed.
Lemma matched_right e : (∀ x y, is_Some (w !! (x, y)) → x ∈ lefts) → e ∈ r_right result → d_status e = MATCHED →
  ∃ d, d ∈ r_left result ∧ d_status d = MATCHED ∧ d_partner d = Some (d_id e) ∧ d_partner e = Some (d_id d).
Proof.
  intros Hknown He Hm. pose proof (as_decision_right _ _ _ _ _ _ Ha e He) as H.
  destruct (d_component e) as [i|]; [|destruct H as [H _]; congruence]. destruct H as (c & Hi & Hy & H). unfold decided_right in H.
  destruct (c_best c) as [best|] eqn:Hb; [|congruence]. rewrite Hm in H.
  apply said_partner in H as [(_ & x & -> & Hx)|[[? _]|[? _]]]; [|done..].
  assert (c ∈ r_components result) as Hc by by eapply list_elem_of_lookup_2.
  destruct (as_component _ _ _ _ _ _ Ha c Hc) as (_ & Hn & _).
  destruct (near_exists c best Hc Hb) as [f0 Hf0].
  pose proof (holder_id_in _ _ _ _ (Hx f0 Hf0)) as Hxc.
  assert (∀ f, near (c_left c) (c_right c) w margin best f → f x = Some (d_id e)) as Hf.
  { intros f Hf. eapply (holder_id_Some (c_left c) (c_right c) w); [done|apply Hf|done|by apply Hx]. }
  destruct (mt_edge _ _ _ _ (proj1 Hf0) x (d_id e) Hxc (Hf f0 Hf0)) as [_ Hw].
  assert (x ∈ d_id <$> r_left result) as (d & -> & Hd)%list_elem_of_fmap.
  { rewrite (as_left _ _ _ _ _ _ Ha). unfold sorted. rewrite elem_of_sorted_by. by eapply Hknown. }
  exists d. split; [done|]. pose proof (as_decision_left _ _ _ _ _ _ Ha d Hd) as H.
  destruct (d_component d) as [j|]; [|by destruct H as (_ & _ & Hno); rewrite Hno in Hw; destruct Hw].
  destruct H as (c' & Hj & Hxc' & H).
  assert (i = j) as <- by (eapply (as_apart _ _ _ _ _ _ Ha); [done|done|by apply elem_of_nodes_l|by apply elem_of_nodes_l]).
  rewrite Hi in Hj. injection Hj as <-. unfold decided_left in H. rewrite Hb in H.
  destruct (d_status d), (d_partner d); simpl in H; try done.
  - split_and!; [done| |done]. by rewrite <- (H f0 Hf0), Hf.
  - specialize (H f0 Hf0). by rewrite Hf in H.
  - by destruct (H _ Hf).
Qed.
End clients.

(** ** Guarantees *)

(** C30: the contract of the assignment, end to end.  On valid input it returns; the
    components of the result are the connected components of the candidate graph, no
    record in two of them; each is reported oversized or with the largest worth a matching
    of it can have; each side has one decision per record, in sorted order; a record is
    without a candidate exactly when it has no edge, and otherwise it carries the rank of
    its component and is OVERSIZED with it, or has the one fate that all the matchings
    within the margin of the best give it, AMBIGUOUS when they disagree. *)
Theorem assign_refines lefts rights edges margin max_component :
  0 <= margin → 1 <= max_component → NoDup lefts → NoDup rights →
  NoDup ((λ e, (e_left e, e_right e)) <$> edges) →
  (∀ e, e ∈ edges → e_left e ∈ lefts ∧ e_right e ∈ rights ∧ 1 <= e_weight e <= MAX_WEIGHT) →
  ∃ result, assign lefts rights edges margin max_component = Ok result ∧
    assigned lefts rights (weights_of edges) margin max_component result.
Proof. exact (assign_ok lefts rights edges margin max_component). Qed.

(** Two components, one of them ambiguous, and a record without a candidate. *)
Definition ex_lefts : list string := ["a"; "b"; "c"; "d"]%string.
Definition ex_rights : list string := ["x"; "y"; "z"]%string.
Definition ex_edges : list Edge :=
  [mkEdge "a" "x" 5; mkEdge "b" "x" 5; mkEdge "b" "y" 1; mkEdge "c" "z" 3]%string.
Lemma assign_refines_witness : ∃ result, assign ex_lefts ex_rights ex_edges 2 32 = Ok result ∧
  assigned ex_lefts ex_rights (weights_of ex_edges) 2 32 result.
Proof.
  apply (assign_refines ex_lefts ex_rights ex_edges 2 32); [lia|lia| | | |].
  - unfold ex_lefts. repeat constructor; set_solver.
  - unfold ex_rights. repeat constructor; set_solver.
  - unfold ex_edges. repeat constructor; set_solver.
  - unfold ex_edges, ex_lefts, ex_rights.
    intros e [-> |[-> |[-> |[-> |[]%not_elem_of_nil]%elem_of_cons]%elem_of_cons]%elem_of_cons]%elem_of_cons;
      (split; [set_solver|]; split; [set_solver|]; unfold MAX_WEIGHT; simpl; lia).
Defined.
Example assign_refines_ex :
  match assign ex_lefts ex_rights ex_edges 2 32 with
  | Ok r => (λ d, (d_id d, (d_status d, d_component d))) <$> r_left r =
      [("a", (AMBIGUOUS, Some 0%nat)); ("b", (AMBIGUOUS, Some 0%nat)); ("c", (MATCHED, Some 1%nat));
       ("d", (NO_CANDIDATE, None))]%string
  | Raise _ => False
  end.
Proof. vm_compute. reflexivity. Qed.
