(* ===== verification/CorrelateUnion.v ===== *)
(** * CorrelateUnion: correlating events by time and duration

    [m0-harness/correlate_union.py].  Candidate edges join a left and a right event that
    are close in time and whose durations the engine's tolerant rule ([Rules.m2_tolerant])
    accepts; [assign] decides the components of these edges; the script reads the
    decisions back and scores them against a truth. *)

From Stdlib Require Import SpecFloat QArith.
From S2P Require Import Prelude Numeric Calendar Models Rules Floats Assignment Resolve AssignTheorems.

(** ** Data *)

Definition _PLACEHOLDER_DATE : date := ymd_to_ordinal 2000 1 1.
Definition _WEIGHT_SCALE : Z := 1000000.

Record Event := mkEvent { ev_id : string; ev_t : Z; ev_duration_ns : Z }.
Global Instance Event_eq_dec : EqDecision Event.
Proof. solve_decision. Defined.
Record Result := mkResult {
  cr_matches : list Match;
  cr_ambiguous : gset string;
  cr_oversized : gset string;
  cr_component_sizes : list Z;
  cr_candidates : gmap string (gset string)
}.

(** ** Candidate edges *)

Definition _record (e : Event) : Rec :=
  mkRec (ev_id e) "1" (of_int (ev_duration_ns e)) _PLACEHOLDER_DATE None None.
(** The edges of one left event; [rights] is sorted by time. *)
Definition left_edges (rights : list Event) (window : Z) (tol : Tolerance) (left : Event) : res (list Match) :=
  let times := ev_t <$> rights in
  let right_records := _record <$> rights in
  let lo := bisect_left times (ev_t left - window) in
  let hi := bisect_right times (ev_t left + window) in
  m2_tolerant [_record left] (slice lo hi right_records) tol.
Definition candidate_edges (lefts rights : list Event) (window : Z) (tol : Tolerance) : res (list Match) :=
  let rights := sorted_by (λ e, (ev_t e, ev_id e)) rights in
  concat_res (left_edges rights window tol) (sorted_by ev_id lefts).

(** ** Correlation *)

(** [int(d)] of a decimal: towards zero. *)
Definition int_of_decimal (d : decimal) : Z :=
  if 0 <=? dexp d then dint d * 10 ^ dexp d else Z.quot (dint d) (10 ^ (- dexp d)).
(** [int(score * _WEIGHT_SCALE)] *)
Definition scaled (score : decimal) : Z := int_of_decimal (dmul score (of_int _WEIGHT_SCALE)).

(** [{(e.left_id, e.right_ids[0]): e for e in edges}] *)
Definition by_pair (edges : list Match) : res (odict (string * string) Match) :=
  fold_res (λ d e, right ← get (head (right_ids e)) IndexError; Ok (od_set (left_id e, right) e d)) edges [].
(** [result.candidates.setdefault(left, set()).add(right)] *)
Definition add_candidate (c : gmap string (gset string)) (pair : string * string) : gmap string (gset string) :=
  <[pair.1 := {[pair.2]} ∪ default ∅ (c !! pair.1)]> c.
(** One decision read back into the result. *)
Definition read_decision (pairs : odict (string * string) Match) (r : Result) (d : ADecision) : res Result :=
  let '(mkResult matches ambiguous oversized sizes candidates) := r in
  match d_status d with
  | MATCHED =>
      partner ← get (d_partner d) KeyError;
      m ← get (od_get (d_id d, partner) pairs) KeyError;
      Ok (mkResult (matches ++ [m]) ambiguous oversized sizes candidates)
  | AMBIGUOUS => Ok (mkResult matches ({[d_id d]} ∪ ambiguous) oversized sizes candidates)
  | OVERSIZED => Ok (mkResult matches ambiguous ({[d_id d]} ∪ oversized) sizes candidates)
  | _ => Ok r
  end.
Definition correlate (lefts rights : list Event) (window : Z) (tol : Tolerance) (max_component : Z) (margin : decimal)
    : res Result :=
  edges ← candidate_edges lefts rights window tol;
  pairs ← by_pair edges;
  let candidates := foldl add_candidate ∅ pairs.*1 in
  decided ← assign (ev_id <$> lefts) (ev_id <$> rights)
    ((λ e, mkEdge e.1.1 e.1.2 (scaled (score e.2))) <$> pairs) (scaled margin) max_component;
  let sizes := (λ c, Z.of_nat (length (c_left c)) + Z.of_nat (length (c_right c))) <$> r_components decided in
  fold_res (read_decision pairs) (r_left decided) (mkResult [] ∅ ∅ sizes candidates).

(** ** Scoring *)

Definition _percentile (values : list Z) (q : float) : res Z :=
  match values with
  | [] => Ok 0
  | _ =>
      let ordered := sorted values in
      c ← ceil (fmul q (float_of_int (Z.of_nat (length ordered))));
      get (ordered !! Z.to_nat (Z.max 0 (c - 1))) IndexError
  end.
Record Evaluation := mkEvaluation {
  ce_total_left : Z;
  ce_R : float;
  ce_T : float;
  ce_matched : Z;
  ce_wrong : Z;
  ce_ambiguous : Z;
  ce_oversized : Z;
  ce_no_candidate : Z;
  ce_component_p50 : Z;
  ce_component_p95 : Z;
  ce_component_max : Z
}.
(** [x / total if total else 0.0] *)
Definition share (x total : Z) : float :=
  if total =? 0 then S754_zero false else fdiv (float_of_int x) (float_of_int total).
Definition evaluate (result : Result) (truth : gmap string string) (total_left : Z) : res Evaluation :=
  let recalled := Z.of_nat (length (List.filter (λ e,
    bool_decide (e.2 ∈ default ∅ (cr_candidates result !! e.1))) (map_to_list truth))) in
  rights ← map_res (λ m, right ← get (head (right_ids m)) IndexError; Ok (left_id m, right : string)) (cr_matches result);
  let correct := Z.of_nat (length (List.filter (λ e, bool_decide (truth !! e.1 = Some e.2)) rights)) in
  p50 ← _percentile (cr_component_sizes result) (fdiv (float_of_int 50) (float_of_int 100));
  p95 ← _percentile (cr_component_sizes result) (fdiv (float_of_int 95) (float_of_int 100));
  let matched := Z.of_nat (length (cr_matches result)) in
  Ok (mkEvaluation total_left (share recalled total_left) (share correct total_left) matched (matched - correct)
    (Z.of_nat (size (cr_ambiguous result))) (Z.of_nat (size (cr_oversized result)))
    (total_left - Z.of_nat (size (cr_candidates result))) p50 p95 (foldl Z.max 0 (cr_component_sizes result))).

(** Two events each side; the second left could be either right. *)
Definition ex_tol : Tolerance := mkTolerance (of_int 500) d0 0 1 50.
Definition ex_lefts : list Event := [mkEvent "l1" 10 1000; mkEvent "l2" 100 5000; mkEvent "l3" 101 5000].
Definition ex_rights : list Event := [mkEvent "r1" 12 1100; mkEvent "r2" 103 5000; mkEvent "r3" 900 5000].
Example correlate_ex :
  (r ← correlate ex_lefts ex_rights 5 ex_tol 32 d0;
   e ← evaluate r {["l1" := "r1"; "l2" := "r2"]}%string 3;
   Ok ((λ m, (left_id m, right_ids m)) <$> cr_matches r, elements (cr_ambiguous r), cr_component_sizes r,
      (ce_matched e, ce_wrong e, ce_no_candidate e, ce_component_p95 e))) =
  Ok ([("l1", ["r1"])], ["l3"; "l2"], [2; 3], (1, 0, 0, 3))%string.
Proof. vm_compute. reflexivity. Qed.

(** ** Lemmas: a score is a whole number of quanta *)

Lemma quantize_exp x q r : quantize x q = Ok r → dexp r = dexp q.
Proof.
  unfold quantize. destruct (dzero x); [by intros [= <-]|]. destruct (_ <? _); [done|].
  destruct (_ <? _)%nat; [done|]. intros [= <-]. unfold rescale. by destruct (_ <=? _).
Qed.
Lemma score_exp r residual limit gap tol size s : _score r residual limit gap tol size = Ok s → dexp s = -6.
Proof.
  unfold _score. intros H. apply bind_Ok in H as (p1 & _ & H). apply bind_Ok in H as (p2 & _ & H).
  by apply quantize_exp in H.
Qed.
(** [int(score * 1_000_000)] is exact. *)
Lemma scaled_exact s : dexp s = -6 → (dcoef s < 10 ^ 22)%N → scaled s = dint s.
Proof.
  intros He Hc. unfold scaled, dmul. rewrite fix_short.
  - unfold int_of_decimal, dmul_exact, of_int, _WEIGHT_SCALE, dint. cbn [dneg dcoef dexp]. rewrite He.
    change (0 <=? -6 + 0) with false. cbn [Z.ltb Z.compare xorb]. rewrite N2Z.inj_mul.
    change (Z.of_N (Z.abs_N 1000000)) with 1000000. change (10 ^ - (-6 + 0)) with 1000000.
    destruct (dneg s); cbn [xorb]; [rewrite <- Z.mul_opp_l|]; by rewrite Z.quot_mul.
  - unfold dmul_exact, of_int, _WEIGHT_SCALE. cbn [dcoef]. apply ndigits_le; [|unfold PREC; simpl; lia].
    change (10 ^ N.of_nat PREC)%N with (10 ^ 22 * 10 ^ 6)%N. change (Z.abs_N 1000000) with (10 ^ 6)%N. lia.
Qed.
Lemma quanta_le_cents z c : (inject_Z z * p10 (-6) <= cents c)%Q → z <= c * 10000.
Proof.
  intros H. apply (inject_Z_mult_le_inv _ _ (p10 (-6))); [apply p10_pos|].
  eapply Qle_trans; [exact H|]. pose proof (cents_quanta c) as E. change (dexp _QUANTUM) with (-6) in E.
  rewrite E. apply Qle_refl.
Qed.
Lemma cents_le_quanta z c : (cents c <= inject_Z z * p10 (-6))%Q → c * 10000 <= z.
Proof.
  intros H. apply (inject_Z_mult_le_inv _ _ (p10 (-6))); [apply p10_pos|].
  eapply Qle_trans; [|exact H]. pose proof (cents_quanta c) as E. change (dexp _QUANTUM) with (-6) in E.
  rewrite E. apply Qle_refl.
Qed.

(** ** Lemmas: candidate edges *)

(** Close in time, and in duration. *)
Definition compatible (window : Z) (tol : Tolerance) (a b : Event) : Prop :=
  Z.abs (ev_t a - ev_t b) <= window ∧ within tol (_record a) (amount (_record b)) ∧ 0 <= date_days tol.
Definition pair_score (tol : Tolerance) (a b : Event) : res decimal :=
  _score M2_TOLERANT (dsub (amount (_record a)) (amount (_record b))) (amount_tolerance (amount (_record a)) tol) 0 tol 1.
Definition pair_match (a b : Event) (s : decimal) : Match :=
  mkMatch (ev_id a) [ev_id b] M2_TOLERANT s (dsub (amount (_record a)) (amount (_record b))) 0.

Lemma pair_score_ok window tol a b : compatible window tol a b → ∃ s, pair_score tol a b = Ok s ∧
  (dval s == inject_Z (scaled s) * p10 (-6))%Q ∧ 1 <= scaled s <= MAX_WEIGHT.
Proof.
  intros (_ & Hw & Hd). unfold pair_score.
  destruct (score_bounds M2_TOLERANT (dsub (amount (_record a)) (amount (_record b))) (amount_tolerance (amount (_record a)) tol) 0 tol 1)
    as (s & Es & Hlo & Hhi); [done|lia|lia|lia|]. exists s. split; [done|].
  pose proof (score_exp _ _ _ _ _ _ _ Es) as He. unfold dval in Hlo, Hhi. rewrite He in Hlo, Hhi.
  apply cents_le_quanta in Hlo. apply quanta_le_cents in Hhi.
  assert (penalty_cents (amount_tolerance (amount (_record a)) tol) tol <= 10).
  { unfold penalty_cents. destruct (ltb _ _), (_ <? _); lia. }
  cbn [base_cents] in Hlo, Hhi.
  rewrite scaled_exact; [|done|unfold dint in Hlo, Hhi; destruct (dneg s); lia].
  split; [unfold dval; by rewrite He|unfold MAX_WEIGHT; lia].
Qed.

Lemma m2_total lefts rights tol : ∃ out, m2_tolerant lefts rights tol = Ok out.
Proof.
  unfold m2_tolerant. apply concat_res_total. intros l _. apply concat_res_total. intros r _. apply m2_pair_total.
Qed.
Lemma slice_fmap {A B} (f : A → B) i j l : slice i j (f <$> l) = f <$> slice i j l.
Proof. unfold slice. by rewrite fmap_take, fmap_drop. Qed.
Lemma left_edges_spec rights window tol a out m :
  left_edges (sorted_by (λ e, (ev_t e, ev_id e)) rights) window tol a = Ok out →
  m ∈ out ↔ ∃ b s, b ∈ rights ∧ compatible window tol a b ∧ pair_score tol a b = Ok s ∧ m = pair_match a b s.
Proof.
  unfold left_edges. intros H. rewrite (m2_tolerant_spec _ _ _ _ _ H). setoid_rewrite list_elem_of_singleton.
  rewrite slice_fmap, slice_between.
  2: { eapply StronglySorted_weaken; [|apply (sorted_by_sorted (λ e, (ev_t e, ev_id e)))].
       intros x y Hxy. by apply cmp_le_fst in Hxy. }
  assert (∀ b, _date_gap (value_date (_record a)) (value_date (_record b)) = 0) as Eg by done. split.
  - intros (l & -> & Ha & Hm). destruct Ha as [| |r s Hr Hw Hn Hs|]; try discriminate Hm.
    apply list_elem_of_fmap in Hr as (b & -> & Hb). apply elem_of_filter_bool in Hb as [Hb Ht].
    rewrite elem_of_sorted_by in Hb. apply andb_true_iff in Ht as [Ht1%Z.leb_le Ht2%Z.leb_le].
    unfold near in Hn. rewrite Eg in *. exists b, s. unfold compatible, pair_match. split_and!; [done|lia|done|done|done|done].
  - intros (b & s & Hb & (Ht & Hw & Hd) & Hs & ->). exists (_record a). split; [done|]. split; [|done].
    apply (admits_m2 tol _ (_record a) (_record b) s); [|done|done|done].
    apply list_elem_of_fmap. exists b. split; [done|]. apply elem_of_filter_bool. rewrite elem_of_sorted_by.
    split; [done|]. apply andb_true_iff. rewrite !Z.leb_le. lia.
Qed.
Lemma candidate_edges_spec lefts rights window tol : ∃ edges, candidate_edges lefts rights window tol = Ok edges ∧
  ∀ m, m ∈ edges ↔ ∃ a b s, a ∈ lefts ∧ b ∈ rights ∧ compatible window tol a b ∧ pair_score tol a b = Ok s ∧ m = pair_match a b s.
Proof.
  unfold candidate_edges. set (rs := sorted_by _ rights).
  assert (∀ a, ∃ out, left_edges rs window tol a = Ok out) as Ht by (intros a; apply m2_total).
  destruct (concat_res_total (left_edges rs window tol) (sorted_by ev_id lefts)) as [edges E]; [by intros|].
  exists edges. split; [done|]. intros m. rewrite (concat_res_elem _ _ _ _ E). setoid_rewrite elem_of_sorted_by. split.
  - intros (a & out & Ha & H & Hm). apply (left_edges_spec rights window tol a out m H) in Hm as (b & s & ?).
    exists a, b, s. naive_solver.
  - intros (a & b & s & Ha & Hb & Hrest). destruct (Ht a) as [out H]. exists a, out. split; [done|]. split; [done|].
    apply (left_edges_spec rights window tol a out m H). eauto.
Qed.

(** ** Lemmas: pairs and candidates *)

(** The edges as a dictionary: every pair once, with one of its edges. *)
Lemma by_pair_spec edges : (∀ m, m ∈ edges → ∃ y, right_ids m = [y]) → ∃ pairs, by_pair edges = Ok pairs ∧
  NoDup pairs.*1 ∧ (∀ e, e ∈ pairs → e.2 ∈ edges ∧ left_id e.2 = e.1.1 ∧ right_ids e.2 = [e.1.2]) ∧
  ∀ m y, m ∈ edges → right_ids m = [y] → (left_id m, y) ∈ pairs.*1.
Proof.
  intros Hr. unfold by_pair. induction edges as [|m edges IH] using rev_ind.
  { exists []. split_and!; [done|constructor|by intros ? ?%not_elem_of_nil|by intros ? ? ?%not_elem_of_nil]. }
  destruct IH as (pairs & E & Hn & Hin & Hall); [intros; apply Hr; set_solver|].
  destruct (Hr m) as [y Ey]; [set_solver|]. rewrite fold_res_app, E. cbn [mbind res_bind fold_res]. rewrite Ey.
  cbn [head get mbind res_bind]. eexists. split; [reflexivity|]. split; [by apply od_set_NoDup|]. split.
  - intros e [-> |He]%od_set_elem; simpl; [set_solver|]. destruct (Hin e He) as (? & ? & ?). set_solver.
  - intros m' y'. rewrite elem_of_app, list_elem_of_singleton, od_set_keys. intros [Hm| ->] Ey'; [right; by apply Hall|].
    left. congruence.
Qed.
Lemma candidates_foldl pairs c x y : y ∈ default ∅ (foldl add_candidate c pairs !! x) ↔
  y ∈ default ∅ (c !! x) ∨ (x, y) ∈ pairs.
Proof.
  revert c. induction pairs as [|[a b] pairs IH]; intros c; simpl; [set_solver|].
  rewrite IH, elem_of_cons. unfold add_candidate. simpl. destruct (decide (a = x)) as [-> |Hne].
  - rewrite lookup_insert_eq. simpl. set_solver.
  - rewrite lookup_insert_ne by done. set_solver.
Qed.

(** ** The contract of [correlate] *)

(** What the script's result says, over the decisions of an assignment whose edges are
    the compatible pairs, each weighing its score in millionths. *)
Record correlated (lefts rights : list Event) (window : Z) (tol : Tolerance) (max_component margin : Z)
    (result : Result) : Prop := {
  cx_candidates x y : y ∈ default ∅ (cr_candidates result !! x) ↔
    ∃ a b, a ∈ lefts ∧ b ∈ rights ∧ ev_id a = x ∧ ev_id b = y ∧ compatible window tol a b;
  cx_decided : ∃ w decided, assigned (ev_id <$> lefts) (ev_id <$> rights) w margin max_component decided ∧
    (∀ x y n, w !! (x, y) = Some n ↔ ∃ a b s, a ∈ lefts ∧ b ∈ rights ∧ ev_id a = x ∧ ev_id b = y ∧
       compatible window tol a b ∧ pair_score tol a b = Ok s ∧ (dval s == inject_Z n * p10 (-6))%Q) ∧
    (∀ x y, (∃ m, m ∈ cr_matches result ∧ left_id m = x ∧ right_ids m = [y]) ↔
       ∃ d, d ∈ r_left decided ∧ d_id d = x ∧ d_status d = MATCHED ∧ d_partner d = Some y) ∧
    (∀ x, x ∈ cr_ambiguous result ↔ ∃ d, d ∈ r_left decided ∧ d_id d = x ∧ d_status d = AMBIGUOUS) ∧
    (∀ x, x ∈ cr_oversized result ↔ ∃ d, d ∈ r_left decided ∧ d_id d = x ∧ d_status d = OVERSIZED);
  cx_left_once : NoDup (left_id <$> cr_matches result);
  cx_right_once : NoDup (mjoin (right_ids <$> cr_matches result))
}.

(** The decisions read back one by one. *)
Record read_so_far (pairs : odict (string * string) Match) (done : list ADecision) (r0 r : Result) : Prop := {
  rs_matches : Forall2 (λ m d, left_id m = d_id d ∧ ∃ y, d_partner d = Some y ∧ right_ids m = [y])
    (cr_matches r) (List.filter (λ d, bool_decide (d_status d = MATCHED)) done);
  rs_ambiguous x : x ∈ cr_ambiguous r ↔ ∃ d, d ∈ done ∧ d_id d = x ∧ d_status d = AMBIGUOUS;
  rs_oversized x : x ∈ cr_oversized r ↔ ∃ d, d ∈ done ∧ d_id d = x ∧ d_status d = OVERSIZED;
  rs_candidates : cr_candidates r = cr_candidates r0
}.
Lemma read_decisions pairs ds sizes candidates :
  (∀ e, e ∈ pairs → left_id e.2 = e.1.1 ∧ right_ids e.2 = [e.1.2]) →
  (∀ d, d ∈ ds → d_status d = MATCHED → ∃ y, d_partner d = Some y ∧ (d_id d, y) ∈ pairs.*1) →
  ∃ r, fold_res (read_decision pairs) ds (mkResult [] ∅ ∅ sizes candidates) = Ok r ∧
    read_so_far pairs ds (mkResult [] ∅ ∅ sizes candidates) r.
Proof.
  intros Hp. set (r0 := mkResult _ _ _ _ _). induction ds as [|d ds IH] using rev_ind; intros Hd.
  { exists r0. split; [done|]. split; simpl; [constructor|set_solver|set_solver|done]. }
  destruct IH as (r & E & [Hm Ha Ho Hc]); [intros; apply Hd; set_solver|].
  rewrite fold_res_app, E. cbn [mbind res_bind fold_res]. destruct r as [ms amb ov sz cs]. simpl in *.
  assert (∀ s x, (∃ d', d' ∈ ds ++ [d] ∧ d_id d' = x ∧ d_status d' = s) ↔
    (∃ d', d' ∈ ds ∧ d_id d' = x ∧ d_status d' = s) ∨ d_id d = x ∧ d_status d = s) as Hs.
  { intros s x. setoid_rewrite elem_of_app. setoid_rewrite list_elem_of_singleton. naive_solver. }
  assert (d_status d ≠ MATCHED → List.filter (λ d, bool_decide (d_status d = MATCHED)) (ds ++ [d]) =
    List.filter (λ d, bool_decide (d_status d = MATCHED)) ds) as Hf.
  { intros Hne. rewrite List.filter_app. simpl. by rewrite bool_decide_eq_false_2, app_nil_r. }
  unfold read_decision. destruct (d_status d) eqn:Es; [|eexists; (split; [reflexivity|]); split; simpl;
    [by rewrite Hf| | |done]; intros x; rewrite Hs, ?elem_of_union, ?elem_of_singleton, ?Ha, ?Ho; naive_solver..].
  destruct (Hd d) as (y & Ey & Hy); [set_solver|done|]. rewrite Ey. cbn [get mbind res_bind].
  destruct (od_get_Some _ _ Hy) as [m Em]. rewrite Em. cbn [get mbind res_bind].
  apply od_get_elem, Hp in Em as [E1 E2]. simpl in E1, E2. eexists. split; [reflexivity|]. split; simpl.
  - rewrite List.filter_app. apply Forall2_app; [done|]. simpl. rewrite bool_decide_eq_true_2 by done.
    constructor; [|constructor]. eauto.
  - intros x. rewrite Hs, Ha. naive_solver.
  - intros x. rewrite Hs, Ho. naive_solver.
  - done.
Qed.

Lemma pair_weights lefts rights window tol (edges : list Match) (pairs : odict (string * string) Match) x y n :
  NoDup (ev_id <$> lefts) → NoDup (ev_id <$> rights) →
  (∀ m, m ∈ edges ↔ ∃ a b s, a ∈ lefts ∧ b ∈ rights ∧ compatible window tol a b ∧ pair_score tol a b = Ok s ∧ m = pair_match a b s) →
  (∀ e, e ∈ pairs → e.2 ∈ edges ∧ left_id e.2 = e.1.1 ∧ right_ids e.2 = [e.1.2]) →
  (∀ m y, m ∈ edges → right_ids m = [y] → (left_id m, y) ∈ pairs.*1) →
  mkEdge x y n ∈ (λ e : string * string * Match, mkEdge e.1.1 e.1.2 (scaled (score e.2))) <$> pairs ↔
  ∃ a b s, a ∈ lefts ∧ b ∈ rights ∧ ev_id a = x ∧ ev_id b = y ∧
     compatible window tol a b ∧ pair_score tol a b = Ok s ∧ (dval s == inject_Z n * p10 (-6))%Q.
Proof.
  intros Nl Nr He Hp Hall. rewrite list_elem_of_fmap. split.
  - intros (p & [= -> -> ->] & Hin). destruct (Hp p Hin) as (Hm & El & Er).
    apply He in Hm as (a & b & s & Ha & Hb & Hc & Hs & Em). rewrite Em in El, Er. simpl in El, Er.
    destruct (pair_score_ok window tol a b Hc) as (s' & Es' & Hval & _). rewrite Hs in Es'. injection Es' as <-.
    exists a, b, s. rewrite Em. split_and!; try done. by injection Er.
  - intros (a & b & s & Ha & Hb & <- & <- & Hc & Hs & Hval).
    assert (pair_match a b s ∈ edges) as Hm by (apply He; eauto 10).
    pose proof (Hall _ (ev_id b) Hm eq_refl) as Hk. simpl in Hk. apply list_elem_of_fmap in Hk as (p & Ek & Hin).
    exists p. split; [|done]. destruct (Hp p Hin) as (Hm' & El & Er). rewrite <- Ek in El, Er |- *. simpl in *.
    apply He in Hm' as (a' & b' & s' & Ha' & Hb' & Hc' & Hs' & Em). rewrite Em in El, Er |- *. simpl in *.
    injection Er as Er. assert (a' = a) as -> by by apply (NoDup_fmap_inj ev_id lefts).
    assert (b' = b) as -> by by apply (NoDup_fmap_inj ev_id rights). rewrite Hs in Hs'. injection Hs' as <-.
    destruct (pair_score_ok window tol a b Hc) as (s' & Es' & Hval' & _). rewrite Hs in Es'. injection Es' as <-.
    f_equal. rewrite Hval in Hval'. pose proof (p10_pos (-6)) as Hp10.
    apply Z.le_antisymm; apply (inject_Z_mult_le_inv _ _ _ Hp10); rewrite Hval'; apply Qle_refl.
Qed.

Lemma pair_edges_ok (lefts rights : list Event) window tol (edges : list Match) (pairs : odict (string * string) Match) :
  (∀ m, m ∈ edges ↔ ∃ a b s, a ∈ lefts ∧ b ∈ rights ∧ compatible window tol a b ∧ pair_score tol a b = Ok s ∧ m = pair_match a b s) →
  (∀ e, e ∈ pairs → e.2 ∈ edges ∧ left_id e.2 = e.1.1 ∧ right_ids e.2 = [e.1.2]) →
  ∀ e, e ∈ (λ e : string * string * Match, mkEdge e.1.1 e.1.2 (scaled (score e.2))) <$> pairs →
    e_left e ∈ ev_id <$> lefts ∧ e_right e ∈ ev_id <$> rights ∧ 1 <= e_weight e <= MAX_WEIGHT.
Proof.
  intros He Hp e (p & -> & Hin)%list_elem_of_fmap. simpl. destruct (Hp p Hin) as (Hm & El & Er).
  apply He in Hm as (a & b & s & Ha & Hb & Hc & Hs & Em). rewrite Em in El, Er |- *. simpl in *. injection Er as Er.
  rewrite <- El, <- Er. destruct (pair_score_ok window tol a b Hc) as (s' & Es' & _ & Hw). rewrite Hs in Es'. injection Es' as <-.
  split_and!; [apply list_elem_of_fmap; eauto|apply list_elem_of_fmap; eauto|lia|lia].
Qed.
(** What the read decisions say of matches and partners. *)
Lemma read_matches pairs ds r0 r : read_so_far pairs ds r0 r →
  (left_id <$> cr_matches r = d_id <$> List.filter (λ d, bool_decide (d_status d = MATCHED)) ds) ∧
  (Some <$> mjoin (right_ids <$> cr_matches r) = d_partner <$> List.filter (λ d, bool_decide (d_status d = MATCHED)) ds) ∧
  ∀ x y, (∃ m, m ∈ cr_matches r ∧ left_id m = x ∧ right_ids m = [y]) ↔
    ∃ d, d ∈ ds ∧ d_id d = x ∧ d_status d = MATCHED ∧ d_partner d = Some y.
Proof.
  intros [Hm _ _ _]. assert (∀ d, d ∈ ds ∧ d_status d = MATCHED ↔ d ∈ List.filter (λ d, bool_decide (d_status d = MATCHED)) ds) as Hf.
  { intros d. by rewrite elem_of_filter_bool, bool_decide_eq_true. }
  split_and!.
  - clear Hf. induction Hm as [|m d ms ds' [E _] _ IH]; [done|]. by rewrite !fmap_cons, E, IH.
  - clear Hf. induction Hm as [|m d ms ds' (_ & y & Ey & Er) _ IH]; [done|]. rewrite !fmap_cons. simpl. by rewrite Er, Ey, <- IH.
  - intros x y. split.
    + intros (m & Hin & <- & Er). apply list_elem_of_lookup in Hin as [i Hi].
      destruct (Forall2_lookup_l _ _ _ _ _ Hm Hi) as (d & Hd & E & y' & Ey & Er'). apply list_elem_of_lookup_2, Hf in Hd as [Hd Hs].
      exists d. split_and!; [done|done|done|]. congruence.
    + intros (d & Hd & <- & Hs & Ep). assert (d ∈ List.filter (λ d, bool_decide (d_status d = MATCHED)) ds) as Hin by by apply Hf.
      apply list_elem_of_lookup in Hin as [i Hi]. destruct (Forall2_lookup_r _ _ _ _ _ Hm Hi) as (m & Hmi & E & y' & Ey & Er').
      apply list_elem_of_lookup_2 in Hmi. exists m. split_and!; [done|done|]. congruence.
Qed.

Lemma correlate_ok lefts rights window tol max_component margin :
  NoDup (ev_id <$> lefts) → NoDup (ev_id <$> rights) → 0 <= scaled margin → 1 <= max_component →
  ∃ result, correlate lefts rights window tol max_component margin = Ok result ∧
    correlated lefts rights window tol max_component (scaled margin) result.
Proof.
  intros Nl Nr Hmar Hmax. unfold correlate. destruct (candidate_edges_spec lefts rights window tol) as (edges & -> & He).
  cbn [mbind res_bind]. destruct (by_pair_spec edges) as (pairs & -> & Np & Hp & Hall).
  { intros m (a & b & s & _ & _ & _ & _ & ->)%He. eauto. }
  cbn [mbind res_bind]. set (es := (λ e : string * string * Match, mkEdge e.1.1 e.1.2 (scaled (score e.2))) <$> pairs).
  assert (NoDup ((λ e, (e_left e, e_right e)) <$> es)) as Nes.
  { unfold es. rewrite <- list_fmap_compose. erewrite list_fmap_ext; [exact Np|]. by intros i [[x y] m] _. }
  destruct (assign_ok (ev_id <$> lefts) (ev_id <$> rights) es (scaled margin) max_component) as (decided & -> & Hdec);
    [done..|by apply (pair_edges_ok _ _ window tol edges)|].
  assert (∀ x y n, weights_of es !! (x, y) = Some n ↔ ∃ a b s, a ∈ lefts ∧ b ∈ rights ∧ ev_id a = x ∧ ev_id b = y ∧
     compatible window tol a b ∧ pair_score tol a b = Ok s ∧ (dval s == inject_Z n * p10 (-6))%Q) as Hw.
  { intros x y n. rewrite weights_of_spec by done. by apply (pair_weights _ _ _ _ edges). }
  assert (∀ x y, is_Some (weights_of es !! (x, y)) → y ∈ ev_id <$> rights) as Hk.
  { intros x y [n (a & b & s & _ & Hb & _ & <- & _)%Hw]. apply list_elem_of_fmap. eauto. }
  cbn [mbind res_bind]. destruct (read_decisions pairs (r_left decided)
    ((λ c, Z.of_nat (length (c_left c)) + Z.of_nat (length (c_right c))) <$> r_components decided)
    (foldl add_candidate ∅ pairs.*1)) as (r & -> & Hr).
  { intros e Hin. by apply Hp. }
  { intros d Hd Hm. destruct (matched_left Hdec Hmar d Hk Hd Hm) as (y & Ey & [n Hn] & _). exists y. split; [done|].
    apply weights_of_spec in Hn; [|done]. apply list_elem_of_fmap in Hn as ([[x' y'] m] & [= -> -> _] & Hin).
    apply list_elem_of_fmap. by exists (x', y', m). }
  exists r. split; [done|]. destruct (read_matches _ _ _ _ Hr) as (E1 & E2 & Hms).
  assert (NoDup (d_id <$> r_left decided)) as Nd.
  { rewrite (as_left _ _ _ _ _ _ Hdec). unfold sorted. by rewrite sorted_by_perm. }
  split.
  - intros x y. rewrite (rs_candidates _ _ _ _ Hr). simpl. rewrite candidates_foldl, lookup_empty. simpl. split.
    + intros [?%not_elem_of_empty|Hin]; [done|]. apply list_elem_of_fmap in Hin as (p & Ep & Hin).
      destruct (Hp p Hin) as (Hm & El & Er). apply He in Hm as (a & b & s & Ha & Hb & Hc & _ & Em).
      rewrite Em, <- Ep in El, Er. simpl in *. injection Er as Er. exists a, b. by split_and!.
    + intros (a & b & Ha & Hb & <- & <- & Hc). right. destruct (pair_score_ok window tol a b Hc) as (s & Es & _).
      apply (Hall (pair_match a b s)); [|done]. apply He. eauto 10.
  - exists (weights_of es), decided. split_and!; [done|done|done|apply (rs_ambiguous _ _ _ _ Hr)|apply (rs_oversized _ _ _ _ Hr)].
  - rewrite E1. by apply NoDup_filter_bool.
  - apply (NoDup_fmap_1 Some). rewrite E2. apply NoDup_fmap_2_strong.
    + intros d d' [Hd Hs%bool_decide_eq_true]%elem_of_filter_bool [Hd' Hs'%bool_decide_eq_true]%elem_of_filter_bool E.
      apply (NoDup_fmap_inj d_id (r_left decided)); [done..|]. by apply (partner_inj Hdec Hmar d d').
    + apply (NoDup_fmap_1 d_id). by apply NoDup_filter_bool.
Qed.

(** ** Guarantees *)

(** C38: correlation is the assignment of the compatible pairs, and nothing else.  On
    distinct events the script returns; a left event's candidates are exactly the right
    events inside the time window whose duration the tolerant rule admits; the decisions
    are those of the assignment over these pairs, each weighing exactly its score in
    millionths, with matched, ambiguous and oversized events read back faithfully; and no
    event on either side is matched twice. *)
Theorem correlate_correlated lefts rights window tol max_component margin :
  NoDup (ev_id <$> lefts) → NoDup (ev_id <$> rights) → 0 <= scaled margin → 1 <= max_component →
  ∃ result, correlate lefts rights window tol max_component margin = Ok result ∧
    correlated lefts rights window tol max_component (scaled margin) result.
Proof. apply correlate_ok. Qed.
Lemma correlate_correlated_witness : ∃ result, correlate ex_lefts ex_rights 5 ex_tol 32 d0 = Ok result ∧
  correlated ex_lefts ex_rights 5 ex_tol 32 0 result.
Proof.
  apply (correlate_correlated ex_lefts ex_rights 5 ex_tol 32 d0); [|
    |by vm_compute|lia]; unfold ex_lefts, ex_rights; repeat constructor; set_solver.
Defined.
