(* ===== verification/Topology.v ===== *)
(** * Topology: the strongest evidence each link can reach

    [correlation/topology.py].  A declaration is a tree of TOML values; loading
    it collects every refusal (the list the source appends to is a state that the
    parsers thread) and computes a ceiling per hop and per crossing.  Reading the
    TOML text is the standard library's [tomllib].  Texts that only appear in
    messages -- [repr], [str] of a value that is not a string, [format(x, 'g')]
    -- are parameters. *)

From Stdlib Require Import QArith Qreduction.
From S2P Require Import Prelude.
Open Scope Z_scope.

(** ** Data *)

(** A TOML value.  Floats, dates and times are only ever refused: [VOther]. *)
Inductive Value :=
| VStr (s : string)
| VInt (z : Z)
| VBool (b : bool)
| VList (l : list Value)
| VTable (t : list (string * Value))
| VOther (text : string).
Notation Table := (list (string * Value)) (only parsing).

Inductive Evidence := UNRESOLVED | DERIVED | OBSERVED | AUTHORED.
Inductive LinkKind :=
| SHARED_HEADER | MESSAGE_KEY | SAME_CONNECTION | SAME_SOCKET | NESTED_TIMING
| PROPAGATED | INSIDE_PROCESS | LOGGED_TIMING | NONE.
Inductive Reason :=
| MISSING_FIELD | UNKNOWN_FIELD | UNKNOWN_VALUE | UNKNOWN_IDENTIFIER | INVALID_VALUE
| UNKNOWN_POINT | DUPLICATE_HOP
| CEILING_BELOW_EXPECTED | DENSITY_ABOVE_BOUND | UNTRUSTED_ENTRY_PROPAGATED | AGENT_BAGGAGE
| AGENT_NOT_PRESENT | FANOUT_UNBOUNDED
| NO_SHARED_HEADER | NO_MESSAGE_KEY | MISSING_TUPLE5 | MISSING_NAT_MAPPING | MISSING_STREAM_ID
| MISSING_SOCKET_COOKIE | CROSS_HOST_SOCKET | ASYNC_RELATION | NOT_TIMESTAMPED | NO_SHARED_CLOCK.
Global Instance Evidence_eq_dec : EqDecision Evidence.
Proof. solve_decision. Defined.
Global Instance LinkKind_eq_dec : EqDecision LinkKind.
Proof. solve_decision. Defined.
Global Instance Reason_eq_dec : EqDecision Reason.
Proof. solve_decision. Defined.

Definition Evidence_value (e : Evidence) : Z :=
  match e with UNRESOLVED => 0 | DERIVED => 1 | OBSERVED => 2 | AUTHORED => 3 end.
Definition Evidence_lower (e : Evidence) : string :=
  match e with
  | UNRESOLVED => "unresolved" | DERIVED => "derived" | OBSERVED => "observed" | AUTHORED => "authored"
  end.
(** [Evidence[expect.upper()]] *)
Definition Evidence_of (s : string) : option Evidence :=
  find (λ e, bool_decide (Evidence_lower e = s)) [UNRESOLVED; DERIVED; OBSERVED; AUTHORED].
Definition Reason_value (r : Reason) : Z :=
  match r with
  | MISSING_FIELD => 1 | UNKNOWN_FIELD => 2 | UNKNOWN_VALUE => 3 | UNKNOWN_IDENTIFIER => 4
  | INVALID_VALUE => 5 | UNKNOWN_POINT => 6 | DUPLICATE_HOP => 7
  | CEILING_BELOW_EXPECTED => 10 | DENSITY_ABOVE_BOUND => 11 | UNTRUSTED_ENTRY_PROPAGATED => 12
  | AGENT_BAGGAGE => 13 | AGENT_NOT_PRESENT => 14 | FANOUT_UNBOUNDED => 15
  | NO_SHARED_HEADER => 20 | NO_MESSAGE_KEY => 21 | MISSING_TUPLE5 => 22 | MISSING_NAT_MAPPING => 23
  | MISSING_STREAM_ID => 24 | MISSING_SOCKET_COOKIE => 25 | CROSS_HOST_SOCKET => 26
  | ASYNC_RELATION => 27 | NOT_TIMESTAMPED => 28 | NO_SHARED_CLOCK => 29
  end.
Definition Reason_lower (r : Reason) : string :=
  match r with
  | MISSING_FIELD => "missing_field" | UNKNOWN_FIELD => "unknown_field"
  | UNKNOWN_VALUE => "unknown_value" | UNKNOWN_IDENTIFIER => "unknown_identifier"
  | INVALID_VALUE => "invalid_value" | UNKNOWN_POINT => "unknown_point"
  | DUPLICATE_HOP => "duplicate_hop" | CEILING_BELOW_EXPECTED => "ceiling_below_expected"
  | DENSITY_ABOVE_BOUND => "density_above_bound"
  | UNTRUSTED_ENTRY_PROPAGATED => "untrusted_entry_propagated" | AGENT_BAGGAGE => "agent_baggage"
  | AGENT_NOT_PRESENT => "agent_not_present" | FANOUT_UNBOUNDED => "fanout_unbounded"
  | NO_SHARED_HEADER => "no_shared_header" | NO_MESSAGE_KEY => "no_message_key"
  | MISSING_TUPLE5 => "missing_tuple5" | MISSING_NAT_MAPPING => "missing_nat_mapping"
  | MISSING_STREAM_ID => "missing_stream_id" | MISSING_SOCKET_COOKIE => "missing_socket_cookie"
  | CROSS_HOST_SOCKET => "cross_host_socket" | ASYNC_RELATION => "async_relation"
  | NOT_TIMESTAMPED => "not_timestamped" | NO_SHARED_CLOCK => "no_shared_clock"
  end.
Global Instance Reason_cmp : Cmp Reason := cmp_on Reason_value.

(** The frozen sets of names. *)
Definition IDENTIFIERS : list string :=
  ["traceparent"; "baggage"; "request_id"; "message_id"; "tuple5"; "h2_stream_id"; "socket_cookie"]%string.
Definition CARRIED : list string := ["traceparent"; "baggage"; "request_id"; "message_id"]%string.
Definition HEADERS : list string := ["request_id"; "traceparent"]%string.
Definition VISIBILITY : list string := ["kernel"; "log"; "app"; "none"]%string.
Definition PROPAGATORS : list string := ["agent"; "app"; "proxy"]%string.
Definition RELATIONS : list string := ["call"; "async"; "fanout"]%string.
Definition NATS : list string := ["none"; "snat"; "dnat"]%string.
Definition NAT_MAPPINGS : list string := ["none"; "conntrack"; "logged_both_sides"]%string.
Definition PRECISION_NS : list (string * Z) :=
  [("kernel_monotonic", 1000); ("precise_sync", 10000); ("network_sync", 1000000);
   ("log_ms", 1000000); ("log_s", 1000000000)]%string.
Definition POINT_FIELDS : list string :=
  ["host"; "visibility"; "clock"; "timestamps"; "inbound"; "outbound"; "propagates"; "sets";
   "trusts_incoming"]%string.
Definition HOP_FIELDS : list string :=
  ["from"; "to"; "relation"; "nat"; "nat_mapping"; "pooling"; "rate"; "noise_us"; "expect";
   "max_fanout"]%string.
Definition D_MAX : Z := 1.

Record Point := mkPoint {
  p_name : string;
  p_host : string;
  p_visibility : string;
  p_clock : option string;
  p_timestamps : option string;
  p_inbound : gset string;
  p_outbound : gset string;
  p_propagates : list (string * string);
  p_sets : gset string;
  p_trusts_incoming : bool
}.
Record Hop := mkHop {
  h_src : string;
  h_dst : string;
  h_relation : string;
  h_nat : string;
  h_nat_mapping : string;
  h_pooling : bool;
  h_rate : option Z;
  h_noise_us : option Z;
  h_expect : option Evidence;
  h_max_fanout : option Z
}.
Record HopCeiling := mkHopCeiling {
  hc_src : string;
  hc_dst : string;
  hc_relation : string;
  hc_evidence : Evidence;
  hc_link : LinkKind;
  hc_density : option Q;
  hc_max_fanout : option Z;
  hc_key : option string;
  hc_observed : option (list string)
}.
Record CrossingCeiling := mkCrossing {
  cc_point : string;
  cc_evidence : Evidence;
  cc_link : LinkKind;
  cc_key : option string
}.
Record Topology := mkTopology {
  t_points : list Point;
  t_hops : list HopCeiling;
  t_crossings : list CrossingCeiling
}.
Record Refusal := mkRefusal {
  rf_reason : Reason;
  rf_where : string;
  rf_detail : string;
  rf_missing : list Reason
}.

(** ** Ceilings *)

(** [x in s] of a frozen set of names given as a list. *)
Definition mem (s : string) (l : list string) : bool := bool_decide (s ∈ l).
Definition has (s : string) (l : gset string) : bool := bool_decide (s ∈ l).

Definition _wire_header (src dst : Point) : option string :=
  find (λ header,
    let replaced := has header (p_sets src) && bool_decide (p_visibility src = "kernel"%string) in
    has header (p_outbound src) && has header (p_inbound dst) && negb replaced) HEADERS.

(** Conditional [append]. *)
Definition lacking_if (b : bool) (r : Reason) : list Reason := if b then [r] else [].

Definition _missing (hop : Hop) (src dst : Point) (kind : LinkKind) : list Reason :=
  let both x := has x (p_outbound src) && has x (p_inbound dst) in
  let async := bool_decide (h_relation hop = "async"%string) in
  match kind with
  | SHARED_HEADER => match _wire_header src dst with Some _ => [] | None => [NO_SHARED_HEADER] end
  | MESSAGE_KEY => lacking_if (negb async || negb (both "message_id"%string)) NO_MESSAGE_KEY
  | SAME_CONNECTION =>
      lacking_if async ASYNC_RELATION ++
      lacking_if (negb (both "tuple5"%string)) MISSING_TUPLE5 ++
      lacking_if (negb (bool_decide (h_nat hop = "none"%string)) &&
                  bool_decide (h_nat_mapping hop = "none"%string)) MISSING_NAT_MAPPING ++
      lacking_if (h_pooling hop && negb (both "h2_stream_id"%string)) MISSING_STREAM_ID
  | SAME_SOCKET =>
      lacking_if async ASYNC_RELATION ++
      lacking_if (negb (both "socket_cookie"%string)) MISSING_SOCKET_COOKIE ++
      lacking_if (negb (bool_decide (p_host src = p_host dst))) CROSS_HOST_SOCKET
  | NESTED_TIMING =>
      lacking_if async ASYNC_RELATION ++
      (if bool_decide (p_visibility src = "none"%string) || bool_decide (p_visibility dst = "none"%string)
       then [NOT_TIMESTAMPED]
       else lacking_if (negb (bool_decide (p_clock src = p_clock dst))) NO_SHARED_CLOCK)
  | _ => []   (* not a hop's link kind: the dict has no such key and none is asked for *)
  end.

Definition _HOP_LINKS : list (LinkKind * Evidence) :=
  [(SHARED_HEADER, AUTHORED); (MESSAGE_KEY, AUTHORED); (SAME_CONNECTION, OBSERVED);
   (SAME_SOCKET, OBSERVED); (NESTED_TIMING, DERIVED)].

Definition is_nil {A} (l : list A) : bool := match l with [] => true | _ => false end.

(** [PRECISION_NS[point.timestamps]] *)
Definition precision (p : Point) : res Z :=
  get (t ← p_timestamps p; snd <$> find (λ e, bool_decide (e.1 = t)) PRECISION_NS) KeyError.

Definition hop_link (hop : Hop) (src dst : Point) : LinkKind * Evidence :=
  default (NONE, UNRESOLVED) (find (λ e, is_nil (_missing hop src dst e.1)) _HOP_LINKS).
Definition _hop_ceiling (hop : Hop) (src dst : Point) : res HopCeiling :=
  let '(link, evidence) := hop_link hop src dst in
  density ←
    match bool_decide (link = NESTED_TIMING), h_rate hop with
    | true, Some rate =>
        a ← precision src;
        b ← precision dst;
        let window_ns := Z.max (Z.max a b) (1000 * default 0 (h_noise_us hop)) in
        Ok (Some (Qred (Qmake (rate * window_ns) 1000000000)))
    | _, _ => Ok None
    end;
  let key := match link with
             | SHARED_HEADER => _wire_header src dst
             | MESSAGE_KEY => Some "message_id"%string
             | _ => None
             end in
  let observed :=
    if is_nil (_missing hop src dst SAME_CONNECTION) && bool_decide (h_nat hop = "none"%string)
    then Some (if h_pooling hop then ["tuple5"; "h2_stream_id"] else ["tuple5"])%string
    else None in
  Ok (mkHopCeiling (h_src hop) (h_dst hop) (h_relation hop) evidence link density
        (h_max_fanout hop) key observed).

Definition _crossing_ceiling (point : Point) : CrossingCeiling :=
  let copied := (p_propagates point).*1 in
  match find (λ header, mem header copied && has header (p_inbound point) &&
                        has header (p_outbound point) && negb (has header (p_sets point)))
             (HEADERS ++ ["message_id"%string]) with
  | Some header => mkCrossing (p_name point) AUTHORED PROPAGATED (Some header)
  | None =>
      if bool_decide (p_visibility point = "kernel"%string)
      then mkCrossing (p_name point) OBSERVED INSIDE_PROCESS None
      else if mem (p_visibility point) ["log"; "app"]%string
      then mkCrossing (p_name point) DERIVED LOGGED_TIMING None
      else mkCrossing (p_name point) UNRESOLVED NONE None
  end.

(** ** Rules *)

Section rules.
(** [repr(v)], [str(v)] of a value that is not a string, and [format(float(q), 'g')]. *)
Context (repr py_str : Value → string) (format_g : Q → string).

Definition _check_point_rules (point : Point) : list Refusal :=
  let by_agent := sorted (fst <$> List.filter (λ e, bool_decide (e.2 = "agent"%string)) (p_propagates point)) in
  (if negb (is_nil by_agent) && negb (bool_decide (p_visibility point = "kernel"%string))
   then [mkRefusal AGENT_NOT_PRESENT (p_name point) "an agent propagates on a point it does not see" []]
   else []) ++
  (if mem "baggage" by_agent
   then [mkRefusal AGENT_BAGGAGE (p_name point) "the agent does not carry baggage (measured)" []]
   else []) ++
  (if negb (p_trusts_incoming point)
   then (λ name, mkRefusal UNTRUSTED_ENTRY_PROPAGATED (p_name point)
           ("the agent re-injects an outside " +:+ name +:+ " (measured); set it here instead") []) <$>
        List.filter (λ name, negb (has name (p_sets point))) by_agent
   else []).

(** [sorted({...})] of the reasons each strong enough link kind lacks. *)
Definition lacking (hop : Hop) (src dst : Point) (expect : Evidence) : list Reason :=
  sorted (remove_dups (List.filter (λ e : LinkKind * Evidence, bool_decide (e.2 = expect)) _HOP_LINKS ≫=
    λ e, _missing hop src dst e.1)).
Definition hop_where (src dst : string) : string := src +:+ " -> " +:+ dst.
Definition _check_hop_rules (hop : Hop) (ceiling : HopCeiling) (src dst : Point) : list Refusal :=
  let loc := hop_where (h_src hop) (h_dst hop) in
  (match hc_density ceiling with
   | Some d =>
       if negb (Qle_bool d (inject_Z D_MAX))
       then [mkRefusal DENSITY_ABOVE_BOUND loc
               ("density " +:+ format_g d +:+ " > 1: timing cannot carry this rate") []]
       else []
   | None => []
   end) ++
  (match h_expect hop with
   | Some e =>
       if Evidence_value (hc_evidence ceiling) <? Evidence_value e
       then
         let l := lacking hop src dst e in
         [mkRefusal CEILING_BELOW_EXPECTED loc
            ("expected " +:+ Evidence_lower e +:+ ", at most " +:+ Evidence_lower (hc_evidence ceiling) +:+
             "; missing: " +:+ join ", " (Reason_lower <$> l)) l]
       else []
   | None => []
   end).

(** ** Parsing *)

(** A parser appends to the list of refusals; it can still raise. *)
Definition Parser (A : Type) : Type := list Refusal → res (A * list Refusal).
Global Instance Parser_ret : MRet Parser := λ A a rs, Ok (a, rs).
Global Instance Parser_bind : MBind Parser := λ A B f m rs, '(a, rs) ← m rs; f a rs.
Definition refuse (r : Reason) (loc detail : string) : Parser unit :=
  λ rs, Ok (tt, rs ++ [mkRefusal r loc detail []]).
Definition count_refusals : Parser nat := λ rs, Ok (length rs, rs).
Definition lift {A} (m : res A) : Parser A := λ rs, a ← m; Ok (a, rs).
Definition when (b : bool) (m : Parser unit) : Parser unit := if b then m else mret tt.
Fixpoint each {A} (f : A → Parser unit) (l : list A) : Parser unit :=
  match l with [] => mret tt | x :: l => _ ← f x; each f l end.

(** Hashing a value for a set lookup: lists and tables are not hashable. *)
Definition hashable (v : Value) : bool := match v with VList _ | VTable _ => false | _ => true end.
Definition in_names (v : Value) (names : list string) : res bool :=
  if hashable v then Ok (match v with VStr s => mem s names | _ => false end) else Raise TypeError.
(** [bool(v)] *)
Definition value_true (v : Value) : bool :=
  match v with
  | VStr s => negb (bool_decide (s = ""%string))
  | VInt z => negb (z =? 0)
  | VBool b => b
  | VList l => negb (is_nil l)
  | VTable t => negb (is_nil t)
  | VOther _ => true
  end.
(** [==]: a boolean equals 0 or 1. *)
Definition number (v : Value) : option Z :=
  match v with VInt z => Some z | VBool b => Some (if b then 1 else 0) | _ => None end.
Definition py_eq (v w : Value) : bool :=
  match number v, number w with
  | Some a, Some b => a =? b
  | None, None =>
      match v, w with
      | VStr s, VStr t => bool_decide (s = t)
      | VOther s, VOther t => bool_decide (s = t)
      | _, _ => false   (* lists and tables raise before they are compared *)
      end
  | _, _ => false
  end.
Definition show (v : Value) : string := match v with VStr s => s | _ => py_str v end.
Definition strings_of (l : list Value) : option (list string) :=
  mapM (λ v, match v with VStr s => Some s | _ => None end) l.

(** [_Fields]: one table and where it is. *)
Section fields.
Context (table : Table) (loc : string).

Definition fields_init (allowed : list string) : Parser unit :=
  each (λ key, refuse UNKNOWN_FIELD loc ("unknown field " +:+ repr (VStr key)))
    (sorted (List.filter (λ k, negb (mem k allowed)) table.*1)).
Definition text (key : string) (required : bool) (dflt : option string) : Parser (option string) :=
  match od_get key table with
  | None => _ ← when required (refuse MISSING_FIELD loc (key +:+ " is required")); mret dflt
  | Some (VStr s) => mret (Some s)
  | Some v => _ ← refuse INVALID_VALUE loc (key +:+ " must be a string, got " +:+ repr v); mret dflt
  end.
Definition choice (key : string) (allowed : list string) (required : bool) (dflt : option string)
    : Parser (option string) :=
  value ← text key required dflt;
  match value with
  | None => mret None
  | Some s =>
      if bool_decide (value = dflt) || mem s allowed then mret value
      else _ ← refuse UNKNOWN_VALUE loc
                 (key +:+ " = " +:+ repr (VStr s) +:+ ", expected one of " +:+ repr (VList (VStr <$> sorted allowed)));
           mret dflt
  end.
Definition flag (key : string) (dflt : bool) : Parser bool :=
  match default (VBool dflt) (od_get key table) with
  | VBool b => mret b
  | v => _ ← refuse INVALID_VALUE loc (key +:+ " must be true or false, got " +:+ repr v); mret dflt
  end.
Definition integer (key : string) (minimum : Z) : Parser (option Z) :=
  let bad v := _ ← refuse INVALID_VALUE loc (key +:+ " must be an integer >= " +:+ str_Z minimum
                                             +:+ ", got " +:+ repr v); mret None in
  match od_get key table with
  | None => mret None
  | Some (VInt z) => if minimum <=? z then mret (Some z) else bad (VInt z)
  | Some v => bad v
  end.
Definition identifiers (key : string) (allowed : list string) : Parser (gset string) :=
  let names :=
    match default (VList []) (od_get key table) with VList l => strings_of l | _ => None end in
  match names with
  | None => _ ← refuse INVALID_VALUE loc (key +:+ " must be a list of identifiers"); mret ∅
  | Some l =>
      _ ← when (negb (bool_decide (NoDup l))) (refuse INVALID_VALUE loc (key +:+ " lists an identifier twice"));
      let unknown := sorted (remove_dups (List.filter (λ n, negb (mem n allowed)) l)) in
      _ ← each (λ n, refuse UNKNOWN_IDENTIFIER loc (key +:+ ": unknown identifier " +:+ repr (VStr n))) unknown;
      mret (list_to_set l ∖ list_to_set unknown)
  end.
End fields.

Definition parse_carried (loc : string) (propagates : Table) (key : string)
    (carried : list (string * string)) : Parser (list (string * string)) :=
  if negb (mem key CARRIED)
  then _ ← refuse UNKNOWN_IDENTIFIER loc ("propagates: unknown identifier " +:+ repr (VStr key)); mret carried
  else
    v ← lift (get (od_get key propagates) KeyError);
    known ← lift (in_names v PROPAGATORS);
    if (known : bool)
    then mret (carried ++ [(key, show v)])
    else _ ← refuse UNKNOWN_VALUE loc ("propagates." +:+ key +:+ " = " +:+ repr v); mret carried.
Fixpoint parse_carrieds (loc : string) (propagates : Table) (keys : list string)
    (carried : list (string * string)) : Parser (list (string * string)) :=
  match keys with
  | [] => mret carried
  | k :: keys => c ← parse_carried loc propagates k carried; parse_carrieds loc propagates keys c
  end.

Definition _parse_point (name : string) (raw : Table) : Parser (option Point) :=
  before ← count_refusals;
  _ ← fields_init raw name POINT_FIELDS;
  host ← text raw name "host" true None;
  visibility ← choice raw name "visibility" VISIBILITY true None;
  let timed := negb (bool_decide (visibility = None)) && negb (bool_decide (visibility = Some "none"%string)) in
  clock ← text raw name "clock" timed None;
  timestamps ← choice raw name "timestamps" PRECISION_NS.*1 timed None;
  inbound ← identifiers raw name "inbound" IDENTIFIERS;
  outbound ← identifiers raw name "outbound" IDENTIFIERS;
  sets ← identifiers raw name "sets" CARRIED;
  trusts_incoming ← flag raw name "trusts_incoming" true;
  propagates ← match default (VTable []) (od_get "propagates"%string raw) with
               | VTable t => mret t
               | _ => _ ← refuse INVALID_VALUE name "propagates must be a table: identifier = who copies it"; mret []
               end;
  carried ← parse_carrieds name propagates (sorted propagates.*1) [];
  after ← count_refusals;
  match host, visibility with
  | Some h, Some v =>
      mret (if (before <? after)%nat then None
            else Some (mkPoint name h v clock timestamps inbound outbound carried sets trusts_incoming))
  | _, _ => mret None   (* a missing host or visibility was refused above *)
  end.

Definition check_end (known : list string) (loc key : string) (name : option Value) : Parser unit :=
  match name with
  | None => refuse MISSING_FIELD loc (key +:+ " is required")
  | Some v =>
      ok ← lift (in_names v known);
      when (negb ok) (refuse UNKNOWN_POINT loc (key +:+ " = " +:+ repr v +:+ " is not a declared point"))
  end.
Definition end_name (v : option Value) : string :=
  match v with Some v => if value_true v then show v else "?"%string | None => "?"%string end.

Definition _parse_hop (raw : Table) (known : list string) : Parser (option Hop) :=
  before ← count_refusals;
  let src := od_get "from"%string raw in
  let dst := od_get "to"%string raw in
  let loc := hop_where (end_name src) (end_name dst) in
  _ ← fields_init raw loc HOP_FIELDS;
  _ ← check_end known loc "from" src;
  _ ← check_end known loc "to" dst;
  _ ← when (match src, dst with Some a, Some b => py_eq a b | _, _ => false end)
        (refuse INVALID_VALUE loc "a hop joins two different points");
  relation ← choice raw loc "relation" RELATIONS false (Some "call"%string);
  nat ← choice raw loc "nat" NATS false (Some "none"%string);
  nat_mapping ← choice raw loc "nat_mapping" NAT_MAPPINGS false (Some "none"%string);
  pooling ← flag raw loc "pooling" false;
  rate ← integer raw loc "rate" 1;
  noise_us ← integer raw loc "noise_us" 0;
  expect ← choice raw loc "expect" (Evidence_lower <$> [UNRESOLVED; DERIVED; OBSERVED; AUTHORED]) false None;
  max_fanout ← integer raw loc "max_fanout" 1;
  let fanout := bool_decide (relation = Some "fanout"%string) in
  let bounded := mem "max_fanout" raw.*1 in
  _ ← when (fanout && negb bounded) (refuse FANOUT_UNBOUNDED loc "a fanout hop needs max_fanout");
  _ ← when (negb fanout && bounded) (refuse INVALID_VALUE loc "max_fanout applies to a fanout hop only");
  after ← count_refusals;
  match src, dst with
  | Some s, Some d =>
      mret (if (before <? after)%nat then None
            else Some (mkHop (show s) (show d) (default "call"%string relation)
                         (default "none"%string nat) (default "none"%string nat_mapping)
                         pooling rate noise_us (e ← expect; Evidence_of e) max_fanout))
  | _, _ => mret None   (* a missing end was refused above *)
  end.

(** [points] is filled in sorted order, and keeps it. *)
Fixpoint parse_points (raw_points : Table) (names : list string) (points : odict string Point)
    : Parser (odict string Point) :=
  match names with
  | [] => mret points
  | name :: names =>
      match od_get name raw_points with
      | Some (VTable t) =>
          p ← _parse_point name t;
          parse_points raw_points names (match p with Some p => od_set name p points | None => points end)
      | _ => _ ← refuse INVALID_VALUE name "a point must be a table"; parse_points raw_points names points
      end
  end.
Fixpoint parse_hops (known : list string) (raw : list Value) (hops : list Hop) : Parser (list Hop) :=
  match raw with
  | [] => mret hops
  | VTable t :: raw =>
      h ← _parse_hop t known;
      match h with
      | None => parse_hops known raw hops
      | Some h =>
          if bool_decide ((h_src h, h_dst h) ∈ (λ x, (h_src x, h_dst x)) <$> hops)
          then _ ← refuse DUPLICATE_HOP (hop_where (h_src h) (h_dst h)) "declared twice";
               parse_hops known raw hops
          else parse_hops known raw (hops ++ [h])
      end
  | _ :: raw => _ ← refuse INVALID_VALUE "" "a hop must be a table"; parse_hops known raw hops
  end.

Definition _parse (declaration : Table) : Parser (odict string Point * list Hop) :=
  _ ← fields_init declaration "" ["points"; "hops"]%string;
  raw_points ← match od_get "points"%string declaration with
    | None => _ ← refuse MISSING_FIELD "" "points is required"; mret []
    | Some (VTable (e :: t)) => mret (e :: t)
    | Some _ => _ ← refuse INVALID_VALUE "" "points must be a non-empty table"; mret []
    end;
  points ← parse_points raw_points (sorted raw_points.*1) [];
  raw_hops ← match default (VList []) (od_get "hops"%string declaration) with
    | VList l => mret l
    | _ => _ ← refuse INVALID_VALUE "" "hops must be a list of tables"; mret []
    end;
  hops ← parse_hops raw_points.*1 raw_hops [];
  mret (points, hops).

(** ** Loading *)

(** One hop: its ceiling, and the rules, when both its points are usable. *)
Definition load_hop (points : odict string Point) (st : list HopCeiling * list Refusal) (hop : Hop)
    : res (list HopCeiling * list Refusal) :=
  match od_get (h_src hop) points, od_get (h_dst hop) points with
  | Some src, Some dst =>
      ceiling ← _hop_ceiling hop src dst;
      Ok (st.1 ++ [ceiling], st.2 ++ _check_hop_rules hop ceiling src dst)
  | _, _ => Ok st
  end.
(** [TopologyError.refusals] *)
Definition sort_refusals (rs : list Refusal) : list Refusal :=
  sorted_by (λ r, (rf_reason r, (rf_where r, rf_detail r))) rs.
Definition load (declaration : Table) : res (list Refusal + Topology) :=
  '((points, hops), rs) ← _parse declaration [];
  let rs := foldl (λ rs p, rs ++ _check_point_rules p) rs points.*2 in
  '(ceilings, rs) ← fold_res (load_hop points) hops ([], rs);
  match rs with
  | _ :: _ => Ok (inl (sort_refusals rs))
  | [] =>
      let crossed := sorted (List.filter (λ n, mem n (h_dst <$> hops)) (remove_dups (h_src <$> hops))) in
      crossings ← map_res (λ n, p ← get (od_get n points) KeyError; Ok (_crossing_ceiling p)) crossed;
      Ok (inr (mkTopology (omap (λ n, od_get n points) (sorted points.*1))
                 (sorted_by (λ c, (hc_src c, hc_dst c)) ceilings) crossings))
  end.
End rules.

(** ** Lemmas: ceilings *)

Lemma is_nil_true {A} (l : list A) : is_nil l = true ↔ l = [].
Proof. by destruct l. Qed.

Lemma elem_of_HOP_LINKS e : e ∈ _HOP_LINKS ↔
  e = (SHARED_HEADER, AUTHORED) ∨ e = (MESSAGE_KEY, AUTHORED) ∨ e = (SAME_CONNECTION, OBSERVED) ∨
  e = (SAME_SOCKET, OBSERVED) ∨ e = (NESTED_TIMING, DERIVED).
Proof. unfold _HOP_LINKS. rewrite !elem_of_cons, elem_of_nil. tauto. Qed.

(** The first kind that holds, in the order of [_HOP_LINKS]. *)
Lemma hop_link_eq hop src dst : hop_link hop src dst =
  if is_nil (_missing hop src dst SHARED_HEADER) then (SHARED_HEADER, AUTHORED)
  else if is_nil (_missing hop src dst MESSAGE_KEY) then (MESSAGE_KEY, AUTHORED)
  else if is_nil (_missing hop src dst SAME_CONNECTION) then (SAME_CONNECTION, OBSERVED)
  else if is_nil (_missing hop src dst SAME_SOCKET) then (SAME_SOCKET, OBSERVED)
  else if is_nil (_missing hop src dst NESTED_TIMING) then (NESTED_TIMING, DERIVED)
  else (NONE, UNRESOLVED).
Proof.
  unfold hop_link, _HOP_LINKS. cbn [find fst].
  repeat (destruct (is_nil _); [reflexivity|]). reflexivity.
Qed.

(** A kind whose conditions hold bounds the ceiling from below. *)
Lemma hop_link_ge hop src dst e : e ∈ _HOP_LINKS → _missing hop src dst e.1 = [] →
  Evidence_value e.2 <= Evidence_value (hop_link hop src dst).2.
Proof.
  rewrite elem_of_HOP_LINKS, hop_link_eq.
  intros [-> |[-> |[-> |[-> | ->]]]]; cbn [fst snd]; intros ->; cbn [is_nil];
    repeat (destruct (is_nil _)); cbn; lia.
Qed.

(** The ceiling is attained. *)
Lemma hop_link_holds hop src dst : hop_link hop src dst = (NONE, UNRESOLVED) ∨
  hop_link hop src dst ∈ _HOP_LINKS ∧ _missing hop src dst (hop_link hop src dst).1 = [].
Proof.
  rewrite hop_link_eq.
  repeat match goal with
  | |- context [is_nil ?l] => destruct (is_nil l) eqn:?;
      [right; split; [apply elem_of_HOP_LINKS; tauto|by apply is_nil_true]|]
  end.
  by left.
Qed.

Lemma _hop_ceiling_link hop src dst c : _hop_ceiling hop src dst = Ok c →
  (hc_link c, hc_evidence c) = hop_link hop src dst ∧ hc_src c = h_src hop ∧ hc_dst c = h_dst hop.
Proof.
  unfold _hop_ceiling. destruct (hop_link hop src dst) as [k e]. intros H.
  apply bind_Ok in H as (d & _ & H). by injection H as <-.
Qed.

(** A point that records at least as much, and is otherwise the same. *)
Definition records_more (p p' : Point) : Prop :=
  p_inbound p ⊆ p_inbound p' ∧ p_outbound p ⊆ p_outbound p' ∧
  p_visibility p = p_visibility p' ∧ p_clock p = p_clock p' ∧ p_host p = p_host p' ∧
  p_sets p = p_sets p'.

Lemma has_mono s (a b : gset string) : a ⊆ b → has s a = true → has s b = true.
Proof. unfold has. rewrite !bool_decide_eq_true. set_solver. Qed.

Lemma wire_header_mono src dst src' dst' : records_more src src' → records_more dst dst' →
  _wire_header src dst ≠ None → _wire_header src' dst' ≠ None.
Proof.
  intros (_ & Ho & Hv & _ & _ & Hs) (Hi & _) H. unfold _wire_header in *. intros E. apply H.
  destruct (find _ HEADERS) as [h|] eqn:Ef; [|done]. exfalso. apply find_some in Ef as [Hin Hh].
  apply (find_none _ _ E) in Hin. apply not_true_iff_false in Hin. apply Hin.
  rewrite !andb_true_iff in *. destruct Hh as [[H1 H2] H3]. rewrite <- Hs, <- Hv.
  split; [split; [by eapply has_mono|by eapply has_mono]|done].
Qed.

Lemma lacking_if_nil b r : lacking_if b r = [] ↔ b = false.
Proof. by destruct b. Qed.

Lemma both_mono s src dst src' dst' : records_more src src' → records_more dst dst' →
  has s (p_outbound src) && has s (p_inbound dst) = true →
  has s (p_outbound src') && has s (p_inbound dst') = true.
Proof.
  intros (_ & Ho & _) (Hi & _) [H1 H2]%andb_true_iff. apply andb_true_iff.
  split; by eapply has_mono.
Qed.

Lemma _missing_mono hop src dst src' dst' kind : records_more src src' → records_more dst dst' →
  _missing hop src dst kind = [] → _missing hop src' dst' kind = [].
Proof.
  intros Hs Hd. pose proof (wire_header_mono _ _ _ _ Hs Hd) as Hw.
  assert (∀ s, negb (has s (p_outbound src) && has s (p_inbound dst)) = false →
    negb (has s (p_outbound src') && has s (p_inbound dst')) = false) as Hb.
  { intros s. rewrite !negb_false_iff. by apply both_mono. }
  destruct Hs as (_ & _ & Ev & Ec & Eh & _), Hd as (_ & _ & Ev' & Ec' & Eh' & _).
  destruct kind; simpl; try done.
  - destruct (_wire_header src dst), (_wire_header src' dst'); try done. intros _.
    by destruct (Hw ltac:(done)).
  - rewrite !lacking_if_nil, !orb_false_iff. intros [? ?]. auto.
  - rewrite !app_nil, !lacking_if_nil, !andb_false_iff. intros (? & ? & ? & [?|?]);
      split_and!; auto.
  - rewrite !app_nil, !lacking_if_nil, Eh, Eh'. intros (? & ? & ?). split_and!; auto.
  - by rewrite Ev, Ev', Ec, Ec'.
Qed.

(** ** Guarantees: ceilings *)

(** The ceiling of a hop is the strongest evidence any link kind can give: its
    link's conditions all hold, no kind whose conditions hold gives more, and it
    is UNRESOLVED only when every kind lacks something. *)
Theorem hop_ceiling_strongest hop src dst c : _hop_ceiling hop src dst = Ok c →
  (∀ kind level, (kind, level) ∈ _HOP_LINKS → _missing hop src dst kind = [] →
     Evidence_value level <= Evidence_value (hc_evidence c)) ∧
  ((hc_link c, hc_evidence c) ∈ _HOP_LINKS ∧ _missing hop src dst (hc_link c) = [] ∨
   hc_evidence c = UNRESOLVED ∧ ∀ e, e ∈ _HOP_LINKS → _missing hop src dst e.1 ≠ []).
Proof.
  intros H. apply _hop_ceiling_link in H as (E & _). split.
  - intros kind level Hin Hm. pose proof (hop_link_ge hop src dst (kind, level) Hin Hm) as Hge.
    by rewrite <- E in Hge.
  - destruct (hop_link_holds hop src dst) as [Hn|[Hin Hm]]; rewrite <- E in *.
    + right. injection Hn as El Ee. split; [done|]. intros e He Hme.
      pose proof (hop_link_ge hop src dst e He Hme) as Hge. rewrite <- E, Ee in Hge.
      apply elem_of_HOP_LINKS in He as [-> |[-> |[-> |[-> | ->]]]]; simpl in Hge; lia.
    + by left.
Qed.

Definition ex_point (name : string) (ids : list string) : Point :=
  mkPoint name "h" "kernel" (Some "c") (Some "log_ms") (list_to_set ids) (list_to_set ids) [] ∅ true.
Definition ex_hop : Hop := mkHop "a" "b" "call" "none" "none" false (Some 10) None None None.
Lemma hop_ceiling_strongest_witness :
  ∃ c, _hop_ceiling ex_hop (ex_point "a" ["tuple5"]) (ex_point "b" ["tuple5"; "request_id"])%string = Ok c ∧
    hc_evidence c = OBSERVED ∧ _missing ex_hop (ex_point "a" ["tuple5"]) (ex_point "b" ["tuple5"; "request_id"])%string
      (hc_link c) = [].
Proof.
  destruct (_hop_ceiling ex_hop (ex_point "a" ["tuple5"]) (ex_point "b" ["tuple5"; "request_id"]))%string
    as [c|] eqn:E; [|exfalso; vm_compute in E; discriminate].
  exists c. split; [reflexivity|].
  destruct (hop_ceiling_strongest _ _ _ _ E) as (_ & [[Hin Hm]|[Hu _]]);
    vm_compute in E; injection E as <-; [split; [reflexivity|exact Hm]|discriminate Hu].
Defined.

(** Recording more never weakens a ceiling: adding identifiers to what either
    end records keeps the evidence at least as strong. *)
Theorem hop_ceiling_monotone hop src dst src' dst' c c' :
  records_more src src' → records_more dst dst' →
  _hop_ceiling hop src dst = Ok c → _hop_ceiling hop src' dst' = Ok c' →
  Evidence_value (hc_evidence c) <= Evidence_value (hc_evidence c').
Proof.
  intros Hs Hd H H'. apply _hop_ceiling_link in H as (E & _), H' as (E' & _).
  destruct (hop_link_holds hop src dst) as [Hn|[Hin Hm]].
  - rewrite <- E in Hn. injection Hn as _ ->. destruct (hc_evidence c'); simpl; lia.
  - pose proof (hop_link_ge hop src' dst' _ Hin (_missing_mono _ _ _ _ _ _ Hs Hd Hm)) as H.
    by rewrite <- E, <- E' in H.
Qed.

Lemma hop_ceiling_monotone_witness : ∃ c c',
  _hop_ceiling ex_hop (ex_point "a" ["tuple5"]) (ex_point "b" ["tuple5"]) = Ok c ∧
  _hop_ceiling ex_hop (ex_point "a" ["tuple5"; "request_id"]) (ex_point "b" ["tuple5"; "request_id"]) = Ok c' ∧
  Evidence_value (hc_evidence c) <= Evidence_value (hc_evidence c').
Proof.
  destruct (_hop_ceiling ex_hop (ex_point "a" ["tuple5"]) (ex_point "b" ["tuple5"]))%string
    as [c|] eqn:E; [|exfalso; vm_compute in E; discriminate].
  destruct (_hop_ceiling ex_hop (ex_point "a" ["tuple5"; "request_id"]) (ex_point "b" ["tuple5"; "request_id"]))%string
    as [c'|] eqn:E'; [|exfalso; vm_compute in E'; discriminate].
  exists c, c'. split; [reflexivity|]. split; [reflexivity|].
  refine (hop_ceiling_monotone _ _ _ _ _ c c' _ _ E E'); split_and!; try reflexivity;
    apply (bool_decide_unpack _); vm_compute; exact I.
Defined.

(** ** Lemmas: parsing *)

Section parsing.
Context (repr py_str : Value → string) (format_g : Q → string).

(** Refusals are only added. *)
Definition grows {A} (m : Parser A) : Prop := ∀ rs a rs', m rs = Ok (a, rs') → ∃ x, rs' = rs ++ x.

Lemma grows_ret {A} (a : A) : grows (mret a).
Proof. intros rs b rs' [= <- <-]. exists []. by rewrite app_nil_r. Qed.
Lemma grows_refuse r l d : grows (refuse r l d).
Proof. intros rs a rs' [= <- <-]. by eexists. Qed.
Lemma grows_count : grows count_refusals.
Proof. intros rs a rs' [= <- <-]. exists []. by rewrite app_nil_r. Qed.
Lemma grows_lift {A} (m : res A) : grows (lift m).
Proof.
  intros rs a rs' H. unfold lift in H. apply bind_Ok in H as (x & _ & [= <- <-]).
  exists []. by rewrite app_nil_r.
Qed.
Lemma grows_bind {A B} (m : Parser A) (f : A → Parser B) :
  grows m → (∀ a, grows (f a)) → grows (m ≫= f).
Proof.
  intros Hm Hf rs b rs' H. unfold mbind, Parser_bind in H. apply bind_Ok in H as ([a rs1] & H1 & H2).
  apply Hm in H1 as [x ->]. apply Hf in H2 as [y ->]. exists (x ++ y). by rewrite app_assoc.
Qed.
Lemma grows_when b m : grows m → grows (when b m).
Proof. intros H. destruct b; [done|apply grows_ret]. Qed.
Lemma grows_each {A} (f : A → Parser unit) l : (∀ x, grows (f x)) → grows (each f l).
Proof.
  intros H. induction l as [|x l IH]; [apply grows_ret|]. apply grows_bind; [apply H|]. intros _. exact IH.
Qed.
Hint Resolve grows_ret grows_refuse grows_count grows_lift grows_when grows_each : grows.

(** Take a parser apart. *)
Ltac grow :=
  repeat first
    [ progress (intros)
    | solve [auto with grows]
    | apply grows_bind
    | apply grows_when
    | apply grows_each
    | match goal with
      | |- grows (match ?x with _ => _ end) => destruct x
      | |- grows (let _ := _ in _) => cbv zeta
      end ].

Lemma grows_text t l k r d : grows (text repr t l k r d).
Proof. unfold text. grow. Qed.
Hint Resolve grows_text : grows.
Lemma grows_choice t l k a r d : grows (choice repr t l k a r d).
Proof. unfold choice. grow. Qed.
Lemma grows_flag t l k d : grows (flag repr t l k d).
Proof. unfold flag. grow. Qed.
Lemma grows_integer t l k m : grows (integer repr t l k m).
Proof. unfold integer. grow. Qed.
Lemma grows_identifiers t l k a : grows (identifiers repr t l k a).
Proof. unfold identifiers. grow. Qed.
Lemma grows_fields t l a : grows (fields_init repr t l a).
Proof. unfold fields_init. grow. Qed.
Lemma grows_carried l p k c : grows (parse_carried repr py_str l p k c).
Proof. unfold parse_carried. grow. Qed.
Hint Resolve grows_choice grows_flag grows_integer grows_identifiers grows_fields grows_carried : grows.
Lemma grows_carrieds l p ks c : grows (parse_carrieds repr py_str l p ks c).
Proof. revert c; induction ks as [|k ks IH]; intros c; simpl; grow. Qed.
Lemma grows_check_end kn l k v : grows (check_end repr kn l k v).
Proof. unfold check_end. grow. Qed.
Hint Resolve grows_carrieds grows_check_end : grows.
Lemma grows_point n t : grows (_parse_point repr py_str n t).
Proof. unfold _parse_point. grow. Qed.
Lemma grows_hop t kn : grows (_parse_hop repr py_str t kn).
Proof. unfold _parse_hop. grow. Qed.
Hint Resolve grows_point grows_hop : grows.
Lemma grows_points rp ns ps : grows (parse_points repr py_str rp ns ps).
Proof. revert ps; induction ns as [|n ns IH]; intros ps; simpl; grow. Qed.
Lemma grows_hops kn raw hs : grows (parse_hops repr py_str kn raw hs).
Proof. revert hs; induction raw as [|v raw IH]; intros hs; simpl; grow. Qed.
Hint Resolve grows_points grows_hops : grows.

(** A parse that adds no refusal went through without one at every step. *)
Lemma quiet_bind {A B} (m : Parser A) (f : A → Parser B) rs b :
  grows m → (∀ a, grows (f a)) → (m ≫= f) rs = Ok (b, rs) →
  ∃ a, m rs = Ok (a, rs) ∧ f a rs = Ok (b, rs).
Proof.
  intros Hm Hf H. unfold mbind, Parser_bind in H. apply bind_Ok in H as ([a rs1] & H1 & H2).
  destruct (Hm _ _ _ H1) as [x ->]. destruct (Hf a _ _ _ H2) as [y Ey].
  rewrite <- app_assoc in Ey. assert (x = []) as ->.
  { apply (f_equal length) in Ey. rewrite !length_app in Ey. destruct x; [done|simpl in Ey; lia]. }
  rewrite app_nil_r in *. eauto.
Qed.
Lemma quiet_refuse {A} r l d (f : unit → Parser A) rs b :
  (∀ a, grows (f a)) → (refuse r l d ≫= f) rs ≠ Ok (b, rs).
Proof.
  intros Hf H. apply quiet_bind in H as (u & H & _); [|auto with grows|done].
  injection H as _ E. apply (f_equal length) in E. rewrite length_app in E. simpl in E. lia.
Qed.
Lemma quiet_when b r l d rs u : when b (refuse r l d) rs = Ok (u, rs) → b = false.
Proof.
  destruct b; [|done]. intros [= _ E]. apply (f_equal length) in E.
  rewrite length_app in E. simpl in E. lia.
Qed.

Ltac quiet H :=
  repeat (let x := fresh "x" in let Hx := fresh "Hq" in
    apply quiet_bind in H as (x & Hx & H); [|solve [grow]..]).

Lemma check_end_quiet kn l k v rs u : check_end repr kn l k v rs = Ok (u, rs) →
  ∃ s, v = Some (VStr s) ∧ s ∈ kn.
Proof.
  destruct v as [v|]; simpl.
  2:{ intros [= _ E]. apply (f_equal length) in E. rewrite length_app in E. simpl in E. lia. }
  intros H. quiet H. unfold lift in Hq. apply bind_Ok in Hq as (b & Hb & [= <-]).
  apply quiet_when in H. apply negb_false_iff in H. subst b. unfold in_names in Hb.
  destruct (hashable v); [|done]. injection Hb as Hb. destruct v; try done.
  exists s. split; [done|]. by apply bool_decide_eq_true_1 in Hb.
Qed.

Lemma _parse_hop_quiet raw kn rs o : _parse_hop repr py_str raw kn rs = Ok (o, rs) →
  ∃ h, o = Some h ∧ h_src h ∈ kn ∧ h_dst h ∈ kn ∧ h_src h ≠ h_dst h.
Proof.
  unfold _parse_hop. intros H. quiet H.
  repeat match goal with
  | Hc : check_end _ _ _ _ _ _ = Ok _ |- _ => apply check_end_quiet in Hc as (? & ? & ?)
  | Hc : count_refusals _ = Ok _ |- _ => injection Hc as <-
  | Hc : when _ (refuse _ _ _) _ = Ok _ |- _ => apply quiet_when in Hc
  end.
  match goal with Ha : od_get "from"%string raw = Some _, Hb : od_get "to"%string raw = Some _ |- _ =>
    rewrite Ha, Hb in *; clear Ha Hb end.
  rewrite Nat.ltb_irrefl in H. injection H as <-. eexists. split; [done|].
  cbn [h_src h_dst show]. split; [done|]. split; [done|].
  match goal with He : py_eq _ _ = false |- _ => unfold py_eq in He; simpl in He;
    by apply bool_decide_eq_false_1 in He end.
Qed.

Lemma parse_hops_quiet kn raw hs rs out : NoDup ((λ x, (h_src x, h_dst x)) <$> hs) →
  (∀ h, h ∈ hs → h_src h ∈ kn ∧ h_dst h ∈ kn ∧ h_src h ≠ h_dst h) →
  parse_hops repr py_str kn raw hs rs = Ok (out, rs) →
  NoDup ((λ x, (h_src x, h_dst x)) <$> out) ∧
  (∀ h, h ∈ out → h_src h ∈ kn ∧ h_dst h ∈ kn ∧ h_src h ≠ h_dst h).
Proof.
  revert hs. induction raw as [|v raw IH]; intros hs Hnd Hh H; cbn [parse_hops] in H.
  { by injection H as <-. }
  destruct v; try (exfalso; revert H; apply quiet_refuse; intros; auto with grows).
  quiet H. apply _parse_hop_quiet in Hq as (h & -> & Hs & Hd & Hne).
  case_bool_decide as Hdup; [exfalso; revert H; apply quiet_refuse; intros; auto with grows|].
  apply IH in H; [done| |].
  - rewrite fmap_app. apply NoDup_app. split; [done|]. split; [|apply NoDup_singleton].
    simpl. intros x Hx ->%list_elem_of_singleton. done.
  - intros h' [Hin| ->%list_elem_of_singleton]%elem_of_app; auto.
Qed.

Lemma text_quiet t l k rs o : text repr t l k true None rs = Ok (o, rs) → is_Some o.
Proof.
  unfold text. destruct (od_get k t) as [[]|]; cbn [when]; intros H; try by injection H as <-.
  all: exfalso; revert H; apply quiet_refuse; intros; auto with grows.
Qed.

Lemma choice_quiet t l k al rs o : choice repr t l k al true None rs = Ok (o, rs) → is_Some o.
Proof.
  unfold choice. intros H. quiet H. apply text_quiet in Hq as [s ->].
  destruct (_ || _); [by injection H as <-|].
  exfalso. revert H. apply quiet_refuse. intros. auto with grows.
Qed.

Lemma _parse_point_quiet name t rs o : _parse_point repr py_str name t rs = Ok (o, rs) →
  ∃ p, o = Some p ∧ p_name p = name.
Proof.
  unfold _parse_point. intros H. quiet H.
  repeat match goal with
  | Hc : count_refusals _ = Ok _ |- _ => injection Hc as <-
  | Hc : text _ _ _ "host" true None _ = Ok _ |- _ => apply text_quiet in Hc as [? ->]
  | Hc : choice _ _ _ "visibility" _ true None _ = Ok _ |- _ => apply choice_quiet in Hc as [? ->]
  end.
  rewrite Nat.ltb_irrefl in H. injection H as <-. by eexists.
Qed.

(** Every declared point is parsed, under its own name. *)
Lemma parse_points_quiet rp ns ps rs out : (∀ e, e ∈ ps → p_name e.2 = e.1) →
  parse_points repr py_str rp ns ps rs = Ok (out, rs) →
  (∀ e, e ∈ out → p_name e.2 = e.1) ∧ (∀ n, n ∈ ns ∨ n ∈ ps.*1 → n ∈ out.*1).
Proof.
  revert ps. induction ns as [|n ns IH]; intros ps Hps H; cbn [parse_points] in H.
  { injection H as <-. split; [done|]. intros n [?%not_elem_of_nil|?]; done. }
  destruct (od_get n rp) as [[]|];
    try (exfalso; revert H; apply quiet_refuse; intros; auto with grows).
  quiet H. apply _parse_point_quiet in Hq as (p & -> & Hp). apply IH in H as [H1 H2].
  - split; [done|]. intros k Hk. apply H2. rewrite elem_of_cons in Hk. rewrite od_set_keys. tauto.
  - intros e [-> |He]%od_set_elem; auto.
Qed.

(** A declaration parsed without a refusal. *)
Lemma _parse_quiet d points hops :
  _parse repr py_str d [] = Ok ((points, hops), []) →
  NoDup ((λ h, (h_src h, h_dst h)) <$> hops) ∧
  ∀ h, h ∈ hops → h_src h ∈ points.*1 ∧ h_dst h ∈ points.*1 ∧ h_src h ≠ h_dst h.
Proof.
  unfold _parse. intros H. quiet H. injection H as -> ->.
  match goal with Hp : parse_points _ _ ?rp _ _ _ = Ok _ |- _ =>
    apply parse_points_quiet in Hp as [_ Hp]; [|by intros e ?%not_elem_of_nil]; rename Hp into Hpts end.
  match goal with Hh : parse_hops _ _ _ _ _ _ = Ok _ |- _ =>
    apply parse_hops_quiet in Hh as [Hnd Hends]; [|constructor|by intros h ?%not_elem_of_nil] end.
  split; [done|]. intros h Hh. destruct (Hends h Hh) as (Hs & Hd & Hne).
  split_and!; [| |done]; apply Hpts; left; unfold sorted; by rewrite elem_of_sorted_by.
Qed.

(** ** Lemmas: loading *)

Definition hop_ok (points : list (string * Point)) (ceilings : list HopCeiling) (hop : Hop) : Prop :=
  ∃ src dst c, od_get (h_src hop) points = Some src ∧ od_get (h_dst hop) points = Some dst ∧
    _hop_ceiling hop src dst = Ok c ∧ c ∈ ceilings ∧ _check_hop_rules format_g hop c src dst = [].

Lemma load_hops_quiet points hops cs rs cs' : (∀ h, h ∈ hops →
    h_src h ∈ points.*1 ∧ h_dst h ∈ points.*1) →
  fold_res (load_hop format_g points) hops (cs, rs) = Ok (cs', []) →
  rs = [] ∧ (∀ c, c ∈ cs → c ∈ cs') ∧ ∀ h, h ∈ hops → hop_ok points cs' h.
Proof.
  revert cs rs. induction hops as [|h hops IH]; intros cs rs Hin H; simpl in H.
  { injection H as -> ->. split; [done|]. split; [done|]. by intros h ?%not_elem_of_nil. }
  apply bind_Ok in H as ([cs1 rs1] & H1 & H).
  destruct (IH cs1 rs1) as (-> & Hsub & Hok); [intros; apply Hin; by right|done|].
  destruct (Hin h ltac:(left)) as [Hs Hd]. unfold load_hop in H1.
  destruct (od_get (h_src h) points) as [src|] eqn:Es.
  2:{ by apply od_get_None in Es. }
  destruct (od_get (h_dst h) points) as [dst|] eqn:Ed.
  2:{ by apply od_get_None in Ed. }
  apply bind_Ok in H1 as (c & Hc & [= <- Ers]). apply app_nil in Ers as [-> Hrules].
  split; [done|]. split.
  - intros x Hx. apply Hsub. apply elem_of_app. by left.
  - intros h' [-> |Hh']%elem_of_cons; [|by apply Hok]. exists src, dst, c. split_and!; try done.
    apply Hsub. apply elem_of_app. right. left.
Qed.

Lemma point_rules_quiet ps rs :
  foldl (λ rs p, rs ++ _check_point_rules p) rs ps = [] → rs = [] ∧ ∀ p, p ∈ ps → _check_point_rules p = [].
Proof.
  revert rs; induction ps as [|p ps IH]; intros rs H; simpl in H.
  { split; [done|]. by intros p ?%not_elem_of_nil. }
  apply IH in H as [[-> Hp]%app_nil Hps]. split; [done|].
  intros p' [-> |?]%elem_of_cons; auto.
Qed.
End parsing.

Lemma load_hops_refusals format_g points hops cs rs cs' rs' :
  fold_res (load_hop format_g points) hops (cs, rs) = Ok (cs', rs') → ∃ x, rs' = rs ++ x.
Proof.
  revert cs rs. induction hops as [|h hops IH]; intros cs rs H; simpl in H.
  { injection H as _ <-. exists []. by rewrite app_nil_r. }
  apply bind_Ok in H as ([cs1 rs1] & H1 & H). apply IH in H as [x ->]. unfold load_hop in H1.
  destruct (od_get (h_src h) points); [|injection H1 as _ <-; by eexists].
  destruct (od_get (h_dst h) points); [|injection H1 as _ <-; by eexists].
  apply bind_Ok in H1 as (c & _ & [= _ <-]). rewrite <- app_assoc. by eexists.
Qed.

(** What a loaded topology guarantees of a point: an agent only propagates where
    it runs, never the baggage, and never an outside identifier. *)
Definition point_safe (p : Point) : Prop :=
  ∀ name, (name, "agent"%string) ∈ p_propagates p →
    p_visibility p = "kernel"%string ∧ name ≠ "baggage"%string ∧
    (p_trusts_incoming p = false → name ∈ p_sets p).

Lemma point_rules_safe p : _check_point_rules p = [] → point_safe p.
Proof.
  unfold _check_point_rules. set (by_agent := sorted _). intros [H1 [H2 H3]%app_nil]%app_nil.
  intros name Hin. assert (name ∈ by_agent) as Ha.
  { unfold by_agent, sorted. rewrite elem_of_sorted_by. apply list_elem_of_fmap.
    exists (name, "agent"%string). split; [done|]. apply elem_of_filter_bool.
    split; [done|]. by apply bool_decide_eq_true_2. }
  split_and!.
  - destruct by_agent as [|a l]; [by apply not_elem_of_nil in Ha|]. simpl in H1.
    case_bool_decide; done.
  - intros ->. unfold mem in H2. rewrite bool_decide_eq_true_2 in H2; done.
  - intros Ht. rewrite Ht in H3. simpl in H3. apply fmap_nil_inv in H3.
    destruct (decide (name ∈ p_sets p)) as [|Hno]; [done|]. exfalso.
    assert (name ∈ List.filter (λ n, negb (has n (p_sets p))) by_agent) as Hf.
    { apply elem_of_filter_bool. split; [done|]. apply negb_true_iff. by apply bool_decide_eq_false_2. }
    rewrite H3 in Hf. by apply not_elem_of_nil in Hf.
Qed.

Lemma hop_rules_safe format_g hop c src dst : _check_hop_rules format_g hop c src dst = [] →
  (∀ e, h_expect hop = Some e → Evidence_value e <= Evidence_value (hc_evidence c)) ∧
  (∀ d, hc_density c = Some d → (d <= inject_Z D_MAX)%Q).
Proof.
  unfold _check_hop_rules. intros [H1 H2]%app_nil. split.
  - intros e He. rewrite He in H2.
    destruct (Z.ltb_spec (Evidence_value (hc_evidence c)) (Evidence_value e)); [done|lia].
  - intros d Hd. rewrite Hd in H1. apply Qle_bool_iff.
    by destruct (Qle_bool d (inject_Z D_MAX)).
Qed.

(** ** Guarantees: loading *)

(** A topology that loads is consistent: each hop joins two different declared
    points and is declared once, its ceiling is in the result, is at least what
    the declaration expects and, when it rests on timing at a declared rate, its
    density is at most [D_MAX]; and no agent propagates on a point it does not
    see, carries the baggage, or re-injects an outside identifier. *)
Theorem load_sound repr py_str format_g declaration t :
  load repr py_str format_g declaration = Ok (inr t) →
  ∃ points hops, _parse repr py_str declaration [] = Ok ((points, hops), []) ∧
    NoDup ((λ h, (h_src h, h_dst h)) <$> hops) ∧
    (∀ h, h ∈ hops → h_src h ≠ h_dst h ∧ ∃ src dst c,
       od_get (h_src h) points = Some src ∧ od_get (h_dst h) points = Some dst ∧
       _hop_ceiling h src dst = Ok c ∧ c ∈ t_hops t ∧
       (∀ e, h_expect h = Some e → Evidence_value e <= Evidence_value (hc_evidence c)) ∧
       (∀ d, hc_density c = Some d → (d <= inject_Z D_MAX)%Q)) ∧
    (∀ p, p ∈ t_points t → point_safe p).
Proof.
  unfold load. intros H. apply bind_Ok in H as ([[points hops] rs] & Hparse & H).
  apply bind_Ok in H as ([ceilings rs2] & Hhops & H).
  destruct rs2; [|done]. apply bind_Ok in H as (crossings & _ & H). injection H as <-.
  assert (rs = [] ∧ (∀ p, p ∈ points.*2 → _check_point_rules p = []) ∧
    NoDup ((λ h, (h_src h, h_dst h)) <$> hops) ∧
    (∀ h, h ∈ hops → h_src h ≠ h_dst h ∧ hop_ok format_g points ceilings h)) as (-> & Hp & Hnd & Hh).
  { pose proof Hhops as Hgrow. apply load_hops_refusals in Hgrow as [x Hx].
    symmetry in Hx. apply app_nil in Hx as [Hx _]. destruct (point_rules_quiet _ _ Hx) as [-> Hpts].
    destruct (_parse_quiet repr py_str _ _ _ Hparse) as (Hnd & Hends).
    assert (∀ h, h ∈ hops → h_src h ∈ points.*1 ∧ h_dst h ∈ points.*1) as Hin
      by (intros h Hh; by destruct (Hends h Hh) as (? & ? & ?)).
    destruct (load_hops_quiet format_g points hops _ _ ceilings Hin Hhops) as (_ & _ & Hok).
    split_and!; [done..|]. intros h Hhin. split; [|by apply Hok]. by destruct (Hends h Hhin) as (_ & _ & ?). }
  exists points, hops. split; [done|]. split; [done|]. cbn [t_hops t_points]. split.
  - intros h Hhin. destruct (Hh h Hhin) as (Hne & src & dst & c & Es & Ed & Ec & Hc & Hr).
    split; [done|]. exists src, dst, c. destruct (hop_rules_safe _ _ _ _ _ Hr).
    split_and!; try done. by rewrite elem_of_sorted_by.
  - intros p Hin. apply list_elem_of_omap in Hin as (n & _ & Hn). apply point_rules_safe, Hp.
    apply od_get_elem in Hn. apply list_elem_of_fmap. by exists (n, p).
Qed.

(** A declaration of two points and one hop. *)
Definition ex_declaration (from : Value) : list (string * Value) :=
  let point := VTable [("host", VStr "h1"); ("visibility", VStr "kernel"); ("clock", VStr "c1");
    ("timestamps", VStr "kernel_monotonic"); ("inbound", VList [VStr "traceparent"]);
    ("outbound", VList [VStr "traceparent"])] in
  [("points", VTable [("a", point); ("b", point)]);
   ("hops", VList [VTable [("from", from); ("to", VStr "b"); ("expect", VStr "authored")]])]%string.
Lemma load_sound_witness : ∃ t points hops,
  load (λ _, ""%string) (λ _, ""%string) (λ _, ""%string) (ex_declaration (VStr "a")) = Ok (inr t) ∧
  _parse (λ _, ""%string) (λ _, ""%string) (ex_declaration (VStr "a")) [] = Ok ((points, hops), []) ∧
  hops ≠ [].
Proof.
  destruct (load (λ _, ""%string) (λ _, ""%string) (λ _, ""%string) (ex_declaration (VStr "a")))
    as [[rs|t]|e] eqn:E; try (exfalso; vm_compute in E; discriminate E).
  destruct (load_sound _ _ _ _ _ E) as (points & hops & Hp & _).
  exists t, points, hops. split; [reflexivity|]. split; [exact Hp|].
  vm_compute in Hp. injection Hp as <- <-. discriminate.
Defined.

(** A [from] that is a list is not refused: looking it up in the set of points
    raises, and the error is not a [TopologyError]. *)
Example list_as_hop_end :
  load (λ _, ""%string) (λ _, ""%string) (λ _, ""%string) (ex_declaration (VList [VStr "a"]))
  = Raise TypeError.
Proof. vm_compute. reflexivity. Qed.

(** A crossing is AUTHORED exactly when some header or message key is copied
    through the point, recorded on both sides and not set by the point itself --
    and the key is such an identifier. *)
Theorem crossing_authored p :
  cc_evidence (_crossing_ceiling p) = AUTHORED ↔
  ∃ key, cc_key (_crossing_ceiling p) = Some key ∧ key ∈ (HEADERS ++ ["message_id"%string]) ∧
    key ∈ (p_propagates p).*1 ∧ key ∈ p_inbound p ∧ key ∈ p_outbound p ∧ key ∉ p_sets p.
Proof.
  unfold _crossing_ceiling. destruct (find _ _) as [key|] eqn:E.
  - apply find_some in E as [Hin H]. rewrite !andb_true_iff, negb_true_iff in H.
    unfold mem, has in H. rewrite !bool_decide_eq_true, bool_decide_eq_false in H.
    split; [|done]. intros _. exists key. rewrite list_elem_of_In. naive_solver.
  - destruct (bool_decide _); [split; [done|naive_solver]|].
    destruct (mem _ _); (split; [done|naive_solver]).
Qed.
