(* ===== verification/Dedup.v ===== *)
(** * Dedup: dropping redelivered observations, grouping the others

    [exact._deduplicated] and [timing._deduplicated] are the same loop over two
    kinds of observation: validate, drop an identity already seen with the same
    content, refuse one seen with another content.  The loop is stated once, over
    the validation, the identity and the content of an observation.  [group] is the
    [defaultdict(list)] both modules fill, by side and by value. *)

From S2P Require Import Prelude.

Section dedup.
Context {O I C : Type} {eqI : EqDecision I} {cntI : Countable I} {eqC : EqDecision C}.
Context (validate : O → res unit) (identity : O → I) (content : O → C).

Definition dedup_step (st : gmap I C * list O * Z) (o : O) : res (gmap I C * list O * Z) :=
  let '(seen, distinct, dropped) := st in
  _ ← validate o;
  match seen !! identity o with
  | Some c =>
      if bool_decide (c = content o) then Ok (seen, distinct, dropped + 1)
      else Raise (ValueError "observation delivered with different content")
  | None => Ok (<[identity o := content o]> seen, distinct ++ [o], dropped)
  end.
Definition deduplicate (os : list O) : res (list O * Z) :=
  '(_, distinct, dropped) ← fold_res dedup_step os (∅, [], 0);
  Ok (distinct, dropped).

(** ** Lemmas *)

(** The content tells everything but the identity. *)
Context (content_inj : ∀ a b, identity a = identity b → content a = content b → a = b).

Definition consistent (os : list O) : Prop :=
  ∀ a b, a ∈ os → b ∈ os → identity a = identity b → a = b.

Record dedup_ok (done : list O) (st : gmap I C * list O * Z) : Prop := {
  dd_seen i c : st.1.1 !! i = Some c ↔ ∃ o, o ∈ st.1.2 ∧ identity o = i ∧ content o = c;
  dd_elem o : o ∈ st.1.2 ↔ o ∈ done;
  dd_once : NoDup (identity <$> st.1.2);
  dd_count : Z.of_nat (length done) = Z.of_nat (length st.1.2) + st.2
}.

Lemma dedup_ok_init : dedup_ok [] (∅, [], 0).
Proof.
  split; simpl; [|done|constructor|done]. intros i c. rewrite lookup_empty. split; [done|].
  by intros (o & ?%not_elem_of_nil & _).
Qed.

Lemma dedup_step_ok done st o st' : dedup_ok done st → dedup_step st o = Ok st' →
  dedup_ok (done ++ [o]) st' ∧ validate o = Ok tt ∧
  (∀ a, a ∈ done → identity a = identity o → a = o).
Proof.
  destruct st as [[seen distinct] dropped]. intros [Hs He Hn Hc] H. simpl in *.
  apply bind_Ok in H as ([] & Hv & H).
  destruct (seen !! identity o) as [c|] eqn:Es.
  - case_bool_decide as Ec; [|done]. injection H as <-. subst c.
    apply Hs in Es as (o' & Ho' & Ei & Ec). assert (o' = o) as -> by by apply content_inj.
    split; [|split; [done|]].
    + split; simpl; [done| |done|rewrite length_app; simpl; lia].
      intros a. rewrite elem_of_app, list_elem_of_singleton, <- He. naive_solver.
    + intros a Ha E. apply He in Ha. by apply (NoDup_fmap_inj identity distinct).
  - injection H as <-. assert (∀ a, a ∈ distinct → identity a ≠ identity o) as Hnew.
    { intros a Ha E. assert (seen !! identity o = Some (content a)) as Es' by (apply Hs; eauto).
      congruence. }
    split; [|split; [done|]].
    + split; simpl.
      * intros i c. rewrite lookup_insert_Some, Hs. setoid_rewrite elem_of_app.
        setoid_rewrite list_elem_of_singleton. split.
        -- intros [[<- <-]|[Hne (a & Ha & Ei & Ec)]]; [exists o; auto|exists a; auto].
        -- intros (a & [Ha| ->] & Ei & Ec); [right|by left; subst].
           split; [intros E; by apply (Hnew a Ha); congruence|eauto].
      * intros a. by rewrite !elem_of_app, He.
      * rewrite fmap_app. apply NoDup_app. split; [done|]. split; [|apply NoDup_singleton].
        intros i (a & -> & Ha)%list_elem_of_fmap. simpl. rewrite list_elem_of_singleton. by apply Hnew.
      * rewrite !length_app. simpl. lia.
    + intros a Ha E. apply He in Ha. by destruct (Hnew a Ha).
Qed.

Lemma dedup_steps_ok os done st st' : dedup_ok done st → consistent done →
  fold_res dedup_step os st = Ok st' →
  dedup_ok (done ++ os) st' ∧ Forall (λ o, validate o = Ok tt) os ∧ consistent (done ++ os).
Proof.
  revert done st. induction os as [|o os IH]; intros done st Hst Hcons H; simpl in H.
  { injection H as <-. by rewrite app_nil_r. }
  apply bind_Ok in H as (st1 & H1 & H). destruct (dedup_step_ok _ _ _ _ Hst H1) as (Hst1 & Hv & Hu).
  assert (consistent (done ++ [o])) as Hcons1.
  { intros a b. rewrite !elem_of_app, !list_elem_of_singleton.
    intros [Ha| ->] [Hb| ->] E; [by apply Hcons|by apply Hu|symmetry; by apply Hu|done]. }
  destruct (IH _ _ Hst1 Hcons1 H) as (H2 & Hf & Hc). rewrite <- app_assoc in H2, Hc.
  split; [done|]. by split; [constructor|].
Qed.

(** What a run that does not raise returns. *)
Lemma deduplicate_spec os distinct dropped : deduplicate os = Ok (distinct, dropped) →
  Forall (λ o, validate o = Ok tt) os ∧ consistent os ∧
  NoDup (identity <$> distinct) ∧ (∀ o, o ∈ distinct ↔ o ∈ os) ∧
  Z.of_nat (length os) = Z.of_nat (length distinct) + dropped.
Proof.
  unfold deduplicate. intros H. apply bind_Ok in H as ([[seen d] n] & H & [= -> ->]).
  assert (consistent []) as Hnil by by intros a b ?%not_elem_of_nil.
  destruct (dedup_steps_ok os [] _ _ dedup_ok_init Hnil H) as (Hd & Hv & Hc).
  destruct Hd as [_ He Hn Hl]. by split_and!.
Qed.

(** A valid and consistent journal does not raise. *)
Lemma deduplicate_total os : Forall (λ o, validate o = Ok tt) os → consistent os →
  ∃ distinct dropped, deduplicate os = Ok (distinct, dropped).
Proof.
  intros Hv Hc. unfold deduplicate.
  assert (∀ todo done st, dedup_ok done st → consistent (done ++ todo) →
    Forall (λ o, validate o = Ok tt) todo → ∃ st', fold_res dedup_step todo st = Ok st') as Hrun.
  { clear Hv Hc. induction todo as [|o todo IH]; intros done st Hst Hcons Hv; simpl; [eauto|].
    inversion Hv as [|? ? Hvo Hv']; subst.
    assert (∃ st1, dedup_step st o = Ok st1) as [st1 E].
    { destruct st as [[seen d] n]. simpl. rewrite Hvo. simpl.
      destruct (seen !! identity o) as [c|] eqn:Es; [|eauto].
      apply (dd_seen _ _ Hst) in Es as (a & Ha & Ei & Ec). simpl in Ha.
      rewrite bool_decide_eq_true_2; [eauto|]. rewrite <- Ec. f_equal.
      apply Hcons; [|apply elem_of_app; right; left|done].
      apply elem_of_app. left. by apply (dd_elem _ _ Hst). }
    rewrite E. simpl. destruct (dedup_step_ok _ _ _ _ Hst E) as (Hst1 & _).
    apply (IH _ _ Hst1); [by rewrite <- app_assoc|done]. }
  destruct (Hrun os [] _ dedup_ok_init Hc Hv) as [[[s d] n] ->]. simpl. eauto.
Qed.

(** The order of delivery, and redelivery, do not matter. *)
Lemma deduplicate_perm os os' distinct dropped : os ≡ₚ os' →
  deduplicate os = Ok (distinct, dropped) →
  ∃ distinct', deduplicate os' = Ok (distinct', dropped) ∧ distinct ≡ₚ distinct'.
Proof.
  intros Hp H. apply deduplicate_spec in H as (Hv & Hc & Hn & He & Hl).
  destruct (deduplicate_total os') as (d' & n' & E).
  - rewrite Forall_forall in *. intros o Ho. apply Hv. by rewrite Hp.
  - intros a b Ha Hb. rewrite <- Hp in Ha, Hb. by apply Hc.
  - apply deduplicate_spec in E as E2. destruct E2 as (_ & _ & Hn' & He' & Hl').
    assert (distinct ≡ₚ d') as Hd.
    { apply NoDup_Permutation; [by eapply NoDup_fmap_1..|]. intros o. by rewrite He, He', Hp. }
    exists d'. split; [|done]. rewrite E. do 2 f_equal.
    apply Permutation_length in Hp, Hd. lia.
Qed.

Lemma deduplicate_again os o distinct dropped : o ∈ os →
  deduplicate os = Ok (distinct, dropped) →
  deduplicate (os ++ [o]) = Ok (distinct, dropped + 1).
Proof.
  intros Ho H. pose proof (deduplicate_spec _ _ _ H) as (Hv & _).
  rewrite Forall_forall in Hv. unfold deduplicate in *.
  apply bind_Ok in H as ([[seen d] n] & H & [= -> ->]). rewrite fold_res_app, H.
  assert (consistent []) as Hnil by by intros a b ?%not_elem_of_nil.
  destruct (dedup_steps_ok os [] _ _ dedup_ok_init Hnil H) as (Hd & _ & _).
  cbn [mbind res_bind fold_res]. unfold dedup_step. rewrite Hv by done. cbn [mbind res_bind].
  assert (seen !! identity o = Some (content o)) as ->.
  { apply (dd_seen _ _ Hd). exists o. split; [by apply (dd_elem _ _ Hd)|done]. }
  by rewrite bool_decide_eq_true_2.
Qed.
End dedup.

(** ** [d = defaultdict(list); for k, x in items: d[k].append(x)] *)

Section group.
Context {K A : Type} `{Countable K}.
Implicit Types (k : K) (items : list (K * A)).

Definition group_step (d : gmap K (list A)) (item : K * A) : gmap K (list A) :=
  <[item.1 := default [] (d !! item.1) ++ [item.2]]> d.
Definition group items : gmap K (list A) := foldl group_step ∅ items.
(** [d[k]] of the [defaultdict]. *)
Definition at_key (d : gmap K (list A)) k : list A := default [] (d !! k).

(** The values under a key, in the order of the items. *)
Definition under k items : list A :=
  snd <$> List.filter (λ item, bool_decide (item.1 = k)) items.

Lemma under_app k l l' : under k (l ++ l') = under k l ++ under k l'.
Proof. unfold under. by rewrite List.filter_app, fmap_app. Qed.

Lemma under_one k k' x : under k [(k', x)] = if decide (k' = k) then [x] else [].
Proof. unfold under. cbn [List.filter fst]. rewrite bool_decide_decide. by destruct (decide _). Qed.

Lemma elem_of_under k items x : x ∈ under k items ↔ (k, x) ∈ items.
Proof.
  unfold under. rewrite list_elem_of_fmap. setoid_rewrite elem_of_filter_bool.
  setoid_rewrite bool_decide_eq_true. split; [by intros ([? ?] & -> & ? & <-)|].
  intros Hx. by exists (k, x).
Qed.

Lemma under_perm k l l' : l ≡ₚ l' → under k l ≡ₚ under k l'.
Proof. intros Hp. unfold under. by apply fmap_Permutation, filter_bool_perm. Qed.

(** A key is present exactly when an item has it. *)
Lemma group_lookup items k :
  group items !! k = if bool_decide (k ∈ items.*1) then Some (under k items) else None.
Proof.
  unfold group. induction items as [|[k' a] items IH] using rev_ind; [done|].
  rewrite foldl_snoc. unfold group_step at 1. cbn [fst snd].
  rewrite under_app, fmap_app. change (fst <$> [(k', a)]) with [k'].
  assert (default [] (foldl group_step ∅ items !! k) = under k items) as Hd.
  { rewrite IH. case_bool_decide as Hk; [done|]. simpl. symmetry.
    destruct (under k items) as [|x l] eqn:E; [done|]. exfalso. apply Hk.
    assert (x ∈ under k items) as Hx%elem_of_under by (rewrite E; left).
    apply list_elem_of_fmap. by exists (k, x). }
  destruct (decide (k = k')) as [<- |Hne].
  - rewrite lookup_insert_eq, Hd, bool_decide_eq_true_2 by set_solver.
    rewrite under_one. by rewrite decide_True.
  - rewrite lookup_insert_ne, IH by done. unfold under at 3. simpl.
    rewrite (bool_decide_eq_false_2 (k' = k)) by done. simpl. rewrite app_nil_r.
    by rewrite (bool_decide_ext (k ∈ items.*1 ++ [k']) (k ∈ items.*1)) by set_solver.
Qed.

Lemma at_key_group items k : at_key (group items) k = under k items.
Proof.
  unfold at_key. rewrite group_lookup. case_bool_decide as Hk; [done|]. simpl. symmetry.
  destruct (under k items) as [|x l] eqn:E; [done|]. exfalso. apply Hk.
  assert (x ∈ under k items) as Hx%elem_of_under by (rewrite E; left).
  apply list_elem_of_fmap. by exists (k, x).
Qed.
End group.

(** Grouping a collection under a key of each element. *)
Lemma under_on {K A} `{EqDecision K} (key : A → K) k (l : list A) :
  under k ((λ x, (key x, x)) <$> l) = List.filter (λ x, bool_decide (key x = k)) l.
Proof.
  unfold under. induction l as [|x l IH]; [done|].
  rewrite fmap_cons. cbn [List.filter fst]. rewrite <- IH. by case_bool_decide.
Qed.
