(* ===== verification/Exact.v ===== *)
(** * Exact: links authored by an identifier two observations share

    [correlation/exact.py].  An observation is recorded at a side of a point, with
    the identifiers seen there.  Redeliveries are dropped, then each hop or crossing
    that has a key joins its two sides on the value of that key: a value seen once
    on each side links, one seen more than once on a side is a collision, one seen
    on one side only is unlinked.

    The recorded identifiers are a map: when several of them are refused, the model
    does not say which one the message names. *)

From S2P Require Import Prelude Topology Dedup.

(** ** Data *)

Definition SIDES : list string := ["inbound"; "outbound"]%string.
Definition SEP : string := String (ascii_of_nat 31) "".

Record Observation := mkObs {
  o_source : string;
  o_seq : Z;
  o_point : string;
  o_side : string;
  o_keys : gmap string string
}.
Notation Identity := (string * Z)%type (only parsing).
Record Link := mkLink {
  l_where : string;
  l_key : string;
  l_value : string;
  l_upstream : Identity;
  l_downstream : Identity
}.
Record Collision := mkCollision {
  c_where : string;
  c_key : string;
  c_value : string;
  c_upstream : list Identity;
  c_downstream : list Identity
}.
Record Result := mkResult {
  r_links : list Link;
  r_collisions : list Collision;
  r_unlinked : list (string * Identity);
  r_duplicates_dropped : Z
}.
Global Instance Observation_eq_dec : EqDecision Observation.
Proof. solve_decision. Defined.
Global Instance Link_eq_dec : EqDecision Link.
Proof. solve_decision. Defined.

(** ** Redelivery *)

Definition identity (o : Observation) : Identity := (o_source o, o_seq o).
Definition side_of (o : Observation) : string * string := (o_point o, o_side o).

(** The types of the record already say that the source and the values are strings
    and that the sequence number is an integer. *)
Definition _validate (points : gset string) (o : Observation) : res unit :=
  _ ← check (bool_decide (o_point o ∈ points)) (ValueError "unknown point");
  _ ← check (bool_decide (o_side o ∈ SIDES)) (ValueError "side must be inbound or outbound");
  fold_res (λ _ e,
      _ ← check (bool_decide (e.1 ∈ IDENTIFIERS)) (ValueError "unknown identifier");
      check (negb (bool_decide (e.2 = ""%string))) (ValueError "empty value"))
    (map_to_list (o_keys o)) tt.

Definition content (o : Observation) : string * string * list (string * string) :=
  (o_point o, o_side o, sorted (map_to_list (o_keys o))).
Definition point_names (topology : Topology) : gset string :=
  list_to_set (p_name <$> t_points topology).
Definition _deduplicated (topology : Topology) (os : list Observation)
    : res (list Observation * Z) :=
  deduplicate (_validate (point_names topology)) identity content os.

(** ** Joining *)

Definition _value_of (o : Observation) (key : string) : option string := o_keys o !! key.
Definition _composite_of (o : Observation) (identifiers : list string) : option string :=
  if forallb (λ i, bool_decide (is_Some (o_keys o !! i))) identifiers
  then Some (join SEP (omap (λ i, o_keys o !! i) identifiers))
  else None.
Definition observed_key (identifiers : list string) : string := join "+" identifiers.

(** A join reads two sides with a key, a name or several. *)
Record Join (Key : Type) := mkJoin {
  j_where : string;
  j_key : Key;
  j_up : string * string;
  j_down : string * string
}.
Arguments mkJoin {Key}. Arguments j_where {Key}. Arguments j_key {Key}.
Arguments j_up {Key}. Arguments j_down {Key}.

Definition by_side_of (os : list Observation) : gmap (string * string) (list Observation) :=
  group ((λ o, (side_of o, o)) <$> os).

Section join.
Context {Key : Type} (name_of : Key → string) (value_of : Observation → Key → option string).

Definition values_of (os : list Observation) (key : Key) : list (string * Identity) :=
  omap (λ o, (λ v, (v, identity o)) <$> value_of o key) os.
Definition _by_value (os : list Observation) (key : Key) : gmap string (list Identity) :=
  sorted <$> group (values_of os key).

(** What one value of one join adds to the three lists of the result. *)
Inductive Outcome :=
| Linked (l : Link)
| Collided (c : Collision)
| Unlinked (where_ : string) (o : Identity).
Definition outcome (where_ name : string) (up down : gmap string (list Identity)) (value : string)
    : list Outcome :=
  let ups := at_key up value in
  let downs := at_key down value in
  if (1 <? Z.of_nat (length ups)) || (1 <? Z.of_nat (length downs))
  then [Collided (mkCollision where_ name value ups downs)]
  else match ups, downs with
       | u :: _, d :: _ => [Linked (mkLink where_ name value u d)]
       | u :: _, [] => [Unlinked where_ u]
       | [], d :: _ => [Unlinked where_ d]
       | [], [] => []   (* not met: the value is a key of one of the two *)
       end.
Definition join_outcomes (by_side : gmap (string * string) (list Observation)) (j : Join Key)
    : list Outcome :=
  let up := _by_value (at_key by_side (j_up j)) (j_key j) in
  let down := _by_value (at_key by_side (j_down j)) (j_key j) in
  sorted (elements (dom up ∪ dom down)) ≫= outcome (j_where j) (name_of (j_key j)) up down.

Definition the_link (x : Outcome) : option Link := match x with Linked l => Some l | _ => None end.
Definition the_collision (x : Outcome) : option Collision :=
  match x with Collided c => Some c | _ => None end.
Definition the_unlinked (x : Outcome) : option (string * Identity) :=
  match x with Unlinked w o => Some (w, o) | _ => None end.

Definition _join (joins : list (Join Key)) (by_side : gmap (string * string) (list Observation))
    (dropped : Z) : Result :=
  let outcomes := joins ≫= join_outcomes by_side in
  mkResult
    (sorted_by (λ l, (l_where l, l_key l, l_value l)) (omap the_link outcomes))
    (sorted_by (λ c, (c_where c, c_key c, c_value c)) (omap the_collision outcomes))
    (sorted (omap the_unlinked outcomes))
    dropped.
End join.

(** ** The two entry points *)

Definition exact_joins (topology : Topology) : list (Join string) :=
  omap (λ hop, (λ key, mkJoin (hop_where (hc_src hop) (hc_dst hop)) key
                         (hc_src hop, "outbound"%string) (hc_dst hop, "inbound"%string))
               <$> hc_key hop) (t_hops topology) ++
  omap (λ c, (λ key, mkJoin (cc_point c) key
                       (cc_point c, "inbound"%string) (cc_point c, "outbound"%string))
             <$> cc_key c) (t_crossings topology).
Definition exact_links (topology : Topology) (os : list Observation) : res Result :=
  '(distinct, dropped) ← _deduplicated topology os;
  Ok (_join id _value_of (exact_joins topology) (by_side_of distinct) dropped).

Definition observed_joins (topology : Topology) : list (Join (list string)) :=
  omap (λ hop, (λ key, mkJoin (hop_where (hc_src hop) (hc_dst hop)) key
                         (hc_src hop, "outbound"%string) (hc_dst hop, "inbound"%string))
               <$> hc_observed hop) (t_hops topology).
Definition observed_links (topology : Topology) (os : list Observation) : res Result :=
  '(distinct, dropped) ← _deduplicated topology os;
  Ok (_join observed_key _composite_of (observed_joins topology) (by_side_of distinct) dropped).

(** ** Lemmas: redelivery *)

Lemma obs_content_inj a b : identity a = identity b → content a = content b → a = b.
Proof.
  destruct a as [s n p d k], b as [s' n' p' d' k']. unfold identity, content. simpl.
  intros [= -> ->] [= -> -> Hk]. f_equal. apply map_to_list_inj.
  rewrite <- (sorted_by_perm (λ x, x) (map_to_list k)).
  rewrite <- (sorted_by_perm (λ x, x) (map_to_list k')). by unfold sorted in Hk; rewrite Hk.
Qed.

Lemma deduplicated_spec topology os distinct dropped :
  _deduplicated topology os = Ok (distinct, dropped) →
  NoDup (identity <$> distinct) ∧ (∀ o, o ∈ distinct ↔ o ∈ os).
Proof.
  intros H. by apply (deduplicate_spec _ _ _ obs_content_inj) in H as (_ & _ & ? & ? & _).
Qed.

(** ** Lemmas: joining *)

Section join_lemmas.
Context {Key : Type} (value_of : Observation → Key → option string).
Implicit Types (os : list Observation) (key : Key) (v : string).

Lemma elem_of_values_of os key v u :
  (v, u) ∈ values_of value_of os key ↔ ∃ o, o ∈ os ∧ value_of o key = Some v ∧ identity o = u.
Proof.
  unfold values_of. rewrite list_elem_of_omap. split.
  - intros (o & Ho & E). destruct (value_of o key) eqn:Ev; simplify_eq/=. eauto.
  - intros (o & Ho & Ev & <-). exists o. by rewrite Ev.
Qed.

Lemma values_of_NoDup os key v : NoDup (identity <$> os) →
  NoDup (under v (values_of value_of os key)).
Proof.
  intros Hnd. eapply sublist_NoDup; [done|].
  clear Hnd. unfold values_of, under. induction os as [|o os IH]; [done|].
  cbn [omap list_omap fmap list_fmap]. destruct (value_of o key) as [w|]; cbn [fmap option_fmap option_map].
  - cbn [List.filter fst]. case_bool_decide; cbn; by constructor.
  - by constructor.
Qed.

Lemma at_by_value os key v :
  at_key (_by_value value_of os key) v = sorted (under v (values_of value_of os key)).
Proof.
  rewrite <- at_key_group. unfold _by_value, at_key. rewrite lookup_fmap.
  by destruct (group _ !! v).
Qed.

Lemma dom_by_value os key v :
  v ∈ dom (_by_value value_of os key) ↔ ∃ o, o ∈ os ∧ value_of o key = Some v.
Proof.
  unfold _by_value. rewrite dom_fmap, elem_of_dom, group_lookup. case_bool_decide as Hv.
  - split; [|eauto]. intros _. apply list_elem_of_fmap in Hv as ([w u] & -> & Hw).
    apply elem_of_values_of in Hw as (o & ? & ? & _). eauto.
  - split; [by intros []|]. intros (o & Ho & E). destruct Hv. apply list_elem_of_fmap.
    exists (v, identity o). split; [done|]. apply elem_of_values_of. eauto.
Qed.

(** The identities a value has on a side. *)
Definition holders os side key v : list Identity :=
  at_key (_by_value value_of (at_key (by_side_of os) side) key) v.

Lemma elem_of_side os side o : o ∈ at_key (by_side_of os) side ↔ o ∈ os ∧ side_of o = side.
Proof.
  unfold by_side_of. rewrite at_key_group, under_on, elem_of_filter_bool.
  by rewrite bool_decide_eq_true.
Qed.

Lemma elem_of_holders os side key v u : u ∈ holders os side key v ↔
  ∃ o, o ∈ os ∧ side_of o = side ∧ value_of o key = Some v ∧ identity o = u.
Proof.
  unfold holders. rewrite at_by_value. unfold sorted. rewrite elem_of_sorted_by.
  rewrite elem_of_under, elem_of_values_of. setoid_rewrite elem_of_side. naive_solver.
Qed.

Lemma holders_NoDup os side key v : NoDup (identity <$> os) → NoDup (holders os side key v).
Proof.
  intros Hnd. unfold holders. rewrite at_by_value. unfold sorted. rewrite sorted_by_perm.
  apply values_of_NoDup. unfold by_side_of. rewrite at_key_group, under_on.
  by apply NoDup_filter_bool.
Qed.

(** Seen exactly once on a side. *)
Definition sole os side key v u : Prop :=
  (∃ o, o ∈ os ∧ side_of o = side ∧ value_of o key = Some v ∧ identity o = u) ∧
  ∀ o, o ∈ os → side_of o = side → value_of o key = Some v → identity o = u.

Lemma holders_sole os side key v u : NoDup (identity <$> os) →
  (holders os side key v = [u] ↔ sole os side key v u).
Proof.
  intros Hnd. rewrite NoDup_singleton_iff by by apply holders_NoDup.
  setoid_rewrite elem_of_holders. unfold sole. split; intros [H1 H2]; (split; [done|]).
  - intros o ???. apply H2. eauto.
  - intros y (o & ? & ? & ? & <-). eauto.
Qed.

Lemma sole_ext os os' side key v u : (∀ o, o ∈ os ↔ o ∈ os') →
  (sole os side key v u ↔ sole os' side key v u).
Proof. intros E. unfold sole. by setoid_rewrite E. Qed.

Context (name_of : Key → string).

Lemma elem_of_outcomes os j x :
  x ∈ join_outcomes name_of value_of (by_side_of os) j ↔
  ∃ v, (∃ o, o ∈ os ∧ (side_of o = j_up j ∨ side_of o = j_down j) ∧ value_of o (j_key j) = Some v) ∧
    x ∈ outcome (j_where j) (name_of (j_key j))
          (_by_value value_of (at_key (by_side_of os) (j_up j)) (j_key j))
          (_by_value value_of (at_key (by_side_of os) (j_down j)) (j_key j)) v.
Proof.
  unfold join_outcomes. rewrite list_elem_of_bind. apply exist_proper. intros v.
  unfold sorted. rewrite elem_of_sorted_by, elem_of_elements, elem_of_union, !dom_by_value.
  setoid_rewrite elem_of_side. naive_solver.
Qed.

Lemma linked_outcome where_ name up down v l : Linked l ∈ outcome where_ name up down v ↔
  l_where l = where_ ∧ l_key l = name ∧ l_value l = v ∧
  at_key up v = [l_upstream l] ∧ at_key down v = [l_downstream l].
Proof.
  unfold outcome. destruct l as [w n v' u d].
  assert (∀ k, (1 <? Z.of_nat (S (S k))) = true) as Hk by (intros; apply Z.ltb_lt; lia).
  destruct (at_key up v) as [|u1 [|u2 us]], (at_key down v) as [|d1 [|d2 ds]]; cbn [length];
    rewrite ?Hk, ?orb_true_r; simpl; rewrite ?list_elem_of_singleton, ?elem_of_nil; naive_solver.
Qed.

(** Whatever the value, the observations that hold it are reported. *)
Lemma outcome_reports where_ name up down v u : u ∈ at_key up v ++ at_key down v →
  ∃ x, x ∈ outcome where_ name up down v ∧
    match x with
    | Linked l => l_where l = where_ ∧ l_value l = v ∧ (u = l_upstream l ∨ u = l_downstream l)
    | Collided c => c_where c = where_ ∧ c_value c = v ∧
        (u ∈ c_upstream c ∨ u ∈ c_downstream c) ∧
        (1 < length (c_upstream c) ∨ 1 < length (c_downstream c))%nat
    | Unlinked w o => w = where_ ∧ o = u
    end.
Proof.
  intros Hu. unfold outcome.
  destruct ((1 <? _) || _) eqn:E.
  - eexists; split; [apply list_elem_of_singleton; done|]. simpl.
    apply elem_of_app in Hu. apply orb_true_iff in E. rewrite !Z.ltb_lt in E.
    split_and!; [done|done|done|]. lia.
  - apply orb_false_iff in E as [E1 E2]. rewrite Z.ltb_ge in E1, E2.
    destruct (at_key up v) as [|u1 [|]], (at_key down v) as [|d1 [|]]; simpl in *; try lia.
    + by apply not_elem_of_nil in Hu.
    + eexists; split; [by left|]. simpl. set_solver.
    + eexists; split; [by left|]. simpl. set_solver.
    + eexists; split; [by left|]. simpl. set_solver.
Qed.

Lemma elem_of_links joins os dropped l :
  l ∈ r_links (_join name_of value_of joins (by_side_of os) dropped) ↔
  ∃ j, j ∈ joins ∧ l_where l = j_where j ∧ l_key l = name_of (j_key j) ∧
    holders os (j_up j) (j_key j) (l_value l) = [l_upstream l] ∧
    holders os (j_down j) (j_key j) (l_value l) = [l_downstream l].
Proof.
  unfold _join; simpl. rewrite elem_of_sorted_by, list_elem_of_omap.
  setoid_rewrite list_elem_of_bind. setoid_rewrite elem_of_outcomes. split.
  - intros (x & (j & (v & _ & Hx) & Hj) & E). destruct x; simplify_eq/=.
    apply linked_outcome in Hx as (? & ? & <- & ? & ?). eauto 10.
  - intros (j & Hj & Hw & Hn & Hu & Hd). exists (Linked l). split; [|done]. exists j.
    split; [|done]. exists (l_value l). split; [|by apply linked_outcome].
    assert (l_upstream l ∈ holders os (j_up j) (j_key j) (l_value l)) as Hin by (rewrite Hu; left).
    apply elem_of_holders in Hin as (o & ? & ? & ? & _). eauto 10.
Qed.

(** Joins with distinct names give distinct links. *)
Lemma links_NoDup joins os dropped : NoDup (j_where <$> joins) →
  NoDup (r_links (_join name_of value_of joins (by_side_of os) dropped)).
Proof.
  intros Hnd. unfold _join; simpl. rewrite sorted_by_perm, omap_bind, bind_bind.
  assert (∀ j l, l ∈ join_outcomes name_of value_of (by_side_of os) j ≫= (λ x, option_list (the_link x)) →
    l_where l = j_where j) as Hwhere.
  { intros j l (x & Hl & Hx)%list_elem_of_bind. apply elem_of_outcomes in Hx as (v & _ & Hx).
    destruct x; simpl in Hl; [|by apply not_elem_of_nil in Hl..].
    apply list_elem_of_singleton in Hl as ->. by apply linked_outcome in Hx as (? & _). }
  apply (NoDup_bind_keys j_where); [done| |].
  - intros j _. unfold join_outcomes. rewrite bind_bind. apply (NoDup_bind_keys id).
    + rewrite list_fmap_id. unfold sorted. rewrite sorted_by_perm. apply NoDup_elements.
    + intros v _. unfold outcome. destruct (_ || _); [constructor|].
      destruct (at_key _ v), (at_key _ v); simpl; repeat constructor; apply not_elem_of_nil.
    + intros v w l _ _ (x & Hl & Hx)%list_elem_of_bind (y & Hl' & Hy)%list_elem_of_bind.
      destruct x, y; simpl in *; try by apply not_elem_of_nil in Hl; try by apply not_elem_of_nil in Hl'.
      all: try by apply not_elem_of_nil in Hl'.
      apply list_elem_of_singleton in Hl as ->. apply list_elem_of_singleton in Hl' as ->.
      apply linked_outcome in Hx as (_ & _ & <- & _), Hy as (_ & _ & <- & _). done.
  - intros j j' l _ _ Hl Hl'. by rewrite <- (Hwhere _ _ Hl), <- (Hwhere _ _ Hl').
Qed.

(** ** Lemmas: the order of the observations does not matter *)

Lemma by_value_perm os os' key : os ≡ₚ os' → _by_value value_of os key = _by_value value_of os' key.
Proof.
  intros Hp. apply map_eq. intros v. unfold _by_value. rewrite !lookup_fmap, !group_lookup.
  assert (values_of value_of os key ≡ₚ values_of value_of os' key) as Hv.
  { unfold values_of. by rewrite Hp. }
  rewrite (bool_decide_ext (v ∈ (values_of value_of os key).*1)
             (v ∈ (values_of value_of os' key).*1)) by by rewrite Hv.
  case_bool_decide; [|done]. simpl. f_equal. by apply sorted_perm_eq, under_perm.
Qed.

Lemma join_perm joins os os' dropped : os ≡ₚ os' →
  _join name_of value_of joins (by_side_of os) dropped =
  _join name_of value_of joins (by_side_of os') dropped.
Proof.
  intros Hp. unfold _join.
  assert (∀ j, join_outcomes name_of value_of (by_side_of os) j =
               join_outcomes name_of value_of (by_side_of os') j) as Hj.
  { intros j. unfold join_outcomes.
    assert (∀ side, at_key (by_side_of os) side ≡ₚ at_key (by_side_of os') side) as Hs.
    { intros side. unfold by_side_of. rewrite !at_key_group. apply under_perm. by rewrite Hp. }
    by rewrite !(by_value_perm _ _ _ (Hs _)). }
  by rewrite (list_bind_ext _ _ joins joins Hj eq_refl).
Qed.
End join_lemmas.

(** ** Lemmas: composite values *)

(** The recorded values of a list of identifiers, when all are recorded. *)
Definition recorded (o : Observation) (identifiers : list string) : option (list string) :=
  mapM (λ i, o_keys o !! i) identifiers.

Lemma composite_recorded o ids :
  _composite_of o ids = join SEP <$> recorded o ids.
Proof.
  unfold _composite_of. assert (∀ ids,
    (if forallb (λ i, bool_decide (is_Some (o_keys o !! i))) ids
     then Some (omap (λ i, o_keys o !! i) ids) else None) = recorded o ids) as H.
  { clear ids. induction ids as [|i ids IH]; [done|]. unfold recorded in *. simpl.
    rewrite <- IH. destruct (o_keys o !! i) as [w|] eqn:E; simpl.
    - by destruct (forallb _ ids).
    - done. }
  rewrite <- H. by destruct (forallb _ ids).
Qed.

Lemma recorded_length o ids vs : recorded o ids = Some vs → length vs = length ids.
Proof. intros H. symmetry. by apply length_mapM in H. Qed.

(** Values free of the separator are told apart by the composite. *)
Lemma composite_inj (ids vs ws : list string) : length vs = length ids → length ws = length ids → ids ≠ [] →
  Forall (λ v, lacks (ascii_of_nat 31) v = true) vs →
  Forall (λ v, lacks (ascii_of_nat 31) v = true) ws →
  join SEP vs = join SEP ws → vs = ws.
Proof.
  intros Hv Hw Hne. apply join_inj; intros ->; by destruct ids.
Qed.

(** The links of a run that does not raise. *)
Lemma elem_of_exact_links topology os result l :
  exact_links topology os = Ok result →
  l ∈ r_links result ↔
  ∃ j, j ∈ exact_joins topology ∧ l_where l = j_where j ∧ l_key l = j_key j ∧
    sole _value_of os (j_up j) (j_key j) (l_value l) (l_upstream l) ∧
    sole _value_of os (j_down j) (j_key j) (l_value l) (l_downstream l).
Proof.
  unfold exact_links. intros H. apply bind_Ok in H as ([distinct dropped] & Hd & [= <-]).
  apply deduplicated_spec in Hd as [Hn He]. rewrite elem_of_links.
  apply exist_proper. intros j.
  rewrite !holders_sole by done.
  by rewrite !(sole_ext _value_of distinct os _ _ _ _ He).
Qed.
Lemma exact_links_NoDup topology os result :
  exact_links topology os = Ok result → NoDup (j_where <$> exact_joins topology) →
  NoDup (r_links result).
Proof. unfold exact_links. intros H. apply bind_Ok in H as ([d n] & _ & [= <-]). apply links_NoDup. Qed.

(** ** Guarantees *)

(** C29: a link is an authored fact seen exactly once on each side.  For a topology
    and a journal of observations that [exact_links] accepts, a link is returned if
    and only if some authored hop (or crossing) has this name and this identifier,
    all the deliveries that record the value on its upstream side are of one
    observation, the upstream end of the link, and all those on its downstream side
    of one observation, the downstream end. *)
Theorem exact_link_iff topology os result l :
  exact_links topology os = Ok result →
  l ∈ r_links result ↔
  ∃ j, j ∈ exact_joins topology ∧ l_where l = j_where j ∧ l_key l = j_key j ∧
    sole _value_of os (j_up j) (j_key j) (l_value l) (l_upstream l) ∧
    sole _value_of os (j_down j) (j_key j) (l_value l) (l_downstream l).
Proof. apply elem_of_exact_links. Qed.

(** The order of delivery and redelivery do not matter: permuting the
    observations leaves the whole result unchanged, and delivering one of them once
    more only adds one to the count of dropped duplicates. *)
Theorem exact_order_free topology os os' result :
  exact_links topology os = Ok result → os ≡ₚ os' →
  exact_links topology os' = Ok result ∧
  ∀ o, o ∈ os → exact_links topology (os' ++ [o]) =
    Ok (mkResult (r_links result) (r_collisions result) (r_unlinked result)
          (r_duplicates_dropped result + 1)).
Proof.
  unfold exact_links. intros H Hp. apply bind_Ok in H as ([distinct dropped] & Hd & [= <-]).
  destruct (deduplicate_perm _ _ _ obs_content_inj _ _ _ _ Hp Hd) as (distinct' & Hd' & Hp').
  assert (∀ n, _join id _value_of (exact_joins topology) (by_side_of distinct) n =
               _join id _value_of (exact_joins topology) (by_side_of distinct') n) as Hj
    by (intros n; by apply join_perm).
  unfold _deduplicated. rewrite Hd'. simpl. rewrite <- Hj. split; [done|].
  intros o Ho. rewrite Hp in Ho.
  rewrite (deduplicate_again _ _ _ obs_content_inj _ o _ _ Ho Hd'). simpl. by rewrite <- Hj.
Qed.

(** Nothing that carries the identifier is lost.  Every observation on a side of
    an authored hop or crossing that records its identifier is the end of a link, or
    one of those of a collision of that value, where one of the two sides holds
    more than one observation, or is listed as unlinked. *)
Theorem exact_reported topology os result j o v :
  exact_links topology os = Ok result → j ∈ exact_joins topology → o ∈ os →
  (side_of o = j_up j ∨ side_of o = j_down j) → _value_of o (j_key j) = Some v →
  (∃ l, l ∈ r_links result ∧ l_where l = j_where j ∧ l_value l = v ∧
     (identity o = l_upstream l ∨ identity o = l_downstream l)) ∨
  (∃ c, c ∈ r_collisions result ∧ c_where c = j_where j ∧ c_value c = v ∧
     (identity o ∈ c_upstream c ∨ identity o ∈ c_downstream c) ∧
     (1 < length (c_upstream c) ∨ 1 < length (c_downstream c))%nat) ∨
  (j_where j, identity o) ∈ r_unlinked result.
Proof.
  unfold exact_links. intros H Hj Ho Hs Hv. apply bind_Ok in H as ([distinct n] & Hd & [= <-]).
  apply deduplicated_spec in Hd as [Hn He]. apply He in Ho.
  assert (identity o ∈ holders _value_of distinct (j_up j) (j_key j) v ++
                       holders _value_of distinct (j_down j) (j_key j) v) as Hin.
  { rewrite elem_of_app, !elem_of_holders.
    destruct Hs; [left|right]; by exists o. }
  destruct (outcome_reports (j_where j) (j_key j) _ _ v _ Hin) as (x & Hx & Hr).
  assert (x ∈ exact_joins topology ≫= join_outcomes id _value_of (by_side_of distinct)) as Hall.
  { apply list_elem_of_bind. exists j. split; [|done]. apply elem_of_outcomes. exists v.
    split; [by exists o|exact Hx]. }
  unfold _join; simpl. unfold sorted. setoid_rewrite elem_of_sorted_by.
  setoid_rewrite list_elem_of_omap. destruct x as [l|c|w u].
  - left. exists l. destruct Hr as (? & ? & ?). eauto 10.
  - right; left. exists c. destruct Hr as (? & ? & ? & ?). eauto 10.
  - right; right. destruct Hr as [-> ->]. eauto 10.
Qed.

(** An observed link joins on all its connection identifiers together.  Where no
    recorded value holds the separator U+001F, two observations have the same
    composite value exactly when they record the same value for each of the
    identifiers; one that misses an identifier has no composite value. *)
Theorem observed_composite a b identifiers vs ws :
  identifiers ≠ [] →
  recorded a identifiers = Some vs → recorded b identifiers = Some ws →
  Forall (λ v, lacks (ascii_of_nat 31) v = true) vs →
  Forall (λ v, lacks (ascii_of_nat 31) v = true) ws →
  (_composite_of a identifiers = _composite_of b identifiers ↔
   ∀ i, i ∈ identifiers → o_keys a !! i = o_keys b !! i).
Proof.
  intros Hne Ha Hb Hva Hvb. rewrite !composite_recorded, Ha, Hb. simpl. split.
  - intros [= E]. apply (composite_inj identifiers) in E; [|by eapply recorded_length|by eapply recorded_length|done..].
    subst ws. clear -Ha Hb. revert vs Ha Hb. unfold recorded.
    induction identifiers as [|i ids IH]; intros vs Ha Hb k Hk; [by apply not_elem_of_nil in Hk|].
    simpl in *. apply bind_Some in Ha as (x & Ex & Ha), Hb as (y & Ey & Hb).
    apply bind_Some in Ha as (xs & Exs & [= <-]), Hb as (ys & Eys & [= <- <-]).
    apply elem_of_cons in Hk as [-> |Hk]; [congruence|]. eauto.
  - intros E. do 2 f_equal. assert (recorded a identifiers = recorded b identifiers) as Er.
    { unfold recorded. clear -E. induction identifiers as [|i ids IH]; [done|]. simpl.
      rewrite E by left. rewrite IH; [done|]. intros; apply E; by right. }
    congruence.
Qed.

(** ** Witnesses *)

Definition gateway : Point :=
  mkPoint "gateway" "h1" "log" None None ∅ {["request_id"%string]} [] ∅ true.
Definition backend : Point :=
  mkPoint "backend" "h2" "log" None None {["request_id"%string]} ∅ [] ∅ true.
Definition one_hop : Topology :=
  mkTopology [gateway; backend]
    [mkHopCeiling "gateway" "backend" "call" AUTHORED SHARED_HEADER None None
       (Some "request_id"%string) None] [].
Definition sent (n : Z) (v : string) : Observation :=
  mkObs "g.log" n "gateway" "outbound" {["request_id"%string := v]}.
Definition received (n : Z) (v : string) : Observation :=
  mkObs "b.log" n "backend" "inbound" {["request_id"%string := v]}.
(** One request seen on both sides, redelivered once; one identifier used twice. *)
Definition journal : list Observation :=
  [sent 1 "a"; received 1 "a"; sent 1 "a"; sent 2 "b"; sent 3 "b"; received 2 "c"].
Definition the_result : Result :=
  mkResult [mkLink "gateway -> backend" "request_id" "a" ("g.log"%string, 1) ("b.log"%string, 1)]
    [mkCollision "gateway -> backend" "request_id" "b" [("g.log"%string, 2); ("g.log"%string, 3)] []]
    [("gateway -> backend"%string, ("b.log"%string, 2))] 1.
Example journal_result : exact_links one_hop journal = Ok the_result.
Proof. vm_compute. reflexivity. Qed.
(** The same identifier with another value under the same rank is refused. *)
Example journal_contradiction :
  exact_links one_hop [sent 1 "a"; sent 1 "z"] =
  Raise (ValueError "observation delivered with different content").
Proof. vm_compute. reflexivity. Qed.

Lemma exact_link_iff_witness :
  mkLink "gateway -> backend" "request_id" "a" ("g.log"%string, 1) ("b.log"%string, 1)
    ∈ r_links the_result ↔
  ∃ j, j ∈ exact_joins one_hop ∧ "gateway -> backend"%string = j_where j ∧
    "request_id"%string = j_key j ∧
    sole _value_of journal (j_up j) (j_key j) "a" ("g.log"%string, 1) ∧
    sole _value_of journal (j_down j) (j_key j) "a" ("b.log"%string, 1).
Proof. exact (exact_link_iff one_hop journal the_result (mkLink _ _ _ _ _) journal_result). Defined.

Lemma exact_order_free_witness :
  exact_links one_hop (reverse journal) = Ok the_result ∧
  ∀ o, o ∈ journal → exact_links one_hop (reverse journal ++ [o]) =
    Ok (mkResult (r_links the_result) (r_collisions the_result) (r_unlinked the_result) 2).
Proof.
  apply (exact_order_free one_hop journal (reverse journal) the_result journal_result).
  symmetry. apply reverse_Permutation.
Defined.

Lemma exact_reported_witness :
  (∃ l, l ∈ r_links the_result ∧ l_where l = "gateway -> backend"%string ∧
     l_value l = "c"%string ∧
     (("b.log"%string, 2) = l_upstream l ∨ ("b.log"%string, 2) = l_downstream l)) ∨
  (∃ c, c ∈ r_collisions the_result ∧ c_where c = "gateway -> backend"%string ∧
     c_value c = "c"%string ∧
     (("b.log"%string, 2) ∈ c_upstream c ∨ ("b.log"%string, 2) ∈ c_downstream c) ∧
     (1 < length (c_upstream c) ∨ 1 < length (c_downstream c))%nat) ∨
  ("gateway -> backend"%string, ("b.log"%string, 2)) ∈ r_unlinked the_result.
Proof.
  apply (exact_reported one_hop journal the_result
    (mkJoin "gateway -> backend" "request_id" ("gateway", "outbound") ("backend", "inbound"))%string
    (received 2 "c") "c" journal_result).
  - left.
  - do 5 right. left.
  - by right.
  - reflexivity.
Defined.

Definition seen_on (tuple stream : string) : Observation :=
  mkObs "k" 1 "gateway" "outbound" {["tuple5"%string := tuple; "h2_stream_id"%string := stream]}.
Lemma observed_composite_witness :
  _composite_of (seen_on "t" "1") ["tuple5"; "h2_stream_id"]%string =
  _composite_of (seen_on "t" "2") ["tuple5"; "h2_stream_id"]%string ↔
  ∀ i, i ∈ ["tuple5"; "h2_stream_id"]%string →
    o_keys (seen_on "t" "1") !! i = o_keys (seen_on "t" "2") !! i.
Proof.
  apply (observed_composite _ _ _ ["t"; "1"]%string ["t"; "2"]%string);
    [done|reflexivity|reflexivity|repeat constructor|repeat constructor].
Defined.
(** A value that holds the separator runs into the next part: two connections with
    different identifiers get one composite value. *)
Example composite_runs_over :
  _composite_of (seen_on ("a" +:+ SEP +:+ "b") "c") ["tuple5"; "h2_stream_id"]%string =
  _composite_of (seen_on "a" ("b" +:+ SEP +:+ "c")) ["tuple5"; "h2_stream_id"]%string ∧
  Forall (λ o, _validate (point_names one_hop) o = Ok tt)
    [seen_on ("a" +:+ SEP +:+ "b") "c"; seen_on "a" ("b" +:+ SEP +:+ "c")].
Proof. split; [by vm_compute|]. repeat constructor. Qed.
