(* ===== verification/Harness.v ===== *)
(** * Harness: what the scoring scripts read from a run

    [m0-harness/exact_path.py] and [m0-harness/timing_path.py] read a cell of a harness
    run: the log of load-gen (one JSON object per request), the ids of the traffic outside
    the measured run, and the spans the agent printed (JSON objects, numbered in order).
    Opening the files and splitting them into lines is not modelled: the parsed values are
    the input.  The truth id of a span is searched in its url with a regular expression;
    the expressions are modelled as functions on the text. *)

From S2P Require Import Prelude DecimalText Json.

(** [itertools.pairwise] *)
Definition pairwise {A} (l : list A) : list (A * A) := zip l (tail l).

(** ** JSON objects *)

(** [v.get(key)] *)
Definition field (key : string) (v : json) : option json :=
  match v with JObj o => od_get key o | _ => None end.
(** [v.get(key, default)] used as a text. *)
Definition text_field (key dflt : string) (v : json) : res string :=
  match field key v with None => Ok dflt | Some (JStr s) => Ok s | Some _ => Raise TypeError end.
(** [v[key]] used as a text. *)
Definition text_at (key : string) (v : json) : res string :=
  match field key v with None => Raise KeyError | Some (JStr s) => Ok s | Some _ => Raise TypeError end.
(** [int(v)] *)
Definition int_of_json (v : json) : res Z :=
  match v with
  | JInt z => Ok z
  | JBool b => Ok (if b then 1 else 0)
  | JStr s => get (parse_int s) (ValueError "invalid literal for int")
  | _ => Raise TypeError
  end.
(** [int(v.get(key, default))], [int(v[key])] *)
Definition int_field (key : string) (dflt : Z) (v : json) : res Z :=
  match field key v with None => Ok dflt | Some x => int_of_json x end.
Definition int_at (key : string) (v : json) : res Z := x ← get (field key v) KeyError; int_of_json x.
(** [v[key]], [v.get(key, default)] used as a number. *)
Definition number_of_json (v : json) : res Z :=
  match v with JInt z => Ok z | JBool b => Ok (if b then 1 else 0) | _ => Raise TypeError end.
Definition number_at (key : string) (v : json) : res Z := x ← get (field key v) KeyError; number_of_json x.
Definition number_field (key : string) (dflt : Z) (v : json) : res Z :=
  match field key v with None => Ok dflt | Some x => number_of_json x end.
(** [v.get("attributes", {})] *)
Definition attributes (span : json) : json := default (JObj []) (field "attributes" span).
(** [v.get(key) == s] *)
Definition field_is (key s : string) (v : json) : bool :=
  match field key v with Some (JStr t) => bool_decide (t = s) | _ => false end.

(** ** Regular expressions *)

Definition is_hex (c : ascii) : bool :=
  let n := N_of_ascii c in (48 <=? n)%N && (n <=? 57)%N || (97 <=? n)%N && (n <=? 102)%N.
Fixpoint span_hex (s : string) : string * string :=
  match s with
  | String c r => if is_hex c then let '(d, r) := span_hex r in (String c d, r) else (""%string, s)
  | "" => (""%string, ""%string)
  end%string.
(** Exactly [n] characters of [0-9a-f]. *)
Fixpoint take_hex (n : nat) (s : string) : option (string * string) :=
  match n, s with
  | O, _ => Some (""%string, s)
  | S n, String c r => if is_hex c then '(d, r) ← take_hex n r; Some (String c d, r) else None
  | S _, "" => None
  end%string.
(** [$]: the end, or before a last line break. *)
Definition at_end (s : string) : bool :=
  match s with "" => true | String c "" => Ascii.eqb c "010" | _ => false end%string.
(** [re.search]: the first position where [here] matches. *)
Fixpoint search (here : string → option string) (s : string) : option string :=
  match here s with
  | Some m => Some m
  | None => match s with String _ r => search here r | "" => None end%string
  end.
(** [analyze_run.TRUTH]: [/truth-([0-9a-f]{32})(?:$|[/?])] *)
Definition TRUTH_here (s : string) : option string :=
  r ← strip_prefix "/truth-" s; '(id, r) ← take_hex 32 r;
  if at_end r || match r with String c _ => Ascii.eqb c "/" || Ascii.eqb c "?" | "" => false end%string
  then Some id else None.
Definition TRUTH : string → option string := search TRUTH_here.
(** [timing_path.TRUTH]: [/truth-([0-9a-f]+)] *)
Definition TRUTH_ANY_here (s : string) : option string :=
  r ← strip_prefix "/truth-" s;
  let '(id, _) := span_hex r in if bool_decide (id = ""%string) then None else Some id.
Definition TRUTH_ANY : string → option string := search TRUTH_ANY_here.
(** [NO_TRACE.match(trace)]: [^0*$] *)
Fixpoint NO_TRACE (s : string) : bool :=
  at_end s || match s with String c r => Ascii.eqb c "0" && NO_TRACE r | "" => true end%string.

Example TRUTH_ex :
  (TRUTH "/a/truth-00/truth-0123456789abcdef0123456789abcdef?x=1", TRUTH "/truth-0123456789abcdef0123456789abcdefff",
   TRUTH_ANY "/truth-0af/x", TRUTH_ANY "/truth-", NO_TRACE "0000", NO_TRACE "0a") =
  (Some "0123456789abcdef0123456789abcdef", None, Some "0af", None, true, false)%string.
Proof. vm_compute. reflexivity. Qed.

(** ** Where a span was observed *)

(** The part of [cell.json] that places spans. *)
Record Meta := mkMeta {
  m_hops : nat;
  m_kinds : list string;
  m_port : Z;
  m_propagation : string;
  m_masked : bool
}.
Definition SERVER : string := "SPAN_KIND_SERVER".
Definition CLIENT : string := "SPAN_KIND_CLIENT".
Definition hop_name (k : nat) : string := "hop-" +:+ str_Z (Z.of_nat k).
Fixpoint place_hops (span attrs : json) (ks : list nat) : option (string * string) :=
  match ks with
  | [] => None
  | k :: ks =>
      if field_is "kind" SERVER span && field_is "serverAddr" (hop_name k) attrs
      then Some (hop_name k, "inbound"%string)
      else if field_is "kind" CLIENT span && field_is "clientAddr" (hop_name k) attrs
      then Some (hop_name k, "outbound"%string)
      else place_hops span attrs ks
  end.
Definition _place (span attrs : json) (hops : nat) (port : Z) : res (option (string * string)) :=
  upstream ← (if field_is "kind" SERVER span then p ← int_field "hostPort" 0 span; Ok (p =? port) else Ok false);
  Ok (if (upstream : bool) then Some ("fake-upstream", "inbound")%string else place_hops span attrs (seq 1 hops)).

(** The ids of the measured requests: the truth ids of load-gen's log. *)
Definition trace_ids (log : list json) : res (list string) := map_res (text_at "trace_id") log.
(** What the loop over the spans keeps: the number of the span, its truth id and its place.
    A span without a truth id, outside the measured run or at no point is passed over, but
    counted. *)
Definition placed_span (truth_of : string → option string) (measured excluded : gset string) (hops : nat) (port : Z)
    (span : json) : res (option (string * (string * string))) :=
  url ← text_field "url" "" (attributes span);
  match truth_of url with
  | None => Ok None
  | Some t =>
      if bool_decide (t ∈ excluded) || negb (bool_decide (t ∈ measured)) then Ok None
      else place ← _place span (attributes span) hops port; Ok ((λ p, (t, p)) <$> place)
  end.

(** ** Lemmas: placed spans *)

Lemma place_hops_ok span attrs ks p : place_hops span attrs ks = Some p →
  p.1 ∈ hop_name <$> ks ∧ p.2 ∈ ["inbound"; "outbound"]%string.
Proof.
  induction ks as [|k ks IH]; [done|]. simpl.
  destruct (_ && _); [intros [= <-]; set_solver|].
  destruct (_ && _); [intros [= <-]; set_solver|]. intros H. destruct (IH H). set_solver.
Qed.
Lemma place_ok span attrs hops port p : _place span attrs hops port = Ok (Some p) →
  p.1 ∈ (hop_name <$> seq 1 hops) ++ ["fake-upstream"%string] ∧ p.1 ≠ "load-gen"%string ∧ p.2 ∈ ["inbound"; "outbound"]%string.
Proof.
  unfold _place. intros H. apply bind_Ok in H as ([] & _ & [= H]).
  - destruct p; simplify_eq/=. set_solver.
  - apply place_hops_ok in H as [Hp Hs]. split; [set_solver|]. split; [|done].
    apply list_elem_of_fmap in Hp as (k & -> & _). done.
Qed.
(** A placed span is of the measured run, at a hop or at fake-upstream. *)
Lemma placed_span_ok truth_of measured excluded hops port span t point side :
  placed_span truth_of measured excluded hops port span = Ok (Some (t, (point, side))) →
  t ∈ measured ∧ point ∈ (hop_name <$> seq 1 hops) ++ ["fake-upstream"%string] ∧ point ≠ "load-gen"%string ∧
  side ∈ ["inbound"; "outbound"]%string.
Proof.
  unfold placed_span. intros H. apply bind_Ok in H as (url & _ & H). destruct (truth_of url) as [t'|]; [|done].
  destruct (bool_decide (t' ∈ excluded)); [done|]. simpl in H.
  case_bool_decide as Hm; [|done]. simpl in H. apply bind_Ok in H as (place & Hplace & [= H]).
  destruct place as [p|]; [|done]. injection H as -> ->. by apply place_ok in Hplace.
Qed.

(** The elements kept of a list have distinct keys when their positions can be told. *)
Lemma omap_id_NoDup {B K} (f : B → K) (l : list (option B)) :
  (∀ i j a b, l !! i = Some (Some a) → l !! j = Some (Some b) → f a = f b → i = j) →
  NoDup (f <$> omap id l).
Proof.
  induction l as [|[b|] l IH]; intros H; cbn [omap list_omap id fmap list_fmap].
  - constructor.
  - constructor.
    + intros (a & E & Ha)%list_elem_of_fmap. apply list_elem_of_omap in Ha as (o & Ho & Eo).
      unfold id in Eo. subst o.
      apply list_elem_of_lookup in Ho as [i Hi]. by pose proof (H 0%nat (S i) b a eq_refl Hi E).
    + apply IH. intros i j a a' Hi Hj E. by injection (H (S i) (S j) a a' Hi Hj E).
  - apply IH. intros i j a a' Hi Hj E. by injection (H (S i) (S j) a a' Hi Hj E).
Qed.
