(* ===== verification/ExactPath.v ===== *)
(** * ExactPath: the exact path on a harness run, and its score

    [m0-harness/exact_path.py].  The chain of a cell is declared as a topology, its log
    and spans become observations, [exact_links] links them, and the links are scored
    against the truth ids, which the linking never sees. *)

From Stdlib Require Import QArith.
From S2P Require Import Prelude DecimalText Json Topology Dedup Exact Harness.

(** ** The settings of a cell *)

(** [bool(v)] *)
Definition truthy (v : json) : bool :=
  match v with
  | JNull => false
  | JBool b => b
  | JInt z => negb (z =? 0)
  | JStr s => negb (bool_decide (s = ""%string))
  | JArr l => negb (is_nil l)
  | JObj o => negb (is_nil o)
  end.
Definition texts (v : json) : res (list string) :=
  match v with
  | JArr l => map_res (λ x, match x with JStr s => Ok s | _ => Raise TypeError end) l
  | _ => Raise TypeError
  end.
(** [cell_meta] on a parsed [cell.json]: [meta.get("hop_kinds") or [...] * meta["hops"]] *)
Definition cell_meta (cell : json) : res Meta :=
  hops ← int_at "hops" cell;
  kinds ← match field "hop_kinds" cell with
          | Some v => if truthy v then texts v
                      else kind ← text_field "hop_kind" "traefik" cell; Ok (replicate (Z.to_nat hops) kind)
          | None => kind ← text_field "hop_kind" "traefik" cell; Ok (replicate (Z.to_nat hops) kind)
          end;
  port ← int_at "fake_upstream_port" cell;
  propagation ← text_field "context_propagation" "agent-default" cell;
  Ok (mkMeta (Z.to_nat hops) kinds port propagation (match field "lg_mask" cell with Some v => truthy v | None => false end)).

(** ** The chain of a cell, as a declared topology *)

Definition chain (hops : nat) : list string := "load-gen"%string :: (hop_name <$> seq 1 hops) ++ ["fake-upstream"%string].
Definition timed_fields (visibility timestamps : string) : list (string * Value) :=
  [("host", VStr "lab"); ("visibility", VStr visibility); ("clock", VStr "lab"); ("timestamps", VStr timestamps)]%string.
Definition names_value (l : list string) : Value := VList (VStr <$> l).

Section topology_for.
Context (connection : bool) (sending receiving : list string).
Definition stream : list string := if connection then ["h2_stream_id"%string] else [].
Definition recorded (point : string) (ends : list string) : list string :=
  ["traceparent"; "tuple5"]%string ++ (if mem point ends then ["h2_stream_id"%string] else stream).
Definition load_gen_point : Value :=
  VTable (timed_fields "app" "precise_sync" ++
    [("outbound"%string, names_value ("traceparent"%string :: if connection then "tuple5"%string :: stream else []))]).
Definition hop_point (propagation : string) (k : nat) (kind : string) : Value :=
  VTable (timed_fields "kernel" "kernel_monotonic" ++
    [("inbound"%string, names_value (recorded (hop_name k) receiving));
     ("outbound"%string, names_value (recorded (hop_name k) sending))] ++
    (if bool_decide (kind = "traefik"%string) then [("propagates", VTable [("traceparent", VStr "proxy")])]%string
     else if bool_decide (propagation = "headers"%string) then [("propagates", VTable [("traceparent", VStr "agent")])]%string
     else [])).
Definition upstream_point : Value :=
  VTable (timed_fields "kernel" "kernel_monotonic" ++
    [("inbound"%string, names_value (recorded "fake-upstream" receiving))]).
Definition hop_entry (ab : string * string) : Value :=
  VTable [("from", VStr ab.1); ("to", VStr ab.2); ("pooling", VBool true)]%string.
Definition declaration (hops : nat) (kinds : list string) (propagation : string) : list (string * Value) :=
  let points : odict string Value :=
    foldl (λ d e, od_set e.1 e.2 d) [("load-gen"%string, load_gen_point)]
      (imap (λ i kind, (hop_name (S i), hop_point propagation (S i) kind)) kinds) in
  let points := od_set "fake-upstream"%string upstream_point points in
  [("points", VTable points); ("hops", VList (hop_entry <$> pairwise (chain hops)))]%string.
End topology_for.

(** [topology_for]: [links[where]] raises [KeyError] on an unknown hop. *)
Definition topology_for (repr py_str : Value → string) (format_g : Q → string) (hops : nat) (kinds : list string)
    (propagation : string) (connection : bool) (second_signal : list string) : res (list Refusal + Topology) :=
  let links := (λ ab : string * string, (hop_where ab.1 ab.2, ab)) <$> pairwise (chain hops) in
  ends ← map_res (λ w, get (od_get w links) KeyError) second_signal;
  load repr py_str format_g (declaration connection ends.*1 ends.*2 hops kinds propagation).

(** ** The observations of a cell *)

Definition LG : string := "lg.jsonl".
Definition AGENT : string := "agent.out".
Definition of_log (masked : bool) (seq : nat) (trace_id : string) : Observation :=
  mkObs LG (Z.of_nat seq) "load-gen" "outbound" (if masked then ∅ else {["traceparent"%string := trace_id]}).
(** One span, numbered from 1, with the truth id it carries. *)
Definition of_span (meta : Meta) (measured excluded : gset string) (seq : nat) (span : json)
    : res (option (Observation * string)) :=
  placed ← placed_span TRUTH measured excluded (m_hops meta) (m_port meta) span;
  match placed with
  | None => Ok None
  | Some (t, (point, side)) =>
      trace ← text_field "traceID" "" span;
      Ok (Some (mkObs AGENT (Z.of_nat (S seq)) point side
                  (if NO_TRACE trace then ∅ else {["traceparent"%string := trace]}), t))
  end.
(** The observations, in order, each with its truth id; and the measured truth ids. *)
Definition observations (log outside spans : list json) (meta : Meta)
    : res (list (Observation * string) * gset string) :=
  ids ← trace_ids log;
  outside_ids ← trace_ids outside;
  let measured : gset string := list_to_set ids in
  let excluded : gset string := list_to_set outside_ids in
  placed ← map_res (λ e, of_span meta measured excluded e.1 e.2) (imap pair spans);
  Ok (imap (λ i t, (of_log (m_masked meta) i t, t)) ids ++ omap id placed, measured).

(** ** The score of a cell *)

Record JoinReport := mkJoinReport {
  jr_key : string;
  jr_links : Z;
  jr_correct : Z;
  jr_wrong : Z;
  jr_lost : Z;
  jr_keyless : Z;
  jr_both_seen : Z;
  jr_collisions : Z;
  jr_unlinked : Z;
  jr_self_authored : Z
}.
(** [truth]: identity of an observation -> its truth id. *)
Notation Truth := (gmap (string * Z) string).
Definition count {A} (p : A → bool) (l : list A) : Z := Z.of_nat (length (List.filter p l)).
Definition csize (s : gset string) : Z := Z.of_nat (size s).
(** [where in "...": " -> " in where]; a crossing has no ends to read. *)
Definition arrow (where_ : string) : bool :=
  bool_decide (is_Some (search (λ s, if strip_prefix " -> " s then Some s else None) where_)).
Definition score_sides (hop : bool) (j : Join string) : res (Join string) :=
  _ ← check (hop || negb (arrow (j_where j))) AttributeError; Ok j.
Definition score_joins (topology : Topology) : res (odict string (Join string)) :=
  let hops := omap (λ hop, (λ key, mkJoin (hop_where (hc_src hop) (hc_dst hop)) key
      (hc_src hop, "outbound"%string) (hc_dst hop, "inbound"%string)) <$> hc_key hop) (t_hops topology) in
  let crossings := omap (λ c, (λ key, mkJoin (cc_point c) key
      (cc_point c, "inbound"%string) (cc_point c, "outbound"%string)) <$> cc_key c) (t_crossings topology) in
  crossings ← map_res (score_sides false) crossings;
  Ok (foldl (λ d j, od_set (j_where j) j d) [] (hops ++ crossings)).

Section score.
Context (result : Result) (truth : Truth) (known : list (Observation * string)) (measured : gset string).

(** [seen_on[side]], [keyed_on[side, key]] *)
Definition seen_on (side : string * string) : gset string :=
  list_to_set (snd <$> List.filter (λ e, bool_decide (side_of e.1 = side)) known).
Definition keyed_on (side : string * string) (key : string) : gset string :=
  list_to_set (snd <$> List.filter (λ e, bool_decide (side_of e.1 = side ∧ is_Some (o_keys e.1 !! key))) known).
Definition score_one (j : Join string) : res JoinReport :=
  let links := List.filter (λ l, bool_decide (l_where l = j_where j)) (r_links result) in
  judged ← map_res (λ l, u ← get (truth !! l_upstream l) KeyError; d ← get (truth !! l_downstream l) KeyError;
                         Ok (l, u, bool_decide (u = d))) links;
  let correct := List.filter (λ e : Link * string * bool, e.2) judged in
  let linked : gset string := list_to_set ((λ e, e.1.2) <$> correct) in
  let both := seen_on (j_up j) ∩ seen_on (j_down j) ∩ measured in
  let keyed := keyed_on (j_up j) (j_key j) ∩ keyed_on (j_down j) (j_key j) ∩ measured in
  Ok (mkJoinReport (j_key j) (Z.of_nat (length links)) (Z.of_nat (length correct))
        (Z.of_nat (length links) - Z.of_nat (length correct))
        (csize (keyed ∖ linked)) (csize (both ∖ keyed)) (csize both)
        (count (λ c, bool_decide (c_where c = j_where j)) (r_collisions result))
        (count (λ u, bool_decide (u.1 = j_where j)) (r_unlinked result))
        (count (λ e : Link * string * bool, negb (bool_decide (l_value e.1.1 = e.1.2))) correct)).
End score.

Definition score (topology : Topology) (os : list Observation) (truth : Truth) (measured : gset string)
    : res (odict string JoinReport * Z) :=
  result ← exact_links topology os;
  joins ← score_joins topology;
  known ← map_res (λ o, t ← get (truth !! identity o) KeyError; Ok (o, t)) os;
  report ← map_res (λ e, r ← score_one result truth known measured e.2; Ok (e.1, r)) (sorted_by fst joins);
  Ok (report, r_duplicates_dropped result).
(** [truth[source, seq] = ...], in order *)
Definition truth_map (os : list (Observation * string)) : Truth :=
  foldl (λ m e, <[identity e.1 := e.2]> m) ∅ os.
(** [analyze_cell], once the cell is read: the scored joins and the dropped duplicates.
    [load] raises when the declaration is refused. *)
Definition analyze_cell (repr py_str : Value → string) (format_g : Q → string) (log outside spans : list json)
    (meta : Meta) : res (odict string JoinReport * Z) :=
  loaded ← topology_for repr py_str format_g (m_hops meta) (m_kinds meta) (m_propagation meta) false [];
  topology ← match loaded with inr t => Ok t | inl _ => Raise (ValueError "topology refused") end;
  '(os, measured) ← observations log outside spans meta;
  score topology os.*1 (truth_map os) measured.

(** ** Lemmas: counting *)

Lemma count_cons {A} (p : A → bool) x l : count p (x :: l) = (if p x then 1 else 0) + count p l.
Proof. unfold count. cbn [List.filter]. destruct (p x); cbn [length]; lia. Qed.
Lemma count_nonneg {A} (p : A → bool) l : 0 <= count p l.
Proof. unfold count. lia. Qed.
Lemma count_snoc {A} (p : A → bool) l x : count p (l ++ [x]) = count p l + (if p x then 1 else 0).
Proof. unfold count. rewrite List.filter_app, length_app. cbn [List.filter]. destruct (p x); cbn [length]; lia. Qed.

(** ** Lemmas: the observations of a cell *)

Record observed (hops : nat) (measured : gset string) (os : list (Observation * string)) : Prop := {
  ob_once : NoDup (identity <$> os.*1);
  ob_truth e : e ∈ os → e.2 ∈ measured;
  ob_point e : e ∈ os → o_point e.1 ∈ chain hops;
  ob_side e : e ∈ os → o_side e.1 ∈ SIDES;
  ob_keys e : e ∈ os → o_keys e.1 = ∅ ∨ ∃ v, v ≠ ""%string ∧ o_keys e.1 = {["traceparent"%string := v]};
  ob_sent e : e ∈ os → side_of e.1 = ("load-gen", "outbound")%string →
    o_keys e.1 !! "traceparent"%string = None ∨ o_keys e.1 !! "traceparent"%string = Some e.2
}.

Lemma NO_TRACE_false v : NO_TRACE v = false → v ≠ ""%string.
Proof. by intros H ->. Qed.

(** What one span becomes. *)
Lemma of_span_ok meta measured excluded i span e :
  of_span meta measured excluded i span = Ok (Some e) →
  identity e.1 = (AGENT, Z.of_nat (S i)) ∧ e.2 ∈ measured ∧ o_point e.1 ∈ chain (m_hops meta) ∧
  o_point e.1 ≠ "load-gen"%string ∧ o_side e.1 ∈ SIDES ∧
  (o_keys e.1 = ∅ ∨ ∃ v, v ≠ ""%string ∧ o_keys e.1 = {["traceparent"%string := v]}).
Proof.
  unfold of_span. intros H. apply bind_Ok in H as (p & Hp & H).
  destruct p as [[t [point side]]|]; [|done]. apply bind_Ok in H as (trace & _ & [= <-]). simpl.
  destruct (placed_span_ok _ _ _ _ _ _ _ _ _ Hp) as (? & ? & ? & ?). split_and!; try done.
  - unfold chain. by right.
  - destruct (NO_TRACE trace) eqn:E; [by left|]. right. exists trace. by apply NO_TRACE_false in E.
Qed.

(** A log of non-empty trace ids, and any spans, give well-formed observations. *)
Lemma observations_ok log outside spans meta os measured :
  observations log outside spans meta = Ok (os, measured) → ""%string ∉ measured →
  observed (m_hops meta) measured os.
Proof.
  unfold observations. intros H Hne. apply bind_Ok in H as (ids & _ & H).
  apply bind_Ok in H as (outs & _ & H). apply bind_Ok in H as (placed & Hp & [= <- <-]).
  apply map_res_Forall2 in Hp.
  assert (∀ e, e ∈ imap (λ i t, (of_log (m_masked meta) i t, t)) ids →
    ∃ i t, t ∈ ids ∧ e = (of_log (m_masked meta) i t, t)) as Hlog.
  { intros e (i & t & -> & Ht)%elem_of_lookup_imap_1. apply list_elem_of_lookup_2 in Ht. eauto. }
  assert (∀ i e, placed !! i = Some (Some e) → ∃ span,
    of_span meta (list_to_set ids) (list_to_set outs) i span = Ok (Some e)) as Hat.
  { intros i e Hi. destruct (Forall2_lookup_r _ _ _ _ _ Hp Hi) as ([n span] & Hn & E).
    rewrite list_lookup_imap in Hn. destruct (spans !! i); simplify_eq/=. eauto. }
  assert (∀ e, e ∈ omap id placed → ∃ i span,
    of_span meta (list_to_set ids) (list_to_set outs) i span = Ok (Some e)) as Hspan.
  { intros e (o & Ho & Eo)%list_elem_of_omap. unfold id in Eo. subst o. apply list_elem_of_lookup in Ho as [i Hi]. eauto. }
  split.
  - rewrite <- list_fmap_compose, fmap_app. apply NoDup_app. split; [|split].
    + apply NoDup_alt. intros i j x. rewrite !list_lookup_fmap, !list_lookup_imap.
      destruct (ids !! i), (ids !! j); simpl; intros; simplify_eq/=. lia.
    + intros x (e & -> & He)%list_elem_of_fmap (e' & E & He')%list_elem_of_fmap.
      apply Hlog in He as (i & t & _ & ->). apply Hspan in He' as (j & span & He').
      apply of_span_ok in He' as (Hid & _). simpl in E. rewrite Hid in E. done.
    + apply omap_id_NoDup. intros i j a b Hi Hj E. apply Hat in Hi as [s1 H1], Hj as [s2 H2].
      apply of_span_ok in H1 as (H1 & _), H2 as (H2 & _). simpl in E. rewrite H1, H2 in E.
      injection E. lia.
  - intros e [He|He]%elem_of_app; [apply Hlog in He as (i & t & Ht & ->)|apply Hspan in He as (i & s & He)].
    + by apply elem_of_list_to_set.
    + by apply of_span_ok in He as (_ & ? & _).
  - intros e [He|He]%elem_of_app; [apply Hlog in He as (i & t & Ht & ->)|apply Hspan in He as (i & s & He)].
    + left.
    + by apply of_span_ok in He as (_ & _ & ? & _).
  - intros e [He|He]%elem_of_app; [apply Hlog in He as (i & t & Ht & ->)|apply Hspan in He as (i & s & He)].
    + right; left.
    + by apply of_span_ok in He as (_ & _ & _ & _ & ? & _).
  - intros e [He|He]%elem_of_app; [apply Hlog in He as (i & t & Ht & ->)|apply Hspan in He as (i & s & He)].
    + simpl. destruct (m_masked meta); [by left|]. right. exists t. split; [|done].
      intros ->. by apply Hne, elem_of_list_to_set.
    + by apply of_span_ok in He as (_ & _ & _ & _ & _ & ?).
  - intros e [He|He]%elem_of_app; [apply Hlog in He as (i & t & Ht & ->)|apply Hspan in He as (i & s & He)].
    + intros _. simpl. destruct (m_masked meta); [by left|]. right. by rewrite lookup_singleton_eq.
    + apply of_span_ok in He as (_ & _ & _ & Hnl & _). by intros [= ? _].
Qed.

(** ** Lemmas: the score *)

Lemma truth_map_lookup (os : list (Observation * string)) e :
  NoDup (identity <$> os.*1) → e ∈ os → truth_map os !! identity e.1 = Some e.2.
Proof.
  intros Hnd He. rewrite <- list_fmap_compose in Hnd. by apply (foldl_insert_lookup (identity ∘ fst) snd).
Qed.

Lemma validate_ok hops measured os points e : observed hops measured os →
  (∀ p, p ∈ chain hops → p ∈ points) → e ∈ os → _validate points e.1 = Ok tt.
Proof.
  intros Hob Hp He. unfold _validate.
  rewrite (bool_decide_eq_true_2 (_ ∈ points)) by by apply Hp, (ob_point _ _ _ Hob). cbn [check mbind res_bind].
  rewrite bool_decide_eq_true_2 by by apply (ob_side _ _ _ Hob). cbn [check mbind res_bind].
  destruct (ob_keys _ _ _ Hob e He) as [-> |(v & Hv & ->)]; [done|].
  rewrite map_to_list_singleton. cbn [fold_res fst snd].
  rewrite (bool_decide_eq_false_2 (v = _)) by done. done.
Qed.
(** The exact path accepts the observations of a cell; none is a duplicate. *)
Lemma exact_links_cell topology hops measured os : observed hops measured os →
  (∀ p, p ∈ chain hops → p ∈ point_names topology) →
  ∃ result, exact_links topology os.*1 = Ok result ∧ r_duplicates_dropped result = 0.
Proof.
  intros Hob Hp. unfold exact_links, _deduplicated.
  destruct (deduplicate_total (_validate (point_names topology)) _ _ obs_content_inj os.*1)
    as (distinct & dropped & E).
  - apply Forall_forall. intros o (e & -> & He)%list_elem_of_fmap. by eapply validate_ok.
  - intros a b Ha Hb. apply (NoDup_fmap_inj _ _ _ _ (ob_once _ _ _ Hob) Ha Hb).
  - pose proof (deduplicate_spec _ _ _ obs_content_inj _ _ _ E) as (_ & _ & Hn & He & Hl).
    rewrite E. simpl. eexists. split; [done|]. simpl.
    assert (distinct ≡ₚ os.*1) as Hd%Permutation_length; [|lia].
    apply NoDup_Permutation; [by eapply NoDup_fmap_1| |done].
    eapply NoDup_fmap_1, ob_once, Hob.
Qed.

(** [e] is seen on a side of the join with the value [v]. *)
Definition at_side (os : list (Observation * string)) (j : Join string) side v (e : Observation * string) : Prop :=
  e ∈ os ∧ side_of e.1 = side ∧ o_keys e.1 !! j_key j = Some v.
(** ... and no other is. *)
Definition only os j side v e : Prop := at_side os j side v e ∧ ∀ e', at_side os j side v e' → e' = e.
(** Equal values on the two sides are equal requests. *)
Definition tells os j : Prop := ∀ a b v w, at_side os j (j_up j) v a → at_side os j (j_down j) w b → (v = w ↔ a.2 = b.2).
(** No request is seen twice on a side with the key. *)
Definition once os j : Prop := ∀ side a b v w, side ∈ [j_up j; j_down j] →
  at_side os j side v a → at_side os j side w b → a.2 = b.2 → a = b.

Record scored (os : list (Observation * string)) (j : Join string) (r : JoinReport) : Prop := {
  sc_key : jr_key r = j_key j;
  sc_links : jr_links r = jr_correct r + jr_wrong r ∧ 0 <= jr_correct r ∧ 0 <= jr_wrong r;
  (** A wrong link joins two requests by a value only they have on their side. *)
  sc_wrong : 0 < jr_wrong r ↔ ∃ v a b, only os j (j_up j) v a ∧ only os j (j_down j) v b ∧ a.2 ≠ b.2;
  (** The requests seen on both sides are linked correctly, lost or without the key. *)
  sc_both : jr_both_seen r <= jr_correct r + jr_lost r + jr_keyless r;
  sc_once : once os j → jr_both_seen r = jr_correct r + jr_lost r + jr_keyless r;
  sc_lost : tells os j → once os j → jr_lost r = 0;
  sc_self : j_up j = ("load-gen", "outbound")%string → j_key j = "traceparent"%string → jr_self_authored r = 0
}.

Section score_spec.
Context (topology : Topology) (hops : nat) (measured : gset string) (os : list (Observation * string)) (result : Result).
Context (Hob : observed hops measured os) (Hres : exact_links topology os.*1 = Ok result).
Context (Hnd : NoDup (j_where <$> exact_joins topology)).
Local Notation T := (λ i, default ""%string (truth_map os !! i)).

Lemma T_of e : e ∈ os → T (identity e.1) = e.2.
Proof. intros He. cbn beta. by rewrite (truth_map_lookup os e (ob_once _ _ _ Hob) He). Qed.
Lemma os_inj a b : a ∈ os → b ∈ os → identity a.1 = identity b.1 → a = b.
Proof.
  apply (NoDup_fmap_inj (λ e, identity e.1)). pose proof (ob_once _ _ _ Hob) as H.
  by rewrite <- list_fmap_compose in H.
Qed.
Lemma sole_only j side v u : sole _value_of os.*1 side (j_key j) v u →
  ∃ e, only os j side v e ∧ identity e.1 = u.
Proof.
  intros [(o & (e & -> & He)%list_elem_of_fmap & Hs & Hv & <-) Hu]. exists e. split; [|done].
  split; [done|]. intros e' (He' & Hs' & Hv'). apply os_inj; [done..|].
  apply Hu; [by apply list_elem_of_fmap_2|done..].
Qed.
Lemma only_sole j side v e : only os j side v e → sole _value_of os.*1 side (j_key j) v (identity e.1).
Proof.
  intros [(He & Hs & Hv) Hu]. split.
  - exists e.1. split; [by apply list_elem_of_fmap_2|done].
  - intros o (e' & -> & He')%list_elem_of_fmap Hs' Hv'. by rewrite (Hu e').
Qed.

Definition links_at (j : Join string) : list Link := List.filter (λ l, bool_decide (l_where l = j_where j)) (r_links result).
Definition same (l : Link) : bool := bool_decide (T (l_upstream l) = T (l_downstream l)).

Lemma elem_of_links_at j l : j ∈ exact_joins topology →
  l ∈ links_at j ↔ l_where l = j_where j ∧ l_key l = j_key j ∧ ∃ a b,
    only os j (j_up j) (l_value l) a ∧ only os j (j_down j) (l_value l) b ∧
    l_upstream l = identity a.1 ∧ l_downstream l = identity b.1.
Proof.
  intros Hj. unfold links_at. rewrite elem_of_filter_bool, bool_decide_eq_true.
  rewrite (elem_of_exact_links _ _ _ _ Hres). split.
  - intros [(j' & Hj' & Hw & Hk & Hu & Hd) Hw']. assert (j' = j) as ->.
    { apply (NoDup_fmap_inj _ _ _ _ Hnd Hj' Hj). congruence. }
    apply sole_only in Hu as (a & Ha & <-), Hd as (b & Hb & <-). eauto 10.
  - intros (Hw & Hk & a & b & Ha & Hb & Eu & Ed). split; [|done]. exists j.
    apply only_sole in Ha, Hb. rewrite Eu, Ed. eauto 10.
Qed.

(** A request is told by the upstream end of the link: two links of one request seen once are one. *)
Lemma correct_once j : j ∈ exact_joins topology → once os j →
  NoDup ((λ l, T (l_upstream l)) <$> List.filter same (links_at j)).
Proof.
  intros Hj Hon. apply NoDup_fmap_2_strong.
  - intros l l' [Hl _]%elem_of_filter_bool [Hl' _]%elem_of_filter_bool E.
    apply (elem_of_links_at j) in Hl as (Hw & Hk & a & b & [Ha _] & [Hb _] & Eu & Ed); [|done].
    apply (elem_of_links_at j) in Hl' as (Hw' & Hk' & a' & b' & [Ha' _] & [Hb' Hub] & Eu' & Ed'); [|done].
    rewrite Eu, Eu' in E. rewrite !T_of in E by by apply Ha || apply Ha'.
    assert (a = a') as <- by (eapply Hon; [left|exact Ha|exact Ha'|done]).
    assert (l_value l = l_value l') as Ev.
    { destruct Ha as (_ & _ & Ha), Ha' as (_ & _ & Ha'). congruence. }
    assert (b = b') as <- by (apply Hub; by rewrite <- Ev).
    destruct l, l'; simpl in *. congruence.
  - eapply sublist_NoDup; [|apply sublist_filter_bool_sub].
    eapply sublist_NoDup; [|apply sublist_filter_bool_sub]. by apply (exact_links_NoDup _ _ _ Hres).
Qed.
Lemma elem_of_seen side t : t ∈ seen_on os side ↔ ∃ e, e ∈ os ∧ side_of e.1 = side ∧ e.2 = t.
Proof.
  unfold seen_on. rewrite elem_of_list_to_set, list_elem_of_fmap. setoid_rewrite elem_of_filter_bool.
  setoid_rewrite bool_decide_eq_true. naive_solver.
Qed.
Lemma elem_of_keyed j side t : t ∈ keyed_on os side (j_key j) ↔ ∃ v e, at_side os j side v e ∧ e.2 = t.
Proof.
  unfold keyed_on, at_side. rewrite elem_of_list_to_set, list_elem_of_fmap. setoid_rewrite elem_of_filter_bool.
  setoid_rewrite bool_decide_eq_true. unfold is_Some. naive_solver.
Qed.

Definition judged_of (l : Link) : Link * string * bool := (l, T (l_upstream l), same l).
Lemma judged_ok j : j ∈ exact_joins topology →
  map_res (λ l, u ← get (truth_map os !! l_upstream l) KeyError; d ← get (truth_map os !! l_downstream l) KeyError;
                Ok (l, u, bool_decide (u = d))) (links_at j) = Ok (judged_of <$> links_at j).
Proof.
  intros Hj. apply map_res_fmap. intros l Hl.
  apply (elem_of_links_at j) in Hl as (_ & _ & a & b & [[Ha _] _] & [[Hb _] _] & Eu & Ed); [|done].
  unfold judged_of, same. rewrite Eu, Ed. by rewrite !(truth_map_lookup os) by (done || apply (ob_once _ _ _ Hob)).
Qed.

(** The requests the correct links of a join are about. *)
Definition linked_of (j : Join string) : gset string :=
  list_to_set ((λ l, T (l_upstream l)) <$> List.filter same (links_at j)).
Definition keyed_of (j : Join string) : gset string :=
  keyed_on os (j_up j) (j_key j) ∩ keyed_on os (j_down j) (j_key j) ∩ measured.
Definition both_of (j : Join string) : gset string := seen_on os (j_up j) ∩ seen_on os (j_down j) ∩ measured.

Lemma elem_of_linked j t : j ∈ exact_joins topology → t ∈ linked_of j ↔ ∃ v a b,
  only os j (j_up j) v a ∧ only os j (j_down j) v b ∧ a.2 = t ∧ b.2 = t.
Proof.
  intros Hj. unfold linked_of. rewrite elem_of_list_to_set, list_elem_of_fmap. setoid_rewrite elem_of_filter_bool.
  setoid_rewrite (λ l, elem_of_links_at j l Hj). unfold same. setoid_rewrite bool_decide_eq_true. split.
  - intros (l & -> & (_ & _ & a & b & Ha & Hb & Eu & Ed) & E). rewrite Eu, Ed in E. rewrite Eu.
    destruct Ha as [Ha Ha'], Hb as [Hb Hb']. rewrite !T_of in E by apply Ha || apply Hb.
    rewrite T_of by apply Ha. exists (l_value l), a, b. by rewrite <- E.
  - intros (v & a & b & Ha & Hb & <- & E).
    exists (mkLink (j_where j) (j_key j) v (identity a.1) (identity b.1)). simpl.
    pose proof Ha as [[Hao _] _]. pose proof Hb as [[Hbo _] _].
    pose proof (T_of a Hao) as Ta. pose proof (T_of b Hbo) as Tb. cbn beta in Ta, Tb. rewrite Ta, Tb.
    split_and!; [done..| |done]. eauto 10.
Qed.
Lemma linked_keyed j : j ∈ exact_joins topology → linked_of j ⊆ keyed_of j.
Proof.
  intros Hj t (v & a & b & [Ha _] & [Hb _] & Ea & Eb)%elem_of_linked; [|done]. unfold keyed_of.
  rewrite !elem_of_intersection, !elem_of_keyed. split_and!; [by exists v, a|by exists v, b|].
  subst t. apply (ob_truth _ _ _ Hob), Ha.
Qed.
Lemma keyed_both j : keyed_of j ⊆ both_of j.
Proof.
  intros t. unfold keyed_of, both_of. rewrite !elem_of_intersection, !elem_of_keyed, !elem_of_seen.
  intros [[(v & a & [? [? _]] & ?) (w & b & [? [? _]] & ?)] ?]. eauto 10.
Qed.
Lemma linked_all j : j ∈ exact_joins topology → tells os j → once os j → keyed_of j ⊆ linked_of j.
Proof.
  intros Hj Ht Hon t. unfold keyed_of. rewrite !elem_of_intersection, !elem_of_keyed.
  intros [[(v & a & Ha & <-) (w & b & Hb & E)] _]. apply elem_of_linked; [done|].
  assert (v = w) as <- by by apply (Ht a b). exists v, a, b. split_and!; [|..|done|done]; split; try done.
  - intros a' Ha'. eapply Hon; [left|done..|]. rewrite <- E. by apply (Ht a' b v v).
  - intros b' Hb'. eapply Hon; [right; left|done..|]. rewrite E. symmetry. by apply (Ht a b' v v).
Qed.

Definition report_of (j : Join string) : JoinReport :=
  let correct := List.filter same (links_at j) in
  mkJoinReport (j_key j) (Z.of_nat (length (links_at j))) (Z.of_nat (length correct))
    (Z.of_nat (length (links_at j)) - Z.of_nat (length correct))
    (csize (keyed_of j ∖ linked_of j)) (csize (both_of j ∖ keyed_of j)) (csize (both_of j))
    (count (λ c, bool_decide (c_where c = j_where j)) (r_collisions result))
    (count (λ u, bool_decide (u.1 = j_where j)) (r_unlinked result))
    (count (λ l, negb (bool_decide (l_value l = T (l_upstream l)))) correct).
Lemma score_one_ok j : j ∈ exact_joins topology →
  score_one result (truth_map os) os measured j = Ok (report_of j).
Proof.
  intros Hj. unfold score_one. fold (links_at j). rewrite (judged_ok j Hj). cbn [mbind res_bind].
  rewrite filter_fmap. unfold count. rewrite filter_fmap, !length_fmap, <- list_fmap_compose. done.
Qed.

Lemma csize_split (X Y : gset string) : Y ⊆ X → csize X = csize Y + csize (X ∖ Y).
Proof. intros H. unfold csize. rewrite size_difference by done. pose proof (subseteq_size Y X H). lia. Qed.
Lemma both_split j : j ∈ exact_joins topology →
  jr_both_seen (report_of j) = csize (linked_of j) + jr_lost (report_of j) + jr_keyless (report_of j).
Proof.
  intros Hj. simpl. rewrite (csize_split (both_of j) (keyed_of j)) by apply keyed_both.
  rewrite (csize_split (keyed_of j) (linked_of j)) at 1 by by apply linked_keyed. lia.
Qed.

Lemma report_scored j : j ∈ exact_joins topology → scored os j (report_of j).
Proof.
  intros Hj. pose proof (both_split j Hj) as Hboth. split; simpl in *.
  - done.
  - pose proof (sublist_length _ _ (sublist_filter_bool_sub same (links_at j))). lia.
  - rewrite <- (Permutation_length (filter_split same (links_at j))), length_app.
    transitivity (∃ l, l ∈ List.filter (λ x, negb (same x)) (links_at j)).
    { destruct (List.filter (λ x, negb (same x)) _) as [|l ls]; simpl.
      - split; [lia|]. by intros [l ?%not_elem_of_nil].
      - split; [|lia]. intros _. exists l. left. }
    setoid_rewrite elem_of_filter_bool. setoid_rewrite (λ l, elem_of_links_at j l Hj). split.
    + intros (l & (_ & _ & a & b & Ha & Hb & Eu & Ed) & E). exists (l_value l), a, b. split_and!; [done..|].
      unfold same in E. rewrite Eu, Ed, !T_of in E by apply Ha || apply Hb.
      by apply negb_true_iff, bool_decide_eq_false in E.
    + intros (v & a & b & Ha & Hb & E).
      exists (mkLink (j_where j) (j_key j) v (identity a.1) (identity b.1)). split; [simpl; eauto 10|].
      unfold same. simpl. pose proof (T_of a ltac:(apply Ha)) as Ta. pose proof (T_of b ltac:(apply Hb)) as Tb.
      cbn beta in Ta, Tb. rewrite Ta, Tb. by rewrite bool_decide_eq_false_2.
  - rewrite Hboth. unfold linked_of, csize at 1.
    pose proof (size_list_to_set_le ((λ l, T (l_upstream l)) <$> List.filter same (links_at j))) as H.
    rewrite length_fmap in H. lia.
  - intros Hon. rewrite Hboth. unfold linked_of, csize at 1.
    rewrite size_list_to_set, length_fmap by by apply correct_once. lia.
  - intros Ht Hon. unfold csize. assert (keyed_of j ∖ linked_of j = ∅) as ->; [|by rewrite size_empty].
    apply subseteq_empty_difference_L. by apply linked_all.
  - intros Hup Hk. unfold count. rewrite filter_bool_none; [done|]. intros l [Hl _]%elem_of_filter_bool.
    apply elem_of_links_at in Hl as (_ & _ & a & b & [(Ha & Hs & Hv) _] & _ & Eu & _); [|done].
    rewrite Eu, T_of by done. rewrite Hk in Hv. rewrite Hup in Hs.
    destruct (ob_sent _ _ _ Hob a Ha Hs) as [E|E]; [congruence|].
    rewrite bool_decide_eq_true_2; [done|congruence].
Qed.
End score_spec.

(** ** Lemmas: the report *)

Lemma score_joins_ok topology : NoDup (j_where <$> exact_joins topology) →
  (∀ c, c ∈ t_crossings topology → arrow (cc_point c) = false) →
  score_joins topology = Ok ((λ j, (j_where j, j)) <$> exact_joins topology).
Proof.
  intros Hnd Hc. unfold score_joins.
  rewrite (map_res_fmap _ id).
  - rewrite list_fmap_id. cbn [mbind res_bind]. f_equal. revert Hnd. unfold exact_joins.
    generalize (omap (λ hop, (λ key, mkJoin (hop_where (hc_src hop) (hc_dst hop)) key
                 (hc_src hop, "outbound"%string) (hc_dst hop, "inbound"%string)) <$> hc_key hop) (t_hops topology) ++
               omap (λ c, (λ key, mkJoin (cc_point c) key (cc_point c, "inbound"%string) (cc_point c, "outbound"%string))
                 <$> cc_key c) (t_crossings topology)) as l.
    intros l. induction l as [|j l IH] using rev_ind; intros Hnd; [done|].
    rewrite foldl_snoc, !fmap_app in *. apply NoDup_app in Hnd as (Hnd & Hx & _). rewrite IH by done.
    rewrite od_set_new; [done|]. rewrite <- list_fmap_compose. intros Hin.
    apply (Hx (j_where j)); [|left]. exact Hin.
  - intros j (c & Hc' & Ej)%list_elem_of_omap. unfold score_sides. destruct (cc_key c); simplify_eq/=.
    by rewrite Hc.
Qed.

Lemma score_ok topology hops measured os : observed hops measured os →
  (∀ p, p ∈ chain hops → p ∈ point_names topology) →
  NoDup (j_where <$> exact_joins topology) →
  (∀ c, c ∈ t_crossings topology → arrow (cc_point c) = false) →
  ∃ report, score topology os.*1 (truth_map os) measured = Ok (report, 0) ∧
    report.*1 = sorted_by id (j_where <$> exact_joins topology) ∧
    ∀ j, j ∈ exact_joins topology → ∃ r, od_get (j_where j) report = Some r ∧ scored os j r.
Proof.
  intros Hob Hp Hnd Hc. destruct (exact_links_cell _ _ _ _ Hob Hp) as (result & Hres & Hdrop).
  unfold score. rewrite Hres. cbn [mbind res_bind]. rewrite score_joins_ok by done. cbn [mbind res_bind].
  assert (map_res (λ o, t ← get (truth_map os !! identity o) KeyError; Ok (o, t)) os.*1 = Ok os) as ->.
  { apply map_res_Forall2, Forall2_fmap_l, Forall_Forall2_diag, Forall_forall. intros e He. unfold compose.
    rewrite (truth_map_lookup os e (ob_once _ _ _ Hob) He). by destruct e. }
  cbn [mbind res_bind]. set (joins := sorted_by fst ((λ j, (j_where j, j)) <$> exact_joins topology)).
  assert (joins ≡ₚ (λ j, (j_where j, j)) <$> exact_joins topology) as Hperm by apply sorted_by_perm.
  set (rep := λ e : string * Join string, (e.1, report_of measured os result e.2)).
  rewrite (map_res_fmap _ rep).
  - cbn [mbind res_bind]. rewrite Hdrop. eexists. split; [done|].
    assert ((rep <$> joins).*1 = joins.*1) as Hkeys by by rewrite <- list_fmap_compose.
    assert (joins.*1 ≡ₚ j_where <$> exact_joins topology) as Hk.
    { rewrite Hperm, <- list_fmap_compose. done. }
    split.
    + rewrite Hkeys. apply (sorted_unique id).
      * by rewrite sorted_by_perm, Hk.
      * by rewrite list_fmap_id, Hk.
      * pose proof (sorted_by_sorted fst ((λ j, (j_where j, j)) <$> exact_joins topology)) as Hs.
        fold joins in Hs. clear -Hs. induction Hs as [|x l _ IH Hx]; [constructor|]. constructor; [done|].
        apply Forall_fmap. done.
      * apply sorted_by_sorted.
    + intros j Hj. exists (report_of measured os result j). split.
      * apply od_get_in; [by rewrite Hkeys, Hk|]. apply list_elem_of_fmap. exists (j_where j, j).
        split; [done|]. rewrite Hperm. apply list_elem_of_fmap. by exists j.
      * by eapply report_scored.
  - intros e He. rewrite Hperm in He. apply list_elem_of_fmap in He as (j & -> & Hj). simpl.
    by erewrite score_one_ok.
Qed.

(** ** Lemmas: the chains of the lab *)

(** The joins of a chain: every hop, and the hops whose relay or agent copies the header. *)
Definition lab_joins (hops : nat) (kinds : list string) (propagation : string) : list (Join string) :=
  ((λ ab : string * string, mkJoin (hop_where ab.1 ab.2) "traceparent"%string (ab.1, "outbound") (ab.2, "inbound")) <$>
     pairwise (chain hops))%string ++
  omap id (imap (λ i kind,
    if bool_decide (kind = "traefik"%string) || bool_decide (propagation = "headers"%string)
    then Some (mkJoin (hop_name (S i)) "traceparent"%string (hop_name (S i), "inbound"%string) (hop_name (S i), "outbound"%string))
    else None) kinds).
(** The chains the lab ran have at most five hops. *)
Definition MAX_HOPS : nat := 5.

(** A declaration reads only whether the kind is Traefik and the headers are written. *)
Definition kind_of (traefik : bool) : string := if traefik then "traefik" else "relay".
Definition propagation_of (headers : bool) : string := if headers then "headers" else "agent-default".
Definition is_traefik (kind : string) : bool := bool_decide (kind = "traefik"%string).
Definition is_headers (propagation : string) : bool := bool_decide (propagation = "headers"%string).

Lemma is_traefik_kind b : is_traefik (kind_of b) = b.
Proof. by destruct b. Qed.
Lemma declaration_ext connection sending receiving hops kinds propagation :
  declaration connection sending receiving hops kinds propagation =
  declaration connection sending receiving hops (kind_of ∘ is_traefik <$> kinds) (propagation_of (is_headers propagation)).
Proof.
  unfold declaration. do 2 f_equal. rewrite imap_fmap. do 3 f_equal. apply imap_ext. intros i kind _. unfold compose.
  f_equal. unfold hop_point. do 3 f_equal.
  change (bool_decide (kind = _)) with (is_traefik kind).
  change (bool_decide (kind_of (is_traefik kind) = _)) with (is_traefik (kind_of (is_traefik kind))).
  rewrite is_traefik_kind. destruct (is_traefik kind); [done|].
  change (bool_decide (propagation = _)) with (is_headers propagation). by destruct (is_headers propagation).
Qed.
Lemma lab_joins_ext hops kinds propagation :
  lab_joins hops kinds propagation = lab_joins hops (kind_of ∘ is_traefik <$> kinds) (propagation_of (is_headers propagation)).
Proof.
  unfold lab_joins. f_equal. rewrite imap_fmap. f_equal. apply imap_ext. intros i kind _. unfold compose.
  change (bool_decide (kind = _)) with (is_traefik kind).
  change (bool_decide (kind_of (is_traefik kind) = _)) with (is_traefik (kind_of (is_traefik kind))).
  rewrite is_traefik_kind. change (bool_decide (propagation = _)) with (is_headers propagation).
  by destruct (is_headers propagation).
Qed.

Fixpoint bools (n : nat) : list (list bool) :=
  match n with O => [[]] | S n => (cons true <$> bools n) ++ (cons false <$> bools n) end.
Lemma elem_of_bools l : l ∈ bools (length l).
Proof.
  induction l as [|b l IH]; [left|]. simpl. apply elem_of_app.
  destruct b; [left|right]; by apply list_elem_of_fmap_2.
Qed.
Global Instance Join_eq_dec {K} `{EqDecision K} : EqDecision (Join K).
Proof. solve_decision. Defined.

Section lab.
Context (repr py_str : Value → string) (format_g : Q → string).
Definition lab_loads (hops : nat) (connection : bool) (kinds : list bool) (headers : bool) : bool :=
  match topology_for repr py_str format_g hops (kind_of <$> kinds) (propagation_of headers) connection [] with
  | Ok (inr t) =>
      let joins := exact_joins t in
      bool_decide (sorted_by j_where joins = sorted_by j_where (lab_joins hops (kind_of <$> kinds) (propagation_of headers))) &&
      bool_decide (NoDup (j_where <$> joins)) &&
      forallb (λ p, mem p (p_name <$> t_points t)) (chain hops) &&
      forallb (λ c, negb (arrow (cc_point c))) (t_crossings t)
  | _ => false
  end.
Lemma lab_loads_all : forallb (λ hops, forallb (λ kinds, forallb (λ connection, forallb (λ headers,
    lab_loads hops connection kinds headers) [true; false]) [true; false]) (bools hops)) (seq 0 (S MAX_HOPS)) = true.
Proof. vm_compute. reflexivity. Qed.

Lemma lab_topology hops kinds propagation connection : (hops <= MAX_HOPS)%nat → length kinds = hops →
  ∃ topology, topology_for repr py_str format_g hops kinds propagation connection [] = Ok (inr topology) ∧
    exact_joins topology ≡ₚ lab_joins hops kinds propagation ∧
    NoDup (j_where <$> exact_joins topology) ∧
    (∀ p, p ∈ chain hops → p ∈ point_names topology) ∧
    (∀ c, c ∈ t_crossings topology → arrow (cc_point c) = false).
Proof.
  intros Hh Hl. rewrite lab_joins_ext. unfold topology_for. cbn [map_res mbind res_bind].
  rewrite declaration_ext, (list_fmap_compose is_traefik kind_of). set (bits := is_traefik <$> kinds).
  assert (lab_loads hops connection bits (is_headers propagation) = true) as H.
  { pose proof lab_loads_all as H. rewrite forallb_forall in H. specialize (H hops ltac:(apply list_elem_of_In, elem_of_seq; lia)).
    rewrite forallb_forall in H. specialize (H bits).
    assert (length bits = hops) as Hb by by unfold bits; rewrite length_fmap.
    specialize (H ltac:(apply list_elem_of_In; rewrite <- Hb; apply elem_of_bools)).
    rewrite forallb_forall in H. specialize (H connection ltac:(destruct connection; simpl; auto)).
    rewrite forallb_forall in H. apply H. destruct (is_headers propagation); simpl; auto. }
  unfold lab_loads, topology_for in H. cbn [map_res mbind res_bind] in H.
  destruct (load _ _ _ _) as [[|topology]|]; [done| |done]. exists topology. split; [done|].
  rewrite !andb_true_iff, !bool_decide_eq_true, !forallb_forall in H. destruct H as [[[Hj Hnd] Hp] Hc].
  split_and!; [|done|..].
  - rewrite <- (sorted_by_perm j_where (exact_joins topology)), Hj. apply sorted_by_perm.
  - intros p Hin. apply elem_of_list_to_set. apply list_elem_of_In, Hp in Hin. unfold mem in Hin.
    by apply bool_decide_eq_true in Hin.
  - intros c Hin. apply list_elem_of_In, Hc in Hin. by apply negb_true_iff in Hin.
Qed.
End lab.

(** ** Guarantees *)

(** C33: a lab cell is always scored, and its score says what it means.  For every chain
    of at most five hops of any kinds, with or without header propagation, and every log
    and spans that read as observations with non-empty trace ids: the declared topology
    loads, the exact path refuses nothing and drops nothing, and the report names exactly
    the joins of the chain in order.  For each, the links are the correct and the wrong
    ones; a wrong one exists exactly when a value held by one observation on each side
    belongs to two requests; the requests seen on both sides are at most the correct
    links, the lost and the keyless ones, and exactly these when no request is seen twice
    on a side; nothing is lost when, moreover, equal values mean equal requests; and no
    link from load-gen is self-authored. *)
Theorem cell_scored repr py_str format_g log outside spans meta os measured :
  (m_hops meta <= MAX_HOPS)%nat → length (m_kinds meta) = m_hops meta →
  observations log outside spans meta = Ok (os, measured) → ""%string ∉ measured →
  let joins := lab_joins (m_hops meta) (m_kinds meta) (m_propagation meta) in
  ∃ report, analyze_cell repr py_str format_g log outside spans meta = Ok (report, 0) ∧
    report.*1 = sorted_by id (j_where <$> joins) ∧
    ∀ j, j ∈ joins → ∃ r, od_get (j_where j) report = Some r ∧ scored os j r.
Proof.
  intros Hh Hl Hos Hne joins. pose proof (observations_ok _ _ _ _ _ _ Hos Hne) as Hob.
  destruct (lab_topology repr py_str format_g _ _ (m_propagation meta) false Hh Hl)
    as (topology & Ht & Hj & Hnd & Hp & Hc).
  destruct (score_ok _ _ _ _ Hob Hp Hnd Hc) as (report & Hs & Hkeys & Hall).
  exists report. split_and!.
  - unfold analyze_cell. rewrite Ht. cbn [mbind res_bind]. rewrite Hos. exact Hs.
  - rewrite Hkeys. apply (sorted_by_unique id); [by rewrite Hj|by rewrite list_fmap_id].
  - intros j Hin. apply Hall. by rewrite Hj.
Qed.

(** ** Witnesses *)

Definition truth_id (last : string) : string := "0123456789abcdef0123456789abcd" +:+ last.
Definition logged (t : string) : json := JObj [("trace_id"%string, JStr t)].
Definition span_of (kind : string) (trace truth : string) (attrs : list (string * json)) (port : Z) : json :=
  JObj [("kind", JStr kind); ("traceID", JStr trace); ("hostPort", JInt port);
        ("attributes", JObj (("url", JStr ("/truth-" +:+ truth)) :: attrs))]%string.
Definition lab_log : list json := logged <$> (truth_id <$> ["00"; "01"]%string).
Definition lab_spans : list json :=
  [span_of SERVER (truth_id "00") (truth_id "00") [("serverAddr", JStr "hop-1")] 80;
   span_of CLIENT (truth_id "00") (truth_id "00") [("clientAddr", JStr "hop-1")] 0;
   span_of SERVER (truth_id "00") (truth_id "00") [] 9000;
   span_of SERVER (truth_id "01") (truth_id "01") [("serverAddr", JStr "hop-1")] 80;
   span_of CLIENT "000" (truth_id "01") [("clientAddr", JStr "hop-1")] 0;
   span_of SERVER "ff" (truth_id "01") [] 9000]%string.
Definition lab_meta : Meta := mkMeta 1 ["traefik"%string] 9000 "agent-default" false.
Definition lab_observed : list (Observation * string) * gset string :=
  match observations lab_log [] lab_spans lab_meta with Ok r => r | Raise _ => ([], ∅) end.
(** The second request loses its header at the hop. *)
Example lab_score :
  (λ r : odict string JoinReport * Z, (λ e : string * JoinReport, (e.1, jr_correct e.2, jr_wrong e.2, jr_lost e.2, jr_keyless e.2)) <$> r.1) <$>
    analyze_cell (λ _, "") (λ _, "") (λ _, "") lab_log [] lab_spans lab_meta =
  Ok [("hop-1", 1, 0, 0, 1); ("hop-1 -> fake-upstream", 1, 0, 0, 1); ("load-gen -> hop-1", 2, 0, 0, 0)]%string.
Proof. vm_compute. reflexivity. Qed.
Lemma cell_scored_witness :
  ∃ report, analyze_cell (λ _, "") (λ _, "") (λ _, "") lab_log [] lab_spans lab_meta = Ok (report, 0) ∧
    report.*1 = sorted_by id (j_where <$> lab_joins 1 ["traefik"] "agent-default") ∧
    ∀ j, j ∈ lab_joins 1 ["traefik"] "agent-default" →
      ∃ r, od_get (j_where j) report = Some r ∧ scored lab_observed.1 j r.
Proof.
  apply (cell_scored _ _ _ lab_log [] lab_spans lab_meta lab_observed.1 lab_observed.2).
  - vm_compute. lia.
  - reflexivity.
  - vm_compute. reflexivity.
  - apply (bool_decide_eq_false_1 (""%string ∈ lab_observed.2)). vm_compute. reflexivity.
Defined.
