(* ===== verification/AnalyzeRun.v ===== *)
(** * AnalyzeRun: the per-request score of an observation point

    [m0-harness/analyze_run.py], the JSON printer, and [m0-harness/hn_analyze.py], which
    scores every point of a chain.  A run gives the rows of load-gen's log and the lines the
    agent printed: the lines that begin with a bracket, parsed to spans, or [None] where the
    text is not JSON.  The text printer ([evaluate]) is in [Multihop]; the files are not
    modelled. *)

From Stdlib Require Import SpecFloat.
From S2P Require Import Prelude DecimalText Json Floats Topology Dedup Harness ExactPath.

(** ** Ground truth *)

Definition distinct_ids (ids : list string) : gset string := list_to_set ids.
Definition _check_ground_truth (rows : list json) : res (gset string) :=
  ids ← trace_ids rows;
  let expected := distinct_ids ids in
  _ ← check (negb (is_nil rows) && bool_decide (size expected = length rows))
        (ValueError "ground truth must contain nonempty, unique request identities");
  _ ← check (forallb (λ row, match field "schema_version" row with Some (JInt z) => z =? 2 | _ => false end) rows)
        (ValueError "schema_version=2 required for explicit request accounting");
  _ ← check (forallb (field_is "side" "load-gen") rows)
        (ValueError "ground truth must contain load-gen records only");
  Ok expected.

(** ** The score of one point *)

(** A selected observation: the request path, when printed, and the reported trace id. *)
Notation Observed := (option string * string)%type (only parsing).
Inductive Placed :=
| Outside
| Unlabelled
| Unexpected
| Of (request : string) (reported : string).
Definition place_observation (expected excluded : gset string) (o : Observed) : Placed :=
  let truth := match o.1 with Some path => if bool_decide (path = ""%string) then None else TRUTH path | None => None end in
  if bool_decide (default o.2 truth ∈ excluded) then Outside
  else match truth with
       | None => Unlabelled
       | Some request => if bool_decide (request ∈ expected) then Of request o.2 else Unexpected
       end.
(** What one request was reported as. *)
Inductive Outcome := CORRECT | SWAPPED | UNKNOWN | MISSING | DUPLICATE.
Global Instance Outcome_eq_dec : EqDecision Outcome.
Proof. solve_decision. Defined.
Definition outcome_of (expected : gset string) (reported : list string) (request : string) : Outcome :=
  match reported with
  | [] => MISSING
  | [id] => if bool_decide (id = request) then CORRECT else if bool_decide (id ∈ expected) then SWAPPED else UNKNOWN
  | _ => DUPLICATE
  end.
Record Score := mkScore {
  sc_valid : bool;
  sc_attempted : Z;
  sc_request_failures : Z;
  sc_client_protocols : gmap string Z;
  sc_selected : Z;
  sc_correct : Z;
  sc_wrong_known : Z;
  sc_unknown : Z;
  sc_missing : Z;
  sc_duplicates : Z;
  sc_unlabelled : Z;
  sc_unexpected : Z;
  sc_unparsed : Z;
  sc_outside : Z;
  sc_correct_per_attempt : option float
}.
Definition is_outside (p : Placed) : bool := match p with Outside => true | _ => false end.
Definition is_unlabelled (p : Placed) : bool := match p with Unlabelled => true | _ => false end.
Definition is_unexpected (p : Placed) : bool := match p with Unexpected => true | _ => false end.
Definition of_request (p : Placed) : option (string * string) := match p with Of r t => Some (r, t) | _ => None end.
(** [Counter(...)] *)
Definition counter (l : list string) : gmap string Z :=
  foldl (λ m x, <[x := default 0 (m !! x) + 1]> m) ∅ l.
Definition _score (rows : list json) (expected : gset string) (observed : list Observed) (parse_failures : Z)
    (excluded : gset string) : res Score :=
  let placed := place_observation expected excluded <$> observed in
  let observations := group (omap of_request placed) in
  let outcomes := (λ request, outcome_of expected (at_key observations request) request) <$> elements expected in
  let having o := count (λ x, bool_decide (x = o)) outcomes in
  let outside := count is_outside placed in
  let unlabelled := count is_unlabelled placed in
  let unexpected := count is_unexpected placed in
  let selected := Z.of_nat (length observed) - outside in
  let valid := (unlabelled =? 0) && (unexpected =? 0) && (having DUPLICATE =? 0) && (parse_failures =? 0) && (0 <? selected) in
  protocols ← map_res (text_field "protocol" "unavailable") rows;
  Ok (mkScore valid (Z.of_nat (length rows))
        (count (λ row, match field "error" row with Some v => truthy v | None => false end) rows)
        (counter protocols) selected (having CORRECT) (having SWAPPED) (having UNKNOWN) (having MISSING)
        (having DUPLICATE) unlabelled unexpected parse_failures outside
        (if valid then Some (fdiv (float_of_int (having CORRECT)) (float_of_int (Z.of_nat (length rows)))) else None)).

(** The lines of the agent: the spans of a line, or [None] when it is not JSON. *)
Notation Lines := (list (option (list json))) (only parsing).
(** [kind], [port], [attrs]: the selection of an observation point. *)
Record Selection := mkSelection {
  se_kind : string;
  se_port : option Z;
  se_attrs : list (string * string)
}.
Definition selects (s : Selection) (span : json) : res bool :=
  if negb (field_is "kind" (se_kind s) span) then Ok false
  else
    at_port ← match se_port s with Some port => p ← int_field "hostPort" 0 span; Ok (p =? port) | None => Ok true end;
    Ok ((at_port : bool) && forallb (λ kv : string * string, field_is kv.1 kv.2 (attributes span)) (se_attrs s)).
Definition observed_of (s : Selection) (span : json) : res (option Observed) :=
  chosen ← selects s span;
  if (chosen : bool) then
    url ← match field "url" (attributes span) with
          | None | Some JNull => Ok None
          | Some (JStr u) => Ok (Some u)
          | Some _ => Raise TypeError
          end;
    trace ← text_field "traceID" "" span;
    Ok (Some (url, trace))
  else Ok None.
Definition evaluate_json (rows : list json) (lines : Lines) (s : Selection) (excluded : gset string) : res Score :=
  _ ← check (bool_decide (is_Some (se_port s)) || negb (is_nil (se_attrs s)))
        (ValueError "select an observation point by port, by attributes, or both");
  expected ← _check_ground_truth rows;
  observed ← map_res (observed_of s) (mjoin (omap id lines));
  _score rows expected (omap id observed) (count (λ l : option (list json), negb (bool_decide (is_Some l))) lines) excluded.

(** ** Every point of a chain: hn_analyze.py *)

(** Observation points along the request. *)
Definition hop_points (k : nat) : list (string * Selection) :=
  [(hop_name k +:+ " in", mkSelection SERVER None [("serverAddr", hop_name k)]);
   (hop_name k +:+ " out", mkSelection CLIENT None [("clientAddr", hop_name k)])]%string.
Definition points (hops : nat) (port : Z) : list (string * Selection) :=
  (seq 1 hops ≫= hop_points) ++ [("fake-upstream in"%string, mkSelection SERVER (Some port) [])].
(** truth id -> trace ids reported at a point, in order *)
Definition reported_of (s : Selection) (span : json) : res (option (string * string)) :=
  chosen ← selects s span;
  if (chosen : bool) then
    url ← text_field "url" "" (attributes span);
    match TRUTH url with
    | Some t => trace ← text_field "traceID" "" span; Ok (Some (t, trace))
    | None => Ok None
    end
  else Ok None.
Definition reported_all (spans : list json) (s : Selection) : res (list (string * string)) :=
  omap (M := list) id <$> map_res (reported_of s) spans.
Definition reported_ids (spans : list json) (s : Selection) : res (gmap string string) :=
  seen ← reported_all spans s;
  Ok (omap (M := gmap string) (λ ids, match ids with [id] => Some id | _ => None end) (group seen)).
Record Agreement := mkAgreement {
  ag_from : string;
  ag_to : string;
  ag_same_id : Z;
  ag_both_seen : Z
}.
Definition consistency (spans : list json) (hops : nat) (port : Z) (measured : gset string) : res (list Agreement) :=
  maps ← map_res (λ e : string * Selection, m ← reported_ids spans e.2; Ok (e.1, m)) (points hops port);
  Ok ((λ ab : (string * gmap string string) * (string * gmap string string),
        let ma := ab.1.2 in
        let mb := ab.2.2 in
        let both := List.filter (λ t, bool_decide (is_Some (ma !! t)) && bool_decide (is_Some (mb !! t))) (elements measured) in
        mkAgreement ab.1.1 ab.2.1 (count (λ t, bool_decide (ma !! t = mb !! t)) both) (Z.of_nat (length both)))
      <$> pairwise maps).
(** The first point that is not clean. *)
Definition clean (r : Score) : bool :=
  sc_valid r && (sc_wrong_known r =? 0) && (sc_unknown r =? 0) && (sc_missing r =? 0).
Definition first_failure (scored : list (string * Score)) : option string :=
  fst <$> find (λ e, negb (clean e.2)) scored.

(** What fake-upstream read from the headers, by the truth id in its logged path. *)
Record Wire := mkWire {
  wi_measured : Z;
  wi_reached_once : Z;
  wi_received_once : Z;
  wi_absent : Z;
  wi_fresh : option (Z * Z);     (* fresh_received, other_received *)
  wi_baggage : option (Z * Z)    (* baggage_exact, baggage_absent *)
}.
Inductive WireReport :=
| ByTraceId (received_once measured : Z)   (* records without a path *)
| ByPath (w : Wire).
Definition is_truthy (v : option json) : bool := match v with Some x => truthy x | None => false end.
(** [r.get(k)] compared with a text; a value that is not a text is refused. *)
Definition text_or_none (key : string) (r : json) : res (option string) :=
  match field key r with Some (JStr s) => Ok (Some s) | None | Some JNull => Ok None | Some _ => Raise TypeError end.
Definition path_truth (by_id : gset string) (r : json) : res (option (string * json)) :=
  path ← text_field "path" "" r;
  Ok match TRUTH path with Some t => if bool_decide (t ∈ by_id) then Some (t, r) else None | None => None end.
(** [by_id[t]["baggage"]]: the last row of the id *)
Definition sent_baggage (rows : list json) (t : string) : res (option string) :=
  row ← get (find (λ row, field_is "trace_id" t row) (reverse rows)) KeyError;
  _ ← get (field "baggage" row) KeyError;
  text_or_none "baggage" row.
Record Read := mkRead { rd_truth : string; rd_trace : option string; rd_baggage : option string }.
Definition read_of (e : string * json) : res Read :=
  trace ← text_or_none "trace_id" e.2; baggage ← text_or_none "baggage" e.2; Ok (mkRead e.1 trace baggage).
Definition nonempty (o : option string) : bool := match o with Some s => negb (bool_decide (s = ""%string)) | None => false end.
Definition wire (rows fu_records : list json) (fresh : gmap string string) : res WireReport :=
  ids ← trace_ids rows;
  let by_id := distinct_ids ids in
  if negb (existsb (λ r, is_truthy (field "path" r)) fu_records) then
    seen ← map_res (text_field "trace_id" "") fu_records;
    Ok (ByTraceId (count (λ t, bool_decide (counter seen !! t = Some 1)) (elements by_id)) (Z.of_nat (size by_id)))
  else
    found ← map_res (path_truth by_id) fu_records;
    let received := group (omap (M := list) id found) in
    once ← map_res read_of (omap (λ e : string * list json, match e.2 with [r] => Some (e.1, r) | _ => None end) (map_to_list received));
    exact ← (if existsb (λ r, is_truthy (field "baggage" r)) rows
             then sent ← map_res (λ r, b ← sent_baggage rows (rd_truth r); Ok (bool_decide (rd_baggage r = b))) once;
                  Ok (Some (count id sent, count (λ r, negb (nonempty (rd_baggage r))) once))
             else Ok None);
    Ok (ByPath (mkWire (Z.of_nat (size by_id)) (Z.of_nat (length once))
      (count (λ r, bool_decide (rd_trace r = Some (rd_truth r))) once)
      (count (λ r, negb (nonempty (rd_trace r))) once)
      (if bool_decide (fresh = ∅) then None
       else Some (count (λ r, bool_decide (fresh !! rd_truth r = rd_trace r)) once,
                  count (λ r, nonempty (rd_trace r) && negb (bool_decide (rd_trace r = Some (rd_truth r))) &&
                              negb (bool_decide (rd_trace r = fresh !! rd_truth r))) once))
      exact)).
(** Scores, by point; an agent that printed nothing has no points. *)
Definition analyze_points (rows : list json) (lines : Lines) (excluded : gset string) (hops : nat) (port : Z)
    : res (list (string * Score)) :=
  if is_nil lines then Ok []
  else map_res (λ e : string * Selection, r ← evaluate_json rows lines e.2 excluded; Ok (e.1, r)) (points hops port).

(** ** Lemmas: counting *)

(** How many items a list of keys has, in all. *)
Fixpoint items_of (ks : list string) (items : list (string * string)) : Z :=
  match ks with [] => 0 | k :: ks => Z.of_nat (length (under k items)) + items_of ks items end.
Lemma items_of_cons ks k x items : NoDup ks →
  items_of ks ((k, x) :: items) = (if bool_decide (k ∈ ks) then 1 else 0) + items_of ks items.
Proof.
  induction ks as [|k' ks IH]; intros Hn; [by rewrite bool_decide_eq_false_2 by apply not_elem_of_nil|].
  apply NoDup_cons in Hn as [Hk Hn]. cbn [items_of]. rewrite IH by done.
  change ((k, x) :: items) with ([(k, x)] ++ items). rewrite under_app, under_one, length_app.
  destruct (decide (k = k')) as [-> |Hne].
  - rewrite (bool_decide_eq_true_2 (k' ∈ k' :: ks)) by left. rewrite bool_decide_eq_false_2 by done. simpl length. lia.
  - rewrite (bool_decide_ext (k ∈ k' :: ks) (k ∈ ks)) by (rewrite elem_of_cons; naive_solver). simpl length. lia.
Qed.
(** Items whose keys are all listed are counted once each. *)
Lemma items_of_all ks items : NoDup ks → (∀ e, e ∈ items → e.1 ∈ ks) → items_of ks items = Z.of_nat (length items).
Proof.
  intros Hn. induction items as [|[k x] items IH]; intros H.
  - clear. induction ks as [|k ks IH]; [done|]. cbn [items_of]. by rewrite IH.
  - rewrite items_of_cons, IH by (done || (intros; apply H; by right)). specialize (H (k, x) ltac:(left)). simpl in H.
    rewrite bool_decide_eq_true_2 by done. simpl length. lia.
Qed.

(** Comparisons of outcomes. *)
Ltac decide_constants :=
  repeat match goal with
  | |- context [bool_decide (?a = ?b :> Outcome)] =>
      let v := eval vm_compute in (bool_decide (a = b :> Outcome)) in
      match v with true => idtac | false => idtac end; change (bool_decide (a = b :> Outcome)) with v; cbv iota
  end.
(** Every request has one outcome, which tells how often it was reported. *)
Lemma outcomes_counted expected items ks (outcomes := (λ r, outcome_of expected (under r items) r) <$> ks) :
  let having o := count (λ x, bool_decide (x = o)) outcomes in
  having CORRECT + having SWAPPED + having UNKNOWN + having MISSING + having DUPLICATE = Z.of_nat (length ks) ∧
  having CORRECT + having SWAPPED + having UNKNOWN + 2 * having DUPLICATE <= items_of ks items ∧
  (having DUPLICATE = 0 → items_of ks items = having CORRECT + having SWAPPED + having UNKNOWN).
Proof.
  subst outcomes. cbv zeta. induction ks as [|k ks IH]; [done|]. rewrite fmap_cons, !count_cons. cbn [items_of].
  pose proof (count_nonneg (λ x, bool_decide (x = DUPLICATE)) ((λ r, outcome_of expected (under r items) r) <$> ks)).
  assert (match outcome_of expected (under k items) k with
          | MISSING => length (under k items) = 0%nat | DUPLICATE => (2 <= length (under k items))%nat
          | _ => length (under k items) = 1%nat end) as Hk.
  { destruct (under k items) as [|a [|b l]]; simpl; [done| |lia]. case_bool_decide; [done|]. by case_bool_decide. }
  destruct (outcome_of expected (under k items) k); decide_constants; cbn [length]; destruct IH as (I1 & I2 & I3); split_and!; lia.
Qed.

Lemma placed_split expected excluded (observed : list (option string * string)) : let placed := place_observation expected excluded <$> observed in
  Z.of_nat (length observed) = count is_outside placed + count is_unlabelled placed + count is_unexpected placed +
    Z.of_nat (length (omap of_request placed)).
Proof.
  cbv zeta. induction observed as [|o observed IH]; [done|]. rewrite fmap_cons, !count_cons. cbn [omap list_omap length].
  destruct (place_observation _ _ o); simpl is_outside; simpl is_unlabelled; simpl is_unexpected; cbn [of_request length]; lia.
Qed.
Lemma placed_expected expected excluded (observed : list (option string * string)) (e : string * string) :
  e ∈ omap of_request (place_observation expected excluded <$> observed) → e.1 ∈ expected.
Proof.
  intros (p & (o & -> & _)%list_elem_of_fmap & H)%list_elem_of_omap. unfold place_observation in H.
  destruct (bool_decide (_ ∈ excluded)); [done|]. destruct (match o.1 with Some path => _ | None => None end) as [t|]; [|done].
  case_bool_decide as Ht; simplify_eq/=. done.
Qed.

(** What the score of a point accounts for. *)
Record accounted (rows : list json) (r : Score) : Prop := {
  an_attempted : sc_attempted r = Z.of_nat (length rows);
  (** every request has one outcome *)
  an_requests : sc_correct r + sc_wrong_known r + sc_unknown r + sc_missing r + sc_duplicates r = sc_attempted r;
  (** every selected observation is of a request, or counted apart *)
  an_selected : sc_unlabelled r + sc_unexpected r + sc_correct r + sc_wrong_known r + sc_unknown r + 2 * sc_duplicates r
    <= sc_selected r;
  an_valid : sc_valid r = true ↔ sc_unlabelled r = 0 ∧ sc_unexpected r = 0 ∧ sc_duplicates r = 0 ∧ sc_unparsed r = 0 ∧
    0 < sc_selected r;
  an_exact : sc_valid r = true →
    sc_selected r = sc_correct r + sc_wrong_known r + sc_unknown r ∧ sc_selected r = sc_attempted r - sc_missing r;
  an_rate : is_Some (sc_correct_per_attempt r) ↔ sc_valid r = true
}.
Lemma score_accounted rows expected observed failures excluded r :
  size expected = length rows → 0 <= failures →
  _score rows expected observed failures excluded = Ok r → accounted rows r.
Proof.
  intros Hsize Hf H. unfold _score in H. cbv zeta in H. apply bind_Ok in H as (protocols & _ & [= <-]).
  pose proof (placed_split expected excluded observed) as Hsplit. cbv zeta in Hsplit.
  set (placed := place_observation expected excluded <$> observed) in *.
  set (items := omap of_request placed) in *.
  assert ((λ request, outcome_of expected (at_key (group items) request) request) <$> elements expected =
          (λ request, outcome_of expected (under request items) request) <$> elements expected) as ->.
  { apply list_fmap_ext. intros i request _. by rewrite at_key_group. }
  pose proof (outcomes_counted expected items (elements expected)) as Hout. cbv zeta in Hout.
  set (outcomes := (λ request, outcome_of expected (under request items) request) <$> elements expected) in *.
  rewrite items_of_all in Hout; [|apply NoDup_elements|intros e He; apply elem_of_elements; by eapply placed_expected].
  change (length (elements expected)) with (size expected) in Hout. rewrite Hsize in Hout. destruct Hout as (H1 & H2 & H3).
  pose proof (count_nonneg is_unlabelled placed). pose proof (count_nonneg is_unexpected placed).
  pose proof (count_nonneg (λ x, bool_decide (x = DUPLICATE)) outcomes).
  split; cbn [sc_attempted sc_correct sc_wrong_known sc_unknown sc_missing sc_duplicates sc_unlabelled sc_unexpected
    sc_selected sc_valid sc_unparsed sc_correct_per_attempt]; [done|done|lia| | |].
  - rewrite !andb_true_iff, !Z.eqb_eq, Z.ltb_lt. tauto.
  - rewrite !andb_true_iff, !Z.eqb_eq, Z.ltb_lt. intros ((((? & ?) & ?) & ?) & ?). specialize (H3 ltac:(lia)). lia.
  - destruct (_ && _); [by split; [|eexists]|]. split; [by intros []|done].
Qed.

(** The ids of the ground truth are distinct, so there is one per row. *)
Lemma ground_truth_size rows expected : _check_ground_truth rows = Ok expected → size expected = length rows.
Proof.
  unfold _check_ground_truth. intros He. apply bind_Ok in He as (ids & _ & He). apply bind_Ok in He as (u' & Hc & He).
  apply check_Ok, andb_true_iff in Hc as [_ Hc]. apply bool_decide_eq_true in Hc.
  apply bind_Ok in He as (? & _ & He). apply bind_Ok in He as (? & _ & [= <-]). exact Hc.
Qed.
Lemma json_accounted rows lines s excluded r : evaluate_json rows lines s excluded = Ok r → accounted rows r.
Proof.
  unfold evaluate_json. intros H. apply bind_Ok in H as (u & _ & H). apply bind_Ok in H as (expected & He & H).
  apply bind_Ok in H as (observed & _ & H).
  exact (score_accounted _ _ _ _ _ _ (ground_truth_size _ _ He) (count_nonneg _ _) H).
Qed.

(** ** A small run *)

Definition ran (t : string) : json :=
  JObj [("trace_id", JStr t); ("schema_version", JInt 2); ("side", JStr "load-gen")]%string.
Definition ran_rows : list json := ran <$> (truth_id <$> ["00"; "01"; "02"]%string).
(** The right id, the id of another request, and one line that is not JSON or nothing. *)
Definition ran_lines : list (option (list json)) :=
  [Some [span_of SERVER (truth_id "00") (truth_id "00") [] 9000; span_of SERVER (truth_id "02") (truth_id "01") [] 9000]].
Definition ran_point : Selection := mkSelection SERVER (Some 9000) [].
Example ran_scores :
  ((λ r, (sc_valid r, sc_correct r, sc_wrong_known r, sc_missing r)) <$> evaluate_json ran_rows ran_lines ran_point ∅,
   (λ r, (sc_valid r, sc_unparsed r)) <$> evaluate_json ran_rows (None :: ran_lines) ran_point ∅,
   evaluate_json (ran_rows ++ ran_rows) ran_lines ran_point ∅) =
  (Ok (true, 1, 1, 1), Ok (false, 1), Raise (ValueError "ground truth must contain nonempty, unique request identities")).
Proof. vm_compute. reflexivity. Qed.
