(* ===== verification/Regex.v ===== *)
(** * Regex: regular expressions as Python's [re] runs them

    The scripts read the lines of an agent with regular expressions.  An expression is a
    tree; [run] is the backtracking matcher, which tries alternatives and repetitions in the
    order of [re] and returns the first way to go on, with the texts of the named groups.
    [spans] says what a match is; [run_sound] and [run_complete] relate the two.

    A text is a sequence of bytes (UTF-8): the classes below are those of [re] on ASCII, and
    every other byte is taken for a letter that is neither a digit, a word character nor a
    space.  A repetition whose body matched nothing ends, as no expression of the scripts
    repeats an expression that can match the empty text. *)

From S2P Require Import Prelude DecimalText.

(** ** Expressions *)

Inductive regex :=
| Chr (p : ascii → bool)                  (* one character of a class *)
| Eps
| Seq (a b : regex)
| Alt (a b : regex)                       (* a|b *)
| Star (greedy : bool) (a : regex)        (* a* and a*? *)
| Group (name : string) (a : regex).      (* (?P<name>a) *)

(** The texts of the named groups. *)
Notation Groups := (gmap string string) (only parsing).

Definition seqs : list regex → regex := foldr Seq Eps.
(** A text that stands for itself. *)
Fixpoint lit (s : string) : regex :=
  match s with "" => Eps | String x s => Seq (Chr (Ascii.eqb x)) (lit s) end%string.
Definition plus (a : regex) : regex := Seq a (Star true a).
Definition times (n : nat) (a : regex) : regex := seqs (repeat a n).
Definition alts (l : list string) : regex :=
  match l with [] => Eps | x :: l => foldl (λ a y, Alt a (lit y)) (lit x) l end.

(** ** Classes *)

Definition between (a b : N) (c : ascii) : bool := let n := N_of_ascii c in (a <=? n)%N && (n <=? b)%N.
(** [\s], [\S], [\d], [\w], [.] *)
Definition space (c : ascii) : bool := between 9 13 c || between 28 32 c.
Definition non_space (c : ascii) : bool := negb (space c).
Definition decimal_digit : ascii → bool := between 48 57.
Definition word (c : ascii) : bool :=
  decimal_digit c || between 65 90 c || between 97 122 c || Ascii.eqb c "_".
Definition dot (c : ascii) : bool := negb (Ascii.eqb c "010").
(** [[0-9a-f]] *)
Definition hex (c : ascii) : bool := decimal_digit c || between 97 102 c.

(** ** Matching *)

(** What was read when [rest] is left of [s]. *)
Definition consumed (s rest : string) : string := substring 0 (String.length s - String.length rest) s.

(** A matcher takes what goes on after it. *)
Notation Matcher A := (string → Groups → (string → Groups → option A) → option A) (only parsing).
(** Up to [n] repetitions of a body, as many or as few as possible. *)
Fixpoint again {A} (greedy : bool) (body : Matcher A) (n : nat) (s : string) (c : Groups)
    (k : string → Groups → option A) : option A :=
  match n with
  | O => k s c
  | S n =>
      let more := λ _ : unit,
        body s c (λ rest c, if (String.length rest <? String.length s)%nat then again greedy body n rest c k else None) in
      if greedy then match more tt with Some x => Some x | None => k s c end
      else match k s c with Some x => Some x | None => more tt end
  end.
(** [run r s c k]: the first way to match [r] at the head of [s] after which [k] goes on. *)
Fixpoint run {A} (r : regex) (s : string) (c : Groups) (k : string → Groups → option A) {struct r} : option A :=
  match r with
  | Chr p => match s with String x s => if p x then k s c else None | "" => None end%string
  | Eps => k s c
  | Seq a b => run a s c (λ s c, run b s c k)
  | Alt a b => match run a s c k with Some x => Some x | None => run b s c k end
  | Star greedy a => again greedy (run a) (String.length s) s c k
  | Group name a => run a s c (λ rest c, k rest (<[name := consumed s rest]> c))
  end.
(** [r.match(s)]: the groups, and what is left of the text. *)
Definition re_match (r : regex) (s : string) : option (Groups * string) := run r s ∅ (λ rest c, Some (c, rest)).
Definition matched (r : regex) (s : string) : bool := bool_decide (is_Some (re_match r s)).
(** [r.search(s)]: the first position that matches. *)
Fixpoint re_search (r : regex) (s : string) : option (Groups * string) :=
  match re_match r s with
  | Some m => Some m
  | None => match s with String _ s => re_search r s | "" => None end%string
  end.
(** [r.findall(s)], for an expression that matches no empty text. *)
Fixpoint find_from (fuel : nat) (r : regex) (s : string) : list Groups :=
  match fuel with
  | O => []
  | S fuel => match re_search r s with Some (c, rest) => c :: find_from fuel r rest | None => [] end
  end.
Definition re_findall (r : regex) (s : string) : list Groups := find_from (S (String.length s)) r s.
(** [m[name]] *)
Definition group_text (name : string) (m : Groups) : string := default ""%string (m !! name).
(** [sub in s] *)
Fixpoint contains (sub s : string) : bool :=
  bool_decide (is_Some (strip_prefix sub s)) || match s with String _ s => contains sub s | "" => false end%string.

Example run_ex :
  let r := seqs [Group "a" (Star true (Chr decimal_digit)); lit ":"; Star false (Chr dot); lit ":"; Group "b" (alts ["x"; "xy"])] in
  ((λ m : Groups * string, (group_text "a" m.1, group_text "b" m.1, m.2)) <$> re_match r "12:z::q:xyq",
   matched r "12:z", group_text "a" <$> re_findall (Group "a" (plus (Chr decimal_digit))) "a12b3",
   contains "b3" "a12b3", contains "b4" "a12b3") =
  (Some ("12", "x", "yq"), false, ["12"; "3"], true, false)%string.
Proof. vm_compute. reflexivity. Qed.

(** ** What a match is *)

Inductive spans : regex → string → Groups → string → Groups → Prop :=
| spans_Chr p x s c : p x = true → spans (Chr p) (String x s) c s c
| spans_Eps s c : spans Eps s c s c
| spans_Seq a b s c s1 c1 s2 c2 : spans a s c s1 c1 → spans b s1 c1 s2 c2 → spans (Seq a b) s c s2 c2
| spans_Alt_l a b s c s' c' : spans a s c s' c' → spans (Alt a b) s c s' c'
| spans_Alt_r a b s c s' c' : spans b s c s' c' → spans (Alt a b) s c s' c'
| spans_end g a s c : spans (Star g a) s c s c
| spans_again g a s c s1 c1 s2 c2 : spans a s c s1 c1 → (String.length s1 < String.length s)%nat →
    spans (Star g a) s1 c1 s2 c2 → spans (Star g a) s c s2 c2
| spans_Group name a s c s' c' : spans a s c s' c' → spans (Group name a) s c s' (<[name := consumed s s']> c').

(** A match that [run] finds is one, and [run] finds one whenever there is one. *)
Lemma again_sound {A} g a (k : string → gmap string string → option A) n :
  (∀ s c (k : string → gmap string string → option A) x, run a s c k = Some x → ∃ s' c', spans a s c s' c' ∧ k s' c' = Some x) →
  ∀ s c x, again g (run a) n s c k = Some x → ∃ s' c', spans (Star g a) s c s' c' ∧ k s' c' = Some x.
Proof.
  intros Ha. induction n as [|n IH]; intros s c x H; cbn [again] in H; [eauto using spans|]. cbv zeta in H.
  set (more := run a s c _) in H.
  assert (∀ y, more = Some y → ∃ s' c', spans (Star g a) s c s' c' ∧ k s' c' = Some y) as Hmore.
  { intros y Hy. apply Ha in Hy as (s1 & c1 & H1 & Hy). destruct (Nat.ltb_spec (String.length s1) (String.length s)); [|done].
    apply IH in Hy as (s2 & c2 & H2 & Hy). eauto using spans. }
  destruct g, (k s c) as [y|] eqn:Ek, more as [z|] eqn:Em; simplify_eq; eauto using spans.
Qed.
Lemma run_sound {A} r : ∀ s c (k : string → gmap string string → option A) x,
  run r s c k = Some x → ∃ s' c', spans r s c s' c' ∧ k s' c' = Some x.
Proof.
  revert A. induction r as [p| |a IHa b IHb|a IHa b IHb|g a IHa|name a IHa]; intros A s c k x H; simpl in H.
  - destruct s as [|y s]; [done|]. destruct (p y) eqn:E; [|done]. eauto using spans.
  - eauto using spans.
  - apply IHa in H as (s1 & c1 & H1 & H). apply IHb in H as (s2 & c2 & H2 & H). eauto using spans.
  - destruct (run a s c k) as [y|] eqn:E; simplify_eq.
    + apply IHa in E as (s1 & c1 & H1 & E). eauto using spans.
    + apply IHb in H as (s1 & c1 & H1 & H). eauto using spans.
  - eapply again_sound; [|done]. intros. by apply IHa.
  - apply IHa in H as (s1 & c1 & H1 & H). eauto using spans.
Qed.
Lemma again_complete {A} g a (k : string → gmap string string → option A) s' c' n :
  (∀ s c (k : string → gmap string string → option A) s' c', spans a s c s' c' → is_Some (k s' c') → is_Some (run a s c k)) → is_Some (k s' c') →
  ∀ s c, (String.length s <= n)%nat → spans (Star g a) s c s' c' → is_Some (again g (run a) n s c k).
Proof.
  intros Ha Hk. induction n as [|n IH]; intros s c Hn H; cbn [again].
  - inversion H; simplify_eq; [done|lia].
  - cbv zeta. set (more := run a s c _).
    assert (is_Some (k s c) ∨ is_Some more) as Hor.
    { inversion H as [| | | | | |g' a' s0 c0 s1 c1 s2 c2 H1 Hlt H2|]; simplify_eq; [by left|right].
      eapply Ha; [done|]. cbn beta. rewrite (proj2 (Nat.ltb_lt _ _)) by done. apply IH; [lia|done]. }
    destruct g, (k s c), more; destruct Hor as [[??]|[??]]; simplify_eq; eauto.
Qed.
Lemma run_complete {A} r : ∀ s c (k : string → gmap string string → option A) s' c',
  spans r s c s' c' → is_Some (k s' c') → is_Some (run r s c k).
Proof.
  revert A. induction r as [p| |a IHa b IHb|a IHa b IHb|g a IHa|name a IHa]; intros A s c k s' c' H Hk; simpl.
  - inversion H; simplify_eq. by case_match.
  - by inversion H; simplify_eq.
  - inversion H; simplify_eq. by eapply IHa, IHb.
  - inversion H; simplify_eq; destruct (run a s c k) eqn:E; eauto.
    destruct (IHa A s c k s' c') as [? ?]; [done|done|congruence].
  - eapply again_complete; [intros; by eapply IHa|done|done|done].
  - inversion H; simplify_eq. by eapply IHa.
Qed.
Lemma matched_iff r s : matched r s = true ↔ ∃ s' c', spans r s ∅ s' c'.
Proof.
  unfold matched, re_match. rewrite bool_decide_eq_true. split.
  - intros [x (s' & c' & H & _)%run_sound]. eauto.
  - intros (s' & c' & H). by eapply run_complete.
Qed.

(** ** Reading a match *)

Lemma spans_app r s c s' c' : spans r s c s' c' → ∃ w, s = w +:+ s'.
Proof.
  induction 1 as [p x s c|s c|a b s c s1 c1 s2 c2 _ [w1 ->] _ [w2 ->]|a b s c s' c' _ IH|a b s c s' c' _ IH|g a s c
                 |g a s c s1 c1 s2 c2 _ [w1 ->] _ _ [w2 ->]|n a s c s' c' _ IH]; try done.
  - by exists (String x "").
  - by exists "".
  - exists (w1 +:+ w2). by rewrite str_app_assoc.
  - by exists "".
  - exists (w1 +:+ w2). by rewrite str_app_assoc.
Qed.
Lemma substring_app a b : substring 0 (String.length a) (a +:+ b) = a.
Proof. induction a as [|x a IH]; [by destruct b|]. rewrite str_app_cons. simpl. by rewrite IH. Qed.
Lemma consumed_app w s : consumed (w +:+ s) s = w.
Proof.
  unfold consumed. rewrite str_length_app. replace (_ + _ - _)%nat with (String.length w) by lia. apply substring_app.
Qed.
Lemma spans_group n a s c s' c' : spans (Group n a) s c s' c' →
  ∃ w c1, s = w +:+ s' ∧ spans a s c s' c1 ∧ c' = <[n := w]> c1.
Proof.
  intros H. inversion H as [| | | | | | |n' a' s0 c0 s1 c1 H1]; subst. destruct (spans_app _ _ _ _ _ H1) as [w ->].
  exists w, c1. by rewrite consumed_app.
Qed.
Lemma spans_seq a b s c s' c' : spans (Seq a b) s c s' c' → ∃ s1 c1, spans a s c s1 c1 ∧ spans b s1 c1 s' c'.
Proof. inversion 1; subst; eauto. Qed.
Lemma spans_lit l s c s' c' : spans (lit l) s c s' c' → s = l +:+ s' ∧ c' = c.
Proof.
  revert s c. induction l as [|x l IH]; intros s c H; simpl in H; [by inversion H|].
  apply spans_seq in H as (s1 & c1 & H1 & [-> ->]%IH). inversion H1 as [p y s0 c0 Hp| | | | | | |]; subst.
  by apply Ascii.eqb_eq in Hp as ->.
Qed.
Lemma spans_star_chr g p s c s' c' : spans (Star g (Chr p)) s c s' c' → ∃ w, s = w +:+ s' ∧ all_chars p w = true ∧ c' = c.
Proof.
  intros H. remember (Star g (Chr p)) as r eqn:E. revert E.
  induction H as [| | | | |g' a s c|g' a s c s1 c1 s2 c2 H1 _ Hlt H2 IH|]; intros [= -> ->]; [by exists ""|].
  inversion H1 as [p' x s0 c0 Hp| | | | | | |]; subst. destruct (IH eq_refl) as (w & -> & Hw & ->).
  exists (String x w). simpl. by rewrite Hp.
Qed.
Lemma spans_plus_chr p s c s' c' : spans (plus (Chr p)) s c s' c' →
  ∃ w, s = w +:+ s' ∧ all_chars p w = true ∧ w ≠ ""%string ∧ c' = c.
Proof.
  intros (s1 & c1 & H1 & (w & -> & Hw & ->)%spans_star_chr)%spans_seq.
  inversion H1 as [p' x s0 c0 Hp| | | | | | |]; subst. exists (String x w). simpl. by rewrite Hp.
Qed.
Lemma spans_times_chr n p s c s' c' : spans (times n (Chr p)) s c s' c' →
  ∃ w, s = w +:+ s' ∧ all_chars p w = true ∧ String.length w = n ∧ c' = c.
Proof.
  revert s c. induction n as [|n IH]; intros s c H; [inversion H; subst; by exists ""|].
  apply spans_seq in H as (s1 & c1 & H1 & (w & -> & Hw & <- & ->)%IH). inversion H1 as [p' x s0 c0 Hp| | | | | | |]; subst.
  exists (String x w). simpl. by rewrite Hp.
Qed.

(** A match writes only the groups that its expression names. *)
Fixpoint names (r : regex) : list string :=
  match r with
  | Chr _ | Eps => []
  | Seq a b | Alt a b => names a ++ names b
  | Star _ a => names a
  | Group n a => n :: names a
  end.
Lemma spans_keeps r s c s' c' n : spans r s c s' c' → n ∉ names r → c' !! n = c !! n.
Proof.
  induction 1 as [| |a b s c s1 c1 s2 c2 _ IH1 _ IH2|a b s c s' c' _ IH|a b s c s' c' _ IH|
                 |g a s c s1 c1 s2 c2 _ IH1 _ _ IH2|n' a s c s' c' _ IH]; simpl; try done.
  - rewrite elem_of_app. intros Hn. rewrite IH2 by tauto. apply IH1. tauto.
  - rewrite elem_of_app. intros Hn. apply IH. tauto.
  - rewrite elem_of_app. intros Hn. apply IH. tauto.
  - intros Hn. by rewrite IH2, IH1.
  - rewrite elem_of_cons. intros Hn. rewrite lookup_insert_ne by naive_solver. apply IH. tauto.
Qed.
Lemma spans_group_text n a s c s' c' : spans (Group n a) s c s' c' → ∃ w, s = w +:+ s' ∧ c' !! n = Some w.
Proof. intros (w & c1 & -> & _ & ->)%spans_group. exists w. by rewrite lookup_insert_eq. Qed.

Lemma contains_app a sub b : contains sub (a +:+ sub +:+ b) = true.
Proof.
  induction a as [|x a IH].
  - rewrite str_app_nil. destruct (sub +:+ b) eqn:E; cbn [contains]; rewrite <- E, strip_prefix_app; done.
  - rewrite str_app_cons. cbn [contains]. by rewrite IH, orb_true_r.
Qed.
Lemma contains_split sub s : contains sub s = true ↔ ∃ a b, s = a +:+ sub +:+ b.
Proof.
  split; [|intros (a & b & ->); apply contains_app].
  assert (∀ p t r, strip_prefix p t = Some r → t = p +:+ r) as Hp.
  { clear. induction p as [|x p IH]; intros t r H; simpl in H; [by simplify_eq|]. destruct t as [|y t]; [done|].
    destruct (Ascii.eqb_spec x y) as [-> |]; [|done]. apply IH in H as ->. by rewrite str_app_cons. }
  induction s as [|x s IH]; simpl; intros [H|H]%orb_true_iff; try done.
  - apply bool_decide_eq_true in H as [r H]. exists "", r. by apply Hp in H.
  - apply bool_decide_eq_true in H as [r H]. exists "", r. by apply Hp in H.
  - destruct (IH H) as (a & b & ->). exists (String x a), b. by rewrite str_app_cons.
Qed.

Lemma str_app_cancel a b s : a +:+ s = b +:+ s → a = b.
Proof. intros H. by rewrite <- (consumed_app a s), H, consumed_app. Qed.
(** The text of a group in a sequence, and what follows it. *)
Lemma spans_field before n a after s c s' c' :
  spans (seqs (before ++ Group n a :: after)) s c s' c' → n ∉ names (seqs after) →
  ∃ b w t c1 c2, s = b +:+ w +:+ t ∧ spans a (w +:+ t) c1 t c2 ∧ c' !! n = Some w ∧
    spans (seqs after) t (<[n := w]> c2) s' c'.
Proof.
  intros H Hn. revert s c H. induction before as [|x before IH]; intros s c H.
  - apply spans_seq in H as (s1 & c1 & (w & c2 & -> & Ha & ->)%spans_group & H).
    exists "", w, s1, c, c2. split_and!; [done|done| |done]. by rewrite (spans_keeps _ _ _ _ _ _ H Hn), lookup_insert_eq.
  - apply spans_seq in H as (s1 & c1 & Hx & H). destruct (IH _ _ H) as (b & w & t & c2 & c3 & -> & Ha & Hm & Hr).
    destruct (spans_app _ _ _ _ _ Hx) as [v ->]. exists (v +:+ b), w, t, c2, c3. by rewrite str_app_assoc.
Qed.
(** A group of one or more, or of [k], characters of a class. *)
Lemma spans_plus_field before n p after s c s' c' :
  spans (seqs (before ++ Group n (plus (Chr p)) :: after)) s c s' c' → n ∉ names (seqs after) →
  ∃ b w t c1, s = b +:+ w +:+ t ∧ c' !! n = Some w ∧ all_chars p w = true ∧ w ≠ ""%string ∧ spans (seqs after) t c1 s' c'.
Proof.
  intros H Hn. destruct (spans_field _ _ _ _ _ _ _ _ H Hn) as (b & w & t & c1 & c2 & E & Ha & Hm & Hr).
  apply spans_plus_chr in Ha as (w' & ->%str_app_cancel & Hw & Hne & _). eauto 10.
Qed.
Lemma spans_times_field before n k p after s c s' c' :
  spans (seqs (before ++ Group n (times k (Chr p)) :: after)) s c s' c' → n ∉ names (seqs after) →
  ∃ w, c' !! n = Some w ∧ all_chars p w = true ∧ String.length w = k.
Proof.
  intros H Hn. destruct (spans_field _ _ _ _ _ _ _ _ H Hn) as (b & w & t & c1 & c2 & E & Ha & Hm & Hr).
  apply spans_times_chr in Ha as (w' & ->%str_app_cancel & Hw & Hne & _). eauto 10.
Qed.

(** Whether an expression matches does not depend on the groups read before. *)
Lemma spans_groups r s c s' c' d : spans r s c s' c' → ∃ d', spans r s d s' d'.
Proof.
  intros H. revert d. induction H as [| |a b s c s1 c1 s2 c2 _ IH1 _ IH2|a b s c s' c' _ IH|a b s c s' c' _ IH|
    |g a s c s1 c1 s2 c2 _ IH1 ? _ IH2|n a s c s' c' _ IH]; intros d; eauto using spans.
  - destruct (IH1 d) as [d1 H1]. destruct (IH2 d1) as [d2 H2]. eauto using spans.
  - destruct (IH d) as [d1 H1]. eauto using spans.
  - destruct (IH d) as [d1 H1]. eauto using spans.
  - destruct (IH1 d) as [d1 H1]. destruct (IH2 d1) as [d2 H2]. eauto using spans.
  - destruct (IH d) as [d1 H1]. eauto using spans.
Qed.
Lemma star_chr_spans g p w s c : all_chars p w = true → spans (Star g (Chr p)) (w +:+ s) c s c.
Proof.
  induction w as [|x w IH]; simpl; intros H; [rewrite str_app_nil; by constructor|]. apply andb_true_iff in H as [Hx Hw].
  rewrite str_app_cons. eapply spans_again; [by constructor|simpl; lia|by apply IH].
Qed.
(** A part of a sequence may be replaced by one that matches more. *)
Lemma seqs_weaken before a b after s c s' c' :
  (∀ s s' c c', spans a s c s' c' → ∃ d, spans b s c s' d) →
  spans (seqs (before ++ a :: after)) s c s' c' → ∃ d, spans (seqs (before ++ b :: after)) s c s' d.
Proof.
  intros Hab. revert s c. induction before as [|x before IH]; intros s c (s1 & c1 & H1 & H2)%spans_seq.
  - apply Hab in H1 as [d1 H1]. destruct (spans_groups _ _ _ _ _ d1 H2) as [d2 H3]. exists d2. cbn. eauto using spans.
  - destruct (IH _ _ H2) as [d H3]. exists d. cbn. eauto using spans.
Qed.
