(* ===== verification/ObiLog.v ===== *)
(** * ObiLog: the agent's text printer

    [m0-harness/analyze_obi_log.py] counts, per service and event, the lines of the agent's
    text printer and those whose trace id no request had.  [m0-harness/analyze_multihop.py]
    ([Multihop]) has the same body with another expression and another key, so the counting
    is defined here for any expression and key.  The scripts read the lines with regular
    expressions ([Regex]).  Opening the files, cutting the window of lines and printing the
    counts are not modelled. *)

From S2P Require Import Prelude DecimalText Json Harness ExactPath Regex.

(** ** The expressions *)

(** [.*?] *)
Definition anything : regex := Star false (Chr dot).
(** The line of an event: the three scripts differ in how they read its times and its
    destination. *)
Definition obi_line (times destination : regex) : regex :=
  seqs [plus (Chr non_space); lit " "; plus (Chr non_space); lit " ("; times; lit ") ";
        Group "event" (plus (Chr word)); lit "(subType="; plus (Chr decimal_digit); lit ") ";
        Group "status" (plus (Chr decimal_digit)); lit " "; plus (Chr non_space); lit " "; plus (Chr non_space);
        lit "("; Star true (Chr non_space); lit ") ["; anything; lit "]->["; destination; lit "] "; anything;
        lit "svc=["; Group "svc" (plus (Chr non_space)); lit " "; plus (Chr non_space); lit "] traceparent=[";
        Regex.times 2 (Chr decimal_digit); lit "-"; Group "tid" (Regex.times 32 (Chr hex)); lit "-"]%string.

(** ** Counting self-authored lines *)

(** Load-gen's trace ids; the blank lines of the file are left out. *)
Definition load_ground_truth (rows : list json) : res (gset string) := ids ← trace_ids rows; Ok (list_to_set ids).
(** The mark of the two HTTP events in a line. *)
Definition http_mark (line : string) : bool := contains "HTTP(subType=" line || contains "HTTPClient(subType=" line.
Definition http_event (event : string) : bool := bool_decide (event ∈ ["HTTP"; "HTTPClient"]%string).

Section counting.
Context {K : Type} `{EqDecision K}.
(** The expression of a script, and the key under which it counts a line. *)
Variable line_re : regex.
Variable key_of : gmap string string → K.

Definition count_line (ground_truth : gset string) (counts : odict K (Z * Z)) (line : string) : odict K (Z * Z) :=
  match re_match line_re line with
  | None => counts
  | Some (m, _) =>
      if http_event (group_text "event" m) then
        let '(total, bad) := default (0, 0) (od_get (key_of m) counts) in
        od_set (key_of m) (total + 1, if bool_decide (group_text "tid" m ∈ ground_truth) then bad else bad + 1) counts
      else counts
  end.
Definition counts_of (lines : list string) (ground_truth : gset string) : odict K (Z * Z) :=
  foldl (count_line ground_truth) [] lines.
End counting.
(** HTTP lines that the expression cannot read. *)
Definition unparsed_of (line_re : regex) (lines : list string) : Z :=
  count (λ line, http_mark line && negb (matched line_re line)) lines.

(** analyze_obi_log.py *)
Definition OBI_LINE : regex := obi_line anything anything.
Definition key_of (m : gmap string string) : string * string := (group_text "svc" m, group_text "event" m).
Definition analyze : list string → gset string → odict (string * string) (Z * Z) := counts_of OBI_LINE key_of.
Definition count_unparsed : list string → Z := unparsed_of OBI_LINE.

(** The printer's own line (from the agent's tests), and three it prints that are not read. *)
Definition ex_tid : string := "01020300000000000000000000000000".
Definition ex_line (event path peer tid : string) : string :=
  "2026-09-29 10:00:00.12345 (25ms[20ms]) " +:+ event +:+ "(subType=0) 200 GET " +:+ path +:+ " [peer as peername.otherns:1234]->[" +:+
  peer +:+ "] contentLen:1024B responseLen:2048B svc=[foo/bar go] traceparent=[00-" +:+ tid +:+ "-0102030000000000[0102040000000000]-01]".
Definition ex_read : string := ex_line "HTTP" "path(route)" "host as hostname.foo:5678" ex_tid.
Definition ex_other : string := ex_line "HTTPClient" "path(route)" "traefik:9081" "ffffffffffffffffffffffffffffffff".
Definition ex_lines : list string :=
  [ex_read; ex_other; ex_line "GRPC" "path(route)" "traefik:9081" ex_tid; ex_line "HTTP" "path" "traefik:9081" ex_tid;
   ex_line "HTTP" "path(route)" "traefik" ex_tid; "unrelated log line"]%string.
Example obi_ex :
  (analyze ex_lines {[ex_tid]}, count_unparsed ex_lines) =
  ([("foo/bar", "HTTP", (2, 0)); ("foo/bar", "HTTPClient", (1, 1))], 1)%string.
Proof. vm_compute. reflexivity. Qed.

(** ** Lemmas: what a line that is read says *)

(** The fields of a line that is read: its event, a service and an id, and where the event
    is marked. *)
Record line_fields (line : string) (m : gmap string string) : Prop := {
  lf_event : ∃ before event after, line = before +:+ event +:+ "(subType=" +:+ after ∧ m !! "event"%string = Some event ∧
    all_chars word event = true ∧ event ≠ ""%string;
  lf_svc : ∃ svc, m !! "svc"%string = Some svc ∧ all_chars non_space svc = true ∧ svc ≠ ""%string;
  lf_tid : ∃ tid, m !! "tid"%string = Some tid ∧ all_chars hex tid = true ∧ String.length tid = 32%nat
}.
Lemma obi_line_read times destination line m rest :
  names destination = [] ∨ names destination = ["dest"%string] →
  spans (obi_line times destination) line ∅ rest m → line_fields line m.
Proof.
  intros Hd H. unfold obi_line in H. match type of H with spans (seqs ?l) _ _ _ _ => set (parts := l) in H end.
  assert (∀ k n, (k, n) ∈ [(7, "event"); (25, "svc"); (31, "tid")]%nat%string → n ∉ names (seqs (drop k parts))) as Hn.
  { intros k n Hk. rewrite !elem_of_cons, elem_of_nil in Hk.
    destruct Hk as [[= -> ->]|[[= -> ->]|[[= -> ->]|[]]]]; cbn -[lit Regex.times]; destruct Hd as [E|E]; rewrite ?E;
      refine (bool_decide_unpack _ _); vm_compute; done. }
  split.
  - apply (spans_plus_field (take 6 parts) "event" _ (drop 7 parts)) in H as (before & w & after & c1 & E & Hm & Hw & Hne & H);
      [|by apply Hn; left].
    apply spans_seq in H as (s1 & c2 & [E2 _]%spans_lit & _). exists before, w, s1. by rewrite E, E2.
  - apply (spans_plus_field (take 24 parts) "svc" _ (drop 25 parts)) in H as (before & w & after & c1 & E & Hm & Hw & Hne & H);
      [by exists w|by apply Hn; right; left].
  - by apply (spans_times_field (take 30 parts) "tid" _ _ (drop 31 parts)) in H; [|apply Hn; right; right; left].
Qed.

(** ** Lemmas: the counts *)

Section counted.
Context {K : Type} `{EqDecision K}.
Variable line_re : regex.
Variable key_of : gmap string string → K.
(** Every line that the expression reads has the fields of an event. *)
Hypothesis reads : ∀ line m rest, spans line_re line ∅ rest m → line_fields line m.

(** The groups of a line that is read, and the event among them. *)
Definition groups_of (line : string) : option (gmap string string) := fst <$> re_match line_re line.
Definition event_of (line : string) : option string := m ← groups_of line; m !! "event"%string.
(** The line is read, as one of the two HTTP events: these are the lines that count. *)
Definition read_as_http (line : string) : bool :=
  bool_decide (event_of line = Some "HTTP"%string) || bool_decide (event_of line = Some "HTTPClient"%string).
(** The line is read, as another event. *)
Definition read_as_other (line : string) : bool :=
  match event_of line with Some e => negb (bool_decide (e = "HTTP" ∨ e = "HTTPClient")%string) | None => false end.
(** The key and the id of a line that counts. *)
Definition line_key (line : string) : option (K * string) :=
  if read_as_http line then m ← groups_of line; tid ← m !! "tid"%string; Some (key_of m, tid) else None.
Definition counts_as (k : K) (line : string) : bool := bool_decide (fst <$> line_key line = Some k).
Definition authored (ground_truth : gset string) (line : string) : bool :=
  match line_key line with Some (_, tid) => bool_decide (tid ∉ ground_truth) | None => false end.
Definition counted (line : string) : bool := bool_decide (is_Some (line_key line)).

(** What the code tests of the event is what the line was read as. *)
Lemma http_event_group m : http_event (group_text "event" m) =
  bool_decide (m !! "event"%string = Some "HTTP"%string) || bool_decide (m !! "event"%string = Some "HTTPClient"%string).
Proof.
  unfold http_event, group_text. destruct (m !! "event"%string) as [e|]; [|done]. cbn [default from_option id].
  apply Bool.eq_true_iff_eq. rewrite orb_true_iff, !bool_decide_eq_true, elem_of_cons, list_elem_of_singleton. naive_solver.
Qed.
Lemma count_line_key ground counts line : count_line line_re key_of ground counts line =
  match line_key line with
  | Some (k, tid) =>
      let '(total, bad) := default (0, 0) (od_get k counts) in
      od_set k (total + 1, if bool_decide (tid ∈ ground) then bad else bad + 1) counts
  | None => counts
  end.
Proof.
  unfold count_line, line_key, read_as_http, event_of, groups_of.
  destruct (re_match line_re line) as [[m rest]|] eqn:E; [|done]. cbn [fmap option_fmap option_map mbind option_bind fst].
  rewrite http_event_group. destruct (bool_decide (m !! _ = _) || _); [|done].
  unfold re_match in E. apply run_sound in E as (s' & c' & Hs & [= -> ->]).
  apply reads in Hs as [_ _ (tid & Ht & _)]. unfold group_text. by rewrite Ht.
Qed.
Lemma counts_once lines ground : NoDup (counts_of line_re key_of lines ground).*1.
Proof.
  unfold counts_of. apply foldl_inv; [by apply NoDup_nil|]. intros counts line _ Hn. rewrite count_line_key.
  destruct (line_key line) as [[k tid]|]; [|done]. destruct (default _ _). by apply od_set_NoDup.
Qed.
(** The counts of a key are those of its lines. *)
Lemma counts_get lines ground k :
  default (0, 0) (od_get k (counts_of line_re key_of lines ground)) =
    (count (counts_as k) lines, count (λ l, counts_as k l && authored ground l) lines) ∧
  (od_get k (counts_of line_re key_of lines ground) = None → count (counts_as k) lines = 0) ∧
  (k ∈ (counts_of line_re key_of lines ground).*1 → 0 < count (counts_as k) lines).
Proof.
  unfold counts_of. induction lines as [|line lines IH] using rev_ind.
  { split_and!; [done|done|by intros ?%not_elem_of_nil]. }
  rewrite foldl_app. cbn [foldl]. set (counts := foldl _ [] lines) in *. rewrite !count_snoc, count_line_key.
  assert (counts_as k line = match line_key line with Some (k', _) => bool_decide (k' = k) | None => false end) as Ek.
  { unfold counts_as. destruct (line_key line) as [[k' tid]|]; simpl; [apply bool_decide_ext; naive_solver|done]. }
  assert (authored ground line = match line_key line with Some (_, tid) => bool_decide (tid ∉ ground) | None => false end) as Ea by done.
  rewrite Ek, Ea. clear Ek Ea. destruct (line_key line) as [[k' tid]|]; [|by rewrite !Z.add_0_r].
  pose proof (count_nonneg (counts_as k) lines). destruct IH as (I1 & I2 & I3).
  destruct (default (0, 0) (od_get k' counts)) as [total bad] eqn:E. rewrite od_get_set.
  destruct (decide (k' = k)) as [-> |Hne].
  - rewrite E in I1. injection I1 as -> ->. rewrite (bool_decide_eq_true_2 (k = k)) by done. simpl andb. rewrite bool_decide_not.
    split_and!; [destruct (bool_decide (tid ∈ ground)); simpl; f_equal; lia|done|lia].
  - rewrite (bool_decide_eq_false_2 (k' = k)) by done. simpl. rewrite !Z.add_0_r, od_set_keys.
    split_and!; [done|done|]. intros [->|?]; [done|auto].
Qed.

(** A line that counts carries the mark of its event, and an id of 32 hexadecimal digits. *)
Lemma line_key_marked line k tid : line_key line = Some (k, tid) →
  http_mark line = true ∧ matched line_re line = true ∧ all_chars hex tid = true ∧ String.length tid = 32%nat.
Proof.
  unfold line_key, read_as_http, event_of, groups_of. intros H.
  destruct (re_match line_re line) as [[m rest]|] eqn:E; [|done]. cbn [fmap option_fmap option_map mbind option_bind fst] in H.
  assert (matched line_re line = true) as Hm by (unfold matched; rewrite E; apply bool_decide_eq_true_2; eauto).
  unfold re_match in E. apply run_sound in E as (s' & c' & Hs & [= -> ->]).
  apply reads in Hs as [(before & event & after & -> & He & _ & _) _ (tid' & Ht & Hhex & Hlen)].
  rewrite He, Ht in H. simpl in H. destruct (_ || _) eqn:Eh in H; [|done]. injection H as <- <-.
  split_and!; try done. apply orb_true_iff in Eh. rewrite !bool_decide_eq_true in Eh. unfold http_mark.
  destruct Eh as [[= ->]|[= ->]]; apply orb_true_iff; [left|right];
    match goal with |- contains ?sub (?a +:+ ?e +:+ ?b +:+ ?c) = true => change sub with (e +:+ b); rewrite <- (str_app_assoc e) end;
    apply contains_app.
Qed.

(** What the counts of a script say of its lines. *)
Record line_counts (lines : list string) (ground_truth : gset string) (counts : list (K * (Z * Z))) : Prop := {
  lc_once : NoDup counts.*1;
  (** a key counts its lines, and those whose id no request had *)
  lc_count k total bad : (k, (total, bad)) ∈ counts →
    total = count (counts_as k) lines ∧ bad = count (λ l, counts_as k l && authored ground_truth l) lines ∧
    0 < total ∧ 0 <= bad <= total;
  (** a line that counts is counted, under an id of 32 hexadecimal digits *)
  lc_seen line k tid : line ∈ lines → line_key line = Some (k, tid) →
    k ∈ counts.*1 ∧ all_chars hex tid = true ∧ String.length tid = 32%nat;
  (** the lines that count are those read as one of the two HTTP events, and are as many as
      the counts say *)
  lc_counted line : is_Some (line_key line) ↔ event_of line = Some "HTTP"%string ∨ event_of line = Some "HTTPClient"%string;
  lc_total : zsum ((λ e : K * (Z * Z), e.2.1) <$> counts) = count read_as_http lines;
  (** every line that carries the mark is counted, unparsed, or read as another event *)
  lc_marked : count http_mark lines = zsum ((λ e : K * (Z * Z), e.2.1) <$> counts) + unparsed_of line_re lines +
    count (λ l, http_mark l && read_as_other l) lines
}.
(** A line that is read has an event, one of the two or another. *)
Lemma line_key_read line :
  (is_Some (line_key line) ↔ event_of line = Some "HTTP"%string ∨ event_of line = Some "HTTPClient"%string) ∧
  counted line = read_as_http line ∧ matched line_re line && negb (counted line) = read_as_other line.
Proof.
  assert (is_Some (line_key line) ↔ read_as_http line = true) as Hk.
  { unfold line_key. destruct (read_as_http line) eqn:E; [|by split; [intros []|]]. split; [done|intros _].
    unfold read_as_http, event_of, groups_of in *. destruct (re_match line_re line) as [[m rest]|] eqn:Em; [|done].
    unfold re_match in Em. apply run_sound in Em as (s' & c' & Hs & [= -> ->]).
    apply reads in Hs as [_ _ (tid & Ht & _)]. cbn. rewrite Ht. by eexists. }
  assert (counted line = read_as_http line) as Hc.
  { apply Bool.eq_true_iff_eq. unfold counted. by rewrite bool_decide_eq_true. }
  split; [|split; [done|]].
  - rewrite Hk. unfold read_as_http. by rewrite orb_true_iff, !bool_decide_eq_true.
  - rewrite Hc. unfold matched, read_as_http, read_as_other, event_of, groups_of.
    destruct (re_match line_re line) as [[m rest]|] eqn:Em; [|done].
    unfold re_match in Em. apply run_sound in Em as (s' & c' & Hs & [= -> ->]).
    apply reads in Hs as [(b & e & a & _ & He & _) _ _]. cbn. rewrite He.
    cbn. f_equal. apply Bool.eq_true_iff_eq. rewrite orb_true_iff, !bool_decide_eq_true. naive_solver.
Qed.
Lemma counts_accounted lines ground : line_counts lines ground (counts_of line_re key_of lines ground).
Proof.
  set (counts := counts_of line_re key_of lines ground).
  assert (∀ k, default (0, 0) (od_get k counts) =
    (count (counts_as k) lines, count (λ l, counts_as k l && authored ground l) lines)) as Hget by (intros; apply counts_get).
  assert (NoDup counts.*1) as Hnd by apply counts_once.
  assert (∀ line k tid, line ∈ lines → line_key line = Some (k, tid) → k ∈ counts.*1) as Hin.
  { intros line k tid Hl Hk. destruct (decide (k ∈ counts.*1)) as [|Hn]; [done|]. apply od_get_None in Hn.
    apply counts_get in Hn. exfalso. assert (line ∈ List.filter (counts_as k) lines) as Hf.
    { apply elem_of_filter_bool. split; [done|]. unfold counts_as. rewrite Hk. by apply bool_decide_eq_true_2. }
    unfold count in Hn. destruct (List.filter _ lines); [by apply not_elem_of_nil in Hf|]. simpl in Hn. lia. }
  assert (zsum ((λ e : K * (Z * Z), e.2.1) <$> counts) = count counted lines) as Htotal.
  { transitivity (zsum ((λ k, count (counts_as k) lines) <$> counts.*1)).
    - rewrite <- list_fmap_compose. apply zsum_ext. intros [k [total bad]] Hk. simpl.
      specialize (Hget k). rewrite (od_get_in _ _ _ Hnd Hk) in Hget. by injection Hget as -> ->.
    - destruct (counts.*1) as [|k0 ks] eqn:Eks.
      + unfold count. rewrite filter_bool_none; [done|]. intros l Hl. unfold counted.
        apply bool_decide_eq_false_2. intros [[k tid] Hk]. specialize (Hin _ _ _ Hl Hk). by apply not_elem_of_nil in Hin.
      + rewrite <- Eks in *. unfold count at 2.
        rewrite <- (zsum_classes counted (λ l, default k0 (fst <$> line_key l)) counts.*1 lines Hnd).
        * apply zsum_ext. intros k Hk. unfold count. do 2 f_equal. apply List.filter_ext. intros l. unfold counts_as, counted.
          destruct (line_key l) as [[k' tid]|]; simpl; [|done]. apply bool_decide_ext. naive_solver.
        * intros l Hl Hc. unfold counted in Hc. apply bool_decide_eq_true in Hc as [[k tid] Hk]. rewrite Hk. by eapply Hin. }
  split; [done| | | | |].
  - intros k total bad Hk. assert (k ∈ counts.*1) as Hk' by (apply list_elem_of_fmap; by exists (k, (total, bad))).
    pose proof (counts_get lines ground k) as (_ & _ & Hpos). fold counts in Hpos. specialize (Hpos Hk').
    specialize (Hget k). rewrite (od_get_in _ _ _ Hnd Hk) in Hget. injection Hget as -> ->.
    split_and!; try done; [apply count_nonneg|].
    unfold count. apply inj_le. clear. induction lines as [|l lines IH]; [done|]. cbn [List.filter].
    destruct (counts_as k l); simpl; [destruct (authored ground l); simpl; lia|done].
  - intros line k tid Hl Hk. split; [by eapply Hin|]. by apply line_key_marked in Hk as (_ & _ & ? & ?).
  - apply line_key_read.
  - rewrite Htotal. unfold count. f_equal. f_equal. apply List.filter_ext. apply line_key_read.
  - rewrite Htotal. transitivity (count counted lines + unparsed_of line_re lines +
      count (λ l, http_mark l && (matched line_re l && negb (counted l))) lines).
    2:{ f_equal. unfold count. f_equal. f_equal. apply List.filter_ext. intros l.
        by destruct (line_key_read l) as (_ & _ & ->). }
    unfold unparsed_of. clear Hin Hnd Hget Htotal counts. induction lines as [|l lines IH]; [done|]. rewrite !count_cons, IH.
    assert (counted l = true → http_mark l = true ∧ matched line_re l = true) as Hc.
    { unfold counted. intros [[k tid] Hk]%bool_decide_eq_true. by apply line_key_marked in Hk as (? & ? & _). }
    destruct (counted l); [destruct Hc as [-> ->]; [done|]; simpl; lia|]. destruct (http_mark l), (matched line_re l); simpl; lia.
Qed.
End counted.

Lemma obi_reads line m rest : spans OBI_LINE line ∅ rest m → line_fields line m.
Proof. apply obi_line_read. by left. Qed.
