(* ===== verification/Multihop.v ===== *)
(** * Multihop: the text printer with destinations, and the score of one point from it

    [m0-harness/analyze_multihop.py], which counts the lines of the text printer per service,
    event and destination, and [analyze_run.evaluate], which scores one observation point
    from the same lines, as [evaluate_json] does from the JSON printer. *)

From Stdlib Require Import SpecFloat.
From S2P Require Import Prelude DecimalText Json Floats Harness ExactPath AnalyzeRun Regex ObiLog.

(** ** Counts with destinations *)

Definition dest : regex := seqs [anything; Group "dest" (seqs [plus (Chr non_space); lit ":"; plus (Chr decimal_digit)])]%string.
Definition OBI_LINE : regex := obi_line anything dest.
Definition key_of (m : gmap string string) : string * string * string :=
  (group_text "svc" m, group_text "event" m, group_text "dest" m).
Definition load_ground_truth : list json → res (gset string) := ObiLog.load_ground_truth.
Definition analyze : list string → gset string → odict (string * string * string) (Z * Z) := counts_of OBI_LINE key_of.
Definition count_unparsed : list string → Z := unparsed_of OBI_LINE.

Example multihop_ex :
  (analyze ex_lines {[ex_tid]}, count_unparsed ex_lines) =
  ([("foo/bar", "HTTP", "hostname.foo:5678", (1, 0)); ("foo/bar", "HTTPClient", "traefik:9081", (1, 1))], 2)%string.
Proof. vm_compute. reflexivity. Qed.

(** ** One point, from the text printer *)

(** [analyze_run.PATH]: [\sGET (?P<path>[^ (]+)\(] *)
Definition path_char (c : ascii) : bool := negb (Ascii.eqb c " " || Ascii.eqb c "(").
Definition PATH : regex := seqs [Chr space; lit "GET "; Group "path" (plus (Chr path_char)); lit "("]%string.
(** What a line says of the selected point: nothing, that it could not be read, or an
    observation of a path and a trace id. *)
Inductive TextLine :=
| Passed
| Unparsed
| Observation (path : option string) (tid : string).
Definition text_line (service event destination : string) (line : string) : TextLine :=
  match re_match OBI_LINE line with
  | None => if http_mark line then Unparsed else Passed
  | Some (m, _) =>
      if bool_decide (key_of m = (service, event, destination)) then
        Observation (group_text "path" ∘ fst <$> re_search PATH line) (group_text "tid" m)
      else Passed
  end.
Definition is_unparsed (l : TextLine) : bool := match l with Unparsed => true | _ => false end.
Definition observation_of (l : TextLine) : option (option string * string) :=
  match l with Observation path tid => Some (path, tid) | _ => None end.
Definition evaluate (rows : list json) (lines : list string) (service event destination : string) (excluded : gset string) : res Score :=
  expected ← _check_ground_truth rows;
  let read := text_line service event destination <$> lines in
  _score rows expected (omap observation_of read) (count is_unparsed read) excluded.

(** ** Lemmas *)

Lemma multihop_reads line m rest : spans OBI_LINE line ∅ rest m → line_fields line m.
Proof. apply obi_line_read. by right. Qed.
(** A line that this script reads is read by the other. *)
Lemma multihop_hop line : matched OBI_LINE line = true → matched ObiLog.OBI_LINE line = true.
Proof.
  rewrite !matched_iff. intros (s' & c' & H). exists s'. unfold OBI_LINE, ObiLog.OBI_LINE, obi_line in *.
  match type of H with spans (seqs ?l) _ _ _ _ => set (parts := l) in H end.
  refine (seqs_weaken (take 20 parts) dest anything (drop 21 parts) _ _ _ _ _ H). clear.
  intros s s' c c' H. unfold dest, seqs in H. cbn [foldr] in H.
  apply spans_seq in H as (s1 & c1 & (w1 & -> & H1 & ->)%spans_star_chr & H).
  apply spans_seq in H as (s2 & c2 & H2 & H3). inversion H3; subst. clear H3.
  apply spans_group in H2 as (w2 & c3 & -> & H2 & _). cbn [foldr seqs] in H2.
  apply spans_seq in H2 as (s3 & c4 & (w3 & E3 & H3 & _ & ->)%spans_plus_chr & H2).
  apply spans_seq in H2 as (s4 & c5 & [-> ->]%spans_lit & H2).
  apply spans_seq in H2 as (s5 & c6 & (w5 & -> & H5 & _ & ->)%spans_plus_chr & H2). inversion H2; subst. clear H2.
  eexists. rewrite E3. rewrite <- !str_app_assoc. apply star_chr_spans. rewrite !all_chars_app, H1. simpl.
  assert (∀ x, non_space x = true → dot x = true) as Hns.
  { intros x. unfold dot. destruct (Ascii.eqb_spec x "010") as [-> |]; [by vm_compute|done]. }
  assert (∀ x, decimal_digit x = true → dot x = true) as Hdd.
  { intros x. unfold dot. destruct (Ascii.eqb_spec x "010") as [-> |]; [by vm_compute|done]. }
  by rewrite (all_chars_impl _ _ _ Hns H3), (all_chars_impl _ _ _ Hdd H5).
Qed.

Lemma text_line_unparsed service event destination lines :
  count is_unparsed (text_line service event destination <$> lines) = count_unparsed lines.
Proof.
  unfold count_unparsed, unparsed_of. induction lines as [|l lines IH]; [done|].
  rewrite fmap_cons, !count_cons, IH. f_equal. unfold text_line, matched.
  destruct (re_match OBI_LINE l) as [[m rest]|]; [|by destruct (http_mark l)].
  rewrite (bool_decide_eq_true_2 (is_Some _)) by eauto. rewrite andb_false_r. by case_bool_decide.
Qed.
(** The lines of a point: read, with its service, event and destination. *)
Definition of_point (service event destination line : string) : bool :=
  bool_decide (key_of ∘ fst <$> re_match OBI_LINE line = Some (service, event, destination)).
Lemma text_line_observed service event destination lines :
  Z.of_nat (length (omap observation_of (text_line service event destination <$> lines))) =
  count (of_point service event destination) lines.
Proof.
  induction lines as [|l lines IH]; [done|]. rewrite fmap_cons, count_cons, <- IH. cbn [omap list_omap].
  unfold of_point, text_line. destruct (re_match OBI_LINE l) as [[m rest]|]; simpl.
  - destruct (decide (key_of m = (service, event, destination))) as [E|E];
      [rewrite !bool_decide_eq_true_2 by congruence|rewrite !bool_decide_eq_false_2 by congruence]; simpl length; lia.
  - destruct (http_mark l); simpl; lia.
Qed.

(** ** Guarantees *)

(** C40: nothing that the text printer wrote of an HTTP event disappears from the counts of
    self-authored lines.  For all lines and ground truth, each script has one entry per
    service, event (and destination) of the lines it counts, which are exactly those it
    reads as an HTTP or an HTTPClient event; an entry counts its lines and, among them,
    those whose id no request had; a line counts under an id of 32 hexadecimal digits; and
    the lines that carry the mark of an HTTP event are, in number, those counted, those
    unparsed and those read as an event that is neither of the two.  Every line that the
    expression with destinations reads, the other expression reads too, and so the other
    script reports no more unparsed lines. *)
Theorem self_authored_counts lines ground :
  line_counts ObiLog.OBI_LINE ObiLog.key_of lines ground (ObiLog.analyze lines ground) ∧
  line_counts OBI_LINE key_of lines ground (analyze lines ground) ∧
  (∀ line, matched OBI_LINE line = true → matched ObiLog.OBI_LINE line = true) ∧
  ObiLog.count_unparsed lines <= count_unparsed lines.
Proof.
  split_and!; [apply counts_accounted, obi_reads|apply counts_accounted, multihop_reads|apply multihop_hop|].
  unfold ObiLog.count_unparsed, count_unparsed, unparsed_of. induction lines as [|l lines IH]; [change (0 <= 0); lia|]. rewrite !count_cons.
  pose proof (multihop_hop l). destruct (http_mark l); [|simpl; lia].
  destruct (matched OBI_LINE l), (matched ObiLog.OBI_LINE l); simpl; lia || naive_solver.
Qed.

(** C37: the score of an observation point is an exact account, from either printer.
    Whenever [evaluate_json] or [evaluate] returns, every request of the ground truth is
    counted once as correct, wrong, unknown, missing or duplicate; every selected
    observation is counted, each duplicate request at least twice; the score is VALID
    exactly when no selected observation is unlabelled or of an unexpected request, no
    request is duplicated, no line is unparsed and something was selected; and then each
    selected observation is of a request of its own: they are the requests that are not
    missing.  From the text printer, the observations are the lines read with the point's
    service, event and destination, and the unparsed lines are those that
    analyze_multihop counts. *)
Theorem points_accounted rows excluded :
  (∀ lines s r, evaluate_json rows lines s excluded = Ok r → accounted rows r) ∧
  (∀ lines service event destination r, evaluate rows lines service event destination excluded = Ok r →
     accounted rows r ∧ sc_unparsed r = count_unparsed lines ∧
     sc_selected r + sc_outside r = count (of_point service event destination) lines).
Proof.
  split; [intros; by eapply json_accounted|]. intros lines service event destination r H.
  unfold evaluate in H. apply bind_Ok in H as (expected & He & H). cbv zeta in H.
  split; [exact (score_accounted _ _ _ _ _ _ (ground_truth_size _ _ He) (count_nonneg _ _) H)|].
  rewrite <- text_line_unparsed with (service := service) (event := event) (destination := destination), <- text_line_observed.
  unfold _score in H. cbv zeta in H. apply bind_Ok in H as (protocols & _ & [= <-]). cbn [sc_unparsed sc_selected sc_outside]. lia.
Qed.

(** ** Witnesses *)

Definition text_lines : list string :=
  [ex_line "HTTP" (("/truth-" +:+ truth_id "00") +:+ "(route)") "traefik:7080" (truth_id "00");
   ex_line "HTTP" (("/truth-" +:+ truth_id "02") +:+ "(route)") "traefik:7080" (truth_id "01");
   ex_line "HTTP" "/other(route)" "traefik:9081" ex_tid]%string.
Example text_scores :
  ((λ r, (sc_valid r, sc_correct r, sc_wrong_known r, sc_missing r)) <$> evaluate ran_rows text_lines "foo/bar" "HTTP" "traefik:7080" ∅,
   (λ r, (sc_valid r, sc_unparsed r)) <$> evaluate ran_rows ("broken HTTP(subType=0)" :: text_lines) "foo/bar" "HTTP" "traefik:7080" ∅) =
  (Ok (true, 1, 1, 1), Ok (false, 1)).
Proof. vm_compute. reflexivity. Qed.
Lemma points_accounted_witness :
  ∃ r, evaluate ran_rows text_lines "foo/bar" "HTTP" "traefik:7080" ∅ = Ok r ∧ accounted ran_rows r ∧
    sc_selected r + sc_outside r = 2.
Proof.
  destruct (evaluate ran_rows text_lines "foo/bar" "HTTP" "traefik:7080" ∅) as [r|] eqn:E; [|vm_compute in E; discriminate E].
  exists r. split; [done|]. destruct (points_accounted ran_rows ∅) as [_ H]. specialize (H _ _ _ _ _ E) as (H1 & _ & ->).
  split; [exact H1|vm_compute; reflexivity].
Defined.
