(* ===== verification/CorrelateByDuration.v ===== *)
(** * CorrelateByDuration: the engine as a correlator of durations

    [m0-harness/correlate_by_duration.py].  The durations that load-gen measured are matched
    with those that the agent's text printer reports, as amounts of records: [run] gives
    them to [reconcile] in buckets of consecutive ranks, [run_sliding] pools the tolerant
    rule's candidates over windows of ranks and takes the best first.  Both count the
    matches that join a request to an observation of its own trace id.  The files, the cut
    of the log's window and the printed lines are not modelled. *)

From S2P Require Import Prelude Numeric DecimalText Json Calendar Models Rules Engine CorrelateUnion Harness ExactPath Regex ObiLog.

(** ** Reading the log *)

Definition _PLACEHOLDER_DATE : date := ymd_to_ordinal 2000 1 1.
Definition units : list string := ["ns"; "µs"; "us"; "ms"; "s"; "m"; "h"].
(** [[0-9.]+] *)
Definition amount_text : regex := plus (Chr (λ c, decimal_digit c || Ascii.eqb c ".")).
Definition OBI_LINE : regex :=
  obi_line (seqs [Group "dur" (plus (seqs [amount_text; alts units])); lit "["; anything])%string anything.
(** [_UNIT_NS[u]] *)
Definition _UNIT_NS : odict string Z :=
  [("ns", 1); ("µs", 1000); ("us", 1000); ("ms", 1000000); ("s", 1000000000); ("m", 60 * 1000000000); ("h", 3600 * 1000000000)]%string.
(** Its two groups, named by their place. *)
Definition _DURATION_PART : regex := seqs [Group "1" amount_text; Group "2" (alts units)]%string.
Definition duration_part (m : gmap string string) : res decimal :=
  v ← get (parse_decimal (group_text "1" m)) InvalidOperation;
  u ← get (od_get (group_text "2" m) _UNIT_NS) KeyError;
  Ok (dmul v (of_int u)).
Definition _duration_ns (text : string) : res Z :=
  parts ← map_res duration_part (re_findall _DURATION_PART text);
  Ok (int_of_decimal (foldl dadd d0 parts)).
Definition count_unparsed (lines : list string) : Z :=
  count (λ line, contains "HTTP(subType=" line && negb (matched OBI_LINE line)) lines.
(** The duration and the trace id of an inbound event of Traefik. *)
Definition inbound_event (line : string) : res (option (Z * string)) :=
  match re_match OBI_LINE line with
  | None => Ok None
  | Some (m, _) =>
      if bool_decide (group_text "event" m = "HTTP"%string ∧ group_text "svc" m = "traefik"%string) then
        dur ← _duration_ns (group_text "dur" m); Ok (Some (dur, group_text "tid" m))
      else Ok None
  end.
Definition load_traefik_inbound (lines : list string) : res (list (Z * string)) :=
  omap (M := list) id <$> map_res inbound_event lines.

(** ** The two sides *)

(** What is read of a row of load-gen's log. *)
Record Row := mkRow { row_trace_id : string; row_timestamp_ns : Z; row_duration_ns : Z }.
Definition row_of (r : json) : res Row :=
  timestamp ← number_at "timestamp_ns" r;
  duration ← number_at "duration_ns" r;
  trace ← text_at "trace_id" r;
  Ok (mkRow trace timestamp duration).
Definition _bucket_account (index bucket : Z) : string := if bucket <=? 0 then "1" else str_Z (index / bucket).
(** Load-gen's rows by completion; the observations in the order of the log. *)
Definition _sorted_sides (log : list json) (lines : list string) : res (list Row * list (Z * string)) :=
  rows ← map_res row_of log;
  observed ← load_traefik_inbound lines;
  Ok (sorted_by (λ r, row_timestamp_ns r + row_duration_ns r) rows, observed).
Definition right_id (i : nat) : string := "obi-" +:+ str_Z (Z.of_nat i).
Definition left_record (bucket : Z) (i : nat) (r : Row) : Rec :=
  mkRec (row_trace_id r) (_bucket_account (Z.of_nat i) bucket) (of_int (row_duration_ns r)) _PLACEHOLDER_DATE None None.
Definition right_record (bucket : Z) (i : nat) (o : Z * string) : Rec :=
  mkRec (right_id i) (_bucket_account (Z.of_nat i) bucket) (of_int o.1) _PLACEHOLDER_DATE None None.
(** [true_tid_by_right_id] *)
Definition true_tids (observed : list (Z * string)) : odict string string :=
  imap (λ i o, (right_id i, o.2)) observed.
Definition is_true (tids : odict string string) (m : Match) : res bool :=
  right ← get (head (right_ids m)) IndexError;
  tid ← get (od_get right tids) KeyError;
  Ok (bool_decide (tid = left_id m)).
(** The share that both runs print of all the left records. *)
Definition printable (lefts : list Rec) : res unit := check (negb (bool_decide (length lefts = 0%nat))) ZeroDivisionError.

(** ** Buckets *)

Definition match_correct (tids : odict string string) (m : Match) : res bool :=
  if bool_decide (length (right_ids m) = 1%nat) then is_true tids m else Ok false.
Definition run (log : list json) (lines : list string) (tol : Tolerance) (bucket : Z) : res (Z * Z) :=
  '(rows, observed) ← _sorted_sides log lines;
  let lefts := imap (left_record bucket) rows in
  let rights := imap (right_record bucket) observed in
  result ← reconcile lefts rights (Some tol);
  correct ← map_res (match_correct (true_tids observed)) (matches result);
  _ ← printable lefts;
  Ok (Z.of_nat (length (matches result)), count id correct).

(** ** Windows *)

(** The bound of a slice: a negative one counts from the end. *)
Definition slice_bound (n j : Z) : nat := Z.to_nat (if j <? 0 then Z.max 0 (n + j) else Z.min n j).
Definition window_rights (rights : list Rec) (window : Z) (i : nat) : list Rec :=
  let n := Z.of_nat (length rights) in
  slice (slice_bound n (Z.max 0 (Z.of_nat i - window))) (slice_bound n (Z.min n (Z.of_nat i + window + 1))) rights.
Definition window_candidates (rights : list Rec) (tol : Tolerance) (window : Z) (e : nat * Rec) : res (list Match) :=
  m2_tolerant [e.2] (window_rights rights window e.1) tol.
(** The state of the resolution. *)
Record Sliding := mkSliding { taken_lefts : gset string; taken_rights : gset string; sl_matched : Z; sl_correct : Z }.
Definition take_best (tids : odict string string) (st : Sliding) (c : Match) : res Sliding :=
  let '(mkSliding lefts rights matched correct) := st in
  if bool_decide (left_id c ∈ lefts) then Ok st
  else
    right ← get (head (right_ids c)) IndexError;
    if bool_decide (right ∈ rights) then Ok st
    else
      right_one ← is_true tids c;
      Ok (mkSliding ({[left_id c]} ∪ lefts) ({[right]} ∪ rights) (matched + 1) (if right_one : bool then correct + 1 else correct)).
Definition run_sliding (log : list json) (lines : list string) (tol : Tolerance) (window : Z) : res (Z * Z) :=
  '(rows, observed) ← _sorted_sides log lines;
  let lefts := imap (left_record 0) rows in
  let rights := imap (right_record 0) observed in
  all_candidates ← concat_res (window_candidates rights tol window) (imap pair lefts);
  st ← fold_res (take_best (true_tids observed)) (sorted_by _candidate_order all_candidates) (mkSliding ∅ ∅ 0 0);
  _ ← printable lefts;
  Ok (sl_matched st, sl_correct st).

(** [main]: four tolerances in the chosen mode, and the exit code. *)
Definition tolerances : list Tolerance :=
  (λ abs_ns, mkTolerance (of_int abs_ns) d0 0 1 (max_block_candidates Tolerance_default)) <$> [500000; 1000000; 2000000; 5000000].
Definition main (log : list json) (lines : list string) (sliding : bool) (param : Z) : res (list (Z * Z) * Z) :=
  outs ← map_res (λ tol, if sliding : bool then run_sliding log lines tol param else run log lines tol param) tolerances;
  Ok (outs, if count_unparsed lines =? 0 then 0 else 1).

(** A run of the tests: ten requests 10 ms apart in duration, the agent 0.1 ms below. *)
Definition ex_id (i : nat) : string := zero_padded 32 (N.of_nat i).
Definition ex_event (duration : string) (i : nat) : string :=
  "2026-09-29 10:00:00.12345 (" +:+ duration +:+ "[" +:+ duration +:+ "]) HTTP(subType=0) 200 GET /x(/*) [peer as client:1234]->[host as traefik:7080] contentLen:0B responseLen:0B svc=[traefik go] traceparent=[00-" +:+ ex_id i +:+ "-1111111111111111[2222222222222222]-01]".
Definition ex_log (n : nat) : list json :=
  (λ i, JObj [("trace_id", JStr (ex_id i)); ("timestamp_ns", JInt 0); ("duration_ns", JInt ((40 + 10 * Z.of_nat i) * 1000000))]%string) <$> seq 0 n.
Definition ex_observed (order : list nat) : list string :=
  (λ i, ex_event (str_Z (39 + 10 * Z.of_nat i) +:+ ".9ms") i) <$> order.
Definition ex_tolerance : Tolerance := mkTolerance (of_int 500000) d0 0 1 32.
Example durations_ex :
  _duration_ns <$> ["120ns"; "850µs"; "1.5µs"; "41.5ms"; "1.2s"; "1m2.5s"; "0s"; "1.2.3s"]%string =
  [Ok 120; Ok 850000; Ok 1500; Ok 41500000; Ok 1200000000; Ok 62500000000; Ok 0; Raise InvalidOperation].
Proof. vm_compute. reflexivity. Qed.
(** Requests 4 and 5 complete in one order on load-gen and in the other in the log: the
    pair across the boundary of the buckets is lost, and the windows keep it. *)
Example boundary_ex :
  let lines := ex_observed [0; 1; 2; 3; 5; 4; 6; 7; 8; 9]%nat in
  (run (ex_log 10) lines ex_tolerance 5, run_sliding (ex_log 10) lines ex_tolerance 1,
   run (ex_log 0) lines ex_tolerance 0, count_unparsed (ex_event "850µs" 0 :: lines)) =
  (Ok (8, 8), Ok (10, 10), Raise ZeroDivisionError, 0).
Proof. vm_compute. reflexivity. Qed.

(** ** What the windows propose *)

(** The tolerant rule's match of the row at rank [i] and the observation at rank [j], at
    most [window] ranks apart. *)
Definition proposed (rows : list Row) (observed : list (Z * string)) (tol : Tolerance) (window : Z) (m : Match) : Prop :=
  ∃ i j a b, rows !! i = Some a ∧ observed !! j = Some b ∧ Z.abs (Z.of_nat i - Z.of_nat j) <= window ∧
    admits tol [right_record 0 j b] (left_record 0 i a) m ∧ rule m = M2_TOLERANT.
(** The observation of a match has the trace id of its request. *)
Definition own (observed : list (Z * string)) (m : Match) : bool :=
  match right_ids m with [r] => bool_decide ((r, left_id m) ∈ true_tids observed) | _ => false end.

Lemma elem_of_slice {A} i j (l : list A) x : x ∈ slice i j l ↔ ∃ k, (i <= k < j)%nat ∧ l !! k = Some x.
Proof.
  unfold slice. rewrite list_elem_of_lookup. split.
  - intros [k [Hk Hlt]%lookup_take_Some]. rewrite lookup_drop in Hk. exists (i + k)%nat. split; [lia|done].
  - intros (k & Hk & E). exists (k - i)%nat. apply lookup_take_Some. rewrite lookup_drop. split; [|lia].
    by replace (i + (k - i))%nat with k by lia.
Qed.
Lemma elem_of_window rights window i r : 0 <= window →
  r ∈ window_rights rights window i ↔ ∃ j, rights !! j = Some r ∧ Z.abs (Z.of_nat i - Z.of_nat j) <= window.
Proof.
  intros Hw. unfold window_rights, slice_bound. cbv zeta. rewrite elem_of_slice.
  rewrite (proj2 (Z.ltb_ge (Z.max _ _) 0)) by lia. rewrite (proj2 (Z.ltb_ge (Z.min _ _) 0)) by lia. split.
  - intros (k & Hk & E). exists k. split; [done|]. pose proof (lookup_lt_Some _ _ _ E). lia.
  - intros (j & E & Hj). exists j. split; [|done]. pose proof (lookup_lt_Some _ _ _ E). lia.
Qed.
Lemma admits_one tol rights l m : admits tol rights l m → rule m = M2_TOLERANT →
  ∃ r, r ∈ rights ∧ admits tol [r] l m ∧ right_ids m = [rid r].
Proof.
  intros H Hm. inversion H as [| |r s Hr Hw Hn Hs|]; subst; try discriminate Hm. exists r. split; [done|]. split; [|done].
  apply admits_m2; try done. by left.
Qed.
Lemma admits_m2_left tol rights l m : admits tol rights l m → left_id m = rid l.
Proof. by inversion 1. Qed.
Lemma window_candidates_spec rows observed tol window cands : 0 <= window →
  concat_res (window_candidates (imap (right_record 0) observed) tol window) (imap pair (imap (left_record 0) rows)) = Ok cands →
  ∀ m, m ∈ cands ↔ proposed rows observed tol window m.
Proof.
  intros Hw H m. rewrite (concat_res_elem _ _ _ _ H). split.
  - intros (e & ms & He & Hms & Hm). apply list_elem_of_lookup in He as [i He].
    rewrite list_lookup_imap, list_lookup_imap in He. destruct (rows !! i) as [a|] eqn:Ea; [|done]. injection He as <-.
    apply (m2_tolerant_spec _ _ _ _ _ Hms) in Hm as (l & ->%list_elem_of_singleton & Ha & Hr). simpl in Ha.
    apply admits_one in Ha as (r & Hin & Ha & _); [|done]. apply elem_of_window in Hin as (j & Ej & Hj); [|done].
    rewrite list_lookup_imap in Ej. destruct (observed !! j) as [b|] eqn:Eb; [|done]. injection Ej as <-.
    by exists i, j, a, b.
  - intros (i & j & a & b & Ea & Eb & Hij & Ha & Hr). 
    assert ((i, left_record 0 i a) ∈ imap pair (imap (left_record 0) rows)) as He.
    { apply list_elem_of_lookup. exists i. by rewrite list_lookup_imap, list_lookup_imap, Ea. }
    destruct (concat_res_sub _ _ _ _ H He) as [ms Hms]. exists (i, left_record 0 i a), ms. split_and!; [done|done|].
    apply (m2_tolerant_spec _ _ _ _ _ Hms). exists (left_record 0 i a). split; [by apply list_elem_of_singleton|]. split; [|done].
    inversion Ha as [| |r s Hin Hwi Hn Hs|]; subst; try discriminate Hr. apply admits_m2; try done.
    apply list_elem_of_singleton in Hin as ->. apply elem_of_window; [done|]. exists j. by rewrite list_lookup_imap, Eb.
Qed.

(** ** The resolution *)

Lemma right_id_inj i j : right_id i = right_id j → i = j.
Proof. unfold right_id. intros H. apply (inj (String.app "obi-")) in H. apply str_Z_inj in H. lia. Qed.
Lemma elem_of_tids observed r t : (r, t) ∈ true_tids observed ↔ ∃ j b, observed !! j = Some b ∧ r = right_id j ∧ t = b.2.
Proof.
  unfold true_tids. rewrite elem_of_lookup_imap. split.
  - intros (j & b & [= -> ->] & E). by exists j, b.
  - intros (j & b & E & -> & ->). by exists j, b.
Qed.
Lemma tids_distinct observed : NoDup (true_tids observed).*1.
Proof.
  apply NoDup_alt. intros i j r Hi Hj. rewrite list_lookup_fmap in Hi, Hj. unfold true_tids in Hi, Hj.
  rewrite list_lookup_imap in Hi, Hj. destruct (observed !! i), (observed !! j); try done.
  simpl in Hi, Hj. injection Hi as Hi. injection Hj as Hj. apply right_id_inj. congruence.
Qed.
Lemma proposed_right rows observed tol window m : proposed rows observed tol window m →
  ∃ j b, observed !! j = Some b ∧ right_ids m = [right_id j] ∧
    is_true (true_tids observed) m = Ok (own observed m).
Proof.
  intros (i & j & a & b & Ea & Eb & _ & Ha & Hr). exists j, b. split; [done|].
  destruct (admits_one _ _ _ _ Ha Hr) as (r & ->%list_elem_of_singleton & _ & Er). simpl in Er. split; [done|].
  unfold is_true, own. rewrite Er. cbn [head get mbind res_bind].
  assert ((right_id j, b.2) ∈ true_tids observed) as Hin by (apply elem_of_tids; eauto).
  rewrite (od_get_in _ _ _ (tids_distinct observed) Hin). cbn [get mbind res_bind]. f_equal. apply bool_decide_ext. split.
  - by intros <-.
  - intros H. pose proof (od_get_in _ _ _ (tids_distinct observed) H) as E1.
    rewrite (od_get_in _ _ _ (tids_distinct observed) Hin) in E1. by injection E1.
Qed.

(** The matches taken so far, which the script only counts. *)
Record taken (observed : list (Z * string)) (st : Sliding) (ms : list Match) : Prop := {
  tk_lefts x : x ∈ taken_lefts st ↔ x ∈ left_id <$> ms;
  tk_rights x : x ∈ taken_rights st ↔ x ∈ mjoin (right_ids <$> ms);
  tk_left_once : NoDup (left_id <$> ms);
  tk_right_once : NoDup (mjoin (right_ids <$> ms));
  tk_matched : sl_matched st = Z.of_nat (length ms);
  tk_correct : sl_correct st = count (own observed) ms
}.
(** No candidate is left out unless one that is not behind it holds its request or its
    observation. *)
Definition best_first (cands ms : list Match) : Prop :=
  ∀ c, c ∈ cands → c ∈ ms ∨ ∃ m, m ∈ ms ∧ conflict m c ∧ cmp_le (_candidate_order m) (_candidate_order c).
Lemma take_best_ok rows observed tol window st ms c : proposed rows observed tol window c → taken observed st ms →
  ∃ st', take_best (true_tids observed) st c = Ok st' ∧
    ((∃ m, m ∈ ms ∧ conflict m c) ∧ st' = st ∨ taken observed st' (ms ++ [c])).
Proof.
  intros Hc [Hl Hr Nl Nr Hm Ho]. destruct (proposed_right _ _ _ _ _ Hc) as (j & b & Eb & Er & Et).
  destruct st as [lefts rights matched correct]. simpl in *. unfold take_best. case_bool_decide as Hlc.
  { eexists. split; [done|]. left. split; [|done]. apply Hl, list_elem_of_fmap in Hlc as (m & E & Hin). exists m. split; [done|]. by left. }
  rewrite Er. cbn [head get mbind res_bind]. case_bool_decide as Hrc.
  { eexists. split; [done|]. left. split; [|done]. apply Hr, list_elem_of_join in Hrc as (rs & Hx & (m & -> & Hin)%list_elem_of_fmap).
    exists m. split; [done|]. right. exists (right_id j). split; [done|]. rewrite Er. by left. }
  rewrite Et. cbn [mbind res_bind]. eexists. split; [done|]. right.
  assert (mjoin (right_ids <$> ms ++ [c]) = mjoin (right_ids <$> ms) ++ [right_id j]) as Ej
    by (rewrite fmap_app, join_app; cbn; by rewrite Er).
  assert (left_id <$> ms ++ [c] = (left_id <$> ms) ++ [left_id c]) as El by by rewrite fmap_app.
  split; simpl; rewrite ?Ej, ?El.
  - intros x. rewrite elem_of_union, elem_of_singleton, elem_of_app, Hl, list_elem_of_singleton. tauto.
  - intros x. rewrite elem_of_union, elem_of_singleton, elem_of_app, Hr, list_elem_of_singleton. tauto.
  - apply NoDup_app. split_and!; [done| |apply NoDup_singleton]. intros x Hx ->%list_elem_of_singleton. by apply Hlc, Hl.
  - apply NoDup_app. split_and!; [done| |apply NoDup_singleton].
    intros x Hx ->%list_elem_of_singleton. by apply Hrc, Hr.
  - rewrite length_app. simpl. lia.
  - rewrite count_snoc. destruct (own observed c); lia.
Qed.
Lemma take_bests rows observed tol window cands :
  (∀ c, c ∈ cands → proposed rows observed tol window c) → StronglySorted (key_le _candidate_order) cands →
  ∃ st ms, fold_res (take_best (true_tids observed)) cands (mkSliding ∅ ∅ 0 0) = Ok st ∧ taken observed st ms ∧
    (∀ m, m ∈ ms → m ∈ cands) ∧ best_first cands ms.
Proof.
  induction cands as [|c cands IH] using rev_ind; intros Hc Hs.
  { eexists _, []. split; [done|]. split; [split; simpl; set_solver by (done || apply NoDup_nil_2)|].
    split; [done|]. by intros ? ?%not_elem_of_nil. }
  apply StronglySorted_app in Hs as (Hle & Hs & _). setoid_rewrite list_elem_of_singleton in Hle.
  destruct IH as (st & ms & E & Ht & Hin & Hb); [intros; apply Hc, elem_of_app; by left|done|].
  rewrite fold_res_app, E. cbn [mbind res_bind fold_res].
  destruct (take_best_ok rows observed tol window st ms c) as (st' & -> & Hst'); [apply Hc, elem_of_app; right; by left|done|].
  cbn [mbind res_bind]. destruct Hst' as [[(m & Hm & Hmc) ->]|Hst'].
  - exists st, ms. split_and!; [done|done|intros; apply elem_of_app; left; auto|].
    intros x [Hx| ->%list_elem_of_singleton]%elem_of_app; [by apply Hb|]. right. exists m. split_and!; [done|done|].
    apply Hle; [by apply Hin|done].
  - exists st', (ms ++ [c]). split_and!; [done|done|set_solver|].
    intros x [Hx| ->%list_elem_of_singleton]%elem_of_app; [|left; apply elem_of_app; right; by left].
    destruct (Hb x Hx) as [?|(m & Hm & ?)]; [left; apply elem_of_app; by left|]. right. exists m. split; [apply elem_of_app; by left|done].
Qed.

(** ** Guarantees *)

(** C32: the windows resolve what they propose, best first.  Whenever the log reads, with a
    window that is not negative: without a request the run fails on its percentage, as it
    divides by their number; otherwise it returns, and its two counts are those of a list
    of matches, and of the ones among them whose observation has the trace id of their
    request.  No request and no observation is in two matches; each match is of a request
    and an observation at most [window] ranks apart whose durations the tolerant rule
    accepts; and each such pair is matched, unless a match that is not behind it in the
    engine's order holds one of its ends.  So when no two such pairs share an end, all are
    matched. *)
Theorem sliding_resolved log lines tol window rows observed :
  _sorted_sides log lines = Ok (rows, observed) → 0 <= window →
  if bool_decide (rows = []) then run_sliding log lines tol window = Raise ZeroDivisionError
  else ∃ ms, run_sliding log lines tol window = Ok (Z.of_nat (length ms), count (own observed) ms) ∧
    NoDup (left_id <$> ms) ∧ NoDup (mjoin (right_ids <$> ms)) ∧
    (∀ m, m ∈ ms → proposed rows observed tol window m) ∧
    (∀ c, proposed rows observed tol window c → c ∈ ms ∨
       ∃ m, m ∈ ms ∧ conflict m c ∧ cmp_le (_candidate_order m) (_candidate_order c)) ∧
    ((∀ c c', proposed rows observed tol window c → proposed rows observed tol window c' → conflict c c' → c = c') →
       ∀ c, proposed rows observed tol window c → c ∈ ms).
Proof.
  intros Hsides Hw. unfold run_sliding. rewrite Hsides. cbn [mbind res_bind].
  destruct (concat_res_total (window_candidates (imap (right_record 0) observed) tol window) (imap pair (imap (left_record 0) rows)))
    as [cands Hcands]; [intros; apply m2_total|].
  rewrite Hcands. cbn [mbind res_bind]. pose proof (window_candidates_spec _ _ _ _ _ Hw Hcands) as Hspec.
  destruct (take_bests rows observed tol window (sorted_by _candidate_order cands)) as (st & ms & E & Ht & Hin & Hb);
    [by intros c Hc%elem_of_sorted_by; apply Hspec|apply sorted_by_sorted|].
  rewrite E. cbn [mbind res_bind]. unfold printable. rewrite length_imap.
  destruct rows as [|row rows]; [rewrite bool_decide_eq_true_2 by done; done|]. rewrite bool_decide_eq_false_2 by done. simpl.
  destruct Ht as [_ _ Nl Nr Hm Ho]. exists ms. rewrite Hm, Ho.
  assert (∀ m, m ∈ ms → proposed (row :: rows) observed tol window m) as Hp
    by (intros m Hx; by apply Hspec, (elem_of_sorted_by _candidate_order), Hin).
  assert (∀ c, proposed (row :: rows) observed tol window c → c ∈ ms ∨
    ∃ m, m ∈ ms ∧ conflict m c ∧ cmp_le (_candidate_order m) (_candidate_order c)) as Hc
    by (intros c ?; by apply Hb, elem_of_sorted_by, Hspec).
  split_and!; try done. intros Hdis c Hx. destruct (Hc c Hx) as [?|(m & Hin' & Hmc & _)]; [done|].
  by rewrite <- (Hdis m c) by auto.
Qed.

(** ** Witnesses *)

Definition ex_crossed : list string := ex_observed [0; 2; 1]%nat.
Definition ex_sides : list Row * list (Z * string) :=
  match _sorted_sides (ex_log 3) ex_crossed with Ok sides => sides | Raise _ => ([], []) end.
Lemma sliding_resolved_witness :
  ∃ ms, run_sliding (ex_log 3) ex_crossed ex_tolerance 1 = Ok (Z.of_nat (length ms), count (own ex_sides.2) ms) ∧
    length ms = 3%nat ∧ (∀ m, m ∈ ms → proposed ex_sides.1 ex_sides.2 ex_tolerance 1 m).
Proof.
  pose proof (sliding_resolved (ex_log 3) ex_crossed ex_tolerance 1 ex_sides.1 ex_sides.2 ltac:(vm_compute; reflexivity) ltac:(lia)) as H.
  rewrite bool_decide_eq_false_2 in H by (vm_compute; discriminate).
  destruct H as (ms & E & _ & _ & Hp & _). exists ms. split; [exact E|]. split; [|exact Hp].
  assert (run_sliding (ex_log 3) ex_crossed ex_tolerance 1 = Ok (3, 3)) as E3 by (vm_compute; reflexivity).
  rewrite E3 in E. apply (f_equal (λ r, match r with Ok x => x.1 | Raise _ => 0 end)) in E. cbn beta iota in E. cbn [fst] in E. lia.
Defined.
