(* ===== verification/H1Timestamps.v ===== *)
(** * H1Timestamps: are the timestamps of a source precise enough?

    [m0-harness/h1_timestamps.py].  Each source is paired with load-gen's rows without using
    time: OBI's spans by trace id, the probe's events by order.  The offsets of the pairs,
    less their median, are summarised and judged.  Times are floats of microseconds;
    [statistics.median] and [statistics.pstdev] are modelled as the standard library of
    Python 3.11 computes them.  The files, the arguments and the printing are not
    modelled; the lines of the agent are those that begin with a bracket, parsed. *)

From Stdlib Require Import SpecFloat QArith.
From S2P Require Import Prelude DecimalText Json Floats Dedup Harness ExactPath AnalyzeRun.

(** ** Arithmetic *)

(** [a / b] of integers: the float nearest to the quotient, whatever their size. *)
Definition float_mantissa (z : Z) : float :=
  match z with Z0 => S754_zero false | Zpos p => S754_finite false p 0 | Zneg p => S754_finite true p 0 end.
Definition true_div (a b : Z) : float := SFdiv 53 1024 (float_mantissa a) (float_mantissa b).
Definition fabs (x : float) : float := SFabs x.
Definition fadd : float → float → float := SFadd 53 1024.
(** The exact value of a finite float. *)
Definition float_value (x : float) : Q :=
  match x with
  | S754_finite s m e =>
      let z := if s then Z.neg m else Z.pos m in
      if 0 <=? e then inject_Z (z * 2 ^ e) else Qmake z (Z.to_pos (2 ^ (- e)))
  | _ => 0%Q
  end.
(** [statistics.median] of floats. *)
Definition StatisticsError : exn := ValueError "no median for empty data".
Definition median (data : list float) : res float :=
  let data := sorted data in
  let n := length data in
  if bool_decide (n = 0%nat) then Raise StatisticsError
  else if Nat.odd n then get (data !! (n / 2)%nat) IndexError
  else a ← get (data !! (n / 2 - 1)%nat) IndexError; b ← get (data !! (n / 2)%nat) IndexError;
       Ok (fdiv (fadd a b) (float_of_int 2)).
(** [statistics._float_sqrt_of_frac]: the float nearest to the root of a fraction. *)
Definition _integer_sqrt_of_frac_rto (n m : Z) : Z :=
  let a := Z.sqrt (n / m) in if a * a * m =? n then a else Z.lor a 1.
Definition bit_length (z : Z) : Z := if z =? 0 then 0 else Z.log2 z + 1.
Definition _float_sqrt_of_frac (n m : Z) : float :=
  let q := (bit_length n - bit_length m - 109) / 2 in
  if 0 <=? q then true_div (Z.shiftl (_integer_sqrt_of_frac_rto n (Z.shiftl m (2 * q))) q) 1
  else true_div (_integer_sqrt_of_frac_rto (Z.shiftl n (-2 * q)) m) (Z.shiftl 1 (- q)).
(** [statistics.pstdev]: the exact variance of the population, and its root. *)
Definition pstdev (data : list float) : float :=
  let values := float_value <$> data in
  let n := inject_Z (Z.of_nat (length values)) in
  let mean := (foldr Qplus 0 values / n)%Q in
  let variance := Qred (foldr Qplus 0 ((λ x, (x - mean) * (x - mean))%Q <$> values) / n)%Q in
  _float_sqrt_of_frac (Qnum variance) (Zpos (Qden variance)).

(** ** Reading *)

Definition load_gen_rows (rows : list json) : res (list json) :=
  keep ← map_res (λ r,
    side ← match field "side" r with None => Ok true | Some (JStr s) => Ok (bool_decide (s = "load-gen"%string)) | Some _ => Ok false end;
    Ok ((side : bool) && negb (is_truthy (field "error" r)), r)) rows;
  Ok ((λ e : bool * json, e.2) <$> List.filter fst keep).
(** Server spans observed on a port. *)
Definition on_port (port : Z) (span : json) : res bool :=
  if field_is "kind" SERVER span then p ← int_field "hostPort" 0 span; Ok (p =? port) else Ok false.
Definition obi_server_spans (lines : list (list json)) (port : Z) : res (list json) :=
  keep ← map_res (λ span, k ← on_port port span; Ok (k : bool, span)) (mjoin lines);
  Ok ((λ e : bool * json, e.2) <$> List.filter fst keep).

(** ** Summaries *)

Definition HOLDS_P99_US : float := float_of_int 100.
Definition PARTIAL_P99_US : float := float_of_int 1000.
Definition MIN_DISTINCT_RATIO : float := true_div 99 100.
Record Summary := mkSummary {
  su_n : Z;
  su_distinct_ratio : float;
  su_sd_us : float;
  su_p50_abs_us : float;
  su_p99_abs_us : float;
  su_max_abs_us : float
}.
(** [None] is the summary of nothing: [{"n": 0}]. *)
Definition summarize (residuals : list float) (distinct n : Z) : res (option Summary) :=
  if bool_decide (length residuals = 0%nat) then Ok None
  else
    let abs_sorted := sorted (fabs <$> residuals) in
    let m := Z.of_nat (length abs_sorted) in
    c ← ceil (fmul (true_div 99 100) (float_of_int m));
    p99 ← get (abs_sorted !! Z.to_nat (Z.max 0 (c - 1))) IndexError;
    p50 ← median abs_sorted;
    largest ← get (last abs_sorted) IndexError;
    Ok (Some (mkSummary m (if n =? 0 then S754_zero false else true_div distinct n) (pstdev residuals) p50 p99 largest)).
Inductive Verdict := NOT_SCORED | FAILS | PARTIAL | HOLDS.
Definition verdict (summary : option Summary) : Verdict :=
  match summary with
  | None => NOT_SCORED
  | Some s =>
      if su_n s =? 0 then NOT_SCORED
      else if SFltb (su_distinct_ratio s) MIN_DISTINCT_RATIO then FAILS
      else if SFleb (su_p99_abs_us s) HOLDS_P99_US then HOLDS
      else if SFleb (su_p99_abs_us s) PARTIAL_P99_US then PARTIAL
      else FAILS
  end.
Definition _residuals (offsets : list float) : res (list float) :=
  m ← median offsets; Ok ((λ o, fsub o m) <$> offsets).
(** A summary and its verdict, from the values and the offsets of the pairs. *)
Definition summary_of (offsets : list float) (values : list Z) : res (option Summary * Verdict) :=
  residuals ← (if bool_decide (length offsets = 0%nat) then Ok [] else _residuals offsets);
  s ← summarize residuals (Z.of_nat (size (list_to_set values : gset Z))) (Z.of_nat (length values));
  Ok (s, verdict s).

(** ** Pairing *)

(** [by_tid.setdefault(span.get("traceID", ""), []).append(span)] *)
Definition add_span (d : odict string (list json)) (e : string * json) : odict string (list json) :=
  od_set e.1 (default [] (od_get e.1 d) ++ [e.2]) d.
Definition by_tid (spans : list json) : res (odict string (list json)) :=
  ids ← map_res (λ s, t ← text_field "traceID" "" s; Ok ((t, s) : string * json)) spans;
  Ok (foldl add_span [] ids).
(** The items of an id that has one span. *)
Definition single {A} (truth : gmap string A) (e : string * list json) : option (A * json) :=
  match truth !! e.1, e.2 with Some r, [s] => Some (r, s) | _, _ => None end.
(** [{r["trace_id"]: r for r in rows}] *)
Definition truth_rows (rows : list json) : res (gmap string json) :=
  ids ← trace_ids rows; Ok (foldl (λ m e, <[e.1 := e.2]> m) ∅ (zip ids rows)).

(** The times that the three fields are compared with. *)
Definition sent_us (r : json) : res float := t ← number_at "timestamp_ns" r; Ok (true_div t 1000).
Definition done_us (r : json) : res float :=
  t ← number_at "timestamp_ns" r; d ← number_at "duration_ns" r; Ok (true_div (t + d) 1000).
Definition obi_fields : list (string * (json → res float)) :=
  [("start", sent_us); ("handlerStart", sent_us); ("end", done_us)]%string.
Record ObiScore := mkObiScore {
  os_load_gen_rows : Z;
  os_server_spans : Z;
  os_paired : Z;
  os_fields : list (string * (option Summary * Verdict))
}.
Definition obi_pairs (rows spans : list json) : res (list (json * json)) :=
  by_id ← by_tid spans;
  truth ← truth_rows rows;
  Ok (omap (M := list) (single truth) by_id).
Definition score_field (paired : list (json * json)) (f : string * (json → res float)) : res (string * (option Summary * Verdict)) :=
  values ← map_res (λ rs : json * json, int_at f.1 rs.2) paired;
  offsets ← map_res (λ rs : json * json, v ← int_at f.1 rs.2; ref ← f.2 rs.1; Ok (fsub (float_of_int v) ref)) paired;
  out ← summary_of offsets values;
  Ok (f.1, out).
Definition score_obi (rows spans : list json) : res ObiScore :=
  paired ← obi_pairs rows spans;
  fields ← map_res (score_field paired) obi_fields;
  Ok (mkObiScore (Z.of_nat (length rows)) (Z.of_nat (length spans)) (Z.of_nat (length paired)) fields).

(** The rows and the events in the order of their times. *)
Definition by_time (l : list json) : res (list (Z * json)) :=
  timed ← map_res (λ r, t ← number_at "timestamp_ns" r; Ok ((t, r) : Z * json)) l; Ok (sorted_by fst timed).
(** [None]: not scored, the counts differ. *)
Definition score_probe (rows events : list json) : res (option (option Summary * Verdict)) :=
  if negb (bool_decide (length rows = length events)) || bool_decide (length rows = 0%nat) then Ok None
  else
    rows ← by_time rows;
    events ← by_time events;
    let offsets := (λ re : (Z * json) * (Z * json), true_div (re.2.1 - re.1.1) 1000) <$> zip rows events in
    out ← summary_of offsets (fst <$> events);
    Ok (Some out).
Definition score_kernel_pair (rows spans events : list json) : res (option (option Summary * Verdict)) :=
  if negb (bool_decide (length rows = length events)) || bool_decide (length rows = 0%nat) then Ok None
  else
    rows ← by_time rows;
    events ← by_time events;
    ids ← trace_ids (snd <$> rows);
    let probe_us := foldl (λ m (e : string * Z), <[e.1 := true_div e.2 1000]> m) (∅ : gmap string float) (zip ids (fst <$> events)) in
    by_id ← by_tid spans;
    let found := omap (M := list) (single probe_us) by_id in
    values ← map_res (λ e : float * json, int_at "handlerStart" e.2) found;
    offsets ← map_res (λ e : float * json, v ← int_at "handlerStart" e.2; Ok (fsub (float_of_int v) e.1)) found;
    out ← summary_of offsets values;
    Ok (Some out).

(** ** Identifiers *)

Record Consistency := mkConsistency {
  co_missing : Z;
  co_missing_positions : list Z;
  co_duplicated : Z;
  co_unknown : Z
}.
Definition tid_counts (spans : list json) : res (gmap string Z) := ids ← map_res (text_field "traceID" "") spans; Ok (counter ids).
Definition id_consistency (rows spans : list json) : res Consistency :=
  counts ← tid_counts spans;
  ordered ← by_time rows;
  ids ← trace_ids (snd <$> ordered);
  let missing := omap (λ e : nat * string, if default 0 (counts !! e.2) =? 0 then Some (Z.of_nat e.1) else None) (imap pair ids) in
  let tids := list_to_set ids : gset string in
  Ok (mkConsistency (Z.of_nat (length missing)) (take 20 missing)
    (count (λ t, 1 <? default 0 (counts !! t)) (elements tids))
    (zsum ((λ e : string * Z, e.2) <$> List.filter (λ e : string * Z, bool_decide (e.1 ∉ tids)) (map_to_list counts)))).

(** The cases of the tests, with fewer requests. *)
Definition ex_row (t : string) (ts : Z) : json :=
  JObj [("trace_id", JStr t); ("timestamp_ns", JInt ts); ("duration_ns", JInt 1000000)]%string.
Definition ex_span (t : string) (start finish port : Z) : json :=
  JObj [("traceID", JStr t); ("kind", JStr SERVER); ("hostPort", JStr (str_Z port)); ("start", JStr (str_Z start));
        ("handlerStart", JStr (str_Z start)); ("end", JStr (str_Z finish))]%string.
Definition ex_names : list (string * Z) := (λ i, (str_Z (Z.of_nat i), Z.of_nat i)) <$> seq 0 20.
Definition ex_rows : list json := (λ e, ex_row e.1 (e.2 * 5000000)) <$> ex_names.
Definition ex_spans : list json := (λ e, ex_span e.1 (e.2 * 5000 + 80) (e.2 * 5000 + 1080) 8443) <$> ex_names.
Definition ex_verdicts (s : ObiScore) : Z * list Verdict := (os_paired s, (λ f, f.2.2) <$> os_fields s).
(** A constant offset holds; a granularity of a second fails; an id seen twice is left out. *)
Example score_obi_ex :
  (ex_verdicts <$> score_obi ex_rows (reverse ex_spans),
   ex_verdicts <$> score_obi ex_rows ((λ e, ex_span e.1 (e.2 * 5000 / 1000000 * 1000000) 0 8443) <$> ex_names),
   os_paired <$> score_obi ex_rows (ex_span "3" 0 0 8443 :: ex_spans)) =
  (Ok (20, [HOLDS; HOLDS; HOLDS]), Ok (20, [FAILS; FAILS; FAILS]), Ok 19).
Proof. vm_compute. reflexivity. Qed.
(** A probe that is 30 us early or late; the counts differ. *)
Definition ex_events : list json :=
  (λ e, ex_row "" (7000000000 + e.2 * 5000000 + (if Z.even e.2 then 30000 else -30000))) <$> ex_names.
Example score_probe_ex :
  (o ← score_probe ex_rows ex_events; Ok (option_map snd o), score_probe ex_rows [ex_row "" 5],
   pstdev (map float_of_int [1; 2; 3; 4])) =
  (Ok (Some HOLDS), Ok None, true_div 1118033988749895 1000000000000000).
Proof. vm_compute. reflexivity. Qed.
Example id_consistency_ex :
  id_consistency ((λ i, ex_row (str_Z i) i) <$> [0; 1; 2; 3; 4]) ((λ i, ex_span (str_Z i) 0 0 8443) <$> [0; 1; 1; 2; 99]) =
  Ok (mkConsistency 2 [3; 4] 1 1).
Proof. vm_compute. reflexivity. Qed.

(** ** Lemmas: how the sources are paired *)

Lemma counter_lookup (l : list string) t : default 0 (counter l !! t) = count (λ x, bool_decide (x = t)) l.
Proof.
  unfold counter. induction l as [|x l IH] using rev_ind; [done|]. rewrite foldl_app, count_snoc. cbn [foldl].
  destruct (decide (x = t)) as [-> |Hne].
  - rewrite lookup_insert_eq. simpl. by rewrite IH, bool_decide_eq_true_2.
  - by rewrite lookup_insert_ne, IH, bool_decide_eq_false_2, Z.add_0_r by done.
Qed.
Lemma counter_none (l : list string) t : counter l !! t = None ↔ t ∉ l.
Proof.
  unfold counter. induction l as [|x l IH] using rev_ind; [split; [|done]; by intros _ ?%not_elem_of_nil|].
  rewrite foldl_app, not_elem_of_app. cbn [foldl]. rewrite not_elem_of_cons. destruct (decide (x = t)) as [-> |Hne].
  - rewrite lookup_insert_eq. split; [done|]. intros (_ & Hn & _). done.
  - rewrite lookup_insert_ne, IH by done. split; [|tauto]. intros ?. split_and!; [done|done|apply not_elem_of_nil].
Qed.
(** The counts are those of the ids, in whatever order. *)
Lemma counter_perm (l l' : list string) : l ≡ₚ l' → counter l = counter l'.
Proof.
  intros H. apply map_eq. intros t. destruct (decide (t ∈ l)) as [Hin|Hn].
  - pose proof (counter_lookup l t) as E. pose proof (counter_lookup l' t) as E'.
    destruct (counter l !! t) eqn:C; [|by apply counter_none in C]. destruct (counter l' !! t) eqn:C'.
    + simpl in E, E'. f_equal. rewrite E, E'. unfold count. f_equal. by apply Permutation_length, filter_bool_perm.
    + apply counter_none in C'. by rewrite H in Hin.
  - assert (t ∉ l') as Hn' by by rewrite <- H. by rewrite !(proj2 (counter_none _ _)).
Qed.

(** A swap of ids between requests cannot be seen: the report depends on the ids that the
    spans carry, and not on which span carries which. *)
Lemma id_consistency_blind rows spans spans' ids ids' :
  map_res (text_field "traceID" "") spans = Ok ids → map_res (text_field "traceID" "") spans' = Ok ids' → ids ≡ₚ ids' →
  id_consistency rows spans = id_consistency rows spans'.
Proof.
  intros E E' H. unfold id_consistency, tid_counts. rewrite E, E'. cbn [mbind res_bind]. by rewrite (counter_perm ids ids').
Qed.

(** The spans of an id, in order. *)
Lemma add_spans_get (l : list (string * json)) t :
  od_get t (foldl add_span [] l) = (if bool_decide (under t l = []) then None else Some (under t l)).
Proof.
  induction l as [|[k s] l IH] using rev_ind; [done|]. rewrite foldl_app, under_app. cbn [foldl].
  set (d := foldl add_span [] l) in *. unfold add_span. cbn [fst snd]. rewrite od_get_set, under_one. destruct (decide (k = t)) as [-> |Hne].
  - rewrite bool_decide_eq_false_2 by (by destruct (under t l)). do 2 f_equal. rewrite IH.
    case_bool_decide as Eu; [by rewrite Eu|done].
  - by rewrite app_nil_r, IH.
Qed.
Lemma add_spans_once (l : list (string * json)) : NoDup (foldl add_span [] l).*1.
Proof. apply foldl_inv; [apply NoDup_nil_2|]. intros d e _ Hd. by apply od_set_NoDup. Qed.
(** Pairing owes nothing to time: a row and a span are paired exactly when the span is the
    only one that reports its id and the row is the one that the log has for this id. *)
Lemma obi_pairs_iff rows spans ids truth paired :
  map_res (λ s, t ← text_field "traceID" "" s; Ok ((t, s) : string * json)) spans = Ok ids →
  truth_rows rows = Ok truth → obi_pairs rows spans = Ok paired →
  ∀ r s, (r, s) ∈ paired ↔ ∃ t, truth !! t = Some r ∧ under t ids = [s].
Proof.
  intros Ei Et Ep r s. unfold obi_pairs, by_tid in Ep. rewrite Ei, Et in Ep. cbn [mbind res_bind] in Ep. injection Ep as <-.
  rewrite list_elem_of_omap. split.
  - intros ([t l] & Hin & Hs). apply (od_get_in _ _ _ (add_spans_once ids)) in Hin. rewrite add_spans_get in Hin.
    case_bool_decide; [done|]. injection Hin as <-. unfold single in Hs. cbn [fst snd] in Hs. exists t.
    destruct (truth !! t) as [r'|], (under t ids) as [|s' [|]]; try done. by injection Hs as -> ->.
  - intros (t & Er & Eu). exists (t, [s]). split; [|unfold single; cbn [fst snd]; by rewrite Er].
    apply od_get_elem. rewrite add_spans_get, Eu. by rewrite bool_decide_eq_false_2.
Qed.
