(* ===== verification/Freezes.v ===== *)
(** * Freezes: requests that were held and released together

    [m0-harness/freezes.py]: the delays between load-gen and fake-upstream, the freezes
    among them and the report of a cell.  The CPU samples ([cpu], [_clock]: text of pidstat
    and mpstat, averaged in floats) and the files are not modelled. *)

From Stdlib Require Import SpecFloat.
From S2P Require Import Prelude DecimalText Json Floats Harness ExactPath AnalyzeRun H1Timestamps.

Definition FREEZE_DELAY_US : Z := 20000.
Definition FREEZE_MIN : Z := 10.
(** [truth-([0-9a-f]+)] *)
Definition TRUTH : string → option string :=
  search (λ s, r ← strip_prefix "truth-" s;
               let '(id, _) := span_hex r in if bool_decide (id = ""%string) then None else Some id).
(** [ordered[min(len(ordered) - 1, int(p * len(ordered)))]] *)
Definition quantile (values : list Z) (p : float) : res Z :=
  let ordered := sorted values in
  let n := Z.of_nat (length ordered) in
  rank ← trunc (fmul p (float_of_int n));
  let i := Z.min (n - 1) rank in
  get (if i <? 0 then None else ordered !! Z.to_nat i) IndexError.

(** A delay in microseconds, and the time of its release in nanoseconds. *)
Notation Sample := (Z * Z)%type (only parsing).
Record Delays := mkDelays { arrival : list Sample; answer : list Sample }.
(** The two samples of a row of fake-upstream. *)
Definition row_delays (sent : gmap string json) (row : json) : res (option (Sample * Sample)) :=
  path ← text_field "path" "" row;
  match TRUTH path ≫= λ t, sent !! t with
  | None => Ok None
  | Some lg =>
      if negb (is_truthy (field "arrival_ns" row)) then Ok None
      else
        at_ns ← number_at "arrival_ns" row;
        lg_sent ← number_at "timestamp_ns" lg;
        lg_duration ← number_at "duration_ns" lg;
        answered ← number_at "timestamp_ns" row;
        let received := lg_sent + lg_duration in
        Ok (Some (((at_ns - lg_sent) / 1000, at_ns), ((received - answered) / 1000, received)))
  end.
Definition delays (lg fu : list json) : res Delays :=
  sent ← truth_rows lg;
  rows ← map_res (row_delays sent) fu;
  let found := omap (M := list) id rows in
  Ok (mkDelays (fst <$> found) (snd <$> found)).

(** Release millisecond -> number of requests, in the order they are met. *)
Definition add_release (d : odict Z Z) (ms : Z) : odict Z Z := od_set ms (default 0 (od_get ms d) + 1) d.
Definition held (samples : list (Z * Z)) : list Z :=
  (λ s : Z * Z, s.2 / 1000000) <$> List.filter (λ s : Z * Z, FREEZE_DELAY_US <? s.1) samples.
Definition freezes (samples : list (Z * Z)) : odict Z Z :=
  List.filter (λ e : Z * Z, FREEZE_MIN <=? e.2) (foldl add_release [] (held samples)).

(** The report of one kind of delay; the CPU part is not modelled. *)
Record KindReport := mkKindReport {
  kr_n : Z; kr_p50_us : Z; kr_p99_us : Z; kr_p999_us : Z; kr_max_us : Z; kr_freezes : Z; kr_largest_freeze : Z
}.
Definition kind_report (samples : list (Z * Z)) : res (option KindReport) :=
  match samples with
  | [] => Ok None
  | (d, _) :: rest =>
      let values := fst <$> samples in
      let sizes := reverse (sorted (snd <$> freezes samples)) in
      p50 ← quantile values (true_div 5 10);
      p99 ← quantile values (true_div 99 100);
      p999 ← quantile values (true_div 999 1000);
      Ok (Some (mkKindReport (Z.of_nat (length values)) p50 p99 p999 (max_of d (fst <$> rest)) (Z.of_nat (length sizes))
                  (default 0 (head sizes))))
  end.
Definition analyze_cell (lg fu : list json) : res (option KindReport * option KindReport) :=
  d ← delays lg fu; a ← kind_report (arrival d); b ← kind_report (answer d); Ok (a, b).

(** The cell of the tests: thirty calm requests, and twelve held and released together. *)
Definition ex_request (truth : string) (sent at_ns answered received : Z) : json * json :=
  (JObj [("trace_id", JStr truth); ("timestamp_ns", JInt sent); ("duration_ns", JInt (received - sent))],
   JObj [("path", JStr ("/truth-" +:+ truth)); ("arrival_ns", JInt at_ns); ("timestamp_ns", JInt answered)])%string.
Definition MS : Z := 1000000.
Definition T0 : Z := 1792000000000000000.
Definition ex_cell : list (json * json) :=
  ((λ k, let t := T0 + Z.of_nat k * 10 * MS in ex_request ("c" +:+ str_Z (Z.of_nat k)) t (t + MS) (t + 41 * MS) (t + 42 * MS)) <$> seq 0 30) ++
  ((λ k, let t := T0 + Z.of_nat k * MS in let r := T0 + 200 * MS in
         ex_request ("b" +:+ str_Z (Z.of_nat k)) t r (r + 40 * MS) (r + 41 * MS)) <$> seq 0 12).
Example analyze_cell_ex :
  (r ← analyze_cell ex_cell.*1 ex_cell.*2;
   Ok (option_map (λ a, (kr_n a, kr_p50_us a, kr_max_us a, kr_freezes a, kr_largest_freeze a)) r.1, option_map kr_freezes r.2)) =
  Ok (Some (42, 1000, 200000, 1, 12), Some 0).
Proof. vm_compute. reflexivity. Qed.
Example freezes_ex :
  (freezes (replicate 9 (30000, T0)), freezes (replicate 20 (FREEZE_DELAY_US, T0)),
   freezes ((λ k, (30000, T0 + Z.of_nat k * MS)) <$> seq 0 20)) = ([], [], []).
Proof. vm_compute. reflexivity. Qed.

(** A freeze is a millisecond in which at least ten held requests were released, with their
    number, each once. *)
Lemma releases_get l ms : default 0 (od_get ms (foldl add_release [] l)) = count (λ x, bool_decide (x = ms)) l ∧
  (ms ∈ (foldl add_release [] l).*1 → 0 < count (λ x, bool_decide (x = ms)) l).
Proof.
  induction l as [|x l IH] using rev_ind; [split; [done|by intros ?%not_elem_of_nil]|].
  rewrite foldl_app, count_snoc. cbn [foldl]. set (d := foldl add_release [] l) in *. unfold add_release.
  rewrite od_get_set, od_set_keys. destruct IH as [I1 I2]. pose proof (count_nonneg (λ x, bool_decide (x = ms)) l).
  destruct (decide (x = ms)) as [-> |Hne].
  - rewrite bool_decide_eq_true_2 by done. split; [simpl; lia|lia].
  - rewrite bool_decide_eq_false_2, Z.add_0_r by done. split; [done|]. intros [->|?]; [done|auto].
Qed.
Lemma releases_once l : NoDup (foldl add_release [] l).*1.
Proof. apply foldl_inv; [apply NoDup_nil_2|]. intros d e _ Hd. by apply od_set_NoDup. Qed.
Lemma freezes_iff samples ms n :
  (ms, n) ∈ freezes samples ↔ n = count (λ x, bool_decide (x = ms)) (held samples) ∧ FREEZE_MIN <= n.
Proof.
  unfold freezes. rewrite elem_of_filter_bool. cbn [snd]. rewrite Z.leb_le.
  pose proof (releases_get (held samples) ms) as [E _]. split.
  - intros [Hin Hn]. split; [|done]. rewrite (od_get_in _ _ _ (releases_once _) Hin) in E. done.
  - intros [-> Hn]. split; [|done]. unfold FREEZE_MIN in Hn. apply od_get_elem.
    destruct (od_get ms (foldl add_release [] (held samples))); simpl in E; [by rewrite E|lia].
Qed.
