(* ===== verification/Timing.v ===== *)
(** * Timing: links derived from when the two sides happened

    [correlation/timing.py].  Where no identifier crosses a hop, a pair is a
    candidate when its gaps are inside every calibrated window; [assign] decides
    each component of candidates with a margin, and a density guard withdraws the
    pairs found where observations crowd.  Times are integers of microseconds. *)

From S2P Require Import Prelude Topology Assignment Dedup.

(** ** Data *)

Definition SIDES : list string := ["inbound"; "outbound"]%string.
Definition SIGNALS : list string := ["start"; "end"; "duration"]%string.
Notation Identity := (string * Z)%type (only parsing).

Record Timed := mkTimed {
  o_source : string;
  o_seq : Z;
  o_point : string;
  o_side : string;
  o_start_us : Z;
  o_end_us : Z
}.
Record Signal := mkSignal { s_name : string; s_offset_us : Z; s_window_us : Z }.
Record JoinParams := mkParams {
  jp_signals : list Signal;
  jp_margin_us : Z;
  jp_max_component : Z;
  jp_local_span_us : Z;
  jp_local_limit_permille : Z
}.
Record Candidate := mkCandidate { k_upstream : Identity; k_downstream : Identity; k_weight : Z }.
Record DerivedLink := mkDerived {
  dl_where : string;
  dl_upstream : Identity;
  dl_downstream : Identity;
  dl_weight : Z
}.
Record Undecided := mkUndecided {
  un_where : string;
  un_observation : Identity;
  un_side : string;
  un_status : Status
}.
Record Result := mkResult {
  r_links : list DerivedLink;
  r_undecided : list Undecided;
  r_duplicates_dropped : Z;
  r_components : list (string * Z)
}.
Global Instance Timed_eq_dec : EqDecision Timed.
Proof. solve_decision. Defined.
Global Instance Candidate_eq_dec : EqDecision Candidate.
Proof. solve_decision. Defined.

Definition identity (o : Timed) : Identity := (o_source o, o_seq o).

(** ** Gaps and windows *)

(** The name of a signal is one of [SIGNALS]; anything else reads as a duration. *)
Definition _gap (name : string) (a b : Timed) : Z :=
  if bool_decide (name = "start"%string) then o_start_us b - o_start_us a
  else if bool_decide (name = "end"%string) then o_end_us a - o_end_us b
  else (o_end_us a - o_start_us a) - (o_end_us b - o_start_us b).
Definition _reference (name : string) (b : Timed) : Z :=
  if bool_decide (name = "start"%string) then o_start_us b
  else if bool_decide (name = "end"%string) then o_end_us b
  else o_end_us b - o_start_us b.
Definition _range (signal : Signal) (a : Timed) : Z * Z :=
  let m := s_offset_us signal in
  let w := s_window_us signal in
  if bool_decide (s_name signal = "start"%string) then (o_start_us a + m - w, o_start_us a + m + w)
  else if bool_decide (s_name signal = "end"%string) then (o_end_us a - m - w, o_end_us a - m + w)
  else let duration := o_end_us a - o_start_us a in (duration - m - w, duration - m + w).

Definition zsum_of {A} (f : A → Z) (l : list A) : Z := foldr (λ x s, f x + s) 0 l.

Definition validate_signal (s : Signal) : res unit :=
  _ ← check (bool_decide (s_name s ∈ SIGNALS)) (ValueError "unknown signal");
  check (0 <? s_window_us s) (ValueError "window must be > 0").
Definition _validate_params (p : JoinParams) : res unit :=
  let n := Z.of_nat (length (jp_signals p)) in
  _ ← check ((1 <=? n) && (n <=? 2)) (ValueError "a join takes one or two signals");
  _ ← check (bool_decide (NoDup (s_name <$> jp_signals p))) (ValueError "a signal is given twice");
  _ ← fold_res (λ _ s, validate_signal s) (jp_signals p) tt;
  _ ← check (1 + zsum_of s_window_us (jp_signals p) <=? MAX_WEIGHT) (ValueError "windows too wide");
  _ ← check (0 <=? jp_local_span_us p) (ValueError "local_span_us must be an integer >= 0");
  check ((1 <=? jp_local_limit_permille p) && (jp_local_limit_permille p <=? 1000))
    (ValueError "local_limit_permille must be an integer in 1..1000").

(** ** Candidates *)

Definition in_windows (params : JoinParams) (a b : Timed) : bool :=
  forallb (λ s, Z.abs (_gap (s_name s) a b - s_offset_us s) <=? s_window_us s) (jp_signals params).
Definition pair_weight (params : JoinParams) (a b : Timed) : Z :=
  1 + zsum_of (λ s, s_window_us s - Z.abs (_gap (s_name s) a b - s_offset_us s)) (jp_signals params).
Definition candidates (upstream downstream : list Timed) (params : JoinParams)
    : res (list Candidate) :=
  _ ← _validate_params params;
  first ← get (head (jp_signals params)) IndexError;
  let downs := sorted_by (λ b, (_reference (s_name first) b, o_source b, o_seq b)) downstream in
  let refs := _reference (s_name first) <$> downs in
  let out := upstream ≫= λ a,
    let '(low, high) := _range first a in
    omap (λ b,
        if in_windows params a b
        then Some (mkCandidate (identity a) (identity b) (pair_weight params a b))
        else None)
      (slice (bisect_left refs low) (bisect_right refs high) downs) in
  Ok (sorted_by (λ c, (k_upstream c, k_downstream c)) out).

(** ** The density guard *)

Definition _crowded (others : Z) (p : JoinParams) : res bool :=
  first ← get (head (jp_signals p)) IndexError;
  Ok (jp_local_span_us p * jp_local_limit_permille p <? others * s_window_us first * 1000).
(** The number of other observations within the span of [x]. *)
Definition others (span : Z) (ordered : list Z) (x : Z) : Z :=
  Z.of_nat (bisect_right ordered (x + span)) - Z.of_nat (bisect_left ordered (x - span)) - 1.
Definition _crowding (ups downs : list Timed) (p : JoinParams) (a b : Identity) : res bool :=
  first ← get (head (jp_signals p)) IndexError;
  let span := jp_local_span_us p in
  let up_at : gmap Identity Z := list_to_map ((λ o, (identity o, o_start_us o)) <$> ups) in
  let down_at : gmap Identity Z :=
    list_to_map ((λ o, (identity o, _reference (s_name first) o)) <$> downs) in
  let up_sorted := sorted (map_to_list up_at).*2 in
  let down_sorted := sorted (map_to_list down_at).*2 in
  x ← get (up_at !! a) KeyError;
  y ← get (down_at !! b) KeyError;
  _crowded (Z.max (others span up_sorted x) (others span down_sorted y)) p.

(** ** Redelivery *)

Definition _validate (points : gset string) (o : Timed) : res unit :=
  _ ← check (bool_decide (o_point o ∈ points)) (ValueError "unknown point");
  _ ← check (bool_decide (o_side o ∈ SIDES)) (ValueError "side must be inbound or outbound");
  check (negb (o_end_us o <? o_start_us o)) (ValueError "observation ends before it starts").
Definition content (o : Timed) : string * string * Z * Z :=
  (o_point o, o_side o, o_start_us o, o_end_us o).
Definition point_names (topology : Topology) : gset string :=
  list_to_set (p_name <$> t_points topology).
Definition _deduplicated (topology : Topology) (os : list Timed) : res (list Timed * Z) :=
  deduplicate (_validate (point_names topology)) identity content os.

(** ** One hop *)

(** [{i: f"u{n:09d}" for n, i in enumerate(sorted(identities))}] *)
Definition numbered (prefix : string) (ids : list Identity) : odict Identity string :=
  imap (λ n i, (i, prefix +:+ zero_padded 9 (N.of_nat n))) (sorted ids).
(** [{v: k for k, v in ids.items()}] *)
Definition inverse (ids : odict Identity string) : odict string Identity :=
  (λ e, (e.2, e.1)) <$> ids.

(** The links, the undecided and the components of one hop. *)
Notation Joined := (list DerivedLink * list Undecided * list (string * Z))%type (only parsing).

Section hop.
Context (where_ : string) (p : JoinParams) (ups downs : list Timed)
  (back : odict string Identity) (weights : gmap (Identity * Identity) Z).

Definition decide_up (st : list DerivedLink * list Undecided) (d : ADecision)
    : res (list DerivedLink * list Undecided) :=
  let '(links, undecided) := st in
  me ← get (od_get (d_id d) back) KeyError;
  if negb (bool_decide (d_status d = MATCHED))
  then Ok (links, undecided ++ [mkUndecided where_ me "outbound" (d_status d)])
  else
    partner ← get (d_partner d ≫= λ y, od_get y back) KeyError;
    crowded ← if jp_local_span_us p =? 0 then Ok false else _crowding ups downs p me partner;
    if (crowded : bool)
    then Ok (links, undecided ++ [mkUndecided where_ me "outbound" DENSE;
                                  mkUndecided where_ partner "inbound" DENSE])
    else
      w ← get (weights !! (me, partner)) KeyError;
      Ok (links ++ [mkDerived where_ me partner w], undecided).
Definition decide_down (undecided : list Undecided) (d : ADecision) : res (list Undecided) :=
  if bool_decide (d_status d = MATCHED) then Ok undecided
  else
    me ← get (od_get (d_id d) back) KeyError;
    Ok (undecided ++ [mkUndecided where_ me "inbound" (d_status d)]).
End hop.

Definition join_hop (where_ : string) (p : JoinParams) (ups downs : list Timed) : res Joined :=
  found ← candidates ups downs p;
  let up_ids := numbered "u" (identity <$> ups) in
  let down_ids := numbered "d" (identity <$> downs) in
  let back := inverse up_ids ++ inverse down_ids in
  let weights : gmap (Identity * Identity) Z :=
    list_to_map (reverse ((λ c, ((k_upstream c, k_downstream c), k_weight c)) <$> found)) in
  edges ← map_res (λ c,
      u ← get (od_get (k_upstream c) up_ids) KeyError;
      d ← get (od_get (k_downstream c) down_ids) KeyError;
      Ok (mkEdge u d (k_weight c))) found;
  decided ← assign up_ids.*2 down_ids.*2 edges (jp_margin_us p) (jp_max_component p);
  let components :=
    (λ c, (where_, Z.of_nat (length (c_left c)) + Z.of_nat (length (c_right c))))
      <$> Assignment.r_components decided in
  '(links, undecided) ← fold_res (decide_up where_ p ups downs back weights) (r_left decided) ([], []);
  undecided ← fold_res (decide_down where_ back) (r_right decided) undecided;
  Ok (links, undecided, components).

(** ** All the hops *)

(** [{f"{h.src} -> {h.dst}": h for h in topology.hops if h.link is NESTED_TIMING}] *)
Definition timing_hops (topology : Topology) : odict string HopCeiling :=
  foldl (λ d h, od_set (hop_where (hc_src h) (hc_dst h)) h d) []
    (List.filter (λ h, bool_decide (hc_link h = NESTED_TIMING)) (t_hops topology)).
Definition by_side_of (os : list Timed) : gmap (string * string) (list Timed) :=
  group ((λ o, ((o_point o, o_side o), o)) <$> os).
Definition check_hop_params (hops : odict string HopCeiling) (e : string * JoinParams) : res unit :=
  _ ← check (bool_decide (is_Some (od_get e.1 hops))) (ValueError "not a timing-derived hop");
  _validate_params e.2.
Definition join_one (hops : odict string HopCeiling)
    (by_side : gmap (string * string) (list Timed)) (st : Joined) (e : string * JoinParams)
    : res Joined :=
  let '(links, undecided, components) := st in
  hop ← get (od_get e.1 hops) KeyError;
  '(l, u, c) ← join_hop e.1 e.2 (at_key by_side (hc_src hop, "outbound"%string))
                                (at_key by_side (hc_dst hop, "inbound"%string));
  Ok (links ++ l, undecided ++ u, components ++ c).
(** [params]: a mapping from the name of a hop; [sorted(params)] orders its keys. *)
Definition timed_links (topology : Topology) (os : list Timed) (params : odict string JoinParams)
    : res Result :=
  let hops := timing_hops topology in
  _ ← fold_res (λ _ e, check_hop_params hops e) params tt;
  '(distinct, dropped) ← _deduplicated topology os;
  '(links, undecided, components) ←
    fold_res (join_one hops (by_side_of distinct)) (sorted_by fst params) ([], [], []);
  Ok (mkResult
        (sorted_by (λ x, (dl_where x, dl_upstream x)) links)
        (sorted_by (λ x, (un_where x, un_side x, un_observation x)) undecided)
        dropped components).

(** ** Lemmas: candidates *)

(** A gap inside the window puts the downstream reference in the searched range. *)
Lemma range_spec s a b : let '(low, high) := _range s a in
  ((low <=? _reference (s_name s) b) && (_reference (s_name s) b <=? high)) =
  (Z.abs (_gap (s_name s) a b - s_offset_us s) <=? s_window_us s).
Proof.
  unfold _range, _reference, _gap. repeat case_bool_decide;
    apply eq_bool_prop_intro; rewrite andb_True, !Is_true_true, !Z.leb_le; lia.
Qed.

(** The candidates of one upstream observation. *)
Definition pairs_of (p : JoinParams) (downs : list Timed) (a : Timed) : list Candidate :=
  omap (λ b, if in_windows p a b
             then Some (mkCandidate (identity a) (identity b) (pair_weight p a b)) else None) downs.

Lemma elem_of_pairs p downs a c : c ∈ pairs_of p downs a ↔
  ∃ b, b ∈ downs ∧ in_windows p a b = true ∧
    c = mkCandidate (identity a) (identity b) (pair_weight p a b).
Proof.
  unfold pairs_of. rewrite list_elem_of_omap. apply exist_proper. intros b.
  destruct (in_windows p a b); naive_solver.
Qed.

Lemma omap_filter {A B} (f : A → option B) (q : A → bool) l :
  (∀ x, x ∈ l → is_Some (f x) → q x = true) → omap f (List.filter q l) = omap f l.
Proof.
  induction l as [|x l IH]; intros H; [done|]. cbn [List.filter omap list_omap].
  assert (omap f (List.filter q l) = omap f l) as E by (apply IH; intros; apply H; [by right|done]).
  destruct (q x) eqn:Eq; cbn [omap list_omap]; rewrite E; [done|].
  destruct (f x) eqn:Ef; [|done]. rewrite H in Eq; [done|left|by rewrite Ef].
Qed.

(** The binary search loses no pair: the candidates of [a] are those of the whole
    downstream list. *)
Lemma searched_pairs p first rest downs a : jp_signals p = first :: rest →
  let sorted_downs := sorted_by (λ b, (_reference (s_name first) b, o_source b, o_seq b)) downs in
  let '(low, high) := _range first a in
  let refs := _reference (s_name first) <$> sorted_downs in
  pairs_of p (slice (bisect_left refs low) (bisect_right refs high) sorted_downs) a ≡ₚ
  pairs_of p downs a.
Proof.
  intros Hs sd. destruct (_range first a) as [low high] eqn:Er. cbv zeta.
  rewrite slice_between.
  - unfold pairs_of at 1. rewrite omap_filter.
    + unfold pairs_of, sd. by rewrite sorted_by_perm.
    + intros b _. unfold in_windows. rewrite Hs. cbn [forallb].
      pose proof (range_spec first a b) as Hr. rewrite Er in Hr. rewrite Hr.
      destruct (Z.abs _ <=? _); [done|]. by intros [].
  - pose proof (sorted_by_sorted (λ b, (_reference (s_name first) b, o_source b, o_seq b)) downs) as H.
    fold sd in H. eapply StronglySorted_weaken; [|exact H].
    intros x y Hxy. by apply cmp_le_fst, cmp_le_fst in Hxy.
Qed.

Lemma validated_head p : _validate_params p = Ok tt → ∃ first rest, jp_signals p = first :: rest.
Proof.
  unfold _validate_params. intros H. apply bind_Ok in H as (? & H & _). apply check_Ok in H.
  destruct (jp_signals p); [done|eauto].
Qed.

(** The unsorted candidates. *)
Definition all_pairs (p : JoinParams) (ups downs : list Timed) : list Candidate :=
  ups ≫= pairs_of p downs.

Lemma bind_perm_ext {A B} (f g : A → list B) l : (∀ x, x ∈ l → f x ≡ₚ g x) → l ≫= f ≡ₚ l ≫= g.
Proof.
  induction l as [|x l IH]; intros H; [done|]. rewrite !bind_cons.
  rewrite H by left. rewrite IH; [done|]. intros; apply H; by right.
Qed.

(** A search that returns is one with valid parameters, and conversely; what it
    returns is the set of all pairs, sorted by the pair. *)
Lemma candidates_spec ups downs p out : candidates ups downs p = Ok out ↔
  _validate_params p = Ok tt ∧
  ∃ l, l ≡ₚ all_pairs p ups downs ∧ out = sorted_by (λ c, (k_upstream c, k_downstream c)) l ∧
    candidates ups downs p = Ok out.
Proof.
  split; [|by intros (_ & ? & _ & _ & ?)]. intros H. pose proof H as H0. unfold candidates in H.
  apply bind_Ok in H as ([] & Hv & H). split; [done|].
  destruct (validated_head p Hv) as (first & rest & Hs). rewrite Hs in H. cbn [head get mbind res_bind] in H.
  injection H as <-. eexists. split; [|split; [reflexivity|done]].
  unfold all_pairs. apply bind_perm_ext. intros a _.
  pose proof (searched_pairs p first rest downs a Hs) as Hp. cbv zeta in Hp.
  by destruct (_range first a).
Qed.

Lemma candidates_total ups downs p : _validate_params p = Ok tt →
  ∃ out, candidates ups downs p = Ok out.
Proof.
  intros Hv. unfold candidates. rewrite Hv. destruct (validated_head p Hv) as (f & r & ->).
  cbn. eauto.
Qed.

Lemma all_pairs_NoDup p ups downs : NoDup (identity <$> ups) → NoDup (identity <$> downs) →
  NoDup ((λ c, (k_upstream c, k_downstream c)) <$> all_pairs p ups downs).
Proof.
  intros Hu Hd. unfold all_pairs. rewrite fmap_bind. apply (NoDup_bind_keys identity).
  - done.
  - intros a _. assert (NoDup ((λ b, (identity a, identity b)) <$> downs)) as Ha.
    { apply (NoDup_fmap_2_strong (λ i, (identity a, i))) in Hd; [|by intros ? ? ? ? [= E]].
      by rewrite <- list_fmap_compose in Hd. }
    eapply sublist_NoDup; [exact Ha|]. unfold pairs_of. clear. induction downs as [|b l IH]; [done|].
    cbn [omap list_omap]. destruct (in_windows p a b); cbn; by constructor.
  - intros x y [u d] _ _ Hx Hy.
    apply list_elem_of_fmap in Hx as (cx & Ex & Hx), Hy as (cy & Ey & Hy).
    apply elem_of_pairs in Hx as (bx & _ & _ & ->), Hy as (b_y & _ & _ & ->). simpl in *. congruence.
Qed.

Lemma all_pairs_perm p ups ups' downs downs' : ups ≡ₚ ups' → downs ≡ₚ downs' →
  all_pairs p ups downs ≡ₚ all_pairs p ups' downs'.
Proof.
  intros Hu Hd. unfold all_pairs. rewrite Hu. apply bind_perm_ext. intros a _.
  unfold pairs_of. by rewrite Hd.
Qed.

Lemma candidates_perm p ups ups' downs downs' :
  NoDup (identity <$> ups) → NoDup (identity <$> downs) → ups ≡ₚ ups' → downs ≡ₚ downs' →
  candidates ups downs p = candidates ups' downs' p.
Proof.
  intros Nu Nd Hu Hd. destruct (_validate_params p) as [[]|e] eqn:Hv.
  - destruct (candidates_total ups downs p Hv) as [o Ho].
    destruct (candidates_total ups' downs' p Hv) as [o' Ho']. rewrite Ho, Ho'. f_equal.
    apply candidates_spec in Ho as (_ & l & Hl & -> & _), Ho' as (_ & l' & Hl' & -> & _).
    apply (sorted_by_unique (λ c, (k_upstream c, k_downstream c)) l l').
    + rewrite Hl, Hl'. by apply all_pairs_perm.
    + rewrite Hl. by apply all_pairs_NoDup.
  - unfold candidates. by rewrite Hv.
Qed.

(** ** Lemmas: the order of the observations does not matter *)

Lemma timed_content_inj a b : identity a = identity b → content a = content b → a = b.
Proof. destruct a, b. unfold identity, content. simpl. congruence. Qed.

Lemma crowding_perm p ups ups' downs downs' a b :
  NoDup (identity <$> ups) → NoDup (identity <$> downs) → ups ≡ₚ ups' → downs ≡ₚ downs' →
  _crowding ups downs p a b = _crowding ups' downs' p a b.
Proof.
  intros Nu Nd Hu Hd. unfold _crowding.
  assert (∀ (f : Timed → Z) (l l' : list Timed), NoDup (identity <$> l) → l ≡ₚ l' →
    (list_to_map ((λ o, (identity o, f o)) <$> l) : gmap Identity Z) =
    list_to_map ((λ o, (identity o, f o)) <$> l')) as Hm.
  { intros f l l' Hn Hp. apply list_to_map_proper; [|by rewrite Hp].
    by rewrite <- list_fmap_compose. }
  rewrite (Hm _ ups ups') by done. destruct (head (jp_signals p)) as [first|]; [|done].
  cbn [get mbind res_bind]. by rewrite (Hm _ downs downs').
Qed.

Lemma numbered_perm prefix ids ids' : ids ≡ₚ ids' → numbered prefix ids = numbered prefix ids'.
Proof. intros Hp. unfold numbered. by rewrite (sorted_perm_eq ids ids'). Qed.

Lemma join_hop_perm where_ p ups ups' downs downs' :
  NoDup (identity <$> ups) → NoDup (identity <$> downs) → ups ≡ₚ ups' → downs ≡ₚ downs' →
  join_hop where_ p ups downs = join_hop where_ p ups' downs'.
Proof.
  intros Nu Nd Hu Hd. unfold join_hop. rewrite (candidates_perm p ups ups' downs downs') by done.
  rewrite (numbered_perm _ (identity <$> ups) (identity <$> ups')) by by rewrite Hu.
  rewrite (numbered_perm _ (identity <$> downs) (identity <$> downs')) by by rewrite Hd.
  destruct (candidates _ _ _) as [found|e]; [|done]. cbn [mbind res_bind].
  destruct (map_res _ _) as [edges|e]; [|done]. cbn [mbind res_bind].
  destruct (assign _ _ _ _ _) as [decided|e]; [|done]. cbn [mbind res_bind].
  erewrite fold_res_ext; [reflexivity|]. intros [links undecided] d _. unfold decide_up.
  destruct (od_get _ _) as [me|]; [|done]. cbn [get mbind res_bind].
  destruct (negb _); [done|]. destruct (d_partner d ≫= _) as [partner|]; [|done]. cbn [get mbind res_bind].
  destruct (_ =? 0); [done|]. by rewrite (crowding_perm p ups ups' downs downs').
Qed.

Lemma side_perm os os' side : os ≡ₚ os' → at_key (by_side_of os) side ≡ₚ at_key (by_side_of os') side.
Proof. intros Hp. unfold by_side_of. rewrite !at_key_group. apply under_perm. by rewrite Hp. Qed.
Lemma side_NoDup os side : NoDup (identity <$> os) →
  NoDup (identity <$> at_key (by_side_of os) side).
Proof.
  intros Hn. unfold by_side_of. rewrite at_key_group.
  rewrite (under_on (λ o, (o_point o, o_side o))). by apply NoDup_filter_bool.
Qed.

Lemma join_all_perm hops os os' l st : NoDup (identity <$> os) → os ≡ₚ os' →
  fold_res (join_one hops (by_side_of os)) l st = fold_res (join_one hops (by_side_of os')) l st.
Proof.
  intros Hn Hp. apply fold_res_ext. intros [[links undecided] comps] [w p] _. unfold join_one.
  destruct (od_get _ _) as [hop|]; [|done]. cbn [get mbind res_bind fst snd].
  by rewrite (join_hop_perm w p _ (at_key (by_side_of os') (hc_src hop, "outbound"%string))
       _ (at_key (by_side_of os') (hc_dst hop, "inbound"%string)))
    by (apply side_NoDup, Hn || apply side_perm, Hp).
Qed.

Lemma weight_bounds p a b : _validate_params p = Ok tt → in_windows p a b = true →
  1 <= pair_weight p a b <= MAX_WEIGHT.
Proof.
  unfold _validate_params, pair_weight, in_windows. intros Hv Hw.
  apply bind_Ok in Hv as (? & _ & Hv). apply bind_Ok in Hv as (? & _ & Hv).
  apply bind_Ok in Hv as (? & _ & Hv). apply bind_Ok in Hv as (? & Hv & _).
  apply check_Ok, Z.leb_le in Hv. rewrite forallb_forall in Hw.
  enough (0 <= zsum_of (λ s, s_window_us s - Z.abs (_gap (s_name s) a b - s_offset_us s)) (jp_signals p)
          <= zsum_of s_window_us (jp_signals p)) by lia.
  clear Hv. induction (jp_signals p) as [|s l IH]; [done|]. simpl.
  pose proof (Hw s ltac:(by left)) as Hs%Z.leb_le.
  assert (∀ x, In x l → (Z.abs (_gap (s_name x) a b - s_offset_us x) <=? s_window_us x) = true) as Hl
    by (intros; apply Hw; by right).
  specialize (IH Hl). lia.
Qed.

(** ** Guarantees *)

(** The search by windows misses nothing and adds nothing.  Valid parameters
    always give a result, and a candidate is in it if and only if it is an upstream
    and a downstream observation whose gap is, for every signal, within the window
    of its usual offset; its weight is one plus the slack left in each window, and
    lies in the range the assignment accepts. *)
Theorem candidates_iff ups downs p : _validate_params p = Ok tt →
  ∃ out, candidates ups downs p = Ok out ∧
    ∀ c, (c ∈ out ↔ ∃ a b, a ∈ ups ∧ b ∈ downs ∧
       (∀ s, s ∈ jp_signals p → Z.abs (_gap (s_name s) a b - s_offset_us s) <= s_window_us s) ∧
       c = mkCandidate (identity a) (identity b) (pair_weight p a b)) ∧
    (c ∈ out → 1 <= k_weight c <= MAX_WEIGHT).
Proof.
  intros Hv. destruct (candidates_total ups downs p Hv) as [out Ho]. exists out. split; [done|].
  apply candidates_spec in Ho as (_ & l & Hl & -> & _). intros c.
  rewrite elem_of_sorted_by, Hl. unfold all_pairs. rewrite list_elem_of_bind.
  setoid_rewrite elem_of_pairs. split.
  - unfold in_windows. setoid_rewrite forallb_forall. setoid_rewrite <- list_elem_of_In.
    setoid_rewrite Z.leb_le. naive_solver.
  - intros (a & (b & _ & Hw & ->) & _). by apply weight_bounds.
Qed.

(** Links derived from time do not depend on the order of the observations:
    permuting them leaves the links, the undecided, the components and the count of
    duplicates unchanged. *)
Theorem timed_order_free topology os os' params result :
  timed_links topology os params = Ok result → os ≡ₚ os' →
  timed_links topology os' params = Ok result.
Proof.
  unfold timed_links. intros H Hp. apply bind_Ok in H as ([] & Hc & H). rewrite Hc. cbn [mbind res_bind].
  apply bind_Ok in H as ([distinct dropped] & Hd & H).
  destruct (deduplicate_perm _ _ _ timed_content_inj _ _ _ _ Hp Hd) as (distinct' & Hd' & Hp').
  unfold _deduplicated. rewrite Hd'. cbn [mbind res_bind].
  apply (deduplicate_spec _ _ _ timed_content_inj) in Hd as (_ & _ & Hn & _).
  by rewrite <- (join_all_perm _ distinct distinct').
Qed.

(** ** Witnesses *)

Definition two_signals : JoinParams :=
  mkParams [mkSignal "start" 100 20; mkSignal "end" 50 20] 5 32 0 1000.
Definition timed_up : list Timed :=
  [mkTimed "a" 1 "web" "outbound" 1000 2000; mkTimed "a" 2 "web" "outbound" 5000 6000].
Definition timed_down : list Timed :=
  [mkTimed "b" 1 "db" "inbound" 1100 1950; mkTimed "b" 2 "db" "inbound" 5110 5955;
   mkTimed "b" 3 "db" "inbound" 5300 5950].
Definition timed_topology : Topology :=
  mkTopology
    [mkPoint "db" "h2" "log" None None ∅ ∅ [] ∅ true; mkPoint "web" "h1" "log" None None ∅ ∅ [] ∅ true]
    [mkHopCeiling "web" "db" "call" DERIVED NESTED_TIMING None None None None] [].
Definition timed_result : Result :=
  mkResult [mkDerived "web -> db" ("a"%string, 1) ("b"%string, 1) 41;
            mkDerived "web -> db" ("a"%string, 2) ("b"%string, 2) 26]
    [mkUndecided "web -> db" ("b"%string, 3) "inbound" NO_CANDIDATE] 1
    [("web -> db"%string, 2); ("web -> db"%string, 2)].
Definition timed_journal : list Timed :=
  timed_up ++ timed_down ++ [mkTimed "b" 3 "db" "inbound" 5300 5950].
Definition timed_params : list (string * JoinParams) := [("web -> db"%string, two_signals)].
Example timed_example : timed_links timed_topology timed_journal timed_params = Ok timed_result.
Proof. vm_compute. reflexivity. Qed.

Lemma candidates_iff_witness : ∃ out, candidates timed_up timed_down two_signals = Ok out ∧
  ∀ c, (c ∈ out ↔ ∃ a b, a ∈ timed_up ∧ b ∈ timed_down ∧
     (∀ s, s ∈ jp_signals two_signals →
        Z.abs (_gap (s_name s) a b - s_offset_us s) <= s_window_us s) ∧
     c = mkCandidate (identity a) (identity b) (pair_weight two_signals a b)) ∧
  (c ∈ out → 1 <= k_weight c <= MAX_WEIGHT).
Proof. apply (candidates_iff timed_up timed_down two_signals). reflexivity. Defined.

Lemma timed_order_free_witness :
  timed_links timed_topology (reverse timed_journal) timed_params = Ok timed_result.
Proof.
  apply (timed_order_free timed_topology timed_journal _ timed_params timed_result timed_example).
  symmetry. apply reverse_Permutation.
Defined.
