(* ===== verification/TimingTheorems.v ===== *)
(** * TimingTheorems: every observation of a timed hop is accounted for

    [correlation/timing.py] on top of the contract of [assign] ([AssignTheorems]): the
    translation of observations to assignment identifiers and back loses nothing, so the
    timed path always returns, and an observation on a side of a calibrated hop ends in
    exactly one link or one undecided entry. *)

From S2P Require Import Prelude DecimalText Topology Assignment Resolve AssignTheorems Dedup Timing.

(** ** Lemmas: lists *)

(** A loop whose body appends to two lists appends the pieces of all its elements. *)
Lemma fold_res_append {A B C} (f : list B * list C → A → res (list B * list C)) (piece : A → list B → list C → Prop) l :
  (∀ x, x ∈ l → ∃ b c, piece x b c ∧ ∀ s t, f (s, t) x = Ok (s ++ b, t ++ c)) →
  ∃ ps : list (A * (list B * list C)), ps.*1 = l ∧ (∀ p, p ∈ ps → piece p.1 p.2.1 p.2.2) ∧
    ∀ s t, fold_res f l (s, t) = Ok (s ++ (p ← ps; p.2.1), t ++ (p ← ps; p.2.2)).
Proof.
  induction l as [|x l IH]; intros H.
  { exists []. split_and!; [done|by intros ? ?%not_elem_of_nil|]. intros s t. simpl. by rewrite !app_nil_r. }
  destruct (H x ltac:(left)) as (b & c & Hp & Hf). destruct IH as (ps & E & Hps & Hfold); [intros; apply H; by right|].
  exists ((x, (b, c)) :: ps). split; [by rewrite fmap_cons, E|]. split.
  - intros p [-> |Hpp]%elem_of_cons; [done|by apply Hps].
  - intros s t. cbn [fold_res]. rewrite Hf. cbn [mbind res_bind]. by rewrite Hfold, !bind_cons, <- !app_assoc.
Qed.

(** ** The identifiers given to [assign] *)

Section numbered.
Context (prefix : string) (ids : list Identity).

Lemma numbered_keys : (numbered prefix ids).*1 = sorted ids.
Proof. unfold numbered. rewrite fmap_imap. apply list_eq. intros i. rewrite list_lookup_imap. by destruct (_ !! i). Qed.
Lemma numbered_entry i x : (i, x) ∈ numbered prefix ids → i ∈ ids ∧ ∃ n, x = prefix +:+ zero_padded 9 n.
Proof.
  intros H. split.
  - assert (i ∈ (numbered prefix ids).*1) as Hi by (apply list_elem_of_fmap; by exists (i, x)).
    rewrite numbered_keys in Hi. unfold sorted in Hi. by apply elem_of_sorted_by in Hi.
  - unfold numbered in H. apply elem_of_lookup_imap in H as (n & j & [= -> ->] & _). eauto.
Qed.
Lemma str_app_inj_l (p a b : string) : p +:+ a = p +:+ b → a = b.
Proof. induction p as [|c p IH]; intros H; [done|]. rewrite !str_app_cons in H. injection H as H. by apply IH. Qed.
Lemma numbered_names : NoDup (numbered prefix ids).*2.
Proof.
  unfold numbered. rewrite fmap_imap. generalize (sorted ids) as l. intros l.
  apply NoDup_alt. intros i j x Hi Hj. rewrite list_lookup_imap in Hi, Hj.
  destruct (l !! i), (l !! j); try done. simpl in *. injection Hi as <-. injection Hj as Hj.
  apply str_app_inj_l in Hj. assert (N.of_nat i = N.of_nat j); [|lia].
  rewrite <- (zero_padded_val 9 (N.of_nat i)), <- (zero_padded_val 9 (N.of_nat j)). by f_equal.
Qed.
End numbered.

(** The names of the observations of both sides, and back. *)
Section names.
Context (ups downs : list Identity) (Hu : NoDup ups) (Hd : NoDup downs).
Notation up_ids := (numbered "u" ups).
Notation down_ids := (numbered "d" downs).
Notation back := (inverse up_ids ++ inverse down_ids).
Definition name (ids : odict Identity string) (i : Identity) : string := default ""%string (od_get i ids).

Lemma inverse_keys (d : odict Identity string) : (inverse d).*1 = d.*2.
Proof. unfold inverse. by rewrite <- list_fmap_compose. Qed.
Lemma elem_of_inverse (d : odict Identity string) x i : (x, i) ∈ inverse d ↔ (i, x) ∈ d.
Proof. unfold inverse. rewrite list_elem_of_fmap. split; [by intros ([??] & [= -> ->] & ?)|]. intros H. by exists (i, x). Qed.
Lemma back_keys : NoDup back.*1.
Proof.
  rewrite fmap_app, !inverse_keys. apply NoDup_app. split_and!; [apply numbered_names| |apply numbered_names].
  intros x ([i y] & -> & Hi)%list_elem_of_fmap ([j z] & E & Hj)%list_elem_of_fmap. simpl in E. subst z.
  apply numbered_entry in Hi as [_ [n Hn]], Hj as [_ [m Hm]]. simpl in Hn. rewrite Hn in Hm. discriminate Hm.
Qed.
Lemma numbered_get prefix ids i : i ∈ ids → ∃ x, od_get i (numbered prefix ids) = Some x ∧ name (numbered prefix ids) i = x ∧
  (i, x) ∈ numbered prefix ids.
Proof.
  intros Hi. destruct (od_get_Some i (numbered prefix ids)) as [x Hx].
  { rewrite numbered_keys. unfold sorted. by rewrite elem_of_sorted_by. }
  exists x. unfold name. rewrite Hx. split_and!; [done|done|by apply od_get_elem].
Qed.
Lemma back_up i x : (i, x) ∈ up_ids → od_get x back = Some i.
Proof. intros H. apply od_get_in; [apply back_keys|]. apply elem_of_app. left. by apply elem_of_inverse. Qed.
Lemma back_down i x : (i, x) ∈ down_ids → od_get x back = Some i.
Proof. intros H. apply od_get_in; [apply back_keys|]. apply elem_of_app. right. by apply elem_of_inverse. Qed.
(** The identity a name stands for. *)
Definition who (x : string) : Identity := default (""%string, 0) (od_get x back).
Lemma who_up i : i ∈ ups → who (name up_ids i) = i.
Proof. intros Hi. destruct (numbered_get "u" ups i Hi) as (x & _ & -> & Hx). unfold who. by rewrite (back_up i x). Qed.
Lemma who_down i : i ∈ downs → who (name down_ids i) = i.
Proof. intros Hi. destruct (numbered_get "d" downs i Hi) as (x & _ & -> & Hx). unfold who. by rewrite (back_down i x). Qed.
Lemma up_name x : x ∈ up_ids.*2 → ∃ i, i ∈ ups ∧ od_get x back = Some i ∧ x = name up_ids i.
Proof.
  intros ([i y] & -> & H)%list_elem_of_fmap. exists i. pose proof (numbered_entry _ _ _ _ H) as [Hi _].
  split_and!; [done|by apply back_up|]. unfold name. rewrite (od_get_in i _ y); [done| |done].
  rewrite numbered_keys. unfold sorted. by rewrite sorted_by_perm.
Qed.
Lemma down_name x : x ∈ down_ids.*2 → ∃ i, i ∈ downs ∧ od_get x back = Some i ∧ x = name down_ids i.
Proof.
  intros ([i y] & -> & H)%list_elem_of_fmap. exists i. pose proof (numbered_entry _ _ _ _ H) as [Hi _].
  split_and!; [done|by apply back_down|]. unfold name. rewrite (od_get_in i _ y); [done| |done].
  rewrite numbered_keys. unfold sorted. by rewrite sorted_by_perm.
Qed.
Lemma name_in prefix ids i : i ∈ ids → name (numbered prefix ids) i ∈ (numbered prefix ids).*2.
Proof.
  intros Hi. destruct (numbered_get prefix ids i Hi) as (x & _ & -> & Hx). apply list_elem_of_fmap. by exists (i, x).
Qed.
Lemma whos_up : who <$> sorted up_ids.*2 ≡ₚ ups.
Proof.
  unfold sorted. rewrite sorted_by_perm. trans (sorted ups); [|unfold sorted; by rewrite sorted_by_perm].
  rewrite <- (numbered_keys "u" ups), <- list_fmap_compose. apply reflexive_eq, list_fmap_ext.
  intros k [i x] Hk%list_elem_of_lookup_2. unfold compose, who. simpl. by rewrite (back_up i x).
Qed.
Lemma whos_down : who <$> sorted down_ids.*2 ≡ₚ downs.
Proof.
  unfold sorted. rewrite sorted_by_perm. trans (sorted downs); [|unfold sorted; by rewrite sorted_by_perm].
  rewrite <- (numbered_keys "d" downs), <- list_fmap_compose. apply reflexive_eq, list_fmap_ext.
  intros k [i x] Hk%list_elem_of_lookup_2. unfold compose, who. simpl. by rewrite (back_down i x).
Qed.
End names.

(** ** One hop *)

(** The undecided observations of a side. *)
Definition ends (side : string) (us : list Undecided) : list Identity :=
  un_observation <$> List.filter (λ u, bool_decide (un_side u = side)) us.
Lemma ends_app side us vs : ends side (us ++ vs) = ends side us ++ ends side vs.
Proof. unfold ends. by rewrite List.filter_app, fmap_app. Qed.

(** Every observation of both sides is in one link or undecided, and a link is a pair
    inside every window. *)
Record accounted (where_ : string) (p : JoinParams) (ups downs : list Timed)
    (links : list DerivedLink) (undecided : list Undecided) : Prop := {
  ac_links l : l ∈ links → dl_where l = where_ ∧ ∃ a b, a ∈ ups ∧ b ∈ downs ∧
    l = mkDerived where_ (identity a) (identity b) (pair_weight p a b) ∧ in_windows p a b = true;
  ac_undecided u : u ∈ undecided → un_where u = where_ ∧ un_status u ≠ MATCHED;
  ac_up : (dl_upstream <$> links) ++ ends "outbound" undecided ≡ₚ identity <$> ups;
  ac_down : (dl_downstream <$> links) ++ ends "inbound" undecided ≡ₚ identity <$> downs
}.

(** Pieces that each account for an element account for the list together. *)
Lemma bind_accounts {A B C K} (f : list B → list K) (g : list C → list K) (h : A → list K)
    (ps : list (A * (list B * list C))) :
  f [] = [] → g [] = [] → (∀ x y, f (x ++ y) = f x ++ f y) → (∀ x y, g (x ++ y) = g x ++ g y) →
  (∀ p, p ∈ ps → f p.2.1 ++ g p.2.2 = h p.1) →
  f (p ← ps; p.2.1) ++ g (p ← ps; p.2.2) ≡ₚ ps.*1 ≫= h.
Proof.
  intros Hf0 Hg0 Hf Hg. induction ps as [|p ps IH]; intros H; [simpl; by rewrite Hf0, Hg0|].
  rewrite fmap_cons, !bind_cons, Hf, Hg, <- H by left. rewrite <- IH by (intros; apply H; by right). solve_Permutation.
Qed.

Section hop.
Context (where_ : string) (p : JoinParams) (ups downs : list Timed).
Context (Hu : NoDup (identity <$> ups)) (Hd : NoDup (identity <$> downs)) (Hv : _validate_params p = Ok tt).
Notation up_ids := (numbered "u" (identity <$> ups)).
Notation down_ids := (numbered "d" (identity <$> downs)).
Notation who' := (who (identity <$> ups) (identity <$> downs)).
Notation back := (inverse up_ids ++ inverse down_ids).
Definition edge_of (c : Candidate) : Edge :=
  mkEdge (name up_ids (k_upstream c)) (name down_ids (k_downstream c)) (k_weight c).

Lemma crowding_total a b : a ∈ identity <$> ups → b ∈ identity <$> downs → ∃ v, _crowding ups downs p a b = Ok v.
Proof.
  intros Ha Hb. unfold _crowding, _crowded. destruct (validated_head p Hv) as (first & rest & ->).
  cbn [head get mbind res_bind].
  assert (∀ (f : Timed → Z) (l : list Timed) i, i ∈ identity <$> l →
    ∃ z, (list_to_map ((λ o, (identity o, f o)) <$> l) : gmap Identity Z) !! i = Some z) as Hget.
  { intros f l i Hi. destruct (_ !! i) eqn:E; [eauto|]. exfalso. eapply not_elem_of_list_to_map in E.
    by rewrite <- list_fmap_compose in E. }
  destruct (Hget o_start_us ups a Ha) as [x ->], (Hget (_reference (s_name first)) downs b Hb) as [y ->]. simpl. eauto.
Qed.

Context (found : list Candidate) (Hfound : found ≡ₚ all_pairs p ups downs).
Notation weights := (list_to_map (reverse ((λ c, ((k_upstream c, k_downstream c), k_weight c)) <$> found)) : gmap (Identity * Identity) Z).

Lemma found_spec c : c ∈ found ↔ ∃ a b, a ∈ ups ∧ b ∈ downs ∧ in_windows p a b = true ∧
  c = mkCandidate (identity a) (identity b) (pair_weight p a b).
Proof. rewrite Hfound. unfold all_pairs. rewrite list_elem_of_bind. setoid_rewrite elem_of_pairs. naive_solver. Qed.
Lemma found_ends c : c ∈ found → k_upstream c ∈ identity <$> ups ∧ k_downstream c ∈ identity <$> downs.
Proof. intros (a & b & Ha & Hb & _ & ->)%found_spec. simpl. split; apply list_elem_of_fmap; eauto. Qed.
Lemma found_weight c : c ∈ found → weights !! (k_upstream c, k_downstream c) = Some (k_weight c).
Proof.
  intros Hc. apply elem_of_list_to_map.
  - rewrite fmap_reverse, <- list_fmap_compose, reverse_Permutation. change (fst ∘ _) with (λ c, (k_upstream c, k_downstream c)).
    rewrite Hfound. by apply all_pairs_NoDup.
  - rewrite elem_of_reverse. apply list_elem_of_fmap. eauto.
Qed.
Lemma edges_NoDup : NoDup ((λ e, (e_left e, e_right e)) <$> (edge_of <$> found)).
Proof.
  rewrite <- list_fmap_compose. assert (NoDup found) as Hn.
  { eapply NoDup_fmap_1. rewrite Hfound. by apply all_pairs_NoDup. }
  apply NoDup_fmap_2_strong; [|done]. intros c c' Hc Hc' [= E1 E2].
  destruct (found_ends c Hc) as [Hcu Hcd], (found_ends c' Hc') as [Hcu' Hcd'].
  assert (k_upstream c = k_upstream c' ∧ k_downstream c = k_downstream c') as [Eu Ed].
  { split; [rewrite <- (who_up _ (identity <$> downs) _ Hcu), E1|rewrite <- (who_down (identity <$> ups) _ _ Hcd), E2];
      [by apply who_up|by apply who_down]. }
  pose proof (found_weight c Hc) as Hw. rewrite Eu, Ed, (found_weight c' Hc') in Hw. injection Hw as Hw.
  destruct c, c'. simpl in *. congruence.
Qed.

Context (decided : AResult) (Hdec : assigned up_ids.*2 down_ids.*2 (weights_of (edge_of <$> found)) (jp_margin_us p)
  (jp_max_component p) decided) (Hmargin : 0 <= jp_margin_us p).

(** The partner of a matched decision, as an observation. *)
Definition partner_of (d : ADecision) : list Identity :=
  match d_status d, d_partner d with MATCHED, Some y => [who' y] | _, _ => [] end.
Record up_piece (d : ADecision) (links : list DerivedLink) (undecided : list Undecided) : Prop := {
  pc_links l : l ∈ links → dl_where l = where_ ∧ ∃ a b, a ∈ ups ∧ b ∈ downs ∧
    l = mkDerived where_ (identity a) (identity b) (pair_weight p a b) ∧ in_windows p a b = true;
  pc_undecided u : u ∈ undecided → un_where u = where_ ∧ un_status u ≠ MATCHED;
  pc_up : (dl_upstream <$> links) ++ ends "outbound" undecided = [who' (d_id d)];
  pc_down : (dl_downstream <$> links) ++ ends "inbound" undecided = partner_of d
}.

Lemma edge_known x y : is_Some (weights_of (edge_of <$> found) !! (x, y)) →
  ∃ c, c ∈ found ∧ x = name up_ids (k_upstream c) ∧ y = name down_ids (k_downstream c).
Proof.
  intros [n Hn]. apply weights_of_spec in Hn; [|by apply edges_NoDup].
  apply list_elem_of_fmap in Hn as (c & [= -> -> _] & Hc). eauto.
Qed.
Lemma left_name d : d ∈ r_left decided → ∃ i, i ∈ identity <$> ups ∧ od_get (d_id d) back = Some i ∧ d_id d = name up_ids i.
Proof.
  intros Hin. apply up_name; [done|]. assert (d_id d ∈ d_id <$> r_left decided) as H by (apply list_elem_of_fmap; eauto).
  rewrite (as_left _ _ _ _ _ _ Hdec) in H. unfold sorted in H. by rewrite elem_of_sorted_by in H.
Qed.
Lemma right_name d : d ∈ r_right decided → ∃ i, i ∈ identity <$> downs ∧ od_get (d_id d) back = Some i.
Proof.
  intros Hin. assert (d_id d ∈ d_id <$> r_right decided) as H by (apply list_elem_of_fmap; eauto).
  rewrite (as_right _ _ _ _ _ _ Hdec) in H. unfold sorted in H. rewrite elem_of_sorted_by in H.
  destruct (down_name (identity <$> ups) (identity <$> downs) Hd (d_id d) H) as (i & ? & ? & _). eauto.
Qed.
Lemma decide_up_piece d : d ∈ r_left decided → ∃ links undecided, up_piece d links undecided ∧
  ∀ s t, decide_up where_ p ups downs back weights (s, t) d = Ok (s ++ links, t ++ undecided).
Proof.
  intros Hin. destruct (left_name d Hin) as (i & Hi & Eb & Ei).
  assert (who' (d_id d) = i) as Ew by (unfold who; by rewrite Eb).
  unfold decide_up, partner_of. rewrite Eb. cbn [get mbind res_bind].
  destruct (decide (d_status d = MATCHED)) as [Em|Em].
  2: { rewrite bool_decide_eq_false_2 by done. simpl. exists [], [mkUndecided where_ i "outbound" (d_status d)].
       split; [|intros s t; by rewrite app_nil_r]. split; simpl.
       - by intros l ?%not_elem_of_nil.
       - by intros u ->%list_elem_of_singleton.
       - by rewrite Ew.
       - unfold partner_of. by destruct (d_status d). }
  rewrite bool_decide_eq_true_2 by done. cbn [negb].
  destruct (matched_left Hdec Hmargin d) as (y & Ep & (c & Hc & Ex & ->)%edge_known & _); [|done|done|].
  { intros x y (c & Hc & _ & ->)%edge_known. apply name_in. by apply found_ends. }
  destruct (found_ends c Hc) as [Hcu Hcd].
  assert (k_upstream c = i) as Eu.
  { rewrite <- Ew, Ex. symmetry. by apply who_up. }
  destruct (numbered_get "d" (identity <$> downs) (k_downstream c) Hcd) as (z & _ & Ez & Hz).
  assert (od_get z back = Some (k_downstream c)) as Ebz by by apply back_down.
  assert (who' z = k_downstream c) as Ewz by (unfold who; by rewrite Ebz).
  rewrite Ep, Ez. cbn [mbind option_bind]. rewrite Ebz. cbn [get mbind res_bind].
  assert (∃ v, (if jp_local_span_us p =? 0 then Ok false else _crowding ups downs p i (k_downstream c)) = Ok v) as [v ->].
  { destruct (_ =? 0); [eauto|]. by apply crowding_total. }
  cbn [mbind res_bind]. destruct v.
  - exists [], [mkUndecided where_ i "outbound" DENSE; mkUndecided where_ (k_downstream c) "inbound" DENSE].
    split; [|intros s t; by rewrite app_nil_r]. split; simpl.
    + by intros l ?%not_elem_of_nil.
    + by intros u [-> | ->%list_elem_of_singleton]%elem_of_cons.
    + by rewrite Ew.
    + unfold partner_of. by rewrite Em, Ep, Ez, Ewz.
  - pose proof (found_weight c Hc) as Hw. rewrite Eu in Hw. rewrite Hw. cbn [get mbind res_bind].
    exists [mkDerived where_ i (k_downstream c) (k_weight c)], []. split; [|intros s t; by rewrite app_nil_r]. split; simpl.
    + intros l ->%list_elem_of_singleton. split; [done|]. apply found_spec in Hc as (a & b & Ha & Hb & Hwin & ->).
      simpl in *. exists a, b. by rewrite <- Eu.
    + by intros u ?%not_elem_of_nil.
    + by rewrite Ew.
    + unfold partner_of. by rewrite Em, Ep, Ez, Ewz.
Qed.

(** The right decisions that are not matched, as undecided observations. *)
Definition left_over (d : ADecision) : bool := negb (bool_decide (d_status d = MATCHED)).
Lemma decide_downs l us : (∀ d, d ∈ l → d ∈ r_right decided) →
  fold_res (decide_down where_ back) l us =
  Ok (us ++ ((λ d, mkUndecided where_ (who' (d_id d)) "inbound" (d_status d)) <$> List.filter left_over l)).
Proof.
  revert us. induction l as [|d l IH]; intros us Hl; [simpl; by rewrite app_nil_r|]. cbn [fold_res].
  assert (decide_down where_ back us d =
    Ok (us ++ if left_over d then [mkUndecided where_ (who' (d_id d)) "inbound" (d_status d)] else [])) as ->.
  { unfold decide_down, left_over. case_bool_decide as Hm; cbn [negb]; [by rewrite app_nil_r|].
    destruct (right_name d) as (i & _ & Ei); [apply Hl; left|]. unfold who. by rewrite Ei. }
  cbn [mbind res_bind]. rewrite IH by (intros; apply Hl; by right). cbn [List.filter].
  destruct (left_over d); [by rewrite fmap_cons, <- app_assoc|by rewrite app_nil_r].
Qed.
(** The partners of the matched left records are the matched right records. *)
Lemma partners_matched : r_left decided ≫= partner_of ≡ₚ
  (λ d, who' (d_id d)) <$> List.filter (λ d, bool_decide (d_status d = MATCHED)) (r_right decided).
Proof.
  pose (mp := λ d, match d_status d with MATCHED => d_partner d | _ => None end).
  assert (r_left decided ≫= partner_of = who' <$> omap mp (r_left decided)) as ->.
  { unfold partner_of, mp. induction (r_left decided) as [|d l IH]; [done|]. rewrite bind_cons, IH. cbn [omap list_omap].
    by destruct (d_status d), (d_partner d). }
  change (λ d, who' (d_id d)) with (who' ∘ d_id). rewrite list_fmap_compose. f_equiv.
  assert (NoDup (d_id <$> r_left decided) ∧ NoDup (d_id <$> r_right decided)) as [Nl Nr].
  { rewrite (as_left _ _ _ _ _ _ Hdec), (as_right _ _ _ _ _ _ Hdec). unfold sorted. rewrite !sorted_by_perm.
    split; apply numbered_names. }
  assert (∀ x y, is_Some (weights_of (edge_of <$> found) !! (x, y)) → x ∈ up_ids.*2 ∧ y ∈ down_ids.*2) as Hk.
  { intros x y (c & Hc & -> & ->)%edge_known. split; apply name_in; by apply found_ends. }
  assert (∀ d y, d ∈ r_left decided → mp d = Some y → ∃ e, e ∈ r_right decided ∧ d_id e = y ∧
    d_status e = MATCHED ∧ d_partner e = Some (d_id d)) as Hmp.
  { intros d y Hin Hy. unfold mp in Hy. destruct (d_status d) eqn:Em; try done.
    destruct (matched_left Hdec Hmargin d) as (y' & Ep & _ & He); [by intros; eapply Hk|done|done|].
    rewrite Ep in Hy. by injection Hy as <-. }
  apply NoDup_Permutation.
  - assert (∀ l, NoDup (d_id <$> l) → (∀ d, d ∈ l → d ∈ r_left decided) → NoDup (omap mp l)) as H; [|by apply H].
    induction l as [|d l IH]; intros Hn Hl; [constructor|]. rewrite fmap_cons in Hn. apply NoDup_cons in Hn as [Hnew Hn].
    cbn [omap list_omap]. specialize (IH Hn ltac:(intros; apply Hl; by right)).
    destruct (mp d) as [y|] eqn:Ey; [|done]. constructor; [|done]. intros (d' & Hd' & Ey')%list_elem_of_omap.
    assert (d_id d = d_id d') as E.
    { assert (d_status d = MATCHED ∧ d_status d' = MATCHED ∧ d_partner d = d_partner d') as (? & ? & ?).
      { unfold mp in Ey, Ey'. destruct (d_status d), (d_status d'); split_and!; congruence. }
      apply (partner_inj Hdec Hmargin d d'); try done; [apply numbered_names|by intros; eapply Hk|apply Hl; left|apply Hl; by right]. }
    apply Hnew. rewrite E. apply list_elem_of_fmap. eauto.
  - by apply NoDup_filter_bool.
  - intros y. rewrite list_elem_of_omap, list_elem_of_fmap. setoid_rewrite elem_of_filter_bool. split.
    + intros (d & Hin & Ey). destruct (Hmp d y Hin Ey) as (e & He & <- & Hm & _). exists e.
      split; [done|]. split; [done|by apply bool_decide_eq_true_2].
    + intros (e & -> & He & Hm%bool_decide_eq_true).
      destruct (matched_right Hdec Hmargin e) as (d & Hin & Em & Ep & _); [by intros; eapply Hk|done|done|].
      exists d. split; [done|]. unfold mp. by rewrite Em.
Qed.
End hop.

Lemma join_hop_ok where_ p ups downs : NoDup (identity <$> ups) → NoDup (identity <$> downs) →
  _validate_params p = Ok tt → 0 <= jp_margin_us p → 1 <= jp_max_component p →
  ∃ links undecided components, join_hop where_ p ups downs = Ok (links, undecided, components) ∧
    accounted where_ p ups downs links undecided ∧ (length components <= length ups)%nat.
Proof.
  intros Hu Hd Hv Hm Hc. unfold join_hop. destruct (candidates_total ups downs p Hv) as [found Ho]. rewrite Ho.
  apply candidates_spec in Ho as (_ & l & Hl & Ef & _). cbn [mbind res_bind].
  assert (found ≡ₚ all_pairs p ups downs) as Hfound by by rewrite Ef, sorted_by_perm.
  assert (∀ c, c ∈ found → k_upstream c ∈ identity <$> ups ∧ k_downstream c ∈ identity <$> downs) as Hends
    by by apply found_ends with (p := p).
  rewrite (map_res_fmap _ (edge_of ups downs)).
  2: { intros c Hin. destruct (Hends c Hin) as [Hcu Hcd].
       destruct (numbered_get "u" _ _ Hcu) as (x & -> & Ex & _), (numbered_get "d" _ _ Hcd) as (y & -> & Ey & _).
       cbn [get mbind res_bind]. unfold edge_of. by rewrite Ex, Ey. }
  cbn [mbind res_bind].
  destruct (assign_ok (numbered "u" (identity <$> ups)).*2 (numbered "d" (identity <$> downs)).*2
    (edge_of ups downs <$> found) (jp_margin_us p) (jp_max_component p)) as (decided & -> & Hdec);
    [done|done|apply numbered_names|apply numbered_names|by apply (edges_NoDup p)| |].
  { intros e (c & -> & Hin)%list_elem_of_fmap. destruct (Hends c Hin). simpl.
    split; [by apply name_in|]. split; [by apply name_in|].
    apply (found_spec p ups downs found Hfound) in Hin as (a & b & _ & _ & Hw & ->). by apply weight_bounds. }
  cbn [mbind res_bind]. set (back := inverse _ ++ inverse _). set (w := list_to_map _).
  destruct (fold_res_append (decide_up where_ p ups downs back w) (up_piece where_ p ups downs) (r_left decided))
    as (ps & Eps & Hps & Hfold).
  { intros d Hin. by apply (decide_up_piece where_ p ups downs Hu Hd Hv found Hfound decided Hdec Hm). }
  rewrite Hfold. cbn [mbind res_bind app].
  rewrite (decide_downs where_ p ups downs Hd found decided Hdec) by done. cbn [mbind res_bind].
  do 3 eexists. split; [reflexivity|]. split.
  2: { rewrite length_fmap. etrans; [apply (components_length Hdec)|].
       - intros x y (c & Hin & -> & _)%(edge_known p ups downs Hu Hd found Hfound). apply name_in. by apply Hends.
       - rewrite length_fmap, <- (length_fmap fst), numbered_keys, <- (length_fmap identity ups).
         unfold sorted. by rewrite length_sorted_by. }
  set (rest := _ <$> List.filter left_over (r_right decided)).
  assert (ends "outbound" rest = [] ∧ ends "inbound" rest =
    (λ d, who (identity <$> ups) (identity <$> downs) (d_id d)) <$> List.filter left_over (r_right decided)) as [Eo Ei].
  { unfold rest, ends. induction (List.filter left_over (r_right decided)) as [|d k [IH1 IH2]]; [done|].
    rewrite !fmap_cons. cbn [List.filter un_side]. rewrite bool_decide_eq_false_2, bool_decide_eq_true_2 by done.
    split; [done|]. by rewrite fmap_cons, IH2. }
  split.
  - intros x Hx. apply list_elem_of_bind in Hx as (q & Hx & Hq). by apply (pc_links _ _ _ _ _ _ _ (Hps q Hq)).
  - intros u [Hin|Hin]%elem_of_app.
    + apply list_elem_of_bind in Hin as (q & Hx & Hq). by apply (pc_undecided _ _ _ _ _ _ _ (Hps q Hq)).
    + apply list_elem_of_fmap in Hin as (d & -> & [_ Hd']%elem_of_filter_bool). split; [done|].
      by apply negb_true_iff, bool_decide_eq_false in Hd'.
  - rewrite ends_app, Eo, app_nil_r.
    rewrite (bind_accounts (fmap dl_upstream) (ends "outbound") (λ d, [who (identity <$> ups) (identity <$> downs) (d_id d)]));
      [|done|done|intros; apply fmap_app|apply ends_app|intros q Hq; by apply (pc_up _ _ _ _ _ _ _ (Hps q Hq))].
    rewrite Eps, <- (whos_up (identity <$> ups) (identity <$> downs)), <- (as_left _ _ _ _ _ _ Hdec).
    rewrite <- list_fmap_compose. by rewrite bind_singleton.
  - rewrite ends_app, Ei, app_assoc.
    rewrite (bind_accounts (fmap dl_downstream) (ends "inbound") (partner_of ups downs));
      [|done|done|intros; apply fmap_app|apply ends_app|intros q Hq; by apply (pc_down _ _ _ _ _ _ _ (Hps q Hq))].
    rewrite Eps, (partners_matched p ups downs Hu Hd found Hfound decided Hdec Hm).
    rewrite <- (whos_down (identity <$> ups) (identity <$> downs)), <- (as_right _ _ _ _ _ _ Hdec), <- list_fmap_compose, <- fmap_app.
    f_equiv. exact (filter_split _ (r_right decided)).
Qed.

(** ** All the hops *)

Definition on_side (os : list Timed) (side : string * string) : list Timed :=
  List.filter (λ o, bool_decide ((o_point o, o_side o) = side)) os.
Lemma by_side_on_side os side : at_key (by_side_of os) side = on_side os side.
Proof. unfold by_side_of, on_side. rewrite at_key_group. apply (under_on (λ o, (o_point o, o_side o))). Qed.
Definition links_at (where_ : string) (ls : list DerivedLink) : list DerivedLink :=
  List.filter (λ l, bool_decide (dl_where l = where_)) ls.
Definition undecided_at (where_ : string) (us : list Undecided) : list Undecided :=
  List.filter (λ u, bool_decide (un_where u = where_)) us.

Lemma accounted_perm where_ p ups downs ls ls' us us' : ls ≡ₚ ls' → us ≡ₚ us' →
  accounted where_ p ups downs ls us → accounted where_ p ups downs ls' us'.
Proof.
  intros Hl Hu [H1 H2 H3 H4]. assert (∀ s, ends s us ≡ₚ ends s us') as He.
  { intros s. unfold ends. f_equiv. by apply filter_bool_perm. }
  split.
  - intros l. rewrite <- Hl. apply H1.
  - intros u. rewrite <- Hu. apply H2.
  - by rewrite <- Hl, <- He.
  - by rewrite <- Hl, <- He.
Qed.
(** What the loop over the hops has collected for a list of parameters. *)
Record joined (hops : odict string HopCeiling) (os : list Timed) (params : odict string JoinParams)
    (ls : list DerivedLink) (us : list Undecided) : Prop := {
  jn_at where_ p hop : (where_, p) ∈ params → od_get where_ hops = Some hop →
    accounted where_ p (on_side os (hc_src hop, "outbound"%string)) (on_side os (hc_dst hop, "inbound"%string))
      (links_at where_ ls) (undecided_at where_ us);
  jn_links l : l ∈ ls → dl_where l ∈ params.*1;
  jn_undecided u : u ∈ us → un_where u ∈ params.*1
}.
(** Parameters the joins accept. *)
Definition usable (hops : odict string HopCeiling) (e : string * JoinParams) : Prop :=
  is_Some (od_get e.1 hops) ∧ _validate_params e.2 = Ok tt ∧ 0 <= jp_margin_us e.2 ∧ 1 <= jp_max_component e.2.

Lemma join_ones_ok hops os params st : NoDup (identity <$> os) → NoDup params.*1 →
  (∀ e, e ∈ params → usable hops e) →
  ∃ ls us cs, fold_res (join_one hops (by_side_of os)) params st = Ok (st.1.1 ++ ls, st.1.2 ++ us, st.2 ++ cs) ∧
    joined hops os params ls us ∧ (length cs <= length params * length os)%nat.
Proof.
  intros Hn. revert st. induction params as [|[w p] params IH]; intros [[ls0 us0] cs0] Hk Hp; simpl.
  { exists [], [], []. rewrite !app_nil_r. split; [done|]. split; [|simpl; lia]. split; by intros ? ?%not_elem_of_nil || intros ? ? ? ?%not_elem_of_nil. }
  apply NoDup_cons in Hk as [Hnew Hk]. destruct (Hp (w, p) ltac:(left)) as ([hop Eh] & Hv & Hm & Hc). simpl in *.
  rewrite Eh. cbn [get mbind res_bind].
  destruct (join_hop_ok w p (at_key (by_side_of os) (hc_src hop, "outbound"%string)) (at_key (by_side_of os) (hc_dst hop, "inbound"%string)))
    as (ls & us & cs & -> & Hacc & Hcs); [by apply side_NoDup..|done|done|done|].
  cbn [mbind res_bind]. destruct (IH (ls0 ++ ls, us0 ++ us, cs0 ++ cs) Hk) as (ls' & us' & cs' & -> & Hj & Hcs').
  { intros; apply Hp; by right. }
  exists (ls ++ ls'), (us ++ us'), (cs ++ cs'). simpl. split; [by rewrite !app_assoc|].
  rewrite !by_side_on_side in Hacc. rewrite by_side_on_side in Hcs. split.
  2: { pose proof (sublist_length _ _ (sublist_filter_bool_sub (λ o, bool_decide ((o_point o, o_side o) = (hc_src hop, "outbound"%string))) os)).
       unfold on_side in Hcs. rewrite length_app. lia. } destruct Hj as [J1 J2 J3]. split.
  - intros w' p' hop' [[= -> ->]|Hin]%elem_of_cons Eh'.
    + rewrite Eh in Eh'. injection Eh' as <-. unfold links_at, undecided_at. rewrite !List.filter_app.
      rewrite (filter_bool_all _ ls), (filter_bool_all _ us), (filter_bool_none _ ls'), (filter_bool_none _ us'); [by rewrite !app_nil_r|..].
      * intros u Hu. apply bool_decide_eq_false_2. intros <-. by apply Hnew, J3.
      * intros l Hl. apply bool_decide_eq_false_2. intros <-. by apply Hnew, J2.
      * intros u Hu. apply bool_decide_eq_true_2. by apply (ac_undecided _ _ _ _ _ _ Hacc u Hu).
      * intros l Hl. apply bool_decide_eq_true_2. by apply (ac_links _ _ _ _ _ _ Hacc).
    + assert (w ≠ w') as Hne.
      { intros <-. apply Hnew. apply list_elem_of_fmap. by exists (w, p'). }
      unfold links_at, undecided_at. rewrite !List.filter_app, (filter_bool_none _ ls), (filter_bool_none _ us); [by apply J1|..].
      * intros u Hu. apply bool_decide_eq_false_2. by rewrite (proj1 (ac_undecided _ _ _ _ _ _ Hacc u Hu)).
      * intros l Hl. apply bool_decide_eq_false_2. by rewrite (proj1 (ac_links _ _ _ _ _ _ Hacc l Hl)).
  - intros l [Hl|Hl]%elem_of_app; [|right; by apply J2]. rewrite (proj1 (ac_links _ _ _ _ _ _ Hacc l Hl)). left.
  - intros u [Hl|Hl]%elem_of_app; [|right; by apply J3]. rewrite (proj1 (ac_undecided _ _ _ _ _ _ Hacc u Hl)). left.
Qed.

(** The timed path returns what the joins collect. *)
Lemma timed_links_ok topology os params distinct dropped : NoDup params.*1 →
  (∀ e, e ∈ params → usable (timing_hops topology) e) →
  _deduplicated topology os = Ok (distinct, dropped) →
  ∃ result, timed_links topology os params = Ok result ∧ r_duplicates_dropped result = dropped ∧
    joined (timing_hops topology) distinct params (r_links result) (r_undecided result) ∧
    (length (r_components result) <= length params * length distinct)%nat.
Proof.
  intros Hk Hp Hd. unfold timed_links.
  assert (fold_res (λ _ e, check_hop_params (timing_hops topology) e) params tt = Ok tt) as ->.
  { clear Hk. induction params as [|e params IH]; [done|]. cbn [fold_res].
    assert (check_hop_params (timing_hops topology) e = Ok tt) as ->.
    { destruct (Hp e ltac:(left)) as (Hh & Hv & _). unfold check_hop_params. by rewrite bool_decide_eq_true_2. }
    cbn [mbind res_bind]. apply IH. intros; apply Hp; by right. }
  cbn [mbind res_bind]. rewrite Hd. cbn [mbind res_bind].
  apply (deduplicate_spec _ _ _ timed_content_inj) in Hd as (_ & _ & Hn & _).
  assert (sorted_by fst params ≡ₚ params) as Hs by apply sorted_by_perm.
  destruct (join_ones_ok (timing_hops topology) distinct (sorted_by fst params) ([], [], [])) as (ls & us & cs & -> & J & Hcs);
    [done|by rewrite Hs|intros e; rewrite Hs; apply Hp|].
  cbn [mbind res_bind app fst snd]. eexists. split; [reflexivity|]. split; [done|]. simpl.
  split; [|rewrite <- (Permutation_length Hs); exact Hcs]. destruct J as [J1 J2 J3]. split.
  - intros w p hop Hin Eh. eapply accounted_perm; [| |apply J1; [by rewrite Hs|done]];
      apply filter_bool_perm; symmetry; apply sorted_by_perm.
  - intros l. rewrite elem_of_sorted_by. intros Hl%J2. by rewrite Hs in Hl.
  - intros u. rewrite elem_of_sorted_by. intros Hu%J3. by rewrite Hs in Hu.
Qed.

(** ** Guarantees *)

(** C31: the timed path always returns, and accounts for every observation.  With usable
    parameters (for declared timing hops, valid, a margin and a component bound in range)
    and an accepted journal, each observation on either side of a calibrated hop is the
    end of exactly one link or is undecided exactly once, never both; a link joins an
    upstream and a downstream observation inside every window, with their weight; and
    nothing is reported for another hop. *)
Theorem timed_accounts topology os params distinct dropped : NoDup params.*1 →
  (∀ e, e ∈ params → usable (timing_hops topology) e) →
  _deduplicated topology os = Ok (distinct, dropped) →
  ∃ result, timed_links topology os params = Ok result ∧ r_duplicates_dropped result = dropped ∧
    joined (timing_hops topology) distinct params (r_links result) (r_undecided result).
Proof. intros Hk Hp Hd. destruct (timed_links_ok _ _ _ _ _ Hk Hp Hd) as (result & ? & ? & ? & _). by exists result. Qed.

Lemma timed_accounts_witness : ∃ result, timed_links timed_topology timed_journal timed_params = Ok result ∧
  r_duplicates_dropped result = 1 ∧
  joined (timing_hops timed_topology) (timed_up ++ timed_down) timed_params (r_links result) (r_undecided result).
Proof.
  apply (timed_accounts timed_topology timed_journal timed_params); [repeat constructor; set_solver| |by vm_compute].
  intros e ->%list_elem_of_singleton. split_and!; [by eexists|reflexivity|simpl; lia|simpl; lia].
Defined.
