(* ===== verification/TimingPath.v ===== *)
(** * TimingPath: the timing path on a harness run, and its score

    [m0-harness/timing_path.py].  The chain of a cell is declared with every identifier
    withheld, the records of its log and spans become timed observations, [timed_links]
    links them with the calibrated parameters, and the links are scored against the truth
    ids.  The parameters file is the tree [tomllib] reads.  A parameter of another type
    than the one [JoinParams] declares is refused when it is read, where the code leaves
    that to [timed_links].  The clock ([observations_per_s]) is not modelled. *)

From Stdlib Require Import QArith SpecFloat.
From S2P Require Import Prelude DecimalText Json Floats Assignment AssignTheorems Topology Dedup Harness Timing TimingTheorems.

Definition D_MAX : Z := 1.

(** ** The settings of a cell *)

Record TimedMeta := mkTimedMeta {
  tm_hops : nat;
  tm_port : Z;
  tm_agent : string;
  tm_concurrency : option Z;
  tm_load : Z
}.
Definition is_digit (c : ascii) : bool := let n := N_of_ascii c in (48 <=? n)%N && (n <=? 57)%N.
Definition is_word (c : ascii) : bool :=
  let n := N_of_ascii c in
  is_digit c || (65 <=? n)%N && (n <=? 90)%N || (97 <=? n)%N && (n <=? 122)%N || (n =? 95)%N.
Fixpoint take_digits (s : string) : string :=
  match s with String c r => if is_digit c then String c (take_digits r) else ""%string | "" => ""%string end%string.
(** [re.search(r"\b<name>=(\d+)", s)], [name] beginning with a letter. *)
Fixpoint setting (name : string) (after_word : bool) (s : string) : option string :=
  let here := if after_word then None
              else r ← strip_prefix (name +:+ "=") s;
                   let d := take_digits r in if bool_decide (d = ""%string) then None else Some d in
  match here with
  | Some d => Some d
  | None => match s with String c r => setting name (is_word c) r | "" => None end%string
  end.
(** [int(m[1]) if m else None] *)
Definition setting_value (name text : string) : res (option Z) :=
  match setting name false text with
  | None => Ok None
  | Some d => z ← get (parse_int d) (ValueError "invalid literal for int"); Ok (Some z)
  end.
Definition cell_meta (cell : json) (cells_txt : string) : res TimedMeta :=
  concurrency ← setting_value "c" cells_txt;
  load ← setting_value "load" cells_txt;
  hops ← number_at "hops" cell;
  port ← number_at "fake_upstream_port" cell;
  agent ← text_field "agent" "none" cell;
  Ok (mkTimedMeta (Z.to_nat hops) port agent concurrency (default 0 load)).

(** ** The chain, with every identifier withheld *)

Definition points (hops : nat) : list string := "load-gen"%string :: (hop_name <$> seq 1 hops) ++ ["fake-upstream"%string].
Definition timed_point (visibility timestamps : string) : Value :=
  VTable [("host", VStr "lab"); ("visibility", VStr visibility); ("clock", VStr "lab"); ("timestamps", VStr timestamps);
          ("inbound", VList []); ("outbound", VList [])]%string.
Definition pooled_hop (ab : string * string) : Value :=
  VTable [("from", VStr ab.1); ("to", VStr ab.2); ("pooling", VBool true)]%string.
Definition declaration (hops : nat) : list (string * Value) :=
  let declared : odict string Value := foldl (λ d n, od_set n (timed_point "kernel" "kernel_monotonic") d) [] (points hops) in
  [("points", VTable (od_set "load-gen"%string (timed_point "app" "precise_sync") declared));
   ("hops", VList (pooled_hop <$> pairwise (points hops)))]%string.
Definition topology_for (repr py_str : Value → string) (format_g : Q → string) (hops : nat) : res (list Refusal + Topology) :=
  load repr py_str format_g (declaration hops).

(** ** Records *)

Record Row := mkRow {
  w_source : string;
  w_seq : Z;
  w_point : string;
  w_side : string;
  w_truth : string;
  w_start : Z;
  w_handler : Z;
  w_end : Z
}.
Definition log_row (seq : nat) (r : json) : res Row :=
  timestamp ← number_at "timestamp_ns" r;
  duration ← number_field "duration_ns" 0 r;
  truth ← text_at "trace_id" r;
  let start := timestamp / 1000 in
  Ok (mkRow "lg.jsonl" (Z.of_nat seq) "load-gen" "outbound" truth start start ((timestamp + duration) / 1000)).
(** One span, numbered from 1. *)
Definition span_row (measured excluded : gset string) (meta : TimedMeta) (seq : nat) (span : json) : res (option Row) :=
  placed ← placed_span TRUTH_ANY measured excluded (tm_hops meta) (tm_port meta) span;
  match placed with
  | None => Ok None
  | Some (t, (point, side)) =>
      start ← int_at "start" span;
      handler ← int_field "handlerStart" start span;
      end_ ← int_at "end" span;
      Ok (Some (mkRow "agent.out" (Z.of_nat (S seq)) point side t start handler end_))
  end.
Definition records (log outside spans : list json) (meta : TimedMeta) : res (list Row * gset string) :=
  ids ← trace_ids log;
  rows ← map_res (λ e, log_row e.1 e.2) (imap pair log);
  outside_ids ← trace_ids outside;
  let measured : gset string := list_to_set ids in
  placed ← map_res (λ e, span_row measured (list_to_set outside_ids) meta e.1 e.2) (imap pair spans);
  Ok (rows ++ omap id placed, measured).

(** ** Parameters *)

Definition table_of (v : Value) : res (list (string * Value)) :=
  match v with VTable t => Ok t | _ => Raise AttributeError end.
Definition value_int (v : Value) : res Z := match v with VInt z => Ok z | _ => Raise TypeError end.
Definition value_text (v : Value) : res string := match v with VStr s => Ok s | _ => Raise TypeError end.
Definition value_list (v : Value) : res (list Value) := match v with VList l => Ok l | _ => Raise TypeError end.
Definition at_name {A} (read : Value → res A) (key : string) (t : list (string * Value)) : res A :=
  v ← get (od_get key t) KeyError; read v.
Definition at_name_or {A} (read : Value → res A) (key : string) (dflt : A) (t : list (string * Value)) : res A :=
  match od_get key t with None => Ok dflt | Some v => read v end.

Definition signal_of (v : Value) : res Signal :=
  t ← table_of v;
  name ← at_name value_text "name" t;
  offset ← at_name value_int "offset_us" t;
  window ← at_name value_int "window_us" t;
  Ok (mkSignal name offset window).
Definition join_params (table : list (string * Value)) : res (JoinParams * string) :=
  _ ← check (bool_decide (is_Some (od_get "local_span_us"%string table)))
        (ValueError "parameters without local_span_us (before round 4): recalibrate");
  listed ← at_name value_list "signals" table;
  signals ← map_res signal_of listed;
  margin ← at_name value_int "margin_us" table;
  component ← at_name_or value_int "max_component" 32 table;
  span ← at_name value_int "local_span_us" table;
  limit ← at_name_or value_int "local_limit_permille" 1000 table;
  receiver ← at_name_or value_text "receiver_start" "start"%string table;
  Ok (mkParams signals margin component span limit, receiver).

(** [int(k[1:])] of the key of a cell, as in "c20" *)
Definition key_concurrency (k : string) : res Z :=
  get (parse_int match k with String _ r => r | "" => "" end%string) (ValueError "invalid literal for int").
Definition calibrated_concurrency (data : list (string * Value)) (meta : TimedMeta) (stress : bool) : res (option Z) :=
  if negb stress then Ok (tm_concurrency meta)
  else
    agent ← at_name_or table_of (tm_agent meta) [] data;
    ks ← map_res (λ e : string * Value,
        k ← key_concurrency e.1;
        c ← get (tm_concurrency meta) TypeError;
        Ok (k, k <=? c)) agent;
    Ok (match fst <$> List.filter snd ks with [] => None | k :: ks => Some (foldl Z.max k ks) end).
Definition cell_key (used : option Z) : string := "c" +:+ match used with Some z => str_Z z | None => "None"%string end.
Definition params_for (data : list (string * Value)) (meta : TimedMeta) (check_load stress : bool)
    : res (odict string (JoinParams * string)) :=
  calibrated ← at_name_or value_int "load_cores" 0 data;
  _ ← check (negb (check_load && negb stress && negb (calibrated =? tm_load meta)))
        (ValueError "calibrated under a load the run did not have");
  used ← calibrated_concurrency data meta stress;
  agent ← at_name_or table_of (tm_agent meta) [] data;
  cell ← at_name_or table_of (cell_key used) [] agent;
  map_res (λ e : string * Value, t ← table_of e.2; p ← join_params t; Ok (e.1, p)) cell.

(** ** Rates *)

(** [max(...)], [min(...)] of a list; empty, they raise. *)
Definition max_res (l : list Z) : res Z := match l with [] => Raise (ValueError "empty") | x :: l => Ok (foldl Z.max x l) end.
Definition min_res (l : list Z) : res Z := match l with [] => Raise (ValueError "empty") | x :: l => Ok (foldl Z.min x l) end.
Definition MILLION : float := float_of_int 1000000.
(** Requests per second. *)
Definition rate (rows : list Row) : res float :=
  let lg := List.filter (λ r, bool_decide (w_point r = "load-gen"%string)) rows in
  last ← max_res (w_end <$> lg);
  first ← min_res (w_start <$> lg);
  let span_us := last - first in
  Ok (if 0 <? span_us then fdiv (float_of_int (Z.of_nat (length lg))) (fdiv (float_of_int span_us) MILLION)
      else S754_zero false).
(** [rate * 2 * window / 1e6] *)
Definition density_of (requests_per_s : float) (window : Z) : float :=
  fdiv (fmul (fmul requests_per_s (float_of_int 2)) (float_of_int window)) MILLION.
Definition feasible (density : float) : bool := SFleb density (float_of_int D_MAX).

(** ** The score of a join *)

Record JoinScore := mkJoinScore {
  js_links : Z;
  js_correct : Z;
  js_wrong : Z;
  js_both_seen : Z;
  js_unmatched : Z;
  js_ambiguous : Z;
  js_oversized : Z;
  js_no_candidate : Z;
  js_dense : Z;
  js_density : float;
  js_feasible : bool;
  js_component_p50 : Z;
  js_component_p99 : Z;
  js_component_max : Z
}.
(** [0.99] *)
Definition P99 : float := fdiv (float_of_int 99) (float_of_int 100).
Definition row_id (r : Row) : string * Z := (w_source r, w_seq r).
Definition on_sides (src dst : string) (r : Row) : bool :=
  bool_decide ((w_point r, w_side r) = (src, "outbound"%string)) || bool_decide ((w_point r, w_side r) = (dst, "inbound"%string)).
Definition timed_of (dst receiver_start : string) (r : Row) : Timed :=
  mkTimed (w_source r) (w_seq r) (w_point r) (w_side r)
    (if bool_decide (receiver_start = "handlerStart"%string) && bool_decide (w_point r = dst) then w_handler r else w_start r)
    (w_end r).
Definition truths (point : string) (rows : list Row) : gset string :=
  list_to_set (w_truth <$> List.filter (λ r, bool_decide (w_point r = point)) rows).
(** [statuses.get(s.name.lower(), 0)]: the upstream observations left with a status. *)
Definition upstream_left (s : Status) (us : list Undecided) : Z :=
  Z.of_nat (length (List.filter (λ u, bool_decide (un_side u = "outbound"%string) && bool_decide (un_status u = s)) us)).
(** [sizes[len(sizes) // 2]], [sizes[min(len(sizes) - 1, int(0.99 * len(sizes)))]], [sizes[-1]] *)
Definition component_sizes (sizes : list Z) : res (Z * Z * Z) :=
  if is_nil sizes then Ok (0, 0, 0)
  else
    let n := Z.of_nat (length sizes) in
    p50 ← get (sizes !! Z.to_nat (n / 2)) IndexError;
    i ← trunc (fmul P99 (float_of_int n));
    p99 ← get (sizes !! Z.to_nat (Z.min (n - 1) i)) IndexError;
    largest ← get (last sizes) IndexError;
    Ok (p50, p99, largest).
Definition score_join (topology : Topology) (rows : list Row) (where_ src dst : string) (params : JoinParams)
    (receiver_start : string) (requests_per_s : float) : res JoinScore :=
  let side_rows := List.filter (on_sides src dst) rows in
  let truth : gmap (string * Z) string := foldl (λ m r, <[row_id r := w_truth r]> m) ∅ side_rows in
  let obs := timed_of dst receiver_start <$> side_rows in
  result ← timed_links topology obs [(where_, params)];
  judged ← map_res (λ x, u ← get (truth !! dl_upstream x) KeyError; d ← get (truth !! dl_downstream x) KeyError;
                         Ok (bool_decide (u = d))) (r_links result);
  let links := Z.of_nat (length (r_links result)) in
  let correct := Z.of_nat (length (List.filter id judged)) in
  let both := truths src side_rows ∩ truths dst side_rows in
  let left s := upstream_left s (r_undecided result) in
  '(p50, p99, largest) ← component_sizes (sorted (r_components result).*2);
  first ← get (head (jp_signals params)) IndexError;
  let density := density_of requests_per_s (s_window_us first) in
  Ok (mkJoinScore links correct (links - correct) (Z.of_nat (size both))
        (left UNMATCHED) (left AMBIGUOUS) (left OVERSIZED) (left NO_CANDIDATE) (left DENSE)
        (round_to 3 density) (feasible density) p50 p99 largest).

(** ** A cell *)

(** [where.split(" -> ")] *)
Fixpoint split_text (sep : string) (skip : nat) (s : string) : list string :=
  match s with
  | "" => [""%string]
  | String c r =>
      match skip with
      | S k => split_text sep k r
      | O =>
          if bool_decide (is_Some (strip_prefix sep s)) then ""%string :: split_text sep (String.length sep - 1) r
          else match split_text sep 0 r with x :: l => String c x :: l | [] => [String c ""] end
      end
  end%string.
Definition ends_of (where_ : string) : res (string * string) :=
  match split_text " -> " 0 where_ with [src; dst] => Ok (src, dst) | _ => Raise (ValueError "cannot unpack") end.
Record CellScore := mkCellScore {
  cs_measured : Z;
  cs_rate : float;
  cs_params_from : option Z;
  cs_joins : odict string JoinScore
}.
Definition analyze_cell (repr py_str : Value → string) (format_g : Q → string) (log outside spans : list json)
    (meta : TimedMeta) (data : list (string * Value)) (check_load stress : bool) : res CellScore :=
  loaded ← topology_for repr py_str format_g (tm_hops meta);
  topology ← match loaded with inr t => Ok t | inl _ => Raise (ValueError "topology refused") end;
  '(rows, measured) ← records log outside spans meta;
  joins ← params_for data meta check_load stress;
  used ← calibrated_concurrency data meta stress;
  requests_per_s ← rate rows;
  scores ← map_res (λ e : string * (JoinParams * string),
      '(src, dst) ← ends_of e.1;
      s ← score_join topology rows e.1 src dst e.2.1 e.2.2 requests_per_s;
      Ok (e.1, s)) (sorted_by fst joins);
  Ok (mkCellScore (Z.of_nat (size measured)) (round_to 1 requests_per_s) used scores).

(** ** Lemmas: the records of a cell *)

Record recorded (hops : nat) (rows : list Row) : Prop := {
  rc_once : NoDup (row_id <$> rows);
  rc_point r : r ∈ rows → w_point r ∈ points hops;
  rc_side r : r ∈ rows → w_side r ∈ SIDES
}.
Lemma span_row_ok measured excluded meta i span r : span_row measured excluded meta i span = Ok (Some r) →
  row_id r = ("agent.out"%string, Z.of_nat (S i)) ∧ w_point r ∈ points (tm_hops meta) ∧ w_side r ∈ SIDES.
Proof.
  unfold span_row. intros H. apply bind_Ok in H as (p & Hp & H). destruct p as [[t [point side]]|]; [|done].
  inv_res. subst. destruct (placed_span_ok _ _ _ _ _ _ _ _ _ Hp) as (_ & ? & _ & Hs). split_and!; [done| |].
  - unfold points. by right.
  - simpl. rewrite !elem_of_cons, elem_of_nil in Hs. unfold SIDES. set_solver.
Qed.
Lemma log_row_ok i v r : log_row i v = Ok r →
  row_id r = ("lg.jsonl"%string, Z.of_nat i) ∧ w_point r = "load-gen"%string ∧ w_side r = "outbound"%string.
Proof. unfold log_row. intros H. inv_res. by subst. Qed.

Lemma records_ok log outside spans meta rows measured : records log outside spans meta = Ok (rows, measured) →
  recorded (tm_hops meta) rows ∧ (log ≠ [] → ∃ r, r ∈ rows ∧ w_point r = "load-gen"%string).
Proof.
  unfold records. intros H. apply bind_Ok in H as (ids & _ & H). apply bind_Ok in H as (logged & Hl & H).
  apply bind_Ok in H as (outs & _ & H). apply bind_Ok in H as (placed & Hp & [= <- _]).
  apply map_res_Forall2 in Hl, Hp.
  assert (∀ i r, logged !! i = Some r → ∃ v, log_row i v = Ok r) as Hlog.
  { intros i r Hi. destruct (Forall2_lookup_r _ _ _ _ _ Hl Hi) as ([n v] & Hn & E).
    rewrite list_lookup_imap in Hn. destruct (log !! i); simplify_eq/=. eauto. }
  assert (∀ i r, placed !! i = Some (Some r) → ∃ v, span_row (list_to_set ids) (list_to_set outs) meta i v = Ok (Some r)) as Hspan.
  { intros i r Hi. destruct (Forall2_lookup_r _ _ _ _ _ Hp Hi) as ([n v] & Hn & E).
    rewrite list_lookup_imap in Hn. destruct (spans !! i); simplify_eq/=. eauto. }
  assert (∀ r, r ∈ logged ++ omap id placed →
    (∃ i, row_id r = ("lg.jsonl"%string, Z.of_nat i) ∧ w_point r ∈ points (tm_hops meta) ∧ w_side r ∈ SIDES) ∨
    (∃ i, row_id r = ("agent.out"%string, Z.of_nat (S i)) ∧ w_point r ∈ points (tm_hops meta) ∧ w_side r ∈ SIDES)) as Hall.
  { intros r [Hr|Hr]%elem_of_app.
    - left. apply list_elem_of_lookup in Hr as [i Hi]. apply Hlog in Hi as [v Hv].
      apply log_row_ok in Hv as (? & -> & ->). exists i. split_and!; [done|left|right; left].
    - right. apply list_elem_of_omap in Hr as (o & Ho & E). unfold id in E. subst o.
      apply list_elem_of_lookup in Ho as [i Hi]. apply Hspan in Hi as [v Hv]. exists i. by eapply span_row_ok. }
  split.
  - split.
    + rewrite fmap_app. apply NoDup_app. split; [|split].
      * apply NoDup_alt. intros i j x. rewrite !list_lookup_fmap. intros Hi Hj.
        destruct (logged !! i) eqn:Ei, (logged !! j) eqn:Ej; try done. simpl in *.
        apply Hlog in Ei as [v Hv], Ej as [v' Hv']. apply log_row_ok in Hv as [Ha _], Hv' as [Hb _].
        rewrite Ha in Hi. rewrite Hb in Hj. injection Hi as <-. injection Hj. lia.
      * intros x (r & -> & Hr)%list_elem_of_fmap (r' & E & Hr')%list_elem_of_fmap.
        apply list_elem_of_lookup in Hr as [i Hi]. apply Hlog in Hi as [v Hv]. apply log_row_ok in Hv as [Ha _].
        apply list_elem_of_omap in Hr' as (o & Ho & Eo). unfold id in Eo. subst o.
        apply list_elem_of_lookup in Ho as [j Hj]. apply Hspan in Hj as [v' Hv']. apply span_row_ok in Hv' as [Hb _]. congruence.
      * apply omap_id_NoDup. intros i j a b Hi Hj E. apply Hspan in Hi as [v Hv], Hj as [v' Hv'].
        apply span_row_ok in Hv as [Ha _], Hv' as [Hb _]. rewrite Ha, Hb in E. injection E. lia.
    + intros r Hr. destruct (Hall r Hr) as [(i & _ & ? & _)|(i & _ & ? & _)]; done.
    + intros r Hr. destruct (Hall r Hr) as [(i & _ & _ & ?)|(i & _ & _ & ?)]; done.
  - intros Hne. destruct logged as [|r logged]; [apply Forall2_length in Hl; rewrite length_imap in Hl; by destruct log|].
    exists r. split; [left|]. destruct (Hlog 0%nat r eq_refl) as [v Hv]. by apply log_row_ok in Hv as (_ & ? & _).
Qed.

Lemma rate_total rows : (∃ r, r ∈ rows ∧ w_point r = "load-gen"%string) → ∃ x, rate rows = Ok x.
Proof.
  intros (r & Hr & Hp). unfold rate. set (lg := List.filter _ rows).
  assert (r ∈ lg) as Hin by (apply elem_of_filter_bool; split; [done|by apply bool_decide_eq_true_2]).
  destruct lg as [|r0 lg]; [by apply not_elem_of_nil in Hin|]. cbn. eauto.
Qed.

(** ** Lemmas: the chain *)

(** The chains the lab ran have at most five hops. *)
Definition MAX_HOPS : nat := 5.
Section chain.
Context (repr py_str : Value → string) (format_g : Q → string).
Definition chain_ok (hops : nat) : bool :=
  match topology_for repr py_str format_g hops with
  | Ok (inr t) =>
      forallb (λ p, mem p (p_name <$> t_points t)) (points hops) &&
      forallb (λ ab : string * string,
        match od_get (hop_where ab.1 ab.2) (timing_hops t), ends_of (hop_where ab.1 ab.2) with
        | Some hop, Ok e => bool_decide (hc_src hop = ab.1 ∧ hc_dst hop = ab.2 ∧ e = ab ∧ ab.1 ≠ ab.2)
        | _, _ => false
        end) (pairwise (points hops))
  | _ => false
  end.
Lemma chains_ok : forallb chain_ok (seq 0 (S MAX_HOPS)) = true.
Proof. vm_compute. reflexivity. Qed.
Lemma chain_topology hops : (hops <= MAX_HOPS)%nat →
  ∃ topology, topology_for repr py_str format_g hops = Ok (inr topology) ∧
    (∀ p, p ∈ points hops → p ∈ point_names topology) ∧
    ∀ src dst, (src, dst) ∈ pairwise (points hops) → ends_of (hop_where src dst) = Ok (src, dst) ∧ src ≠ dst ∧
      ∃ hop, od_get (hop_where src dst) (timing_hops topology) = Some hop ∧ hc_src hop = src ∧ hc_dst hop = dst.
Proof.
  intros Hh. pose proof chains_ok as H. rewrite forallb_forall in H.
  specialize (H hops ltac:(apply list_elem_of_In, elem_of_seq; lia)). unfold chain_ok in H.
  destruct (topology_for _ _ _ hops) as [[|t]|]; [done| |done]. exists t. split; [done|].
  apply andb_true_iff in H as [H1 H2]. rewrite forallb_forall in H1, H2. split.
  - intros p Hp. apply elem_of_list_to_set. apply list_elem_of_In, H1 in Hp. by apply bool_decide_eq_true in Hp.
  - intros src dst Hin. apply list_elem_of_In, H2 in Hin. simpl in Hin.
    destruct (od_get _ _) as [hop|]; [|done]. destruct (ends_of _) as [e|]; [|done].
    apply bool_decide_eq_true in Hin as (? & ? & -> & ?). split_and!; [done..|]. by exists hop.
Qed.
End chain.

(** ** Lemmas: the score of a join *)

(** The rows of one side. *)
Definition rows_on (rows : list Row) (point side : string) : list Row :=
  List.filter (λ r, bool_decide ((w_point r, w_side r) = (point, side))) rows.
Record join_scored (rows : list Row) (src dst : string) (s : JoinScore) : Prop := {
  jo_links : js_links s = js_correct s + js_wrong s ∧ 0 <= js_correct s ∧ 0 <= js_wrong s;
  (** Every upstream observation is linked or left with one status. *)
  jo_up : js_links s + js_unmatched s + js_ambiguous s + js_oversized s + js_no_candidate s + js_dense s =
    Z.of_nat (length (rows_on rows src "outbound"));
  jo_down : js_links s <= Z.of_nat (length (rows_on rows dst "inbound"));
  (** A request seen once is linked correctly at most once. *)
  jo_once : NoDup (w_truth <$> rows_on rows src "outbound") → js_correct s <= js_both_seen s
}.

Lemma component_sizes_total sizes : Z.of_nat (length sizes) <= 2 ^ 40 → ∃ x, component_sizes sizes = Ok x.
Proof.
  intros Hn. unfold component_sizes. destruct sizes as [|z sizes]; [by eexists|]. cbn [is_nil]. set (l := z :: sizes) in *.
  assert (1 <= Z.of_nat (length l)) as H1 by (simpl; lia).
  assert (∀ i, (i < length l)%nat → ∃ v, l !! i = Some v) as Hget by (intros i Hi; by apply lookup_lt_is_Some).
  destruct (Hget (Z.to_nat (Z.of_nat (length l) / 2))) as [p50 ->]; [Z.div_mod_to_equations; lia|]. cbn [get mbind res_bind].
  destruct (trunc_product 8917127262193582 _ eq_refl (conj H1 Hn)) as (i & Hi & Hi0).
  change (S754_finite false 8917127262193582 (-53)) with P99 in Hi. rewrite Hi. cbn [mbind res_bind].
  destruct (Hget (Z.to_nat (Z.min (Z.of_nat (length l) - 1) i))) as [p99 ->]; [lia|]. cbn [get mbind res_bind].
  destruct (last l) as [m|] eqn:El; [|by apply last_None in El]. simpl. eauto.
Qed.

Lemma left_statuses us : (∀ u, u ∈ us → un_status u ≠ MATCHED) →
  Z.of_nat (length (ends "outbound" us)) = upstream_left UNMATCHED us + upstream_left AMBIGUOUS us +
    upstream_left OVERSIZED us + upstream_left NO_CANDIDATE us + upstream_left DENSE us.
Proof.
  intros H. unfold ends, upstream_left. rewrite length_fmap. induction us as [|u us IH]; [done|]. cbn [List.filter].
  specialize (IH ltac:(intros; apply H; by right)). specialize (H u ltac:(left)).
  case_bool_decide; [|done]. destruct (un_status u); [done|..]; cbn [andb length]; rewrite ?Nat2Z.inj_succ; simpl; lia.
Qed.
Lemma filter_twice {A} (f g : A → bool) l : (∀ x, x ∈ l → g x = true → f x = true) →
  List.filter g (List.filter f l) = List.filter g l.
Proof.
  induction l as [|x l IH]; intros H; [done|]. cbn [List.filter]. specialize (IH ltac:(intros; apply H; [by right|done])).
  destruct (f x) eqn:Ef, (g x) eqn:Eg; cbn [List.filter]; rewrite ?Eg, ?IH; try done.
  by rewrite (H x ltac:(left) Eg) in Ef.
Qed.

Section join_score.
Context (topology : Topology) (hops : nat) (rows : list Row) (src dst : string) (hop : HopCeiling).
Context (p : JoinParams) (receiver_start : string).
Context (Hrec : recorded hops rows) (Hpoints : ∀ q, q ∈ points hops → q ∈ point_names topology).
Context (Hends : ∀ r, r ∈ rows → w_start r <= w_end r ∧ w_handler r <= w_end r).
Context (Hhop : od_get (hop_where src dst) (timing_hops topology) = Some hop).
Context (Hsrc : hc_src hop = src) (Hdst : hc_dst hop = dst) (Hsd : src ≠ dst).
Context (Hp : _validate_params p = Ok tt) (Hm : 0 <= jp_margin_us p) (Hc : 1 <= jp_max_component p).
Notation side_rows := (List.filter (on_sides src dst) rows).
Notation obs := (timed_of dst receiver_start <$> side_rows).

Lemma obs_accepted : ∃ distinct, _deduplicated topology obs = Ok (distinct, 0) ∧ distinct ≡ₚ obs.
Proof using Hrec Hpoints Hends.
  assert (NoDup (identity <$> obs)) as Hn.
  { rewrite <- list_fmap_compose. apply (NoDup_filter_bool row_id), (rc_once _ _ Hrec). }
  destruct (deduplicate_total (_validate (point_names topology)) _ _ timed_content_inj obs) as (distinct & dropped & E).
  - apply Forall_forall. intros o (r & -> & [Hr _]%elem_of_filter_bool)%list_elem_of_fmap. unfold _validate, timed_of. cbn [o_point o_side o_start_us o_end_us].
    rewrite (bool_decide_eq_true_2 (w_point r ∈ _)) by by apply Hpoints, (rc_point _ _ Hrec). cbn [check mbind res_bind].
    rewrite (bool_decide_eq_true_2 (w_side r ∈ _)) by by apply (rc_side _ _ Hrec). cbn [check mbind res_bind].
    destruct (Hends r Hr) as [? ?]. destruct (_ && _); rewrite (proj2 (Z.ltb_ge _ _)) by lia; done.
  - intros a b Ha Hb. by apply (NoDup_fmap_inj identity obs).
  - pose proof (deduplicate_spec _ _ _ timed_content_inj _ _ _ E) as (_ & _ & Hnd & He & Hl).
    assert (distinct ≡ₚ obs) as Hd by (apply NoDup_Permutation; [by eapply NoDup_fmap_1|by eapply NoDup_fmap_1|done]).
    exists distinct. split; [|done]. unfold _deduplicated. rewrite E. do 2 f_equal. apply Permutation_length in Hd. lia.
Qed.
(** The observations of a side are those of its rows. *)
Lemma obs_side distinct point side : distinct ≡ₚ obs → (point, side) ∈ [(src, "outbound"%string); (dst, "inbound"%string)] →
  on_side distinct (point, side) ≡ₚ timed_of dst receiver_start <$> rows_on rows point side.
Proof.
  intros Hd Hs. unfold on_side. rewrite (filter_bool_perm _ _ _ Hd). unfold rows_on.
  rewrite <- (filter_twice (on_sides src dst) (λ r, bool_decide ((w_point r, w_side r) = (point, side))) rows).
  - by rewrite filter_fmap.
  - intros r _ E%bool_decide_eq_true. unfold on_sides. rewrite E. rewrite !elem_of_cons, elem_of_nil in Hs.
    destruct Hs as [[= -> ->]|[[= -> ->]|[]]]; [by rewrite bool_decide_eq_true_2|].
    rewrite (bool_decide_eq_true_2 (_ = (dst, _))) by done. apply orb_true_r.
Qed.
Notation truth := (foldl (λ m r, <[row_id r := w_truth r]> m) (∅ : gmap (string * Z) string) side_rows).
Lemma truth_lookup r : r ∈ side_rows → truth !! row_id r = Some (w_truth r).
Proof using Hrec. intros Hr. apply foldl_insert_lookup; [|done]. apply NoDup_filter_bool, (rc_once _ _ Hrec). Qed.

(** The rows at the ends of a link. *)
Lemma link_rows ls us distinct l : distinct ≡ₚ obs → accounted (hop_where src dst) p
    (on_side distinct (src, "outbound"%string)) (on_side distinct (dst, "inbound"%string)) ls us → l ∈ ls →
  ∃ a b, a ∈ rows_on rows src "outbound" ∧ b ∈ rows_on rows dst "inbound" ∧
    dl_upstream l = row_id a ∧ dl_downstream l = row_id b.
Proof.
  intros Hd Ha Hl. destruct (ac_links _ _ _ _ _ _ Ha l Hl) as (_ & a & b & Ha' & Hb' & -> & _).
  rewrite (obs_side distinct) in Ha' by (done || left). rewrite (obs_side distinct) in Hb' by (done || right; left).
  apply list_elem_of_fmap in Ha' as (r & -> & Hr), Hb' as (r' & -> & Hr'). by exists r, r'.
Qed.
Lemma rows_on_side r point side : r ∈ rows_on rows point side → (point, side) ∈ [(src, "outbound"%string); (dst, "inbound"%string)] →
  r ∈ side_rows.
Proof.
  intros [Hr E%bool_decide_eq_true]%elem_of_filter_bool Hs. apply elem_of_filter_bool. split; [done|]. unfold on_sides. rewrite E.
  rewrite !elem_of_cons, elem_of_nil in Hs. destruct Hs as [[= -> ->]|[[= -> ->]|[]]]; [by rewrite bool_decide_eq_true_2|].
  rewrite (bool_decide_eq_true_2 (_ = (dst, _))) by done. apply orb_true_r.
Qed.
Lemma rows_truths r point side : r ∈ rows_on rows point side → (point, side) ∈ [(src, "outbound"%string); (dst, "inbound"%string)] →
  w_truth r ∈ truths point side_rows.
Proof.
  intros Hr Hs. apply elem_of_list_to_set, list_elem_of_fmap. exists r. split; [done|].
  apply elem_of_filter_bool. split; [by eapply rows_on_side|]. apply elem_of_filter_bool in Hr as [_ E%bool_decide_eq_true].
  apply bool_decide_eq_true_2. by injection E.
Qed.

Lemma upstream_NoDup ls us distinct : distinct ≡ₚ obs → accounted (hop_where src dst) p
    (on_side distinct (src, "outbound"%string)) (on_side distinct (dst, "inbound"%string)) ls us → NoDup (dl_upstream <$> ls).
Proof.
  intros Hd Ha. pose proof (ac_up _ _ _ _ _ _ Ha) as Hperm. apply (NoDup_app _ (ends "outbound" us)). rewrite Hperm.
  rewrite (obs_side distinct) by (done || left). rewrite <- list_fmap_compose. apply (NoDup_filter_bool row_id), (rc_once _ _ Hrec).
Qed.
(** The correct links are of requests seen on both sides, each once when its upstream row is. *)
Lemma correct_both ls us distinct : distinct ≡ₚ obs → accounted (hop_where src dst) p
    (on_side distinct (src, "outbound"%string)) (on_side distinct (dst, "inbound"%string)) ls us →
  NoDup (w_truth <$> rows_on rows src "outbound") →
  (length (List.filter id ((λ l, bool_decide (truth !! dl_upstream l = truth !! dl_downstream l)) <$> ls)) <=
   size (truths src side_rows ∩ truths dst side_rows))%nat.
Proof.
  intros Hd Ha Hn. rewrite filter_fmap, length_fmap. cbn [id]. set (ok := λ l, bool_decide _).
  set (t := λ l, default ""%string (truth !! dl_upstream l)).
  assert (∀ l, l ∈ ls → ∃ a b, a ∈ rows_on rows src "outbound" ∧ b ∈ rows_on rows dst "inbound" ∧
    dl_upstream l = row_id a ∧ dl_downstream l = row_id b ∧ truth !! dl_upstream l = Some (w_truth a) ∧
    truth !! dl_downstream l = Some (w_truth b)) as Hl.
  { intros l Hl. destruct (link_rows ls us distinct l Hd Ha Hl) as (a & b & Hra & Hrb & Ea & Eb). exists a, b.
    rewrite Ea, Eb. rewrite !truth_lookup by (eapply rows_on_side; [done|left || (right; left)]). done. }
  rewrite <- (length_fmap t), <- (size_list_to_set (C := gset string)).
  - apply subseteq_size. intros x (l & -> & [Hin E%bool_decide_eq_true]%elem_of_filter_bool)%elem_of_list_to_set%list_elem_of_fmap.
    destruct (Hl l Hin) as (a & b & Hra & Hrb & _ & _ & Ta & Tb). unfold t. rewrite Ta, Tb in E. rewrite Ta. injection E as E.
    apply elem_of_intersection. split; simpl; [|rewrite E]; eapply rows_truths; try done; [left|right; left].
  - apply NoDup_fmap_2_strong.
    + intros l l' [Hin _]%elem_of_filter_bool [Hin' _]%elem_of_filter_bool E.
      destruct (Hl l Hin) as (a & b & Hra & _ & Ea & _ & Ta & _), (Hl l' Hin') as (a' & b' & Hra' & _ & Ea' & _ & Ta' & _).
      unfold t in E. rewrite Ta, Ta' in E. simpl in E.
      assert (a = a') as <- by by apply (NoDup_fmap_inj w_truth (rows_on rows src "outbound")).
      apply (NoDup_fmap_inj dl_upstream ls); [by eapply upstream_NoDup|done..|congruence].
    + apply (NoDup_fmap_1 dl_upstream), NoDup_filter_bool. by eapply upstream_NoDup.
Qed.

Lemma score_join_ok rate_ : Z.of_nat (length rows) <= 2 ^ 40 →
  ∃ s, score_join topology rows (hop_where src dst) src dst p receiver_start rate_ = Ok s ∧ join_scored rows src dst s.
Proof.
  intros Hlen. destruct obs_accepted as (distinct & Hd & Hperm).
  destruct (timed_links_ok topology obs [(hop_where src dst, p)] distinct 0) as (result & Hr & _ & [J1 J2 J3] & Hcs);
    [repeat constructor; apply not_elem_of_nil| |done|].
  { intros e ->%list_elem_of_singleton. split_and!; [by eexists|done..]. }
  pose proof (J1 _ p hop ltac:(left) Hhop) as Ha. rewrite Hsrc, Hdst in Ha. unfold links_at, undecided_at in Ha.
  rewrite (filter_bool_all _ (r_links result)), (filter_bool_all _ (r_undecided result)) in Ha.
  2: { intros u Hu%J3%list_elem_of_singleton. by apply bool_decide_eq_true_2. }
  2: { intros l Hl%J2%list_elem_of_singleton. by apply bool_decide_eq_true_2. }
  set (ls := r_links result) in *. set (us := r_undecided result) in *.
  unfold score_join. cbn zeta. rewrite Hr. cbn [mbind res_bind]. fold ls us.
  rewrite (map_res_fmap _ (λ l, bool_decide (truth !! dl_upstream l = truth !! dl_downstream l))).
  2: { intros l Hl. destruct (link_rows ls us distinct l Hperm Ha Hl) as (a & b & Hra & Hrb & Ea & Eb).
       rewrite Ea, Eb. rewrite !truth_lookup by (eapply rows_on_side; [done|left || (right; left)]).
       cbn [get mbind res_bind]. f_equal. apply bool_decide_ext. split; congruence. }
  cbn [mbind res_bind].
  destruct (component_sizes_total (sorted (r_components result).*2)) as [[[c50 c99] cmax] ->].
  { unfold sorted. rewrite length_sorted_by, length_fmap. simpl in Hcs.
    pose proof (Permutation_length Hperm) as Hl. rewrite length_fmap in Hl.
    pose proof (sublist_length _ _ (sublist_filter_bool_sub (on_sides src dst) rows)). lia. }
  destruct (validated_head p Hp) as (first & rest & ->). cbn [mbind res_bind head get].
  eexists. split; [reflexivity|].
  pose proof (Permutation_length (ac_up _ _ _ _ _ _ Ha)) as Hup.
  pose proof (Permutation_length (ac_down _ _ _ _ _ _ Ha)) as Hdown.
  rewrite length_app, !length_fmap in Hup, Hdown.
  rewrite (Permutation_length (obs_side distinct _ _ Hperm ltac:(left))), length_fmap in Hup.
  rewrite (Permutation_length (obs_side distinct _ _ Hperm ltac:(right; left))), length_fmap in Hdown.
  split; simpl.
  - pose proof (sublist_length _ _ (sublist_filter_bool_sub id
      ((λ l, bool_decide (truth !! dl_upstream l = truth !! dl_downstream l)) <$> ls))) as H. rewrite length_fmap in H. lia.
  - pose proof (left_statuses us (λ u Hu, proj2 (ac_undecided _ _ _ _ _ _ Ha u Hu))). lia.
  - lia.
  - intros Hn. apply inj_le. by eapply correct_both.
Qed.
End join_score.

(** ** Guarantees *)

(** Parameters of a hop of the chain that the timed path accepts. *)
Definition on_chain (hops : nat) (e : string * (JoinParams * string)) : Prop :=
  ∃ src dst, (src, dst) ∈ pairwise (points hops) ∧ e.1 = hop_where src dst ∧
    _validate_params e.2.1 = Ok tt ∧ 0 <= jp_margin_us e.2.1 ∧ 1 <= jp_max_component e.2.1.

(** C34: a calibrated cell is always scored, and every upstream observation is counted once.
    For a chain of at most five hops, a non-empty log, records that end after they start
    (up to 2^40) and acceptable parameters for hops of the chain, the analysis returns one
    score per calibrated join; in each, links are correct or wrong, the links and the five
    undecided counts add up to the upstream observations, the links are at most the
    downstream ones, and the correct links are at most the requests seen on both sides when
    no request is seen twice upstream. *)
Theorem timed_cell_scored repr py_str format_g log outside spans meta data check_load stress rows measured joins :
  (tm_hops meta <= MAX_HOPS)%nat → log ≠ [] →
  records log outside spans meta = Ok (rows, measured) →
  (∀ r, r ∈ rows → w_start r <= w_end r ∧ w_handler r <= w_end r) → Z.of_nat (length rows) <= 2 ^ 40 →
  params_for data meta check_load stress = Ok joins → (∀ e, e ∈ joins → on_chain (tm_hops meta) e) →
  ∃ cell, analyze_cell repr py_str format_g log outside spans meta data check_load stress = Ok cell ∧
    (cs_joins cell).*1 = (sorted_by fst joins).*1 ∧
    ∀ where_ s, (where_, s) ∈ cs_joins cell → ∃ src dst,
      (src, dst) ∈ pairwise (points (tm_hops meta)) ∧ where_ = hop_where src dst ∧ join_scored rows src dst s.
Proof.
  intros Hh Hlog Hrec Hends Hlen Hparams Hjoins.
  destruct (chain_topology repr py_str format_g _ Hh) as (topology & Ht & Hp & Hchain).
  destruct (records_ok _ _ _ _ _ _ Hrec) as [Hr Hlg]. destruct (rate_total rows (Hlg Hlog)) as [x Hx].
  unfold analyze_cell. rewrite Ht. cbn [mbind res_bind]. rewrite Hrec. cbn [mbind res_bind]. rewrite Hparams. cbn [mbind res_bind].
  assert (∃ used, calibrated_concurrency data meta stress = Ok used) as [used ->].
  { unfold params_for in Hparams. inv_res. eauto. }
  cbn [mbind res_bind]. rewrite Hx. cbn [mbind res_bind]. set (f := λ e : string * (JoinParams * string), _).
  assert (∀ e, e ∈ sorted_by fst joins → ∃ s, f e = Ok (e.1, s) ∧ ∃ src dst, (src, dst) ∈ pairwise (points (tm_hops meta)) ∧
    e.1 = hop_where src dst ∧ join_scored rows src dst s) as Hone.
  { intros e He. rewrite elem_of_sorted_by in He. destruct (Hjoins e He) as (src & dst & Hin & Ew & Hv & Hm & Hc).
    destruct (Hchain src dst Hin) as (Ee & Hne & hop & Hget & Hs & Hd).
    destruct (score_join_ok topology (tm_hops meta) rows src dst hop e.2.1 e.2.2 Hr Hp Hends Hget Hs Hd Hv Hm Hc x Hlen) as (s & Es & Hsc).
    exists s. split; [|by exists src, dst]. unfold f. rewrite Ew, Ee. cbn [mbind res_bind]. by rewrite Es. }
  destruct (map_res_total f (sorted_by fst joins)) as [scores Hs].
  { intros e He. destruct (Hone e He) as (s & ? & _). eauto. }
  rewrite Hs. cbn [mbind res_bind]. eexists. split; [reflexivity|]. cbn [cs_joins]. apply map_res_Forall2 in Hs. split.
  - clear -Hs Hone. induction Hs as [|e r l k He _ IH]; [done|]. rewrite !fmap_cons. f_equal.
    + destruct (Hone e ltac:(left)) as (s & Es & _). rewrite Es in He. by injection He as <-.
    + apply IH. intros; apply Hone; by right.
  - intros w s Hin. apply list_elem_of_lookup in Hin as [i Hi]. destruct (Forall2_lookup_r _ _ _ _ _ Hs Hi) as (e & Hei & He).
    destruct (Hone e ltac:(by eapply list_elem_of_lookup_2)) as (s' & Es & src & dst & ? & Ew & ?).
    rewrite Es in He. injection He as <- <-. by exists src, dst.
Qed.

(** ** Witnesses *)

Definition ex_truth (last : string) : string := "0af" +:+ last.
Definition ex_logged (t : string) (at_ms : Z) : json :=
  JObj [("trace_id", JStr t); ("timestamp_ns", JInt (at_ms * 1000000)); ("duration_ns", JInt 2000000)]%string.
Definition ex_span (t : string) (at_us : Z) : json :=
  JObj [("kind", JStr "SPAN_KIND_SERVER"); ("start", JInt at_us); ("end", JInt (at_us + 1500));
        ("attributes", JObj [("url", JStr ("/truth-" +:+ t)); ("serverAddr", JStr "hop-1")])]%string.
Definition ex_log : list json := [ex_logged (ex_truth "1") 1000; ex_logged (ex_truth "2") 1500].
Definition ex_spans : list json := [ex_span (ex_truth "1") 1000250; ex_span (ex_truth "2") 1500240].
Definition ex_meta : TimedMeta := mkTimedMeta 1 9000 "obi" (Some 5) 0.
Definition ex_table : Value :=
  VTable [("receiver_start", VStr "start"); ("margin_us", VInt 10); ("local_span_us", VInt 20000);
          ("local_limit_permille", VInt 400);
          ("signals", VList [VTable [("name", VStr "start"); ("offset_us", VInt 245); ("window_us", VInt 30)]])]%string.
Definition ex_data : list (string * Value) :=
  [("load_cores", VInt 0); ("obi", VTable [("c5", VTable [("load-gen -> hop-1", ex_table)])])]%string.
Definition ex_rows : list Row * gset string :=
  match records ex_log [] ex_spans ex_meta with Ok r => r | Raise _ => ([], ∅) end.
Definition ex_joins : odict string (JoinParams * string) :=
  match params_for ex_data ex_meta true false with Ok j => j | Raise _ => [] end.
Example timed_cell_ex :
  (λ c, (λ e : string * JoinScore, (e.1, js_links e.2, js_correct e.2, js_both_seen e.2, js_feasible e.2)) <$> cs_joins c) <$>
    analyze_cell (λ _, "") (λ _, "") (λ _, "") ex_log [] ex_spans ex_meta ex_data true false =
  Ok [("load-gen -> hop-1", 2, 2, 2, true)]%string.
Proof. vm_compute. reflexivity. Qed.
Example other_load :
  params_for ex_data (mkTimedMeta 1 9000 "obi" (Some 5) 4) true false =
    Raise (ValueError "calibrated under a load the run did not have") ∧
  calibrated_concurrency ex_data (mkTimedMeta 1 9000 "obi" (Some 500) 4) true = Ok (Some 5).
Proof. split; vm_compute; reflexivity. Qed.
Lemma timed_cell_scored_witness : ∃ cell,
  analyze_cell (λ _, "") (λ _, "") (λ _, "") ex_log [] ex_spans ex_meta ex_data true false = Ok cell ∧
    (cs_joins cell).*1 = (sorted_by fst ex_joins).*1 ∧
    ∀ where_ s, (where_, s) ∈ cs_joins cell → ∃ src dst,
      (src, dst) ∈ pairwise (points 1) ∧ where_ = hop_where src dst ∧ join_scored ex_rows.1 src dst s.
Proof.
  apply (timed_cell_scored _ _ _ ex_log [] ex_spans ex_meta ex_data true false ex_rows.1 ex_rows.2 ex_joins).
  - vm_compute. lia.
  - discriminate.
  - vm_compute. reflexivity.
  - apply Forall_forall. vm_compute. repeat constructor; discriminate.
  - vm_compute. discriminate.
  - vm_compute. reflexivity.
  - apply Forall_forall. constructor; [|constructor]. exists "load-gen"%string, "hop-1"%string. split_and!; [|reflexivity..|vm_compute; discriminate|vm_compute; discriminate].
    vm_compute. left.
Defined.
