(* ===== verification/Calibrate.v ===== *)
(** * Calibrate: the parameters of the timing path, from calibration runs

    [m0-harness/calibrate_timing.py].  The true pairs of a join give, for each signal, the
    median gap and the quantiles of the distance to it; the rule keeps one or two signals
    and sets windows and margin from the noisiest run.  Quantile ranks are computed in
    binary floating point.  Writing the parameters as TOML text is not modelled: a table is
    the value [tomllib] reads back, without the keys the timing path does not read. *)

From Stdlib Require Import SpecFloat.
From S2P Require Import Prelude Json Floats Topology Timing TimingTheorems TimingPath.

Definition SIGNALS : list string := ["start"; "end"; "duration"]%string.
Definition LOCATING : list string := ["start"; "end"]%string.
Definition CANDIDATE_RECEIVER_STARTS : list string := ["start"; "handlerStart"]%string.
Definition LOCAL_SPAN_US : Z := 20000.
Definition LOCAL_LIMIT_PERMILLE : Z := 400.
Definition JOINS : list (string * ((string * string) * (string * string))) :=
  [("hop-1 -> fake-upstream", (("hop-1", "outbound"), ("fake-upstream", "inbound")));
   ("load-gen -> hop-1", (("load-gen", "outbound"), ("hop-1", "inbound")))]%string.
(** [0.5], [0.999] *)
Definition P50 : float := fdiv (float_of_int 1) (float_of_int 2).
Definition P999 : float := fdiv (float_of_int 999) (float_of_int 1000).

(** ** Gaps and residuals *)

Definition quantile (values : list Z) (p : float) : res Z :=
  let ordered := sorted values in
  let n := Z.of_nat (length ordered) in
  rank ← trunc (fmul p (float_of_int n));
  let i := Z.min (n - 1) rank in
  get (if i <? 0 then None else ordered !! Z.to_nat i) IndexError.
Definition gap (name : string) (a b : Row) (b_start : Z) : Z :=
  if bool_decide (name = "start"%string) then b_start - w_start a
  else if bool_decide (name = "end"%string) then w_end a - w_end b
  else (w_end a - w_start a) - (w_end b - b_start).

Definition Pair : Type := Row * Row.
(** [{r["truth"]: r for r in rows if (r["point"], r["side"]) == side}] *)
Definition by_truth (rows : list Row) (side : string * string) : gmap string Row :=
  foldl (λ m r, <[w_truth r := r]> m) ∅ (List.filter (λ r, bool_decide ((w_point r, w_side r) = side)) rows).
Definition pairs (rows : list Row) (up down : string * string) : list Pair :=
  let ups := by_truth rows up in
  let downs := by_truth rows down in
  omap (λ t, a ← ups !! t; b ← downs !! t; Some (a, b)) (sorted (elements (dom ups ∩ dom downs))).

Definition b_start (receiver_start : string) (b : Row) : Z :=
  if bool_decide (receiver_start = "handlerStart"%string) then w_handler b else w_start b.
Definition _gaps (true_pairs : list Pair) (name receiver_start : string) : list Z :=
  (λ ab : Pair, gap name ab.1 ab.2 (b_start receiver_start ab.2)) <$> true_pairs.
Definition residuals (gaps : list Z) (offset : Z) : list Z := (λ g, Z.abs (g - offset)) <$> gaps.
Definition residual_quantile (true_pairs : list Pair) (name receiver_start : string) (offset : Z) (p : float) : res Z :=
  quantile (residuals (_gaps true_pairs name receiver_start) offset) p.

Record Stats := mkStats {
  st_offset_us : Z;
  st_p50 : Z;
  st_p99 : Z;
  st_p999 : Z;
  st_max : Z
}.
(** [statistics.median_low]: the middle value, the lower of two. *)
Definition median_low (values : list Z) : res Z :=
  let ordered := sorted values in
  let n := length ordered in
  get (ordered !! (if Nat.odd n then n / 2 else n / 2 - 1)%nat) (ValueError "no median for empty data").
Definition signal_stats (true_pairs : list Pair) (name receiver_start : string) : res Stats :=
  let gaps := _gaps true_pairs name receiver_start in
  offset ← median_low gaps;
  let residual := residuals gaps offset in
  p50 ← quantile residual P50;
  p99 ← quantile residual P99;
  p999 ← quantile residual P999;
  largest ← max_res residual;
  Ok (mkStats offset p50 p99 p999 largest).

(** ** The rule *)

Record Chosen := mkChosen {
  ch_receiver_start : string;
  ch_signals : list Signal;
  ch_margin_us : Z;
  ch_max_component : Z;
  ch_stats : odict string Stats;
  (** [local_span_us] and [local_limit_permille], once they are set *)
  ch_local : option (Z * Z)
}.
(** [SIGNALS.index(n)] *)
Definition signal_index (name : string) : Z :=
  if bool_decide (name = "start"%string) then 0 else if bool_decide (name = "end"%string) then 1 else 2.
Record Choice := mkChoice {
  co_p999 : Z;
  co_receiver_start : string;
  co_stats : odict string Stats;
  co_ranked : list (string * Stats)
}.
(** [ranked.remove(first); ranked.insert(0, first)] *)
Fixpoint remove_first (p : string * Stats → bool) (l : list (string * Stats)) : list (string * Stats) :=
  match l with [] => [] | x :: l => if p x then l else x :: remove_first p l end.
Definition locating (e : string * Stats) : bool := bool_decide (e.1 ∈ LOCATING).
Definition ranked_of (stats : odict string Stats) : res (list (string * Stats)) :=
  let ranked := sorted_by (λ e, (st_p999 e.2, signal_index e.1)) stats in
  first ← get (find locating ranked) StopIteration;
  Ok (first :: remove_first locating ranked).
Definition choice_of (true_pairs : list Pair) (receiver_start : string) : res Choice :=
  stats ← map_res (λ n, s ← signal_stats true_pairs n receiver_start; Ok (n, s)) SIGNALS;
  ranked ← ranked_of stats;
  first ← get (head ranked) IndexError;
  Ok (mkChoice (st_p999 first.2) receiver_start stats ranked).
(** [min(options, key=...)]: the first of the least. *)
Definition choice_key (o : Choice) : Z * bool :=
  (co_p999 o, negb (bool_decide (co_receiver_start o = "start"%string))).
Definition least (options : list Choice) : res Choice :=
  match options with
  | [] => Raise (ValueError "min of an empty sequence")
  | o :: options => Ok (foldl (λ m x, if ltb (choice_key x) (choice_key m) then x else m) o options)
  end.
Definition signal_for (e : string * Stats) : Signal := mkSignal e.1 (st_offset_us e.2) (Z.max 1 (st_p999 e.2)).
Definition choose (true_pairs : list Pair) : res Chosen :=
  options ← map_res (choice_of true_pairs) CANDIDATE_RECEIVER_STARTS;
  o ← least options;
  match co_ranked o with
  | first :: second :: _ =>
      let kept := first :: if st_p999 second.2 <=? 3 * st_p999 first.2 then [second] else [] in
      Ok (mkChosen (co_receiver_start o) (signal_for <$> kept) (st_p99 first.2) 32 (co_stats o) None)
  | _ => Raise IndexError
  end.
Definition choose_across (per_run : list (list Pair)) : res Chosen :=
  chosen ← choose (mjoin per_run);
  let rs := ch_receiver_start chosen in
  signals ← map_res (λ s,
      widest ← map_res (λ run, residual_quantile run (s_name s) rs (s_offset_us s) P999) per_run;
      w ← max_res widest;
      Ok (mkSignal (s_name s) (s_offset_us s) (Z.max 1 w))) (ch_signals chosen);
  first ← get (head signals) IndexError;
  margins ← map_res (λ run, residual_quantile run (s_name first) rs (s_offset_us first) P99) per_run;
  margin ← max_res margins;
  Ok (mkChosen rs signals margin (ch_max_component chosen) (ch_stats chosen) (Some (LOCAL_SPAN_US, LOCAL_LIMIT_PERMILLE))).

(** ** A cell *)

(** Share of pairs whose downstream interval lies inside the upstream one. *)
Definition contained (true_pairs : list Pair) : float :=
  let inside := List.filter (λ ab : Pair, (w_start ab.1 <=? w_start ab.2) && (w_end ab.2 <=? w_end ab.1)) true_pairs in
  if is_nil true_pairs then S754_zero false
  else fdiv (float_of_int (Z.of_nat (length inside))) (float_of_int (Z.of_nat (length true_pairs))).
Record JoinCalibration := mkJoinCalibration {
  jc_chosen : Chosen;
  jc_pairs : Z;
  jc_contained : float;
  jc_density : float;
  jc_feasible : bool
}.
Definition calibrate_join (requests_per_s : float) (per_run : list (list Pair)) : res JoinCalibration :=
  let true_pairs := mjoin per_run in
  chosen ← choose_across per_run;
  first ← get (head (ch_signals chosen)) IndexError;
  let density := density_of requests_per_s (s_window_us first) in
  Ok (mkJoinCalibration chosen (Z.of_nat (length true_pairs)) (round_to 4 (contained true_pairs))
        (round_to 3 density) (feasible density)).
Record Calibration := mkCalibration {
  ca_rate : float;
  ca_joins : odict string JoinCalibration;
  (** pairs, contained and stats of the crossing of hop-1 *)
  ca_crossing : option (Z * float * odict string Stats)
}.
Definition max_rate (rates : list float) : res float :=
  match rates with
  | [] => Raise (ValueError "empty")
  | r :: rates => Ok (foldl (λ m x, if SFltb m x then x else m) r rates)
  end.
Definition calibrate_cell (runs : list (list Row)) : res Calibration :=
  rates ← map_res rate runs;
  requests_per_s ← max_rate rates;
  joins ← map_res (λ e : string * ((string * string) * (string * string)),
      let per_run := (λ rows, pairs rows e.2.1 e.2.2) <$> runs in
      if is_nil (mjoin per_run) then Ok None
      else c ← calibrate_join requests_per_s per_run; Ok (Some (e.1, c))) JOINS;
  let crossing := mjoin ((λ rows, pairs rows ("hop-1", "inbound") ("hop-1", "outbound"))%string <$> runs) in
  crossing ← (if is_nil crossing then Ok None
              else stats ← map_res (λ n, s ← signal_stats crossing n "start"; Ok (n, s)) SIGNALS;
                   Ok (Some (Z.of_nat (length crossing), round_to 4 (contained crossing), stats)));
  Ok (mkCalibration (round_to 1 requests_per_s) (omap id joins) crossing).

(** The one load all calibration runs ran under. *)
Definition load_of (loads : list Z) : res Z :=
  match remove_dups loads with
  | [] => Ok 0
  | [l] => Ok l
  | _ => Raise (ValueError "calibration runs under different loads")
  end.
(** The table [to_toml] writes for a join. *)
Definition signal_table (s : Signal) : Value :=
  VTable [("name", VStr (s_name s)); ("offset_us", VInt (s_offset_us s)); ("window_us", VInt (s_window_us s))]%string.
Definition join_table (c : Chosen) : res (list (string * Value)) :=
  '(span, limit) ← get (ch_local c) KeyError;
  Ok [("receiver_start", VStr (ch_receiver_start c)); ("margin_us", VInt (ch_margin_us c));
      ("local_span_us", VInt span); ("local_limit_permille", VInt limit);
      ("max_component", VInt (ch_max_component c)); ("signals", VList (signal_table <$> ch_signals c))]%string.

(** ** Lemmas: quantiles *)

(** The values within a bound. *)
Definition within (b : Z) (l : list Z) : Z := Z.of_nat (length (List.filter (λ x, x <=? b) l)).

Lemma sorted_counts (l : list Z) i v : StronglySorted (key_le (λ x, x)) l → l !! i = Some v →
  Z.of_nat i + 1 <= within v l.
Proof.
  unfold within. intros Hs. revert i. induction Hs as [|x l _ IH Hx]; intros i Hi; [done|]. cbn [List.filter].
  assert (x <=? v = true) as ->.
  { apply Z.leb_le. destruct i as [|i]; [injection Hi; lia|]. rewrite Forall_forall in Hx.
    specialize (Hx v ltac:(by eapply list_elem_of_lookup_2)). unfold key_le, cmp_le, cmp, Z_cmp in Hx.
    by apply Z.compare_le_iff. }
  cbn [length]. destruct i as [|i]; [lia|]. specialize (IH i Hi). lia.
Qed.

(** A quantile is one of the values, whatever its fraction of 53 digits. *)
Lemma quantile_at a values i : Z.pos (digits2_pos a) = 53 → 1 <= Z.of_nat (length values) <= 2 ^ 40 →
  trunc (fmul (S754_finite false a (-53)) (float_of_int (Z.of_nat (length values)))) = Ok i → 0 <= i →
  ∃ v, quantile values (S754_finite false a (-53)) = Ok v ∧ v ∈ values ∧
    Z.min (Z.of_nat (length values)) (i + 1) <= within v values.
Proof.
  intros Ha Hn Hi Hi0. unfold quantile. cbn zeta. unfold sorted. rewrite length_sorted_by, Hi. cbn [mbind res_bind].
  set (n := Z.of_nat (length values)) in *. set (l := sorted_by _ values).
  assert (l ≡ₚ values) as Hp by apply sorted_by_perm.
  rewrite (proj2 (Z.ltb_ge (Z.min (n - 1) i) 0)) by lia.
  destruct (l !! Z.to_nat (Z.min (n - 1) i)) as [v|] eqn:E.
  2: { apply lookup_ge_None in E. rewrite Hp in E. lia. }
  exists v. split; [done|]. split; [rewrite <- Hp; by eapply list_elem_of_lookup_2|].
  unfold within. rewrite <- (Permutation_length (filter_bool_perm (λ x, x <=? v) _ _ Hp)).
  pose proof (sorted_counts l _ v (sorted_by_sorted _ _) E) as H. unfold within in H. lia.
Qed.
Lemma quantile_total a values : Z.pos (digits2_pos a) = 53 → 1 <= Z.of_nat (length values) <= 2 ^ 40 →
  ∃ v, quantile values (S754_finite false a (-53)) = Ok v ∧ v ∈ values.
Proof.
  intros Ha Hn. destruct (trunc_product a _ Ha Hn) as (i & Hi & Hi0).
  destruct (quantile_at a values i Ha Hn Hi Hi0) as (v & ? & ? & _). eauto.
Qed.
(** A fraction rounded down covers its share of the values. *)
Lemma quantile_covers p den a values : 2 <= den <= 1000 → p <= den → Z.pos (digits2_pos a) = 53 →
  Z.pos a * den < p * 2 ^ 53 <= (Z.pos a + 1) * den → 1 <= Z.of_nat (length values) <= 2 ^ 40 →
  ∃ v, quantile values (S754_finite false a (-53)) = Ok v ∧ v ∈ values ∧
    p * Z.of_nat (length values) <= den * within v values.
Proof.
  intros Hden Hp Ha [H1 H2] Hn. destruct (product_between p den a Hden Ha H1 H2 _ Hn) as (m & e & k & E & He & Hk1 & Hk & Hm).
  destruct (trunc_between m e k He Hm) as (i & Hi & Hi2). rewrite <- E in Hi.
  destruct (quantile_at a values i Ha Hn Hi ltac:(lia)) as (v & Hv & Hin & Hw). exists v. split_and!; [done..|]. nia.
Qed.
Lemma quantile_999 values : 1 <= Z.of_nat (length values) <= 2 ^ 40 →
  ∃ v, quantile values P999 = Ok v ∧ v ∈ values ∧ 999 * Z.of_nat (length values) <= 1000 * within v values.
Proof. by apply (quantile_covers 999 1000 8998192055486251). Qed.
Lemma quantile_99 values : 1 <= Z.of_nat (length values) <= 2 ^ 40 →
  ∃ v, quantile values P99 = Ok v ∧ v ∈ values ∧ 99 * Z.of_nat (length values) <= 100 * within v values.
Proof. by apply (quantile_covers 99 100 8917127262193582). Qed.
Lemma quantile_50 values : 1 <= Z.of_nat (length values) <= 2 ^ 40 → ∃ v, quantile values P50 = Ok v ∧ v ∈ values.
Proof. by apply (quantile_total 4503599627370496). Qed.

(** ** Lemmas: the statistics of the true pairs *)

Definition small {A} (l : list A) : Prop := 1 <= Z.of_nat (length l) <= 2 ^ 40.
Lemma length_residuals l name rs offset : length (residuals (_gaps l name rs) offset) = length l.
Proof. unfold residuals, _gaps. by rewrite !length_fmap. Qed.
Lemma median_total l : l ≠ [] → ∃ v, median_low l = Ok v ∧ v ∈ l.
Proof.
  intros Hl. unfold median_low, sorted. rewrite length_sorted_by. cbn zeta. set (k := sorted_by _ l).
  assert (k ≡ₚ l) as Hp by apply sorted_by_perm.
  assert ((if Nat.odd (length l) then length l / 2 else length l / 2 - 1) < length k)%nat as Hi.
  { rewrite Hp. assert (length l ≠ 0%nat) by by destruct l.
    pose proof (Nat.div_lt (length l) 2 ltac:(lia) ltac:(lia)). destruct (Nat.odd _); lia. }
  apply lookup_lt_is_Some in Hi as [v Hv]. rewrite Hv. exists v. split; [done|].
  rewrite <- Hp. by eapply list_elem_of_lookup_2.
Qed.
Lemma max_res_total l : l ≠ [] → ∃ v, max_res l = Ok v ∧ v ∈ l ∧ ∀ x, x ∈ l → x <= v.
Proof.
  destruct l as [|y l]; [done|]. intros _. exists (foldl Z.max y l). split; [done|]. split.
  - clear. revert y. induction l as [|x l IH]; intros y; simpl; [left|].
    specialize (IH (Z.max y x)). apply elem_of_cons in IH as [-> | IH]; [|by right; right].
    destruct (Z.max_spec y x) as [[_ ->]|[_ ->]]; [right; left|left].
  - pose proof (foldl_max_ge l y) as [H1 H2]. intros x [-> |Hx]%elem_of_cons; [done|by apply H2].
Qed.
Lemma stats_total l name rs : small l → ∃ s, signal_stats l name rs = Ok s ∧
  residual_quantile l name rs (st_offset_us s) P999 = Ok (st_p999 s) ∧
  residual_quantile l name rs (st_offset_us s) P99 = Ok (st_p99 s).
Proof.
  intros Hl. unfold signal_stats, residual_quantile.
  destruct (median_total (_gaps l name rs)) as (offset & -> & _).
  { intros E. apply (f_equal length) in E. unfold _gaps in E. rewrite length_fmap in E. unfold small in Hl. simpl in E. lia. }
  cbn [mbind res_bind]. set (r := residuals _ offset).
  assert (small r) as Hr by (unfold small, r; by rewrite length_residuals).
  destruct (quantile_50 r Hr) as (p50 & -> & _), (quantile_99 r Hr) as (p99 & E99 & _), (quantile_999 r Hr) as (p999 & E999 & _).
  rewrite E99, E999. cbn [mbind res_bind]. destruct (max_res_total r) as (m & -> & _).
  { intros E. rewrite E in Hr. unfold small in Hr. simpl in Hr. lia. }
  eexists. split; [reflexivity|]. simpl. by rewrite <- E99, <- E999.
Qed.

(** ** Lemmas: the ranking *)

Lemma remove_first_perm p l x : find p l = Some x → x :: remove_first p l ≡ₚ l.
Proof.
  induction l as [|y l IH]; [done|]. simpl. destruct (p y); [by intros [= ->]|].
  intros H. rewrite <- (IH H) at 2. apply Permutation_swap.
Qed.
Lemma remove_first_sublist p l : sublist (remove_first p l) l.
Proof. induction l as [|y l IH]; [done|]. simpl. destruct (p y); [by constructor|by constructor]. Qed.
Lemma find_least (R : string * Stats → string * Stats → Prop) p l x : StronglySorted R l → find p l = Some x →
  p x = true ∧ ∀ y, y ∈ l → p y = true → y = x ∨ R x y.
Proof.
  induction 1 as [|z l _ IH Hz]; [done|]. simpl. destruct (p z) eqn:Ez.
  - intros [= <-]. split; [done|]. intros y [-> |Hy]%elem_of_cons _; [by left|right].
    rewrite Forall_forall in Hz. by apply Hz.
  - intros H. destruct (IH H) as [Hx Hl]. split; [done|]. intros y [-> |Hy]%elem_of_cons E; [congruence|by apply Hl].
Qed.

Definition quieter (a b : string * Stats) : Prop := st_p999 a.2 <= st_p999 b.2.
(** The ranking of three signals: the quietest that places a request, then the others. *)
Record ranking (stats : odict string Stats) (first second third : string * Stats) : Prop := {
  rk_all : [first; second; third] ≡ₚ stats;
  rk_locating : first.1 ∈ LOCATING;
  rk_first e : e ∈ stats → e.1 ∈ LOCATING → quieter first e;
  rk_second : quieter second third
}.
Lemma ranked_spec s0 s1 s2 : let stats := [("start"%string, s0); ("end"%string, s1); ("duration"%string, s2)] in
  ∃ first second third, ranked_of stats = Ok [first; second; third] ∧ ranking stats first second third.
Proof.
  intros stats. unfold ranked_of. set (key := λ e : string * Stats, (st_p999 e.2, signal_index e.1)).
  set (l := sorted_by key stats). assert (l ≡ₚ stats) as Hp by apply sorted_by_perm.
  assert (StronglySorted (λ a b, quieter a b) l) as Hs.
  { eapply StronglySorted_weaken; [|exact (sorted_by_sorted key stats)]. intros a b Hab%cmp_le_fst.
    by apply Z.compare_le_iff. }
  destruct (find locating l) as [first|] eqn:Ef.
  2: { assert (("start"%string, s0) ∈ l) as Hin by (rewrite Hp; left). apply list_elem_of_In in Hin.
       by pose proof (find_none _ _ Ef _ Hin). }
  cbn [get mbind res_bind]. pose proof (remove_first_perm _ _ _ Ef) as Hr.
  pose proof (find_least _ _ _ _ Hs Ef) as [Hloc Hleast].
  assert (length (first :: remove_first locating l) = 3%nat) as Hlen by by rewrite Hr, Hp.
  pose proof (remove_first_sublist locating l) as Hsub.
  destruct (remove_first locating l) as [|second [|third [|]]]; try done.
  exists first, second, third. split; [done|]. split.
  - by rewrite Hr.
  - by apply bool_decide_eq_true in Hloc.
  - intros e He Hl. rewrite <- Hp in He. assert (locating e = true) as Hle by by apply bool_decide_eq_true_2.
    destruct (Hleast e He Hle) as [-> |?]; [unfold quieter; lia|done].
  - assert (StronglySorted (λ a b, quieter a b) [second; third]) as H23 by by eapply StronglySorted_sublist.
    apply StronglySorted_inv in H23 as [_ Hf]. exact (Forall_inv Hf).
Qed.

(** ** The rule, on one set of true pairs *)

(** The choice a start of the receiver gives. *)
Record chosen_with (l : list Pair) (rs : string) (stats : odict string Stats)
    (first second third : string * Stats) : Prop := {
  cw_stats n s : (n, s) ∈ stats → signal_stats l n rs = Ok s;
  cw_names : stats.*1 = SIGNALS;
  cw_ranking : ranking stats first second third
}.
Lemma choice_total l rs : small l → ∃ stats first second third,
  choice_of l rs = Ok (mkChoice (st_p999 first.2) rs stats [first; second; third]) ∧
  chosen_with l rs stats first second third.
Proof.
  intros Hl. unfold choice_of, SIGNALS. cbn [map_res].
  destruct (stats_total l "start" rs Hl) as (s0 & E0 & _), (stats_total l "end" rs Hl) as (s1 & E1 & _),
    (stats_total l "duration" rs Hl) as (s2 & E2 & _). rewrite E0, E1, E2. cbn [mbind res_bind].
  destruct (ranked_spec s0 s1 s2) as (first & second & third & -> & Hr). cbn [mbind res_bind head get].
  do 4 eexists. split; [reflexivity|]. split; [|done|done].
  intros n s. rewrite !elem_of_cons, elem_of_nil. naive_solver.
Qed.

(** What the documentation of the rule says. *)
Record rule (l : list Pair) (c : Chosen) : Prop := {
  ru_receiver : ch_receiver_start c ∈ CANDIDATE_RECEIVER_STARTS;
  ru_stats n s : (n, s) ∈ ch_stats c → signal_stats l n (ch_receiver_start c) = Ok s;
  ru_names : (ch_stats c).*1 = SIGNALS;
  ru_signals : ∃ first second third, ranking (ch_stats c) first second third ∧
    ch_signals c = signal_for <$> first :: (if st_p999 second.2 <=? 3 * st_p999 first.2 then [second] else []) ∧
    ch_margin_us c = st_p99 first.2 ∧
    ∀ rs stats first' second' third', rs ∈ CANDIDATE_RECEIVER_STARTS →
      chosen_with l rs stats first' second' third' → quieter first first' ∧
      (ch_receiver_start c = "handlerStart"%string → rs = "start"%string → st_p999 first.2 < st_p999 first'.2);
  ru_component : ch_max_component c = 32;
  ru_local : ch_local c = None
}.
Lemma chosen_with_fun l rs stats first second third stats' first' second' third' :
  chosen_with l rs stats first second third → chosen_with l rs stats' first' second' third' →
  st_p999 first.2 = st_p999 first'.2.
Proof.
  intros [Hs Hn [Ha Hl Hf _]] [Hs' Hn' [Ha' Hl' Hf' _]].
  assert (∀ (st1 st2 : odict string Stats) (e : string * Stats), (∀ n s, (n, s) ∈ st1 → signal_stats l n rs = Ok s) →
    (∀ n s, (n, s) ∈ st2 → signal_stats l n rs = Ok s) → st2.*1 = SIGNALS → st1.*1 = SIGNALS → e ∈ st1 → e ∈ st2) as Hsame.
  { intros st1 st2 [n s] H1 H2 N2 N1 He. assert (n ∈ st2.*1) as Hin.
    { rewrite N2, <- N1. apply list_elem_of_fmap. by exists (n, s). }
    apply list_elem_of_fmap in Hin as ([n' s'] & -> & Hin). pose proof (H1 _ _ He) as Q1. pose proof (H2 _ _ Hin) as Q2.
    simpl in Q1. rewrite Q1 in Q2. by injection Q2 as <-. }
  assert (first ∈ stats ∧ first' ∈ stats') as [Hin Hin'] by (rewrite <- Ha, <- Ha'; split; left).
  pose proof (Hf first' ltac:(by eapply (Hsame stats')) Hl') as Q1. pose proof (Hf' first ltac:(by eapply (Hsame stats)) Hl) as Q2.
  unfold quieter in *. lia.
Qed.
Lemma choose_ok l : small l → ∃ c, choose l = Ok c ∧ rule l c.
Proof.
  intros Hl. unfold choose, CANDIDATE_RECEIVER_STARTS. cbn [map_res].
  destruct (choice_total l "start" Hl) as (st & f & s & t & E & Hw), (choice_total l "handlerStart" Hl) as (st' & f' & s' & t' & E' & Hw').
  rewrite E, E'. cbn [mbind res_bind least foldl].
  set (o := mkChoice _ "start" _ _). set (o' := mkChoice _ "handlerStart" _ _).
  assert (ltb (choice_key o') (choice_key o) = true ↔ st_p999 f'.2 < st_p999 f.2) as Hlt.
  { unfold ltb, choice_key. rewrite cmp_pair. cbn [co_p999 o o' fst]. unfold cmp at 1, Z_cmp.
    destruct (Z.compare_spec (st_p999 f'.2) (st_p999 f.2)); simpl; split; (done || lia). }
  assert (∀ rs, rs ∈ ["start"; "handlerStart"]%string → ∀ stats a b c, chosen_with l rs stats a b c →
    rs = "start"%string ∧ st_p999 a.2 = st_p999 f.2 ∨ rs = "handlerStart"%string ∧ st_p999 a.2 = st_p999 f'.2) as Hcase.
  { intros rs Hrs stats a b c Hc. rewrite !elem_of_cons, elem_of_nil in Hrs. destruct Hrs as [-> |[-> |[]]]; [left|right];
      (split; [done|by eapply chosen_with_fun]). }
  destruct (ltb _ _) eqn:El.
  - cbn [co_ranked o']. eexists. split; [reflexivity|]. destruct Hw' as [W1 W2 W3]. split; [set_solver|done|done| |done|done].
    exists f', s', t'. split_and!; [done..|]. intros rs stats a b c Hrs Hc.
    destruct (Hcase rs Hrs _ _ _ _ Hc) as [[-> E1]|[-> E1]]; unfold quieter; pose proof (proj1 Hlt eq_refl); (split; [lia|intros; lia || done]).
  - cbn [co_ranked o]. eexists. split; [reflexivity|]. destruct Hw as [W1 W2 W3]. split; [set_solver|done|done| |done|done].
    exists f, s, t. split_and!; [done..|]. intros rs stats a b c Hrs Hc.
    assert (¬ st_p999 f'.2 < st_p999 f.2) as Hge by by rewrite <- Hlt.
    destruct (Hcase rs Hrs _ _ _ _ Hc) as [[-> E1]|[-> E1]]; unfold quieter; (split; [lia|done]).
Qed.

(** ** The rule, on several runs *)

Definition with_local (c : Chosen) : Chosen :=
  mkChosen (ch_receiver_start c) (ch_signals c) (ch_margin_us c) (ch_max_component c) (ch_stats c)
    (Some (LOCAL_SPAN_US, LOCAL_LIMIT_PERMILLE)).
Lemma stats_quantiles l name rs s : signal_stats l name rs = Ok s →
  residual_quantile l name rs (st_offset_us s) P999 = Ok (st_p999 s) ∧
  residual_quantile l name rs (st_offset_us s) P99 = Ok (st_p99 s).
Proof. unfold signal_stats, residual_quantile. intros H. inv_res. subst. simpl. split; congruence. Qed.
Lemma ranked_elem stats ranked e : ranked_of stats = Ok ranked → e ∈ ranked → e ∈ stats.
Proof.
  unfold ranked_of. intros H He. apply bind_Ok in H as (first & Hf & [= <-]). apply get_Ok in Hf.
  rewrite (remove_first_perm _ _ _ Hf) in He. by apply elem_of_sorted_by in He.
Qed.
(** Wherever a choice comes from, its signals have their statistics. *)
Lemma choose_inv l c : choose l = Ok c → ∃ rs first rest stats,
  c = mkChosen rs (signal_for <$> first :: rest) (st_p99 first.2) 32 stats None ∧
  ∀ e, e ∈ first :: rest → signal_stats l e.1 rs = Ok e.2.
Proof.
  unfold choose. intros H. apply bind_Ok in H as (options & Ho & H). apply bind_Ok in H as (o & Hl & H).
  assert (o ∈ options) as Hin.
  { destruct options as [|o0 os]; [done|]. injection Hl as <-. clear. revert o0.
    induction os as [|x os IH]; intros o0; simpl; [left|]. destruct (ltb _ _).
    - right. apply IH.
    - specialize (IH o0). apply elem_of_cons in IH as [-> |IH]; [left|by right; right]. }
  apply map_res_Forall2 in Ho. apply list_elem_of_lookup in Hin as [i Hi].
  destruct (Forall2_lookup_r _ _ _ _ _ Ho Hi) as (rs & _ & Hc). unfold choice_of in Hc.
  apply bind_Ok in Hc as (stats & Hs & Hc). apply bind_Ok in Hc as (ranked & Hr & Hc).
  apply bind_Ok in Hc as (first' & _ & [= <-]). simpl in H.
  assert (∀ e, e ∈ ranked → signal_stats l e.1 rs = Ok e.2) as Hall.
  { intros e He. apply (ranked_elem _ _ _ Hr) in He. apply map_res_Forall2 in Hs.
    apply list_elem_of_lookup in He as [j Hj]. destruct (Forall2_lookup_r _ _ _ _ _ Hs Hj) as (n & _ & Hn).
    apply bind_Ok in Hn as (s & Hn & [= <-]). exact Hn. }
  destruct ranked as [|first [|second rest]]; [done..|]. injection H as <-.
  do 4 eexists. split; [reflexivity|]. intros e He. apply Hall. destruct (_ <=? _); set_solver.
Qed.

(** The widest of the runs, for a signal. *)
Definition over_runs (per_run : list (list Pair)) (name rs : string) (offset : Z) (p : float) : res Z :=
  qs ← map_res (λ run, residual_quantile run name rs offset p) per_run; max_res qs.
Lemma choose_across_unfold per_run : choose_across per_run =
  (chosen ← choose (mjoin per_run);
   let rs := ch_receiver_start chosen in
   signals ← map_res (λ s, w ← over_runs per_run (s_name s) rs (s_offset_us s) P999;
                           Ok (mkSignal (s_name s) (s_offset_us s) (Z.max 1 w))) (ch_signals chosen);
   first ← get (head signals) IndexError;
   margin ← over_runs per_run (s_name first) rs (s_offset_us first) P99;
   Ok (mkChosen rs signals margin (ch_max_component chosen) (ch_stats chosen) (Some (LOCAL_SPAN_US, LOCAL_LIMIT_PERMILLE)))).
Proof.
  unfold choose_across, over_runs. destruct (choose _) as [c|]; [|done]. cbn [mbind res_bind].
  assert (∀ (A B : Type) (m : res A) (f : A → res Z) (k : Z → res B), (y ← (x ← m; f x); k y) = (x ← m; y ← f x; k y)) as Hassoc
    by by intros A B [].
  assert (∀ (f g : Signal → res Signal) l, (∀ s, f s = g s) → map_res f l = map_res g l) as Hext.
  { intros f g l H. induction l as [|s l IH]; [done|]. simpl. by rewrite H, IH. }
  rewrite (Hext _ _ (ch_signals c) (λ s, eq_sym (Hassoc _ _ _ _ _))).
  destruct (map_res _ (ch_signals c)) as [signals|]; [|done]. cbn [mbind res_bind].
  destruct (head signals) as [first|]; [|done]. cbn [get mbind res_bind]. by rewrite Hassoc.
Qed.
Lemma over_one run name rs offset p : over_runs [run] name rs offset p = residual_quantile run name rs offset p.
Proof. unfold over_runs. cbn [map_res]. destruct (residual_quantile _ _ _ _ _); done. Qed.

Lemma over_runs_total per_run name rs offset (p : float) num den : per_run ≠ [] →
  (∀ run, run ∈ per_run → small run) →
  (∀ values, small values → ∃ v, quantile values p = Ok v ∧ v ∈ values ∧
     num * Z.of_nat (length values) <= den * within v values) → 0 <= den →
  ∃ w, over_runs per_run name rs offset p = Ok w ∧
    ∀ run, run ∈ per_run → num * Z.of_nat (length run) <= den * within w (residuals (_gaps run name rs) offset).
Proof.
  intros Hne Hsmall Hq Hden. unfold over_runs.
  assert (∀ run, run ∈ per_run → ∃ v, residual_quantile run name rs offset p = Ok v ∧
    num * Z.of_nat (length run) <= den * within v (residuals (_gaps run name rs) offset)) as Hrun.
  { intros run Hin. destruct (Hq (residuals (_gaps run name rs) offset)) as (v & Hv & _ & Hw).
    - unfold small. rewrite length_residuals. by apply Hsmall.
    - rewrite length_residuals in Hw. eauto. }
  destruct (map_res_total (λ run, residual_quantile run name rs offset p) per_run) as [qs Hqs].
  { intros run Hin. destruct (Hrun run Hin) as (v & ? & _). eauto. }
  rewrite Hqs. cbn [mbind res_bind]. apply map_res_Forall2 in Hqs.
  destruct (max_res_total qs) as (w & -> & _ & Hw).
  { intros ->. apply Forall2_length in Hqs. by destruct per_run. }
  exists w. split; [done|]. intros run Hin. destruct (Hrun run Hin) as (v & Hv & Hc).
  assert (v ∈ qs) as Hvq.
  { apply list_elem_of_lookup in Hin as [i Hi]. destruct (Forall2_lookup_l _ _ _ _ _ Hqs Hi) as (v' & Hi' & Hv').
    rewrite Hv in Hv'. injection Hv' as <-. by eapply list_elem_of_lookup_2. }
  etrans; [exact Hc|]. apply Z.mul_le_mono_nonneg_l; [done|]. unfold within. apply inj_le.
  specialize (Hw v Hvq). generalize (residuals (_gaps run name rs) offset) as l. intros l. induction l as [|x l IH]; [done|].
  cbn [List.filter]. destruct (Z.leb_spec x v), (Z.leb_spec x w); cbn [length]; lia.
Qed.

(** Signals of which each run has 99.9 % of its pairs within the window. *)
Record spread (per_run : list (list Pair)) (c : Chosen) : Prop := {
  sp_some : ∃ first rest, ch_signals c = first :: rest ∧ (length rest <= 1)%nat;
  sp_local : ch_local c = Some (LOCAL_SPAN_US, LOCAL_LIMIT_PERMILLE);
  sp_cover s run : s ∈ ch_signals c → run ∈ per_run → 999 * Z.of_nat (length run) <=
    1000 * within (s_window_us s) (residuals (_gaps run (s_name s) (ch_receiver_start c)) (s_offset_us s))
}.
Lemma within_mono v w l : v <= w → within v l <= within w l.
Proof.
  intros H. unfold within. induction l as [|x l IH]; [done|]. cbn [List.filter].
  destruct (Z.leb_spec x v), (Z.leb_spec x w); cbn [length]; lia.
Qed.
Lemma choose_across_ok per_run : per_run ≠ [] → (∀ run, run ∈ per_run → small run) → small (mjoin per_run) →
  ∃ c, choose_across per_run = Ok c ∧ spread per_run c.
Proof.
  intros Hne Hruns Hall. rewrite choose_across_unfold. destruct (choose_ok _ Hall) as (c & -> & Hr). cbn [mbind res_bind].
  destruct (ru_signals _ _ Hr) as (first & second & third & _ & Hsig & _).
  set (rs := ch_receiver_start c) in *.
  destruct (map_res_total (λ s, w ← over_runs per_run (s_name s) rs (s_offset_us s) P999;
    Ok (mkSignal (s_name s) (s_offset_us s) (Z.max 1 w))) (ch_signals c)) as [signals Hs].
  { intros s _. destruct (over_runs_total per_run (s_name s) rs (s_offset_us s) P999 999 1000 Hne Hruns quantile_999) as (w & -> & _);
      [lia|]. simpl. eauto. }
  rewrite Hs. cbn [mbind res_bind]. apply map_res_Forall2 in Hs.
  assert (∃ s0 rest, signals = s0 :: rest ∧ (length rest <= 1)%nat) as (s0 & rest & -> & Hlen).
  { apply Forall2_length in Hs. rewrite Hsig in Hs. destruct signals as [|s0 rest]; [done|]. exists s0, rest. split; [done|].
    simpl in Hs. destruct (_ <=? _); simpl in Hs; lia. }
  cbn [head get mbind res_bind].
  destruct (over_runs_total per_run (s_name s0) rs (s_offset_us s0) P99 99 100 Hne Hruns quantile_99) as (m & -> & _); [lia|].
  cbn [mbind res_bind]. eexists. split; [reflexivity|]. split; simpl; [by eauto|done|].
  intros s run Hin Hrun. apply list_elem_of_lookup in Hin as [i Hi].
  destruct (Forall2_lookup_r _ _ _ _ _ Hs Hi) as (s' & _ & Hs').
  destruct (over_runs_total per_run (s_name s') rs (s_offset_us s') P999 999 1000 Hne Hruns quantile_999) as (w & Hw & Hc); [lia|].
  rewrite Hw in Hs'. injection Hs' as <-. simpl. etrans; [by apply Hc|].
  apply Z.mul_le_mono_nonneg_l; [lia|]. apply within_mono. lia.
Qed.

(** ** The windows, as the timing path reads them *)

Lemma signal_tables l : map_res signal_of (signal_table <$> l) = Ok l.
Proof.
  apply map_res_Forall2, Forall2_fmap_l, Forall_Forall2_diag, Forall_forall. by intros [name offset window] _.
Qed.
Definition params_of (c : Chosen) : JoinParams :=
  mkParams (ch_signals c) (ch_margin_us c) (ch_max_component c) LOCAL_SPAN_US LOCAL_LIMIT_PERMILLE.
(** What is written is what is read. *)
Lemma join_table_read c : ch_local c = Some (LOCAL_SPAN_US, LOCAL_LIMIT_PERMILLE) →
  ∃ table, join_table c = Ok table ∧ join_params table = Ok (params_of c, ch_receiver_start c).
Proof.
  intros Hl. unfold join_table. rewrite Hl. eexists. split; [reflexivity|]. unfold join_params.
  pose proof (signal_tables (ch_signals c)) as Hs. revert Hs. generalize (signal_table <$> ch_signals c) as l.
  intros l. unfold join_params. generalize (map_res signal_of) as f. intros f Hs. vm_compute. by rewrite Hs.
Qed.

Lemma by_truth_elem rows side t r : by_truth rows side !! t = Some r → r ∈ rows ∧ (w_point r, w_side r) = side ∧ w_truth r = t.
Proof.
  unfold by_truth. set (l := List.filter _ rows).
  assert (∀ r, r ∈ l → r ∈ rows ∧ (w_point r, w_side r) = side) as Hl.
  { intros r' Hr. unfold l in Hr. rewrite elem_of_filter_bool, bool_decide_eq_true in Hr. done. }
  induction l as [|x l IH] using rev_ind; [done|]. rewrite foldl_snoc. intros H. apply lookup_insert_Some in H as [[<- <-]|[_ H]].
  - destruct (Hl x) as [? ?]; [apply elem_of_app; right; left|]. done.
  - apply IH; [|done]. intros r' Hr'. apply Hl, elem_of_app. by left.
Qed.
Lemma pairs_elem rows up down ab : ab ∈ pairs rows up down →
  (ab.1 ∈ rows ∧ (w_point ab.1, w_side ab.1) = up) ∧ (ab.2 ∈ rows ∧ (w_point ab.2, w_side ab.2) = down) ∧ w_truth ab.1 = w_truth ab.2.
Proof.
  unfold pairs. intros (t & _ & H)%list_elem_of_omap. apply bind_Some in H as (a & Ha & H).
  apply bind_Some in H as (b & Hb & [= <-]). simpl.
  apply by_truth_elem in Ha as (? & ? & <-), Hb as (? & ? & ?). done.
Qed.

(** A pair of the calibration, observed by the timing path. *)
Lemma gap_timed dst rs name (a b : Row) : w_point a ≠ dst → w_point b = dst →
  _gap name (timed_of dst rs a) (timed_of dst rs b) = gap name a b (b_start rs b).
Proof.
  intros Ha Hb. unfold _gap, gap, timed_of, b_start. simpl. rewrite (bool_decide_eq_false_2 (w_point a = dst)) by done.
  rewrite (bool_decide_eq_true_2 (w_point b = dst)) by done. by rewrite andb_false_r, andb_true_r.
Qed.
Definition in_window (dst rs : string) (s : Signal) (ab : Pair) : bool :=
  Z.abs (_gap (s_name s) (timed_of dst rs ab.1) (timed_of dst rs ab.2) - s_offset_us s) <=? s_window_us s.
Lemma within_residuals dst rs s run : (∀ ab, ab ∈ run → w_point ab.1 ≠ dst ∧ w_point ab.2 = dst) →
  within (s_window_us s) (residuals (_gaps run (s_name s) rs) (s_offset_us s)) =
  Z.of_nat (length (List.filter (in_window dst rs s) run)).
Proof.
  intros Hends. unfold within, residuals, _gaps. f_equal. induction run as [|ab run IH]; [done|]. rewrite !fmap_cons. cbn [List.filter].
  destruct (Hends ab ltac:(left)) as [H1 H2]. unfold in_window at 1. rewrite gap_timed by done.
  specialize (IH ltac:(intros; apply Hends; by right)). destruct (_ <=? _); cbn [length]; by rewrite IH.
Qed.
(** Two tests that most elements pass are passed together by all but the rest of both. *)
Lemma filter_both {A} (f g : A → bool) l :
  (length (List.filter f l) + length (List.filter g l) <= length l + length (List.filter (λ x, f x && g x) l))%nat.
Proof.
  induction l as [|x l IH]; [done|]. cbn [List.filter]. destruct (f x), (g x); simpl; lia.
Qed.

(** ** Guarantees *)

(** Calibration follows its documented rule.  On any non-empty set of true pairs (up to
    2^40) it returns; the start of the receiver is the one whose best signal has the
    smaller 99.9 % residual, the span's own start on a tie; the first signal is the
    quietest of start and end, the second the quieter of the other two, kept only within
    three times the first; offsets are the low medians, windows the 99.9 % residuals of at
    least 1 us, and the margin the 99 % residual of the first signal. *)
Theorem choose_rule true_pairs : small true_pairs → ∃ c, choose true_pairs = Ok c ∧ rule true_pairs c.
Proof. apply choose_ok. Qed.

(** With a single run the pooled rule is the rule: [choose_across] on one run is
    [choose] on its pairs with the local density guard added, and fails when it fails. *)
Theorem choose_single run : choose_across [run] = with_local <$> choose run.
Proof.
  rewrite choose_across_unfold. cbn [mjoin list_join]. rewrite app_nil_r. destruct (choose run) as [c|] eqn:E; [|done].
  cbn [mbind res_bind fmap res_fmap]. apply choose_inv in E as (rs & first & rest & stats & -> & Hs). cbn [ch_receiver_start ch_signals].
  rewrite (map_res_fmap _ id).
  - rewrite list_fmap_id. cbn [mbind res_bind]. rewrite fmap_cons. cbn [head get mbind res_bind]. rewrite over_one.
    destruct (stats_quantiles _ _ _ _ (Hs first ltac:(left))) as [_ E]. cbn [signal_for s_name s_offset_us].
    rewrite E. done.
  - intros s (e & -> & He)%list_elem_of_fmap. rewrite over_one. unfold signal_for. cbn [s_name s_offset_us s_window_us].
    destruct (stats_quantiles _ _ _ _ (Hs e He)) as [E _]. rewrite E. done.
Qed.

(** C36: calibrated windows cover the true pairs.  When every run of a cell has a true pair,
    calibration returns; the timing path reads back the parameters it wrote, and with them,
    in every run, at least 99.9 % of the true pairs (99.8 % with two signals) are inside
    every window, which is what makes a pair a candidate. *)
Theorem calibration_covers src dst runs : src ≠ dst → runs ≠ [] →
  let per_run := (λ rows, pairs rows (src, "outbound"%string) (dst, "inbound"%string)) <$> runs in
  (∀ run, run ∈ per_run → run ≠ []) → Z.of_nat (length (mjoin per_run)) <= 2 ^ 40 →
  ∃ c table p rs, choose_across per_run = Ok c ∧ join_table c = Ok table ∧ join_params table = Ok (p, rs) ∧
    (1 <= length (jp_signals p) <= 2)%nat ∧
    ∀ run, run ∈ per_run →
      (1000 - Z.of_nat (length (jp_signals p))) * Z.of_nat (length run) <=
      1000 * Z.of_nat (length (List.filter (λ ab, in_windows p (timed_of dst rs ab.1) (timed_of dst rs ab.2)) run)).
Proof.
  intros Hsd Hruns per_run Hne Hlen.
  assert (∀ run, run ∈ per_run → (length run <= length (mjoin per_run))%nat) as Hle.
  { clear. induction per_run as [|r l IH]; [by intros ? ?%not_elem_of_nil|]. intros run. simpl. rewrite length_app.
    intros [-> |H%IH]%elem_of_cons; lia. }
  assert (∀ run, run ∈ per_run → small run) as Hsmall.
  { intros run Hin. pose proof (Hle run Hin). pose proof (Hne run Hin). unfold small. destruct run; [done|]. simpl in *. lia. }
  assert (per_run ≠ []) as Hpr by (unfold per_run; by destruct runs).
  assert (small (mjoin per_run)) as Hall.
  { destruct per_run as [|r l]; [done|]. pose proof (Hsmall r ltac:(left)) as H. pose proof (Hle r ltac:(left)). unfold small in *. lia. }
  destruct (choose_across_ok per_run Hpr Hsmall Hall) as (c & Hc & [(first & rest & Hs & Hrest) Hloc Hcov]).
  destruct (join_table_read c Hloc) as (table & Ht & Hp). exists c, table, (params_of c), (ch_receiver_start c).
  split_and!; [done..|simpl; rewrite Hs; simpl; lia|simpl; rewrite Hs; simpl; lia|].
  intros run Hin. assert (∀ ab, ab ∈ run → w_point ab.1 ≠ dst ∧ w_point ab.2 = dst) as Hends.
  { intros ab Hab. unfold per_run in Hin. apply list_elem_of_fmap in Hin as (rows & -> & _).
    apply pairs_elem in Hab as ((_ & [= -> _]) & (_ & [= -> _]) & _). done. }
  assert (∀ s, s ∈ ch_signals c → 999 * Z.of_nat (length run) <=
    1000 * Z.of_nat (length (List.filter (in_window dst (ch_receiver_start c) s) run))) as Hcov'.
  { intros s Hsin. rewrite <- within_residuals by done. by apply Hcov. }
  rewrite Hs in Hcov'. unfold in_windows. change (jp_signals (params_of c)) with (ch_signals c). rewrite Hs. destruct rest as [|second [|]]; [| |simpl in Hrest; lia].
  - pose proof (Hcov' first ltac:(left)) as H1. simpl length.
    erewrite (List.filter_ext (λ ab : Pair, _)); [exact H1|]. intros ab. simpl. by rewrite andb_true_r.
  - pose proof (Hcov' first ltac:(left)) as H1. pose proof (Hcov' second ltac:(right; left)) as H2. simpl length.
    pose proof (filter_both (in_window dst (ch_receiver_start c) first) (in_window dst (ch_receiver_start c) second) run) as H3.
    erewrite (List.filter_ext (λ ab : Pair, _)); [|intros ab; simpl; rewrite andb_true_r; exact eq_refl].
    change (λ ab : Pair, _) with (λ ab, in_window dst (ch_receiver_start c) first ab && in_window dst (ch_receiver_start c) second ab).
    change (1000 - Z.of_nat 2) with 998. unfold Pair in *. lia.
Qed.

(** ** Witnesses *)

(** A run of two requests between load-gen and hop-1, with the delay and the duration given. *)
Definition sent_row (t : string) (n start : Z) : Row := mkRow "lg.jsonl" n "load-gen" "outbound" t start start (start + 500).
Definition seen_row (t : string) (n start : Z) : Row := mkRow "agent.out" n "hop-1" "inbound" t start (start + 20) (start + 300).
Definition ex_run (d : Z) : list Row :=
  [sent_row "a" 0 1000; sent_row "b" 1 9000; seen_row "a" 1 (1100 + d); seen_row "b" 2 (9104 + d)].
Definition ex_pairs : list Pair := pairs (ex_run 0) ("load-gen", "outbound")%string ("hop-1", "inbound")%string.
Definition table_ints (s : Signal) : string * Z * Z := (s_name s, s_offset_us s, s_window_us s).
Example choose_ex : (λ c, (ch_receiver_start c, table_ints <$> ch_signals c, ch_margin_us c)) <$> choose_across [ex_pairs] =
  Ok ("start", [("start", 100, 4); ("duration", 200, 1)], 4)%string.
Proof. vm_compute. reflexivity. Qed.

Lemma choose_rule_witness : ∃ c, choose ex_pairs = Ok c ∧ rule ex_pairs c.
Proof. apply (choose_rule ex_pairs). vm_compute. split; discriminate. Defined.
Lemma calibration_covers_witness :
  let per_run := (λ rows, pairs rows ("load-gen", "outbound") ("hop-1", "inbound"))%string <$> [ex_run 0; ex_run 7] in
  ∃ c table p rs, choose_across per_run = Ok c ∧ join_table c = Ok table ∧ join_params table = Ok (p, rs) ∧
    (1 <= length (jp_signals p) <= 2)%nat ∧
    ∀ run, run ∈ per_run →
      (1000 - Z.of_nat (length (jp_signals p))) * Z.of_nat (length run) <=
      1000 * Z.of_nat (length (List.filter (λ ab, in_windows p (timed_of "hop-1" rs ab.1) (timed_of "hop-1" rs ab.2)) run)).
Proof.
  apply (calibration_covers "load-gen" "hop-1" [ex_run 0; ex_run 7]); [done|done| |vm_compute; discriminate].
  intros run Hin. apply elem_of_cons in Hin as [-> | ->%list_elem_of_singleton]; vm_compute; discriminate.
Defined.
