(* ===== verification/FlowTimed.v ===== *)
(** * FlowTimed: one timing-derived hop decided as its observations arrive

    [correlation/flow_timed.py].  The state of a [TimedJoin] is what is open on the
    hop: the observations by end, the candidate graph, what is flagged as too large,
    and a queue by end.  [heapq]'s queue of distinct entries is kept as the sorted
    list of them (its first entry is the smallest, which is all that is read).  A
    Python [KeyError] or [IndexError] that the class's own bookkeeping rules out is
    still a [Raise] here. *)

From S2P Require Import Prelude Digest Topology Assignment Timing.

(** ** Data *)

Definition METHOD : string := "nested_timing".

Inductive Reason :=
| R_AMBIGUOUS | R_UNMATCHED | R_OVERSIZED | R_NO_CANDIDATE | R_DENSE | R_TOO_LONG | R_TIME_ABSENT.
Global Instance Reason_eq_dec : EqDecision Reason.
Proof. solve_decision. Defined.
Definition Reason_value (r : Reason) : string :=
  match r with
  | R_AMBIGUOUS => "AMBIGUOUS" | R_UNMATCHED => "UNMATCHED" | R_OVERSIZED => "OVERSIZED"
  | R_NO_CANDIDATE => "NO_CANDIDATE" | R_DENSE => "DENSE" | R_TOO_LONG => "TOO_LONG"
  | R_TIME_ABSENT => "TIME_ABSENT"
  end.
(** [Reason[d.status.name]]: no reason is called MATCHED. *)
Definition Reason_of (s : Status) : res Reason :=
  match s with
  | AMBIGUOUS => Ok R_AMBIGUOUS | UNMATCHED => Ok R_UNMATCHED | OVERSIZED => Ok R_OVERSIZED
  | NO_CANDIDATE => Ok R_NO_CANDIDATE | DENSE => Ok R_DENSE | MATCHED => Raise KeyError
  end.

Record Verdict := mkVerdict {
  v_reason : option Reason;   (* None: linked *)
  v_partner : option Identity;
  v_weight : option Z
}.
Definition refused (r : Reason) : Verdict := mkVerdict (Some r) None None.
Record Closing := mkClosing { cl_members : list Identity; cl_verdicts : odict Identity Verdict }.
Global Instance Verdict_eq_dec : EqDecision Verdict.
Proof. solve_decision. Defined.

Definition _end_signal (params : JoinParams) : option Signal :=
  find (λ s, bool_decide (s_name s = "end"%string)) (jp_signals params).

Definition horizon_of (params : JoinParams) (max_duration_us : option Z) : res Z :=
  e ← get (_end_signal params) TypeError;
  let horizon := Z.abs (s_offset_us e) + s_window_us e in
  if jp_local_span_us params =? 0 then Ok horizon
  else d ← get max_duration_us TypeError; Ok (Z.max horizon (jp_local_span_us params + d)).

Definition check_join (params : JoinParams) (max_duration_us : option Z) : res unit :=
  _ ← _validate_params params;
  _ ← assign [] [] [] (jp_margin_us params) (jp_max_component params);
  _ ← check (bool_decide (is_Some (_end_signal params)))
        (ValueError "a join in a flow needs an end signal");
  if jp_local_span_us params =? 0 then Ok tt
  else
    _ ← check (bool_decide (is_Some max_duration_us))
          (ValueError "the density guard needs max_duration_us");
    first ← get (head (jp_signals params)) IndexError;
    check (negb (bool_decide (s_name first = "duration"%string)))
      (ValueError "the density guard needs a first signal in time").

(** [repr(params)]; once checked, the name of a signal is plain text. *)
Definition repr_signal (s : Signal) : string :=
  ("Signal(name='" +:+ s_name s +:+ "', offset_us=" +:+ str_Z (s_offset_us s)
   +:+ ", window_us=" +:+ str_Z (s_window_us s) +:+ ")")%string.
Definition repr_tuple (parts : list string) : string :=
  match parts with
  | [p] => ("(" +:+ p +:+ ",)")%string
  | _ => ("(" +:+ join ", " parts +:+ ")")%string
  end.
Definition repr_params (p : JoinParams) : string :=
  ("JoinParams(signals=" +:+ repr_tuple (repr_signal <$> jp_signals p)
   +:+ ", margin_us=" +:+ str_Z (jp_margin_us p)
   +:+ ", max_component=" +:+ str_Z (jp_max_component p)
   +:+ ", local_span_us=" +:+ str_Z (jp_local_span_us p)
   +:+ ", local_limit_permille=" +:+ str_Z (jp_local_limit_permille p) +:+ ")")%string.

(** What [__init__] computes once. *)
Record JoinSettings := mkJoinSettings {
  where_ : string;
  src : string;
  dst : string;
  params : JoinParams;
  max_duration_us : option Z;
  horizon : Z;
  params_id : string
}.
(** What changes. *)
Record TimedJoin := mkJoinState {
  open : gmap Identity Timed;
  by_end : odict string (list (Z * Identity));
  edges : gmap Identity (odict Identity Z);
  flagged : gset Identity;
  past : gset Identity;
  due : gset Identity;
  heap : list (Z * Identity);
  references : odict string (list Z)
}.
Definition TimedJoin_empty : TimedJoin :=
  mkJoinState ∅ [("outbound", []); ("inbound", [])]%string ∅ ∅ ∅ ∅ []
    [("outbound", []); ("inbound", [])]%string.
Definition TimedJoin_init (where_ src dst : string) (params : JoinParams)
    (max_duration_us : option Z) : res (JoinSettings * TimedJoin) :=
  _ ← check_join params max_duration_us;
  horizon ← horizon_of params max_duration_us;
  let params_id := hash16 (repr_params params) in
  Ok (mkJoinSettings where_ src dst params max_duration_us horizon params_id, TimedJoin_empty).

Section join.
Context (cfg : JoinSettings).

(** [self.places.get((point, side))] *)
Definition side_of (point side : string) : option string :=
  if bool_decide (side = "outbound"%string ∧ point = src cfg) then Some "outbound"%string
  else if bool_decide (side = "inbound"%string ∧ point = dst cfg) then Some "inbound"%string
  else None.
Definition too_long (start_us end_us : Z) : bool :=
  match max_duration_us cfg with Some d => d <? end_us - start_us | None => false end.

(** ** Candidates and components *)

Definition other_side (side : string) : string :=
  if bool_decide (side = "outbound"%string) then "inbound"%string else "outbound"%string.
(** [bisect_left(ordered, (x,))]: a pair comes after the one-element tuple of its
    first component. *)
Definition _candidates_of (j : TimedJoin) (o : Timed) : res (list Candidate) :=
  e ← get (_end_signal (params cfg)) TypeError;
  let reach := if bool_decide (o_side o = "outbound"%string)
               then o_end_us o - s_offset_us e else o_end_us o + s_offset_us e in
  ordered ← get (od_get (other_side (o_side o)) (by_end j)) KeyError;
  let low := bisect_left ordered.*1 (reach - s_window_us e) in
  let high := bisect_left ordered.*1 (reach + s_window_us e + 1) in
  near ← map_res (λ x : Z * Identity, get (open j !! x.2) KeyError) (slice low high ordered);
  match near with
  | [] => Ok []
  | _ => if bool_decide (o_side o = "outbound"%string)
         then candidates [o] near (params cfg) else candidates near [o] (params cfg)
  end.

(** [for other in sorted(self.edges[member])] *)
Definition walk_other (flagged : gset Identity) (st : gset Identity * list Identity * bool)
    (other : Identity) : gset Identity * list Identity * bool :=
  let '(reached, members, touched) := st in
  if bool_decide (other ∈ flagged) then (reached, members, true)
  else if bool_decide (other ∈ reached) then st
  else ({[other]} ∪ reached, members ++ [other], touched).
Fixpoint walk_from (fuel k : nat) (j : TimedJoin) (reached : gset Identity) (members : list Identity)
    (touched : bool) : res (list Identity * bool) :=
  match fuel, members !! k with
  | S f, Some m =>
      es ← get (edges j !! m) KeyError;
      let '(reached, members, touched) :=
        foldl (walk_other (flagged j)) (reached, members, touched) (sorted es.*1) in
      walk_from f (S k) j reached members touched
  | _, _ => Ok (members, touched)
  end.
Definition _walk (j : TimedJoin) (start : Identity) : res (list Identity * bool) :=
  walk_from (size (open j)) 0 j {[start]} [start] false.

(** ** The density guard *)

Definition _reference_of (o : Timed) : res Z :=
  if bool_decide (o_side o = "outbound"%string) then Ok (o_start_us o)
  else first ← get (head (jp_signals (params cfg))) IndexError; Ok (_reference (s_name first) o).
Definition crowded (j : TimedJoin) (i : Identity) : res bool :=
  let span := jp_local_span_us (params cfg) in
  if span =? 0 then Ok false
  else
    o ← get (open j !! i) KeyError;
    at_ ← _reference_of o;
    ordered ← get (od_get (o_side o) (references j)) KeyError;
    _crowded (others span ordered at_) (params cfg).
Definition _forget (j : TimedJoin) (watermark : Z) : res TimedJoin :=
  let span := jp_local_span_us (params cfg) in
  if span =? 0 then Ok j
  else
    let ends := omap (λ side, fst <$> head (side.2 : list (Z * Identity))) (by_end j) in
    let oldest := min_of watermark ends in
    longest ← get (max_duration_us cfg) TypeError;
    let limit := oldest - longest - span in
    Ok (mkJoinState (open j) (by_end j) (edges j) (flagged j) (past j) (due j) (heap j)
          ((λ e : string * list Z, (e.1, drop (bisect_left e.2 limit) e.2)) <$> references j)).

(** ** Deciding a component *)

Definition members_on (j : TimedJoin) (side : string) (members : list Identity)
    : res (list Identity) :=
  os ← map_res (λ m, o ← get (open j !! m) KeyError; Ok (m, o_side o)) members;
  Ok (sorted (fst <$> List.filter (λ e, bool_decide (e.2 = side)) os)).
Definition _decide (j : TimedJoin) (members : list Identity) : res (odict Identity Verdict) :=
  ups ← members_on j "outbound" members;
  downs ← members_on j "inbound" members;
  let up_ids := numbered "u" ups in
  let down_ids := numbered "d" downs in
  let back := inverse up_ids ++ inverse down_ids in
  es ← map_res (λ u : Identity,
      row ← get (edges j !! u) KeyError;
      map_res (λ e : Identity * Z,
          x ← get (od_get u up_ids) KeyError;
          y ← get (od_get e.1 down_ids) KeyError;
          Ok (mkEdge x y e.2)) row) ups;
  decided ← assign up_ids.*2 down_ids.*2 (mjoin es)
              (jp_margin_us (params cfg)) (jp_max_component (params cfg));
  fold_res (λ out d,
      me ← get (od_get (d_id d) back) KeyError;
      if negb (bool_decide (d_status d = MATCHED))
      then r ← Reason_of (d_status d); Ok (od_set me (refused r) out)
      else
        partner ← get (d_partner d ≫= λ y, od_get y back) KeyError;
        mine ← crowded j me;
        theirs ← (if (mine : bool) then Ok true else crowded j partner);
        if (theirs : bool) then Ok (od_set me (refused R_DENSE) out)
        else
          row ← get (edges j !! me) KeyError;
          w ← get (od_get partner row) KeyError;
          Ok (od_set me (mkVerdict None (Some partner) (Some w)) out))
    (r_left decided ++ r_right decided) [].

(** ** Entering *)

(** [self.edges[a][b] = w] *)
Definition set_edge (a b : Identity) (w : Z) (es : gmap Identity (odict Identity Z))
    : res (gmap Identity (odict Identity Z)) :=
  row ← get (es !! a) KeyError; Ok (<[a := od_set b w row]> es).
Definition enter (j : TimedJoin) (o : Timed) : res TimedJoin :=
  let i := identity o in
  ends ← get (od_get (o_side o) (by_end j)) KeyError;
  let j := mkJoinState (<[i := o]> (open j))
             (od_set (o_side o) (insort (o_end_us o, i) ends) (by_end j))
             (edges j) (flagged j) (past j) (due j) (insort (o_end_us o, i) (heap j))
             (references j) in
  refs ← (if jp_local_span_us (params cfg) =? 0 then Ok (references j)
          else r ← _reference_of o; rs ← get (od_get (o_side o) (references j)) KeyError;
               Ok (od_set (o_side o) (insort r rs) (references j)));
  found ← _candidates_of (mkJoinState (open j) (by_end j) (<[i := []]> (edges j)) (flagged j)
                            (past j) (due j) (heap j) refs) o;
  es ← fold_res (λ es c,
           es ← set_edge (k_upstream c) (k_downstream c) (k_weight c) es;
           set_edge (k_downstream c) (k_upstream c) (k_weight c) es)
         found (<[i := []]> (edges j));
  Ok (mkJoinState (open j) (by_end j) es (flagged j) (past j) (due j) (heap j) refs).

(** [max(Counter(sides).values())] *)
Definition largest_count (sides : list string) : Z :=
  max_of 0 ((λ s, Z.of_nat (length (List.filter (λ t, bool_decide (t = s)) sides))) <$> sides).
Definition add (j : TimedJoin) (o : Timed) : res (TimedJoin * odict Identity Verdict) :=
  j ← enter j o;
  '(members, touched) ← _walk j (identity o);
  sides ← map_res (λ m, x ← get (open j !! m) KeyError; Ok (o_side x)) members;
  if (touched : bool) || (jp_max_component (params cfg) <? largest_count sides)
  then
    let ms : gset Identity := list_to_set members in
    Ok (mkJoinState (open j) (by_end j) (edges j) (flagged j ∪ ms) (past j)
          (due j ∪ (past j ∩ ms)) (heap j) (references j),
        (λ m, (m, refused R_OVERSIZED)) <$> members)
  else verdicts ← _decide j members; Ok (j, verdicts).

(** ** Leaving *)

(** [del l[i]] *)
Definition delete_at {A} (i : nat) (l : list A) : res (list A) :=
  if bool_decide (i < length l)%nat then Ok (take i l ++ drop (S i) l) else Raise IndexError.
Definition _remove (j : TimedJoin) (i : Identity) : res TimedJoin :=
  o ← get (open j !! i) KeyError;
  ordered ← get (od_get (o_side o) (by_end j)) KeyError;
  ordered ← delete_at (bisect_left ordered (o_end_us o, i)) ordered;
  row ← get (edges j !! i) KeyError;
  es ← fold_res (λ es other,
           theirs ← get (es !! other) KeyError;
           _ ← check (bool_decide (i ∈ theirs.*1)) KeyError;
           Ok (<[other := od_del i theirs]> es))
         row.*1 (delete i (edges j));
  Ok (mkJoinState (delete i (open j)) (od_set (o_side o) ordered (by_end j)) es
        (flagged j ∖ {[i]}) (past j ∖ {[i]}) (due j) (heap j) (references j)).
Definition _leave (j : TimedJoin) (i : Identity) : res (TimedJoin * Closing) :=
  j ← _remove j i;
  Ok (j, mkClosing [i] [(i, refused R_OVERSIZED)]).

(** One entry out of the queue. *)
Definition close_one (watermark : Z) (j : TimedJoin) (i : Identity)
    : res (TimedJoin * list Closing) :=
  if bool_decide (open j !! i = None) then Ok (j, [])
  else if bool_decide (i ∈ flagged j) then '(j, c) ← _leave j i; Ok (j, [c])
  else
    '(members, _) ← _walk j i;
    ends ← map_res (λ m, o ← get (open j !! m) KeyError; Ok (o_end_us o)) members;
    latest ← match ends with [] => Raise (ValueError "max() of nothing") | e :: es => Ok (max_of e es) end;
    if latest + horizon cfg <? watermark then
      verdicts ← _decide j members;
      j ← fold_res _remove members j;
      Ok (j, [mkClosing (sorted members) verdicts])
    else
      Ok (mkJoinState (open j) (by_end j) (edges j) (flagged j) ({[i]} ∪ past j) (due j) (heap j)
            (references j), []).
(** [while self.heap and self.heap[0][0] + self.horizon < watermark]: the entry is
    popped first, and nothing pushes meanwhile. *)
Fixpoint close_queue (watermark : Z) (queue : list (Z * Identity)) (j : TimedJoin)
    (out : list Closing) : res (TimedJoin * list Closing) :=
  match queue with
  | [] => Ok (j, out)
  | (e, i) :: rest =>
      if e + horizon cfg <? watermark then
        let j := mkJoinState (open j) (by_end j) (edges j) (flagged j) (past j) (due j) rest
                   (references j) in
        '(j, closed) ← close_one watermark j i;
        close_queue watermark rest j (out ++ closed)
      else Ok (j, out)
  end.
Definition closing (j : TimedJoin) (watermark : Z) : res (TimedJoin * list Closing) :=
  '(j, out) ← close_queue watermark (heap j) j [];
  let leaving := sorted (elements (due j ∩ dom (open j))) in
  '(j, out) ← fold_res (λ st i, '(j', c) ← _leave st.1 i; Ok (j', st.2 ++ [c])) leaving (j, out);
  let j := mkJoinState (open j) (by_end j) (edges j) (flagged j) (past j) ∅ (heap j) (references j) in
  j ← _forget j watermark;
  Ok (j, out).
End join.

(** ** Lemmas: who is open *)

Section join_lemmas.
Context (cfg : JoinSettings).
Implicit Types (j : TimedJoin) (i : Identity).

Notation is_open j := (dom (open j)).


Lemma gets_open {B} (f : Identity → Timed → B) j members l :
  map_res (λ m, o ← get (open j !! m) KeyError; Ok (f m o)) members = Ok l →
  ∀ m, m ∈ members → m ∈ is_open j.
Proof.
  revert l. induction members as [|x members IH]; intros l H m Hm; [by apply not_elem_of_nil in Hm|].
  simpl in H. apply bind_Ok in H as (b & Hb & H). apply bind_Ok in Hb as (o & Ho & _).
  apply get_Ok in Ho. apply bind_Ok in H as (bs & Hbs & _).
  apply elem_of_cons in Hm as [-> |Hm]; [by apply elem_of_dom; eauto|by eapply IH].
Qed.

Lemma _remove_open j i j' : _remove j i = Ok j' →
  i ∈ is_open j ∧ is_open j' = is_open j ∖ {[i]} ∧ due j' = due j.
Proof.
  unfold _remove. intros H. apply bind_Ok in H as (o & Ho & H). apply get_Ok in Ho.
  apply bind_Ok in H as (? & _ & H). apply bind_Ok in H as (? & _ & H).
  apply bind_Ok in H as (? & _ & H). apply bind_Ok in H as (? & _ & [= <-]). simpl.
  split; [by apply elem_of_dom; eauto|]. split; [|done]. apply dom_delete_L.
Qed.

Lemma removes_open l j j' : fold_res _remove l j = Ok j' →
  NoDup l ∧ list_to_set l ⊆ is_open j ∧ is_open j' = is_open j ∖ list_to_set l.
Proof.
  revert j. induction l as [|i l IH]; intros j H; simpl in H.
  - injection H as <-. split; [constructor|]. set_solver.
  - apply bind_Ok in H as (j1 & H1 & H). apply _remove_open in H1 as (Hi & E1 & _).
    destruct (IH j1 H) as (Hnd & Hsub & E). rewrite E1 in *. split; [|set_solver].
    constructor; [|done]. intros Hil. assert (i ∈ is_open j ∖ {[i]}); set_solver.
Qed.

(** The members of the closings: distinct, open before, no longer open after. *)
Definition left_by (j j' : TimedJoin) (cs : list Closing) : Prop :=
  let ms := cs ≫= cl_members in
  NoDup ms ∧ list_to_set ms ⊆ is_open j ∧ is_open j' = is_open j ∖ list_to_set ms.

Lemma left_by_nil j j' : is_open j' = is_open j → left_by j j' [].
Proof. intros E. split; [constructor|]. simpl. set_solver. Qed.
Lemma left_by_trans j1 j2 j3 cs cs' : left_by j1 j2 cs → left_by j2 j3 cs' → left_by j1 j3 (cs ++ cs').
Proof.
  intros (N1 & S1 & E1) (N2 & S2 & E2). unfold left_by. rewrite bind_app, list_to_set_app_L.
  rewrite E1 in *. rewrite E2. split; [|set_solver]. apply NoDup_app. split; [done|]. split; [|done].
  intros i Hi Hi'. assert (i ∈ is_open j1 ∖ list_to_set (cs ≫= cl_members)) as H by set_solver.
  apply elem_of_difference in H as [_ H]. by apply H, elem_of_list_to_set.
Qed.
Lemma left_by_open j1 j1' j2 j2' cs : is_open j1 = is_open j1' → is_open j2 = is_open j2' →
  left_by j1 j2 cs → left_by j1' j2' cs.
Proof. unfold left_by. by intros -> ->. Qed.

Lemma _leave_ok j i j' c : _leave j i = Ok (j', c) → left_by j j' [c].
Proof.
  unfold _leave. intros H. apply bind_Ok in H as (j1 & H & [= <- <-]).
  apply _remove_open in H as (Hi & E & _). unfold left_by. simpl. rewrite E.
  split; [apply NoDup_singleton|]. set_solver.
Qed.

Lemma close_one_ok watermark j i j' cs : close_one cfg watermark j i = Ok (j', cs) → left_by j j' cs.
Proof.
  unfold close_one. intros H. case_bool_decide; [injection H as <- <-; by apply left_by_nil|].
  case_bool_decide.
  { apply bind_Ok in H as ([j1 c] & H & [= <- <-]). by eapply _leave_ok. }
  apply bind_Ok in H as ([members touched] & _ & H). apply bind_Ok in H as (ends & _ & H).
  apply bind_Ok in H as (latest & _ & H). destruct (_ <? _).
  - apply bind_Ok in H as (verdicts & _ & H). apply bind_Ok in H as (j1 & H & [= <- <-]).
    apply removes_open in H as (Hnd & Hsub & E). unfold left_by. rewrite bind_cons. simpl.
    rewrite app_nil_r. rewrite (sorted_by_perm (λ x, x) members : sorted members ≡ₚ members).
    rewrite E. split; [done|]. done.
  - injection H as <- <-. by apply left_by_nil.
Qed.

Lemma close_queue_ok watermark queue j out j' cs : close_queue cfg watermark queue j out = Ok (j', cs) →
  ∃ cs', cs = out ++ cs' ∧ left_by j j' cs'.
Proof.
  revert j out. induction queue as [|[e i] queue IH]; intros j out H; simpl in H.
  { injection H as <- <-. exists []. rewrite app_nil_r. split; [done|by apply left_by_nil]. }
  destruct (_ <? _).
  - apply bind_Ok in H as ([j1 closed] & H1 & H). apply close_one_ok in H1.
    destruct (IH _ _ H) as (cs' & -> & H2). exists (closed ++ cs'). split; [by rewrite app_assoc|].
    eapply left_by_trans; [|done]. by eapply left_by_open; [..|exact H1].
  - injection H as <- <-. exists []. rewrite app_nil_r. split; [done|by apply left_by_nil].
Qed.

Lemma leaves_ok l j out j' cs :
  fold_res (λ st i, '(j', c) ← _leave st.1 i; Ok (j', st.2 ++ [c])) l (j, out) = Ok (j', cs) →
  ∃ cs', cs = out ++ cs' ∧ left_by j j' cs'.
Proof.
  revert j out. induction l as [|i l IH]; intros j out H; simpl in H.
  { injection H as <- <-. exists []. rewrite app_nil_r. split; [done|by apply left_by_nil]. }
  apply bind_Ok in H as ([j1 out1] & H1 & H). apply bind_Ok in H1 as ([j2 c] & H1 & [= <- <-]).
  apply _leave_ok in H1. destruct (IH _ _ H) as (cs' & -> & H2). exists ([c] ++ cs').
  split; [by rewrite app_assoc|]. by eapply left_by_trans.
Qed.

Lemma _forget_open j w j' : _forget cfg j w = Ok j' → open j' = open j.
Proof.
  unfold _forget. destruct (_ =? 0); [by intros [= <-]|]. intros H.
  by apply bind_Ok in H as (? & _ & [= <-]).
Qed.

Lemma closing_ok j watermark j' cs : closing cfg j watermark = Ok (j', cs) → left_by j j' cs.
Proof.
  unfold closing. intros H. apply bind_Ok in H as ([j1 out] & H1 & H).
  apply close_queue_ok in H1 as (cs1 & -> & H1). apply bind_Ok in H as ([j2 out2] & H2 & H).
  apply leaves_ok in H2 as (cs2 & -> & H2). apply bind_Ok in H as (j3 & H3 & [= <- <-]).
  apply _forget_open in H3. simpl in H3. eapply left_by_open; [reflexivity| |by eapply left_by_trans].
  by rewrite H3.
Qed.

(** ** Lemmas: entering *)

Lemma enter_open j o j' : enter cfg j o = Ok j' → open j' = <[identity o := o]> (open j).
Proof.
  unfold enter. intros H. apply bind_Ok in H as (? & _ & H). apply bind_Ok in H as (? & _ & H).
  apply bind_Ok in H as (? & _ & H). by apply bind_Ok in H as (? & _ & [= <-]).
Qed.

Lemma numbered_elem prefix ids i s : od_get s (inverse (numbered prefix ids)) = Some i → i ∈ ids.
Proof.
  intros H%od_get_elem. unfold inverse, numbered in H.
  apply list_elem_of_fmap in H as ([i' s'] & [= -> ->] & H).
  apply elem_of_lookup_imap in H as (n & y & [= -> _] & H).
  rewrite <- (sorted_by_perm (λ x, x) ids). by eapply list_elem_of_lookup_2.
Qed.
Lemma od_get_app {K A} `{EqDecision K} (k : K) (d d' : list (K * A)) a :
  od_get k (d ++ d') = Some a → od_get k d = Some a ∨ od_get k d' = Some a.
Proof.
  induction d as [|[k' a'] d IH]; simpl; [by right|]. destruct (decide (k = k')); auto.
Qed.

Lemma members_on_sub j side members l : members_on j side members = Ok l →
  (∀ m, m ∈ members → m ∈ is_open j) ∧ ∀ m, m ∈ l → m ∈ members.
Proof.
  unfold members_on. intros H. apply bind_Ok in H as (os & H & [= <-]).
  split; [by eapply (gets_open (λ m o, (m, o_side o)))|].
  intros m Hm. unfold sorted in Hm. rewrite elem_of_sorted_by in Hm.
  apply list_elem_of_fmap in Hm as ([m' s] & -> & [Hm _]%elem_of_filter_bool). simpl.
  revert os H Hm. induction members as [|x members IH]; intros os H Hm; simpl in H.
  { injection H as <-. by apply not_elem_of_nil in Hm. }
  apply bind_Ok in H as (b & Hb & H). apply bind_Ok in Hb as (o & _ & [= <-]).
  apply bind_Ok in H as (bs & Hbs & [= <-]). apply elem_of_cons in Hm as [[= -> _]|Hm]; [left|right].
  by eapply IH.
Qed.

Lemma od_set_fst {K A} `{EqDecision K} (k : K) (a : A) (d : list (K * A)) x :
  x ∈ (od_set k a d).*1 → x = k ∨ x ∈ d.*1.
Proof. by rewrite od_set_keys. Qed.

Lemma _decide_sub j members verdicts : _decide cfg j members = Ok verdicts →
  ∀ m, m ∈ verdicts.*1 → m ∈ is_open j.
Proof.
  unfold _decide. intros H. apply bind_Ok in H as (ups & Hu & H). apply bind_Ok in H as (downs & Hd & H).
  apply bind_Ok in H as (es & _ & H). apply bind_Ok in H as (decided & _ & H).
  apply members_on_sub in Hu as [Hopen Hu], Hd as [_ Hd].
  assert (∀ s i, od_get s (inverse (numbered "u" ups) ++ inverse (numbered "d" downs)) = Some i →
    i ∈ is_open j) as Hback.
  { intros s i [E|E]%od_get_app; apply numbered_elem in E; auto. }
  revert H. apply (fold_res_ind (λ out, ∀ m, m ∈ out.*1 → m ∈ is_open j));
    [by intros m ?%not_elem_of_nil|].
  intros d out out' _ IH H. apply bind_Ok in H as (me & Hme & H). apply get_Ok, Hback in Hme.
  assert (∀ v m, m ∈ (od_set me v out).*1 → m ∈ is_open j) as Hset.
  { intros v m [-> |Hm]%od_set_fst; auto. }
  destruct (negb _).
  { apply bind_Ok in H as (r & _ & [= <-]). apply Hset. }
  apply bind_Ok in H as (p & _ & H). apply bind_Ok in H as (mine & _ & H).
  apply bind_Ok in H as (theirs & _ & H). destruct theirs; [injection H as <-; apply Hset|].
  apply bind_Ok in H as (row & _ & H). apply bind_Ok in H as (w & _ & [= <-]). apply Hset.
Qed.

Lemma add_ok j o j' verdicts : add cfg j o = Ok (j', verdicts) →
  is_open j' = {[identity o]} ∪ is_open j ∧ ∀ m, m ∈ verdicts.*1 → m ∈ is_open j'.
Proof.
  unfold add. intros H. apply bind_Ok in H as (j1 & H1 & H). apply enter_open in H1.
  apply bind_Ok in H as ([members touched] & _ & H). apply bind_Ok in H as (sides & Hs & H).
  assert (is_open j1 = {[identity o]} ∪ is_open j) as E1 by by rewrite H1, dom_insert_L.
  destruct (_ || _).
  - injection H as <- <-. simpl. split; [done|]. intros m Hm.
    apply (gets_open (λ m x, o_side x) j1 members _ Hs).
    rewrite <- list_fmap_compose in Hm. by rewrite list_fmap_id in Hm.
  - apply bind_Ok in H as (vs & Hv & [= <- <-]). split; [done|]. by eapply _decide_sub.
Qed.
End join_lemmas.
