(* ===== verification/Flow.v ===== *)
(** * Flow: correlation as a stream, with a replayable proof

    [correlation/flow.py].  A journal of observations and progress signals is
    replayed into a history of decisions and dossiers.  The attributes of [_Flow]
    are four records: what the journal told, the open groups, the history, and the
    timed joins.  The engine's version, which the package metadata provides, and
    [repr] of a string are parameters.  A [heapq] of distinct entries is the sorted
    list of them.  Sets whose iteration order Python leaves open are finite sets;
    the one place the source walks one ([_group_of]) sorts its result.

    An entry that is neither [Seen] nor [Advance], and a count or a time that is
    not an integer, are outside the types of the model. *)

From S2P Require Import Prelude Digest Topology Dedup Assignment Timing FlowTimed Exact.

(** ** Data *)

Definition DEFAULT_MAX_COLLISION_MEMBERS : Z := 32.

Record Seen := mkSeen {
  observation : Observation;
  at_us : Z;
  captured_at : option string;   (* never read here *)
  start_us : option Z;
  end_us : option Z
}.
Inductive Entry :=
| ESeen (s : Seen)
| EAdvance (source : string) (until : Z).
Global Instance Seen_eq_dec : EqDecision Seen.
Proof. solve_decision. Defined.

Record FlowConfig := mkConfig {
  sources : list string;
  window_us : Z;
  lateness_us : Z;
  max_silence_us : option Z;
  max_collision_members : Z;
  timing : option (odict string JoinParams);
  flow_max_duration_us : option Z;
  calibration : option (odict string (list string))
}.

Inductive Status := PROVISIONAL | FINAL | SUPERSEDED.
Inductive Kind :=
| LINKED | COLLIDED | UNLINKED | LATE | VALUE_AFTER_FINAL | CONFLICTED | UNDECIDED.
Inductive Corroboration :=
| CORROBORATED | SIGNAL_ABSENT | SIGNAL_UNMATCHED | SIGNAL_OTHER_PARTNER.
Global Instance Status_eq_dec : EqDecision Status.
Proof. solve_decision. Defined.
Global Instance Kind_eq_dec : EqDecision Kind.
Proof. solve_decision. Defined.
Global Instance Corroboration_eq_dec : EqDecision Corroboration.
Proof. solve_decision. Defined.
Definition Kind_value (k : Kind) : string :=
  match k with
  | LINKED => "LINKED" | COLLIDED => "COLLIDED" | UNLINKED => "UNLINKED" | LATE => "LATE"
  | VALUE_AFTER_FINAL => "VALUE_AFTER_FINAL" | CONFLICTED => "CONFLICTED" | UNDECIDED => "UNDECIDED"
  end.
Definition Corroboration_value (c : Corroboration) : string :=
  match c with
  | CORROBORATED => "CORROBORATED" | SIGNAL_ABSENT => "SIGNAL_ABSENT"
  | SIGNAL_UNMATCHED => "SIGNAL_UNMATCHED" | SIGNAL_OTHER_PARTNER => "SIGNAL_OTHER_PARTNER"
  end.

Notation Where := string (only parsing).
Notation BusinessKey := (string * (string * Z))%type (only parsing).

Record FlowDecision := mkDecision {
  decision_id : string;
  business_key : BusinessKey;
  chain_version : Z;
  status : Status;
  kind : Kind;
  dkey : option string;
  value : option string;
  partners : list Identity;
  decided_at : Z;
  final_at : option Z;
  forced : bool;
  supersedes : option string;
  evidence : option Evidence;
  corroboration : option Corroboration;
  missing_on : list Identity;
  reason : option FlowTimed.Reason;
  weight : option Z
}.
Global Instance FlowDecision_eq_dec : EqDecision FlowDecision.
Proof. solve_decision. Defined.

Record Dossier := mkDossier {
  dossier_id : string;
  observations : list Identity;
  dossier_decisions : list string;
  dossier_forced : bool;
  dossier_topology_id : string;
  dossier_config_id : string;
  dossier_engine_version : string;
  dossier_positions : list Z;
  closed_at : Z;
  cites : option (string * string);
  dossier_where : option Where;
  method : option string;
  dossier_params_id : option string;
  dossier_calibration : list string
}.
Record FlowResult := mkFlowResult {
  result_decisions : list FlowDecision;
  result_dossiers : list Dossier;
  result_duplicates : Z
}.

(** [FlowResult.status], [effective] and [signal_counts]. *)
Definition result_status (r : FlowResult) (d : FlowDecision) : Status :=
  if existsb (λ x, bool_decide (supersedes x = Some (decision_id d))) (result_decisions r)
  then SUPERSEDED else status d.
Definition effective (r : FlowResult) : odict BusinessKey FlowDecision :=
  foldl (λ m d, od_set (business_key d) d m) [] (result_decisions r).
Definition signal_counts (r : FlowResult) : odict (Where * Corroboration) Z :=
  foldl (λ m e,
    match status e.2, corroboration e.2 with
    | FINAL, Some c => od_set (e.1.1, c) (default 0 (od_get (e.1.1, c) m) + 1) m
    | _, _ => m
    end) [] (effective r).

(** ** Proposals *)

Record Proposal := mkProposal {
  p_kind : Kind;
  p_key : option string;
  p_value : option string;
  p_partners : list Identity;
  p_evidence : option Evidence;
  p_corroboration : option Corroboration;
  p_missing_on : list Identity;
  p_reason : option FlowTimed.Reason;
  p_weight : option Z
}.
Global Instance Proposal_eq_dec : EqDecision Proposal.
Proof. solve_decision. Defined.
(** [_Proposal(kind, key, value, partners)], the other fields by default. *)
Definition plain_proposal (k : Kind) (key value : option string) (ps : list Identity) : Proposal :=
  mkProposal k key value ps None None [] None None.

Definition str_identity (i : Identity) : string := (i.1 +:+ _SEP +:+ str_Z i.2)%string.
(** [s or ""] *)
Definition or_empty (s : option string) : string := default ""%string s.
Definition str_opt_Z (z : option Z) : string :=
  match z with None => "None"%string | Some z => str_Z z end.
Definition fingerprint (p : Proposal) : string :=
  let second :=
    match p_corroboration p with
    | Some c => "corroboration"%string :: Corroboration_value c :: (str_identity <$> p_missing_on p)
    | None => []
    end in
  let second :=
    if bool_decide (p_evidence p = Some DERIVED) || bool_decide (is_Some (p_reason p))
    then ["timed"%string; match p_reason p with Some r => Reason_value r | None => ""%string end;
          str_opt_Z (p_weight p)]
    else second in
  _digest ([Kind_value (p_kind p); or_empty (p_key p); or_empty (p_value p)] ++
           (str_identity <$> p_partners p) ++ second).
Definition proposal_of (d : FlowDecision) : Proposal :=
  mkProposal (kind d) (dkey d) (value d) (partners d) (evidence d) (corroboration d)
    (missing_on d) (reason d) (weight d).
Definition _fingerprint (d : FlowDecision) : string := fingerprint (proposal_of d).

Definition _timed_proposal (v : Verdict) : res Proposal :=
  match v_reason v with
  | None =>
      partner ← get (v_partner v) TypeError;   (* a verdict without a reason names its partner *)
      Ok (mkProposal LINKED None None [partner] (Some DERIVED) None [] None (v_weight v))
  | Some r => Ok (mkProposal UNDECIDED None None [] None None [] (Some r) None)
  end.

(** ** Fingerprints of the topology and of the settings *)

(** The values [_canonical] returns, and their [repr]. *)
Inductive PyVal := PNone | PBool (b : bool) | PInt (z : Z) | PStr (s : string) | PTuple (l : list PyVal).

Section canonical.
Context (repr_str : string → string).

Fixpoint repr_val (v : PyVal) : string :=
  match v with
  | PNone => "None"
  | PBool b => if b then "True" else "False"
  | PInt z => str_Z z
  | PStr s => repr_str s
  | PTuple l => repr_tuple (repr_val <$> l)
  end%string.

Definition dataclass (name : string) (fields : list (string * PyVal)) : PyVal :=
  PTuple [PStr name; PTuple ((λ f, PTuple [PStr f.1; f.2]) <$> fields)].
Definition of_opt {A} (f : A → PyVal) (o : option A) : PyVal :=
  match o with Some a => f a | None => PNone end.
(** A [frozenset]: [sorted] of its strings. *)
Definition of_names (s : gset string) : PyVal := PTuple (PStr <$> sorted (elements s)).
Definition Evidence_name (e : Evidence) : string :=
  match e with
  | UNRESOLVED => "UNRESOLVED" | DERIVED => "DERIVED" | OBSERVED => "OBSERVED" | AUTHORED => "AUTHORED"
  end.
Definition LinkKind_name (l : LinkKind) : string :=
  match l with
  | SHARED_HEADER => "SHARED_HEADER" | MESSAGE_KEY => "MESSAGE_KEY"
  | SAME_CONNECTION => "SAME_CONNECTION" | SAME_SOCKET => "SAME_SOCKET"
  | NESTED_TIMING => "NESTED_TIMING" | PROPAGATED => "PROPAGATED"
  | INSIDE_PROCESS => "INSIDE_PROCESS" | LOGGED_TIMING => "LOGGED_TIMING" | NONE => "NONE"
  end.
(** [str(Fraction)] *)
Definition str_fraction (q : QArith_base.Q) : string :=
  let n := str_Z (QArith_base.Qnum q) in
  if bool_decide (QArith_base.Qden q = 1%positive) then n
  else (n +:+ "/" +:+ str_Z (Z.pos (QArith_base.Qden q)))%string.

Definition canonical_point (p : Point) : PyVal :=
  dataclass "Point"
    [("name", PStr (p_name p)); ("host", PStr (p_host p)); ("visibility", PStr (p_visibility p));
     ("clock", of_opt PStr (p_clock p)); ("timestamps", of_opt PStr (p_timestamps p));
     ("inbound", of_names (p_inbound p)); ("outbound", of_names (p_outbound p));
     ("propagates", PTuple ((λ e, PTuple [PStr e.1; PStr e.2]) <$> p_propagates p));
     ("sets", of_names (p_sets p)); ("trusts_incoming", PBool (p_trusts_incoming p))]%string.
Definition canonical_hop (h : HopCeiling) : PyVal :=
  dataclass "HopCeiling"
    [("src", PStr (hc_src h)); ("dst", PStr (hc_dst h)); ("relation", PStr (hc_relation h));
     ("evidence", PStr (Evidence_name (hc_evidence h))); ("link", PStr (LinkKind_name (hc_link h)));
     ("density", of_opt (λ q, PStr (str_fraction q)) (hc_density h));
     ("max_fanout", of_opt PInt (hc_max_fanout h)); ("key", of_opt PStr (hc_key h));
     ("observed", of_opt (λ l, PTuple (PStr <$> l)) (hc_observed h))]%string.
Definition canonical_crossing (c : CrossingCeiling) : PyVal :=
  dataclass "CrossingCeiling"
    [("point", PStr (cc_point c)); ("evidence", PStr (Evidence_name (cc_evidence c)));
     ("link", PStr (LinkKind_name (cc_link c))); ("key", of_opt PStr (cc_key c))]%string.
Definition canonical_topology (t : Topology) : PyVal :=
  dataclass "Topology"
    [("points", PTuple (canonical_point <$> t_points t));
     ("hops", PTuple (canonical_hop <$> t_hops t));
     ("crossings", PTuple (canonical_crossing <$> t_crossings t))]%string.
Definition canonical_signal (s : Signal) : PyVal :=
  dataclass "Signal"
    [("name", PStr (s_name s)); ("offset_us", PInt (s_offset_us s));
     ("window_us", PInt (s_window_us s))]%string.
Definition canonical_params (p : JoinParams) : PyVal :=
  dataclass "JoinParams"
    [("signals", PTuple (canonical_signal <$> jp_signals p)); ("margin_us", PInt (jp_margin_us p));
     ("max_component", PInt (jp_max_component p)); ("local_span_us", PInt (jp_local_span_us p));
     ("local_limit_permille", PInt (jp_local_limit_permille p))]%string.

Definition topology_id (t : Topology) : string :=
  _digest ["topology"%string; repr_val (canonical_topology t)].

(** [self.timing], empty when it is not given. *)
Definition timing_of (c : FlowConfig) : odict string JoinParams := default [] (timing c).
Definition calibration_of (c : FlowConfig) (where_ : Where) : list string :=
  default [] (od_get where_ (default [] (calibration c))).
Definition config_id (c : FlowConfig) : string :=
  let limit := max_collision_members c in
  let declared := if limit =? DEFAULT_MAX_COLLISION_MEMBERS then []
                  else ["max_collision"%string; str_Z limit] in
  let timed := sorted_by fst (timing_of c) ≫= λ e : string * JoinParams,
    ["timing"%string; e.1; repr_val (canonical_params e.2)] ++
    ("calibration"%string :: calibration_of c e.1) in
  let declared := declared ++
    match timing_of c with
    | [] => []
    | _ => timed ++ ["max_duration"%string; str_opt_Z (flow_max_duration_us c)]
    end in
  _digest (["flow"; "sources"]%string ++ sorted (sources c) ++
    ["window"%string; str_Z (window_us c); "lateness"%string; str_Z (lateness_us c);
     "max_silence"%string; str_opt_Z (max_silence_us c)] ++ declared).
End canonical.

(** ** State *)

(** What the journal told. *)
Record Journal := mkJournal {
  progress : odict string (option Z);
  first_at : option Z;
  seen : gmap Identity Seen;
  positions : gmap Identity Z;
  duplicates : Z;
  position : Z
}.
(** The open groups. *)
Record Groups := mkGroups {
  open : gmap Identity Seen;
  keys_of : gmap Identity (gset BusinessKey);
  holders : gmap (string * string) (gset Identity);
  pending : list (Z * Identity);
  closed_values : gset (string * string);
  crowded : gmap (string * string) (gset Where);
  settled : gset Identity;
  due : gset Identity
}.
(** The history. *)
Record History := mkHistory {
  current : gmap BusinessKey FlowDecision;
  decisions : list FlowDecision;
  dossiers : list Dossier
}.
Record Flow := mkFlow {
  journal : Journal;
  groups : Groups;
  history : History;
  timed : odict Where (JoinSettings * TimedJoin)
}.

(** What [__init__] computes once. *)
Record Settings := mkSettings {
  topology : Topology;
  config : FlowConfig;
  points : gset string;
  join_key : gmap Where string;
  join_keys : gset string;
  observed : gmap Where (list string);
  the_topology_id : string;
  the_config_id : string;
  the_engine_version : string
}.

Definition _check (c : FlowConfig) : res unit :=
  _ ← check (negb (is_nil (sources c)) && forallb (λ s, negb (bool_decide (s = ""%string))) (sources c)
             && bool_decide (NoDup (sources c)))
        (ValueError "sources must be a non-empty tuple of distinct names");
  _ ← check (0 <=? window_us c) (ValueError "window_us must be an integer >= 0");
  _ ← check (0 <=? lateness_us c) (ValueError "lateness_us must be an integer >= 0");
  _ ← check (match max_silence_us c with Some b => 1 <=? b | None => true end)
        (ValueError "max_silence_us must be None or an integer >= 1");
  _ ← check (2 <=? max_collision_members c) (ValueError "max_collision_members must be an integer >= 2");
  check (match flow_max_duration_us c with Some d => 1 <=? d | None => true end)
    (ValueError "max_duration_us must be None or an integer >= 1").

(** [if h.key]: neither absent nor empty. *)
Definition named (key : option string) : option string :=
  k ← key; if bool_decide (k = ""%string) then None else Some k.
Definition join_key_of (t : Topology) : gmap Where string :=
  let hops := foldl (λ m h, match named (hc_key h) with
                            | Some k => <[hop_where (hc_src h) (hc_dst h) := k]> m | None => m end)
                ∅ (t_hops t) in
  foldl (λ m c, match named (cc_key c) with Some k => <[cc_point c := k]> m | None => m end)
    hops (t_crossings t).
Definition observed_of (t : Topology) : gmap Where (list string) :=
  foldl (λ m h, match hc_observed h with
                | Some (i :: l) => <[hop_where (hc_src h) (hc_dst h) := i :: l]> m | _ => m end)
    ∅ (t_hops t).
Definition _timed_joins (t : Topology) (c : FlowConfig) : res (odict Where (JoinSettings * TimedJoin)) :=
  let hops := timing_hops t in
  map_res (λ e : string * JoinParams,
      _ ← check (bool_decide (is_Some (od_get e.1 hops))) (ValueError "not a timing-derived hop");
      hop ← get (od_get e.1 hops) KeyError;
      j ← TimedJoin_init e.1 (hc_src hop) (hc_dst hop) e.2 (flow_max_duration_us c);
      Ok (e.1, j))
    (sorted_by fst (timing_of c)).

Section flow.
Context (cfg : Settings).

Definition init_state (timed : odict Where (JoinSettings * TimedJoin)) : Flow :=
  mkFlow (mkJournal ((λ s, (s, None)) <$> sources (config cfg)) None ∅ ∅ 0 (-1))
    (mkGroups ∅ ∅ ∅ [] ∅ ∅ ∅ ∅) (mkHistory ∅ [] []) timed.

(** ** The history *)

(** [_emit]: the next decision of a chain. *)
Definition final_id (key : BusinessKey) (p : Proposal) (forced : bool) : string :=
  _digest [key.1; key.2.1; str_Z key.2.2; fingerprint p; if forced then "FORCED" else "FINAL"]%string.
Definition provisional_id (key : BusinessKey) (p : Proposal) (version : Z) : string :=
  _digest [key.1; key.2.1; str_Z key.2.2; str_Z version; fingerprint p].
Definition next_version (h : History) (key : BusinessKey) : Z :=
  match current h !! key with None => 1 | Some d => chain_version d + 1 end.
Definition next_decision (at_ : Z) (h : History) (key : BusinessKey) (p : Proposal) (final forced : bool)
    : FlowDecision :=
  mkDecision
    (if final then final_id key p forced else provisional_id key p (next_version h key))
    key (next_version h key) (if final then FINAL else PROVISIONAL)
    (p_kind p) (p_key p) (p_value p) (p_partners p) at_ (if final then Some at_ else None) forced
    (decision_id <$> current h !! key) (p_evidence p) (p_corroboration p) (p_missing_on p)
    (p_reason p) (p_weight p).
Definition _emit (at_ : Z) (h : History) (key : BusinessKey) (p : Proposal) (final forced : bool)
    : History * FlowDecision :=
  let d := next_decision at_ h key p final forced in
  (mkHistory (<[key := d]> (current h)) (decisions h ++ [d]) (dossiers h), d).
(** A provisional decision, unless the chain already says the same. *)
Definition propose (at_ : Z) (h : History) (key : BusinessKey) (p : Proposal) : History :=
  match current h !! key with
  | Some d => if bool_decide (_fingerprint d = fingerprint p) then h
              else (_emit at_ h key p false false).1
  | None => (_emit at_ h key p false false).1
  end.

Definition _prove (jn : Journal) (h : History) (os : list Identity) (ids : list string) (forced : bool)
    (cites : option (string * string)) (join : option JoinSettings) : res History :=
  let calibration := match join with
                     | Some j => calibration_of (config cfg) (FlowTimed.where_ j) | None => [] end in
  let cited := match join with
               | Some j => ["timed"%string; FlowTimed.where_ j; METHOD; params_id j] ++ calibration
               | None => match cites with Some (k, v) => ["cites"%string; k; v] | None => [] end
               end in
  let id_ := _digest (["dossier"%string; the_topology_id cfg; the_config_id cfg] ++
                      (str_identity <$> os) ++ ids ++ cited) in
  ps ← map_res (λ i, get (positions jn !! i) KeyError) os;
  Ok (mkHistory (current h) (decisions h)
        (dossiers h ++ [mkDossier id_ os ids forced (the_topology_id cfg) (the_config_id cfg)
           (the_engine_version cfg) ps (position jn) cites (FlowTimed.where_ <$> join)
           ((λ _, METHOD) <$> join) (params_id <$> join) calibration])).

(** ** Time *)

Definition _declared (jn : Journal) (source : string) : res unit :=
  check (bool_decide (source ∈ (progress jn).*1)) (ValueError "undeclared source").
Definition _advance (jn : Journal) (source : string) (until : Z) : res Journal :=
  previous ← get (od_get source (progress jn)) KeyError;
  Ok (mkJournal
    (od_set source (Some (match previous with None => until | Some p => Z.max p until end)) (progress jn))
    (Some (match first_at jn with None => until | Some f => Z.min f until end))
    (seen jn) (positions jn) (duplicates jn) (position jn)).
(** A source that never reported holds the journal's first event time. *)
Definition effective_progress (jn : Journal) (first : Z) : list Z :=
  (λ e : string * option Z, default first e.2) <$> progress jn.
Definition _watermark (jn : Journal) : res (Z * bool) :=
  first ← get (first_at jn) TypeError;
  let effective := effective_progress jn first in
  match effective with
  | [] => Raise (ValueError "max() of nothing")
  | e :: es =>
      let fastest := max_of e es in
      let holding := List.filter (λ p, match max_silence_us (config cfg) with
                                       | None => true | Some b => fastest - p <=? b end) effective in
      match holding with
      | [] => Raise (ValueError "min() of nothing")
      | h :: hs => Ok (min_of h hs - lateness_us (config cfg),
                       (length holding <? length effective)%nat)
      end
  end.
Definition _times (s : Seen) : res unit :=
  match start_us s, end_us s with
  | None, None => Ok tt
  | Some b, Some e =>
      _ ← check (b <=? e) (ValueError "an observation ends before it starts");
      check (at_us s =? e) (ValueError "at must be end_us for a timed observation")
  | _, _ => Raise (ValueError "start_us and end_us are given together, or not at all")
  end.

(** ** Groups *)

(** The (key, value) pairs a group is united by: authored, then observed. *)
Global Instance ids_cmp : Cmp (list string) := list_cmp.
Definition _values (o : Observation) : list (string * string) :=
  omap (λ key, (λ v, (key, v)) <$> o_keys o !! key) (sorted (elements (join_keys cfg))) ++
  omap (λ ids, (λ v, (observed_key ids, v)) <$> _composite_of o ids)
    (sorted (remove_dups (map_to_list (observed cfg)).*2)).
(** [todo] is a stack; what is not settled of the new members is pushed. *)
Fixpoint gather (fuel : nat) (g : Groups) (group : gset Identity) (todo : list Identity)
    : res (gset Identity) :=
  match todo with
  | [] => Ok group
  | i :: todo =>
      match fuel with
      | O => Raise OutOfFuel
      | S f =>
          s ← get (open g !! i) KeyError;
          '(group, todo) ← fold_res (λ st value,
              held ← get (holders g !! value) KeyError;
              let new := held ∖ st.1 in
              Ok (st.1 ∪ new, reverse (elements (new ∖ settled g)) ++ st.2))
            (_values (observation s)) (group, todo);
          gather f g group todo
      end
  end.
Definition _group_of (g : Groups) (i : Identity) : res (list Identity) :=
  group ← gather (S (size (open g))) g {[i]} [i];
  Ok (sorted (elements group)).

(** ** Evaluation *)

(** [_Outcome]: kind, key, value, partners. *)
Notation Outcome := (Kind * option string * option string * list Identity)%type (only parsing).
Definition o_kind (x : Outcome) : Kind := x.1.1.1.
Definition o_partners (x : Outcome) : list Identity := x.2.

Definition outcome_proposal (x : Outcome) (e : option Evidence) (c : option Corroboration)
    (missing : list Identity) : Proposal :=
  let '(k, key, v, ps) := x in mkProposal k key v ps e c missing None None.
Definition _single (x : Outcome) (e : Evidence) : Proposal :=
  outcome_proposal x (if bool_decide (o_kind x = LINKED) then Some e else None) None [].

Definition _outcomes (r : Exact.Result)
    (value_of : Where → Identity → res (option string * option string))
    : res (gmap BusinessKey Outcome) :=
  let out := foldl (λ out l,
      <[(l_where l, l_downstream l) := (LINKED, Some (l_key l), Some (l_value l), [l_upstream l])]>
        (<[(l_where l, l_upstream l) := (LINKED, Some (l_key l), Some (l_value l), [l_downstream l])]> out))
    ∅ (Exact.r_links r) in
  let out := foldl (λ out c,
      let out := foldl (λ out i,
          <[(c_where c, i) := (COLLIDED, Some (c_key c), Some (c_value c), c_downstream c)]> out)
        out (c_upstream c) in
      foldl (λ out i,
          <[(c_where c, i) := (COLLIDED, Some (c_key c), Some (c_value c), c_upstream c)]> out)
        out (c_downstream c))
    out (r_collisions r) in
  fold_res (λ out e,
      '(k, v) ← value_of e.1 e.2;
      Ok (<[(e.1, e.2) := (UNLINKED, k, v, [])]> out))
    (r_unlinked r) out.

Section evaluate.
Context (g : Groups).

Definition _authored_value (w : Where) (i : Identity) : res (option string * option string) :=
  key ← get (join_key cfg !! w) KeyError;
  s ← get (open g !! i) KeyError;
  v ← get (o_keys (observation s) !! key) KeyError;
  Ok (Some key, Some v).
Definition _observed_value (w : Where) (i : Identity) : res (option string * option string) :=
  ids ← get (observed cfg !! w) KeyError;
  s ← get (open g !! i) KeyError;
  Ok (Some (observed_key ids), _composite_of (observation s) ids).
Definition _has_authored (w : Where) (i : Identity) : res bool :=
  key ← get (join_key cfg !! w) KeyError;
  s ← get (open g !! i) KeyError;
  Ok (bool_decide (is_Some (o_keys (observation s) !! key))).
Definition _has_observed (w : Where) (i : Identity) : res bool :=
  ids ← get (observed cfg !! w) KeyError;
  s ← get (open g !! i) KeyError;
  Ok (bool_decide (is_Some (_composite_of (observation s) ids))).

Definition _definitive (w : Where) (x : Outcome) : Outcome :=
  let '(_, key, v, _) := x in
  match key, v with
  | Some k, Some v' =>
      if bool_decide (w ∈ default ∅ (crowded g !! (k, v'))) then (COLLIDED, key, v, []) else x
  | _, _ => x
  end.

Definition linked (x : option Outcome) : bool :=
  match x with Some x => bool_decide (o_kind x = LINKED) | None => false end.
Definition collided (x : option Outcome) : bool :=
  match x with Some x => bool_decide (o_kind x = COLLIDED) | None => false end.
(** Both signals link. *)
Definition two_links (a o : Outcome) : Proposal :=
  if bool_decide (o_partners a = o_partners o)
  then outcome_proposal a (Some AUTHORED) (Some CORROBORATED) []
  else let '(_, key, v, _) := a in
       mkProposal CONFLICTED key v (sorted (remove_dups (o_partners a ++ o_partners o)))
         None (Some SIGNAL_OTHER_PARTNER) [] None None.
(** One of them does: the other is missing on an end, or recorded on both. *)
Definition one_link (w : Where) (i : Identity) (x : Outcome) (e : Evidence)
    (other : Where → Identity → res bool) : res Proposal :=
  has ← map_res (λ j, b ← other w j; Ok (j, b)) (i :: o_partners x);
  let missing := sorted (fst <$> List.filter (λ e : Identity * bool, negb e.2) has) in
  match missing with
  | [] => let '(_, key, v, ps) := x in
          Ok (mkProposal CONFLICTED key v ps None (Some SIGNAL_UNMATCHED) [] None None)
  | _ => Ok (outcome_proposal x (Some e) (Some SIGNAL_ABSENT) missing)
  end.
Definition _combined (key : BusinessKey) (authored observed : option Outcome) : res Proposal :=
  let '(w, i) := key in
  match authored, observed with
  | None, None => Raise TypeError   (* not met: the key is one of one of the two *)
  | Some a, None =>
      if linked (Some a) then one_link w i a AUTHORED _has_observed
      else Ok (outcome_proposal a None None [])
  | None, Some o =>
      if linked (Some o) then one_link w i o OBSERVED _has_authored
      else Ok (outcome_proposal o None None [])
  | Some a, Some o =>
      if collided (Some a) then Ok (outcome_proposal a None None [])
      else if collided (Some o) then Ok (outcome_proposal o None None [])
      else if linked (Some a) && linked (Some o) then Ok (two_links a o)
      else if linked (Some a) then one_link w i a AUTHORED _has_observed
      else if linked (Some o) then one_link w i o OBSERVED _has_authored
      else Ok (outcome_proposal a None None [])
  end.
Definition proposal_for (authored observed_ : gmap BusinessKey Outcome) (key : BusinessKey)
    : res Proposal :=
  if bool_decide (is_Some (observed cfg !! key.1)) && bool_decide (is_Some (join_key cfg !! key.1))
  then _combined key (authored !! key) (observed_ !! key)
  else
    x ← match authored !! key with Some a => Ok a | None => get (observed_ !! key) KeyError end;
    Ok (_single x (if bool_decide (is_Some (join_key cfg !! key.1)) then AUTHORED else OBSERVED)).
End evaluate.

Definition set_crowded (g : Groups) (c : gmap (string * string) (gset Where)) : Groups :=
  mkGroups (open g) (keys_of g) (holders g) (pending g) (closed_values g) c (settled g) (due g).
Definition set_keys_of (g : Groups) (k : gmap Identity (gset BusinessKey)) : Groups :=
  mkGroups (open g) k (holders g) (pending g) (closed_values g) (crowded g) (settled g) (due g).
Definition set_settled_due (g : Groups) (s d : gset Identity) : Groups :=
  mkGroups (open g) (keys_of g) (holders g) (pending g) (closed_values g) (crowded g) s d.

(** Collisions past the limit are definitive. *)
Definition note_crowded (g : Groups) (collisions : list Collision) : Groups :=
  set_crowded g (foldl (λ m c,
    if max_collision_members (config cfg) <?
       Z.of_nat (length (c_upstream c)) + Z.of_nat (length (c_downstream c))
    then <[(c_key c, c_value c) := {[c_where c]} ∪ default ∅ (m !! (c_key c, c_value c))]> m
    else m) (crowded g) collisions).

Definition _settle_if_decided (jn : Journal) (g : Groups) (i : Identity) : res Groups :=
  s ← get (open g !! i) KeyError;
  match _values (observation s) with
  | [v] =>
      match crowded g !! v with
      | None => Ok g
      | Some ws =>
          ks ← get (keys_of g !! i) KeyError;
          if forallb (λ k : BusinessKey, bool_decide (k.1 ∈ ws)) (elements ks) then
            '(watermark, _) ← _watermark jn;
            Ok (set_settled_due g ({[i]} ∪ settled g)
                  (if at_us s + window_us (config cfg) <? watermark then {[i]} ∪ due g else due g))
          else Ok g
      end
  | _ => Ok g
  end.

Definition _evaluate (jn : Journal) (g : Groups) (h : History) (group : list Identity)
    : res (Groups * History) :=
  let group := List.filter (λ i, negb (bool_decide (i ∈ settled g))) group in
  os ← map_res (λ i, s ← get (open g !! i) KeyError; Ok (observation s)) group;
  joined ← exact_links (topology cfg) os;
  let g := note_crowded g (r_collisions joined) in
  outcomes ← _outcomes joined (_authored_value g);
  let authored := map_imap (λ k x, Some (_definitive g k.1 x)) outcomes in
  seen_ ← observed_links (topology cfg) os;
  observed_ ← _outcomes seen_ (_observed_value g);
  let keys := sorted (elements (dom authored ∪ dom observed_)) in
  proposals ← map_res (λ k, p ← proposal_for g authored observed_ k; Ok (k, p)) keys;
  '(ks, h) ← fold_res (λ st kp,
      mine ← get (st.1 !! kp.1.2) KeyError;
      Ok (<[kp.1.2 := {[kp.1]} ∪ mine]> st.1, propose (position jn) st.2 kp.1 kp.2))
    proposals (keys_of g, h);
  let g := set_keys_of g ks in
  g ← (if bool_decide (crowded g = ∅) then Ok g else fold_res (_settle_if_decided jn) group g);
  Ok (g, h).

(** ** Closing *)

(** [holders[value].discard(identity)], dropped when empty. *)
Definition release (i : Identity) (m : gmap (string * string) (gset Identity)) (v : string * string)
    : res (gmap (string * string) (gset Identity)) :=
  held ← get (m !! v : option (gset Identity)) KeyError;
  let left : gset Identity := held ∖ {[i]} in
  Ok (if bool_decide (left = ∅) then delete v m else <[v := left]> m).
Definition _finalise (jn : Journal) (g : Groups) (h : History) (i : Identity) (forced : bool)
    : res (Groups * History * list string) :=
  ks ← get (keys_of g !! i) KeyError;
  '(h, finals) ← fold_res (λ st k,
      d ← get (current st.1 !! k) KeyError;
      let '(h, d') := _emit (position jn) st.1 k (proposal_of d) true forced in
      Ok (h, st.2 ++ [decision_id d']))
    (sorted (elements ks)) (h, []);
  s ← get (open g !! i) KeyError;
  hs ← fold_res (release i) (_values (observation s)) (holders g);
  Ok (mkGroups (delete i (open g)) (keys_of g) hs (pending g) (closed_values g) (crowded g)
        (settled g) (due g), h, finals).
Definition _let_go (jn : Journal) (g : Groups) (h : History) (i : Identity) (forced : bool)
    : res (Groups * History) :=
  s ← get (open g !! i) KeyError;
  cited ← get (head (_values (observation s))) IndexError;
  '(g, h, finals) ← _finalise jn g h i forced;
  let g := set_settled_due g (settled g ∖ {[i]}) (due g) in
  h ← _prove jn h [i] (sorted finals) forced (Some cited) None;
  Ok (g, h).

Definition close_member (jn : Journal) (forced : bool)
    (st : Groups * History * list string * list Identity) (i : Identity)
    : res (Groups * History * list string * list Identity) :=
  let '(g, h, finals, whole) := st in
  s ← get (open g !! i) KeyError;
  let vs := _values (observation s) in
  let joined := List.filter (λ v : string * string, bool_decide (v.1 ∈ join_keys cfg)) vs in
  let g := mkGroups (open g) (keys_of g) (holders g) (pending g) (closed_values g ∪ list_to_set joined)
             (crowded g) (settled g) (due g) in
  '(g, h, finals, whole) ←
    (if bool_decide (i ∈ settled g)
     then '(g, h) ← _let_go jn g h i forced; Ok (g, h, finals, whole)
     else '(g, h, ids) ← _finalise jn g h i forced; Ok (g, h, finals ++ ids, whole ++ [i]));
  Ok (set_crowded g (foldl (λ m v, delete v m) (crowded g) vs), h, finals, whole).
Definition _close (jn : Journal) (forced : bool) (st : Groups * History) (group : list Identity)
    : res (Groups * History) :=
  '(g, h, finals, whole) ← fold_res (close_member jn forced) group (st.1, st.2, [], []);
  match whole with
  | [] => Ok (g, h)
  | _ => h ← _prove jn h whole (sorted finals) forced None None; Ok (g, h)
  end.

(** The latest event time of a group. *)
Definition latest_of (g : Groups) (group : list Identity) : res Z :=
  ats ← map_res (λ i, s ← get (open g !! i) KeyError; Ok (at_us s)) group;
  match ats with [] => Raise (ValueError "max() of nothing") | a :: l => Ok (max_of a l) end.
(** [while pending and pending[0][0] + window < watermark]: the queue is read from
    its smallest entry. *)
Fixpoint ripe_loop (watermark : Z) (queue : list (Z * Identity)) (g : Groups)
    (found : odict Identity (list Identity)) : res (Groups * odict Identity (list Identity)) :=
  match queue with
  | [] => Ok (g, found)
  | (a, i) :: rest =>
      if a + window_us (config cfg) <? watermark then
        let g := mkGroups (open g) (keys_of g) (holders g) rest (closed_values g) (crowded g)
                   (settled g) (due g) in
        group ← _group_of g i;
        latest ← latest_of g group;
        first ← get (head group) IndexError;
        if latest + window_us (config cfg) <? watermark
        then ripe_loop watermark rest g (od_set first group found)
        else if bool_decide (i ∈ settled g)
        then ripe_loop watermark rest (set_settled_due g (settled g) ({[i]} ∪ due g)) found
        else ripe_loop watermark rest g found
      else Ok (g, found)
  end.
Definition _ripe_groups (g : Groups) (watermark : Z) : res (Groups * list (list Identity)) :=
  '(g, found) ← ripe_loop watermark (pending g) g [];
  Ok (g, sorted found.*2).

(** ** Timed joins *)

Definition side_in (js : JoinSettings) (o : Observation) : option string :=
  FlowTimed.side_of js (o_point o) (o_side o).
Definition enter_one (jn : Journal) (s : Seen) (h : History)
    (e : Where * (JoinSettings * TimedJoin)) : res (History * (Where * (JoinSettings * TimedJoin))) :=
  let '(w, (js, j)) := e in
  let o := observation s in
  let i := identity o in
  match side_in js o with
  | None => Ok (h, e)
  | Some side =>
      let without (r : FlowTimed.Reason) :=
        p ← _timed_proposal (refused r);
        let '(h, d) := _emit (position jn) h (w, i) p true false in
        h ← _prove jn h [i] [decision_id d] false None (Some js);
        Ok (h, e) in
      match start_us s, end_us s with
      | Some b, Some n =>
          if too_long js b n then without R_TOO_LONG
          else
            '(j, verdicts) ← FlowTimed.add js j (mkTimed (o_source o) (o_seq o) (o_point o) side b n);
            h ← fold_res (λ h mv,
                  p ← _timed_proposal mv.2;
                  Ok (propose (position jn) h (w, mv.1) p))
                (sorted_by fst verdicts) h;
            Ok (h, (w, (js, j)))
      | _, _ => without R_TIME_ABSENT
      end
  end.
(** [for where, join in self.timed.items()]: a join is a mutable object, replaced
    in place by its new state. *)
Definition over_joins (f : History → Where * (JoinSettings * TimedJoin) →
                           res (History * (Where * (JoinSettings * TimedJoin))))
    (h : History) (joins : odict Where (JoinSettings * TimedJoin))
    : res (History * odict Where (JoinSettings * TimedJoin)) :=
  fold_res (λ st e, '(h, e) ← f st.1 e; Ok (h, st.2 ++ [e])) joins (h, []).
Definition settle_one (jn : Journal) (watermark : Z) (forced : bool) (h : History)
    (e : Where * (JoinSettings * TimedJoin)) : res (History * (Where * (JoinSettings * TimedJoin))) :=
  let '(w, (js, j)) := e in
  '(j, closings) ← FlowTimed.closing js j watermark;
  h ← fold_res (λ h c,
        '(h, finals) ← fold_res (λ st m,
            v ← get (od_get m (cl_verdicts c)) KeyError;
            p ← _timed_proposal v;
            let '(h, d) := _emit (position jn) st.1 (w, m) p true forced in
            Ok (h, st.2 ++ [decision_id d]))
          (cl_members c) (h, []);
        _prove jn h (cl_members c) (sorted finals) forced None (Some js))
      closings h;
  Ok (h, (w, (js, j))).

(** ** The journal *)

Definition _settle (st : Flow) : res Flow :=
  let jn := journal st in
  '(watermark, forced) ← _watermark jn;
  '(g, ripe) ← _ripe_groups (groups st) watermark;
  '(g, h) ← fold_res (_close jn forced) ripe (g, history st);
  '(g, h) ← fold_res (λ gh i, _let_go jn gh.1 gh.2 i forced)
              (sorted (elements (due g ∩ dom (open g)))) (g, h);
  let g := set_settled_due g (settled g) ∅ in
  '(h, joins) ← over_joins (settle_one jn watermark forced) h (timed st);
  Ok (mkFlow jn g h joins).

Definition content_of (s : Seen) : Observation * Z * option Z * option Z :=
  (observation s, at_us s, start_us s, end_us s).
(** The join values of a closed group that the observation carries. *)
Definition reused (g : Groups) (o : Observation) : list (string * string) :=
  sorted (omap (λ key, v ← o_keys o !! key;
                       if bool_decide ((key, v) ∈ closed_values g) then Some (key, v) else None)
            (elements (join_keys cfg))).
Definition open_one (s : Seen) (g : Groups) : Groups :=
  let i := identity (observation s) in
  mkGroups (<[i := s]> (open g)) (<[i := ∅]> (keys_of g))
    (foldl (λ m v, <[v := {[i]} ∪ default ∅ (m !! v)]> m) (holders g) (_values (observation s)))
    (insort (at_us s, i) (pending g)) (closed_values g) (crowded g) (settled g) (due g).
Definition _seen (st : Flow) (s : Seen) : res Flow :=
  let o := observation s in
  let jn := journal st in
  _ ← Exact._validate (points cfg) o;
  _ ← _declared jn (o_source o);
  _ ← _times s;
  let i := identity o in
  match seen jn !! i with
  | Some before =>
      _ ← check (bool_decide (content_of before = content_of s))
            (ValueError "observation delivered with different content");
      Ok (mkFlow (mkJournal (progress jn) (first_at jn) (seen jn) (positions jn) (duplicates jn + 1)
                    (position jn)) (groups st) (history st) (timed st))
  | None =>
      let pos := position jn + 1 in
      let jn := mkJournal (progress jn) (first_at jn) (<[i := s]> (seen jn))
                  (<[i := pos]> (positions jn)) (duplicates jn) pos in
      late ← match first_at jn with
             | None => Ok false
             | Some _ => '(w, _) ← _watermark jn; Ok (at_us s <? w)
             end;
      jn ← _advance jn (o_source o) (at_us s);
      if (late : bool) then
        let h := (_emit pos (history st) (""%string, i) (plain_proposal LATE None None []) true false).1 in
        Ok (mkFlow jn (groups st) h (timed st))
      else
        '(h, joins) ← over_joins (enter_one jn s) (history st) (timed st);
        match reused (groups st) o with
        | (k, v) :: _ =>
            let p := plain_proposal VALUE_AFTER_FINAL (Some k) (Some v) [] in
            Ok (mkFlow jn (groups st) (_emit pos h (""%string, i) p true false).1 joins)
        | [] =>
            let g := open_one s (groups st) in
            group ← _group_of g i;
            '(g, h) ← _evaluate jn g h group;
            _settle (mkFlow jn g h joins)
        end
  end.
Definition feed (st : Flow) (e : Entry) : res Flow :=
  match e with
  | ESeen s => _seen st s
  | EAdvance source until =>
      let jn := journal st in
      _ ← _declared jn source;
      let jn := mkJournal (progress jn) (first_at jn) (seen jn) (positions jn) (duplicates jn)
                  (position jn + 1) in
      jn ← _advance jn source until;
      _settle (mkFlow jn (groups st) (history st) (timed st))
  end.
End flow.

Section replay.
Context (repr_str : string → string) (engine_version : string).

Definition init_settings (t : Topology) (c : FlowConfig) : Settings :=
  let keys := join_key_of t in
  mkSettings t c (point_names t) keys (list_to_set (map_to_list keys).*2) (observed_of t)
    (topology_id repr_str t) (config_id repr_str c) engine_version.
Definition replay_flow (t : Topology) (entries : list Entry) (c : FlowConfig) : res FlowResult :=
  _ ← _check c;
  joins ← _timed_joins t c;
  let cfg := init_settings t c in
  st ← fold_res (feed cfg) entries (init_state cfg joins);
  Ok (mkFlowResult (decisions (history st)) (dossiers (history st)) (duplicates (journal st))).
End replay.
