(* ===== verification/FlowTheorems.v ===== *)
(** * Flow: what the history of decisions guarantees

    The theorems about [replay_flow].  What every method does to the history is a
    sequence of [step]s: an emission on a key, or a dossier over decisions that are
    already final.  The facts about single chains come from these steps alone; that
    nothing follows a FINAL decision also needs the invariant of the open groups. *)

From S2P Require Import Prelude Digest Topology Dedup Assignment Timing FlowTimed Exact Flow.

(** ** Steps of the history *)

Notation BusinessKey := (string * (string * Z))%type (only parsing).

Definition unfinal (h : History) (k : BusinessKey) : Prop :=
  ∀ d, current h !! k = Some d → status d ≠ FINAL.
(** The identifier of a decision that the history holds as final. *)
Definition finals_in (h : History) (ids : list string) : Prop :=
  ∀ x, x ∈ ids → ∃ d, d ∈ decisions h ∧ decision_id d = x ∧ status d = FINAL.

(** [strict]: emissions are on keys that are not final yet. *)
Inductive step (strict : Prop) (K : BusinessKey → Prop) : History → History → Prop :=
| step_emit at_ h key p final forced : K key → (strict → unfinal h key) →
    step strict K h (_emit at_ h key p final forced).1
| step_prove h d : finals_in h (dossier_decisions d) →
    step strict K h (mkHistory (current h) (decisions h) (dossiers h ++ [d])).
Notation steps strict K := (rtc (step strict K)).

Section steps.
Context (cfg : Settings) (strict : Prop).
Implicit Types (K : BusinessKey → Prop) (h : History) (jn : Journal).

Lemma step_weaken K K' h h' : (∀ k, K k → K' k) → step strict K h h' → step strict K' h h'.
Proof. intros HK [? ? ? ? ? ? Hk|]; constructor; auto. Qed.
Lemma steps_weaken K K' h h' : (∀ k, K k → K' k) → steps strict K h h' → steps strict K' h h'.
Proof. intros HK. apply rtc_subrel. intros x y. by apply step_weaken. Qed.

(** A key no emission is on keeps its current decision. *)
Lemma steps_frame K h h' k : steps strict K h h' → ¬ K k → current h' !! k = current h !! k.
Proof.
  intros Hs Hk. induction Hs as [|x y z Hxy _ IH]; [done|]. rewrite IH.
  destruct Hxy as [at_ h0 key p f fo Hkey _|]; [|done]. simpl. rewrite lookup_insert_ne; [done|].
  intros ->. done.
Qed.
Lemma steps_unfinal K h h' k : steps strict K h h' → ¬ K k → unfinal h k → unfinal h' k.
Proof. intros Hs Hk H. unfold unfinal. by rewrite (steps_frame K h h'). Qed.

(** A current decision is an old one, or on a key of the steps. *)
Lemma steps_current K h h' k d : steps strict K h h' → current h' !! k = Some d →
  K k ∨ current h !! k = Some d.
Proof.
  intros Hs. induction Hs as [|x y z Hxy _ IH]; [auto|]. intros H. destruct (IH H) as [?|Hy]; [auto|].
  destruct Hxy as [at_ h0 key p f fo Hkey _|]; [|auto]. simpl in Hy.
  apply lookup_insert_Some in Hy as [[<- _]|[_ ?]]; auto.
Qed.

Lemma flow_steps_append K h h' : steps strict K h h' →
  (∃ new, decisions h' = decisions h ++ new) ∧ (∃ new, dossiers h' = dossiers h ++ new).
Proof.
  induction 1 as [x|x y z Hxy _ [[n1 E1] [n2 E2]]].
  { split; exists []; by rewrite app_nil_r. }
  rewrite E1, E2. destruct Hxy as [at_ h key p f fo Hkey _|h d _]; simpl;
    rewrite <- ?app_assoc; split; eauto.
Qed.
Lemma finals_mono K h h' ids : steps strict K h h' → finals_in h ids → finals_in h' ids.
Proof.
  intros [[new E] _]%flow_steps_append H x Hx. destruct (H x Hx) as (d & Hd & ?).
  exists d. rewrite E, elem_of_app. auto.
Qed.
Lemma finals_app h ids ids' : finals_in h ids → finals_in h ids' → finals_in h (ids ++ ids').
Proof. intros H1 H2 x [?|?]%elem_of_app; auto. Qed.
Lemma finals_sub h ids ids' : (∀ x, x ∈ ids' → x ∈ ids) → finals_in h ids → finals_in h ids'.
Proof. unfold finals_in. auto. Qed.

(** *** The operations on the history *)

Lemma emit_steps K at_ h key p final forced : K key → (strict → unfinal h key) →
  steps strict K h (_emit at_ h key p final forced).1.
Proof. intros. by apply rtc_once, step_emit. Qed.
Lemma emit_final at_ h key p forced :
  finals_in (_emit at_ h key p true forced).1 [decision_id (_emit at_ h key p true forced).2].
Proof.
  intros x ->%list_elem_of_singleton. eexists. split; [|by split]. simpl.
  apply elem_of_app. right. by apply list_elem_of_singleton.
Qed.

Lemma propose_steps K at_ h key p : K key → (strict → unfinal h key) →
  steps strict K h (propose at_ h key p).
Proof.
  intros Hk Hf. unfold propose. destruct (current h !! key) as [d|]; [|by apply emit_steps].
  case_bool_decide; [done|by apply emit_steps].
Qed.
Lemma propose_unfinal at_ h key p k : unfinal h k → unfinal (propose at_ h key p) k.
Proof.
  intros H. assert (unfinal (_emit at_ h key p false false).1 k) as He.
  { intros d. simpl. rewrite lookup_insert_Some. intros [[-> <-]|[_ Hd]]; [done|by apply H]. }
  unfold propose. destruct (current h !! key) as [d|]; [|done]. by case_bool_decide.
Qed.

Lemma prove_steps K jn h os ids forced cites join h' : finals_in h ids →
  _prove cfg jn h os ids forced cites join = Ok h' →
  steps strict K h h' ∧ current h' = current h.
Proof.
  intros Hids H. unfold _prove in H. apply bind_Ok in H as (ps & _ & [= <-]).
  split; [|done]. by apply rtc_once, step_prove.
Qed.

(** Proposals on many keys. *)
Lemma proposes_steps {A} K at_ (key : A → BusinessKey) (p : A → res Proposal) l h h' :
  (∀ x, x ∈ l → K (key x)) → (strict → ∀ x, x ∈ l → unfinal h (key x)) →
  fold_res (λ h x, p ← p x; Ok (propose at_ h (key x) p)) l h = Ok h' →
  steps strict K h h' ∧ ∀ k, unfinal h k → unfinal h' k.
Proof.
  intros HK Hu. apply (fold_res_ind (λ h', steps strict K h h' ∧ ∀ k, unfinal h k → unfinal h' k)); [done|].
  intros x h1 h2 Hx [Hs1 Hu1] H. apply bind_Ok in H as (q & _ & [= <-]). split.
  - etrans; [exact Hs1|]. apply propose_steps; [auto|]. intros Hst. auto.
  - intros k Hk. by apply propose_unfinal, Hu1.
Qed.

(** Final decisions on distinct keys. *)
Lemma finalise_steps {A} K at_ (key : A → BusinessKey) (p : History → A → res Proposal) forced l h ids :
  NoDup (key <$> l) → (∀ x, x ∈ l → K (key x)) → (strict → ∀ x, x ∈ l → unfinal h (key x)) →
  ∀ h' ids', finals_in h ids →
  fold_res (λ st x, p ← p st.1 x; let '(h, d) := _emit at_ st.1 (key x) p true forced in
              Ok (h, st.2 ++ [decision_id d])) l (h, ids) = Ok (h', ids') →
  steps strict K h h' ∧ finals_in h' ids'.
Proof.
  revert h ids. induction l as [|x l IH]; intros h ids Hnd HK Hu h' ids' Hids H; cbn [fold_res] in H.
  { injection H as <- <-. done. }
  rewrite fmap_cons, NoDup_cons in Hnd. destruct Hnd as [Hx Hnd].
  apply bind_Ok in H as ([h1 ids1] & H1 & H). apply bind_Ok in H1 as (q & _ & H1).
  injection H1 as <- <-. cbn [fst snd] in *.
  assert (steps strict K h (_emit at_ h (key x) q true forced).1) as Hs.
  { apply emit_steps; [apply HK; left|]. intros Hst. apply Hu; [done|left]. }
  refine ((λ r, conj (transitivity Hs (proj1 r)) (proj2 r)) (IH _ _ Hnd _ _ h' ids' _ H)).
  - intros y Hy. apply HK. by right.
  - intros Hst y Hy d. simpl. rewrite lookup_insert_ne.
    + apply Hu; [done|by right].
    + intros E. apply Hx. rewrite E. by apply list_elem_of_fmap_2.
  - apply finals_app; [by eapply finals_mono|apply emit_final].
Qed.
End steps.

(** ** Where the keys of an evaluation come from *)

Section keys.
Implicit Types (W : string → Prop) (I : string * Z → Prop).

(** The wheres and the identities of a result. *)
Record within W I (r : Exact.Result) : Prop := {
  wi_link l : l ∈ r_links r → W (l_where l) ∧ I (l_upstream l) ∧ I (l_downstream l);
  wi_collision c : c ∈ r_collisions r → W (c_where c) ∧ ∀ u, u ∈ c_upstream c ++ c_downstream c → I u;
  wi_unlinked e : e ∈ r_unlinked r → W e.1 ∧ I e.2
}.

Lemma outcome_within w name up down v x : x ∈ outcome w name up down v →
  match x with
  | Linked l => l_where l = w ∧ l_upstream l ∈ at_key up v ∧ l_downstream l ∈ at_key down v
  | Collided c => c_where c = w ∧ c_upstream c = at_key up v ∧ c_downstream c = at_key down v
  | Unlinked w' u => w' = w ∧ u ∈ at_key up v ++ at_key down v
  end.
Proof.
  unfold outcome. destruct (_ || _); [by intros ->%list_elem_of_singleton|].
  destruct (at_key up v) as [|u us], (at_key down v) as [|d ds]; intros H;
    [by apply not_elem_of_nil in H|apply list_elem_of_singleton in H as ->..]; simpl;
    rewrite ?elem_of_app; set_solver.
Qed.

Lemma join_within {Key} name_of value_of (joins : list (Join Key)) os dropped :
  within (λ w, ∃ j, j ∈ joins ∧ j_where j = w) (λ i, i ∈ identity <$> os)
    (_join name_of value_of joins (by_side_of os) dropped).
Proof.
  assert (∀ side key v u, u ∈ Exact.holders value_of os side key v → u ∈ identity <$> os) as Hh.
  { intros side key v u (o & Ho & _ & _ & <-)%elem_of_holders. by apply list_elem_of_fmap_2. }
  assert (∀ x, x ∈ joins ≫= join_outcomes name_of value_of (by_side_of os) →
    ∃ j v, j ∈ joins ∧ x ∈ outcome (j_where j) (name_of (j_key j))
      (_by_value value_of (at_key (by_side_of os) (j_up j)) (j_key j))
      (_by_value value_of (at_key (by_side_of os) (j_down j)) (j_key j)) v) as Hx.
  { intros x (j & Hx & Hj)%list_elem_of_bind. apply elem_of_outcomes in Hx as (v & _ & Hx). eauto. }
  split; simpl.
  - intros l. rewrite elem_of_sorted_by. intros (x & Hl & E)%list_elem_of_omap. destruct (Hx x Hl) as (j & v & Hj & Ho).
    apply outcome_within in Ho. destruct x; [|done..]. injection E as ->. destruct Ho as (-> & ? & ?).
    split; [by exists j|]. split; by eapply Hh.
  - intros c. rewrite elem_of_sorted_by. intros (x & Hl & E)%list_elem_of_omap. destruct (Hx x Hl) as (j & v & Hj & Ho).
    apply outcome_within in Ho. destruct x; [done| |done]. injection E as ->. destruct Ho as (-> & -> & ->).
    split; [by exists j|]. intros u [?|?]%elem_of_app; by eapply Hh.
  - intros e. unfold sorted. rewrite elem_of_sorted_by. intros (x & Hl & E)%list_elem_of_omap. destruct (Hx x Hl) as (j & v & Hj & Ho).
    apply outcome_within in Ho. destruct x; [done..|]. injection E as <-. destruct Ho as (-> & Hu). simpl.
    split; [by exists j|]. apply elem_of_app in Hu as [?|?]; by eapply Hh.
Qed.

Lemma _outcomes_within W I r value_of out : within W I r → _outcomes r value_of = Ok out →
  ∀ k, k ∈ dom out → W k.1 ∧ I k.2.
Proof.
  intros [Hl Hc Hu] H.
  set (P := λ out : gmap BusinessKey (Kind * option string * option string * list (string * Z)),
    ∀ k, k ∈ dom out → W k.1 ∧ I k.2).
  assert (∀ w i x out, W w → I i → P out → P (<[(w, i) := x]> out)) as Hins.
  { intros w i x out' Hw Hi HP k. rewrite dom_insert_L, elem_of_union, elem_of_singleton.
    intros [-> |?]; [done|by apply HP]. }
  unfold _outcomes in H. revert H. apply (fold_res_ind P).
  - assert (P ∅) as H0 by (intros k; by rewrite dom_empty_L, elem_of_empty).
    apply foldl_inv; [|intros s c Hin HP; apply Hc in Hin as [Hw Hi]; apply foldl_inv; [apply foldl_inv|]].
    + apply foldl_inv; [done|]. intros s l Hin HP. apply Hl in Hin as (? & ? & ?). auto.
    + done.
    + intros s' i Hi' HP'. apply Hins; [done| |done]. apply Hi, elem_of_app. by left.
    + intros s' i Hi' HP'. apply Hins; [done| |done]. apply Hi, elem_of_app. by right.
  - intros e s1 s2 He HP H. apply bind_Ok in H as ([k v] & _ & [= <-]). apply Hu in He as [? ?]. auto.
Qed.
End keys.

(** ** The open groups *)

Section groups.
Context (cfg : Settings) (strict : Prop).
Implicit Types (g : Groups) (h : History) (jn : Journal).

(** The wheres of the exact path. *)
Definition exact_where (w : string) : Prop :=
  (∃ j, j ∈ exact_joins (topology cfg) ∧ j_where j = w) ∨
  (∃ j, j ∈ observed_joins (topology cfg) ∧ j_where j = w).
(** The keys an evaluation or a closing may decide. *)
Definition group_keys g (k : BusinessKey) : Prop := exact_where k.1 ∧ k.2 ∈ dom (open g).

Record groups_ok g : Prop := {
  go_identity i s : open g !! i = Some s → identity (observation s) = i;
  go_keys i ks k : keys_of g !! i = Some ks → k ∈ ks → k.2 = i ∧ exact_where k.1
}.
(** What is open is not final. *)
Definition undecided g h : Prop := ∀ k, group_keys g k → unfinal h k.

(** The attributes the queues leave alone. *)
Definition same_open g g' : Prop := open g' = open g ∧ keys_of g' = keys_of g.
Lemma same_open_refl g : same_open g g.
Proof. done. Qed.
Lemma same_open_trans g1 g2 g3 : same_open g1 g2 → same_open g2 g3 → same_open g1 g3.
Proof. intros [? ?] [? ?]. split; congruence. Qed.
Lemma groups_ok_open g g' : same_open g g' → groups_ok g → groups_ok g'.
Proof. intros [E1 E2] [H1 H2]. split; rewrite ?E1, ?E2; done. Qed.
Lemma group_keys_open g g' k : same_open g g' → group_keys g' k ↔ group_keys g k.
Proof. intros [E _]. unfold group_keys. by rewrite E. Qed.
Lemma undecided_open g g' h : same_open g g' → undecided g h → undecided g' h.
Proof. intros Hs H k Hk. apply H. by rewrite <- group_keys_open. Qed.

(** *** Evaluation *)

Lemma within_weaken (W W' : string → Prop) (I I' : string * Z → Prop) r :
  (∀ w, W w → W' w) → (∀ i, I i → I' i) → within W I r → within W' I' r.
Proof.
  intros HW HI [H1 H2 H3]. split.
  - intros l (? & ? & ?)%H1. auto.
  - intros c (? & ?)%H2. auto.
  - intros e (? & ?)%H3. auto.
Qed.
Lemma deduplicated_identities os distinct n i : _deduplicated (topology cfg) os = Ok (distinct, n) →
  i ∈ identity <$> distinct → i ∈ identity <$> os.
Proof.
  intros [_ Hd]%deduplicated_spec (o & -> & ?)%list_elem_of_fmap.
  apply list_elem_of_fmap_2. by apply Hd.
Qed.
Lemma links_within os r : exact_links (topology cfg) os = Ok r →
  within exact_where (λ i, i ∈ identity <$> os) r.
Proof.
  unfold exact_links. intros H. apply bind_Ok in H as ([distinct n] & Hd & [= <-]).
  eapply within_weaken; [| |apply (join_within id _value_of)]; [by left|].
  intros i. by eapply deduplicated_identities.
Qed.
Lemma observed_within os r : observed_links (topology cfg) os = Ok r →
  within exact_where (λ i, i ∈ identity <$> os) r.
Proof.
  unfold observed_links. intros H. apply bind_Ok in H as ([distinct n] & Hd & [= <-]).
  eapply within_weaken; [| |apply (join_within observed_key _composite_of)]; [by right|].
  intros i. by eapply deduplicated_identities.
Qed.

Lemma _settle_if_decided_open jn g i g' : _settle_if_decided cfg jn g i = Ok g' → same_open g g'.
Proof.
  unfold _settle_if_decided. intros H. apply bind_Ok in H as (s & _ & H).
  destruct (_values cfg (observation s)) as [|v [|? ?]]; try by injection H as <-.
  destruct (crowded g !! v); [|by injection H as <-].
  apply bind_Ok in H as (ks & _ & H). destruct (forallb _ _); [|by injection H as <-].
  by apply bind_Ok in H as ([w b] & _ & [= <-]).
Qed.

Lemma open_members g group os : groups_ok g →
  map_res (λ i, s ← get (open g !! i) KeyError; Ok (observation s)) group = Ok os →
  ∀ i, i ∈ identity <$> os → i ∈ dom (open g).
Proof.
  intros Hg H i (o & -> & Ho)%list_elem_of_fmap. apply map_res_Forall2 in H.
  apply list_elem_of_lookup in Ho as [n Hn].
  destruct (Forall2_lookup_r _ _ _ _ _ H Hn) as (j & _ & E).
  apply bind_Ok in E as (s & Hs%get_Ok & [= <-]).
  rewrite (go_identity g Hg j s Hs). by apply elem_of_dom_2 in Hs.
Qed.

Lemma evaluate_fold jn proposals ks h ks' h' :
  fold_res (λ (st : gmap (string * Z) (gset BusinessKey) * History) kp,
      mine ← get (st.1 !! kp.1.2) KeyError;
      Ok (<[kp.1.2 := {[kp.1]} ∪ mine]> st.1, propose (position jn) st.2 kp.1 kp.2))
    proposals (ks, h) = Ok (ks', h') →
  fold_res (λ h kp, p ← Ok kp.2; Ok (propose (position jn) h kp.1 p)) proposals h = Ok h' ∧
  ∀ i s k, ks' !! i = Some s → k ∈ s → (∃ s', ks !! i = Some s' ∧ k ∈ s') ∨ (k ∈ proposals.*1 ∧ k.2 = i).
Proof.
  revert ks h. induction proposals as [|[k p] ps IH]; intros ks h H; cbn [fold_res] in H.
  { injection H as <- <-. split; [done|]. eauto. }
  apply bind_Ok in H as ([ks1 h1] & H1 & H). apply bind_Ok in H1 as (mine & Hm%get_Ok & [= <- <-]).
  destruct (IH _ _ H) as [Hf Hk]. split; [done|]. intros i s k' Hs Hin.
  destruct (Hk i s k' Hs Hin) as [(s' & Hs' & Hin')|[? ?]]; [|right; split; [by right|done]].
  cbn [fst snd] in *. apply lookup_insert_Some in Hs' as [[<- <-]|[_ Hs']]; [|eauto].
  apply elem_of_union in Hin' as [->%elem_of_singleton |?]; [right; split; [left|done]|eauto].
Qed.

Lemma _evaluate_steps jn g h group g' h' : groups_ok g → (strict → undecided g h) →
  _evaluate cfg jn g h group = Ok (g', h') →
  steps strict (group_keys g) h h' ∧ (∀ k, unfinal h k → unfinal h' k) ∧
  open g' = open g ∧ groups_ok g'.
Proof.
  intros Hg Hu H. unfold _evaluate in H.
  apply bind_Ok in H as (os & Hos & H). apply bind_Ok in H as (joined & Hj & H).
  apply bind_Ok in H as (outcomes & Ho & H). apply bind_Ok in H as (seen_ & Hs & H).
  apply bind_Ok in H as (observed_ & Hob & H). apply bind_Ok in H as (proposals & Hp & H).
  apply bind_Ok in H as ([ks h1] & Hf & H). apply bind_Ok in H as (g1 & Hg1 & [= <- <-]).
  pose proof (open_members _ _ _ Hg Hos) as Hin.
  pose proof (_outcomes_within _ _ _ _ _ (links_within _ _ Hj) Ho) as Ha.
  pose proof (_outcomes_within _ _ _ _ _ (observed_within _ _ Hs) Hob) as Hb.
  assert (∀ k, k ∈ proposals.*1 → group_keys g k) as Hk.
  { intros k ([k' p] & -> & Hk)%list_elem_of_fmap. apply map_res_Forall2 in Hp.
    apply list_elem_of_lookup in Hk as [n Hn].
    destruct (Forall2_lookup_r _ _ _ _ _ Hp Hn) as (k & Hk & E).
    apply bind_Ok in E as (q & _ & [= -> _]). simpl. apply list_elem_of_lookup_2 in Hk.
    unfold sorted in Hk. rewrite elem_of_sorted_by, elem_of_elements, elem_of_union in Hk.
    unfold group_keys. destruct Hk as [Hk|Hk].
    - apply dom_imap_subseteq in Hk. apply Ha in Hk as [? ?]. auto.
    - apply Hb in Hk as [? ?]. auto. }
  apply evaluate_fold in Hf as [Hf Hks].
  apply (proposes_steps strict (group_keys g) (position jn) fst (λ kp, Ok kp.2)) in Hf as [Hst Hun].
  2: { intros kp ?. by apply Hk, list_elem_of_fmap_2. }
  2: { intros ? kp ?. apply Hu; [done|]. by apply Hk, list_elem_of_fmap_2. }
  assert (same_open (set_keys_of (note_crowded cfg g (r_collisions joined)) ks) g1) as [E1 E2].
  { revert Hg1. case_bool_decide; [by intros [= <-]|].
    apply (fold_res_ind (same_open _)); [done|]. intros x s1 s2 _ Hs1 Hs2.
    eapply same_open_trans; [done|]. by eapply _settle_if_decided_open. }
  split; [done|]. split; [done|]. rewrite E1. split; [done|]. split; rewrite ?E1, ?E2; simpl.
  - apply Hg.
  - intros i s k Hi Hkin. destruct (Hks i s k Hi Hkin) as [(s' & Hs' & Hk')|[Hk' <-]].
    + by eapply (go_keys g).
    + split; [done|]. by apply Hk.
Qed.

(** *** Closing *)

(** What a closing does: final decisions on open keys, and nothing it leaves open
    is final. *)
Record closed g h g' h' : Prop := {
  cl_steps : steps strict (group_keys g) h h';
  cl_open : dom (open g') ⊆ dom (open g);
  cl_ok : groups_ok g';
  cl_undecided : strict → undecided g' h'
}.
Lemma closed_refl g h : groups_ok g → (strict → undecided g h) → closed g h g h.
Proof. by split. Qed.
Lemma closed_trans g1 h1 g2 h2 g3 h3 : closed g1 h1 g2 h2 → closed g2 h2 g3 h3 → closed g1 h1 g3 h3.
Proof.
  intros [? Ho ? ?] [? ? ? ?]. split; [|set_solver|done..]. etrans; [done|].
  eapply steps_weaken; [|done]. unfold group_keys. intros k [? ?]. auto.
Qed.
Lemma closed_open g h g1 h1 g2 : closed g h g1 h1 → same_open g1 g2 → closed g h g2 h1.
Proof.
  intros [? ? ? ?] Hs. split; [done|by destruct Hs as [-> _]|by eapply groups_ok_open|].
  intros ?. eapply undecided_open; eauto.
Qed.
Lemma closed_same g h g1 g2 h2 : same_open g g1 → closed g1 h g2 h2 → closed g h g2 h2.
Proof.
  intros Hs [H1 H2 ? ?]. destruct Hs as [E E']. split; [|by rewrite <- E|done..].
  unfold group_keys in *. by rewrite <- E.
Qed.
(** A dossier changes no current decision. *)
Lemma closed_prove jn g h g1 h1 os ids forced cites join h2 : closed g h g1 h1 → finals_in h1 ids →
  _prove cfg jn h1 os ids forced cites join = Ok h2 → closed g h g1 h2.
Proof.
  intros [? ? ? Hu] Hi Hp. destruct (prove_steps cfg strict (group_keys g) _ _ _ _ _ _ _ _ Hi Hp) as [Hs E].
  split; [by etrans|done..|]. intros Hst k Hk d. rewrite E. by apply Hu.
Qed.

Lemma _finalise_closed jn g h i forced g' h' ids : groups_ok g → (strict → undecided g h) →
  _finalise cfg jn g h i forced = Ok (g', h', ids) → closed g h g' h' ∧ finals_in h' ids.
Proof.
  intros Hg Hu H. unfold _finalise in H. apply bind_Ok in H as (ks & Hks%get_Ok & H).
  apply bind_Ok in H as ([h1 finals] & Hf & H). apply bind_Ok in H as (s & Hs%get_Ok & H).
  apply bind_Ok in H as (hs & _ & [= <- <- <-]).
  assert (∀ k, k ∈ sorted (elements ks) → k.2 = i ∧ exact_where k.1) as Hk.
  { intros k Hk. unfold sorted in Hk. rewrite elem_of_sorted_by, elem_of_elements in Hk.
    by eapply (go_keys g). }
  assert (i ∈ dom (open g)) as Hi by by apply elem_of_dom_2 in Hs.
  rewrite (fold_res_ext _ (λ st k, p ← (d ← get (current st.1 !! k) KeyError; Ok (proposal_of d));
      let '(h, d) := _emit (position jn) st.1 k p true forced in
      Ok (h, st.2 ++ [decision_id d]))) in Hf.
  2: { intros st k _. by destruct (current st.1 !! k). }
  apply (finalise_steps strict (λ k, k.2 = i ∧ exact_where k.1) (position jn) (λ k, k)
    (λ h k, d ← get (current h !! k) KeyError; Ok (proposal_of d))) in Hf as [Hst Hfin].
  2: { rewrite list_fmap_id. unfold sorted. rewrite sorted_by_perm. apply NoDup_elements. }
  2: { done. }
  2: { intros Hs' k Hkin. apply Hk in Hkin as [<- ?]. by apply Hu. }
  2: { by intros x ?%not_elem_of_nil. }
  split; [|done]. split.
  - eapply steps_weaken; [|done]. intros k [<- ?]. by split.
  - simpl. rewrite dom_delete_L. set_solver.
  - split; simpl; [|apply Hg]. intros j s' [_ ?]%lookup_delete_Some. by apply Hg.
  - intros Hst' k [Hk1 Hk2]. simpl in Hk2. rewrite dom_delete_L in Hk2.
    apply (steps_unfinal _ _ _ _ _ Hst); [set_solver|]. apply Hu; [done|]. split; [done|set_solver].
Qed.

Lemma _let_go_closed jn g h i forced g' h' : groups_ok g → (strict → undecided g h) →
  _let_go cfg jn g h i forced = Ok (g', h') → closed g h g' h'.
Proof.
  intros Hg Hu H. unfold _let_go in H. apply bind_Ok in H as (s & _ & H).
  apply bind_Ok in H as (cited & _ & H). apply bind_Ok in H as ([[g1 h1] ids] & Hf & H).
  apply bind_Ok in H as (h2 & Hp & [= <- <-]).
  apply _finalise_closed in Hf as [Hc Hfin]; [|done..].
  eapply closed_open; [eapply closed_prove; [exact Hc| |exact Hp]|done].
  eapply finals_sub; [|done]. intros x. unfold sorted. by rewrite elem_of_sorted_by.
Qed.

Lemma close_member_closed jn forced g h finals whole i g' h' finals' whole' :
  groups_ok g → (strict → undecided g h) → finals_in h finals →
  close_member cfg jn forced (g, h, finals, whole) i = Ok (g', h', finals', whole') →
  closed g h g' h' ∧ finals_in h' finals'.
Proof.
  intros Hg Hu Hfin H. unfold close_member in H. apply bind_Ok in H as (s & _ & H).
  set (g0 := mkGroups _ _ _ _ _ _ _ _) in H. assert (same_open g g0) as Hs by done.
  assert (groups_ok g0) as Hg0 by by eapply groups_ok_open.
  assert (strict → undecided g0 h) as Hu0 by (intros; eapply undecided_open; eauto).
  apply bind_Ok in H as ([[[g1 h1] f1] w1] & H & [= <- <- <- <-]).
  destruct (bool_decide _).
  - apply bind_Ok in H as ([g2 h2] & Hl & [= <- <- <- <-]).
    apply _let_go_closed in Hl; [|done..]. split.
    + eapply closed_open; [by eapply closed_same|done].
    + eapply finals_mono; [apply Hl|done].
  - apply bind_Ok in H as ([[g2 h2] ids] & Hl & [= <- <- <- <-]).
    apply _finalise_closed in Hl as [Hl Hi]; [|done..]. split.
    + eapply closed_open; [by eapply closed_same|done].
    + apply finals_app; [|done]. eapply finals_mono; [apply Hl|done].
Qed.

Lemma _close_closed jn forced g h group g' h' : groups_ok g → (strict → undecided g h) →
  _close cfg jn forced (g, h) group = Ok (g', h') → closed g h g' h'.
Proof.
  intros Hg Hu H. unfold _close in H. apply bind_Ok in H as ([[[g1 h1] finals] whole] & Hf & H).
  assert (closed g h g1 h1 ∧ finals_in h1 finals) as [Hc Hfin].
  { cbn [fst snd] in Hf.
    eapply (fold_res_ind (λ x : Groups * History * list string * list (string * Z),
      closed g h x.1.1.1 x.1.1.2 ∧ finals_in x.1.1.2 x.1.2)) in Hf; [exact Hf| |].
    - split; [by apply closed_refl|by intros x ?%not_elem_of_nil].
    - intros i [[[g2 h2] f2] w2] [[[g3 h3] f3] w3] _ [Hc Hfin] Hm. cbn [fst snd] in *.
      apply close_member_closed in Hm as [Hc' Hf']; [|apply Hc..|done].
      split; [by eapply closed_trans|done]. }
  destruct whole as [|w whole]; [by injection H as <- <-|].
  apply bind_Ok in H as (h2 & Hp & [= <- <-]). eapply closed_prove; [done| |done].
  eapply finals_sub; [|done]. intros x. unfold sorted. by rewrite elem_of_sorted_by.
Qed.

Lemma ripe_loop_open w queue g found g' found' :
  ripe_loop cfg w queue g found = Ok (g', found') → same_open g g'.
Proof.
  revert g found. induction queue as [|[a i] queue IH]; intros g found H; simpl in H.
  { by injection H as <- _. }
  destruct (_ <? w); [|by injection H as <- _].
  apply bind_Ok in H as (group & _ & H). apply bind_Ok in H as (latest & _ & H).
  apply bind_Ok in H as (first & _ & H).
  destruct (_ <? w); [by apply IH in H|]. case_bool_decide; by apply IH in H.
Qed.

(** All the groups a watermark closes, and the members it lets go. *)
Lemma closes_closed jn forced l g h g' h' : groups_ok g → (strict → undecided g h) →
  fold_res (_close cfg jn forced) l (g, h) = Ok (g', h') → closed g h g' h'.
Proof.
  intros Hg Hu H. eapply (fold_res_ind (λ x : Groups * History, closed g h x.1 x.2)) in H;
    [exact H|by apply closed_refl|].
  intros group [g1 h1] [g2 h2] _ Hc Hm. apply _close_closed in Hm; [|apply Hc..].
  by eapply closed_trans.
Qed.
Lemma let_gos_closed jn forced l g h g' h' : groups_ok g → (strict → undecided g h) →
  fold_res (λ gh i, _let_go cfg jn gh.1 gh.2 i forced) l (g, h) = Ok (g', h') → closed g h g' h'.
Proof.
  intros Hg Hu H. eapply (fold_res_ind (λ x : Groups * History, closed g h x.1 x.2)) in H;
    [exact H|by apply closed_refl|].
  intros i [g1 h1] [g2 h2] _ Hc Hm. apply _let_go_closed in Hm; [|apply Hc..].
  by eapply closed_trans.
Qed.
End groups.

(** ** The timed joins *)

Section joins.
Context (cfg : Settings) (strict : Prop).
Implicit Types (h : History) (jn : Journal) (S : gset (string * Z)).
Notation Entry := (string * (JoinSettings * TimedJoin))%type.

(** What is open on a join was seen and is not final. *)
Definition join_ok S h (e : Entry) : Prop :=
  dom (FlowTimed.open e.2.2) ⊆ S ∧
  (strict → ∀ m, m ∈ dom (FlowTimed.open e.2.2) → unfinal h (e.1, m)).
Definition join_keys S (w : string) (k : BusinessKey) : Prop := k.1 = w ∧ k.2 ∈ S.

(** A method on one join works on the keys of its where. *)
Definition join_method S (pre post : History → Entry → Prop)
    (f : History → Entry → res (History * Entry)) : Prop :=
  ∀ h e h' e', pre h e → f h e = Ok (h', e') →
    e'.1 = e.1 ∧ steps strict (join_keys S e.1) h h' ∧ post h' e'.
(** A condition that reads only the decisions of its own where. *)
Definition local (Q : History → Entry → Prop) : Prop :=
  ∀ h h' e, (∀ i, current h' !! (e.1, i) = current h !! (e.1, i)) → Q h e → Q h' e.
Lemma join_ok_local S : local (join_ok S).
Proof. intros h h' e E [? Hu]. split; [done|]. intros Hs m Hm d. rewrite E. by apply Hu. Qed.

Lemma over_joins_ok S pre post f joins : join_method S pre post f → local pre → local post →
  NoDup joins.*1 → ∀ h h' joins', (∀ e, e ∈ joins → pre h e) → over_joins f h joins = Ok (h', joins') →
  joins'.*1 = joins.*1 ∧ steps strict (λ k, k.1 ∈ joins.*1 ∧ k.2 ∈ S) h h' ∧
  ∀ e, e ∈ joins' → post h' e.
Proof.
  intros Hf Hpre Hpost. unfold over_joins.
  enough (∀ l done h h' joins', NoDup (done.*1 ++ l.*1) → (∀ e, e ∈ l → pre h e) →
    (∀ e, e ∈ done → post h e) →
    fold_res (λ st e, '(h, e) ← f st.1 e; Ok (h, st.2 ++ [e])) l (h, done) = Ok (h', joins') →
    joins'.*1 = done.*1 ++ l.*1 ∧ steps strict (λ k, k.1 ∈ l.*1 ∧ k.2 ∈ S) h h' ∧
    ∀ e, e ∈ joins' → post h' e) as Hgen.
  { intros Hnd h h' joins' Hp H. apply (Hgen joins [] h h' joins') in H; [done|done|done|].
    by intros e ?%not_elem_of_nil. }
  induction l as [|e l IH]; intros acc h h' joins' Hnd Hp Hq H; cbn [fold_res] in H.
  { injection H as <- <-. by rewrite app_nil_r. }
  apply bind_Ok in H as ([h1 acc1] & H1 & H). apply bind_Ok in H1 as ([h2 e2] & H1 & [= <- <-]).
  cbn [fst snd] in *. destruct (Hf h e h2 e2 (Hp e ltac:(left)) H1) as (E & Hs & Hpost2).
  rewrite fmap_cons in Hnd.
  assert (∀ e', e' ∈ acc ∨ e' ∈ l → ∀ i, current h2 !! (e'.1, i) = current h !! (e'.1, i)) as Hloc.
  { intros e' He' i. apply (steps_frame _ _ _ _ _ Hs). intros [Ei _]. simpl in Ei.
    apply NoDup_app in Hnd as (_ & Hd & Hnd). apply NoDup_cons in Hnd as [Hnd _].
    destruct He' as [He'|He']; apply (list_elem_of_fmap_2 fst) in He'; rewrite Ei in He'; [|done].
    apply (Hd e.1); [done|left]. }
  destruct (IH (acc ++ [e2]) h2 h' joins') as (E' & Hs' & Hq'); [..|exact H|].
  - rewrite fmap_app. simpl. rewrite E, <- app_assoc. done.
  - intros e' He'. eapply Hpre; [apply Hloc; by right|]. apply Hp. by right.
  - intros e' [He'| ->%list_elem_of_singleton]%elem_of_app; [|done].
    eapply Hpost; [apply Hloc; by left|]. by apply Hq.
  - rewrite E', fmap_app. simpl. rewrite E, <- app_assoc. split; [done|]. split; [|done]. etrans.
    + eapply steps_weaken; [|exact Hs]. intros k [-> ?]. split; [left|done].
    + eapply steps_weaken; [|exact Hs']. intros k [? ?]. split; [by right|done].
Qed.

(** A new observation enters the joins it belongs to. *)
Definition entering S (i : string * Z) h (e : Entry) : Prop :=
  join_ok (S ∖ {[i]}) h e ∧ current h !! (e.1, i) = None.
Lemma entering_local S i : local (entering S i).
Proof. intros h h' e E [H1 H2]. split; [by eapply join_ok_local|]. by rewrite E. Qed.

Lemma enter_one_ok S jn s : identity (observation s) ∈ S →
  join_method S (entering S (identity (observation s))) (join_ok S) (enter_one cfg jn s).
Proof.
  intros Hi h [w [js j]] h' e' [[Hd Hu] Hnew] H. unfold enter_one in H. cbn [fst snd] in *.
  destruct (side_in js (observation s)) as [side|].
  2: { injection H as <- <-. split; [done|]. split; [done|]. split; [set_solver|done]. }
  set (i := identity (observation s)) in *.
  assert (∀ r, (p ← _timed_proposal (refused r);
      let '(h, d) := _emit (position jn) h (w, i) p true false in
      h ← _prove cfg jn h [i] [decision_id d] false None (Some js);
      Ok (h, (w, (js, j)))) = Ok (h', e') →
      e'.1 = w ∧ steps strict (join_keys S w) h h' ∧ join_ok S h' e') as Hwithout.
  { intros r H1. apply bind_Ok in H1 as (p & _ & H1).
    rewrite (surjective_pairing (_emit (position jn) h (w, i) p true false)) in H1.
    apply bind_Ok in H1 as (h3 & Hp & [= <- <-]).
    assert (steps strict (join_keys S w) h (_emit (position jn) h (w, i) p true false).1) as Hs.
    { apply emit_steps; [done|]. intros _ d. by rewrite Hnew. }
    apply (prove_steps cfg strict (join_keys S w)) in Hp as [Hs' Ec]; [|apply emit_final].
    split; [done|]. split; [by etrans|]. split; [set_solver|]. intros Hst m Hm d.
    cbn [fst snd] in Hm |- *. rewrite Ec. simpl. rewrite lookup_insert_ne; [by apply Hu|].
    intros [= <-]. set_solver. }
  destruct (start_us s) as [b|]; [|by eapply Hwithout].
  destruct (end_us s) as [n|]; [|by eapply Hwithout].
  destruct (too_long js b n); [by eapply Hwithout|].
  apply bind_Ok in H as ([j1 verdicts] & Ha & H). apply bind_Ok in H as (h1 & Hf & [= <- <-]).
  apply add_ok in Ha as [Eo Hv]. change (Timing.identity _) with i in Eo.
  assert (dom (FlowTimed.open j1) ⊆ S ∧ ∀ m, m ∈ dom (FlowTimed.open j1) → strict → unfinal h (w, m))
    as [HS Hun].
  { rewrite Eo. split; [set_solver|]. intros m [->%elem_of_singleton |Hm]%elem_of_union Hst;
      [intros d; by rewrite Hnew|by apply Hu]. }
  assert (∀ mv, mv ∈ sorted_by fst verdicts → mv.1 ∈ dom (FlowTimed.open j1)) as Hin.
  { intros mv. rewrite elem_of_sorted_by. intros Hmv. by apply Hv, list_elem_of_fmap_2. }
  apply (proposes_steps strict (join_keys S w) (position jn) (λ mv, (w, mv.1)) (λ mv, _timed_proposal mv.2))
    in Hf as [Hs Hf]; [| |].
  - split; [done|]. split; [done|]. split; [done|]. intros Hst m Hm. by apply Hf, Hun.
  - intros mv Hmv. split; [done|]. by apply HS, Hin.
  - intros Hst mv Hmv. apply Hun; [by apply Hin|done].
Qed.

Lemma settle_one_ok S jn watermark forced :
  join_method S (join_ok S) (join_ok S) (settle_one cfg jn watermark forced).
Proof.
  intros h [w [js j]] h' e' [Hd Hu] H. unfold settle_one in H. cbn [fst snd] in *.
  apply bind_Ok in H as ([j1 closings] & Hc & H). apply bind_Ok in H as (h1 & Hf & [= <- <-]).
  apply closing_ok in Hc as (Hnd & Hsub & Eo).
  enough (∀ cs h, NoDup (cs ≫= cl_members) → list_to_set (cs ≫= cl_members) ⊆ dom (FlowTimed.open j) →
    (strict → ∀ m, m ∈ cs ≫= cl_members → unfinal h (w, m)) →
    fold_res (λ h c, '(h, finals) ← fold_res (λ st m,
            v ← get (od_get m (cl_verdicts c)) KeyError;
            p ← _timed_proposal v;
            let '(h, d) := _emit (position jn) st.1 (w, m) p true forced in
            Ok (h, st.2 ++ [decision_id d]))
          (cl_members c) (h, []);
        _prove cfg jn h (cl_members c) (sorted finals) forced None (Some js)) cs h = Ok h1 →
    steps strict (λ k, k.1 = w ∧ k.2 ∈ cs ≫= cl_members) h h1) as Hgen.
  { apply Hgen in Hf; [|done|done|intros Hst m Hm; apply Hu; [done|set_solver]].
    split; [done|]. split; [|split].
    - eapply steps_weaken; [|exact Hf]. intros k [Hk1 Hk]. split; [done|]. set_solver.
    - simpl. rewrite Eo. set_solver.
    - intros Hst m Hm. cbn [fst snd] in *. rewrite Eo in Hm.
      apply (steps_unfinal _ _ _ _ _ Hf); [set_solver|]. apply Hu; [done|set_solver]. }
  clear. intros cs. induction cs as [|c cs IH]; intros h Hnd Hsub Hu H; cbn [fold_res] in H.
  { by injection H as <-. }
  rewrite bind_cons in *. apply NoDup_app in Hnd as (Hndc & Hdis & Hnd).
  apply bind_Ok in H as (h2 & Hc & H). apply bind_Ok in Hc as ([h3 finals] & Hf & Hp).
  rewrite (fold_res_ext _ (λ st m, p ← (v ← get (od_get m (cl_verdicts c)) KeyError; _timed_proposal v);
      let '(h, d) := _emit (position jn) st.1 (w, m) p true forced in
      Ok (h, st.2 ++ [decision_id d]))) in Hf.
  2: { intros st m _. by destruct (od_get m (cl_verdicts c)). }
  apply (finalise_steps strict (λ k, k.1 = w ∧ k.2 ∈ cl_members c) (position jn) (λ m, (w, m))
    (λ _ m, v ← get (od_get m (cl_verdicts c)) KeyError; _timed_proposal v)) in Hf as [Hs Hfin].
  2: { apply NoDup_fmap_2; [by intros ? ? [= ->]|done]. }
  2: { done. }
  2: { intros Hst m Hm. apply Hu; [done|]. apply elem_of_app. by left. }
  2: { by intros x ?%not_elem_of_nil. }
  apply (prove_steps cfg strict (λ k, k.1 = w ∧ k.2 ∈ cl_members c)) in Hp as [Hs2 Ec].
  2: { eapply finals_sub; [|done]. intros x. unfold sorted. by rewrite elem_of_sorted_by. }
  assert (steps strict (λ k, k.1 = w ∧ k.2 ∈ cl_members c) h h2) as Hs3 by by etrans.
  apply IH in H; [|done|set_solver|].
  - etrans; (eapply steps_weaken; [|eassumption]); intros k [-> ?]; (split; [done|]);
      apply elem_of_app; auto.
  - intros Hst m Hm. apply (steps_unfinal _ _ _ _ _ Hs3).
    + intros [_ Hm']. by apply (Hdis m).
    + apply Hu; [done|]. apply elem_of_app. by right.
Qed.
End joins.

(** ** The journal *)

Section journal.
Context (cfg : Settings) (strict : Prop) (T : list string).
(** The timed wheres are not wheres of the exact path. *)
Definition separate : Prop := ∀ w, w ∈ T → w ≠ ""%string ∧ ¬ exact_where cfg w.
Context (T_nodup : NoDup T) (T_separate : strict → separate).
Implicit Types (st : Flow) (h : History) (jn : Journal).

Record flow_ok st : Prop := {
  fo_wheres : (timed st).*1 = T;
  fo_groups : groups_ok cfg (groups st);
  fo_open : dom (open (groups st)) ⊆ dom (seen (journal st));
  fo_undecided : strict → undecided cfg (groups st) (history st);
  fo_joins e : e ∈ timed st → join_ok strict (dom (seen (journal st))) (history st) e;
  fo_seen k d : current (history st) !! k = Some d → k.2 ∈ dom (seen (journal st))
}.
(** What a method may do: decide keys of identities that were seen. *)
Definition result_ok st st' : Prop :=
  flow_ok st' ∧ steps strict (λ k, k.2 ∈ dom (seen (journal st'))) (history st) (history st').

(** An exact key is on no join. *)
Lemma exact_not_timed (k : BusinessKey) : strict → exact_where cfg k.1 → k.1 ∉ T.
Proof. intros Hs He Hk. by apply (T_separate Hs) in Hk as [_ ?]. Qed.

(** Final decisions of the groups do not touch the joins. *)
Lemma joins_kept (S : gset (string * Z)) g h h' (joins : list (string * (JoinSettings * TimedJoin))) : (fst <$> joins) = T →
  steps strict (group_keys cfg g) h h' → (∀ e, e ∈ joins → join_ok strict S h e) →
  ∀ e, e ∈ joins → join_ok strict S h' e.
Proof.
  intros HT Hs Hj e He. destruct (Hj e He) as [Hd Hu]. split; [done|]. intros Hst m Hm.
  apply (steps_unfinal _ _ _ _ _ Hs); [|by apply Hu]. intros [Hk _].
  apply (exact_not_timed (e.1, m) Hst Hk). rewrite <- HT. change (e.1 ∈ joins.*1).
  by apply list_elem_of_fmap_2.
Qed.
(** Decisions of the joins do not touch the groups. *)
Lemma undecided_kept (P : BusinessKey → Prop) g h h' : steps strict (λ k, k.1 ∈ T ∧ P k) h h' →
  (strict → undecided cfg g h) → strict → undecided cfg g h'.
Proof.
  intros Hs Hu Hst k Hk. apply (steps_unfinal _ _ _ _ _ Hs); [|by apply Hu].
  intros [Hin _]. destruct Hk as [Hk _]. by apply (exact_not_timed _ Hst Hk).
Qed.

Lemma _settle_ok st st' : flow_ok st → _settle cfg st = Ok st' →
  result_ok st st' ∧ journal st' = journal st.
Proof.
  intros [HT Hg Ho Hu Hj Hs] H. unfold _settle in H.
  apply bind_Ok in H as ([watermark forced] & _ & H). apply bind_Ok in H as ([g1 ripe] & Hr & H).
  apply bind_Ok in H as ([g2 h2] & Hc & H). apply bind_Ok in H as ([g3 h3] & Hl & H).
  apply bind_Ok in H as ([h4 joins] & Hm & [= <-]).
  unfold _ripe_groups in Hr. apply bind_Ok in Hr as ([g1' found] & Hr & [= -> _]).
  apply ripe_loop_open in Hr as Hso.
  apply (closes_closed cfg strict) in Hc; [|by eapply groups_ok_open|intros; eapply undecided_open; eauto].
  apply (let_gos_closed cfg strict) in Hl; [|apply Hc..].
  assert (closed cfg strict (groups st) (history st) g3 h3) as [Hst Hop Hok Hun].
  { eapply closed_same; [done|]. by eapply closed_trans. }
  clear Hc Hl. set (g4 := set_settled_due g3 (settled g3) ∅) in *.
  assert (same_open g3 g4) as Hg4 by done.
  pose proof (joins_kept _ _ _ _ _ HT Hst Hj) as Hj3.
  apply (over_joins_ok strict (dom (seen (journal st))) _ _ _ _ (settle_one_ok cfg strict _ _ _ _)) in Hm
    as (ET & Hst' & Hj4); [|apply join_ok_local..|by rewrite HT|done].
  rewrite HT in *. assert (steps strict (λ k, k.2 ∈ dom (seen (journal st))) (history st) h4) as Hall.
  { etrans; (eapply steps_weaken; [|eassumption]); [|by intros k [_ ?]]. intros k [_ ?]. by apply Ho. }
  split; [|done]. split; [|exact Hall]. split; simpl; [done|by eapply groups_ok_open|set_solver| |done|].
  - intros Hstr. eapply undecided_kept; [exact Hst'| |done]. intros. eapply undecided_open; eauto.
  - intros k d Hd. destruct (steps_current _ _ _ _ _ _ Hall Hd) as [?|?]; [done|by eapply Hs].
Qed.

(** A decision on an identity that was just seen, alone on its where. *)
Lemma alone_ok jn g h joins i p at_ : (fst <$> joins) = T →
  i ∈ dom (seen jn) → i ∉ dom (open g) → (strict → unfinal h (""%string, i)) →
  groups_ok cfg g → dom (open g) ⊆ dom (seen jn) → (strict → undecided cfg g h) →
  (∀ e, e ∈ joins → join_ok strict (dom (seen jn)) h e) →
  (∀ k d, current h !! k = Some d → k.2 ∈ dom (seen jn)) →
  let st := mkFlow jn g (_emit at_ h (""%string, i) p true false).1 joins in
  flow_ok st ∧ steps strict (λ k, k.2 ∈ dom (seen jn)) h (history st).
Proof.
  intros HT Hi Hio Hun Hg Ho Hu Hj Hs. simpl.
  assert (steps strict (λ k, k = (""%string, i)) h (_emit at_ h (""%string, i) p true false).1) as Hst
    by by apply emit_steps.
  split; [|by eapply steps_weaken; [|exact Hst]; intros k ->]. split; simpl; [done..| | |].
  - intros Hstr k [Hk1 Hk2]. apply (steps_unfinal _ _ _ _ _ Hst); [by intros ->|].
    by apply Hu.
  - intros e He. destruct (Hj e He) as [Hd Hue]. split; [done|]. intros Hstr m Hm.
    apply (steps_unfinal _ _ _ _ _ Hst); [|by apply Hue]. intros [= E _].
    destruct (T_separate Hstr e.1) as [Hne _]; [|done]. rewrite <- HT. change (e.1 ∈ joins.*1).
    by apply list_elem_of_fmap_2.
  - intros k d. rewrite lookup_insert_Some. intros [[<- _]|[_ Hd]]; [done|by eapply Hs].
Qed.

Lemma open_one_ok s g : groups_ok cfg g → groups_ok cfg (open_one cfg s g).
Proof.
  intros [H1 H2]. split; simpl.
  - intros i x [[<- <-]|[_ ?]]%lookup_insert_Some; [done|by apply H1].
  - intros i ks k [[<- <-]|[_ ?]]%lookup_insert_Some Hk; [by apply elem_of_empty in Hk|by eapply H2].
Qed.

Lemma _advance_seen jn src t jn' : _advance jn src t = Ok jn' → seen jn' = seen jn.
Proof. unfold _advance. intros H. by apply bind_Ok in H as (x & _ & [= <-]). Qed.

(** A new observation, late or entered. *)
Lemma _seen_ok st s st' : flow_ok st → _seen cfg st s = Ok st' → result_ok st st'.
Proof.
  intros [HT Hg Ho Hu Hj Hs] H. unfold _seen in H.
  do 3 apply bind_Ok in H as (_ & _ & H). set (i := identity (observation s)) in *.
  destruct (seen (journal st) !! i) as [before|] eqn:Ei.
  { apply bind_Ok in H as (_ & _ & [= <-]). by split. }
  apply not_elem_of_dom in Ei. apply bind_Ok in H as (late & _ & H).
  apply bind_Ok in H as (jn & Hjn & H). apply _advance_seen in Hjn. simpl in Hjn.
  assert (dom (seen jn) = {[i]} ∪ dom (seen (journal st))) as Ed by by rewrite Hjn, dom_insert_L.
  assert (∀ w, current (history st) !! (w, i) = None) as Hnew.
  { intros w. apply eq_None_not_Some. intros [d Hd]. by apply Hs in Hd. }
  assert (∀ k d, current (history st) !! k = Some d → k.2 ∈ dom (seen jn)) as Hs'.
  { intros k d Hd. apply Hs in Hd. set_solver. }
  destruct late.
  { injection H as <-. apply alone_ok; [done|set_solver|set_solver| |done|set_solver|done| |done].
    - intros _ d. by rewrite Hnew.
    - intros e He. destruct (Hj e He). split; [set_solver|done]. }
  apply bind_Ok in H as ([h joins] & He & H).
  assert (i ∈ dom (seen jn)) as Hi by set_solver.
  apply (over_joins_ok strict (dom (seen jn)) _ _ _ _ (enter_one_ok cfg strict _ jn s Hi)) in He
    as (ET & Hst & Hj').
  2: { apply entering_local. }
  2: { apply join_ok_local. }
  2: { by rewrite HT. }
  2: { intros e Hin. destruct (Hj e Hin). split; [|done]. split; [set_solver|done]. }
  rewrite HT in *. pose proof (undecided_kept _ _ _ _ Hst Hu) as Hu'.
  assert (∀ k d, current h !! k = Some d → k.2 ∈ dom (seen jn)) as Hs2.
  { intros k d Hd. destruct (steps_current _ _ _ _ _ _ Hst Hd) as [[_ ?]|?]; [done|by eapply Hs']. }
  assert (strict → ∀ w, w ∉ T → unfinal h (w, i)) as Hui.
  { intros Hstr w Hw. apply (steps_unfinal _ _ _ _ _ Hst); [by intros [? _]|].
    intros d. by rewrite Hnew. }
  assert (steps strict (λ k, k.2 ∈ dom (seen jn)) (history st) h) as Hst'
    by by (eapply steps_weaken; [|exact Hst]; intros k [_ ?]).
  destruct (reused cfg (groups st) (observation s)) as [|[k v] rest].
  - apply bind_Ok in H as (group & _ & H). apply bind_Ok in H as ([g h1] & Hev & H).
    apply (_evaluate_steps cfg strict) in Hev as (Hst1 & Hun1 & Eo & Hg1);
      [|by apply open_one_ok|].
    + assert (flow_ok (mkFlow jn g h1 joins)) as Hok.
      { split; simpl; [congruence|done|rewrite Eo; simpl; rewrite dom_insert_L; set_solver| |
          |].
        - intros Hstr k Hk. apply Hun1. unfold group_keys in Hk. rewrite Eo in Hk. simpl in Hk.
          rewrite dom_insert_L in Hk. destruct Hk as [Hw Hin].
          destruct k as [w m]. simpl in *. apply elem_of_union in Hin as [->%elem_of_singleton|Hin].
          + apply Hui; [done|]. by apply (exact_not_timed (w, i)).
          + by apply Hu'.
        - by apply (joins_kept _ _ _ _ _ ET Hst1).
        - intros k d Hd. destruct (steps_current _ _ _ _ _ _ Hst1 Hd) as [[_ Hk]|?]; [|by eapply Hs2].
          simpl in Hk. rewrite dom_insert_L in Hk. set_solver. }
      apply _settle_ok in H as [[Hok' Hst2] Ej]; [|done]. split; [done|]. simpl in *.
      rewrite Ej in *. simpl in *. etrans; [exact Hst'|]. etrans; [|exact Hst2].
      eapply steps_weaken; [|exact Hst1]. intros k [_ Hk]. simpl in Hk. rewrite dom_insert_L in Hk. set_solver.
    + intros Hstr [w m] [Hw Hin]. simpl in *. rewrite dom_insert_L in Hin.
      apply elem_of_union in Hin as [->%elem_of_singleton|Hin]; [|by apply Hu'].
      apply Hui; [done|]. by apply (exact_not_timed (w, i)).
  - injection H as <-. edestruct (alone_ok jn (groups st) h joins i) as [Hok Hst2];
      [congruence|set_solver|set_solver| |done|set_solver|done|done|done|].
    + intros Hstr. apply Hui; [done|]. intros Hin. by apply (T_separate Hstr) in Hin as [? _].
    + split; [exact Hok|]. etrans; [exact Hst'|exact Hst2].
Qed.

Lemma feed_ok st e st' : flow_ok st → feed cfg st e = Ok st' → result_ok st st'.
Proof.
  destruct e as [s|source until]; simpl; intros Hok H; [by eapply _seen_ok|].
  apply bind_Ok in H as (_ & _ & H). apply bind_Ok in H as (jn & Hjn & H).
  apply _advance_seen in Hjn. simpl in Hjn.
  apply _settle_ok in H as [H _]; [exact H|].
  destruct Hok. split; simpl; rewrite ?Hjn; done.
Qed.

Lemma feeds_ok entries st st' : flow_ok st → fold_res (feed cfg) entries st = Ok st' →
  flow_ok st' ∧ steps strict (λ _, True) (history st) (history st').
Proof.
  intros Hok. apply (fold_res_ind (λ st', flow_ok st' ∧ steps strict (λ _, True) (history st) (history st')));
    [done|].
  intros e s1 s2 _ [H1 H2] Hf. apply feed_ok in Hf as [Hf Hst]; [|done]. split; [done|].
  etrans; [done|]. by eapply steps_weaken; [|exact Hst].
Qed.
End journal.

(** ** Chains *)

Section chains.
Context (strict : Prop).
Implicit Types (h : History).

Definition chain (key : BusinessKey) (ds : list FlowDecision) : list FlowDecision :=
  List.filter (λ d, bool_decide (business_key d = key)) ds.
(** The history of one key: numbered from 1, each decision replacing the one
    before, dated when it is final; when [strict], nothing follows a FINAL one. *)
Definition chain_ok (ds : list FlowDecision) : Prop :=
  ∀ n d, ds !! n = Some d →
    chain_version d = Z.of_nat n + 1 ∧
    supersedes d = match n with O => None | S m => decision_id <$> ds !! m end ∧
    status d ≠ SUPERSEDED ∧
    final_at d = (if decide (status d = FINAL) then Some (decided_at d) else None) ∧
    (strict → status d = FINAL → S n = length ds).
Definition history_ok h : Prop :=
  (∀ key, current h !! key = last (chain key (decisions h)) ∧ chain_ok (chain key (decisions h))) ∧
  ∀ x, x ∈ dossiers h → finals_in h (dossier_decisions x).

Lemma flow_chain_app key ds ds' : chain key (ds ++ ds') = chain key ds ++ chain key ds'.
Proof. apply List.filter_app. Qed.

Lemma flow_chain_ok_snoc ds d : chain_ok ds →
  (strict → ∀ p, last ds = Some p → status p ≠ FINAL) →
  chain_version d = Z.of_nat (length ds) + 1 → supersedes d = decision_id <$> last ds →
  status d ≠ SUPERSEDED →
  final_at d = (if decide (status d = FINAL) then Some (decided_at d) else None) →
  chain_ok (ds ++ [d]).
Proof.
  intros Hds Hlast Hv Hs Hst Hfa n x Hx. rewrite length_app. simpl.
  rewrite lookup_app in Hx. destruct (ds !! n) as [y|] eqn:En.
  - injection Hx as ->. destruct (Hds n x En) as (? & E & ? & ? & Hfin). split; [done|].
    split; [|split; [done|split; [done|]]].
    + rewrite E. destruct n as [|m]; [done|]. rewrite lookup_app_l; [done|].
      apply lookup_lt_Some in En. lia.
    + intros Hstr Hf. exfalso. apply (Hlast Hstr x); [|done]. rewrite last_lookup, <- (Hfin Hstr Hf). done.
  - apply lookup_ge_None in En. destruct (n - length ds)%nat as [|k] eqn:Ek; [|done].
    injection Hx as <-. assert (n = length ds) as -> by lia. split; [done|].
    split; [|split; [done|split; [done|intros; lia]]].
    rewrite Hs, last_lookup. destruct (length ds) as [|m] eqn:El; [by apply nil_length_inv in El as ->|].
    simpl. rewrite lookup_app_l by lia. done.
Qed.

Lemma chain_version_last ds p : chain_ok ds → last ds = Some p → chain_version p = Z.of_nat (length ds).
Proof.
  intros Hds Hp. rewrite last_lookup in Hp. destruct (Hds _ _ Hp) as [-> _].
  destruct ds; [done|]. simpl. lia.
Qed.

Lemma flow_step_history K h h' : step strict K h h' → history_ok h → history_ok h'.
Proof.
  intros Hs [Hc Hd].
  assert (∀ x, x ∈ dossiers h → finals_in h' (dossier_decisions x)) as Hd'.
  { intros x Hx. eapply finals_mono; [by apply rtc_once|by apply Hd]. }
  destruct Hs as [at_ h key p f fo _ Hu|h d Hf].
  - split; [|exact Hd']. intros k. simpl. rewrite flow_chain_app. unfold chain at 2 4. cbn [List.filter business_key].
    destruct (Hc k) as [Ecur Hok]. simpl. case_bool_decide as Ek.
    + subst k. rewrite lookup_insert_eq, last_snoc. split; [done|]. apply flow_chain_ok_snoc; [done|..].
      * intros Hstr q Hq. apply Hu; [done|]. by rewrite Ecur.
      * simpl. unfold next_version. rewrite Ecur. destruct (last (chain key (decisions h))) as [q|] eqn:El.
        { by rewrite (chain_version_last _ _ Hok El). }
        by apply last_None in El as ->.
      * simpl. by rewrite Ecur.
      * by destruct f.
      * by destruct f.
    + rewrite lookup_insert_ne, app_nil_r; done.
  - split; [done|]. simpl. intros x [Hx|Hx]%elem_of_app; [by apply Hd|].
    by apply list_elem_of_singleton in Hx as ->.
Qed.
Lemma flow_steps_history K h h' : steps strict K h h' → history_ok h → history_ok h'.
Proof. induction 1 as [|x y z Hxy _ IH]; [done|]. intros H. by eapply IH, flow_step_history. Qed.
Lemma history_init : history_ok (mkHistory ∅ [] []).
Proof.
  split; [|by intros x ?%not_elem_of_nil]. intros key. simpl. rewrite lookup_empty. split; [done|].
  intros n d. by rewrite lookup_nil.
Qed.
End chains.

(** ** Replay *)

Lemma replayed_init t c joins e : NoDup (timing_of c).*1 → _timed_joins t c = Ok joins → e ∈ joins →
  e.1 ∈ (timing_of c).*1 ∧ e.1 ≠ ""%string ∧ e.2.2 = TimedJoin_empty.
Proof.
  intros _ H He. unfold _timed_joins in H. apply map_res_Forall2 in H.
  apply list_elem_of_lookup in He as [n Hn].
  destruct (Forall2_lookup_r _ _ _ _ _ H Hn) as (x & Hx & E). apply list_elem_of_lookup_2 in Hx.
  rewrite elem_of_sorted_by in Hx.
  apply bind_Ok in E as (_ & _ & E). apply bind_Ok in E as (hop & Hhop%get_Ok & E).
  apply bind_Ok in E as ([js j] & Hj & [= <-]). simpl. split; [by apply list_elem_of_fmap_2|].
  split.
  - apply od_get_elem in Hhop. intros Ee. rewrite Ee in Hhop.
    assert (∀ e, e ∈ timing_hops t → e.1 ≠ ""%string) as Hne; [|by apply (Hne _ Hhop)].
    unfold timing_hops. apply foldl_inv; [by intros ? ?%not_elem_of_nil|].
    intros d h _ IH e [-> |?]%od_set_elem; [|by apply IH]. simpl. unfold hop_where.
    intros Ew. apply (f_equal String.length) in Ew. rewrite !str_length_app in Ew. simpl in Ew. lia.
  - unfold TimedJoin_init in Hj. apply bind_Ok in Hj as (_ & _ & Hj).
    by apply bind_Ok in Hj as (? & _ & [= _ <-]).
Qed.
Lemma timed_joins_wheres t c joins : _timed_joins t c = Ok joins → joins.*1 ≡ₚ (timing_of c).*1.
Proof.
  intros H. unfold _timed_joins in H. apply map_res_Forall2 in H.
  assert (joins.*1 = (sorted_by fst (timing_of c)).*1) as ->; [|by rewrite sorted_by_perm].
  induction H as [|x e l k E _ IH]; [done|]. rewrite !fmap_cons, IH. f_equal.
  apply bind_Ok in E as (_ & _ & E). apply bind_Ok in E as (hop & _ & E).
  by apply bind_Ok in E as (j & _ & [= <-]).
Qed.

Section replay.
Context (repr_str : string → string) (engine_version : string).
Implicit Types (t : Topology) (c : FlowConfig).

(** The wheres decided by timing are not decided on a recorded value as well. *)
Definition disjoint_wheres t c : Prop :=
  ∀ w, w ∈ (timing_of c).*1 →
    (∀ j, j ∈ exact_joins t → j_where j ≠ w) ∧ (∀ j, j ∈ observed_joins t → j_where j ≠ w).

Lemma replay_run t entries c r : replay_flow repr_str engine_version t entries c = Ok r →
  ∃ joins st, _timed_joins t c = Ok joins ∧
    fold_res (feed (init_settings repr_str engine_version t c)) entries
      (init_state (init_settings repr_str engine_version t c) joins) = Ok st ∧
    r = mkFlowResult (decisions (history st)) (dossiers (history st)) (duplicates (journal st)).
Proof.
  unfold replay_flow. intros H. apply bind_Ok in H as (_ & _ & H).
  apply bind_Ok in H as (joins & Hj & H). apply bind_Ok in H as (st & Hst & [= <-]). eauto.
Qed.

Lemma replay_start (strict : Prop) t c joins : NoDup (timing_of c).*1 → _timed_joins t c = Ok joins →
  flow_ok (init_settings repr_str engine_version t c) strict joins.*1
    (init_state (init_settings repr_str engine_version t c) joins).
Proof.
  intros Hnd Hj. split; simpl; [done|by split|set_solver| | |].
  - intros _ k [_ Hk]. simpl in Hk. by rewrite dom_empty_L in Hk.
  - intros e He. destruct (replayed_init _ _ _ _ Hnd Hj He) as (_ & _ & E). split; rewrite E; simpl.
    + by rewrite dom_empty_L.
    + intros _ m. by rewrite dom_empty_L.
  - intros k d. by rewrite lookup_empty.
Qed.

Lemma replay_history (strict : Prop) t entries c r : NoDup (timing_of c).*1 →
  (strict → disjoint_wheres t c) → replay_flow repr_str engine_version t entries c = Ok r →
  ∃ st, history_ok strict (history st) ∧ result_decisions r = decisions (history st) ∧
    result_dossiers r = dossiers (history st).
Proof.
  intros Hnd Hsep H. apply replay_run in H as (joins & st & Hj & Hst & ->). exists st. split; [|done].
  edestruct (feeds_ok (init_settings repr_str engine_version t c) strict joins.*1) as [_ Hs]; [..|exact Hst|].
  - by rewrite (timed_joins_wheres _ _ _ Hj).
  - intros Hstr w (e & -> & He)%list_elem_of_fmap.
    destruct (replayed_init _ _ _ _ Hnd Hj He) as (Hin & Hne & _). split; [done|].
    destruct (Hsep Hstr _ Hin) as [H1 H2]. intros [(j & Hjn & E)|(j & Hjn & E)]; [by apply (H1 j)|by apply (H2 j)].
  - by apply replay_start.
  - exact (flow_steps_history strict _ _ _ Hs (history_init strict)).
Qed.
End replay.

(** ** What a journal leaves behind *)

Section known.
Context (cfg : Settings).
Implicit Types (st : Flow) (jn : Journal).

(** Everything an accepted observation was checked for. *)
Definition accepted (jn : Journal) (s : Seen) : Prop :=
  Exact._validate (points cfg) (observation s) = Ok tt ∧
  o_source (observation s) ∈ (progress jn).*1 ∧ _times s = Ok tt.
(** The observation was seen, with this content. *)
Definition known (jn : Journal) (s : Seen) : Prop :=
  ∃ s', seen jn !! identity (observation s) = Some s' ∧ content_of s' = content_of s.
(** What later entries keep. *)
Definition grows (jn jn' : Journal) : Prop :=
  seen jn ⊆ seen jn' ∧ (progress jn').*1 = (progress jn).*1.
Global Instance grows_preorder : PreOrder grows.
Proof.
  split; [by intros jn|]. intros j1 j2 j3 [H1 E1] [H2 E2]. split; [by etrans|congruence].
Qed.

Lemma od_set_dom {K A} `{EqDecision K} (k : K) (a : A) (d : odict K A) :
  k ∈ d.*1 → (od_set k a d).*1 = d.*1.
Proof.
  induction d as [|[k' a'] d IH]; simpl; [by intros ?%not_elem_of_nil|].
  destruct (decide (k = k')) as [-> |]; [done|]. rewrite elem_of_cons. intros [?|?]; [done|].
  rewrite fmap_cons. simpl. by rewrite IH.
Qed.
Lemma _advance_grows jn src t jn' : _advance jn src t = Ok jn' → grows jn jn'.
Proof.
  unfold _advance. intros H. apply bind_Ok in H as (p & Hp%get_Ok & [= <-]). split; simpl; [done|].
  apply od_set_dom. apply od_get_elem in Hp. by apply (list_elem_of_fmap_2 fst) in Hp.
Qed.
Lemma _settle_journal st st' : _settle cfg st = Ok st' → journal st' = journal st.
Proof.
  unfold _settle. intros H. apply bind_Ok in H as ([? ?] & _ & H). apply bind_Ok in H as ([? ?] & _ & H).
  apply bind_Ok in H as ([? ?] & _ & H). apply bind_Ok in H as ([? ?] & _ & H).
  by apply bind_Ok in H as ([? ?] & _ & [= <-]).
Qed.

Lemma _seen_grows st s st' : _seen cfg st s = Ok st' →
  grows (journal st) (journal st') ∧ known (journal st') s ∧ accepted (journal st') s.
Proof.
  unfold _seen. intros H. apply bind_Ok in H as ([] & Hv & H). apply bind_Ok in H as ([] & Hd & H).
  apply bind_Ok in H as ([] & Ht & H). apply check_Ok, bool_decide_eq_true in Hd.
  assert (∀ jn', grows (journal st) jn' → known jn' s →
    grows (journal st) jn' ∧ known jn' s ∧ accepted jn' s) as Hall.
  { intros jn' Hg Hk. split_and!; [done|done|]. split_and!; [done| |done]. by destruct Hg as [_ ->]. }
  destruct (seen (journal st) !! identity (observation s)) as [before|] eqn:Ei.
  { apply bind_Ok in H as (? & Hc%check_Ok & [= <-]). apply bool_decide_eq_true in Hc.
    apply Hall; [done|]. by exists before. }
  set (jn := mkJournal _ _ _ _ _ _) in H. apply bind_Ok in H as (late & _ & H).
  apply bind_Ok in H as (jn1 & Ha & H).
  assert (grows (journal st) jn1 ∧ known jn1 s) as [Hg Hk].
  { pose proof (_advance_seen _ _ _ _ Ha) as Es. apply _advance_grows in Ha. split.
    - etrans; [|exact Ha]. split; [by apply insert_subseteq|done].
    - exists s. rewrite Es. simpl. by rewrite lookup_insert_eq. }
  assert (journal st' = jn1) as ->; [|by apply Hall].
  destruct late; [by injection H as <-|]. apply bind_Ok in H as ([h joins] & _ & H).
  destruct (reused _ _ _) as [|[k v] rest]; [|by injection H as <-].
  apply bind_Ok in H as (group & _ & H). apply bind_Ok in H as ([g h1] & _ & H).
  by apply _settle_journal in H.
Qed.
Lemma feed_grows st e st' : feed cfg st e = Ok st' → grows (journal st) (journal st') ∧
  ∀ s, e = ESeen s → known (journal st') s ∧ accepted (journal st') s.
Proof.
  destruct e as [s|source until]; cbn [feed]; intros H.
  { apply _seen_grows in H as (? & ? & ?). split; [done|]. by intros s' [= <-]. }
  split; [|done]. apply bind_Ok in H as (_ & _ & H). apply bind_Ok in H as (jn & Hjn & H).
  apply _settle_journal in H as ->. by apply _advance_grows in Hjn.
Qed.
Lemma known_grows jn jn' s : grows jn jn' → known jn s ∧ accepted jn s → known jn' s ∧ accepted jn' s.
Proof.
  intros [Hs Ep] [(s' & Hs' & Ec) (Hv & Hd & Ht)]. split.
  - exists s'. split; [|done]. by eapply lookup_weaken.
  - split_and!; [done|by rewrite Ep|done].
Qed.
Lemma feeds_known entries st st' s : fold_res (feed cfg) entries st = Ok st' → ESeen s ∈ entries →
  known (journal st') s ∧ accepted (journal st') s.
Proof.
  revert st. induction entries as [|e es IH]; intros st H Hs; [by apply not_elem_of_nil in Hs|].
  cbn [fold_res] in H. apply bind_Ok in H as (st1 & H1 & H). apply elem_of_cons in Hs as [<- |Hs];
    [|by eapply IH]. apply feed_grows in H1 as [_ Hk]. eapply known_grows; [|by apply Hk].
  revert H. apply (fold_res_ind (λ st', grows (journal st1) (journal st'))); [done|].
  intros e s1 s2 _ Hg Hf. apply feed_grows in Hf as [Hf _]. by etrans.
Qed.

(** Delivering it again changes the count of duplicates alone. *)
Lemma feed_again st s s' : known (journal st) s → accepted (journal st) s →
  content_of s' = content_of s →
  feed cfg st (ESeen s') = Ok (mkFlow (mkJournal (progress (journal st)) (first_at (journal st))
    (seen (journal st)) (positions (journal st)) (duplicates (journal st) + 1) (position (journal st)))
    (groups st) (history st) (timed st)).
Proof.
  intros (s0 & Hs0 & Ec) (Hv & Hd & Ht) E. cbn [feed]. unfold _seen.
  pose proof E as E'. unfold content_of in E'. injection E' as Eo Ea Es Ee.
  rewrite Eo, Hv. cbn [mbind res_bind]. unfold _declared. rewrite bool_decide_eq_true_2 by done.
  cbn [check mbind res_bind]. assert (_times s' = _times s) as -> by (unfold _times; by rewrite Ea, Es, Ee).
  rewrite Ht. cbn [mbind res_bind]. rewrite Hs0, E, Ec, bool_decide_eq_true_2 by done. done.
Qed.
End known.

(** ** A concrete flow, for the witnesses *)

Definition db : Point := mkPoint "db" "h2" "log" (Some "h2"%string) (Some "us"%string) ∅ ∅ [] ∅ true.
Definition two_hops : Topology :=
  mkTopology [gateway; backend; db]
    [mkHopCeiling "gateway" "backend" "call" AUTHORED SHARED_HEADER None None (Some "request_id"%string) None;
     mkHopCeiling "backend" "db" "call" DERIVED NESTED_TIMING None None None None] [].
Definition ex_config : FlowConfig :=
  mkConfig ["g.log"; "b.log"; "d.log"]%string 10 0 None 32
    (Some [("backend -> db"%string, mkParams [mkSignal "end" 0 5] 0 4 0 1000)]) None None.
Definition ex_seen (o : Observation) (at_ : Z) (start : option Z) : Seen :=
  mkSeen o at_ None start ((λ _, at_) <$> start).
Definition called (n : Z) : Observation := mkObs "b.log" n "backend" "outbound" ∅.
Definition served (n : Z) : Observation := mkObs "d.log" n "db" "inbound" ∅.
(** A request that both ends record, redelivered; a call seen by timing only; a
    record without a counterpart; then progress on every source, and a late record. *)
Definition ex_entries : list Entry :=
  [ESeen (ex_seen (sent 1 "a") 0 None); ESeen (ex_seen (received 1 "a") 3 None);
   ESeen (ex_seen (sent 1 "a") 0 None); ESeen (ex_seen (called 2) 6 (Some 4));
   ESeen (ex_seen (served 1) 7 (Some 5)); ESeen (ex_seen (sent 2 "b") 8 None);
   EAdvance "g.log" 40; EAdvance "b.log" 40; EAdvance "d.log" 40;
   ESeen (ex_seen (sent 3 "c") 9 None)].
Definition ex_repr (s : string) : string := ("'" +:+ s +:+ "'")%string.
Definition ex_result : FlowResult :=
  match replay_flow ex_repr "0.1.0" two_hops ex_entries ex_config with
  | Ok r => r | Raise _ => mkFlowResult [] [] 0 end.

Lemma flow_ex_replay : replay_flow ex_repr "0.1.0" two_hops ex_entries ex_config = Ok ex_result.
Proof. vm_compute. reflexivity. Qed.
Lemma ex_wheres : NoDup (timing_of ex_config).*1.
Proof. apply NoDup_singleton. Qed.
Lemma ex_disjoint : disjoint_wheres two_hops ex_config.
Proof.
  intros w ->%list_elem_of_singleton. simpl.
  split; intros j Hj; [apply list_elem_of_singleton in Hj as ->; discriminate|by apply not_elem_of_nil in Hj].
Qed.

(** The final decisions of the example: a link on the recorded value, a record
    without a counterpart, a link by timing, and the late record. *)
Example flow_ex_history :
  (λ d, (business_key d, chain_version d, kind d, partners d, decided_at d)) <$>
    List.filter (λ d, bool_decide (status d = FINAL)) (result_decisions ex_result) =
  [(("gateway -> backend", ("b.log", 1)), 2, LINKED, [("g.log", 1)], 7);
   (("gateway -> backend", ("g.log", 1)), 3, LINKED, [("b.log", 1)], 7);
   (("gateway -> backend", ("g.log", 2)), 2, UNLINKED, [], 7);
   (("backend -> db", ("b.log", 2)), 3, LINKED, [("d.log", 1)], 7);
   (("backend -> db", ("d.log", 1)), 2, LINKED, [("b.log", 2)], 7);
   (("", ("g.log", 3)), 1, LATE, [], 8)]%string.
Proof. vm_compute. reflexivity. Qed.

(** ** Guarantees *)

Section guarantees.
Context (repr_str : string → string) (engine_version : string).
Implicit Types (t : Topology) (c : FlowConfig).
Notation replay_flow := (replay_flow repr_str engine_version).

(** C21: the decisions of a key form a chain: versions count from 1 without a gap, each
    decision supersedes exactly the one before it, SUPERSEDED is never written, and
    a decision carries the position that made it final exactly when it is FINAL. *)
Theorem flow_chains t entries c r key n d : NoDup (timing_of c).*1 →
  replay_flow t entries c = Ok r → chain key (result_decisions r) !! n = Some d →
  chain_version d = Z.of_nat n + 1 ∧
  supersedes d = match n with O => None
                 | S m => decision_id <$> chain key (result_decisions r) !! m end ∧
  status d ≠ SUPERSEDED ∧
  final_at d = (if decide (status d = FINAL) then Some (decided_at d) else None).
Proof.
  intros Hnd H Hd.
  destruct (replay_history repr_str engine_version False t entries c r Hnd) as (st & [Hc _] & E & _);
    [done|done|].
  rewrite E in *. destruct (Hc key) as [_ Hok]. by destruct (Hok n d Hd) as (? & ? & ? & ? & _).
Qed.

(** C8: a FINAL decision is never superseded: provided no hop is both decided by
    timing and joined on a recorded value, nothing after it in the history is on
    its key. *)
Theorem flow_final t entries c r before d after : NoDup (timing_of c).*1 → disjoint_wheres t c →
  replay_flow t entries c = Ok r → result_decisions r = before ++ d :: after →
  status d = FINAL → ∀ x, x ∈ after → business_key x ≠ business_key d.
Proof.
  intros Hnd Hsep H Ed Hf x Hx Ek.
  destruct (replay_history repr_str engine_version True t entries c r Hnd) as (st & [Hc _] & E & _);
    [done|done|].
  destruct (Hc (business_key d)) as [_ Hok]. rewrite <- E, Ed, flow_chain_app in Hok.
  unfold chain at 2 in Hok. cbn [List.filter] in Hok. rewrite bool_decide_eq_true_2 in Hok by done.
  destruct (Hok (length (chain (business_key d) before)) d) as (_ & _ & _ & _ & Hlast).
  { by rewrite lookup_app_r, Nat.sub_diag by lia. }
  specialize (Hlast I Hf). rewrite length_app in Hlast. simpl in Hlast.
  assert (x ∈ chain (business_key d) after) as Hin
    by (apply elem_of_filter_bool; split; [done|by apply bool_decide_eq_true_2]).
  unfold chain in Hin. destruct (List.filter _ after) as [|y l]; [by apply not_elem_of_nil in Hin|].
  simpl in Hlast. lia.
Qed.

(** A dossier cites only FINAL decisions, and they are in the history. *)
Theorem flow_dossiers t entries c r x id : NoDup (timing_of c).*1 →
  replay_flow t entries c = Ok r → x ∈ result_dossiers r → id ∈ dossier_decisions x →
  ∃ d, d ∈ result_decisions r ∧ decision_id d = id ∧ status d = FINAL.
Proof.
  intros Hnd H Hx Hid.
  destruct (replay_history repr_str engine_version False t entries c r Hnd) as (st & [_ Hd] & E & E');
    [done|done|].
  rewrite E, E' in *. by apply (Hd x Hx).
Qed.

(** The history is append-only: replaying a longer journal keeps every decision
    and every dossier already written, at its place. *)
Theorem flow_append_only t entries more c r' : NoDup (timing_of c).*1 →
  replay_flow t (entries ++ more) c = Ok r' →
  ∃ r new news, replay_flow t entries c = Ok r ∧
    result_decisions r' = result_decisions r ++ new ∧ result_dossiers r' = result_dossiers r ++ news.
Proof.
  intros Hnd H. unfold Flow.replay_flow in *. apply bind_Ok in H as (u & -> & H).
  apply bind_Ok in H as (joins & Hj & H). rewrite Hj. apply bind_Ok in H as (st' & Hst & [= <-]).
  rewrite fold_res_app in Hst. apply bind_Ok in Hst as (st & Hst & Hst'). cbn [mbind res_bind].
  rewrite Hst. cbn [mbind res_bind].
  assert (NoDup joins.*1) as Hnd' by by rewrite (timed_joins_wheres _ _ _ Hj).
  pose proof (replay_start repr_str engine_version False t c joins Hnd Hj) as Hok.
  eapply (feeds_ok (init_settings repr_str engine_version t c) False joins.*1 Hnd') in Hst as [Hok' _]; [|done|by apply Hok].
  eapply (feeds_ok (init_settings repr_str engine_version t c) False joins.*1 Hnd') in Hst' as [_ Hs]; [|done|done].
  apply flow_steps_append in Hs as [[new E1] [news E2]].
  eexists _, new, news. split; [done|]. by split.
Qed.

(** Redelivery is idempotent: delivering again an observation that the journal
    holds, with the same content (the capture time aside), is accepted and changes
    nothing but the count of duplicates. *)
Theorem flow_redelivered t entries c r s s' :
  replay_flow t entries c = Ok r → ESeen s ∈ entries → content_of s' = content_of s →
  replay_flow t (entries ++ [ESeen s']) c =
    Ok (mkFlowResult (result_decisions r) (result_dossiers r) (result_duplicates r + 1)).
Proof.
  intros H Hs Ec. unfold Flow.replay_flow in *. apply bind_Ok in H as (u & -> & H).
  apply bind_Ok in H as (joins & -> & H). apply bind_Ok in H as (st & Hst & [= <-]).
  cbn [mbind res_bind]. rewrite fold_res_app, Hst. cbn [mbind res_bind fold_res].
  destruct (feeds_known _ _ _ _ _ Hst Hs) as [Hk Ha].
  rewrite (feed_again _ _ _ _ Hk Ha Ec). done.
Qed.
End guarantees.

Lemma flow_append_only_witness :
  ∃ r new news, replay_flow ex_repr "0.1.0" two_hops (take 6 ex_entries) ex_config = Ok r ∧
    result_decisions ex_result = result_decisions r ++ new ∧
    result_dossiers ex_result = result_dossiers r ++ news.
Proof.
  apply (flow_append_only ex_repr "0.1.0" two_hops (take 6 ex_entries) (drop 6 ex_entries) ex_config);
    [exact ex_wheres|exact flow_ex_replay].
Defined.
Lemma flow_redelivered_witness :
  replay_flow ex_repr "0.1.0" two_hops (ex_entries ++ [ESeen (mkSeen (served 1) 7 (Some "later"%string) (Some 5) (Some 7))])
    ex_config = Ok (mkFlowResult (result_decisions ex_result) (result_dossiers ex_result)
                      (result_duplicates ex_result + 1)).
Proof.
  apply (flow_redelivered ex_repr "0.1.0" two_hops ex_entries ex_config ex_result (ex_seen (served 1) 7 (Some 5)));
    [exact flow_ex_replay| |reflexivity].
  do 4 right. left.
Defined.

Lemma flow_chains_witness :
  ∃ d, chain ("gateway -> backend", ("g.log", 1))%string (result_decisions ex_result) !! 2%nat = Some d ∧
    chain_version d = 3 ∧ final_at d = Some 7.
Proof.
  pose proof (flow_chains ex_repr "0.1.0" two_hops ex_entries ex_config ex_result
    ("gateway -> backend", ("g.log", 1))%string 2 ) as H.
  destruct (chain _ _ !! 2%nat) as [d|] eqn:E; [|exfalso; vm_compute in E; discriminate E].
  exists d. split; [reflexivity|].
  destruct (H d ex_wheres flow_ex_replay eq_refl) as (Hv & _). split; [rewrite Hv; reflexivity|].
  vm_compute in E. injection E as <-. reflexivity.
Defined.
Lemma flow_final_witness :
  ∃ d, result_decisions ex_result !! 7%nat = Some d ∧ status d = FINAL ∧
    Forall (λ x, business_key x ≠ business_key d) (drop 8 (result_decisions ex_result)).
Proof.
  destruct (result_decisions ex_result !! 7%nat) as [d|] eqn:E; [|exfalso; vm_compute in E; discriminate E].
  assert (status d = FINAL) as Hf by (vm_compute in E; injection E as <-; reflexivity).
  exists d. split; [reflexivity|]. split; [exact Hf|]. apply Forall_forall.
  apply (flow_final ex_repr "0.1.0" two_hops ex_entries ex_config ex_result
    (take 7 (result_decisions ex_result)) d); [exact ex_wheres|exact ex_disjoint|exact flow_ex_replay| |exact Hf].
  symmetry. apply take_drop_middle. exact E.
Defined.
Lemma flow_dossiers_witness :
  ∃ d, d ∈ result_decisions ex_result ∧ decision_id d = "3b739bc7fff7d27c"%string ∧ status d = FINAL.
Proof.
  destruct (result_dossiers ex_result !! 3%nat) as [x|] eqn:E; [|exfalso; vm_compute in E; discriminate E].
  apply (flow_dossiers ex_repr "0.1.0" two_hops ex_entries ex_config ex_result x _ ex_wheres flow_ex_replay).
  - apply (list_elem_of_lookup_2 _ 3). exact E.
  - vm_compute in E. injection E as <-. simpl. left.
Defined.
