(* ===== verification/FlowSound.v ===== *)
(** * FlowSound: what a decision of the flow says is true

    A decision names a join, a key and a value, and partners.  For every decision written
    on the exact path, at any time of a replay, the observation and its partners were
    delivered, on opposite ends of that join, with that value.  The file carries this
    through every method of [_Flow]: what is open was delivered, and each proposal is read
    from the joins of open observations. *)

From S2P Require Import Prelude Digest Topology Dedup Assignment Timing FlowTimed Exact Flow FlowTheorems.

Notation BusinessKey := (string * (string * Z))%type (only parsing).

(** ** Ends of a join *)

Section ends.
Context (cfg : Settings) (late : string * Z → Prop) (nameless : Prop) (sn : gmap (string * Z) Seen).

(** Delivered on a side of a point, with a value. *)
Definition delivered {Key} (value_of : Observation → Key → option string) (side : string * string)
    (key : Key) (v : string) (i : string * Z) : Prop :=
  ∃ s, sn !! i = Some s ∧ Exact.side_of (observation s) = side ∧ value_of (observation s) key = Some v.
(** An identity on one end of a join, others on the other end. *)
Definition across {Key} (value_of : Observation → Key → option string) (j : Join Key) (v : string)
    (i : string * Z) (ps : list (string * Z)) : Prop :=
  (delivered value_of (j_up j) (j_key j) v i ∧ ∀ p, p ∈ ps → delivered value_of (j_down j) (j_key j) v p) ∨
  (delivered value_of (j_down j) (j_key j) v i ∧ ∀ p, p ∈ ps → delivered value_of (j_up j) (j_key j) v p).
(** The same, on a join of the topology: authored, or observed. *)
Definition on_join (w k v : string) (i : string * Z) (ps : list (string * Z)) : Prop :=
  (∃ j, j ∈ exact_joins (topology cfg) ∧ j_where j = w ∧ j_key j = k ∧ across _value_of j v i ps) ∨
  (∃ j, j ∈ observed_joins (topology cfg) ∧ j_where j = w ∧ observed_key (j_key j) = k ∧ across _composite_of j v i ps).

(** What a decision of a kind says of its key, value and partners; who may be decided late;
    whether a decision may link without a name, as timed joins do. *)
Definition joined_kinds : list Kind := [LINKED; COLLIDED; UNLINKED].
Record says (key : BusinessKey) (k : Kind) (name v : option string) (ps : list (string * Z)) : Prop := {
  sy_link : k = LINKED → ∃ p, ps = [p];
  sy_late : k = LATE → key.1 = ""%string ∧ late key.2;
  sy_named : name = None → k ∈ CONFLICTED :: joined_kinds → nameless;
  sy_join n : name = Some n → k ∈ joined_kinds → ∃ v', v = Some v' ∧ on_join key.1 n v' key.2 ps;
  sy_conflict n : name = Some n → k = CONFLICTED → ∃ v', v = Some v' ∧ on_join key.1 n v' key.2 []
}.

Lemma across_sub {Key} value_of (j : Join Key) v i ps ps' : (∀ p, p ∈ ps' → p ∈ ps) →
  across value_of j v i ps → across value_of j v i ps'.
Proof. intros Hs [[? ?]|[? ?]]; [left|right]; auto. Qed.
Lemma on_join_sub w k v i ps ps' : (∀ p, p ∈ ps' → p ∈ ps) → on_join w k v i ps → on_join w k v i ps'.
Proof.
  intros Hs [(j & ? & ? & ? & ?)|(j & ? & ? & ? & ?)]; [left|right]; exists j; split_and!; try done;
    by eapply across_sub.
Qed.
End ends.

Lemma delivered_mono {Key} value_of sn sn' side (key : Key) v i : sn ⊆ sn' →
  delivered sn value_of side key v i → delivered sn' value_of side key v i.
Proof. intros Hs (s & ? & ? & ?). exists s. split_and!; [by eapply lookup_weaken|done..]. Qed.
Lemma on_join_mono cfg sn sn' w k v i ps : sn ⊆ sn' → on_join cfg sn w k v i ps → on_join cfg sn' w k v i ps.
Proof.
  intros Hs. assert (∀ Key (value_of : Observation → Key → option string) j,
    across sn value_of j v i ps → across sn' value_of j v i ps) as Ha.
  { intros Key value_of j [[? ?]|[? ?]]; [left|right]; (split; [|intros p Hp]); eapply delivered_mono; eauto. }
  intros [(j & ? & ? & ? & ?)|(j & ? & ? & ? & ?)]; [left|right]; exists j; auto.
Qed.
Lemma says_mono cfg late nameless sn sn' key k name v ps : sn ⊆ sn' →
  says cfg late nameless sn key k name v ps → says cfg late nameless sn' key k name v ps.
Proof.
  intros Hs [H1 H2 H3 H4 H5]. split; [done..| |].
  - intros n Hn Hk. destruct (H4 n Hn Hk) as (v' & ? & ?). exists v'. split; [done|by eapply on_join_mono].
  - intros n Hn Hk. destruct (H5 n Hn Hk) as (v' & ? & ?). exists v'. split; [done|by eapply on_join_mono].
Qed.

(** ** The outcomes of an evaluation *)

Notation Outcome := (Kind * option string * option string * list (string * Z))%type (only parsing).

Lemma outcomes_ind (P : BusinessKey → Outcome → Prop) r value_of out :
  (∀ l, l ∈ r_links r →
    P (l_where l, l_upstream l) (LINKED, Some (l_key l), Some (l_value l), [l_downstream l]) ∧
    P (l_where l, l_downstream l) (LINKED, Some (l_key l), Some (l_value l), [l_upstream l])) →
  (∀ c, c ∈ r_collisions r →
    (∀ i, i ∈ c_upstream c → P (c_where c, i) (COLLIDED, Some (c_key c), Some (c_value c), c_downstream c)) ∧
    (∀ i, i ∈ c_downstream c → P (c_where c, i) (COLLIDED, Some (c_key c), Some (c_value c), c_upstream c))) →
  (∀ e k v, e ∈ r_unlinked r → value_of e.1 e.2 = Ok (k, v) → P (e.1, e.2) (UNLINKED, k, v, [])) →
  _outcomes r value_of = Ok out → map_Forall P out.
Proof.
  intros Hl Hc Hu. unfold _outcomes. apply (fold_res_ind (map_Forall P)).
  - apply foldl_inv; [apply foldl_inv; [apply map_Forall_empty|]|].
    + intros m l Hin Hm. destruct (Hl l Hin). by apply map_Forall_insert_2; [|apply map_Forall_insert_2].
    + intros m c Hin Hm. destruct (Hc c Hin) as [H1 H2].
      apply foldl_inv; [apply foldl_inv; [done|]|]; intros m' i Hi Hm'; apply map_Forall_insert_2; auto.
  - intros e m m' Hin Hm H. apply bind_Ok in H as ([k v] & Hv & [= <-]). apply map_Forall_insert_2; [|done].
    by apply Hu.
Qed.

(** What a join reports of the observations it read. *)
Section reported.
Context {Key : Type} (name_of : Key → string) (value_of : Observation → Key → option string).
Record reported_by (joins : list (Join Key)) (os : list Observation) (r : Exact.Result) : Prop := {
  rb_link l : l ∈ r_links r → ∃ j, j ∈ joins ∧ j_where j = l_where l ∧ name_of (j_key j) = l_key l ∧
    l_upstream l ∈ Exact.holders value_of os (j_up j) (j_key j) (l_value l) ∧
    l_downstream l ∈ Exact.holders value_of os (j_down j) (j_key j) (l_value l);
  rb_collision c : c ∈ r_collisions r → ∃ j, j ∈ joins ∧ j_where j = c_where c ∧ name_of (j_key j) = c_key c ∧
    c_upstream c = Exact.holders value_of os (j_up j) (j_key j) (c_value c) ∧
    c_downstream c = Exact.holders value_of os (j_down j) (j_key j) (c_value c);
  rb_unlinked e : e ∈ r_unlinked r → ∃ j v, j ∈ joins ∧ j_where j = e.1 ∧
    (e.2 ∈ Exact.holders value_of os (j_up j) (j_key j) v ∨ e.2 ∈ Exact.holders value_of os (j_down j) (j_key j) v)
}.
Lemma join_reported joins os dropped :
  reported_by joins os (_join name_of value_of joins (by_side_of os) dropped).
Proof.
  assert (∀ x, x ∈ joins ≫= join_outcomes name_of value_of (by_side_of os) →
    ∃ j v, j ∈ joins ∧ x ∈ outcome (j_where j) (name_of (j_key j))
      (_by_value value_of (at_key (by_side_of os) (j_up j)) (j_key j))
      (_by_value value_of (at_key (by_side_of os) (j_down j)) (j_key j)) v) as Hx.
  { intros x (j & Hx & Hj)%list_elem_of_bind. apply elem_of_outcomes in Hx as (v & _ & Hx). eauto. }
  split; simpl.
  - intros l Hl. apply (elem_of_links value_of name_of joins os dropped) in Hl as (j & ? & ? & ? & Hu & Hd). exists j. rewrite Hu, Hd.
    split_and!; [done|done|done| |]; by apply list_elem_of_singleton.
  - intros c. rewrite elem_of_sorted_by. intros (x & Hc & E)%list_elem_of_omap. destruct (Hx x Hc) as (j & v & Hj & Ho).
    destruct x; [done| |done]. injection E as ->. exists j. revert Ho. unfold outcome.
    destruct (_ || _); [intros [= ->]%list_elem_of_singleton; done|].
    destruct (at_key _ v), (at_key _ v); intros Ho; [by apply not_elem_of_nil in Ho|by apply list_elem_of_singleton in Ho..].
  - intros e. unfold sorted. rewrite elem_of_sorted_by. intros (x & Hu & E)%list_elem_of_omap.
    destruct (Hx x Hu) as (j & v & Hj & Ho). apply outcome_within in Ho. destruct x; [done..|]. injection E as <-.
    destruct Ho as (-> & Ho%elem_of_app). by exists j, v.
Qed.
End reported.

(** ** The history *)

Section history.
Context (cfg : Settings) (late : string * Z → Prop) (nameless : Prop).
Implicit Types (sn : gmap (string * Z) Seen) (h : History) (g : Groups) (jn : Journal).

Definition psays sn (key : BusinessKey) (p : Proposal) : Prop :=
  says cfg late nameless sn key (p_kind p) (p_key p) (p_value p) (p_partners p).
Record hist_ok sn h : Prop := {
  ho_says d : d ∈ decisions h → psays sn (business_key d) (proposal_of d);
  ho_current k d : current h !! k = Some d → d ∈ decisions h ∧ business_key d = k
}.
Lemma hist_mono sn sn' h : sn ⊆ sn' → hist_ok sn h → hist_ok sn' h.
Proof. intros Hs [H1 H2]. split; [|done]. intros d Hd. by eapply says_mono, H1. Qed.
Lemma hist_init sn : hist_ok sn (mkHistory ∅ [] []).
Proof. split; [by intros ? ?%not_elem_of_nil|simpl; by intros ?? ?%lookup_empty_Some]. Qed.
Lemma hist_dossiers sn h l : hist_ok sn h → hist_ok sn (mkHistory (current h) (decisions h) l).
Proof. intros [? ?]. by split. Qed.
Lemma emit_hist sn at_ h key p final forced : psays sn key p → hist_ok sn h →
  hist_ok sn (_emit at_ h key p final forced).1.
Proof.
  intros Hp [H1 H2]. split; simpl.
  - intros d [Hd| ->%list_elem_of_singleton]%elem_of_app; [by apply H1|done].
  - intros k d. rewrite lookup_insert_Some. intros [[<- <-]|[_ Hd]].
    + split; [|done]. apply elem_of_app. right. by apply list_elem_of_singleton.
    + apply H2 in Hd as [? ?]. split; [|done]. apply elem_of_app. by left.
Qed.
Lemma propose_hist sn at_ h key p : psays sn key p → hist_ok sn h → hist_ok sn (propose at_ h key p).
Proof.
  intros. unfold propose. destruct (current h !! key); [case_bool_decide; [done|]|]; by apply emit_hist.
Qed.
Lemma prove_hist sn jn h os ids forced cites join h' : hist_ok sn h →
  _prove cfg jn h os ids forced cites join = Ok h' → hist_ok sn h'.
Proof. intros Hh H. unfold _prove in H. apply bind_Ok in H as (ps & _ & [= <-]). by apply hist_dossiers. Qed.
Lemma emits_hist {A} sn at_ (key : A → BusinessKey) (p : History → A → res Proposal) forced l h ids h' ids' :
  (∀ h x q, hist_ok sn h → x ∈ l → p h x = Ok q → psays sn (key x) q) → hist_ok sn h →
  fold_res (λ st x, p ← p st.1 x; let '(h, d) := _emit at_ st.1 (key x) p true forced in
              Ok (h, st.2 ++ [decision_id d])) l (h, ids) = Ok (h', ids') → hist_ok sn h'.
Proof.
  intros Hp Hh H. eapply (fold_res_ind (λ st : History * list string, hist_ok sn st.1)) in H; [exact H|done|].
  intros x [h1 i1] [h2 i2] Hx Hh1 H1. apply bind_Ok in H1 as (q & Hq & H1).
  rewrite (surjective_pairing (_emit _ _ _ _ _ _)) in H1. injection H1 as <- _. apply emit_hist; [|done]. by eapply Hp.
Qed.

(** ** Evaluation *)

(** What is open was delivered under its own name. *)
Definition groups_in sn g : Prop := ∀ i s, open g !! i = Some s → sn !! i = Some s ∧ identity (observation s) = i.

(** An outcome names a key and a value, and is one of three kinds. *)
Definition osays sn (key : BusinessKey) (x : Outcome) : Prop :=
  ∃ k n v ps, x = (k, Some n, Some v, ps) ∧ k ∈ joined_kinds ∧ (k = LINKED → ∃ p, ps = [p]) ∧
    on_join cfg sn key.1 n v key.2 ps.
Lemma outcome_psays sn key x e c m : osays sn key x → psays sn key (outcome_proposal x e c m).
Proof.
  intros (k & n & v & ps & -> & Hk & Hl & Hj). split; simpl; try done.
  - intros ->. exfalso. set_solver.
  - intros ? [= <-] _. eauto.
  - intros ? _ ->. exfalso. set_solver.
Qed.
Lemma conflicted_psays sn key k n v ps ps' e c m r w : osays sn key (k, n, v, ps) →
  psays sn key (mkProposal CONFLICTED n v ps' e c m r w).
Proof.
  intros (k' & n' & v' & ps'' & [= -> -> -> ->] & _ & _ & Hj). split; simpl; try done.
  - intros ? _ H. exfalso. set_solver.
  - intros ? [= <-] _. exists v'. split; [done|]. eapply on_join_sub; [|exact Hj]. by intros p ?%not_elem_of_nil.
Qed.
Lemma other_psays sn key k name v ps e c m r w : k ∉ LATE :: CONFLICTED :: joined_kinds →
  psays sn key (mkProposal k name v ps e c m r w).
Proof.
  rewrite !not_elem_of_cons. intros (? & ? & Hk). assert (k ≠ LINKED) by (intros ->; apply Hk; left).
  split; simpl; try done. intros _ [?|?]%elem_of_cons; done.
Qed.
Lemma definitive_says sn g key x : osays sn key x → osays sn key (_definitive g key.1 x).
Proof.
  intros (k & n & v & ps & -> & Hk & Hl & Hj). unfold _definitive. case_bool_decide; [|by exists k, n, v, ps].
  exists COLLIDED, n, v, []. split_and!; [done|right; left|done|]. eapply on_join_sub; [|exact Hj].
  by intros p ?%not_elem_of_nil.
Qed.
Lemma one_link_says sn key x e other p : osays sn key x → one_link key.1 key.2 x e other = Ok p → psays sn key p.
Proof.
  intros Hx H. unfold one_link in H. apply bind_Ok in H as (has & _ & H).
  destruct (sorted _); [|injection H as <-; by apply outcome_psays].
  destruct x as [[[k n] v] ps]. injection H as <-. by eapply conflicted_psays.
Qed.
Lemma two_links_says sn key a o : osays sn key a → psays sn key (two_links a o).
Proof.
  intros Ha. unfold two_links. case_bool_decide; [by apply outcome_psays|]. destruct a as [[[k n] v] ps].
  by eapply conflicted_psays.
Qed.
Lemma combined_says sn g key a o p : (∀ x, a = Some x → osays sn key x) → (∀ x, o = Some x → osays sn key x) →
  _combined cfg g key a o = Ok p → psays sn key p.
Proof.
  intros Ha Ho. destruct key as [w i]. unfold _combined. destruct a as [a|], o as [o|]; [..|done].
  - specialize (Ha a eq_refl). specialize (Ho o eq_refl).
    repeat match goal with |- context [if ?b then _ else _] => destruct b end; intros H;
      try (injection H as <-); try (by apply outcome_psays); try (by apply two_links_says);
      first [exact (one_link_says sn (w, i) _ _ _ _ Ha H)|exact (one_link_says sn (w, i) _ _ _ _ Ho H)].
  - specialize (Ha a eq_refl). destruct (linked _); [by apply (one_link_says sn (w, i))|].
    intros [= <-]. by apply outcome_psays.
  - specialize (Ho o eq_refl). destruct (linked _); [by apply (one_link_says sn (w, i))|].
    intros [= <-]. by apply outcome_psays.
Qed.
Lemma proposal_says sn g authored observed_ key p : map_Forall (osays sn) authored → map_Forall (osays sn) observed_ →
  proposal_for cfg g authored observed_ key = Ok p → psays sn key p.
Proof.
  intros Ha Ho. unfold proposal_for. destruct (_ && _).
  - apply combined_says; intros x Hx; [by apply Ha|by apply Ho].
  - intros H. apply bind_Ok in H as (x & Hx & [= <-]). unfold _single. apply outcome_psays.
    destruct (authored !! key) eqn:E; [injection Hx as <-; by apply Ha|]. apply get_Ok in Hx. by apply Ho.
Qed.

(** The outcomes of the joins of open observations. *)
Lemma outcomes_says {Key} sn (name_of : Key → string) value_of (joins : list (Join Key)) os r reader out :
  (∀ j key v i ps, j ∈ joins → across sn value_of j v i ps → key.2 = i → j_where j = key.1 →
     on_join cfg sn key.1 (name_of (j_key j)) v i ps) →
  (∀ i, i ∈ os → ∃ s, observation s = i ∧ sn !! identity i = Some s) →
  reported_by name_of value_of joins os r →
  (∀ e k v, e ∈ r_unlinked r → reader e.1 e.2 = Ok (k, v) →
     ∃ j v', j ∈ joins ∧ j_where j = e.1 ∧ k = Some (name_of (j_key j)) ∧ v = Some v' ∧ across sn value_of j v' e.2 []) →
  _outcomes r reader = Ok out → map_Forall (osays sn) out.
Proof.
  intros Hjoin Hos [Hl Hc Hu] Hread. 
  assert (∀ side key v i, i ∈ Exact.holders value_of os side key v → delivered sn value_of side key v i) as Hheld.
  { intros side key v i (o & Ho & Hs & Hv & <-)%elem_of_holders. destruct (Hos o Ho) as (s & <- & Hsn). by exists s. }
  apply outcomes_ind.
  - intros l Hin. destruct (Hl l Hin) as (j & Hj & Hw & Hk & Hup & Hdown). apply Hheld in Hup, Hdown.
    assert (∀ i p, across sn value_of j (l_value l) i [p] → osays sn (l_where l, i) (LINKED, Some (l_key l), Some (l_value l), [p])) as H.
    { intros i p Ha. eexists _, _, _, _. split_and!; [done|left|eauto|]. rewrite <- Hk. by apply (Hjoin j (l_where l, i)). }
    split; apply H; [left|right]; (split; [done|]); by intros p ->%list_elem_of_singleton.
  - intros c Hin. destruct (Hc c Hin) as (j & Hj & Hw & Hk & Hup & Hdown).
    assert (∀ i ps, across sn value_of j (c_value c) i ps → osays sn (c_where c, i) (COLLIDED, Some (c_key c), Some (c_value c), ps)) as H.
    { intros i ps Ha. eexists _, _, _, _. split_and!; [done|right; left|done|]. rewrite <- Hk. by apply (Hjoin j (c_where c, i)). }
    rewrite Hup, Hdown. split; intros i Hi; apply H; [left|right]; (split; [by apply Hheld|]); intros; by apply Hheld.
  - intros e k v Hin Hv. destruct (Hread e k v Hin Hv) as (j & v' & Hj & Hw & -> & -> & Ha).
    eexists _, _, _, _. split_and!; [done|do 2 right; left|done|]. by apply (Hjoin j e).
Qed.

(** The joins of the settings are those of the topology, by name. *)
Record keyed : Prop := {
  kd_exact j : j ∈ exact_joins (topology cfg) → join_key cfg !! j_where j = Some (j_key j);
  kd_observed j : j ∈ observed_joins (topology cfg) → observed cfg !! j_where j = Some (j_key j)
}.
Context (Hkeyed : keyed).

Lemma exact_reported_by os r : exact_links (topology cfg) os = Ok r →
  ∃ distinct, (∀ o, o ∈ distinct → o ∈ os) ∧ reported_by id _value_of (exact_joins (topology cfg)) distinct r.
Proof.
  unfold exact_links. intros H. apply bind_Ok in H as ([distinct n] & Hd & [= <-]).
  apply deduplicated_spec in Hd as [_ Hd]. exists distinct. split; [by intros o ?%Hd|apply join_reported].
Qed.
Lemma observed_reported_by os r : observed_links (topology cfg) os = Ok r →
  ∃ distinct, (∀ o, o ∈ distinct → o ∈ os) ∧
    reported_by observed_key _composite_of (observed_joins (topology cfg)) distinct r.
Proof.
  unfold observed_links. intros H. apply bind_Ok in H as ([distinct n] & Hd & [= <-]).
  apply deduplicated_spec in Hd as [_ Hd]. exists distinct. split; [by intros o ?%Hd|apply join_reported].
Qed.

(** The observations of a group, read while they are open. *)
Definition opened g (os : list Observation) : Prop :=
  ∀ o, o ∈ os → ∃ s, observation s = o ∧ open g !! identity o = Some s.
Lemma opened_map g group os : (∀ i s, open g !! i = Some s → identity (observation s) = i) →
  map_res (λ i, s ← get (open g !! i) KeyError; Ok (observation s)) group = Ok os → opened g os.
Proof.
  intros Hg H o Hin. apply map_res_Forall2 in H. apply list_elem_of_lookup in Hin as [n Hn].
  destruct (Forall2_lookup_r _ _ _ _ _ H Hn) as (i & _ & E). apply bind_Ok in E as (s & E%get_Ok & [= <-]).
  exists s. split; [done|]. by rewrite (Hg _ _ E).
Qed.
Lemma opened_delivered sn g os o : groups_in sn g → opened g os → o ∈ os → ∃ s, observation s = o ∧ sn !! identity o = Some s.
Proof. intros Hg Ho Hin. destruct (Ho o Hin) as (s & E & Es). exists s. split; [done|by apply Hg]. Qed.
(** Whoever holds a value of a join is open, on an end of it. *)
Lemma holder_open {Key} g (value_of : Observation → Key → option string) (j : Join Key) v e os : opened g os →
  (e ∈ Exact.holders value_of os (j_up j) (j_key j) v ∨ e ∈ Exact.holders value_of os (j_down j) (j_key j) v) →
  ∃ s, open g !! e = Some s ∧ value_of (observation s) (j_key j) = Some v ∧
    (Exact.side_of (observation s) = j_up j ∨ Exact.side_of (observation s) = j_down j).
Proof.
  intros Ho [(o & Hin & Hs & Hv & <-)%elem_of_holders|(o & Hin & Hs & Hv & <-)%elem_of_holders];
    destruct (Ho o Hin) as (s & <- & E); eauto.
Qed.
Lemma open_across {Key} sn g (value_of : Observation → Key → option string) (j : Join Key) v e s : groups_in sn g →
  open g !! e = Some s → value_of (observation s) (j_key j) = Some v →
  (Exact.side_of (observation s) = j_up j ∨ Exact.side_of (observation s) = j_down j) → across sn value_of j v e [].
Proof.
  intros Hg Es Ev Hs. apply Hg in Es as [Es _].
  destruct Hs; [left|right]; (split; [by exists s|]); by intros p ?%not_elem_of_nil.
Qed.

(** The values an evaluation reads of what is unlinked, and the outcomes it reads. *)
Section readers.
Context (sn : gmap (string * Z) Seen) (g : Groups) (os : list Observation).
Context (Hg : groups_in sn g) (Hos : opened g os).

Lemma authored_reader r e : exact_links (topology cfg) os = Ok r → e ∈ r_unlinked r →
  ∃ j v, j ∈ exact_joins (topology cfg) ∧ j_where j = e.1 ∧ across sn _value_of j v e.2 [] ∧
    _authored_value cfg g e.1 e.2 = Ok (Some (j_key j), Some v).
Proof.
  intros (d & Hd & Hr)%exact_reported_by He. destruct (rb_unlinked _ _ _ _ _ Hr e He) as (j & v & Hj & Hw & Hend).
  apply (holder_open g) in Hend as (s & Es & Ev & Hs); [|intros o Ho; by apply Hos, Hd].
  exists j, v. split_and!; [done..|by eapply open_across|]. unfold _authored_value.
  rewrite <- Hw, (kd_exact Hkeyed _ Hj), Es. cbn [get mbind res_bind]. unfold _value_of in Ev. by rewrite Ev.
Qed.
Lemma observed_reader r e : observed_links (topology cfg) os = Ok r → e ∈ r_unlinked r →
  ∃ j v, j ∈ observed_joins (topology cfg) ∧ j_where j = e.1 ∧ across sn _composite_of j v e.2 [] ∧
    _observed_value cfg g e.1 e.2 = Ok (Some (observed_key (j_key j)), Some v).
Proof.
  intros (d & Hd & Hr)%observed_reported_by He. destruct (rb_unlinked _ _ _ _ _ Hr e He) as (j & v & Hj & Hw & Hend).
  apply (holder_open g) in Hend as (s & Es & Ev & Hs); [|intros o Ho; by apply Hos, Hd].
  exists j, v. split_and!; [done..|by eapply open_across|]. unfold _observed_value.
  rewrite <- Hw, (kd_observed Hkeyed _ Hj), Es. cbn [get mbind res_bind]. by rewrite Ev.
Qed.
Lemma authored_says r out : exact_links (topology cfg) os = Ok r → _outcomes r (_authored_value cfg g) = Ok out →
  map_Forall (osays sn) out.
Proof.
  intros Hr Hout. pose proof (authored_reader r) as Hread. pose proof Hr as (d & Hd & Hrep)%exact_reported_by.
  eapply outcomes_says; [| |exact Hrep| |exact Hout].
  - intros j key v i ps Hjn Ha <- E. left. by exists j.
  - intros o Ho. by eapply opened_delivered, Hd.
  - intros e k v He Hv. destruct (Hread e Hr He) as (j & v' & Hj & Hw & Ha & E). rewrite E in Hv.
    injection Hv as <- <-. by exists j, v'.
Qed.
Lemma observed_says r out : observed_links (topology cfg) os = Ok r → _outcomes r (_observed_value cfg g) = Ok out →
  map_Forall (osays sn) out.
Proof.
  intros Hr Hout. pose proof (observed_reader r) as Hread. pose proof Hr as (d & Hd & Hrep)%observed_reported_by.
  eapply outcomes_says; [| |exact Hrep| |exact Hout].
  - intros j key v i ps Hjn Ha <- E. right. by exists j.
  - intros o Ho. by eapply opened_delivered, Hd.
  - intros e k v He Hv. destruct (Hread e Hr He) as (j & v' & Hj & Hw & Ha & E). rewrite E in Hv.
    injection Hv as <- <-. by exists j, v'.
Qed.
End readers.
Lemma definitives_says sn g (out : gmap BusinessKey Outcome) : map_Forall (osays sn) out →
  map_Forall (osays sn) (map_imap (λ k x, Some (_definitive g k.1 x)) out).
Proof.
  intros H k x. rewrite map_lookup_imap. destruct (out !! k) as [y|] eqn:E; [|done]. intros [= <-].
  by apply definitive_says, H.
Qed.

Lemma evaluate_hist sn jn g h group g' h' : groups_in sn g → hist_ok sn h →
  _evaluate cfg jn g h group = Ok (g', h') → hist_ok sn h'.
Proof.
  intros Hg Hh H. unfold _evaluate in H.
  apply bind_Ok in H as (os & Hos & H). apply bind_Ok in H as (joined & Hj & H).
  apply bind_Ok in H as (outcomes & Ho & H). apply bind_Ok in H as (seen_ & Hs & H).
  apply bind_Ok in H as (observed_ & Hob & H). apply bind_Ok in H as (proposals & Hp & H).
  apply bind_Ok in H as ([ks h1] & Hf & H). apply bind_Ok in H as (g1 & _ & [= _ <-]).
  apply opened_map in Hos; [|by intros i s [_ ?]%Hg].
  set (g0 := note_crowded cfg g (r_collisions joined)) in *. assert (groups_in sn g0) as Hg0 by done.
  assert (opened g0 os) as Hos0 by done.
  pose proof (definitives_says _ g0 _ (authored_says _ _ _ Hg0 Hos0 _ _ Hj Ho)) as Ha.
  pose proof (observed_says _ _ _ Hg0 Hos0 _ _ Hs Hob) as Hb.
  apply evaluate_fold in Hf as [Hf _].
  eapply (fold_res_ind (hist_ok sn)) in Hf; [exact Hf|done|].
  intros [k p] h2 h3 Hkp Hh2 E. injection E as <-. apply propose_hist; [|done].
  apply map_res_Forall2 in Hp. apply list_elem_of_lookup in Hkp as [n Hn].
  destruct (Forall2_lookup_r _ _ _ _ _ Hp Hn) as (k' & _ & E). apply bind_Ok in E as (q & Hq & [= -> ->]).
  eapply proposal_says; [exact Ha|exact Hb|exact Hq].
Qed.
Lemma evaluate_open jn g h group g' h' : _evaluate cfg jn g h group = Ok (g', h') → open g' = open g.
Proof.
  intros H. unfold _evaluate in H. do 5 apply bind_Ok in H as (? & _ & H).
  apply bind_Ok in H as (? & _ & H). apply bind_Ok in H as ([ks h1] & _ & H).
  apply bind_Ok in H as (g1 & Hg1 & [= <- _]). revert Hg1. case_bool_decide; [by intros [= <-]|].
  intros Hg1. eapply (fold_res_ind (λ g1, open g1 = open g)) in Hg1; [exact Hg1|done|].
  intros i g2 g3 _ Eo Hs. apply _settle_if_decided_open in Hs as [Es _]. by rewrite Es.
Qed.

(** ** Closing *)

(** Closing writes what the current decisions already say, and opens nothing. *)
Definition kept sn g h g' h' : Prop := (hist_ok sn h → hist_ok sn h') ∧ open g' ⊆ open g.
Lemma kept_refl sn g h : kept sn g h g h.
Proof. done. Qed.
Lemma kept_trans sn g1 h1 g2 h2 g3 h3 : kept sn g1 h1 g2 h2 → kept sn g2 h2 g3 h3 → kept sn g1 h1 g3 h3.
Proof. intros [? ?] [? ?]. split; [auto|by etrans]. Qed.
Lemma groups_in_sub sn g g' : open g' ⊆ open g → groups_in sn g → groups_in sn g'.
Proof. intros Hs Hg i s Hi. apply Hg. by eapply lookup_weaken. Qed.

Lemma finalise_kept sn jn g h i forced g' h' ids : _finalise cfg jn g h i forced = Ok (g', h', ids) → kept sn g h g' h'.
Proof.
  unfold _finalise. intros H. apply bind_Ok in H as (ks & _ & H). apply bind_Ok in H as ([h1 finals] & Hf & H).
  apply bind_Ok in H as (s & _ & H). apply bind_Ok in H as (hs & _ & [= <- <- _]). split; [|apply delete_subseteq].
  intros Hh. rewrite (fold_res_ext _ (λ st k, p ← (d ← get (current st.1 !! k) KeyError; Ok (proposal_of d));
      let '(h, d) := _emit (position jn) st.1 k p true forced in
      Ok (h, st.2 ++ [decision_id d]))) in Hf.
  2: { intros st k _. by destruct (current st.1 !! k). }
  eapply (emits_hist sn _ (λ k, k) (λ h k, d ← get (current h !! k) KeyError; Ok (proposal_of d))) in Hf; [done| |done].
  intros h2 k q Hh2 _ Hq. apply bind_Ok in Hq as (d & Hd%get_Ok & [= <-]).
  destruct (ho_current _ _ Hh2 k d Hd) as [Hin <-]. by apply (ho_says _ _ Hh2).
Qed.
Lemma let_go_kept sn jn g h i forced g' h' : _let_go cfg jn g h i forced = Ok (g', h') → kept sn g h g' h'.
Proof.
  unfold _let_go. intros H. apply bind_Ok in H as (s & _ & H). apply bind_Ok in H as (cited & _ & H).
  apply bind_Ok in H as ([[g1 h1] ids] & Hf & H). apply bind_Ok in H as (h2 & Hp & [= <- <-]).
  apply (finalise_kept sn) in Hf as [Hh Ho]. split; [|done]. intros Hh0. eapply prove_hist; [|exact Hp]. auto.
Qed.
Lemma close_kept sn jn forced g h group g' h' : _close cfg jn forced (g, h) group = Ok (g', h') → kept sn g h g' h'.
Proof.
  unfold _close. intros H. apply bind_Ok in H as ([[[g1 h1] finals] whole] & Hf & H). cbn [fst snd] in Hf.
  assert (kept sn g h g1 h1) as Hk.
  { eapply (fold_res_ind (λ x : Groups * History * list string * list (string * Z), kept sn g h x.1.1.1 x.1.1.2)) in Hf;
      [exact Hf|apply kept_refl|].
    intros i [[[g2 h2] f2] w2] [[[g3 h3] f3] w3] _ Hk Hm. cbn [fst snd] in *. eapply kept_trans; [exact Hk|]. clear Hk.
    unfold close_member in Hm. apply bind_Ok in Hm as (s & _ & Hm).
    apply bind_Ok in Hm as ([[[g4 h4] f4] w4] & Hm & [= <- <- _ _]).
    destruct (bool_decide _); apply bind_Ok in Hm as (y & Hl & Hm).
    - destruct y as [g5 h5]. injection Hm as <- <- _ _. by apply (let_go_kept sn) in Hl.
    - destruct y as [[g5 h5] ids]. injection Hm as <- <- _ _. by apply (finalise_kept sn) in Hl. }
  destruct whole; [by injection H as <- <-|]. apply bind_Ok in H as (h2 & Hp & [= <- <-]). destruct Hk as [Hh Ho].
  split; [|done]. intros Hh0. eapply prove_hist; [|exact Hp]. auto.
Qed.
Lemma folds_kept {A} sn (f : Groups * History → A → res (Groups * History)) l g h g' h' :
  (∀ x g h g' h', f (g, h) x = Ok (g', h') → kept sn g h g' h') → fold_res f l (g, h) = Ok (g', h') → kept sn g h g' h'.
Proof.
  intros Hf H. eapply (fold_res_ind (λ x : Groups * History, kept sn g h x.1 x.2)) in H; [exact H|done|].
  intros x [g1 h1] [g2 h2] _ Hk Hx. eapply kept_trans; [exact Hk|by eapply Hf].
Qed.

(** ** Timed joins *)

Lemma timed_psays sn key v p : nameless → _timed_proposal v = Ok p → psays sn key p.
Proof.
  intros Hn. unfold _timed_proposal. destruct (v_reason v); [intros [= <-]; by apply other_psays; set_solver|].
  intros H. apply bind_Ok in H as (q & _ & [= <-]). split; simpl; eauto; done.
Qed.
Lemma over_joins_hist sn f h joins h' joins' : (∀ h e h' e', e ∈ joins → hist_ok sn h → f h e = Ok (h', e') → hist_ok sn h') →
  hist_ok sn h → over_joins f h joins = Ok (h', joins') → hist_ok sn h'.
Proof.
  intros Hf Hh H. unfold over_joins in H.
  eapply (fold_res_ind (λ x : History * odict string (JoinSettings * TimedJoin), hist_ok sn x.1)) in H; [exact H|done|].
  intros e [h1 l1] [h2 l2] Hin Hh1 He. apply bind_Ok in He as ([h3 e3] & He & [= <- _]). by eapply Hf.
Qed.
Lemma over_joins_nil f h joins h' joins' : over_joins f h joins = Ok (h', joins') → joins' ≠ [] → joins ≠ [].
Proof. intros H Hne ->. by injection H as _ <-. Qed.
Lemma enter_hist sn jn s h e h' e' : nameless → hist_ok sn h → enter_one cfg jn s h e = Ok (h', e') → hist_ok sn h'.
Proof.
  intros Hnl Hh. destruct e as [w [js j]]. unfold enter_one. destruct (side_in js (observation s)) as [side|]; [|by intros [= <- _]].
  assert (∀ r h' e', (p ← _timed_proposal (refused r);
      let '(h, d) := _emit (position jn) h (w, identity (observation s)) p true false in
      h ← _prove cfg jn h [identity (observation s)] [decision_id d] false None (Some js);
      Ok (h, (w, (js, j)))) = Ok (h', e') → hist_ok sn h') as Hwithout.
  { intros r h1 e1 H. apply bind_Ok in H as (p & Hp & H). rewrite (surjective_pairing (_emit _ _ _ _ _ _)) in H.
    apply bind_Ok in H as (h2 & Hpr & [= <- _]). eapply prove_hist; [|exact Hpr]. apply emit_hist; [|done].
    by eapply timed_psays. }
  destruct (start_us s) as [b|]; [|by apply Hwithout]. destruct (end_us s) as [n|]; [|by apply Hwithout].
  destruct (too_long js b n); [by apply Hwithout|].
  intros H. apply bind_Ok in H as ([j1 verdicts] & _ & H). apply bind_Ok in H as (h1 & Hf & [= <- _]).
  eapply (fold_res_ind (hist_ok sn)) in Hf; [exact Hf|done|].
  intros mv h2 h3 _ Hh2 E. apply bind_Ok in E as (p & Hp & [= <-]). apply propose_hist; [|done]. by eapply timed_psays.
Qed.
Lemma settle_hist sn jn w forced h e h' e' : nameless → hist_ok sn h → settle_one cfg jn w forced h e = Ok (h', e') → hist_ok sn h'.
Proof.
  intros Hnl Hh. destruct e as [wh [js j]]. unfold settle_one. intros H. apply bind_Ok in H as ([j1 closings] & _ & H).
  apply bind_Ok in H as (h1 & Hf & [= <- _]). eapply (fold_res_ind (hist_ok sn)) in Hf; [exact Hf|done|].
  intros c h2 h3 _ Hh2 E. apply bind_Ok in E as ([h4 finals] & Hf4 & Hp). eapply prove_hist; [|exact Hp].
  rewrite (fold_res_ext _ (λ st m, p ← (v ← get (od_get m (cl_verdicts c)) KeyError; _timed_proposal v);
      let '(h, d) := _emit (position jn) st.1 (wh, m) p true forced in
      Ok (h, st.2 ++ [decision_id d]))) in Hf4.
  2: { intros st m _. by destruct (od_get m (cl_verdicts c)). }
  eapply (emits_hist sn _ (λ m, (wh, m)) (λ _ m, v ← get (od_get m (cl_verdicts c)) KeyError; _timed_proposal v)) in Hf4;
    [done| |done].
  intros h5 m q _ _ Hq. apply bind_Ok in Hq as (v & _ & Hq). by eapply timed_psays.
Qed.

(** ** The journal *)

Record flow_true (st : Flow) : Prop := {
  ft_groups : groups_in (seen (journal st)) (groups st);
  ft_history : hist_ok (seen (journal st)) (history st);
  ft_timed : timed st ≠ [] → nameless
}.
(** Whoever the watermark has passed may be late. *)
Definition may_be_late (st : Flow) (s : Seen) : Prop :=
  seen (journal st) !! identity (observation s) = None →
  ∀ w f, _watermark cfg (journal st) = Ok (w, f) → at_us s < w → late (identity (observation s)).
Lemma late_psays sn i k v : late i → psays sn (""%string, i) (plain_proposal LATE k v []).
Proof. intros Hl. split; simpl; try done; intros ? H; try intros H2; exfalso; set_solver. Qed.
Lemma settle_true st st' : flow_true st → _settle cfg st = Ok st' → flow_true st' ∧ journal st' = journal st.
Proof.
  intros [Hg Hh Hnl] H. unfold _settle in H. apply bind_Ok in H as ([w forced] & _ & H).
  apply bind_Ok in H as ([g1 ripe] & Hr & H). apply bind_Ok in H as ([g2 h2] & Hc & H).
  apply bind_Ok in H as ([g3 h3] & Hl & H). apply bind_Ok in H as ([h4 joins] & Hm & [= <-]).
  unfold _ripe_groups in Hr. apply bind_Ok in Hr as ([g1' found] & Hr & [= -> _]). apply ripe_loop_open in Hr as [Eo _].
  apply (folds_kept (seen (journal st))) in Hc as [Hh2 Ho2]; [|intros ????? Hx; by eapply close_kept].
  apply (folds_kept (seen (journal st))) in Hl as [Hh3 Ho3]; [|intros ????? Hx; by eapply let_go_kept].
  split; [|done]. split; simpl.
  - eapply groups_in_sub; [|exact Hg]. simpl. rewrite <- Eo. by etrans.
  - eapply over_joins_hist; [|apply Hh3, Hh2, Hh|exact Hm]. intros h5 e h6 e' Hin ? ?. eapply settle_hist; [|done|done].
    apply Hnl. intros E. rewrite E in Hin. by apply not_elem_of_nil in Hin.
  - intros Hne. eapply Hnl, over_joins_nil; [exact Hm|done].
Qed.
Lemma seen_true st s st' : flow_true st → may_be_late st s → _seen cfg st s = Ok st' → flow_true st' ∧
  ∀ i x, seen (journal st') !! i = Some x → seen (journal st) !! i = Some x ∨ (x = s ∧ i = identity (observation s)).
Proof.
  intros [Hg Hh Hnl] Hlate H. unfold _seen in H. do 3 apply bind_Ok in H as (_ & _ & H). set (i := identity (observation s)) in *.
  destruct (seen (journal st) !! i) as [before|] eqn:Ei.
  { apply bind_Ok in H as (_ & _ & [= <-]). split; [by split|by left]. }
  apply bind_Ok in H as (is_late & Hl & H). apply bind_Ok in H as (jn & Hjn & H). apply _advance_seen in Hjn. simpl in Hjn.
  assert (seen (journal st) ⊆ seen jn) as Hsub by (rewrite Hjn; by apply insert_subseteq).
  assert (groups_in (seen jn) (groups st)) as Hg1.
  { intros k x Hk. destruct (Hg k x Hk). split; [by eapply lookup_weaken|done]. }
  assert (hist_ok (seen jn) (history st)) as Hh1 by by eapply hist_mono.
  assert (∀ k x, seen jn !! k = Some x → seen (journal st) !! k = Some x ∨ (x = s ∧ k = i)) as Hnew.
  { intros k x. rewrite Hjn, lookup_insert_Some. naive_solver. }
  destruct is_late.
  { injection H as <-. split; [|done]. split; simpl; [done| |done]. apply emit_hist; [|done]. apply late_psays.
    cbn [first_at] in Hl. destruct (first_at (journal st)) eqn:Ef; [|done]. apply bind_Ok in Hl as ([w f] & Hw & [= Hlt]).
    apply (Hlate Ei w f); [|by apply Z.ltb_lt]. rewrite <- Hw. unfold _watermark. cbn [first_at]. by rewrite Ef. }
  apply bind_Ok in H as ([h joins] & He & H).
  assert (hist_ok (seen jn) h) as Hh2.
  { eapply over_joins_hist; [|exact Hh1|exact He]. intros h5 e h6 e' Hin ? ?. eapply enter_hist; [|done|done].
    apply Hnl. intros E. rewrite E in Hin. by apply not_elem_of_nil in Hin. }
  assert (joins ≠ [] → nameless) as Hnl2 by (intros Hne; eapply Hnl, over_joins_nil; [exact He|done]).
  destruct (reused cfg (groups st) (observation s)) as [|[k v] rest].
  - apply bind_Ok in H as (group & _ & H). apply bind_Ok in H as ([g h1] & Hev & H).
    assert (groups_in (seen jn) (open_one cfg s (groups st))) as Hg2.
    { intros k x. simpl. rewrite lookup_insert_Some. intros [[<- <-]|[_ Hk]]; [|by apply Hg1].
      rewrite Hjn, lookup_insert_eq. done. }
    pose proof Hev as Hev'. apply (evaluate_hist (seen jn)) in Hev; [|done|done].
    apply (settle_true) in H as [H Ej]; [rewrite Ej; done|]. split; simpl; [|done|done].
    eapply groups_in_sub; [|exact Hg2]. by rewrite (evaluate_open _ _ _ _ _ _ Hev').
  - injection H as <-. split; [|done]. split; simpl; [done| |done]. apply emit_hist; [|done]. apply other_psays. set_solver.
Qed.
Lemma feed_true st e st' : flow_true st → (∀ s, e = ESeen s → may_be_late st s) → feed cfg st e = Ok st' → flow_true st' ∧
  ∀ i x, seen (journal st') !! i = Some x → seen (journal st) !! i = Some x ∨ (e = ESeen x ∧ i = identity (observation x)).
Proof.
  destruct e as [s|source until]; simpl; intros Ht Hlate H.
  - apply seen_true in H as [Ht' Hs]; [|done|by apply Hlate]. split; [done|]. intros i x Hx. destruct (Hs i x Hx) as [?|[-> ?]]; auto.
  - apply bind_Ok in H as (_ & _ & H). apply bind_Ok in H as (jn & Hjn & H).
    apply _advance_seen in Hjn. simpl in Hjn.
    apply settle_true in H as [H Ej]; [|destruct Ht; split; simpl; [by rewrite Hjn..|done]].
    split; [done|]. rewrite Ej. simpl. rewrite Hjn. by left.
Qed.
Lemma feeds_true entries st st' : (∀ i, late i) → flow_true st → fold_res (feed cfg) entries st = Ok st' → flow_true st' ∧
  ∀ i x, seen (journal st') !! i = Some x →
    seen (journal st) !! i = Some x ∨ (ESeen x ∈ entries ∧ i = identity (observation x)).
Proof.
  intros Hlate Ht. apply (fold_res_ind (λ st', flow_true st' ∧ ∀ i x, seen (journal st') !! i = Some x →
    seen (journal st) !! i = Some x ∨ (ESeen x ∈ entries ∧ i = identity (observation x)))); [split; [done|by left]|].
  intros e s1 s2 He [H1 Hs1] Hf. apply feed_true in Hf as [H2 Hs2]; [|done|intros ? _ _ ? ? _ _; apply Hlate]. split; [done|].
  intros i x Hx. destruct (Hs2 i x Hx) as [Hx1|[-> ?]]; auto.
Qed.
End history.

(** ** The topology *)

(** Joins have distinct names, and keys with a name. *)
Record plain (t : Topology) : Prop := {
  pl_exact : NoDup (j_where <$> exact_joins t);
  pl_observed : NoDup (j_where <$> observed_joins t);
  pl_key j : j ∈ exact_joins t → j_key j ≠ ""%string;
  pl_ids j : j ∈ observed_joins t → j_key j ≠ []
}.
Lemma foldl_named {A} (key : A → option string) (join : A → string → Join string) (l : list A) (m : gmap string string) :
  (∀ x k, x ∈ l → key x = Some k → k ≠ ""%string) → (∀ x k, j_key (join x k) = k) →
  foldl (λ m x, match named (key x) with Some k => <[j_where (join x k) := k]> m | None => m end) m l =
  foldl (λ m j, <[j_where j := j_key j]> m) m (omap (λ x, join x <$> key x) l).
Proof.
  intros Hk Hj. revert m. induction l as [|x l IH]; intros m; [done|]. cbn [foldl omap list_omap].
  rewrite IH by (intros; eapply Hk; [by right|done]). destruct (key x) as [k|] eqn:E; [|done]. simpl.
  rewrite bool_decide_eq_false_2 by (eapply Hk; [left|done]). simpl. by rewrite Hj.
Qed.
Lemma join_key_of_ok t : plain t → join_key_of t = foldl (λ m j, <[j_where j := j_key j]> m) ∅ (exact_joins t).
Proof.
  intros [_ _ Hk _]. unfold join_key_of, exact_joins. rewrite foldl_app.
  rewrite <- (foldl_named hc_key (λ h k, mkJoin (hop_where (hc_src h) (hc_dst h)) k
    (hc_src h, "outbound"%string) (hc_dst h, "inbound"%string))); [|..|done].
  2: { intros h k Hh E. specialize (Hk (mkJoin (hop_where (hc_src h) (hc_dst h)) k (hc_src h, "outbound"%string) (hc_dst h, "inbound"%string))).
    apply Hk. apply elem_of_app. left. apply list_elem_of_omap. exists h. by rewrite E. }
  rewrite <- (foldl_named cc_key (λ c k, mkJoin (cc_point c) k
    (cc_point c, "inbound"%string) (cc_point c, "outbound"%string))); [done| |done].
  intros c k Hc E. specialize (Hk (mkJoin (cc_point c) k (cc_point c, "inbound"%string) (cc_point c, "outbound"%string))).
  apply Hk. apply elem_of_app. right. apply list_elem_of_omap. exists c. by rewrite E.
Qed.
Lemma observed_of_ok t : plain t → observed_of t = foldl (λ m j, <[j_where j := j_key j]> m) ∅ (observed_joins t).
Proof.
  intros [_ _ _ Hk]. unfold observed_of, observed_joins.
  assert (∀ l (m : gmap string (list string)), (∀ h, h ∈ l → h ∈ t_hops t) →
    foldl (λ m h, match hc_observed h with
                | Some (i :: l) => <[hop_where (hc_src h) (hc_dst h) := i :: l]> m | _ => m end) m l =
    foldl (λ m j, <[j_where j := j_key j]> m) m
      (omap (λ hop, (λ key, mkJoin (hop_where (hc_src hop) (hc_dst hop)) key
                         (hc_src hop, "outbound"%string) (hc_dst hop, "inbound"%string)) <$> hc_observed hop) l)) as H.
  { induction l as [|h l IH]; intros m Hl; [done|]. cbn [foldl omap list_omap].
    rewrite IH by (intros; apply Hl; by right). destruct (hc_observed h) as [ids|] eqn:E; [|done]. simpl.
    destruct ids; [|done]. exfalso.
    apply (Hk (mkJoin (hop_where (hc_src h) (hc_dst h)) [] (hc_src h, "outbound"%string) (hc_dst h, "inbound"%string))); [|done].
    apply list_elem_of_omap. exists h. split; [apply Hl; left|]. by rewrite E. }
  by apply H.
Qed.
Lemma plain_keyed repr_str version t c : plain t → keyed (init_settings repr_str version t c).
Proof.
  intros Ht. split; simpl; intros j Hj.
  - rewrite join_key_of_ok by done. by apply (foldl_insert_lookup j_where j_key), Hj; apply Ht.
  - rewrite observed_of_ok by done. by apply (foldl_insert_lookup j_where j_key), Hj; apply Ht.
Qed.

(** ** Guarantees *)

(** C9: what a decision says was delivered.  In a flow over a topology whose joins have
    distinct names, take any decision ever written that links, collides or leaves unlinked
    an observation on a recorded value: it names a join, a key of that join and a value,
    the observation was delivered on one end of the join with that value, and each of its
    partners was delivered on the other end with the same value.  A link has exactly one
    partner. *)
Theorem flow_decisions_true repr_str version t entries c r d k : plain t →
  replay_flow repr_str version t entries c = Ok r → d ∈ result_decisions r →
  kind d ∈ [LINKED; COLLIDED; UNLINKED] → dkey d = Some k →
  (kind d = LINKED → ∃ p, partners d = [p]) ∧
  ∃ v sn, value d = Some v ∧
    (∀ i s, sn !! i = Some s → ESeen s ∈ entries ∧ i = identity (observation s)) ∧
    on_join (init_settings repr_str version t c) sn (business_key d).1 k v (business_key d).2 (partners d).
Proof.
  intros Ht H Hd Hk Ek. apply replay_run in H as (joins & st & _ & Hst & ->). simpl in Hd.
  apply (feeds_true _ (λ _, True) True) in Hst as [[_ Hh _] Hseen]; [|by apply plain_keyed|done|].
  - pose proof (ho_says _ _ _ _ _ Hh d Hd) as Hs. split; [apply (sy_link _ _ _ _ _ _ _ _ _ Hs)|].
    destruct (sy_join _ _ _ _ _ _ _ _ _ Hs k Ek Hk) as (v & Ev & Hj). exists v, (seen (journal st)). split_and!; [done| |done].
    intros i s Hi. destruct (Hseen i s Hi) as [Hi0|?]; [|done]. simpl in Hi0. by apply lookup_empty_Some in Hi0.
  - split; simpl; [intros ??; simpl; by intros ?%lookup_empty_Some|apply hist_init|done].
Qed.

(** ** Witnesses *)

Lemma flow_decisions_true_witness :
  ∃ d, result_decisions ex_result !! 7%nat = Some d ∧ (∃ p, partners d = [p]) ∧
    ∃ v sn, value d = Some v ∧ (∀ i s, sn !! i = Some s → ESeen s ∈ ex_entries ∧ i = identity (observation s)) ∧
      on_join (init_settings ex_repr "0.1.0" two_hops ex_config) sn (business_key d).1 "request_id" v (business_key d).2 (partners d).
Proof.
  destruct (result_decisions ex_result !! 7%nat) as [d|] eqn:E; [|exfalso; vm_compute in E; discriminate E].
  exists d. split; [reflexivity|].
  assert (kind d = LINKED ∧ dkey d = Some "request_id"%string) as [Hk Ek] by (vm_compute in E; injection E as <-; done).
  destruct (flow_decisions_true ex_repr "0.1.0" two_hops ex_entries ex_config ex_result d "request_id") as [Hl H].
  - split; [apply (bool_decide_eq_true_1 (NoDup _)); vm_compute; reflexivity|apply (bool_decide_eq_true_1 (NoDup _)); vm_compute; reflexivity| |].
    + apply Forall_forall, (bool_decide_eq_true_1 (Forall (λ j, j_key j ≠ ""%string) (exact_joins two_hops))). vm_compute. reflexivity.
    + apply Forall_forall, (bool_decide_eq_true_1 (Forall (λ j, j_key j ≠ []) (observed_joins two_hops))). vm_compute. reflexivity.
  - exact flow_ex_replay.
  - by apply list_elem_of_lookup_2 in E.
  - rewrite Hk. left.
  - exact Ek.
  - split; [by apply Hl|exact H].
Defined.
