(* ===== verification/FlowProgress.v ===== *)
(** * FlowProgress: a flow always answers, and settles what time has passed

    The bookkeeping of the open groups never fails, and what has waited long enough is
    final.  The open observations are connected by the values they share; [_group_of]
    gathers exactly the component of an observation; each component keeps its latest
    member in the queue until it is closed. *)

From S2P Require Import Prelude Digest Topology Dedup Assignment Timing FlowTimed Exact Flow FlowTheorems FlowSound.

Notation BusinessKey := (string * (string * Z))%type (only parsing).

Section progress.
Context (cfg : Settings).
Implicit Types (g : Groups) (h : History) (jn : Journal) (i : string * Z) (v : string * string).

(** ** Components *)

Definition vals (s : Seen) : list (string * string) := _values cfg (observation s).
Definition sharing g x y : Prop :=
  ∃ s s' v, open g !! x = Some s ∧ open g !! y = Some s' ∧ v ∈ vals s ∧ v ∈ vals s'.
Notation connected g := (rtc (sharing g)).

(** The index of the holders is that of the open values; what is settled has one value. *)
Record indexed g : Prop := {
  ix_holders v i : i ∈ default ∅ (holders g !! v) ↔ ∃ s, open g !! i = Some s ∧ v ∈ vals s;
  ix_settled i s : i ∈ settled g → open g !! i = Some s → ∃ v, vals s = [v]
}.
Lemma held_by g v i s : indexed g → open g !! i = Some s → v ∈ vals s → ∃ held, holders g !! v = Some held ∧ i ∈ held.
Proof.
  intros [Hh _] Hi Hv. assert (i ∈ default ∅ (holders g !! v)) as H by (apply Hh; eauto).
  destruct (holders g !! v) as [held|]; [eauto|]. by apply elem_of_empty in H.
Qed.
Lemma sharing_sym g x y : sharing g x y → sharing g y x.
Proof. intros (s & s' & v & ? & ? & ? & ?). by exists s', s, v. Qed.
Global Instance sharing_symmetric g : Symmetric (sharing g).
Proof. intros x y. apply sharing_sym. Qed.
Lemma sharing_open g x y : sharing g x y → is_Some (open g !! x) ∧ is_Some (open g !! y).
Proof. intros (s & s' & v & ? & ? & _). eauto. Qed.
Lemma connected_open g x y : connected g x y → is_Some (open g !! x) → is_Some (open g !! y).
Proof. induction 1 as [|x y z Hxy _ IH]; [done|]. intros _. apply IH. by apply sharing_open in Hxy as [_ ?]. Qed.

(** ** Gathering *)

(** A partial search: everything reached is connected, and what is not waiting in [todo]
    has all its neighbours reached. *)
Record reached g i (group : gset (string * Z)) (todo : list (string * Z)) (except : string * Z → Prop) : Prop := {
  rc_in x : x ∈ group → connected g i x ∧ is_Some (open g !! x);
  rc_todo x : x ∈ todo → x ∈ group;
  rc_closed x y : x ∈ group → x ∉ todo → ¬ except x → sharing g x y → y ∈ group
}.
Definition left_to_visit g (group : gset (string * Z)) (todo : list (string * Z)) : nat :=
  (length todo + size (dom (open g) ∖ group))%nat.

Lemma gather_value g i x s group todo v : indexed g → open g !! x = Some s → x ∈ group → v ∈ vals s →
  reached g i group todo (eq x) → ∃ held, holders g !! v = Some held ∧
    let group' := group ∪ (held ∖ group) in
    let todo' := reverse (elements ((held ∖ group) ∖ settled g)) ++ todo in
    reached g i group' todo' (eq x) ∧ (∀ y s', open g !! y = Some s' → v ∈ vals s' → y ∈ group') ∧
    (left_to_visit g group' todo' <= left_to_visit g group todo)%nat.
Proof.
  intros Hg Hx Hxg Hv [Hin Htodo Hcl]. destruct (held_by g v x s Hg Hx Hv) as (held & Eh & _). exists held. split; [done|].
  assert (∀ y, y ∈ held ↔ ∃ s, open g !! y = Some s ∧ v ∈ vals s) as Hheld.
  { intros y. rewrite <- (ix_holders g Hg v y), Eh. done. }
  cbv zeta. set (new := held ∖ group).
  assert (∀ y s', open g !! y = Some s' → v ∈ vals s' → y ∈ group ∪ new) as Hall.
  { intros y s' Hy Hvy. assert (y ∈ held) by (apply Hheld; eauto). destruct (decide (y ∈ group)); set_solver. }
  split_and!; [split|done|].
  - intros y [Hy|Hy]%elem_of_union; [by apply Hin|]. apply elem_of_difference in Hy as [Hy _].
    apply Hheld in Hy as (s' & Hy & Hvy). split; [|eauto]. etrans; [apply Hin, Hxg|]. apply rtc_once. by exists s, s', v.
  - intros y. rewrite elem_of_app, elem_of_reverse, elem_of_elements. intros [?|?%Htodo]; set_solver.
  - intros y z Hy Hny Hex Hyz. rewrite elem_of_app, elem_of_reverse, elem_of_elements in Hny.
    apply elem_of_union in Hy as [Hy|Hy]; [apply elem_of_union_l; by eapply Hcl; [..|exact Hyz]; [|set_solver|]|].
    assert (y ∈ settled g) as Hset by (destruct (decide (y ∈ settled g)); [done|]; set_solver).
    apply elem_of_difference in Hy as [Hy _]. apply Hheld in Hy as (s' & Hy & Hvy).
    destruct (ix_settled g Hg y s' Hset Hy) as [w Hw]. rewrite Hw in Hvy. apply list_elem_of_singleton in Hvy as <-.
    destruct Hyz as (s1 & s2 & w' & Hy1 & Hz & Hw1 & Hw2). simplify_eq. rewrite Hw in Hw1.
    apply list_elem_of_singleton in Hw1 as ->. by eapply Hall.
  - unfold left_to_visit. rewrite length_app, length_reverse.
    change (length (elements (new ∖ settled g))) with (size (new ∖ settled g)).
    assert (dom (open g) ∖ group = (dom (open g) ∖ (group ∪ new)) ∪ new) as E.
    { apply set_eq. intros y. rewrite elem_of_union, !elem_of_difference, elem_of_union. split.
      - intros [? ?]. destruct (decide (y ∈ new)); [by right|left; naive_solver].
      - intros [[? ?]|Hy]; [naive_solver|]. apply elem_of_difference in Hy as [Hy ?]. split; [|done].
        apply Hheld in Hy as (s' & Hy & _). apply elem_of_dom. eauto. }
    assert (size (new ∖ settled g) <= size new)%nat by (apply subseteq_size; set_solver).
    pose proof (size_union (dom (open g) ∖ (group ∪ new)) new ltac:(set_solver)) as Es. rewrite E. lia.
Qed.

Lemma gather_values g i x s : indexed g → open g !! x = Some s → ∀ vs group todo, (∀ v, v ∈ vs → v ∈ vals s) →
  x ∈ group → reached g i group todo (eq x) → ∃ group' todo',
    fold_res (λ st value, held ← get (holders g !! value) KeyError;
      let new := held ∖ st.1 in
      Ok (st.1 ∪ new, reverse (elements (new ∖ settled g)) ++ st.2)) vs (group, todo) = Ok (group', todo') ∧
    group ⊆ group' ∧ reached g i group' todo' (eq x) ∧
    (∀ v y s', v ∈ vs → open g !! y = Some s' → v ∈ vals s' → y ∈ group') ∧
    (left_to_visit g group' todo' <= left_to_visit g group todo)%nat.
Proof.
  intros Hg Hx. induction vs as [|v vs IH]; intros group todo Hvs Hxg Hr.
  { exists group, todo. split_and!; [done|done|done|by intros ??? ?%not_elem_of_nil|lia]. }
  destruct (gather_value g i x s group todo v Hg Hx Hxg ltac:(apply Hvs; left) Hr) as (held & Eh & Hr1 & Hall & Hm).
  destruct (IH (group ∪ (held ∖ group)) (reverse (elements ((held ∖ group) ∖ settled g)) ++ todo))
    as (group' & todo' & Hf & Hsub & Hr' & Hall' & Hm'); [intros; apply Hvs; by right|set_solver|done|].
  exists group', todo'. cbn [fold_res fst snd]. rewrite Eh. cbn [get mbind res_bind].
  split_and!; [exact Hf|set_solver|done| |lia].
  intros w y s' [-> |Hw]%elem_of_cons Hy Hwy; [|by eapply Hall']. apply Hsub. by eapply Hall.
Qed.

Lemma gather_ok g i fuel group todo : indexed g → (left_to_visit g group todo <= fuel)%nat →
  reached g i group todo (λ _, False) → ∃ group', gather cfg fuel g group todo = Ok group' ∧ group ⊆ group' ∧
    reached g i group' [] (λ _, False).
Proof.
  intros Hg. revert group todo. induction fuel as [|fuel IH]; intros group todo Hm Hr.
  { destruct todo as [|x todo]; [by exists group|]. unfold left_to_visit in Hm. simpl in Hm. lia. }
  destruct todo as [|x todo]; [by exists group|].
  assert (x ∈ group) as Hxg by (apply (rc_todo _ _ _ _ _ Hr); left).
  destruct (rc_in _ _ _ _ _ Hr x Hxg) as [_ [s Hx]]. cbn [gather]. rewrite Hx. cbn [get mbind res_bind].
  assert (reached g i group todo (eq x)) as Hr0.
  { destruct Hr as [H1 H2 H3]. split; [done|intros; apply H2; by right|].
    intros y z Hy Hny Hne. apply H3; [done| |tauto]. rewrite elem_of_cons. naive_solver. }
  destruct (gather_values g i x s Hg Hx (_values cfg (observation s)) group todo (λ _ H, H) Hxg Hr0)
    as (group' & todo' & Hf & Hsub & Hr' & Hall & Hm'). cbv zeta in Hf. rewrite Hf. cbn [mbind res_bind].
  destruct (IH group' todo') as (group'' & E & Hsub' & Hr'').
  - unfold left_to_visit in *. simpl in Hm. lia.
  - destruct Hr' as [H1 H2 H3]. split; [done|done|]. intros y z Hy Hny _ Hyz.
    destruct (decide (x = y)) as [<- |Hne]; [|by eapply H3; [..|exact Hyz]].
    destruct Hyz as (s1 & s2 & v & Hx1 & Hz & Hv1 & Hv2). rewrite Hx in Hx1. injection Hx1 as <-. by eapply Hall.
  - exists group''. split_and!; [done|by etrans|done].
Qed.

(** [_group_of] is the component, sorted. *)
Definition component g i (S : gset (string * Z)) : Prop := ∀ x, x ∈ S ↔ connected g i x.
Lemma group_of_ok g i : indexed g → is_Some (open g !! i) →
  ∃ S, component g i S ∧ _group_of cfg g i = Ok (sorted (elements S)).
Proof.
  intros Hg Hi. destruct (gather_ok g i (S (size (open g))) {[i]} [i] Hg) as (group & E & Hsub & Hr).
  - unfold left_to_visit. simpl. assert (size (dom (open g) ∖ {[i]}) <= size (dom (open g)))%nat by (apply subseteq_size; set_solver).
    rewrite size_dom in H. lia.
  - split; [intros x ->%elem_of_singleton; split; [done|done]|intros x ->%list_elem_of_singleton; set_solver|].
    intros x y ->%elem_of_singleton Hn. exfalso. apply Hn. left.
  - exists group. unfold _group_of. rewrite E. split; [|done]. intros x. split; [intros Hx; by apply (rc_in _ _ _ _ _ Hr)|].
    revert x. apply (rtc_ind_r (λ x, x ∈ group)); [set_solver|]. intros y z Hiy Hyz IH.
    eapply (rc_closed _ _ _ _ _ Hr y); [done|by intros ?%not_elem_of_nil|tauto|done].
Qed.
Lemma component_unique g i j S S' x : component g i S → component g j S' → x ∈ S → x ∈ S' → S = S'.
Proof.
  intros HS HS' Hx Hx'. apply HS in Hx. apply HS' in Hx'. apply set_eq. intros y. rewrite (HS y), (HS' y).
  split; intros Hy; (etrans; [eassumption|]); (etrans; [|exact Hy]); by symmetry.
Qed.
Lemma elem_of_group (S : gset (string * Z)) x : x ∈ sorted (elements S) ↔ x ∈ S.
Proof. unfold sorted. by rewrite elem_of_sorted_by, elem_of_elements. Qed.
Lemma group_NoDup (S : gset (string * Z)) : NoDup (sorted (elements S)).
Proof. unfold sorted. rewrite sorted_by_perm. apply NoDup_elements. Qed.

(** ** Evaluation always answers *)

Context (Hkeyed : keyed cfg) (Hpoints : points cfg = point_names (topology cfg)).
Context (Hdistinct : ∀ o, NoDup (_values cfg o)).

(** Open observations are valid and under their own name. *)
Record sound_groups g : Prop := {
  sg_in i s : open g !! i = Some s → identity (observation s) = i;
  sg_valid i s : open g !! i = Some s → _validate (points cfg) (observation s) = Ok tt
}.
Lemma sound_in g : sound_groups g → groups_in (open g) g.
Proof. intros [H _] i s Hi. split; [done|by apply H]. Qed.

Lemma open_observations g group : (∀ i, i ∈ group → is_Some (open g !! i)) → sound_groups g → NoDup group →
  ∃ os, map_res (λ i, s ← get (open g !! i) KeyError; Ok (observation s)) group = Ok os ∧ opened g os ∧
    NoDup (identity <$> os) ∧ ∀ o, o ∈ os → _validate (points cfg) o = Ok tt.
Proof.
  intros Hopen Hg Hnd. destruct (map_res_total (λ i, s ← get (open g !! i) KeyError; Ok (observation s)) group) as [os E].
  { intros i [s Hs]%Hopen. rewrite Hs. by eexists. }
  exists os. pose proof (opened_map g group os (sg_in g Hg) E) as Ho. split_and!; [done|done| |].
  - assert (identity <$> os = group) as ->; [|done]. apply map_res_Forall2 in E. induction E as [|i o l k Hio _ IH]; [done|].
    rewrite fmap_cons, IH; [|intros; apply Hopen; by right|by apply NoDup_cons in Hnd as [_ ?]|].
    + apply bind_Ok in Hio as (s & Hs%get_Ok & [= <-]). by rewrite (sg_in g Hg i s Hs).
    + intros x Hx. apply Ho. by right.
  - intros o Hin. destruct (Ho o Hin) as (s & <- & Es). by eapply (sg_valid g Hg).
Qed.

Lemma outcomes_total r reader : (∀ e, e ∈ r_unlinked r → ∃ kv, reader e.1 e.2 = Ok kv) → ∃ out, _outcomes r reader = Ok out.
Proof.
  intros H. unfold _outcomes. apply fold_res_total. intros out e He. destruct (H e He) as [[k v] ->]. by eexists.
Qed.

(** Both ways of joining, read in the same groups. *)
Lemma deduplicated_total os : NoDup (identity <$> os) → (∀ o, o ∈ os → _validate (points cfg) o = Ok tt) →
  ∃ distinct n, _deduplicated (topology cfg) os = Ok (distinct, n).
Proof.
  intros Hnd Hv. unfold _deduplicated. apply (deduplicate_total _ _ _ obs_content_inj).
  - apply Forall_forall. intros o Ho. rewrite <- Hpoints. by apply Hv.
  - intros a b Ha Hb E. f_equal. by apply (NoDup_fmap_inj _ _ _ _ Hnd Ha Hb).
Qed.
Lemma signals_total g group : (∀ i, i ∈ group → is_Some (open g !! i)) → sound_groups g → NoDup group →
  ∃ os joined outcomes seen_ observed_,
    map_res (λ i, s ← get (open g !! i) KeyError; Ok (observation s)) group = Ok os ∧
    exact_links (topology cfg) os = Ok joined ∧
    let g' := note_crowded cfg g (r_collisions joined) in
    _outcomes joined (_authored_value cfg g') = Ok outcomes ∧ observed_links (topology cfg) os = Ok seen_ ∧
    _outcomes seen_ (_observed_value cfg g') = Ok observed_ ∧
    map_Forall (osays cfg (open g)) outcomes ∧ map_Forall (osays cfg (open g)) observed_.
Proof.
  intros Hopen Hg Hnd. destruct (open_observations g group Hopen Hg Hnd) as (os & E & Ho & Hn & Hv).
  destruct (deduplicated_total os Hn Hv) as (d & n & Hd).
  assert (∃ joined, exact_links (topology cfg) os = Ok joined) as [joined Hj] by (unfold exact_links; rewrite Hd; by eexists).
  assert (∃ seen_, observed_links (topology cfg) os = Ok seen_) as [seen_ Hs] by (unfold observed_links; rewrite Hd; by eexists).
  set (g' := note_crowded cfg g (r_collisions joined)).
  assert (groups_in (open g) g') as Hg' by by apply (sound_in g). assert (opened g' os) as Ho' by done.
  destruct (outcomes_total joined (_authored_value cfg g')) as [out Hout].
  { intros e He. destruct (authored_reader cfg Hkeyed _ g' os Hg' Ho' joined e Hj He) as (j & v & _ & _ & _ & ->). eauto. }
  destruct (outcomes_total seen_ (_observed_value cfg g')) as [obs Hobs].
  { intros e He. destruct (observed_reader cfg Hkeyed _ g' os Hg' Ho' seen_ e Hs He) as (j & v & _ & _ & _ & ->). eauto. }
  exists os, joined, out, seen_, obs. split; [done|]. split; [done|]. cbv zeta. split_and!; [done|done|done| |].
  - exact (authored_says cfg Hkeyed _ g' os Hg' Ho' joined out Hj Hout).
  - exact (observed_says cfg Hkeyed _ g' os Hg' Ho' seen_ obs Hs Hobs).
Qed.

(** What an outcome names is open. *)
Lemma osays_open g key (x : Outcome) : osays cfg (open g) key x → is_Some (open g !! key.2) ∧ ∀ p, p ∈ x.2 → is_Some (open g !! p).
Proof.
  intros (k & n & v & ps & -> & _ & _ & Hj). simpl.
  assert (∀ Key (value_of : Observation → Key → option string) j, across (open g) value_of j v key.2 ps →
    is_Some (open g !! key.2) ∧ ∀ p, p ∈ ps → is_Some (open g !! p)) as Ha.
  { intros Key value_of j [[(s & Hs & _) Hp]|[(s & Hs & _) Hp]]; (split; [by eexists|]);
      intros p Hin; destruct (Hp p Hin) as (s' & Hs' & _); by eexists. }
  destruct Hj as [(j & _ & _ & _ & H)|(j & _ & _ & _ & H)]; by eapply Ha.
Qed.

(** Whether an end records the other signal can always be read. *)
Lemma has_total g w i : is_Some (observed cfg !! w) → is_Some (join_key cfg !! w) → is_Some (open g !! i) →
  (∃ b, _has_authored cfg g w i = Ok b) ∧ ∃ b, _has_observed cfg g w i = Ok b.
Proof.
  intros [ids Hi] [k Hk] [s Hs]. unfold _has_authored, _has_observed. rewrite Hi, Hk, Hs. simpl. eauto.
Qed.
Lemma one_link_total g key (x : Outcome) e (other : string → string * Z → res bool) : osays cfg (open g) key x →
  (∀ i, is_Some (open g !! i) → ∃ b, other key.1 i = Ok b) → ∃ p, one_link key.1 key.2 x e other = Ok p.
Proof.
  intros Hx Hother. apply osays_open in Hx as [Hi Hps]. unfold one_link.
  destruct (map_res_total (λ j, b ← other key.1 j; Ok (j, b)) (key.2 :: o_partners x)) as [has ->].
  { intros j Hj. destruct (Hother j) as [b ->]; [|by eexists]. apply elem_of_cons in Hj as [-> |Hj]; [done|by apply Hps]. }
  simpl. destruct (sorted _); [|by eexists]. destruct x as [[[k n] v] ps]. by eexists.
Qed.
Lemma proposal_total g (authored observed_ : gmap BusinessKey Outcome) key :
  map_Forall (osays cfg (open g)) authored → map_Forall (osays cfg (open g)) observed_ →
  key ∈ dom authored ∪ dom observed_ → ∃ p, proposal_for cfg g authored observed_ key = Ok p.
Proof.
  intros Ha Ho Hk. unfold proposal_for. apply elem_of_union in Hk. rewrite !elem_of_dom in Hk.
  destruct (bool_decide (is_Some (observed cfg !! key.1)) && bool_decide (is_Some (join_key cfg !! key.1))) eqn:E.
  - apply andb_true_iff in E as [E1%bool_decide_eq_true E2%bool_decide_eq_true]. destruct key as [w i]. unfold _combined.
    assert (∀ j, is_Some (open g !! j) → ∃ b, _has_authored cfg g w j = Ok b) as HA by (intros; by apply has_total).
    assert (∀ j, is_Some (open g !! j) → ∃ b, _has_observed cfg g w j = Ok b) as HO by (intros; by apply has_total).
    destruct (authored !! (w, i)) as [a|] eqn:Ea, (observed_ !! (w, i)) as [o|] eqn:Eo.
    + specialize (Ha _ _ Ea). specialize (Ho _ _ Eo).
      destruct (collided (Some a)); [by eexists|]. destruct (collided (Some o)); [by eexists|].
      destruct (linked (Some a)), (linked (Some o)); cbn [andb]; [by eexists| | |by eexists].
      * exact (one_link_total g (w, i) a AUTHORED _ Ha HO).
      * exact (one_link_total g (w, i) o OBSERVED _ Ho HA).
    + destruct (linked _); [exact (one_link_total g (w, i) _ _ _ (Ha _ _ Ea) HO)|by eexists].
    + destruct (linked _); [exact (one_link_total g (w, i) _ _ _ (Ho _ _ Eo) HA)|by eexists].
    + destruct Hk as [[? ?]|[? ?]]; done.
  - destruct (authored !! key) as [a|] eqn:Ea; simpl; [by eexists|]. destruct Hk as [[? ?]|[o ->]]; [done|by eexists].
Qed.

(** ** The watermark *)

Context (Hcheck : _check (config cfg) = Ok tt).

Lemma checked : (∀ b, max_silence_us (config cfg) = Some b → 1 <= b) ∧ 0 <= lateness_us (config cfg) ∧ sources (config cfg) ≠ [].
Proof.
  unfold _check in Hcheck. apply bind_Ok in Hcheck as ([] & H1%check_Ok & H).
  apply bind_Ok in H as ([] & _ & H). apply bind_Ok in H as ([] & H2%check_Ok & H).
  apply bind_Ok in H as ([] & H3%check_Ok & _). split_and!.
  - intros b Eb. rewrite Eb in H3. by apply Z.leb_le.
  - by apply Z.leb_le.
  - intros E. rewrite E in H1. done.
Qed.
(** The journal has been told something. *)
Definition told jn : Prop := is_Some (first_at jn) ∧ progress jn ≠ [].
Lemma watermark_total jn : told jn → ∃ w f, _watermark cfg jn = Ok (w, f).
Proof.
  intros [[f Hf] Hp]. unfold _watermark. rewrite Hf. cbn [get mbind res_bind].
  destruct (effective_progress jn f) as [|e es] eqn:E.
  { unfold effective_progress in E. by destruct (progress jn). }
  destruct checked as (Hb & _ & _).
  set (holding := List.filter _ _). assert (max_of e es ∈ holding) as Hin.
  { apply elem_of_filter_bool. split; [apply max_of_elem|]. destruct (max_silence_us (config cfg)) as [b|]; [|done].
    apply Z.leb_le. specialize (Hb b eq_refl). lia. }
  destruct holding as [|h hs]; [by apply not_elem_of_nil in Hin|]. eauto.
Qed.

(** ** The books: what the groups, the history and the journal owe each other *)

Record books jn g h : Prop := {
  bk_groups : sound_groups g;
  bk_indexed : indexed g;
  bk_keys i : is_Some (open g !! i) → is_Some (keys_of g !! i);
  bk_owned i ks k : keys_of g !! i = Some ks → k ∈ ks → k.2 = i ∧ is_Some (current h !! k);
  bk_placed i : is_Some (open g !! i) → is_Some (positions jn !! i);
  bk_pending : StronglySorted (key_le id) (pending g);
  bk_queued a i : (a, i) ∈ pending g → ∃ s, open g !! i = Some s ∧ at_us s = a;
  bk_unfinal k d : current h !! k = Some d → status d ≠ FINAL →
    is_Some (open g !! k.2) ∧ ∃ ks, keys_of g !! k.2 = Some ks ∧ k ∈ ks
}.
(** What is due is settled, and past the watermark. *)
Definition due_ok (w : Z) g : Prop :=
  ∀ i s, i ∈ due g → open g !! i = Some s → i ∈ settled g ∧ at_us s + window_us (config cfg) < w.

(** Proposals are written under keys that the books own. *)
Record adds (new : list BusinessKey) (ks : gmap (string * Z) (gset BusinessKey)) h (ks' : gmap (string * Z) (gset BusinessKey)) h' : Prop := {
  ad_keys i s : ks !! i = Some s → ∃ s', ks' !! i = Some s' ∧ s ⊆ s';
  ad_owned i s' k : ks' !! i = Some s' → k ∈ s' → (∃ s, ks !! i = Some s ∧ k ∈ s) ∨ (k.2 = i ∧ is_Some (current h' !! k));
  ad_current k : is_Some (current h !! k) → is_Some (current h' !! k);
  ad_new k d : current h' !! k = Some d → current h !! k = Some d ∨ (k ∈ new ∧ ∃ s', ks' !! k.2 = Some s' ∧ k ∈ s')
}.
Lemma propose_current at_ h key p : is_Some (current (propose at_ h key p) !! key) ∧
  ∀ k, k ≠ key → current (propose at_ h key p) !! k = current h !! k.
Proof.
  assert (is_Some (current (_emit at_ h key p false false).1 !! key) ∧
    ∀ k, k ≠ key → current (_emit at_ h key p false false).1 !! k = current h !! k) as He.
  { simpl. rewrite lookup_insert_eq. split; [eauto|]. intros k Hk. by rewrite lookup_insert_ne. }
  unfold propose. destruct (current h !! key) as [d|] eqn:E; [|done]. case_bool_decide; [|done]. rewrite E. eauto.
Qed.
Lemma proposes_total jn (proposals : list (BusinessKey * Proposal)) : ∀ ks h, (∀ kp, kp ∈ proposals → is_Some (ks !! kp.1.2)) →
  ∃ ks' h', fold_res (λ st kp, mine ← get (st.1 !! kp.1.2) KeyError;
      Ok (<[kp.1.2 := {[kp.1]} ∪ mine]> st.1, propose (position jn) st.2 kp.1 kp.2)) proposals (ks, h) = Ok (ks', h') ∧
    adds proposals.*1 ks h ks' h'.
Proof.
  induction proposals as [|[k p] l IH]; intros ks h Hk.
  { exists ks, h. split; [done|]. split; eauto. }
  destruct (Hk (k, p) ltac:(left)) as [mine Hm]. cbn [fst snd] in Hm.
  set (ks1 := <[k.2 := {[k]} ∪ mine]> ks). set (h1 := propose (position jn) h k p).
  destruct (IH ks1 h1) as (ks' & h' & Hf & [A1 A2 A3 A4]).
  { intros kp Hin. unfold ks1. destruct (decide (k.2 = kp.1.2)) as [E|E]; [rewrite E, lookup_insert_eq; eauto|].
    rewrite lookup_insert_ne by done. apply Hk. by right. }
  destruct (propose_current (position jn) h k p) as [Hc Hne]. fold h1 in Hc, Hne.
  exists ks', h'. cbn [fold_res fst snd]. rewrite Hm. cbn [get mbind res_bind]. split; [exact Hf|]. split.
  - intros i s Hi. destruct (decide (k.2 = i)) as [<- |E].
    + destruct (A1 k.2 ({[k]} ∪ mine)) as (s' & ? & ?); [by apply lookup_insert_eq|]. exists s'. split; [done|]. simplify_eq. set_solver.
    + apply A1. unfold ks1. by rewrite lookup_insert_ne.
  - intros i s' k' Hi Hk'. destruct (A2 i s' k' Hi Hk') as [(s & Hs & Hin)|?]; [|by right].
    apply lookup_insert_Some in Hs as [[<- <-]|[_ Hs]]; [|by left; eauto].
    apply elem_of_union in Hin as [->%elem_of_singleton |Hin]; [right; split; [done|by apply A3]|left; eauto].
  - intros k' Hk'. apply A3. destruct (decide (k' = k)) as [-> |E]; [done|by rewrite Hne].
  - intros k' d Hd. rewrite fmap_cons. destruct (A4 k' d Hd) as [H1|[? ?]]; [|right; split; [by right|done]].
    destruct (decide (k' = k)) as [-> |E]; [|left; by rewrite <- Hne].
    right. split; [left|]. destruct (A1 k.2 ({[k]} ∪ mine)) as (s' & Hs' & ?); [by apply lookup_insert_eq|].
    exists s'. split; [done|set_solver].
Qed.

(** Settling a decided member changes what is settled and due, and nothing else. *)
Record only_settles w g g' : Prop := {
  os_same : open g' = open g ∧ keys_of g' = keys_of g ∧ holders g' = holders g ∧ pending g' = pending g;
  os_settled : settled g' ⊆ settled g ∪ dom (open g);
  os_indexed : indexed g → indexed g';
  os_due : due_ok w g → due_ok w g'
}.
Lemma only_settles_refl w g : only_settles w g g.
Proof. split; [done|set_solver|done|done]. Qed.
Lemma indexed_ext g g' : open g' = open g → holders g' = holders g → settled g' ⊆ settled g → indexed g → indexed g'.
Proof. intros Eo Eh Hs [H1 H2]. split; rewrite ?Eo, ?Eh; [done|]. intros i s Hi. apply H2. set_solver. Qed.
Lemma settle_if_decided_total jn g i w f : _watermark cfg jn = Ok (w, f) → is_Some (open g !! i) → is_Some (keys_of g !! i) →
  ∃ g', _settle_if_decided cfg jn g i = Ok g' ∧ only_settles w g g'.
Proof.
  intros Hw [s Hs] [ks Hk]. unfold _settle_if_decided. rewrite Hs. cbn [get mbind res_bind].
  pose proof (only_settles_refl w g) as Hrefl.
  destruct (_values cfg (observation s)) as [|v [|v' vs]] eqn:Ev; [by exists g| |by exists g].
  destruct (crowded g !! v); [|by exists g]. rewrite Hk. cbn [get mbind res_bind].
  destruct (forallb _ _); [|by exists g]. rewrite Hw. cbn [mbind res_bind]. eexists. split; [done|]. split; simpl; [done| | |].
  - intros j. rewrite !elem_of_union, elem_of_singleton. intros [-> |?]; [right; apply elem_of_dom; eauto|by left].
  - intros [H1 H2]. split; simpl; [done|]. intros j s' Hj. rewrite elem_of_union, elem_of_singleton in Hj.
    destruct Hj as [-> |Hj]; [|by apply H2]. intros E. simplify_eq. by exists v.
  - intros Hd j s' Hj E. simpl in *. destruct (Z.ltb_spec (at_us s + window_us (config cfg)) w) as [Hlt|_].
    + apply elem_of_union in Hj as [->%elem_of_singleton |Hj]; [simplify_eq; split; [set_solver|done]|].
      destruct (Hd j s' Hj E). split; [set_solver|done].
    + destruct (Hd j s' Hj E). split; [set_solver|done].
Qed.
Lemma settles_decided_total jn w f group : ∀ g, _watermark cfg jn = Ok (w, f) → (∀ i, i ∈ group → is_Some (open g !! i)) →
  (∀ i, is_Some (open g !! i) → is_Some (keys_of g !! i)) →
  ∃ g', fold_res (_settle_if_decided cfg jn) group g = Ok g' ∧ only_settles w g g'.
Proof.
  induction group as [|i group IH]; intros g Hw Ho Hk; [exists g; split; [done|apply only_settles_refl]|]. cbn [fold_res].
  destruct (settle_if_decided_total jn g i w f Hw) as (g1 & -> & [(E1 & E2 & E3 & E4) Hs Hi Hd]); [apply Ho; left|apply Hk, Ho; left|].
  cbn [mbind res_bind]. destruct (IH g1 Hw) as (g2 & -> & [(F1 & F2 & F3 & F4) Hs2 Hi2 Hd2]); [..|].
  - intros j Hj. rewrite E1. apply Ho. by right.
  - intros j. rewrite E1, E2. apply Hk.
  - exists g2. split; [done|]. split; [split_and!; congruence|rewrite E1 in Hs2; set_solver|auto|auto].
Qed.

Lemma evaluate_total jn g h group w f : books jn g h → due_ok w g → (∀ i, i ∈ group → is_Some (open g !! i)) →
  NoDup group → _watermark cfg jn = Ok (w, f) →
  ∃ g' h', _evaluate cfg jn g h group = Ok (g', h') ∧ books jn g' h' ∧ due_ok w g' ∧
    open g' = open g ∧ pending g' = pending g ∧ settled g' ⊆ settled g ∪ dom (open g).
Proof.
  intros [B1 B2 B3 B4 B5 B6 B7 B8] Hdue Ho Hnd Hw. unfold _evaluate.
  set (group' := List.filter _ group).
  assert (∀ i, i ∈ group' → is_Some (open g !! i)) as Ho' by (intros i [? _]%elem_of_filter_bool; auto).
  assert (NoDup group') as Hnd' by by apply NoDup_ListNoDup, List.NoDup_filter, NoDup_ListNoDup.
  destruct (signals_total g group' Ho' B1 Hnd') as (os & joined & out & seen_ & obs & Eos & Ej & H).
  cbv zeta in H. destruct H as (Eout & Es & Eobs & Ha & Hb). set (g1 := note_crowded cfg g (r_collisions joined)) in *.
  rewrite Eos. cbn [mbind res_bind]. rewrite Ej. cbn [mbind res_bind]. fold g1. rewrite Eout. cbn [mbind res_bind].
  rewrite Es. cbn [mbind res_bind]. rewrite Eobs. cbn [mbind res_bind].
  set (authored := map_imap _ out). pose proof (definitives_says cfg (open g) g1 out Ha) as Ha'. fold authored in Ha'.
  set (keys := sorted _).
  assert (∀ k, k ∈ keys → k ∈ dom authored ∪ dom obs) as Hkeys.
  { intros k. unfold keys, sorted. by rewrite elem_of_sorted_by, elem_of_elements. }
  destruct (map_res_total (λ k, p ← proposal_for cfg g1 authored obs k; Ok (k, p)) keys) as [proposals Ep].
  { intros k Hk%Hkeys. destruct (proposal_total g1 authored obs k Ha' Hb Hk) as [q ->]. by eexists. }
  rewrite Ep. cbn [mbind res_bind].
  assert (∀ k, k ∈ proposals.*1 → is_Some (open g !! k.2)) as Hprop.
  { intros k (kp & -> & Hin)%list_elem_of_fmap. apply map_res_Forall2 in Ep. apply list_elem_of_lookup in Hin as [n Hn].
    destruct (Forall2_lookup_r _ _ _ _ _ Ep Hn) as (k' & Hk' & E). apply bind_Ok in E as (q & _ & [= <-]). simpl.
    apply list_elem_of_lookup_2, Hkeys, elem_of_union in Hk'. rewrite !elem_of_dom in Hk'.
    destruct Hk' as [[x Hx]|[x Hx]]; [apply Ha' in Hx|apply Hb in Hx]; by apply osays_open in Hx as [? _]. }
  destruct (proposes_total jn proposals (keys_of g) h) as (ks & h1 & Ef & [A1 A2 A3 A4]).
  { intros kp Hin. apply B3, Hprop, list_elem_of_fmap. eauto. }
  change (keys_of g1) with (keys_of g). rewrite Ef. cbn [mbind res_bind].
  assert (∀ i, is_Some (open g !! i) → is_Some (ks !! i)) as Hks.
  { intros i Hi. destruct (B3 i Hi) as [s0 Hs0]. destruct (A1 i s0 Hs0) as (s' & ? & _). eauto. }
  set (g2 := set_keys_of g1 ks). pose proof (only_settles_refl w g2) as Hrefl.
  assert (∃ g3, (if bool_decide (crowded g2 = ∅) then Ok g2 else fold_res (_settle_if_decided cfg jn) group' g2) = Ok g3 ∧
    only_settles w g2 g3) as (g3 & -> & [(E1 & E2 & E3 & E4) Hsd Hi Hd]).
  { case_bool_decide; [by exists g2|]. by apply (settles_decided_total jn w f). }
  cbn [mbind res_bind]. exists g3, h1. split_and!; [done| |by apply Hd|by rewrite E1|by rewrite E4|done].
  split; rewrite ?E1, ?E2, ?E4; try done.
  - destruct B1 as [C1 C2]. split; rewrite E1; done.
  - apply Hi. by apply (indexed_ext g).
  - simpl. intros i s' k Hi' Hk. destruct (A2 i s' k Hi' Hk) as [(s0 & Hs0 & Hin)|?]; [|done].
    destruct (B4 i s0 k Hs0 Hin) as [? ?]. split; [done|by apply A3].
  - simpl. intros k d Hd' Hsf. destruct (A4 k d Hd') as [Hold|[Hk Hs']]; [|split; [by apply Hprop|done]].
    destruct (B8 k d Hold Hsf) as (? & s0 & Hs0 & Hin). split; [done|]. destruct (A1 _ _ Hs0) as (s' & ? & ?).
    exists s'. split; [done|set_solver].
Qed.

(** ** Closing *)

(** Dropping an open observation. *)
Lemma releases_total i vs : ∀ m : gmap (string * string) (gset (string * Z)), NoDup vs →
  (∀ v, v ∈ vs → i ∈ default ∅ (m !! v)) → ∃ m', fold_res (release i) vs m = Ok m' ∧
  ∀ v x, x ∈ default ∅ (m' !! v) ↔ x ∈ default ∅ (m !! v) ∧ ¬ (x = i ∧ v ∈ vs).
Proof.
  induction vs as [|v vs IH]; intros m Hnd Hm.
  { exists m. split; [done|]. intros v x. rewrite elem_of_nil. tauto. }
  apply NoDup_cons in Hnd as [Hv Hnd].
  assert (∃ held, m !! v = Some held) as [held Ev].
  { destruct (m !! v) as [held|] eqn:Ev; [by exists held|]. specialize (Hm v ltac:(left)). rewrite Ev in Hm. by apply elem_of_empty in Hm. }
  set (m1 := if bool_decide (held ∖ {[i]} = ∅) then delete v m else <[v := held ∖ {[i]}]> m).
  assert (release i m v = Ok m1) as E1 by (unfold release; by rewrite Ev). cbn [fold_res]. rewrite E1. cbn [mbind res_bind].
  assert (∀ u x, x ∈ default ∅ (m1 !! u) ↔ x ∈ default ∅ (m !! u) ∧ ¬ (x = i ∧ u = v)) as H1.
  { intros u x. unfold m1. destruct (decide (u = v)) as [-> |Hne].
    - rewrite Ev. simpl. case_bool_decide as He; [rewrite lookup_delete_eq|rewrite lookup_insert_eq]; simpl; set_solver.
    - case_bool_decide; [rewrite lookup_delete_ne by done|rewrite lookup_insert_ne by done]; tauto. }
  destruct (IH m1 Hnd) as (m' & -> & Hm').
  - intros u Hu. apply H1. split; [apply Hm; by right|]. intros [_ ->]. done.
  - exists m'. split; [done|]. intros u x. rewrite Hm', H1, elem_of_cons. tauto.
Qed.
Lemma emits_total at_ forced (l : list BusinessKey) : ∀ h ids, (∀ k, k ∈ l → is_Some (current h !! k)) →
  ∃ h' ids', fold_res (λ st k, d ← get (current st.1 !! k) KeyError;
      let '(h, d') := _emit at_ st.1 k (proposal_of d) true forced in Ok (h, st.2 ++ [decision_id d'])) l (h, ids) = Ok (h', ids') ∧
    (∀ k, is_Some (current h !! k) → is_Some (current h' !! k)) ∧
    ∀ k d, current h' !! k = Some d → (k ∈ l ∧ status d = FINAL) ∨ (k ∉ l ∧ current h !! k = Some d).
Proof.
  induction l as [|k l IH]; intros h ids Hl.
  { exists h, ids. split_and!; [done|done|]. intros k d Hd. right. split; [apply not_elem_of_nil|done]. }
  destruct (Hl k ltac:(left)) as [d Hd]. cbn [fold_res fst snd]. rewrite Hd. cbn [get mbind res_bind].
  set (e := _emit at_ h k (proposal_of d) true forced).
  assert (∀ x, is_Some (current h !! x) → is_Some (current e.1 !! x)) as Hm.
  { intros x Hx. simpl. destruct (decide (k = x)) as [<- |]; [rewrite lookup_insert_eq; eauto|by rewrite lookup_insert_ne]. }
  destruct (IH e.1 (ids ++ [decision_id e.2])) as (h' & ids' & Hf & Hmono & Hfin).
  { intros x Hx. apply Hm, Hl. by right. }
  exists h', ids'. rewrite (surjective_pairing e). cbn [mbind res_bind]. split_and!; [exact Hf|auto|].
  intros x dx Hx. destruct (Hfin x dx Hx) as [[? ?]|[Hn Hx']]; [left; split; [by right|done]|].
  simpl in Hx'. apply lookup_insert_Some in Hx' as [[<- <-]|[Hne Hx']]; [left; split; [left|done]|].
  right. split; [rewrite elem_of_cons; naive_solver|done].
Qed.

(** What leaves with a closed observation. *)
Record drops i g h g' h' : Prop := {
  dr_open : open g' = delete i (open g);
  dr_same : keys_of g' = keys_of g ∧ pending g' = pending g ∧ due g' = due g;
  dr_settled : settled g' ⊆ settled g
}.
Lemma finalise_total jn g h i forced : books jn g h → is_Some (open g !! i) → (∀ a, (a, i) ∉ pending g) →
  ∃ g' h' ids, _finalise cfg jn g h i forced = Ok (g', h', ids) ∧ books jn g' h' ∧ drops i g h g' h' ∧
    settled g' = settled g.
Proof.
  intros [B1 B2 B3 B4 B5 B6 B7 B8] Hi Hq. unfold _finalise.
  destruct (B3 i Hi) as [ks Hks]. rewrite Hks. cbn [get mbind res_bind].
  destruct (emits_total (position jn) forced (sorted (elements ks)) h []) as (h' & ids & -> & Hmono & Hfin).
  { intros k. unfold sorted. rewrite elem_of_sorted_by, elem_of_elements. intros Hk. by apply (B4 i ks k Hks Hk). }
  destruct Hi as [s Hs]. cbn [mbind res_bind]. rewrite Hs. cbn [get mbind res_bind].
  destruct (releases_total i (_values cfg (observation s)) (holders g)) as (hs & -> & Hhs); [apply Hdistinct| |].
  { intros v Hv. apply (ix_holders g B2). exists s. split; [done|exact Hv]. }
  cbn [mbind res_bind]. eexists _, h', ids. split; [done|]. split; [|by split; simpl].
  split; simpl.
  - destruct B1 as [C1 C2]. split; simpl; intros j s' [_ ?]%lookup_delete_Some; [by apply C1|by eapply C2].
  - destruct B2 as [I1 I2]. split; simpl.
    + intros v x. rewrite Hhs, I1. setoid_rewrite lookup_delete_Some. split.
      * intros [(s' & Hx & Hv) Hn]. exists s'. split_and!; [|done|done]. intros <-. apply Hn. split; [done|].
        rewrite Hs in Hx. injection Hx as <-. exact Hv.
      * intros (s' & [Hne Hx] & Hv). split; [by exists s'|]. intros [-> _]. done.
    + intros j s' Hj [_ ?]%lookup_delete_Some. by eapply I2.
  - intros j Hj. apply B3. destruct Hj as [s' [_ ?]%lookup_delete_Some]. eauto.
  - intros j ks' k Hj Hk. destruct (B4 j ks' k Hj Hk). split; [done|by apply Hmono].
  - intros j Hj. apply B5. destruct Hj as [s' [_ ?]%lookup_delete_Some]. eauto.
  - done.
  - intros a j Haj. destruct (B7 a j Haj) as (s' & Hj & <-). exists s'. split; [|done]. apply lookup_delete_Some. split; [|done].
    intros <-. by apply (Hq (at_us s')).
  - intros k d Hd Hst. destruct (Hfin k d Hd) as [[_ ?]|[Hnk Hold]]; [done|].
    destruct (B8 k d Hold Hst) as ([s' Ho] & ks' & Hk' & Hin). split; [|by exists ks'].
    assert (k.2 ≠ i) as Hne.
    { intros E. rewrite E, Hks in Hk'. injection Hk' as <-. apply Hnk. unfold sorted. by rewrite elem_of_sorted_by, elem_of_elements. }
    exists s'. apply lookup_delete_Some. done.
Qed.

(** Groups that differ in their queues alone. *)
Lemma books_ext jn g g' h h' : open g' = open g → keys_of g' = keys_of g → holders g' = holders g → pending g' = pending g →
  settled g' ⊆ settled g → current h' = current h → books jn g h → books jn g' h'.
Proof.
  intros Eo Ek Eh Ep Es Ec [[B1 B1'] B2 B3 B4 B5 B6 B7 B8]. split; rewrite ?Eo, ?Ek, ?Ep, ?Ec; try done.
  - split; rewrite Eo; done.
  - by eapply indexed_ext.
Qed.
Lemma prove_total jn h os ids forced cites join : (∀ i, i ∈ os → is_Some (positions jn !! i)) →
  ∃ h', _prove cfg jn h os ids forced cites join = Ok h' ∧ current h' = current h.
Proof.
  intros Hp. unfold _prove. destruct (map_res_total (λ i, get (positions jn !! i) KeyError) os) as [ps ->].
  { intros i [x ->]%Hp. by eexists. }
  simpl. eauto.
Qed.

(** A list of observations leaves. *)
Record leaves (D : list (string * Z)) g g' : Prop := {
  lv_open x : open g' !! x = if decide (x ∈ D) then None else open g !! x;
  lv_pending : pending g' = pending g;
  lv_due : due g' = due g;
  lv_settled x : x ∉ D → x ∈ settled g' ↔ x ∈ settled g;
  lv_gone x : x ∈ D → x ∉ settled g'
}.
Lemma leaves_nil g : leaves [] g g.
Proof. split; [|done..|]; intros x; [by rewrite decide_False by apply not_elem_of_nil|by intros ?%not_elem_of_nil]. Qed.
Lemma leaves_trans D D' g1 g2 g3 : leaves D g1 g2 → leaves D' g2 g3 → leaves (D ++ D') g1 g3.
Proof.
  intros [A1 A2 A3 A4 A5] [C1 C2 C3 C4 C5]. split; [|congruence..| |].
  - intros x. rewrite C1. destruct (decide (x ∈ D')) as [H|H].
    + rewrite decide_True by (apply elem_of_app; by right). done.
    + rewrite A1. destruct (decide (x ∈ D)) as [H'|H'].
      * rewrite decide_True by (apply elem_of_app; by left). done.
      * rewrite decide_False; [done|]. rewrite elem_of_app. tauto.
  - intros x. rewrite elem_of_app. intros Hx. rewrite C4, A4 by tauto. done.
  - intros x. rewrite elem_of_app. destruct (decide (x ∈ D')) as [H|H]; [by intros _; apply C5|].
    intros [Hx|?]; [|done]. rewrite C4 by done. by apply A5.
Qed.
Lemma leaves_delete i g g' : open g' = delete i (open g) → pending g' = pending g → due g' = due g →
  (∀ x, x ≠ i → x ∈ settled g' ↔ x ∈ settled g) → i ∉ settled g' → leaves [i] g g'.
Proof.
  intros Eo Ep Ed Es Hi. split; [|done..| |by intros x ->%list_elem_of_singleton].
  - intros x. rewrite Eo. case_decide as H; [apply list_elem_of_singleton in H as ->; apply lookup_delete_eq|].
    rewrite lookup_delete_ne; [done|]. intros <-. apply H. left.
  - intros x Hx. apply Es. intros ->. apply Hx. left.
Qed.
Lemma leaves_sub D g g' x : leaves D g g' → is_Some (open g' !! x) → is_Some (open g !! x).
Proof. intros [H _ _ _ _]. rewrite H. case_decide; [by intros []|done]. Qed.
Lemma leaves_open D g g' x : leaves D g g' → x ∉ D → open g' !! x = open g !! x.
Proof. intros [H _ _ _ _] Hx. rewrite H. by rewrite decide_False. Qed.

Lemma let_go_total jn g h i forced : books jn g h → is_Some (open g !! i) → i ∈ settled g → (∀ a, (a, i) ∉ pending g) →
  ∃ g' h', _let_go cfg jn g h i forced = Ok (g', h') ∧ books jn g' h' ∧ leaves [i] g g'.
Proof.
  intros B Hi Hset Hq. pose proof Hi as [s Hs]. destruct (ix_settled g (bk_indexed _ _ _ B) i s Hset Hs) as [v Hv].
  destruct (finalise_total jn g h i forced B Hi Hq) as (g1 & h1 & ids & Ef & B1 & [Eo (Ek & Ep & Ed) Es] & Eset).
  destruct (prove_total jn h1 [i] (sorted ids) forced (Some v) None) as (h2 & Epr & Ec).
  { intros x ->%list_elem_of_singleton. by apply (bk_placed _ _ _ B). }
  exists (set_settled_due g1 (settled g1 ∖ {[i]}) (due g1)), h2.
  unfold _let_go. rewrite Hs. cbn [get mbind res_bind]. unfold vals in Hv. rewrite Hv. cbn [head get mbind res_bind].
  rewrite Ef. cbn [mbind res_bind]. split_and!; [by rewrite Epr| |].
  - eapply books_ext; [..|exact B1]; simpl; try done. set_solver.
  - apply leaves_delete; simpl; [done..| |set_solver]. intros x Hx. rewrite Eset. set_solver.
Qed.

Lemma close_member_total jn forced g h finals whole i : books jn g h → is_Some (open g !! i) → (∀ a, (a, i) ∉ pending g) →
  ∃ g' h' finals' whole', close_member cfg jn forced (g, h, finals, whole) i = Ok (g', h', finals', whole') ∧
    books jn g' h' ∧ leaves [i] g g' ∧ ∀ x, x ∈ whole' → x ∈ whole ∨ x = i.
Proof.
  intros B Hi Hq. pose proof Hi as [s Hs]. unfold close_member. rewrite Hs. cbn [get mbind res_bind].
  set (g0 := mkGroups _ _ _ _ _ _ _ _). assert (books jn g0 h) as B0 by (eapply books_ext; [..|exact B]; done).
  case_bool_decide as Hset.
  - destruct (let_go_total jn g0 h i forced B0 Hi Hset Hq) as (g1 & h1 & -> & B1 & L). cbn [mbind res_bind].
    eexists _, h1, finals, whole. split; [done|]. split; [eapply books_ext; [..|exact B1]; done|].
    split; [by destruct L; split|by left].
  - destruct (finalise_total jn g0 h i forced B0 Hi Hq) as (g1 & h1 & ids & -> & B1 & [Eo (Ek & Ep & Ed) Es] & Eset).
    cbn [mbind res_bind]. eexists _, h1, (finals ++ ids), (whole ++ [i]). split; [done|].
    split; [eapply books_ext; [..|exact B1]; done|]. split.
    + apply leaves_delete; simpl; [done..| |by rewrite Eset]. intros x _. by rewrite Eset.
    + intros x [?| ->%list_elem_of_singleton]%elem_of_app; auto.
Qed.
Lemma close_members_total jn forced group : ∀ g h finals whole, books jn g h → NoDup group →
  (∀ i, i ∈ group → is_Some (open g !! i) ∧ ∀ a, (a, i) ∉ pending g) →
  ∃ g' h' finals' whole', fold_res (close_member cfg jn forced) group (g, h, finals, whole) = Ok (g', h', finals', whole') ∧
    books jn g' h' ∧ leaves group g g' ∧ ∀ x, x ∈ whole' → x ∈ whole ∨ x ∈ group.
Proof.
  induction group as [|i group IH]; intros g h finals whole B Hnd Hgr.
  { exists g, h, finals, whole. split_and!; [done|done|apply leaves_nil|by left]. }
  apply NoDup_cons in Hnd as [Hi Hnd]. destruct (Hgr i ltac:(left)) as [Ho Hq].
  destruct (close_member_total jn forced g h finals whole i B Ho Hq) as (g1 & h1 & f1 & w1 & E1 & B1 & L1 & W1).
  destruct (IH g1 h1 f1 w1 B1 Hnd) as (g2 & h2 & f2 & w2 & E2 & B2 & L2 & W2).
  { intros j Hj. destruct (Hgr j ltac:(by right)) as [Hoj Hqj]. rewrite (lv_pending _ _ _ L1). split; [|done].
    rewrite (leaves_open _ _ _ _ L1); [done|]. intros ->%list_elem_of_singleton. done. }
  exists g2, h2, f2, w2. cbn [fold_res]. rewrite E1. cbn [mbind res_bind]. split_and!; [done|done|exact (leaves_trans _ _ _ _ _ L1 L2)|].
  intros x Hx. rewrite elem_of_cons. destruct (W2 x Hx) as [Hx1|?]; [destruct (W1 x Hx1); tauto|tauto].
Qed.
Lemma close_total jn forced g h group : books jn g h → NoDup group →
  (∀ i, i ∈ group → is_Some (open g !! i) ∧ ∀ a, (a, i) ∉ pending g) →
  ∃ g' h', _close cfg jn forced (g, h) group = Ok (g', h') ∧ books jn g' h' ∧ leaves group g g'.
Proof.
  intros B Hnd Hgr. unfold _close. cbn [fst snd].
  destruct (close_members_total jn forced group g h [] [] B Hnd Hgr) as (g1 & h1 & finals & whole & -> & B1 & L & W).
  cbn [mbind res_bind]. destruct whole as [|x whole]; [by exists g1, h1|].
  destruct (prove_total jn h1 (x :: whole) (sorted finals) forced None None) as (h2 & -> & Ec).
  { intros i Hi. destruct (W i Hi) as [?%not_elem_of_nil|Hin]; [done|]. by apply (bk_placed _ _ _ B), Hgr. }
  exists g1, h2. split; [done|]. split; [|done]. eapply books_ext; [..|exact B1]; done.
Qed.
Lemma closes_total jn forced l : ∀ g h, books jn g h → NoDup (mjoin l) →
  (∀ i, i ∈ mjoin l → is_Some (open g !! i) ∧ ∀ a, (a, i) ∉ pending g) →
  ∃ g' h', fold_res (_close cfg jn forced) l (g, h) = Ok (g', h') ∧ books jn g' h' ∧ leaves (mjoin l) g g'.
Proof.
  induction l as [|group l IH]; intros g h B Hnd Hgr; [exists g, h; split_and!; [done|done|apply leaves_nil]|].
  simpl in Hnd, Hgr. apply NoDup_app in Hnd as (Hn1 & Hd & Hn2).
  destruct (close_total jn forced g h group B Hn1) as (g1 & h1 & E1 & B1 & L1).
  { intros i Hi. apply Hgr, elem_of_app. by left. }
  destruct (IH g1 h1 B1 Hn2) as (g2 & h2 & E2 & B2 & L2).
  { intros i Hi. destruct (Hgr i ltac:(apply elem_of_app; by right)) as [Ho Hq]. rewrite (lv_pending _ _ _ L1). split; [|done].
    rewrite (leaves_open _ _ _ _ L1); [done|]. intros Hin. by apply (Hd i). }
  exists g2, h2. cbn [fold_res]. rewrite E1. cbn [mbind res_bind]. split_and!; [done|done|exact (leaves_trans _ _ _ _ _ L1 L2)].
Qed.
End progress.
