(* ===== verification/FlowSettles.v ===== *)
(** * FlowSettles: a flow answers every journal it may be given, and settles it

    A journal whose observations are valid, whose sources are declared and which never
    contradicts itself is replayed to a result, and no other is.  Once every source has
    been told past the window of what was delivered, every decision is final.  What holds
    the two up: each open observation is connected to one still in the queue, at least as
    late; what leaves the queue for good leaves with its whole component. *)

From S2P Require Import Prelude Digest Topology Dedup Assignment Timing FlowTimed Exact Flow FlowTheorems FlowSound FlowProgress.

Notation BusinessKey := (string * (string * Z))%type (only parsing).

Section waiting.
Context (cfg : Settings) (Hkeyed : keyed cfg) (Hpoints : points cfg = point_names (topology cfg)).
Context (Hdistinct : ∀ o, NoDup (_values cfg o)) (Hcheck : _check (config cfg) = Ok tt).
Implicit Types (g : Groups) (h : History) (jn : Journal) (i : string * Z).
Notation connected g := (rtc (sharing cfg g)).
Notation vals := (vals cfg).
Notation window := (window_us (config cfg)).

(** ** What is connected stays connected *)

Lemma connected_mono g g' x y : open g ⊆ open g' → connected g x y → connected g' x y.
Proof.
  intros Hs. induction 1 as [|x y z (s & s' & v & Hx & Hy & ?) _ IH]; [done|]. eapply rtc_l; [|exact IH].
  exists s, s', v. split_and!; try tauto; by eapply lookup_weaken.
Qed.
Definition stays (D : list (string * Z)) g g' : Prop :=
  ∀ x y, x ∉ D → y ∉ D → connected g x y → connected g' x y.
Lemma sharing_leaves D g g' x y : leaves D g g' → x ∉ D → y ∉ D → sharing cfg g x y → sharing cfg g' x y.
Proof.
  intros L Hx Hy (s & s' & v & ? & ? & ? & ?). exists s, s', v. by rewrite !(leaves_open _ _ _ _ L).
Qed.
(** Whole components leave. *)
Lemma stays_closed D g g' : leaves D g g' → (∀ x y, x ∈ D → connected g x y → y ∈ D) → stays D g g'.
Proof.
  intros L Hc x y Hx Hy. induction 1 as [|x y z Hxy Hyz IH]; [done|].
  assert (y ∉ D) as Hyd by (intros Hin; by apply Hy, (Hc y)).
  eapply rtc_l; [by eapply sharing_leaves|by apply IH].
Qed.
(** One observation leaves that has one value: who shared it with one shared it with all. *)
Lemma connected_bypass g g' i s v x y : leaves [i] g g' → open g !! i = Some s → vals s = [v] →
  connected g x y → y ≠ i → (x ≠ i → connected g' x y) ∧
  (x = i → ∀ z sz, z ≠ i → open g !! z = Some sz → v ∈ vals sz → connected g' z y).
Proof.
  intros L Hi Hv. assert (∀ z w, z ≠ i → w ≠ i → sharing cfg g z w → connected g' z w) as Hs.
  { intros z w ? ?. intros. apply rtc_once. eapply sharing_leaves; [done| | |done]; by intros ?%list_elem_of_singleton. }
  induction 1 as [x|x x1 y Hxx _ IH]; intros Hy; [done|]. specialize (IH Hy) as [IH1 IH2].
  pose proof Hxx as (s1 & s2 & u & Hx & Hx1 & Hu1 & Hu2). split.
  - intros Hne. destruct (decide (x1 = i)) as [E|Hne1]; [|etrans; [by apply Hs|by apply IH1]].
    eapply (IH2 E); [exact Hne|exact Hx|]. rewrite E, Hi in Hx1. injection Hx1 as <-.
    rewrite Hv in Hu2. by apply list_elem_of_singleton in Hu2 as <-.
  - intros -> z sz Hz Hzo Hvz. destruct (decide (x1 = i)) as [E|Hne1]; [by eapply IH2|].
    etrans; [|by apply IH1]. apply Hs; [done|done|]. exists sz, s2, v. split_and!; [done|done|done|].
    rewrite Hi in Hx. injection Hx as <-. rewrite Hv in Hu1. by apply list_elem_of_singleton in Hu1 as ->.
Qed.
Lemma stays_settled i g g' : leaves [i] g g' → indexed cfg g → i ∈ settled g → is_Some (open g !! i) → stays [i] g g'.
Proof.
  intros L Hg Hset [s Hs] x y Hx Hy Hxy. destruct (ix_settled _ _ Hg i s Hset Hs) as [v Hv].
  assert (x ≠ i ∧ y ≠ i) as [Hxi Hyi] by (rewrite list_elem_of_singleton in Hx, Hy; done).
  by apply (connected_bypass g g' i s v x y).
Qed.

(** ** Waiting *)

(** Connected to an observation of the queue, at least as late. *)
Definition waits g i : Prop :=
  ∃ s m sm, open g !! i = Some s ∧ connected g i m ∧ open g !! m = Some sm ∧ (at_us sm, m) ∈ pending g ∧ at_us s <= at_us sm.
Definition waiting g : Prop := ∀ i, is_Some (open g !! i) → waits g i.
Lemma waits_leaves D g g' i : leaves D g g' → stays D g g' → (∀ a m, (a, m) ∈ pending g → m ∉ D) →
  i ∉ D → waits g i → waits g' i.
Proof.
  intros L Hst Hq Hi (s & m & sm & Hs & Hc & Hm & Hp & Hle). pose proof (Hq _ _ Hp) as Hmd. exists s, m, sm.
  rewrite !(leaves_open _ _ _ _ L), (lv_pending _ _ _ L) by done. split_and!; [done|by apply Hst|done..].
Qed.
Lemma waiting_leaves D g g' : leaves D g g' → stays D g g' → (∀ a m, (a, m) ∈ pending g → m ∉ D) →
  (∀ i, is_Some (open g !! i) → waits g i ∨ i ∈ D) → waiting g'.
Proof.
  intros L Hst Hq Hw i Hi. assert (i ∉ D) as Hid.
  { intros Hin. destruct Hi as [s Hs]. rewrite (lv_open _ _ _ L), decide_True in Hs by done. done. }
  destruct (Hw i) as [H|?]; [by eapply leaves_sub|by eapply waits_leaves|done].
Qed.

(** ** The ripe groups *)

Lemma latest_total g group : group ≠ [] → (∀ i, i ∈ group → is_Some (open g !! i)) → ∃ l, latest_of g group = Ok l ∧
  (∀ i s, i ∈ group → open g !! i = Some s → at_us s <= l) ∧ ∃ i s, i ∈ group ∧ open g !! i = Some s ∧ at_us s = l.
Proof.
  intros Hne Ho. unfold latest_of. destruct (map_res_total (λ i, s ← get (open g !! i) KeyError; Ok (at_us s)) group) as [ats E].
  { intros i [s Hs]%Ho. rewrite Hs. by eexists. }
  rewrite E. apply map_res_Forall2 in E. cbn [mbind res_bind].
  destruct ats as [|a l]; [by apply Forall2_nil_inv_r in E|]. exists (max_of a l). split_and!; [done| |].
  - intros i s Hi Hs. apply list_elem_of_lookup in Hi as [n Hn]. destruct (Forall2_lookup_l _ _ _ _ _ E Hn) as (x & Hx & Ex).
    rewrite Hs in Ex. injection Ex as <-. apply list_elem_of_lookup_2 in Hx. by apply max_of_ge.
  - pose proof (max_of_elem a l) as [n Hn]%list_elem_of_lookup. destruct (Forall2_lookup_r _ _ _ _ _ E Hn) as (i & Hi & Ex).
    apply bind_Ok in Ex as (s & Hs%get_Ok & [= <-]). apply list_elem_of_lookup_2 in Hi. eauto.
Qed.

(** A group found ripe: a whole component, under its first member. *)
Record ripe_group w g (e : (string * Z) * list (string * Z)) : Prop := {
  rg_component : ∃ i S, component cfg g i S ∧ e.2 = sorted (elements S) ∧ is_Some (open g !! i);
  rg_first : head e.2 = Some e.1;
  rg_ripe x s : x ∈ e.2 → open g !! x = Some s → at_us s + window < w
}.
Record found_ok w g (found : odict (string * Z) (list (string * Z))) : Prop := {
  fo_groups e : e ∈ found → ripe_group w g e;
  fo_keys : NoDup found.*1
}.
Definition gone (found : odict (string * Z) (list (string * Z))) i : Prop := ∃ e, e ∈ found ∧ i ∈ e.2.

Lemma ripe_group_closed w g e x y : ripe_group w g e → x ∈ e.2 → connected g x y → y ∈ e.2.
Proof.
  intros [(i & S & HS & -> & _) _ _]. rewrite !elem_of_group, (HS x), (HS y). intros ? ?. by etrans.
Qed.
Lemma ripe_group_open w g e x : ripe_group w g e → x ∈ e.2 → is_Some (open g !! x).
Proof.
  intros [(i & S & HS & -> & Hi) _ _]. rewrite elem_of_group, (HS x). intros Hc. by eapply connected_open.
Qed.
Lemma ripe_group_unique w g e e' x : ripe_group w g e → ripe_group w g e' → x ∈ e.2 → x ∈ e'.2 → e = e'.
Proof.
  intros [(i & S & HS & E & _) Hf _] [(i' & S' & HS' & E' & _) Hf' _]. rewrite E, E', !elem_of_group. intros Hx Hx'.
  assert (S = S') as <- by by eapply component_unique. destruct e as [k l], e' as [k' l']. simpl in *. subst l l'. congruence.
Qed.
Lemma od_set_in (k : string * Z) (a : list (string * Z)) (d : odict _ _) e : e.1 ≠ k → e ∈ d → e ∈ od_set k a d.
Proof.
  intros Hne. induction d as [|[k' a'] d IH]; simpl; [by intros ?%not_elem_of_nil|].
  destruct (decide (k = k')) as [-> |]; rewrite !elem_of_cons; [intros [-> |?]; [done|by right]|]. naive_solver.
Qed.
Lemma od_set_here (k : string * Z) (a : list (string * Z)) (d : odict _ _) : (k, a) ∈ od_set k a d.
Proof.
  induction d as [|[k' a'] d IH]; simpl; [by left|]. destruct (decide (k = k')); [left|by right].
Qed.
Lemma found_add w g found k group : found_ok w g found → ripe_group w g (k, group) →
  found_ok w g (od_set k group found) ∧ ∀ i, i ∈ group ∨ gone found i → gone (od_set k group found) i.
Proof.
  intros [Hg Hk] Hr. split; [split; [|by apply od_set_NoDup]|].
  - intros e [-> |?]%od_set_elem; [done|by apply Hg].
  - intros i [Hi|(e & He & Hi)]; [exists (k, group); split; [apply od_set_here|done]|].
    destruct (decide (e.1 = k)) as [E|E]; [|exists e; split; [by apply od_set_in|done]].
    exists (k, group). split; [apply od_set_here|]. assert (e = (k, group)) as <-; [|done].
    pose proof (Hg e He) as Hre. pose proof (rg_first _ _ _ Hre) as H1. pose proof (rg_first _ _ _ Hr) as H2.
    rewrite E in H1. simpl in H2. apply (ripe_group_unique w g e (k, group) k Hre Hr); [by destruct e.2; simplify_eq/=; left|].
    simpl. destruct group; simplify_eq/=; left.
Qed.

(** Groups with the same open observations have the same components. *)
Lemma waits_ext g g' i : open g' = open g → pending g' = pending g → waits g i → waits g' i.
Proof.
  intros Eo Ep (s & m & sm & ? & Hc & ? & ? & ?). exists s, m, sm. rewrite Eo, Ep. split_and!; try done.
  eapply connected_mono; [|exact Hc]. by rewrite Eo.
Qed.
Lemma ripe_group_ext w g g' e : open g' = open g → ripe_group w g e → ripe_group w g' e.
Proof.
  intros Eo [(i & S & HS & E & Hi) Hf Hr]. split; [|done|by rewrite Eo].
  exists i, S. rewrite Eo. split_and!; [|done|done]. intros x. rewrite (HS x).
  split; apply connected_mono; by rewrite Eo.
Qed.
Lemma found_ext w g g' found : open g' = open g → found_ok w g found → found_ok w g' found.
Proof. intros Eo [Hg Hk]. split; [|done]. intros e He. by eapply ripe_group_ext, Hg. Qed.

(** When the latest of its queue entries has gone, a component is found; until then,
    another entry holds it open. *)
Lemma pop_waits w g g' a i rest S : pending g = (a, i) :: rest → open g' = open g → pending g' = rest →
  component cfg g i S → (∃ y s, y ∈ S ∧ open g !! y = Some s ∧ w <= at_us s + window ∧ waits g y) →
  a + window < w → (∀ s, open g !! i = Some s → at_us s = a) → ∀ x, waits g x → waits g' x.
Proof.
  intros Ep Eo Ep' HS (y & sy & Hy & Hsy & Hlate & (s0 & m & sm & Hs0 & Hym & Hm & Hpm & Hle)) Ha Hi x
    (s & n & sn & Hs & Hxn & Hn & Hpn & Hle').
  assert (∀ u v, connected g u v → connected g' u v) as Hc by (intros u v; apply connected_mono; by rewrite Eo).
  rewrite Hsy in Hs0. injection Hs0 as <-. rewrite Ep in Hpn, Hpm. apply elem_of_cons in Hpm as [[= <- <-]|Hpm]; [lia|].
  apply elem_of_cons in Hpn as [[= <- <-]|Hpn].
  - apply HS in Hy. exists s, m, sm. rewrite Eo. split_and!; [done| |done|by rewrite Ep'|lia].
    apply Hc. etrans; [exact Hxn|]. by etrans.
  - exists s, n, sn. rewrite Eo. split_and!; auto. by rewrite Ep'.
Qed.

Lemma books_queue jn g h e rest : books cfg jn g h → pending g = e :: rest →
  books cfg jn (mkGroups (open g) (keys_of g) (holders g) rest (closed_values g) (crowded g) (settled g) (due g)) h.
Proof.
  intros [[C1 C2] [D1 D2] B3 B4 B5 B6 B7 B8] E. split; simpl; try done.
  - rewrite E in B6. by apply StronglySorted_inv in B6 as [? _].
  - intros a i Hi. apply B7. rewrite E. by right.
Qed.

Lemma ripe_loop_total jn h w queue : ∀ g found, books cfg jn g h → pending g = queue → due_ok cfg w g → found_ok w g found →
  (∀ i, is_Some (open g !! i) → waits g i ∨ gone found i) → ∃ g' found', ripe_loop cfg w queue g found = Ok (g', found') ∧
    books cfg jn g' h ∧ open g' = open g ∧ settled g' = settled g ∧ due_ok cfg w g' ∧ found_ok w g' found' ∧
    (∀ i, is_Some (open g' !! i) → waits g' i ∨ gone found' i) ∧ ∀ a i, (a, i) ∈ pending g' → w <= a + window.
Proof.
  induction queue as [|[a i] rest IH]; intros g found B Ep Hdue Hf Hw.
  { exists g, found. rewrite Ep. split_and!; try done. by intros a i ?%not_elem_of_nil. }
  cbn [ripe_loop]. destruct (Z.ltb_spec (a + window) w) as [Ha|Ha].
  2: { exists g, found. split_and!; try done. rewrite Ep. intros b j Hb. apply elem_of_cons in Hb as [[= -> _]|Hb]; [done|].
    pose proof (bk_pending _ _ _ _ B) as Hs. rewrite Ep in Hs. apply StronglySorted_inv in Hs as [_ Hs].
    rewrite Forall_forall in Hs. specialize (Hs _ Hb). apply cmp_le_fst in Hs. unfold cmp_le, cmp, Z_cmp in Hs. simpl in Hs.
    rewrite Z.compare_ngt_iff in Hs. lia. }
  set (g1 := mkGroups _ _ _ _ _ _ _ _).
  pose proof (books_queue _ _ _ _ _ B Ep) as B1. fold g1 in B1.
  destruct (bk_queued _ _ _ _ B a i) as (si & Hi & Eai); [rewrite Ep; left|].
  destruct (group_of_ok cfg g1 i (bk_indexed _ _ _ _ B1)) as (S & HS & ->); [by eexists|]. cbn [mbind res_bind].
  assert (i ∈ S) as HiS by (apply HS; done).
  assert (∀ x, x ∈ sorted (elements S) → is_Some (open g1 !! x)) as Hopen.
  { intros x. rewrite elem_of_group, (HS x). intros Hc. eapply connected_open; [exact Hc|by eexists]. }
  assert (sorted (elements S) ≠ []) as Hne.
  { intros E. apply elem_of_group in HiS. rewrite E in HiS. by apply not_elem_of_nil in HiS. }
  destruct (latest_total g1 _ Hne Hopen) as (l & -> & Hmax & (y & sy & Hy & Hsy & El)). cbn [mbind res_bind].
  destruct (sorted (elements S)) as [|first others] eqn:Eg; [done|]. cbn [head get mbind res_bind]. rewrite <- Eg in *.
  destruct (Z.ltb_spec (l + window) w) as [Hl|Hl].
  - assert (ripe_group w g1 (first, sorted (elements S))) as Hr.
    { split; simpl; [by exists i, S|by rewrite Eg|]. intros x s Hx Hs. pose proof (Hmax x s Hx Hs). lia. }
    destruct (found_add w g1 found first _ (found_ext w g g1 found eq_refl Hf) Hr) as [Hf1 Hgone].
    apply (IH g1); [done|done|done|done|]. intros x Hx. destruct (Hw x Hx) as [(s & m & sm & Hs & Hc & Hm & Hp & Hle)|?]; [|by right; auto].
    rewrite Ep in Hp. apply elem_of_cons in Hp as [[= <- <-]|Hp].
    + right. apply Hgone. left. apply elem_of_group, HS. by symmetry.
    + left. by exists s, m, sm.
  - assert (∀ x, is_Some (open g1 !! x) → waits g1 x ∨ gone found x) as Hw1.
    { intros x Hx. destruct (Hw x Hx) as [Hwx|?]; [left|by right].
      eapply (pop_waits w g g1 a i rest S); [done|done|done|done| |done| |exact Hwx].
      - exists y, sy. apply elem_of_group in Hy. split_and!; [done|done|lia|]. destruct (Hw y) as [?|(e & He & Hye)]; [by eexists|done|].
        exfalso. pose proof (rg_ripe _ _ _ (fo_groups _ _ _ Hf e He) y sy Hye Hsy). lia.
      - intros s. rewrite Hi. intros [= <-]. done. }
    case_bool_decide as Hset.
    + apply (IH (set_settled_due g1 (settled g1) ({[i]} ∪ due g1))); simpl; [|done| |by apply (found_ext w g)|].
      * eapply books_ext; [..|exact B1]; done.
      * intros x s Hx Hs. simpl in *. apply elem_of_union in Hx as [->%elem_of_singleton|Hx]; [|by apply Hdue].
        rewrite Hi in Hs. injection Hs as <-. split; [done|lia].
      * intros x Hx. destruct (Hw1 x Hx) as [?|?]; [left|by right]. by eapply waits_ext; [..|done].
    + apply (IH g1); try done. by apply (found_ext w g).
Qed.

(** What [_ripe_groups] finds: whole components, all past the watermark, none still in
    the queue. *)
Record ripe_ok w g (D : list (string * Z)) : Prop := {
  ro_distinct : NoDup D;
  ro_closed x y : x ∈ D → connected g x y → y ∈ D;
  ro_members x : x ∈ D → is_Some (open g !! x) ∧ ∀ a, (a, x) ∉ pending g;
  ro_waits i : is_Some (open g !! i) → waits g i ∨ i ∈ D;
  ro_queue a i : (a, i) ∈ pending g → w <= a + window
}.
Lemma elem_of_ripe (found : odict (string * Z) (list (string * Z))) x : x ∈ mjoin (sorted found.*2) ↔ gone found x.
Proof.
  rewrite list_elem_of_join. split.
  - intros (l & Hx & Hl). unfold sorted in Hl. rewrite elem_of_sorted_by in Hl. apply list_elem_of_fmap in Hl as (e & -> & He). by exists e.
  - intros (e & He & Hx). exists e.2. split; [done|]. unfold sorted. rewrite elem_of_sorted_by. by apply list_elem_of_fmap_2.
Qed.
Lemma ripe_distinct w g found : found_ok w g found → NoDup (mjoin (sorted found.*2)).
Proof.
  intros [Hg Hk]. assert (mjoin (sorted found.*2) ≡ₚ found ≫= snd) as ->.
  { unfold sorted. rewrite sorted_by_perm. clear. induction found as [|e l IH]; [done|]. rewrite fmap_cons. simpl. by rewrite IH. }
  apply (NoDup_bind_keys fst); [done| |].
  - intros e He. destruct (rg_component _ _ _ (Hg e He)) as (i & S & _ & -> & _). apply group_NoDup.
  - intros e e' x He He' Hx Hx'. f_equal. by eapply ripe_group_unique; [apply Hg|apply Hg|..].
Qed.
Lemma ripe_groups_total jn h w g : books cfg jn g h → due_ok cfg w g → waiting g → ∃ g' ripe, _ripe_groups cfg g w = Ok (g', ripe) ∧
  books cfg jn g' h ∧ open g' = open g ∧ settled g' = settled g ∧ due_ok cfg w g' ∧ ripe_ok w g' (mjoin ripe).
Proof.
  intros B Hdue Hw. destruct (ripe_loop_total jn h w (pending g) g [] B eq_refl Hdue) as
    (g' & found & E & B' & Eo & Es & Hdue' & Hf & Hw' & Hq).
  - split; [by intros e ?%not_elem_of_nil|apply NoDup_nil_2].
  - intros i Hi. left. by apply Hw.
  - unfold _ripe_groups. rewrite E. cbn [mbind res_bind]. exists g', (sorted found.*2). split_and!; [done..|].
    pose proof (fo_groups _ _ _ Hf) as Hg. split.
    + by eapply ripe_distinct.
    + intros x y. rewrite !elem_of_ripe. intros (e & He & Hx) Hc. exists e. split; [done|]. by eapply ripe_group_closed; [apply Hg|..].
    + intros x. rewrite elem_of_ripe. intros (e & He & Hx). split; [by eapply ripe_group_open; [apply Hg|]|].
      intros a Ha. destruct (bk_queued _ _ _ _ B' a x Ha) as (s & Hs & <-). pose proof (rg_ripe _ _ _ (Hg e He) x s Hx Hs).
      specialize (Hq _ _ Ha). lia.
    + intros i Hi. rewrite elem_of_ripe. by apply Hw'.
    + exact Hq.
Qed.

(** ** Settling *)

Definition settled_open g : Prop := settled g ⊆ dom (open g).
Lemma settled_open_leaves D g g' : leaves D g g' → settled_open g → settled_open g'.
Proof.
  intros L Hs x Hx. destruct (decide (x ∈ D)) as [Hd|Hd]; [by apply (lv_gone _ _ _ L) in Hx|].
  apply elem_of_dom. rewrite (leaves_open _ _ _ _ L) by done. apply elem_of_dom, Hs. by apply (lv_settled _ _ _ L).
Qed.
Lemma let_gos_total jn forced l : ∀ g h, books cfg jn g h → waiting g → NoDup l →
  (∀ i, i ∈ l → is_Some (open g !! i) ∧ i ∈ settled g ∧ ∀ a, (a, i) ∉ pending g) →
  ∃ g' h', fold_res (λ gh i, _let_go cfg jn gh.1 gh.2 i forced) l (g, h) = Ok (g', h') ∧
    books cfg jn g' h' ∧ waiting g' ∧ leaves l g g'.
Proof.
  induction l as [|i l IH]; intros g h B Hw Hnd Hl; [exists g, h; split_and!; [done|done|done|apply leaves_nil]|].
  apply NoDup_cons in Hnd as [Hi Hnd]. destruct (Hl i ltac:(left)) as (Ho & Hset & Hq).
  destruct (let_go_total cfg Hkeyed Hpoints Hdistinct Hcheck jn g h i forced B Ho Hset Hq) as (g1 & h1 & E1 & B1 & L1).
  assert (waiting g1) as Hw1.
  { apply (waiting_leaves [i] g g1 L1); [by eapply stays_settled; [|exact (bk_indexed _ _ _ _ B)|..]| |by intros x Hx; left; apply Hw].
    intros a m Hm ->%list_elem_of_singleton. by apply (Hq a). }
  destruct (IH g1 h1 B1 Hw1 Hnd) as (g2 & h2 & E2 & B2 & Hw2 & L2).
  { intros j Hj. destruct (Hl j ltac:(by right)) as (Hoj & Hsj & Hqj). rewrite (lv_pending _ _ _ L1).
    assert (j ∉ [i]) as Hne by (intros ->%list_elem_of_singleton; done).
    rewrite (leaves_open _ _ _ _ L1) by done. split_and!; [done| |done]. by apply (lv_settled _ _ _ L1). }
  exists g2, h2. cbn [fold_res fst snd]. rewrite E1. cbn [mbind res_bind].
  split_and!; [done|done|done|exact (leaves_trans _ _ _ _ _ L1 L2)].
Qed.

(** Between two entries. *)
Record sane st : Prop := {
  sn_books : books cfg (journal st) (groups st) (history st);
  sn_waiting : waiting (groups st);
  sn_due : due (groups st) = ∅;
  sn_settled : settled_open (groups st);
  sn_timed : timed st = []
}.
Lemma settle_total st w f : books cfg (journal st) (groups st) (history st) → waiting (groups st) →
  due_ok cfg w (groups st) → settled_open (groups st) → timed st = [] → _watermark cfg (journal st) = Ok (w, f) →
  ∃ st', _settle cfg st = Ok st' ∧ sane st' ∧ journal st' = journal st ∧ open (groups st') ⊆ open (groups st) ∧
    ∀ a i, (a, i) ∈ pending (groups st') → w <= a + window.
Proof.
  intros B Hw Hdue Hso Ht Hwm. unfold _settle. rewrite Hwm. cbn [mbind res_bind].
  destruct (ripe_groups_total _ _ w _ B Hdue Hw) as (g1 & ripe & -> & B1 & Eo & Es & Hdue1 & [R1 R2 R3 R4 R5]). cbn [mbind res_bind].
  destruct (closes_total cfg Hkeyed Hpoints Hdistinct Hcheck (journal st) f ripe g1 (history st) B1 R1 R3) as (g2 & h2 & -> & B2 & L2).
  cbn [mbind res_bind].
  assert (waiting g2) as Hw2.
  { apply (waiting_leaves (mjoin ripe) g1 g2 L2); [by apply stays_closed| |done]. intros a m Hm Hin. by apply (R3 m Hin) in Hm. }
  assert (∀ a i, (a, i) ∈ pending g2 → w <= a + window) as Hq2 by (rewrite (lv_pending _ _ _ L2); done).
  destruct (let_gos_total (journal st) f (sorted (elements (due g2 ∩ dom (open g2)))) g2 h2 B2 Hw2) as (g3 & h3 & -> & B3 & Hw3 & L3).
  { apply group_NoDup. }
  { intros i. rewrite elem_of_group, elem_of_intersection, elem_of_dom. intros [Hd Ho]. split; [done|].
    assert (i ∉ mjoin ripe) as Hn.
    { intros Hin. destruct Ho as [s Hs]. rewrite (lv_open _ _ _ L2), decide_True in Hs by done. done. }
    destruct Ho as [s Hs]. pose proof Hs as Hs1. rewrite (leaves_open _ _ _ _ L2) in Hs1 by done.
    rewrite (lv_due _ _ _ L2) in Hd. destruct (Hdue1 i s Hd Hs1) as [Hset Hlt]. split; [by apply (lv_settled _ _ _ L2)|].
    intros a Ha. destruct (bk_queued _ _ _ _ B2 a i Ha) as (s' & Hs' & <-). specialize (Hq2 _ _ Ha). simplify_eq. lia. }
  cbn [mbind res_bind]. rewrite Ht. cbn. eexists. split; [reflexivity|]. cbn.
  assert (settled_open g3) as Hso3.
  { eapply settled_open_leaves, settled_open_leaves; [exact L3|exact L2|]. unfold settled_open. by rewrite Eo, Es. }
  split_and!; [split|done| |]; cbn; try done.
  - eapply books_ext; [..|exact B3]; done.
  - rewrite <- Eo. apply map_subseteq_spec. intros x s. rewrite (lv_open _ _ _ L3), (lv_open _ _ _ L2).
    by repeat case_decide.
  - rewrite (lv_pending _ _ _ L3). done.
Qed.
(** What remains open after that is held by something the watermark has not passed. *)
Lemma settled_empty g w : waiting g → (∀ a i, (a, i) ∈ pending g → w <= a + window) →
  (∀ i s, open g !! i = Some s → at_us s + window < w) → open g = ∅.
Proof.
  intros Hw Hq Hold. apply map_eq. intros i. rewrite lookup_empty. destruct (open g !! i) as [s|] eqn:E; [|done].
  destruct (Hw i) as (s' & m & sm & Hs & _ & Hm & Hp & _); [by eexists|]. specialize (Hq _ _ Hp). specialize (Hold _ _ Hm). lia.
Qed.

(** ** Opening an observation *)

Lemma books_journal jn jn' g h : (∀ i, is_Some (positions jn !! i) → is_Some (positions jn' !! i)) →
  books cfg jn g h → books cfg jn' g h.
Proof. intros Hp [? ? ? ? B5 ? ? ?]. split; auto. Qed.
(** A decision written as final needs no book. *)
Lemma books_final jn g h at_ key p forced : books cfg jn g h → books cfg jn g (_emit at_ h key p true forced).1.
Proof.
  intros [B1 B2 B3 B4 B5 B6 B7 B8]. split; try done; simpl.
  - intros i ks k Hi Hk. destruct (B4 i ks k Hi Hk) as [? ?]. split; [done|].
    destruct (decide (key = k)) as [<- |]; [rewrite lookup_insert_eq; eauto|by rewrite lookup_insert_ne].
  - intros k d. rewrite lookup_insert_Some. intros [[<- <-]|[_ ?]]; [done|by apply B8].
Qed.
Lemma opened_holders i (vs : list (string * string)) (m : gmap (string * string) (gset (string * Z))) v x :
  x ∈ default ∅ (foldl (λ m v, <[v := {[i]} ∪ default ∅ (m !! v)]> m) m vs !! v) ↔ x ∈ default ∅ (m !! v) ∨ (x = i ∧ v ∈ vs).
Proof.
  revert m. induction vs as [|u vs IH]; intros m; simpl; [rewrite elem_of_nil; tauto|]. rewrite IH, elem_of_cons.
  destruct (decide (u = v)) as [-> |Hne]; [rewrite lookup_insert_eq|rewrite lookup_insert_ne by done; naive_solver].
  simpl. rewrite elem_of_union, elem_of_singleton. tauto.
Qed.
Lemma open_one_books jn g h s : books cfg jn g h → open g !! identity (observation s) = None → settled_open g →
  Exact._validate (points cfg) (observation s) = Ok tt → is_Some (positions jn !! identity (observation s)) →
  books cfg jn (open_one cfg s g) h.
Proof.
  intros [[C1 C2] [I1 I2] B3 B4 B5 B6 B7 B8] Hi Hso Hv Hp. set (i := identity (observation s)) in *.
  assert (∀ j, is_Some (<[i:=s]> (open g) !! j) ↔ j = i ∨ is_Some (open g !! j)) as Ho.
  { intros j. rewrite lookup_insert_is_Some. destruct (decide (i = j)); naive_solver. }
  split; simpl; fold i.
  - split; simpl; intros j x; rewrite lookup_insert_Some; intros [[<- <-]|[_ ?]]; [done|by apply C1|done|by eapply C2].
  - split; simpl; fold i.
    + intros v j. rewrite opened_holders, I1. setoid_rewrite lookup_insert_Some. split.
      * intros [(x & Hx & Hvx)|[-> Hvs]]; [|exists s; split; [by left|done]]. exists x. split; [|done]. right. split; [|done]. intros E. rewrite <- E, Hi in Hx. done.
      * intros (x & [[<- <-]|[_ Hx]] & Hvx); [by right|left; eauto].
    + intros j x Hj. rewrite lookup_insert_Some. intros [[<- _]|[_ Hx]]; [|by eapply I2].
      apply Hso, elem_of_dom in Hj as [y Hy]. congruence.
  - intros j [-> |Hj]%Ho; [rewrite lookup_insert_eq; eauto|]. destruct (decide (i = j)) as [<- |]; [rewrite lookup_insert_eq; eauto|].
    rewrite lookup_insert_ne by done. by apply B3.
  - intros j ks k. rewrite lookup_insert_Some. intros [[_ <-]|[_ Hj]]; [by intros ?%elem_of_empty|by apply B4].
  - intros j [-> |Hj]%Ho; [done|by apply B5].
  - by apply insort_sorted.
  - intros a j. rewrite insort_perm, elem_of_cons. intros [[= -> ->]|Hj]; [exists s; by rewrite lookup_insert_eq|].
    destruct (B7 a j Hj) as (x & Hx & ?). exists x. split; [|done]. rewrite lookup_insert_ne; [done|congruence].
  - intros k d Hd Hst. destruct (B8 k d Hd Hst) as (Hk & ks & Hks & Hin). split; [by apply Ho; right|]. exists ks. split; [|done].
    rewrite lookup_insert_ne; [done|]. intros E. rewrite <- E, Hi in Hk. by destruct Hk.
Qed.
Lemma open_one_waiting g s : open g !! identity (observation s) = None → waiting g → waiting (open_one cfg s g).
Proof.
  intros Hi Hw j. simpl. rewrite lookup_insert_is_Some. set (i := identity (observation s)) in *. intros [<- |[Hne Hj]].
  - exists s, i, s. simpl. fold i. rewrite lookup_insert_eq. split_and!; [done|done|done| |done]. rewrite insort_perm. left.
  - destruct (Hw j Hj) as (x & m & sm & Hx & Hc & Hm & Hp & Hle). exists x, m, sm. simpl. fold i.
    rewrite (lookup_insert_ne _ i j) by done. rewrite (lookup_insert_ne _ i m) by congruence. split_and!; [done| |done| |done].
    + eapply connected_mono; [|exact Hc]. simpl. by apply insert_subseteq.
    + rewrite insort_perm. by right.
Qed.

(** ** Progress *)

(** A source has been told up to a time; all have. *)
Definition reported T jn (src : string) : Prop := ∃ p, od_get src (progress jn) = Some (Some p) ∧ T <= p.
Definition ahead T jn : Prop := ∀ src, src ∈ (progress jn).*1 → reported T jn src.
Record clocked jn : Prop := {
  ck_sources : (progress jn).*1 = sources (config cfg);
  ck_first src p : od_get src (progress jn) = Some (Some p) → is_Some (first_at jn)
}.
Lemma clocked_told jn : clocked jn → is_Some (first_at jn) → told jn.
Proof.
  intros [E _] Hf. split; [done|]. intros Ep. rewrite Ep in E. by destruct (checked cfg Hcheck) as (_ & _ & []).
Qed.
Lemma sources_distinct jn : clocked jn → NoDup (progress jn).*1.
Proof.
  intros [-> _]. unfold _check in Hcheck. apply bind_Ok in Hcheck as ([] & H%check_Ok & _).
  apply andb_true_iff in H as [_ H]. by apply bool_decide_eq_true in H.
Qed.
Lemma ahead_first T jn : clocked jn → ahead T jn → is_Some (first_at jn).
Proof.
  intros Hc Ha. destruct (progress jn) as [|[src q] l] eqn:E.
  - destruct Hc as [Hs _]. rewrite E in Hs. by destruct (checked cfg Hcheck) as (_ & _ & []).
  - destruct (Ha src) as (p & Hp & _); [rewrite E; left|]. by eapply (ck_first _ Hc).
Qed.
Lemma advance_total jn src t : clocked jn → src ∈ (progress jn).*1 → ∃ jn', _advance jn src t = Ok jn' ∧ clocked jn' ∧
  is_Some (first_at jn') ∧ seen jn' = seen jn ∧ positions jn' = positions jn ∧ reported t jn' src ∧
  (∀ T src', reported T jn src' → reported T jn' src') ∧ (∀ T, t < T → ahead T jn' → ahead T jn).
Proof.
  intros [Hs Hf] Hin. unfold _advance. destruct (od_get_Some _ _ Hin) as [q Hq]. rewrite Hq. cbn [get mbind res_bind].
  set (new := Some match q with None => t | Some p => Z.max p t end).
  assert ((od_set src new (progress jn)).*1 = (progress jn).*1) as Ek by by apply od_set_dom.
  eexists. split; [done|]. split_and!; simpl; try done.
  - split; simpl; [congruence|eauto].
  - eexists. simpl. rewrite od_get_set, decide_True by done. split; [done|]. destruct q; lia.
  - intros T src' (p & Hp & Hle). unfold reported. simpl. rewrite od_get_set. case_decide as E; [|eauto].
    rewrite <- E, Hq in Hp. injection Hp as ->. eexists. split; [done|]. lia.
  - intros T Ht Ha src' Hin'. destruct (Ha src') as (p & Hp & Hle); [simpl; by rewrite Ek|]. unfold reported. simpl in Hp.
    rewrite od_get_set in Hp. case_decide as E; [|eauto]. rewrite <- E, Hq. unfold new in Hp. injection Hp as <-.
    destruct q as [q|]; [|lia]. exists q. split; [done|lia].
Qed.
Lemma watermark_ahead T jn w f : clocked jn → ahead T jn → _watermark cfg jn = Ok (w, f) → T - lateness_us (config cfg) <= w.
Proof.
  intros Hc Ha. pose proof (sources_distinct jn Hc) as Hnd. unfold _watermark. intros H. apply bind_Ok in H as (first & _ & H).
  assert (∀ p, p ∈ effective_progress jn first → T <= p) as He.
  { intros p (e & -> & Hin)%list_elem_of_fmap. destruct (Ha e.1) as (q & Hq & Hle); [by apply list_elem_of_fmap_2|].
    destruct e as [src o]. simpl in *. rewrite (od_get_in _ _ o Hnd Hin) in Hq. injection Hq as ->. done. }
  destruct (effective_progress jn first) as [|e es]; [done|].
  set (holding := List.filter _ _) in H. assert (∀ p, p ∈ holding → T <= p) as Hh by (intros p [Hp _]%elem_of_filter_bool; by apply He).
  destruct holding as [|x l]; [done|]. injection H as <- _. pose proof (Hh _ (min_of_elem x l)). lia.
Qed.

(** ** Entries *)

Definition admissible jn (e : Entry) : Prop :=
  match e with
  | ESeen s => accepted cfg jn s ∧ ∀ before, seen jn !! identity (observation s) = Some before → content_of before = content_of s
  | EAdvance src _ => src ∈ (progress jn).*1
  end.
Record ready st : Prop := {
  rd_sane : sane st;
  rd_clocked : clocked (journal st);
  rd_seen i : is_Some (open (groups st) !! i) → is_Some (seen (journal st) !! i)
}.
(** What was delivered ends before a time, and is closed once every source is past it. *)
Definition before T (s : Seen) : Prop := at_us s + window + lateness_us (config cfg) < T.
Record calm T st : Prop := {
  cm_open : ahead T (journal st) → open (groups st) = ∅;
  cm_before i s : open (groups st) !! i = Some s → before T s
}.
Lemma before_bounds T s : before T s → at_us s < T - lateness_us (config cfg) ∧ at_us s < T.
Proof.
  unfold before. destruct (checked cfg Hcheck) as (_ & Hl & _). assert (0 <= window) as Hw; [|lia].
  unfold _check in Hcheck. apply bind_Ok in Hcheck as ([] & _ & H). apply bind_Ok in H as ([] & H%check_Ok & _). by apply Z.leb_le.
Qed.

Lemma sane_journal jn' st : (∀ i, is_Some (positions (journal st) !! i) → is_Some (positions jn' !! i)) → sane st →
  sane (mkFlow jn' (groups st) (history st) (timed st)).
Proof. intros Hp [B ? ? ? ?]. split; try done. simpl. by eapply books_journal. Qed.
Lemma sane_final st at_ key p : sane st →
  sane (mkFlow (journal st) (groups st) (_emit at_ (history st) key p true false).1 (timed st)).
Proof. intros [B ? ? ? ?]. split; try done. simpl. by apply books_final. Qed.

Lemma late_total jn s : clocked jn → ∃ late,
  (match first_at jn with None => Ok false | Some _ => '(w, _) ← _watermark cfg jn; Ok (at_us s <? w) end) = Ok late ∧
  ∀ T, before T s → ahead T jn → late = true.
Proof.
  intros Hc. destruct (first_at jn) as [f|] eqn:Ef.
  - destruct (watermark_total cfg Hcheck jn) as (w & fo & E); [apply clocked_told; [done|by eexists]|]. rewrite E. cbn [mbind res_bind].
    eexists. split; [done|]. intros T Hb Ha. apply before_bounds in Hb as [Hb _]. pose proof (watermark_ahead T jn w fo Hc Ha E).
    apply Z.ltb_lt. lia.
  - exists false. split; [done|]. intros T _ Ha. apply (ahead_first T jn Hc) in Ha as [? ?]. congruence.
Qed.

(** An observation that is opened, evaluated, and settled. *)
Lemma enter_total st s : sane st → clocked (journal st) → is_Some (first_at (journal st)) →
  open (groups st) !! identity (observation s) = None → is_Some (positions (journal st) !! identity (observation s)) →
  Exact._validate (points cfg) (observation s) = Ok tt → ∃ st',
    (let g := open_one cfg s (groups st) in
     group ← _group_of cfg g (identity (observation s));
     '(g, h) ← _evaluate cfg (journal st) g (history st) group;
     _settle cfg (mkFlow (journal st) g h [])) = Ok st' ∧
    sane st' ∧ journal st' = journal st ∧ open (groups st') ⊆ <[identity (observation s) := s]> (open (groups st)).
Proof.
  intros [B Hw Hd Hso Ht] Hc Hf Hi Hp Hv. cbv zeta. set (i := identity (observation s)) in *. set (g := open_one cfg s (groups st)).
  pose proof (open_one_books _ _ _ s B Hi Hso Hv Hp) as B1. pose proof (open_one_waiting _ s Hi Hw) as Hw1. fold g in B1, Hw1.
  assert (is_Some (open g !! i)) as Hio by (unfold g; simpl; fold i; rewrite lookup_insert_eq; eauto).
  destruct (group_of_ok cfg g i (bk_indexed _ _ _ _ B1) Hio) as (S & HS & ->). cbn [mbind res_bind].
  destruct (watermark_total cfg Hcheck (journal st)) as (w & f & Ew); [by apply clocked_told|].
  destruct (evaluate_total cfg Hkeyed Hpoints Hdistinct Hcheck (journal st) g (history st) (sorted (elements S)) w f B1)
    as (g2 & h2 & -> & B2 & Hd2 & Eo & Ep & Es); [| |apply group_NoDup|done|].
  - intros x s' Hx. unfold g in Hx. simpl in Hx. rewrite Hd in Hx. by apply elem_of_empty in Hx.
  - intros x. rewrite elem_of_group, (HS x). intros Hx. by eapply connected_open.
  - cbn [mbind res_bind].
    destruct (settle_total (mkFlow (journal st) g2 h2 []) w f) as (st' & -> & Hs' & Ej & Hsub & _); simpl; try done.
    + intros x Hx. rewrite Eo in Hx. eapply waits_ext; [done|done|by apply Hw1].
    + unfold settled_open. rewrite Eo. etrans; [exact Es|]. apply union_least; [|done]. unfold g. simpl.
      rewrite dom_insert_L. etrans; [exact Hso|]. set_solver.
    + exists st'. split_and!; [done|done|done|]. etrans; [exact Hsub|]. simpl. by rewrite Eo.
Qed.

Lemma calm_same T st st' : open (groups st') = open (groups st) → (ahead T (journal st') → ahead T (journal st)) →
  calm T st → calm T st'.
Proof. intros Eo Ha [H1 H2]. split; rewrite Eo; auto. Qed.
Definition reports st st' : Prop := ∀ T src, reported T (journal st) src → reported T (journal st') src.
Lemma seen_total st s : ready st → admissible (journal st) (ESeen s) → ∃ st', _seen cfg st s = Ok st' ∧ ready st' ∧
  reports st st' ∧ ∀ T, calm T st → before T s → calm T st'.
Proof.
  intros [Hs Hc Hseen] [(Hv & Hsrc & Hti) Hsame]. unfold _seen. rewrite Hv. cbn [mbind res_bind].
  unfold _declared. rewrite bool_decide_eq_true_2 by done. cbn [check mbind res_bind]. rewrite Hti. cbn [mbind res_bind].
  set (i := identity (observation s)) in *. destruct (seen (journal st) !! i) as [old|] eqn:Ei.
  { rewrite (Hsame old eq_refl), bool_decide_eq_true_2 by done. cbn [check mbind res_bind]. eexists. split; [done|]. split.
    - split; [by apply sane_journal|by destruct Hc; split|done].
    - split; [by intros T src|]. intros T Hcm _. by eapply calm_same; [..|exact Hcm]. }
  set (jn := mkJournal _ _ _ _ _ _). assert (clocked jn) as Hc1 by (destruct Hc; by split).
  destruct (late_total jn s Hc1) as (late & E & Hlate). rewrite E. cbn [mbind res_bind]. clear E.
  destruct (advance_total jn (o_source (observation s)) (at_us s) Hc1 Hsrc) as (jn' & -> & Hc' & Hf' & Es & Ep & _ & Hrep & Ha). cbn [mbind res_bind].
  assert (∀ T, before T s → ahead T jn' → ahead T (journal st) ∧ late = true) as Hpast.
  { intros T Hb Hj. assert (ahead T jn) as H by (apply Ha; [by apply before_bounds|done]). split; [done|by eapply Hlate]. }
  assert (∀ j, is_Some (positions (journal st) !! j) → is_Some (positions jn' !! j)) as Hpos.
  { intros j Hj. rewrite Ep. simpl. rewrite lookup_insert_is_Some. destruct (decide (i = j)); auto. }
  assert (∀ j, is_Some (seen jn' !! j) ↔ i = j ∨ is_Some (seen (journal st) !! j)) as Hsn.
  { intros j. rewrite Es. simpl. rewrite lookup_insert_is_Some. destruct (decide (i = j)); naive_solver. }
  assert (∀ h, sane (mkFlow jn' (groups st) h (timed st)) → ready (mkFlow jn' (groups st) h (timed st))) as Hready.
  { intros h Hh. split; [done|done|]. simpl. intros j Hj. apply Hsn. right. by apply Hseen. }
  pose proof (sane_journal jn' st Hpos Hs) as Hs'. pose proof (Hready _ Hs') as Hr'.
  destruct late.
  { eexists. split; [done|]. split; [apply Hready; exact (sane_final _ _ _ _ Hs')|]. split; [exact Hrep|].
    intros T Hcm Hb. eapply calm_same; [..|exact Hcm]; [done|]. simpl. intros Hj. by apply (Hpast T Hb) in Hj as [? _]. }
  rewrite (sn_timed _ Hs). cbn [over_joins fold_res mbind res_bind]. rewrite <- (sn_timed _ Hs).
  destruct (reused cfg (groups st) (observation s)) as [|[k v] rest].
  - assert (open (groups st) !! i = None) as Hio.
    { destruct (open (groups st) !! i) as [x|] eqn:E; [|done]. destruct (Hseen i) as [? ?]; [by eexists|]. congruence. }
    destruct (enter_total (mkFlow jn' (groups st) (history st) (timed st)) s Hs' Hc' Hf' Hio) as (st' & E & Hst' & Ej & Hsub); [|done|].
    { simpl. rewrite Ep. simpl. fold i. rewrite lookup_insert_eq. eauto. }
    cbv zeta in E. simpl in E. rewrite (sn_timed _ Hs). fold i in E. rewrite E. exists st'. split; [done|]. simpl in Ej, Hsub. split.
    + split; [done|by rewrite Ej|]. rewrite Ej. intros j [x Hx]. apply Hsn. eapply lookup_weaken in Hx; [|exact Hsub].
      apply lookup_insert_Some in Hx as [[? _]|[_ Hx]]; [by left|right]. apply Hseen. by eexists.
    + split; [unfold reports; by rewrite Ej|]. intros T [_ Hcm] Hb. split; [rewrite Ej; intros Hj; by apply (Hpast T Hb) in Hj as [_ ?]|].
      intros j x Hx. eapply lookup_weaken in Hx; [|exact Hsub]. apply lookup_insert_Some in Hx as [[_ <-]|[_ Hx]]; [done|by eapply Hcm].
  - eexists. split; [done|]. split; [apply Hready; exact (sane_final _ _ _ _ Hs')|]. split; [exact Hrep|].
    intros T Hcm Hb. eapply calm_same; [..|exact Hcm]; [done|]. simpl. intros Hj. by apply (Hpast T Hb) in Hj as [? _].
Qed.
Lemma advanced_total st src until : ready st → admissible (journal st) (EAdvance src until) → ∃ st',
  feed cfg st (EAdvance src until) = Ok st' ∧ ready st' ∧ reports st st' ∧ reported until (journal st') src ∧
  ∀ T, calm T st → calm T st'.
Proof.
  intros [Hs Hc Hseen] Hsrc. cbn [feed]. unfold _declared. rewrite bool_decide_eq_true_2 by done. cbn [check mbind res_bind].
  set (jn := mkJournal _ _ _ _ _ _). assert (clocked jn) as Hc1 by (destruct Hc; by split).
  destruct (advance_total jn src until Hc1 Hsrc) as (jn' & -> & Hc' & Hf' & Es & Ep & Hrep & Hmono & _). cbn [mbind res_bind].
  assert (sane (mkFlow jn' (groups st) (history st) (timed st))) as [B Hw Hd Hso Ht] by (apply sane_journal; [by rewrite Ep|done]).
  destruct (watermark_total cfg Hcheck jn') as (w & f & Ew); [by apply clocked_told|].
  destruct (settle_total (mkFlow jn' (groups st) (history st) (timed st)) w f) as (st' & E & Hst' & Ej & Hsub & Hq); simpl; try done.
  { intros x s Hx. simpl in Hd. rewrite Hd in Hx. by apply elem_of_empty in Hx. }
  simpl in Ej, Hsub. exists st'. split_and!; [done| |unfold reports; by rewrite Ej|by rewrite Ej|].
  - split; [done|by rewrite Ej|]. rewrite Ej, Es. intros i [x Hx]. apply Hseen. eapply lookup_weaken in Hx; [|done]. by eexists.
  - intros T [_ Hcm]. assert (∀ i s, open (groups st') !! i = Some s → before T s) as Hb.
    { intros i s Hi. eapply Hcm, lookup_weaken; [exact Hi|done]. }
    split; [|done]. rewrite Ej. intros Ha. eapply settled_empty; [apply (sn_waiting _ Hst')|exact Hq|].
    intros i s Hi%Hb. pose proof (watermark_ahead T jn' w f Hc' Ha Ew). unfold before in Hi. lia.
Qed.

Lemma feed_total st e : ready st → admissible (journal st) e → ∃ st', feed cfg st e = Ok st' ∧ ready st' ∧ reports st st' ∧
  (∀ src until, e = EAdvance src until → reported until (journal st') src) ∧
  ∀ T, calm T st → (∀ s, e = ESeen s → before T s) → calm T st'.
Proof.
  intros Hr Ha. destruct e as [s|src until].
  - destruct (seen_total st s Hr Ha) as (st' & E & ? & ? & Hc). exists st'. split_and!; [done..|]. intros T HT Hb. by apply Hc, Hb.
  - destruct (advanced_total st src until Hr Ha) as (st' & E & ? & ? & ? & Hc). exists st'.
    split_and!; [done..|by intros ?? [= <- <-]|auto].
Qed.

(** A journal of declared sources, valid observations and one content per identity. *)
Record deliverable (entries : list Entry) : Prop := {
  dv_seen s : ESeen s ∈ entries → Exact._validate (points cfg) (observation s) = Ok tt ∧
    o_source (observation s) ∈ sources (config cfg) ∧ _times s = Ok tt;
  dv_advance src until : EAdvance src until ∈ entries → src ∈ sources (config cfg);
  dv_same s s' : ESeen s ∈ entries → ESeen s' ∈ entries →
    identity (observation s) = identity (observation s') → content_of s = content_of s'
}.
Lemma flow_feeds_total all entries : deliverable all → ∀ st, ready st → flow_true cfg (λ _, True) True st →
  (∀ i x, seen (journal st) !! i = Some x → ESeen x ∈ all ∧ i = identity (observation x)) →
  (∀ e, e ∈ entries → e ∈ all) → ∃ st', fold_res (feed cfg) entries st = Ok st' ∧ ready st' ∧ reports st st' ∧
  (∀ src until, EAdvance src until ∈ entries → reported until (journal st') src) ∧
  ∀ T, calm T st → (∀ s, ESeen s ∈ entries → before T s) → calm T st'.
Proof.
  intros Hd. induction entries as [|e entries IH]; intros st Hr Ht Hseen Hall.
  { exists st. split_and!; [done|done|by intros T src|by intros ?? ?%not_elem_of_nil|done]. }
  assert (admissible (journal st) e) as Ha.
  { pose proof (ck_sources _ (rd_clocked _ Hr)) as Es. destruct e as [s|src until]; simpl.
    - destruct (dv_seen _ Hd s) as (? & ? & ?); [apply Hall; left|]. split; [split_and!; [done|by rewrite Es|done]|].
      intros old Ho. destruct (Hseen _ _ Ho) as [? E]. apply (dv_same _ Hd); [done|apply Hall; left|done].
    - rewrite Es. apply (dv_advance _ Hd src until), Hall. left. }
  destruct (feed_total st e Hr Ha) as (st1 & E & Hr1 & Hm1 & Hrep1 & Hc1).
  destruct (feed_true cfg (λ _, True) True Hkeyed st e st1 Ht ltac:(by intros ? _ ? ? ?) E) as [Ht1 Hs1].
  destruct (IH st1 Hr1 Ht1) as (st' & E' & Hr' & Hm' & Hrep' & Hc').
  - intros i x Hx. destruct (Hs1 i x Hx) as [?|[-> ->]]; [by apply Hseen|]. split; [apply Hall; left|done].
  - intros x Hx. apply Hall. by right.
  - exists st'. cbn [fold_res]. rewrite E. cbn [mbind res_bind]. split_and!; [done|done| | |].
    + intros T src H. by apply Hm', Hm1.
    + intros src until Hin. apply elem_of_cons in Hin as [E1|?]; [|by apply Hrep']. by apply Hm', Hrep1.
    + intros T HT Hb. apply Hc'; [apply Hc1; [done|]|]; intros s; [intros ->|]; intros; apply Hb; [left|by right].
Qed.
End waiting.

(** ** Replays *)

Section replays.
Context (repr_str : string → string) (engine_version : string).
Implicit Types (t : Topology) (c : FlowConfig).
Notation settings := (init_settings repr_str engine_version).

(** The values that unite observations have distinct names. *)
Definition value_names t : list string :=
  elements (list_to_set (map_to_list (join_key_of t)).*2 : gset string) ++
  (observed_key <$> remove_dups (map_to_list (observed_of t)).*2).
Lemma omap_names {A} (name : A → string) (f : A → option string) l :
  sublist (omap (λ k, (λ v, (name k, v)) <$> f k) l).*1 (name <$> l).
Proof.
  induction l as [|k l IH]; [done|]. cbn [omap list_omap]. rewrite fmap_cons.
  destruct (f k); cbn [fmap option_fmap option_map]; [rewrite fmap_cons|]; by constructor.
Qed.
Lemma value_names_distinct t c o : NoDup (value_names t) → NoDup (_values (settings t c) o).
Proof.
  intros H. apply (NoDup_fmap_1 fst). unfold _values. rewrite fmap_app. eapply sublist_NoDup.
  2: { apply sublist_app; [apply (omap_names (λ k, k))|apply omap_names]. }
  unfold sorted. rewrite list_fmap_id, !sorted_by_perm. exact H.
Qed.

Lemma effective_last r k : od_get k (effective r) = last (chain k (result_decisions r)).
Proof.
  unfold effective. induction (result_decisions r) as [|d l IH] using rev_ind; [done|].
  rewrite foldl_snoc, od_get_set, flow_chain_app, IH. unfold chain at 3. cbn [List.filter].
  destruct (decide (business_key d = k)) as [E|E]; [rewrite bool_decide_eq_true_2 by done|rewrite bool_decide_eq_false_2 by done].
  - by rewrite last_snoc.
  - by rewrite app_nil_r.
Qed.
Lemma effective_keys r : NoDup (effective r).*1.
Proof. unfold effective. apply foldl_inv; [apply NoDup_nil_2|]. intros m d _. apply od_set_NoDup. Qed.
Lemma current_last t entries c joins st k : NoDup (timing_of c).*1 → _timed_joins t c = Ok joins →
  fold_res (feed (settings t c)) entries (init_state (settings t c) joins) = Ok st →
  current (history st) !! k = last (chain k (decisions (history st))).
Proof.
  intros Hnd Hj Hst. edestruct (feeds_ok (settings t c) False joins.*1) as [_ Hs]; [..|exact Hst|].
  - by rewrite (timed_joins_wheres _ _ _ Hj).
  - done.
  - by apply replay_start.
  - apply (flow_steps_history False _ _ _ Hs (history_init False)).
Qed.

Lemma init_ready t c : _check c = Ok tt → ready (settings t c) (init_state (settings t c) []).
Proof.
  intros Hc. split.
  - assert (∀ (x : string * Z) (P : Prop), is_Some ((∅ : gmap (string * Z) Seen) !! x) → P) as Hn by (intros x P [? H]; by rewrite lookup_empty in H).
    split; simpl; try done; [|intros x; apply Hn]. split; simpl; try done; try (intros x; apply Hn); try apply SSorted_nil; try (intros x ? ? H; simpl in H; by rewrite lookup_empty in H).
    split; simpl; [|intros ? ? H; set_solver]. intros v i. rewrite lookup_empty. simpl. split; [set_solver|].
    intros (s & Hs & _). by rewrite lookup_empty in Hs.
    intros a i H. by apply not_elem_of_nil in H.
  - split; simpl; [by rewrite <- list_fmap_compose, list_fmap_id|].
    intros src p H. apply od_get_elem, list_elem_of_fmap in H as (x & [= _] & _).
  - intros i [? H]. simpl in H. by rewrite lookup_empty in H.
Qed.

(** What a replay accepted was deliverable. *)
Lemma feeds_grow t c entries st st' : fold_res (feed (settings t c)) entries st = Ok st' → grows (journal st) (journal st').
Proof.
  apply (fold_res_ind (λ st', grows (journal st) (journal st'))); [done|].
  intros e s1 s2 _ Hg Hf. apply feed_grows in Hf as [Hf _]. by etrans.
Qed.
Lemma feeds_declared t c entries st st' src until : fold_res (feed (settings t c)) entries st = Ok st' →
  EAdvance src until ∈ entries → src ∈ (progress (journal st)).*1.
Proof.
  revert st. induction entries as [|e l IH]; intros st H Hin; [by apply not_elem_of_nil in Hin|].
  cbn [fold_res] in H. apply bind_Ok in H as (st1 & H1 & H). apply elem_of_cons in Hin as [<- |Hin].
  - cbn [feed] in H1. apply bind_Ok in H1 as ([] & H1 & _). by apply check_Ok, bool_decide_eq_true in H1.
  - apply feed_grows in H1 as [[_ <-] _]. by eapply IH.
Qed.
Lemma accepted_deliverable t c joins entries st :
  fold_res (feed (settings t c)) entries (init_state (settings t c) joins) = Ok st → deliverable (settings t c) entries.
Proof.
  intros H. pose proof (feeds_grow _ _ _ _ _ H) as [_ Ek]. simpl in Ek. rewrite <- list_fmap_compose, list_fmap_id in Ek.
  split.
  - intros s Hs. destruct (feeds_known _ _ _ _ s H Hs) as [_ (? & Hd & ?)]. by rewrite Ek in Hd.
  - intros src until Hin. pose proof (feeds_declared _ _ _ _ _ _ _ H Hin) as Hd. simpl in Hd. by rewrite <- list_fmap_compose, list_fmap_id in Hd.
  - intros s s' Hs Hs' E. destruct (feeds_known _ _ _ _ s H Hs) as [(x & Hx & <-) _].
    destruct (feeds_known _ _ _ _ s' H Hs') as [(x' & Hx' & <-) _]. rewrite E in Hx. by simplify_eq.
Qed.
Lemma replays_total t entries c : plain t → NoDup (value_names t) → timing_of c = [] → _check c = Ok tt →
  deliverable (settings t c) entries → ∃ st, _timed_joins t c = Ok [] ∧
    fold_res (feed (settings t c)) entries (init_state (settings t c) []) = Ok st ∧ ready (settings t c) st ∧
    (∀ src until, EAdvance src until ∈ entries → reported until (journal st) src) ∧
    ∀ T, (∀ s, ESeen s ∈ entries → before (settings t c) T s) → calm (settings t c) T st.
Proof.
  intros Ht Hn Hu Hc Hd.
  destruct (flow_feeds_total (settings t c) (plain_keyed _ _ _ _ Ht) eq_refl (λ o, value_names_distinct t c o Hn) Hc entries entries Hd
    (init_state (settings t c) [])) as (st & E & Hr & _ & Hrep & Hcalm).
  - by apply init_ready.
  - split; simpl; [intros ??; simpl; by intros ?%lookup_empty_Some|apply hist_init|done].
  - intros i x Hx. simpl in Hx. by apply lookup_empty_Some in Hx.
  - done.
  - exists st. split_and!; [unfold _timed_joins; by rewrite Hu|done|done|done|]. intros T Hb. apply Hcalm; [|done].
    split; [done|]. intros i s Hi. simpl in Hi. by apply lookup_empty_Some in Hi.
Qed.
Lemma flow_replayable t entries c : plain t → NoDup (value_names t) → timing_of c = [] → _check c = Ok tt →
  deliverable (settings t c) entries → ∃ r, replay_flow repr_str engine_version t entries c = Ok r.
Proof.
  intros Ht Hn Hu Hc Hd. destruct (replays_total t entries c Ht Hn Hu Hc Hd) as (st & Ej & E & _).
  eexists. unfold replay_flow. rewrite Hc. cbn [mbind res_bind]. rewrite Ej. cbn [mbind res_bind]. by rewrite E.
Qed.
(** Once every source is past what was delivered, nothing is provisional. *)
Lemma replay_settled t entries c r T : plain t → NoDup (value_names t) → timing_of c = [] →
  replay_flow repr_str engine_version t entries c = Ok r →
  (∀ src, src ∈ sources c → ∃ until, EAdvance src until ∈ entries ∧ T <= until) →
  (∀ s, ESeen s ∈ entries → at_us s + window_us c + lateness_us c < T) →
  ∀ e, e ∈ effective r → status e.2 = FINAL.
Proof.
  intros Ht Hn Hu H Hsrc Hold e He. pose proof H as (joins & st & Hj & Hst & ->)%replay_run.
  assert (_check c = Ok tt) as Hc by (unfold replay_flow in H; by apply bind_Ok in H as ([] & ? & _)).
  destruct (replays_total t entries c Ht Hn Hu Hc (accepted_deliverable _ _ _ _ _ Hst))
    as (st' & Ej & E & Hr & Hrep & Hcalm).
  rewrite Hj in Ej. injection Ej as ->. rewrite Hst in E. injection E as <-.
  assert (open (groups st) = ∅) as Ho.
  { apply (cm_open _ _ _ (Hcalm T Hold)). intros src Hs. rewrite (ck_sources _ _ (rd_clocked _ _ Hr)) in Hs.
    destruct (Hsrc src Hs) as (until & Hin & Hle). destruct (Hrep src until Hin) as (p & Hp & ?). exists p. split; [done|lia]. }
  destruct e as [k d]. simpl. apply (od_get_in _ _ _ (effective_keys _)) in He.
  rewrite effective_last in He. simpl in He.
  rewrite <- (current_last t entries c [] st) in He; [|rewrite Hu; apply NoDup_nil_2|done|done].
  destruct (decide (status d = FINAL)) as [|Hne]; [done|].
  destruct (bk_unfinal _ _ _ _ (sn_books _ _ (rd_sane _ _ Hr)) k d He Hne) as [[x Hx] _]. rewrite Ho in Hx. by apply lookup_empty_Some in Hx.
Qed.
End replays.

(** ** Guarantees *)

(** C10: which journals a flow answers.  Over a topology whose joins and value names are
    distinct, and without timed joins, a replay returns exactly when the configuration is
    valid and the journal is deliverable: every observation is valid and well timed, every
    source it names is declared, and an identity never comes with two contents.  No queue,
    index or bookkeeping of the open groups can fail on the way, nor does a search of a
    group run on. *)
Theorem flow_accepts repr_str version t entries c : plain t → NoDup (value_names t) → timing_of c = [] →
  (∃ r, replay_flow repr_str version t entries c = Ok r) ↔
  _check c = Ok tt ∧ deliverable (init_settings repr_str version t c) entries.
Proof.
  intros Ht Hn Hu. split.
  - intros [r H]. pose proof H as (joins & st & _ & Hst & _)%replay_run. split; [|by eapply accepted_deliverable].
    unfold replay_flow in H. by apply bind_Ok in H as ([] & ? & _).
  - intros [Hc Hd]. by apply (flow_replayable repr_str version t entries c).
Qed.

(** C11: a flow settles.  Without timed joins, once the progress of every source has been
    told up to a time, in any order and mixed with the observations in any way, and every
    observation lies further before it than the window and the lateness, no decision in
    force is provisional: the last decision of each key is final. *)
Theorem flow_settles repr_str version t entries c r T : plain t → NoDup (value_names t) → timing_of c = [] →
  replay_flow repr_str version t entries c = Ok r →
  (∀ src, src ∈ sources c → ∃ until, EAdvance src until ∈ entries ∧ T <= until) →
  (∀ s, ESeen s ∈ entries → at_us s + window_us c + lateness_us c < T) →
  ∀ e, e ∈ effective r → status e.2 = FINAL.
Proof. apply replay_settled. Qed.

(** ** A concrete flow, for the witnesses *)

Definition untimed : FlowConfig := mkConfig ["g.log"; "b.log"; "d.log"]%string 10 0 None 32 None None None.
Definition untimed_result : FlowResult :=
  match replay_flow ex_repr "0.1.0" two_hops ex_entries untimed with Ok r => r | Raise _ => mkFlowResult [] [] 0 end.
Lemma untimed_replay : replay_flow ex_repr "0.1.0" two_hops ex_entries untimed = Ok untimed_result.
Proof. vm_compute. reflexivity. Qed.
Lemma two_hops_plain : plain two_hops.
Proof.
  split; [apply (bool_decide_eq_true_1 (NoDup _)); vm_compute; reflexivity|apply (bool_decide_eq_true_1 (NoDup _)); vm_compute; reflexivity| |].
  - apply Forall_forall, (bool_decide_eq_true_1 (Forall (λ j, j_key j ≠ ""%string) (exact_joins two_hops))). vm_compute. reflexivity.
  - apply Forall_forall, (bool_decide_eq_true_1 (Forall (λ j, j_key j ≠ []) (observed_joins two_hops))). vm_compute. reflexivity.
Qed.
Lemma two_hops_names : NoDup (value_names two_hops).
Proof. apply (bool_decide_eq_true_1 (NoDup _)). vm_compute. reflexivity. Qed.
(** Why the names of the values must be distinct: an observed join on the very identifier
    of an authored one unites by the same pair twice, and releasing it the second time
    raises.  No topology that [load] returns has one. *)
Definition same_name : Topology :=
  mkTopology [gateway; backend]
    [mkHopCeiling "gateway" "backend" "call" AUTHORED SHARED_HEADER None None (Some "request_id"%string)
       (Some ["request_id"%string])] [].
Example same_name_raises :
  value_names same_name = ["request_id"; "request_id"]%string ∧
  replay_flow ex_repr "0.1.0" same_name
    [ESeen (ex_seen (sent 1 "a") 0 None); EAdvance "g.log" 40; EAdvance "b.log" 40]
    (mkConfig ["g.log"; "b.log"]%string 10 0 None 32 None None None) = Raise KeyError.
Proof. split; vm_compute; reflexivity. Qed.

(** ** Witnesses *)

Lemma flow_accepts_witness :
  (_check untimed = Ok tt ∧ deliverable (init_settings ex_repr "0.1.0" two_hops untimed) ex_entries) ∧
  ¬ deliverable (init_settings ex_repr "0.1.0" two_hops untimed) (ex_entries ++ [EAdvance "x.log" 50]).
Proof.
  split.
  - apply (flow_accepts ex_repr "0.1.0" two_hops ex_entries untimed two_hops_plain two_hops_names eq_refl).
    exists untimed_result. exact untimed_replay.
  - intros Hd. destruct (flow_accepts ex_repr "0.1.0" two_hops (ex_entries ++ [EAdvance "x.log" 50]) untimed two_hops_plain two_hops_names eq_refl)
      as [_ H]. destruct (H (conj eq_refl Hd)) as [r Hr]. vm_compute in Hr. discriminate Hr.
Defined.
Lemma flow_settles_witness :
  effective untimed_result ≠ [] ∧ ∀ e, e ∈ effective untimed_result → status e.2 = FINAL.
Proof.
  split; [vm_compute; discriminate|].
  apply (flow_settles ex_repr "0.1.0" two_hops ex_entries untimed untimed_result 40 two_hops_plain two_hops_names eq_refl untimed_replay).
  - intros src Hs. exists 40. split; [|lia]. simpl in Hs. rewrite !elem_of_cons in Hs.
    destruct Hs as [-> |[-> |[-> |Hs]]];
      [by apply (list_elem_of_lookup_2 _ 6)|by apply (list_elem_of_lookup_2 _ 7)|by apply (list_elem_of_lookup_2 _ 8)|by apply not_elem_of_nil in Hs].
  - assert (Forall (λ e, match e with ESeen s => at_us s + window_us untimed + lateness_us untimed < 40 | EAdvance _ _ => True end) ex_entries)
      as H by (repeat apply List.Forall_cons; try exact I; try (vm_compute; reflexivity); apply List.Forall_nil).
    rewrite Forall_forall in H. intros s Hs. exact (H _ Hs).
Defined.
