(* ===== verification/FlowLate.v ===== *)
(** * FlowLate: who is decided late

    An observation is decided LATE only when an earlier entry of the journal was further
    ahead of it than the tolerated lateness, whatever else the journal holds; and it is
    whenever every source had been told that far. *)

From S2P Require Import Prelude Digest Topology Dedup Assignment Timing FlowTimed Exact Flow FlowTheorems FlowSound FlowProgress FlowSettles.

(** The time an entry tells. *)
Definition time_of (e : Entry) : Z := match e with ESeen s => at_us s | EAdvance _ until => until end.

Section late.
Context (cfg : Settings).
Implicit Types (st : Flow) (jn : Journal).

(** Every time the journal keeps was told by an entry. *)
Record told_by (pre : list Entry) jn : Prop := {
  tb_progress e p : e ∈ progress jn → e.2 = Some p → p ∈ time_of <$> pre;
  tb_first f : first_at jn = Some f → f ∈ time_of <$> pre;
  tb_seen s : ESeen s ∈ pre → is_Some (seen jn !! identity (observation s))
}.
(** An entry that is told and, if it is an observation, seen. *)
Lemma told_by_next pre e jn : told_by pre jn → (∀ s, e = ESeen s → is_Some (seen jn !! identity (observation s))) →
  told_by (pre ++ [e]) jn.
Proof.
  intros [H1 H2 H3] Hs. split; try (intros; rewrite fmap_app, elem_of_app; left; eauto).
  intros s [Hin|Hin%list_elem_of_singleton]%elem_of_app; [by apply H3|by apply Hs].
Qed.
Lemma told_by_grows pre jn jn' : progress jn' = progress jn → first_at jn' = first_at jn → seen jn ⊆ seen jn' →
  told_by pre jn → told_by pre jn'.
Proof.
  intros Ep Ef Es [H1 H2 H3]. split; rewrite ?Ep, ?Ef; [done|done|]. intros s Hs. destruct (H3 s Hs) as [x Hx].
  exists x. by eapply lookup_weaken.
Qed.
Lemma advance_told pre e src jn jn' : _advance jn src (time_of e) = Ok jn' → told_by pre jn →
  (∀ s, e = ESeen s → is_Some (seen jn !! identity (observation s))) → told_by (pre ++ [e]) jn'.
Proof.
  intros H Ht Hs. apply (told_by_next _ e) in Ht as [H1 H2 H3]; [|done]. unfold _advance in H.
  apply bind_Ok in H as (q & Hq%get_Ok & [= <-]).
  assert (time_of e ∈ time_of <$> (pre ++ [e])) as He by (rewrite fmap_app, elem_of_app; right; left).
  split; simpl; [| |done].
  - intros x p [-> |Hx]%od_set_elem Hp; [|by eapply H1]. simpl in Hp. injection Hp as <-.
    destruct q as [q|]; [|done]. apply od_get_elem in Hq. pose proof (H1 _ q Hq eq_refl).
    by destruct (Z.max_spec q (time_of e)) as [[_ ->]|[_ ->]].
  - intros f [= <-]. destruct (first_at jn) as [f|]; [|done]. pose proof (H2 f eq_refl).
    by destruct (Z.min_spec f (time_of e)) as [[_ ->]|[_ ->]].
Qed.
(** The watermark is the time of an entry, less the lateness. *)
Lemma watermark_told pre jn w f : told_by pre jn → _watermark cfg jn = Ok (w, f) →
  w + lateness_us (config cfg) ∈ time_of <$> pre.
Proof.
  intros [H1 H2 _] H. unfold _watermark in H. apply bind_Ok in H as (first & Hf%get_Ok & H).
  assert (∀ p, p ∈ effective_progress jn first → p ∈ time_of <$> pre) as He.
  { intros p (e & -> & Hin)%list_elem_of_fmap. destruct e as [src [p|]]; simpl; [by eapply H1|by apply H2]. }
  destruct (effective_progress jn first) as [|e es]; [done|].
  set (holding := List.filter _ _) in H. assert (∀ p, p ∈ holding → p ∈ time_of <$> pre) as Hh by (intros p [Hp _]%elem_of_filter_bool; by apply He).
  destruct holding as [|x l]; [done|]. injection H as <- _. rewrite Z.sub_add. apply Hh, min_of_elem.
Qed.
Lemma feed_told pre st e st' : told_by pre (journal st) → feed cfg st e = Ok st' → told_by (pre ++ [e]) (journal st').
Proof.
  intros Ht. destruct e as [s|src until]; cbn [feed]; intros H.
  - unfold _seen in H. do 3 apply bind_Ok in H as (_ & _ & H).
    destruct (seen (journal st) !! identity (observation s)) as [before|] eqn:Es.
    { apply bind_Ok in H as (_ & _ & [= <-]). apply told_by_next; [by eapply told_by_grows; [..|exact Ht]|]. simpl. intros ? [= <-]. by exists before. }
    apply bind_Ok in H as (late & _ & H). apply bind_Ok in H as (jn & Hjn & H).
    assert (told_by (pre ++ [ESeen s]) jn) as Htj.
    { eapply advance_told; [exact Hjn| |].
      - eapply told_by_grows; [..|exact Ht]; [done|done|]. simpl. by apply insert_subseteq.
      - simpl. intros ? [= <-]. rewrite lookup_insert_eq. eauto. }
    destruct late; [by injection H as <-|]. apply bind_Ok in H as ([h joins] & _ & H).
    destruct (reused _ _ _) as [|[k v] rest]; [|by injection H as <-].
    apply bind_Ok in H as (group & _ & H). apply bind_Ok in H as ([g h1] & _ & H).
    apply _settle_journal in H as ->. exact Htj.
  - apply bind_Ok in H as (_ & _ & H). apply bind_Ok in H as (jn & Hjn & H). apply _settle_journal in H as ->. simpl.
    eapply (advance_told pre (EAdvance src until)); [exact Hjn| |done]. by eapply told_by_grows; [..|exact Ht].
Qed.
End late.

(** An entry before the first delivery of the observation is further ahead of it than the
    lateness. *)
Definition behind (lateness : Z) (entries : list Entry) (i : string * Z) : Prop :=
  ∃ pre s post e, entries = pre ++ ESeen s :: post ∧ i = identity (observation s) ∧
    (∀ s', ESeen s' ∈ pre → identity (observation s') ≠ i) ∧ e ∈ pre ∧ at_us s + lateness < time_of e.

Lemma feeds_late cfg nameless entries : keyed cfg → ∀ todo pre st st', entries = pre ++ todo → told_by pre (journal st) →
  flow_true cfg (behind (lateness_us (config cfg)) entries) nameless st → fold_res (feed cfg) todo st = Ok st' →
  flow_true cfg (behind (lateness_us (config cfg)) entries) nameless st'.
Proof.
  intros Hk. induction todo as [|e todo IH]; intros pre st st' E Ht Htrue H; [by injection H as <-|].
  cbn [fold_res] in H. apply bind_Ok in H as (st1 & H1 & H).
  eapply (IH (pre ++ [e])); [by rewrite <- app_assoc|by eapply feed_told| |exact H].
  eapply (feed_true _ _ _ Hk) in H1 as [? _]; [done|done|]. intros s -> Hnew w f Hw Hlt. exists pre, s, todo.
  pose proof (watermark_told cfg pre _ w f Ht Hw) as (x & Ex & Hx)%list_elem_of_fmap. exists x. split_and!; [done|done| |done|lia].
  intros s' Hs' Es. destruct (tb_seen _ _ Ht s' Hs') as [y Hy]. rewrite Es, Hnew in Hy. done.
Qed.

Lemma replay_late repr_str version t entries c r d : plain t →
  replay_flow repr_str version t entries c = Ok r → d ∈ result_decisions r → kind d = LATE →
  behind (lateness_us c) entries (business_key d).2.
Proof.
  intros Ht H Hd Hk. apply replay_run in H as (joins & st & _ & Hst & ->). simpl in Hd.
  eapply (feeds_late (init_settings repr_str version t c) True entries (plain_keyed _ _ _ _ Ht) entries []) in Hst as [_ Hh _]; [|done|..].
  - by apply (sy_late _ _ _ _ _ _ _ _ _ (ho_says _ _ _ _ _ Hh d Hd)).
  - split; simpl; [|done|by intros ? ?%not_elem_of_nil]. intros e p (x & -> & _)%list_elem_of_fmap. done.
  - split; simpl; [intros ??; simpl; by intros ?%lookup_empty_Some|apply hist_init|done].
Qed.

(** ** Who is always late *)

(** A first delivery behind what every source has told is decided late. *)
Lemma seen_behind cfg T st s st' : _check (config cfg) = Ok tt → clocked cfg (journal st) → ahead T (journal st) →
  at_us s + lateness_us (config cfg) < T → seen (journal st) !! identity (observation s) = None → feed cfg st (ESeen s) = Ok st' →
  ∃ d, d ∈ decisions (history st') ∧ business_key d = (""%string, identity (observation s)) ∧ kind d = LATE ∧ status d = FINAL.
Proof.
  intros Hc Hck Ha Hb Hi H. cbn [feed] in H. unfold _seen in H. do 3 apply bind_Ok in H as (_ & _ & H). rewrite Hi in H.
  apply bind_Ok in H as (late & Hl & H). apply bind_Ok in H as (jn & _ & H).
  destruct (ahead_first cfg Hc T _ Hck Ha) as [f Ef]. simpl in Hl. rewrite Ef in Hl. apply bind_Ok in Hl as ([w fo] & Hw & [= <-]).
  assert (T - lateness_us (config cfg) <= w) as Hle by (eapply (watermark_ahead cfg Hc); [| |exact Hw]; [by destruct Hck; split|exact Ha]).
  rewrite (proj2 (Z.ltb_lt _ _)) in H by lia. injection H as <-. simpl. eexists. split; [apply elem_of_app; right; left|].
  split_and!; done.
Qed.

Section replays.
Context (repr_str : string → string) (engine_version : string).
Implicit Types (t : Topology) (c : FlowConfig).

(** What a decision in force says of what was delivered, without timed joins. *)
Lemma effective_key r k d : od_get k (effective r) = Some d → business_key d = k ∧ d ∈ result_decisions r.
Proof.
  rewrite effective_last. intros H%last_Some_elem_of. unfold chain in H. by apply elem_of_filter_bool in H as [? ?%bool_decide_eq_true].
Qed.
Lemma replay_says t entries c r k d : plain t → timing_of c = [] → replay_flow repr_str engine_version t entries c = Ok r →
  od_get k (effective r) = Some d → ∃ sn, (∀ i s, sn !! i = Some s → ESeen s ∈ entries ∧ i = identity (observation s)) ∧
  says (init_settings repr_str engine_version t c) (λ _, True) False sn k (kind d) (dkey d) (value d) (partners d).
Proof.
  intros Ht Hu H [<- Hd]%effective_key. apply replay_run in H as (joins & st & Hj & Hst & ->). simpl in Hd.
  assert (joins = []) as -> by (unfold _timed_joins in Hj; rewrite Hu in Hj; by injection Hj as <-).
  apply (feeds_true _ (λ _, True) False) in Hst as [[_ Hh _] Hs]; [|by apply plain_keyed|done|].
  - exists (seen (journal st)). split; [|apply (ho_says _ _ _ _ _ Hh d Hd)]. intros i s Hi.
    destruct (Hs i s Hi) as [Hx|?]; [simpl in Hx; by apply lookup_empty_Some in Hx|done].
  - split; simpl; [intros ??; simpl; by intros ?%lookup_empty_Some|apply hist_init|done].
Qed.
(** A final decision is the one in force. *)
Lemma final_effective t entries c r d : NoDup (timing_of c).*1 → disjoint_wheres t c →
  replay_flow repr_str engine_version t entries c = Ok r → d ∈ result_decisions r → status d = FINAL →
  od_get (business_key d) (effective r) = Some d.
Proof.
  intros Hnd Hsep H Hd Hf. destruct (replay_history repr_str engine_version True t entries c r Hnd) as (st & [Hc _] & E & _); [done|done|].
  destruct (Hc (business_key d)) as [_ Hok]. rewrite <- E in Hok. rewrite effective_last.
  assert (d ∈ chain (business_key d) (result_decisions r)) as [n Hn]%list_elem_of_lookup
    by (apply elem_of_filter_bool; split; [done|by apply bool_decide_eq_true_2]).
  destruct (Hok n d Hn) as (_ & _ & _ & _ & Hlast). rewrite last_lookup, <- (Hlast I Hf). done.
Qed.
Lemma replay_behind t entries c r T pre s post : plain t → NoDup (value_names t) → timing_of c = [] →
  replay_flow repr_str engine_version t entries c = Ok r → entries = pre ++ ESeen s :: post →
  (∀ src, src ∈ sources c → ∃ until, EAdvance src until ∈ pre ∧ T <= until) → at_us s + lateness_us c < T →
  (∀ s', ESeen s' ∈ pre → identity (observation s') ≠ identity (observation s)) →
  ∃ d, od_get (""%string, identity (observation s)) (effective r) = Some d ∧ kind d = LATE.
Proof.
  intros Ht Hn Hu H E Hsrc Hb Hfirst. pose proof H as (joins & st & Hj & Hst & ->)%replay_run.
  assert (_check c = Ok tt) as Hc by (unfold replay_flow in H; by apply bind_Ok in H as ([] & ? & _)).
  assert (joins = []) as -> by (unfold _timed_joins in Hj; rewrite Hu in Hj; by injection Hj as <-).
  pose proof (accepted_deliverable _ _ _ _ _ _ _ Hst) as Hd. set (cfg := init_settings repr_str engine_version t c) in *.
  assert (deliverable cfg pre) as Hdp.
  { destruct Hd as [H1 H2 H3]. split; [intros x Hx; apply H1|intros x u Hx; apply (H2 x u)|intros x y Hx Hy; apply H3]; rewrite E; apply elem_of_app; by left. }
  destruct (replays_total repr_str engine_version t pre c Ht Hn Hu Hc Hdp) as (st1 & _ & H1 & Hr & Hrep & _). fold cfg in H1, Hr.
  rewrite E, fold_res_app, H1 in Hst. cbn [mbind res_bind fold_res] in Hst. apply bind_Ok in Hst as (st2 & H2 & Hst).
  destruct (seen_behind cfg T st1 s st2 Hc (rd_clocked _ _ Hr)) as (d & Hdd & Ek & Hk & Hf); [|exact Hb| |exact H2|].
  - intros src Hin. rewrite (ck_sources _ _ (rd_clocked _ _ Hr)) in Hin. destruct (Hsrc src Hin) as (until & Hin' & Hle).
    destruct (Hrep src until Hin') as (p & Hp & ?). exists p. split; [done|lia].
  - destruct (seen (journal st1) !! identity (observation s)) as [x|] eqn:Ex; [|done].
    apply (feeds_true _ (λ _, True) True) in H1 as [_ Hs1]; [|by apply plain_keyed|done|].
    + destruct (Hs1 _ _ Ex) as [Hx|[Hx Ei]]; [simpl in Hx; by apply lookup_empty_Some in Hx|]. by apply Hfirst in Hx.
    + split; simpl; [intros ??; simpl; by intros ?%lookup_empty_Some|apply hist_init|done].
  - exists d. rewrite <- Ek. split; [|done]. eapply final_effective; [by rewrite Hu; apply NoDup_nil_2|intros w; rewrite Hu; by intros ?%not_elem_of_nil|exact H| |done].
    simpl. assert (decisions (history st2) ⊆ decisions (history st)) as Hsub; [|by apply Hsub].
    assert (flow_ok cfg False [] (init_state cfg [])) as Hok by (apply (replay_start repr_str engine_version False t c []); [rewrite Hu; apply NoDup_nil_2|done]).
    assert (False → separate cfg []) as Hsep by done.
    apply (feeds_ok cfg False [] (NoDup_nil_2) Hsep) in H1 as [Hok1 _]; [|done].
    apply (feed_ok cfg False [] (NoDup_nil_2) Hsep) in H2 as [Hok2 _]; [|done].
    apply (feeds_ok cfg False [] (NoDup_nil_2) Hsep) in Hst as [_ Hs]; [|done].
    apply flow_steps_append in Hs as [[new ->] _]. set_solver.
Qed.
End replays.

(** ** Redelivery *)

Definition is_seen (e : Entry) : bool := match e with ESeen _ => true | EAdvance _ _ => false end.
Lemma feed_counts cfg st e st' : feed cfg st e = Ok st' →
  duplicates (journal st') + Z.of_nat (size (seen (journal st'))) =
  duplicates (journal st) + Z.of_nat (size (seen (journal st))) + (if is_seen e then 1 else 0).
Proof.
  assert (∀ jn src until jn', _advance jn src until = Ok jn' → seen jn' = seen jn ∧ duplicates jn' = duplicates jn) as Ha.
  { intros jn src until jn' H. unfold _advance in H. by apply bind_Ok in H as (q & _ & [= <-]). }
  assert (∀ st st', _settle cfg st = Ok st' → journal st' = journal st) as Hs by (intros; by eapply _settle_journal).
  destruct e as [s|src until]; cbn [feed is_seen]; intros H.
  - unfold _seen in H. do 3 apply bind_Ok in H as (_ & _ & H). set (i := identity (observation s)) in *.
    destruct (seen (journal st) !! i) as [before|] eqn:Ei; [apply bind_Ok in H as (_ & _ & [= <-]); simpl; lia|].
    apply bind_Ok in H as (late & _ & H). apply bind_Ok in H as (jn & [Es Ed]%Ha & H). simpl in Es, Ed.
    assert (duplicates jn + Z.of_nat (size (seen jn)) = duplicates (journal st) + Z.of_nat (size (seen (journal st))) + 1) as E.
    { rewrite Es, Ed, map_size_insert_None by done. lia. }
    destruct late; [by injection H as <-|]. apply bind_Ok in H as ([h joins] & _ & H).
    destruct (reused _ _ _) as [|[k v] rest]; [|by injection H as <-].
    apply bind_Ok in H as (group & _ & H). apply bind_Ok in H as ([g h1] & _ & H). by rewrite (Hs _ _ H).
  - apply bind_Ok in H as (_ & _ & H). apply bind_Ok in H as (jn & [Es Ed]%Ha & H). rewrite (Hs _ _ H). simpl in *.
    rewrite Es, Ed. lia.
Qed.
(** Every delivery of an observation beyond its first is counted. *)
Lemma feeds_count cfg entries : ∀ st st', fold_res (feed cfg) entries st = Ok st' →
  duplicates (journal st') + Z.of_nat (size (seen (journal st'))) =
  duplicates (journal st) + Z.of_nat (size (seen (journal st))) + Z.of_nat (length (List.filter is_seen entries)).
Proof.
  induction entries as [|e l IH]; intros st st' H; cbn [fold_res] in H; [injection H as <-; simpl; lia|].
  apply bind_Ok in H as (st1 & H1%feed_counts & H%IH). cbn [List.filter]. destruct (is_seen e); simpl; lia.
Qed.

(** ** Guarantees *)

(** C13: who is decided late.  In any flow over a topology whose joins have distinct names,
    timed joins or not, an observation is decided LATE only when some entry before its first
    delivery told a time further ahead than the tolerated lateness: a journal out of order by
    no more than the lateness loses nothing to it.  Conversely, without timed joins, an
    observation first delivered after every source has told a time further ahead than that
    has, in force, a decision that it is LATE. *)
Theorem flow_late_cause repr_str version t entries c r : plain t → replay_flow repr_str version t entries c = Ok r →
  (∀ d, d ∈ result_decisions r → kind d = LATE → behind (lateness_us c) entries (business_key d).2) ∧
  (NoDup (value_names t) → timing_of c = [] → ∀ T pre s post, entries = pre ++ ESeen s :: post →
     (∀ src, src ∈ sources c → ∃ until, EAdvance src until ∈ pre ∧ T <= until) → at_us s + lateness_us c < T →
     (∀ s', ESeen s' ∈ pre → identity (observation s') ≠ identity (observation s)) →
     ∃ d, od_get (""%string, identity (observation s)) (effective r) = Some d ∧ kind d = LATE).
Proof.
  intros Ht H. split; [intros d; by apply (replay_late repr_str version t entries c)|].
  intros Hn Hu T pre s post. by apply (replay_behind repr_str version t entries c r T pre s post).
Qed.

(** ** Witnesses *)

Lemma flow_late_cause_witness :
  (∃ d, od_get (""%string, ("g.log"%string, 3)) (effective untimed_result) = Some d ∧ kind d = LATE) ∧
  behind 0 ex_entries ("g.log"%string, 3).
Proof.
  destruct (flow_late_cause ex_repr "0.1.0" two_hops ex_entries untimed untimed_result two_hops_plain untimed_replay) as [H1 H2].
  destruct (H2 two_hops_names eq_refl 40 (take 9 ex_entries) (ex_seen (sent 3 "c") 9 None) [] eq_refl) as (d & Hd & Hk).
  - intros src Hs. exists 40. split; [|lia]. simpl in Hs. rewrite !elem_of_cons in Hs.
    destruct Hs as [-> |[-> |[-> |Hs]]];
      [by apply (list_elem_of_lookup_2 _ 6)|by apply (list_elem_of_lookup_2 _ 7)|by apply (list_elem_of_lookup_2 _ 8)|by apply not_elem_of_nil in Hs].
  - reflexivity.
  - assert (Forall (λ e, match e with ESeen s => identity (observation s) ≠ ("g.log"%string, 3) | EAdvance _ _ => True end) (take 9 ex_entries)) as H
      by (repeat apply List.Forall_cons; try exact I; try (vm_compute; discriminate); apply List.Forall_nil).
    rewrite Forall_forall in H. intros s' Hs'. exact (H _ Hs').
  - split; [exists d; exact (conj Hd Hk)|]. destruct (result_decisions untimed_result !! 7%nat) as [d'|] eqn:E; [|exfalso; vm_compute in E; discriminate E].
    assert (kind d' = LATE ∧ (business_key d').2 = ("g.log"%string, 3)) as [Hk' Ei] by (clear -E; vm_compute in E; injection E as <-; done).
    clear Hd Hk. rewrite <- Ei. apply (H1 d'); [by apply list_elem_of_lookup_2 in E|exact Hk'].
Defined.
