(* ===== verification/FlowExact.v ===== *)
(** * FlowExact: the flow refines the exact path

    [correlation/flow.py] decides as the journal comes; [correlation/exact.py] reads a
    whole set of observations at once.  What the flow did not set aside (an observation
    delivered late, or on a value already closed) it decides as the exact path would: at a
    join with one signal, the decision in force has the fingerprint of the outcome of
    [exact_links] on all that was admitted, linked, collided or unlinked.  Each evaluation
    rereads the whole group, so what an observation changes is what it shares a value with;
    what has been closed shares no value with what comes later. *)

From S2P Require Import Prelude Digest Topology Dedup Assignment Timing FlowTimed Exact Flow FlowTheorems FlowSound FlowProgress FlowSettles FlowLate.

Notation BusinessKey := (string * (string * Z))%type (only parsing).
Notation Outcome := (Kind * option string * option string * list (string * Z))%type (only parsing).
Notation Outs := (gmap (string * (string * Z)) Outcome) (only parsing).
Notation held os side key v := (Exact.holders _value_of os side key v).

(** ** The outcomes of the exact path *)

(** What a join says of an identity on one of its ends. *)
Definition joined_as (os : list Observation) (j : Join string) (v : string) (i : string * Z) : Outcome :=
  let up := held os (j_up j) (j_key j) v in
  let down := held os (j_down j) (j_key j) v in
  if (1 <? Z.of_nat (length up)) || (1 <? Z.of_nat (length down))
  then (COLLIDED, Some (j_key j), Some v, if bool_decide (i ∈ up) then down else up)
  else match up, down with
       | [u], [d] => (LINKED, Some (j_key j), Some v, if bool_decide (i = u) then [d] else [u])
       | _, _ => (UNLINKED, Some (j_key j), Some v, [])
       end.
Definition on_end (os : list Observation) (j : Join string) (v : string) (i : string * Z) : Prop :=
  i ∈ held os (j_up j) (j_key j) v ++ held os (j_down j) (j_key j) v.

Lemma joined_as_ext os os' j v i : held os (j_up j) (j_key j) v = held os' (j_up j) (j_key j) v →
  held os (j_down j) (j_key j) v = held os' (j_down j) (j_key j) v → joined_as os j v i = joined_as os' j v i.
Proof. unfold joined_as. by intros -> ->. Qed.

Lemma holders_perm os os' side key v : os ≡ₚ os' → held os side key v = held os' side key v.
Proof.
  intros Hp. unfold Exact.holders. f_equal. apply by_value_perm. unfold by_side_of. rewrite !at_key_group.
  apply under_perm. by rewrite Hp.
Qed.
Lemma exact_joins_sides t j : j ∈ exact_joins t → j_up j ≠ j_down j.
Proof.
  unfold exact_joins. intros [(x & _ & E)%list_elem_of_omap|(x & _ & E)%list_elem_of_omap]%elem_of_app.
  - destruct (hc_key x); simplify_eq/=. congruence.
  - destruct (cc_key x); simplify_eq/=. congruence.
Qed.
Lemma held_once os side side' key v i : NoDup (identity <$> os) → side ≠ side' →
  i ∈ held os side key v → i ∉ held os side' key v.
Proof.
  intros Hnd Hne (o & Ho & Hs & _ & Ei)%elem_of_holders (o' & Ho' & Hs' & _ & Ei')%elem_of_holders.
  assert (o = o') as <- by (apply (NoDup_fmap_inj identity os); [done..|congruence]). congruence.
Qed.
(** An identity on an end has one observation, and one value. *)
Lemma on_end_value os j v v' i : NoDup (identity <$> os) → on_end os j v i → on_end os j v' i → v = v'.
Proof.
  intros Hnd. assert (∀ v, on_end os j v i → ∃ o, o ∈ os ∧ identity o = i ∧ _value_of o (j_key j) = Some v) as H.
  { intros w [(o & ? & _ & ? & ?)%elem_of_holders|(o & ? & _ & ? & ?)%elem_of_holders]%elem_of_app; by exists o. }
  intros (o & Ho & Ei & Ev)%H (o' & Ho' & Ei' & Ev')%H.
  assert (o = o') as <- by (apply (NoDup_fmap_inj identity os); [done..|congruence]). congruence.
Qed.

(** What the evaluation of a value reports is [joined_as]. *)
Section outcomes.
Context (t : Topology) (Hplain : plain t) (os : list Observation) (Hnd : NoDup (identity <$> os)).
Context (reader : string → string * Z → res (option string * option string)).

Definition told_of (k : string * (string * Z)) (x : Outcome) : Prop :=
  ∃ j v, j ∈ exact_joins t ∧ j_where j = k.1 ∧ on_end os j v k.2 ∧ x = joined_as os j v k.2.

Lemma outcomes_dom r out : _outcomes r reader = Ok out →
  (∀ l, l ∈ r_links r → is_Some (out !! (l_where l, l_upstream l)) ∧ is_Some (out !! (l_where l, l_downstream l))) ∧
  (∀ c i, c ∈ r_collisions r → i ∈ c_upstream c ++ c_downstream c → is_Some (out !! (c_where c, i))) ∧
  (∀ e, e ∈ r_unlinked r → is_Some (out !! e)).
Proof.
  unfold _outcomes. set (m1 := foldl _ ∅ (r_links r)). set (m2 := foldl _ m1 (r_collisions r)). intros H.
  assert (∀ {A V} (key : A → string * (string * Z)) (val : A → V) (l : list A) (m : gmap (string * (string * Z)) V) k,
    is_Some (foldl (λ m x, <[key x := val x]> m) m l !! k) ↔ is_Some (m !! k) ∨ ∃ x, x ∈ l ∧ key x = k) as Hins.
  { intros A V key val l. induction l as [|x l IH]; intros m k; simpl.
    - split; [by left|]. intros [?|(x & ?%not_elem_of_nil & _)]; done.
    - rewrite IH, lookup_insert_is_Some. setoid_rewrite elem_of_cons. destruct (decide (key x = k)); naive_solver. }
  assert (∀ ls (m : Outs) k, is_Some (m !! k) ∨ (∃ l, l ∈ ls ∧ (k = (l_where l, l_upstream l) ∨ k = (l_where l, l_downstream l))) →
    is_Some (foldl (λ (out : Outs) l,
      <[(l_where l, l_downstream l) := (LINKED, Some (l_key l), Some (l_value l), [l_upstream l])]>
        (<[(l_where l, l_upstream l) := (LINKED, Some (l_key l), Some (l_value l), [l_downstream l])]> out)) m ls !! k)) as H1.
  { clear. induction ls as [|l ls IH]; intros m k Hk; cbn [foldl].
    - by destruct Hk as [?|(l & ?%not_elem_of_nil & _)].
    - apply IH. rewrite !lookup_insert_is_Some'. destruct Hk as [?|(l' & [-> |?]%elem_of_cons & Hk)]; [tauto| |right; by exists l'].
      left. destruct Hk as [-> | ->]; tauto. }
  assert (∀ cs (m : Outs) k, is_Some (m !! k) ∨ (∃ c i, c ∈ cs ∧ i ∈ c_upstream c ++ c_downstream c ∧ k = (c_where c, i)) →
    is_Some (foldl (λ (out : Outs) c,
      let out := foldl (λ (out : Outs) i, <[(c_where c, i) := (COLLIDED, Some (c_key c), Some (c_value c), c_downstream c)]> out) out (c_upstream c) in
      foldl (λ (out : Outs) i, <[(c_where c, i) := (COLLIDED, Some (c_key c), Some (c_value c), c_upstream c)]> out) out (c_downstream c)) m cs !! k)) as H2.
  { clear -Hins. induction cs as [|c cs IH]; intros m k; simpl.
    - intros [?|(c & ? & ?%not_elem_of_nil & _)]; done.
    - intros Hk. apply IH. cbv zeta. rewrite !Hins. setoid_rewrite elem_of_cons in Hk.
      destruct Hk as [?|(c' & i & [-> |Hc'] & Hi & ->)]; [left; left; by left| |by right; exists c', i].
      apply elem_of_app in Hi as [Hi|Hi]; left; [left; right|right]; by exists i. }
  assert (∀ l (m out : Outs), fold_res (λ (out : Outs) e, '(k, v) ← reader e.1 e.2; Ok (<[(e.1, e.2) := (UNLINKED, k, v, [])]> out)) l m = Ok out →
    ∀ k, is_Some (m !! k) ∨ k ∈ l → is_Some (out !! k)) as H3.
  { clear. induction l as [|e l IH]; intros m out H k Hk; cbn [fold_res] in H.
    - injection H as <-. by destruct Hk as [?|?%not_elem_of_nil].
    - apply bind_Ok in H as (m1 & H1 & H). apply bind_Ok in H1 as ([n v] & _ & [= <-]). apply (IH _ _ H).
      rewrite lookup_insert_is_Some, elem_of_cons in *. destruct e as [w i]. simpl. destruct (decide ((w, i) = k)); naive_solver. }
  specialize (H3 _ _ _ H). split_and!.
  - intros l Hl. split; apply H3; left; apply H2; left; apply H1; right; exists l; auto.
  - intros c i Hc Hi. apply H3. left. apply H2. right. by exists c, i.
  - intros e He. apply H3. by right.
Qed.
Lemma outcome_joined j v x : j ∈ exact_joins t →
  x ∈ outcome (j_where j) (j_key j) (_by_value _value_of (at_key (by_side_of os) (j_up j)) (j_key j))
        (_by_value _value_of (at_key (by_side_of os) (j_down j)) (j_key j)) v →
  match x with
  | Linked l => l_where l = j_where j ∧ l_key l = j_key j ∧ l_value l = v ∧
      (∀ i, i = l_upstream l ∨ i = l_downstream l → on_end os j v i) ∧
      joined_as os j v (l_upstream l) = (LINKED, Some (j_key j), Some v, [l_downstream l]) ∧
      joined_as os j v (l_downstream l) = (LINKED, Some (j_key j), Some v, [l_upstream l])
  | Collided c => c_where c = j_where j ∧ c_key c = j_key j ∧ c_value c = v ∧
      (∀ i, i ∈ c_upstream c → on_end os j v i ∧ joined_as os j v i = (COLLIDED, Some (j_key j), Some v, c_downstream c)) ∧
      (∀ i, i ∈ c_downstream c → on_end os j v i ∧ joined_as os j v i = (COLLIDED, Some (j_key j), Some v, c_upstream c))
  | Unlinked w i => w = j_where j ∧ on_end os j v i ∧ joined_as os j v i = (UNLINKED, Some (j_key j), Some v, [])
  end.
Proof.
  intros Hj Hx. pose proof (exact_joins_sides t j Hj) as Hne. unfold on_end, joined_as.
  assert (∀ i, i ∈ held os (j_up j) (j_key j) v → i ∉ held os (j_down j) (j_key j) v) as Hud by (intros i; by apply held_once).
  unfold outcome in Hx.
  change (at_key (_by_value _value_of (at_key (by_side_of os) (j_up j)) (j_key j)) v) with (held os (j_up j) (j_key j) v) in Hx.
  change (at_key (_by_value _value_of (at_key (by_side_of os) (j_down j)) (j_key j)) v) with (held os (j_down j) (j_key j) v) in Hx.
  set (up := held os (j_up j) (j_key j) v) in *. set (down := held os (j_down j) (j_key j) v) in *.

  destruct ((1 <? _) || _) eqn:E.
  - apply list_elem_of_singleton in Hx as ->. cbn. split_and!; [done..| |]; intros i Hi.
    + rewrite elem_of_app, bool_decide_eq_true_2 by done. auto.
    + rewrite elem_of_app, bool_decide_eq_false_2 by (intros ?; by apply (Hud i)). auto.
  - apply orb_false_iff in E as [E1 E2]. rewrite Z.ltb_ge in E1, E2.
    destruct up as [|u [|]], down as [|d [|]]; simpl in E1, E2; try lia; [by apply not_elem_of_nil in Hx|..];
      apply list_elem_of_singleton in Hx as ->; cbn; rewrite ?list_elem_of_singleton; try done.
    assert (d ≠ u) by (intros ->; apply (Hud u); left).
    rewrite (bool_decide_eq_true_2 (u = u)), (bool_decide_eq_false_2 (d = u)) by done.
    split_and!; try done. intros i [-> | ->]; set_solver.
Qed.

(** The map of outcomes is [joined_as] on every end of every join, and nothing else. *)
Lemma outcomes_joined r out : exact_links t os = Ok r →
  (∀ e j v, e ∈ r_unlinked r → j ∈ exact_joins t → j_where j = e.1 → on_end os j v e.2 → reader e.1 e.2 = Ok (Some (j_key j), Some v)) →
  _outcomes r reader = Ok out → ∀ k x, out !! k = Some x ↔ told_of k x.
Proof.
  intros Hr Hread Hout. unfold exact_links in Hr. apply bind_Ok in Hr as ([distinct n] & Hd & [= <-]).
  apply deduplicated_spec in Hd as [Hn He].
  assert (distinct ≡ₚ os) as Hp.
  { apply NoDup_Permutation; [by eapply NoDup_fmap_1|by eapply NoDup_fmap_1|done]. }
  rewrite (join_perm _value_of id (exact_joins t) distinct os n Hp) in *.
  set (r := _join id _value_of (exact_joins t) (by_side_of os) n) in *.
  assert (∀ x, x ∈ exact_joins t ≫= join_outcomes id _value_of (by_side_of os) ↔
    ∃ j v, j ∈ exact_joins t ∧ (∃ o, o ∈ os ∧ (Exact.side_of o = j_up j ∨ Exact.side_of o = j_down j) ∧ _value_of o (j_key j) = Some v) ∧
      x ∈ outcome (j_where j) (j_key j) (_by_value _value_of (at_key (by_side_of os) (j_up j)) (j_key j))
            (_by_value _value_of (at_key (by_side_of os) (j_down j)) (j_key j)) v) as Hall.
  { intros x. rewrite list_elem_of_bind. setoid_rewrite (elem_of_outcomes _value_of id). split.
    - intros (j & (v & ? & ?) & ?). eauto 10.
    - intros (j & v & ? & ? & ?). eauto 10. }
  assert (∀ k x, out !! k = Some x → told_of k x) as Hfw.
  { apply map_Forall_lookup. eapply outcomes_ind; [| | |exact Hout].
    - intros l Hl. unfold r, _join in Hl. simpl in Hl. rewrite elem_of_sorted_by in Hl. apply list_elem_of_omap in Hl as (x & Hx & El).
      destruct x; [|done..]. injection El as ->. apply Hall in Hx as (j & v & Hj & _ & Hx).
      apply (outcome_joined j v _ Hj) in Hx as (Ew & Ek & Ev & Hend & Hu & Hdn). rewrite Ek, Ev, <- Hu, <- Hdn.
      split; exists j, v; (split_and!; [done|done|apply Hend; auto|done]).
    - intros c Hc. unfold r, _join in Hc. simpl in Hc. rewrite elem_of_sorted_by in Hc. apply list_elem_of_omap in Hc as (x & Hx & El).
      destruct x; [done| |done]. injection El as ->. apply Hall in Hx as (j & v & Hj & _ & Hx).
      apply (outcome_joined j v _ Hj) in Hx as (Ew & Ek & Ev & Hu & Hdn). rewrite Ek, Ev.
      split; intros i Hi; [apply Hu in Hi as [Hi <-]|apply Hdn in Hi as [Hi <-]]; by exists j, v.
    - intros e k v Hu Hrd. pose proof Hu as Hu'. unfold r, _join in Hu'. simpl in Hu'. unfold sorted in Hu'. rewrite elem_of_sorted_by in Hu'.
      apply list_elem_of_omap in Hu' as (x & Hx & El). destruct x; [done..|]. injection El as <-. apply Hall in Hx as (j & v' & Hj & _ & Hx).
      apply (outcome_joined j v' _ Hj) in Hx as (Ew & Hend & Hja). simpl in Ew.
      rewrite (Hread _ j v' Hu Hj (eq_sym Ew) Hend) in Hrd. injection Hrd as <- <-. rewrite <- Hja. by exists j, v'. }
  intros k x. split; [apply Hfw|]. intros (j & v & Hj & Hw & Hend & ->).
  assert (is_Some (out !! k)) as [x Hx].
  { pose proof (outcomes_dom _ _ Hout) as (D1 & D2 & D3).
    destruct (outcome_reports (j_where j) (j_key j) _ _ v _ Hend) as (x & Hx & Hrep).
    assert (x ∈ exact_joins t ≫= join_outcomes id _value_of (by_side_of os)) as Hin.
    { apply Hall. exists j, v. split_and!; [done| |done].
      apply elem_of_app in Hend as [(o & ? & ? & ? & _)%elem_of_holders|(o & ? & ? & ? & _)%elem_of_holders]; eauto 10. }
    destruct k as [w i]. simpl in *. subst w. destruct x as [l|c|w u].
    - assert (l ∈ r_links r) as Hl by (unfold r, _join; simpl; rewrite elem_of_sorted_by; apply list_elem_of_omap; eauto).
      destruct Hrep as (<- & _ & [-> | ->]); by apply D1.
    - assert (c ∈ r_collisions r) as Hc by (unfold r, _join; simpl; rewrite elem_of_sorted_by; apply list_elem_of_omap; eauto).
      destruct Hrep as (<- & _ & Hi & _). apply D2; [done|]. by apply elem_of_app.
    - assert ((w, u) ∈ r_unlinked r) as Hc by (unfold r, _join; simpl; unfold sorted; rewrite elem_of_sorted_by; apply list_elem_of_omap; eauto).
      destruct Hrep as [-> ->]. by apply D3. }
  rewrite Hx. f_equal. destruct (Hfw k x Hx) as (j' & v' & Hj' & Hw' & Hend' & ->).
  assert (j' = j) as -> by (apply (NoDup_fmap_inj j_where (exact_joins t)); [apply Hplain|done|done|congruence]).
  by rewrite (on_end_value os j v v' k.2).
Qed.
End outcomes.

(** ** What is admitted *)

Definition obs_of (M : gmap (string * Z) Seen) : list Observation := observation <$> (map_to_list M).*2.
Definition own (M : gmap (string * Z) Seen) : Prop := map_Forall (λ i s, identity (observation s) = i) M.

Lemma elem_of_obs_of M o : o ∈ obs_of M ↔ ∃ i s, M !! i = Some s ∧ observation s = o.
Proof.
  unfold obs_of. rewrite list_elem_of_fmap. split.
  - intros (s & -> & (e & -> & He)%list_elem_of_fmap). destruct e as [i s]. apply elem_of_map_to_list in He. by exists i, s.
  - intros (i & s & Hi & <-). exists s. split; [done|]. apply list_elem_of_fmap. exists (i, s). split; [done|]. by apply elem_of_map_to_list.
Qed.
Lemma obs_of_once M : own M → NoDup (identity <$> obs_of M).
Proof.
  intros Ho. assert (identity <$> obs_of M = (map_to_list M).*1) as ->; [|apply NoDup_fst_map_to_list].
  unfold obs_of. rewrite <- !list_fmap_compose. apply list_fmap_ext. intros n [i s] Hn.
  apply list_elem_of_lookup_2, elem_of_map_to_list in Hn. by apply (Ho i s).
Qed.
Lemma elem_of_held M side key v i : own M → i ∈ held (obs_of M) side key v ↔
  ∃ s, M !! i = Some s ∧ Exact.side_of (observation s) = side ∧ o_keys (observation s) !! key = Some v.
Proof.
  intros Ho. rewrite elem_of_holders. setoid_rewrite elem_of_obs_of. split.
  - intros (o & (k & s & Hk & <-) & Hs & Hv & <-). exists s. rewrite (Ho k s Hk). done.
  - intros (s & Hi & Hs & Hv). exists (observation s). split_and!; [by exists i, s|done|done|by apply (Ho i s)].
Qed.
Lemma on_end_iff M j v i : own M → on_end (obs_of M) j v i ↔ ∃ s, M !! i = Some s ∧
  (Exact.side_of (observation s) = j_up j ∨ Exact.side_of (observation s) = j_down j) ∧ o_keys (observation s) !! j_key j = Some v.
Proof. intros Ho. unfold on_end. rewrite elem_of_app, !elem_of_held by done. naive_solver. Qed.
Lemma held_ext os os' side side' key key' v v' : NoDup (identity <$> os) → NoDup (identity <$> os') →
  (∀ u, u ∈ held os side key v ↔ u ∈ held os' side' key' v') → held os side key v = held os' side' key' v'.
Proof.
  intros H1 H2 H. apply (holders_NoDup _value_of os side key v) in H1. apply (holders_NoDup _value_of os' side' key' v') in H2.
  unfold Exact.holders in *. rewrite !at_by_value in *. unfold sorted in *. setoid_rewrite elem_of_sorted_by in H.
  rewrite !sorted_by_perm in H1, H2. apply sorted_perm_eq. by apply NoDup_Permutation.
Qed.

(** ** Decisions that agree *)

Section agree.
Context (cfg : Settings).

(** A decision, up to its fingerprint, is the outcome of a join with one signal; a link
    at a join with two is a link of the exact path, unless an end lacks the key. *)
Definition agrees (M : gmap (string * Z) Seen) (j : Join string) (v : string) (i : string * Z) (d : FlowDecision) : Prop :=
  ∃ p, _fingerprint d = fingerprint p ∧
    (observed cfg !! j_where j = None → p = _single (joined_as (obs_of M) j v i) AUTHORED) ∧
    (p_kind p = LINKED → joined_as (obs_of M) j v i = (LINKED, p_key p, p_value p, p_partners p) ∨
       ∃ m s, m ∈ i :: p_partners p ∧ M !! m = Some s ∧ o_keys (observation s) !! j_key j = None).

Lemma single_parts (x : Outcome) e : x = (p_kind (_single x e), p_key (_single x e), p_value (_single x e), p_partners (_single x e)).
Proof. by destruct x as [[[k n] v] ps]. Qed.
Lemma outcome_parts (x : Outcome) e c m p : outcome_proposal x e c m = p → x = (p_kind p, p_key p, p_value p, p_partners p).
Proof. intros <-. by destruct x as [[[k n] v] ps]. Qed.
Lemma one_link_linked w i (x : Outcome) e other p : one_link w i x e other = Ok p → p_kind p = LINKED →
  x = (p_kind p, p_key p, p_value p, p_partners p) ∧ ∃ m, m ∈ i :: o_partners x ∧ other w m = Ok false.
Proof.
  unfold one_link. intros H Hk. apply bind_Ok in H as (has & Hh & H).
  destruct (sorted _) as [|m ms] eqn:Em; [destruct x as [[[k n] v] ps]; by injection H as <-|].
  injection H as H. pose proof (outcome_parts _ _ _ _ _ H) as Hx. split; [exact Hx|].
  assert (m ∈ (fst <$> List.filter (λ e : (string * Z) * bool, negb e.2) has)) as Hm.
  { rewrite <- (elem_of_sorted_by (λ x, x)). unfold sorted in Em. rewrite Em. left. }
  apply list_elem_of_fmap in Hm as ([m' b] & -> & [Hin Hb]%elem_of_filter_bool). simpl in Hb. apply negb_true_iff in Hb as ->.
  apply map_res_Forall2 in Hh. apply list_elem_of_lookup in Hin as [n Hn].
  destruct (Forall2_lookup_r _ _ _ _ _ Hh Hn) as (y & Hy & E). apply bind_Ok in E as (b & Hb & [= -> ->]).
  exists m'. split; [by apply list_elem_of_lookup_2 in Hy|done].
Qed.
Lemma combined_linked g key a o p : _combined cfg g key a o = Ok p → p_kind p = LINKED →
  a = Some (LINKED, p_key p, p_value p, p_partners p) ∨
  ∃ m, m ∈ key.2 :: p_partners p ∧ _has_authored cfg g key.1 m = Ok false.
Proof.
  destruct key as [w i]. unfold _combined. intros H Hk.
  assert (∀ (x : Outcome) e c m, outcome_proposal x e c m = p → linked (Some x) = true) as Hl.
  { intros x e c m E. apply outcome_parts in E. rewrite E. simpl. by rewrite bool_decide_eq_true_2. }
  destruct a as [a|], o as [o|]; [..|done].
  - destruct (collided (Some a)) eqn:Ca.
    { injection H as H. pose proof (outcome_parts _ _ _ _ _ H) as E. rewrite E in Ca. simpl in Ca. apply bool_decide_eq_true in Ca.
      unfold o_kind in Ca. simpl in Ca. congruence. }
    destruct (collided (Some o)) eqn:Co.
    { injection H as H. pose proof (outcome_parts _ _ _ _ _ H) as E. rewrite E in Co. simpl in Co. apply bool_decide_eq_true in Co.
      unfold o_kind in Co. simpl in Co. congruence. }
    destruct (linked (Some a)) eqn:La, (linked (Some o)) eqn:Lo; cbn [andb] in H.
    + left. unfold two_links in H. case_bool_decide; [|destruct a as [[[k n] v] ps]; by injection H as <-].
      injection H as H. by rewrite (outcome_parts _ _ _ _ _ H), Hk.
    + apply one_link_linked in H as [E _]; [|done]. left. by rewrite E, Hk.
    + apply one_link_linked in H as [E (m & Hm & Hh)]; [|done]. right. exists m. split; [|done]. rewrite E in Hm. exact Hm.
    + injection H as H. apply Hl in H. congruence.
  - destruct (linked (Some a)) eqn:La; [|injection H as H; apply Hl in H; congruence].
    apply one_link_linked in H as [E _]; [|done]. left. by rewrite E, Hk.
  - destruct (linked (Some o)) eqn:Lo; [|injection H as H; apply Hl in H; congruence].
    apply one_link_linked in H as [E (m & Hm & Hh)]; [|done]. right. exists m. split; [|done]. rewrite E in Hm. exact Hm.
Qed.

(** Without a crowd, an outcome is not definitive. *)
Lemma definitive_same g w x : crowded g = ∅ → _definitive g w x = x.
Proof.
  intros Hc. unfold _definitive. destruct x as [[[k [n|]] [v|]] ps]; try done. by rewrite Hc, lookup_empty.
Qed.
Lemma note_crowded_none g cs : (∀ c, c ∈ cs → Z.of_nat (length (c_upstream c)) + Z.of_nat (length (c_downstream c)) <= max_collision_members (config cfg)) →
  crowded (note_crowded cfg g cs) = crowded g.
Proof.
  intros H. simpl. apply foldl_inv; [done|]. intros m c Hc Hm. destruct (Z.ltb_spec (max_collision_members (config cfg)) (Z.of_nat (length (c_upstream c)) + Z.of_nat (length (c_downstream c)))) as [Hlt|]; [|done].
  specialize (H c Hc). lia.
Qed.

(** The proposals of an evaluation become the current decisions, up to their fingerprint. *)
Lemma propose_says at_ h key p : ∃ d, current (propose at_ h key p) !! key = Some d ∧ _fingerprint d = fingerprint p.
Proof.
  assert (∃ d, current (_emit at_ h key p false false).1 !! key = Some d ∧ _fingerprint d = fingerprint p) as He.
  { simpl. rewrite lookup_insert_eq. eexists. split; [done|]. by destruct p. }
  unfold propose. destruct (current h !! key) as [d|] eqn:E; [|done]. case_bool_decide; [|done]. by exists d.
Qed.
Lemma proposes_says at_ (l : list (BusinessKey * Proposal)) : ∀ h h', NoDup l.*1 →
  fold_res (λ h kp, p ← Ok kp.2; Ok (propose at_ h kp.1 p)) l h = Ok h' →
  (∀ kp, kp ∈ l → ∃ d, current h' !! kp.1 = Some d ∧ _fingerprint d = fingerprint kp.2) ∧
  ∀ k, k ∉ l.*1 → current h' !! k = current h !! k.
Proof.
  induction l as [|[k p] l IH]; intros h h' Hnd H; cbn [fold_res] in H.
  { injection H as <-. split; [by intros ? ?%not_elem_of_nil|done]. }
  apply bind_Ok in H as (h1 & [= <-] & H). apply NoDup_cons in Hnd as [Hk Hnd]. destruct (IH _ _ Hnd H) as [H1 H2]. split.
  - intros kp [-> |Hin]%elem_of_cons; [|by apply H1]. cbn [fst snd] in *. rewrite (H2 k Hk). apply propose_says.
  - intros k'. rewrite fmap_cons, not_elem_of_cons. intros [Hne Hn]. rewrite (H2 k' Hn). cbn [fst snd] in *.
    by apply propose_current.
Qed.
End agree.

(** ** Evaluation *)

Section refine.
Context (cfg : Settings) (Hkeyed : keyed cfg) (Hplain : plain (topology cfg)).
Context (Hpoints : points cfg = point_names (topology cfg)).
Context (Hdistinct : ∀ o, NoDup (_values cfg o)) (Hcheck : _check (config cfg) = Ok tt).
Context (Hkeys : ∀ j, j ∈ exact_joins (topology cfg) → j_key j ∈ Flow.join_keys cfg).
Context (Hnamed : ∀ k, exact_where cfg k → k ≠ ""%string).
Context (Hnames : ∀ w ids, observed cfg !! w = Some ids → observed_key ids ∉ Flow.join_keys cfg).
Implicit Types (g : Groups) (h : History) (jn : Journal) (M : gmap (string * Z) Seen).

(** No value is carried, on the two ends of a join, by more than a collision may hold. *)
Definition few M : Prop := ∀ j v, j ∈ exact_joins (topology cfg) →
  Z.of_nat (length (held (obs_of M) (j_up j) (j_key j) v)) + Z.of_nat (length (held (obs_of M) (j_down j) (j_key j) v)) <= max_collision_members (config cfg).
(** A group is closed when it shares no authored value with the rest. *)
Definition shut_off g M (group : list (string * Z)) : Prop :=
  ∀ x sx y sy k v, x ∈ group → open g !! x = Some sx → M !! y = Some sy → k ∈ Flow.join_keys cfg →
    o_keys (observation sx) !! k = Some v → o_keys (observation sy) !! k = Some v → y ∈ group.

Lemma held_length os os' side key v : NoDup (identity <$> os) → (∀ o, o ∈ os → o ∈ os') →
  (length (held os side key v) <= length (held os' side key v))%nat.
Proof.
  intros Hnd Hs. apply submseteq_length, NoDup_submseteq; [by apply holders_NoDup|].
  intros u. rewrite !elem_of_holders. intros (o & ? & ?). exists o. auto.
Qed.
Lemma group_observations g group os : sound_groups cfg g → NoDup group →
  map_res (λ i, s ← get (open g !! i) KeyError; Ok (observation s)) group = Ok os →
  identity <$> os = group ∧ (∀ o, o ∈ os ↔ ∃ i s, i ∈ group ∧ open g !! i = Some s ∧ observation s = o).
Proof.
  intros Hg Hnd H. apply map_res_Forall2 in H. split.
  - induction H as [|i o group os Ho _ IH]; [done|]. rewrite fmap_cons, IH by (by apply NoDup_cons in Hnd as [_ ?]). f_equal.
    apply bind_Ok in Ho as (s & Hs%get_Ok & [= <-]). by apply (sg_in _ _ Hg).
  - intros o. split.
    + intros [n Hn]%list_elem_of_lookup. destruct (Forall2_lookup_r _ _ _ _ _ H Hn) as (i & Hi & E).
      apply bind_Ok in E as (s & Hs%get_Ok & [= <-]). apply list_elem_of_lookup_2 in Hi. eauto.
    + intros (i & s & [n Hn]%list_elem_of_lookup & Hs & <-). destruct (Forall2_lookup_l _ _ _ _ _ H Hn) as (o & Ho & E).
      rewrite Hs in E. injection E as <-. by apply list_elem_of_lookup_2 in Ho.
Qed.
(** Inside a group that is shut off, the holders of its values are those of all. *)
Lemma group_held g M group os j v i : own M → open g ⊆ M → sound_groups cfg g → shut_off g M group → NoDup group →
  map_res (λ i, s ← get (open g !! i) KeyError; Ok (observation s)) group = Ok os →
  j ∈ exact_joins (topology cfg) → i ∈ group → (on_end os j v i ∨ is_Some (open g !! i) ∧ on_end (obs_of M) j v i) →
  held os (j_up j) (j_key j) v = held (obs_of M) (j_up j) (j_key j) v ∧
  held os (j_down j) (j_key j) v = held (obs_of M) (j_down j) (j_key j) v.
Proof.
  intros Ho Hsub Hg Hshut Hnd Hos Hj Hi Hend. destruct (group_observations g group os Hg Hnd Hos) as [Eid Hin].
  assert (∃ s, open g !! i = Some s ∧ o_keys (observation s) !! j_key j = Some v) as (s & Hs & Hv).
  { destruct Hend as [Hend|[[s Hs] Hend]].
    - assert (∃ o, o ∈ os ∧ identity o = i ∧ _value_of o (j_key j) = Some v) as (o & (i' & s & _ & Hs & <-)%Hin & <- & Hv).
      { apply elem_of_app in Hend as [(o & ? & _ & ? & ?)%elem_of_holders|(o & ? & _ & ? & ?)%elem_of_holders]; eauto. }
      exists s. by rewrite (sg_in _ _ Hg i' s Hs).
    - exists s. split; [done|]. apply on_end_iff in Hend as (s' & Hs' & _ & Hv); [|done].
      eapply lookup_weaken in Hs; [|exact Hsub]. by simplify_eq. }
  split; (apply held_ext; [by rewrite Eid|by apply obs_of_once|]); intros u; rewrite elem_of_held by done; rewrite elem_of_holders; split.
  1,3: intros (o & (i' & s' & Hi' & Hs' & <-)%Hin & Hsd & Hv' & <-); exists s';
    rewrite (sg_in _ _ Hg i' s' Hs'); (split_and!; [by eapply lookup_weaken|done|done]).
  all: intros (s' & Hs' & Hsd & Hv'); assert (u ∈ group) as Hu by (eapply (Hshut i s u s'); eauto);
    rewrite <- Eid in Hu; apply list_elem_of_fmap in Hu as (o & -> & Hou); exists o; pose proof Hou as (i' & s2 & _ & Hs2 & E2)%Hin;
    pose proof (sg_in _ _ Hg i' s2 Hs2) as Ei; eapply lookup_weaken in Hs2; [|exact Hsub]; subst o; rewrite <- Ei in Hs2; by simplify_eq.
Qed.

(** Every observation of the group is decided anew, as all that is admitted says. *)
Record evaluated M (group : list (string * Z)) g h g' h' : Prop := {
  ev_plain : crowded g' = ∅ ∧ settled g' = ∅ ∧ due g' = due g ∧ closed_values g' = closed_values g;
  ev_agrees j v i : j ∈ exact_joins (topology cfg) → i ∈ group → on_end (obs_of M) j v i →
    ∃ d, current h' !! (j_where j, i) = Some d ∧ agrees cfg M j v i d;
  ev_rest k : k.2 ∉ group ∨ k.1 = ""%string → current h' !! k = current h !! k;
  ev_only k d : current h' !! k = Some d → current h !! k = Some d ∨ k.2 ∈ group ∧
    (observed cfg !! k.1 = None → ∃ j v, j ∈ exact_joins (topology cfg) ∧ j_where j = k.1 ∧ on_end (obs_of M) j v k.2)
}.
Lemma exact_links_join os r : NoDup (identity <$> os) → exact_links (topology cfg) os = Ok r →
  ∃ n, r = _join id _value_of (exact_joins (topology cfg)) (by_side_of os) n.
Proof.
  intros Hnd H. unfold exact_links in H. apply bind_Ok in H as ([distinct n] & Hd & [= <-]).
  apply deduplicated_spec in Hd as [Hn He]. exists n. apply join_perm.
  apply NoDup_Permutation; [by eapply NoDup_fmap_1|by eapply NoDup_fmap_1|done].
Qed.
Lemma collisions_few M os r : own M → few M → NoDup (identity <$> os) → (∀ o, o ∈ os → o ∈ obs_of M) →
  exact_links (topology cfg) os = Ok r → ∀ c, c ∈ r_collisions r →
  Z.of_nat (length (c_upstream c)) + Z.of_nat (length (c_downstream c)) <= max_collision_members (config cfg).
Proof.
  intros Ho Hf Hnd Hs Hr c Hc. destruct (exact_links_join os r Hnd Hr) as [n ->].
  destruct (rb_collision _ _ _ _ _ (join_reported id _value_of (exact_joins (topology cfg)) os n) c Hc) as (j & Hj & _ & _ & -> & ->).
  specialize (Hf j (c_value c) Hj).
  pose proof (held_length os (obs_of M) (j_up j) (j_key j) (c_value c) Hnd Hs).
  pose proof (held_length os (obs_of M) (j_down j) (j_key j) (c_value c) Hnd Hs). lia.
Qed.

(** What the reader of an evaluation says of an end. *)
Lemma authored_reads g os group : sound_groups cfg g → NoDup group →
  map_res (λ i, s ← get (open g !! i) KeyError; Ok (observation s)) group = Ok os → ∀ j v i,
  j ∈ exact_joins (topology cfg) → on_end os j v i → _authored_value cfg g (j_where j) i = Ok (Some (j_key j), Some v).
Proof.
  intros Hg Hnd Hos j v i Hj Hend. destruct (group_observations g group os Hg Hnd Hos) as [_ Hin].
  assert (∃ s, open g !! i = Some s ∧ o_keys (observation s) !! j_key j = Some v) as (s & Hs & Hv).
  { apply elem_of_app in Hend as [(o & (i' & s & _ & Hs & <-)%Hin & _ & Hv & <-)%elem_of_holders|(o & (i' & s & _ & Hs & <-)%Hin & _ & Hv & <-)%elem_of_holders];
      exists s; by rewrite (sg_in _ _ Hg i' s Hs). }
  unfold _authored_value. rewrite (kd_exact _ Hkeyed j Hj), Hs. cbn [get mbind res_bind]. by rewrite Hv.
Qed.

Lemma evaluate_agrees M jn g h group g' h' : own M → open g ⊆ M → few M → sound_groups cfg g → shut_off g M group → NoDup group →
  crowded g = ∅ → settled g = ∅ → (∀ i, i ∈ group → is_Some (open g !! i)) →
  _evaluate cfg jn g h group = Ok (g', h') → evaluated M group g h g' h'.
Proof.
  intros Ho Hsub Hfew Hg Hshut Hnd Hcr Hse Hopen H. unfold _evaluate in H.
  rewrite (filter_bool_all _ group) in H by (intros i _; rewrite Hse; apply negb_true_iff, bool_decide_eq_false_2, not_elem_of_empty).
  apply bind_Ok in H as (os & Hos & H). apply bind_Ok in H as (joined & Hj & H).
  apply bind_Ok in H as (outcomes & Hout & H). apply bind_Ok in H as (seen_ & Hs & H).
  apply bind_Ok in H as (observed_ & Hob & H). apply bind_Ok in H as (proposals & Hp & H).
  apply bind_Ok in H as ([ks h1] & Hf & H). apply bind_Ok in H as (g1 & Hg1 & [= <- <-]).
  destruct (group_observations g group os Hg Hnd Hos) as [Eid Hin].
  assert (NoDup (identity <$> os)) as Hon by by rewrite Eid.
  assert (∀ o, o ∈ os → o ∈ obs_of M) as HosM.
  { intros o (i & s & _ & Hi & <-)%Hin. apply elem_of_obs_of. exists i, s. split; [by eapply lookup_weaken|done]. }
  pose proof (note_crowded_none cfg g _ (collisions_few M os joined Ho Hfew Hon HosM Hj)) as Ecr. rewrite Hcr in Ecr.
  set (g0 := note_crowded cfg g (r_collisions joined)) in *. assert (sound_groups cfg g0) as Hg0 by (destruct Hg; by split).
  rewrite bool_decide_eq_true_2 in Hg1 by exact Ecr. injection Hg1 as <-.
  assert (∀ k x, outcomes !! k = Some x ↔ told_of (topology cfg) os k x) as Hsp.
  { apply (outcomes_joined (topology cfg) Hplain os Hon (_authored_value cfg g0) joined); [done| |done].
    intros e j v _ Hjn <- Hend. by apply (authored_reads g0 os group). }
  set (authored := map_imap _ outcomes) in *.
  assert (authored = outcomes) as Ea.
  { apply map_eq. intros k. unfold authored. rewrite map_lookup_imap. destruct (outcomes !! k) as [x|]; [|done]. simpl.
    by rewrite definitive_same. }
  rewrite Ea in *. clear authored Ea.
  assert (∀ k, is_Some (observed_ !! k) → is_Some (observed cfg !! k.1) ∧ k.2 ∈ group ∧ k.1 ≠ ""%string) as Hobs.
  { intros k Hk. apply elem_of_dom in Hk. unfold observed_links in Hs. apply bind_Ok in Hs as ([dd n] & Hdd & [= <-]).
    apply (_outcomes_within (λ w, ∃ j, j ∈ observed_joins (topology cfg) ∧ j_where j = w) (λ i, i ∈ identity <$> dd) _ _ _ (join_within observed_key _composite_of _ _ _) Hob) in Hk as [(j & Hjo & <-) Hi].
    rewrite (kd_observed _ Hkeyed j Hjo). split; [eauto|]. split; [|apply Hnamed; right; eauto]. apply (deduplicated_identities cfg os _ _ _ Hdd) in Hi. by rewrite Eid in Hi. }
  assert (∀ k, is_Some (outcomes !! k) → k.2 ∈ group ∧ k.1 ≠ ""%string) as Houts.
  { intros k [x (j & v & Hjn & Hw & Hend & _)%Hsp]. split; [|apply Hnamed; left; eauto]. rewrite <- Eid.
    apply elem_of_app in Hend as [(o & Hoo & _ & _ & <-)%elem_of_holders|(o & Hoo & _ & _ & <-)%elem_of_holders]; by apply list_elem_of_fmap_2. }
  apply evaluate_fold in Hf as [Hf _]. set (keys := sorted _) in Hp.
  assert (∀ k, k ∈ keys ↔ is_Some (outcomes !! k) ∨ is_Some (observed_ !! k)) as Hkey.
  { intros k. unfold keys, sorted. by rewrite elem_of_sorted_by, elem_of_elements, elem_of_union, !elem_of_dom. }
  assert (proposals.*1 = keys) as Epk.
  { apply map_res_Forall2 in Hp. clear -Hp. induction Hp as [|k kp keys proposals E _ IH]; [done|].
    rewrite fmap_cons, IH. by apply bind_Ok in E as (q & _ & [= <-]). }
  assert (∀ k p, (k, p) ∈ proposals → proposal_for cfg g0 outcomes observed_ k = Ok p) as Hpr.
  { intros k p Hkp. apply map_res_Forall2 in Hp. apply list_elem_of_lookup in Hkp as [n Hn].
    destruct (Forall2_lookup_r _ _ _ _ _ Hp Hn) as (k' & _ & E). by apply bind_Ok in E as (q & Hq & [= -> ->]). }
  destruct (proposes_says (position jn) proposals h h1) as [Hsays Hsame]; [|done|].
  { rewrite Epk. unfold keys, sorted. rewrite sorted_by_perm. apply NoDup_elements. }
  split; [done| | |].
  - intros j v i Hjn Hi Hend.
    destruct (group_held g M group os j v i Ho Hsub Hg Hshut Hnd Hos Hjn Hi ltac:(right; auto)) as [Eu Ed].
    assert (joined_as os j v i = joined_as (obs_of M) j v i) as Ej by by apply joined_as_ext.
    assert (on_end os j v i) as Hend' by (unfold on_end; by rewrite Eu, Ed).
    assert (outcomes !! (j_where j, i) = Some (joined_as (obs_of M) j v i)) as Ex.
    { apply Hsp. exists j, v. simpl. by rewrite Ej. }
    assert ((j_where j, i) ∈ proposals.*1) as Hin'.
    { rewrite Epk, Hkey, Ex. left. eauto. }
    apply list_elem_of_fmap in Hin' as ([k p] & E & Hkp). simpl in E. subst k.
    destruct (Hsays _ Hkp) as (d & Hd & Efp). exists d. split; [exact Hd|]. exists p. split; [exact Efp|].
    apply Hpr in Hkp. unfold proposal_for in Hkp. cbn [fst] in Hkp. rewrite Ex in Hkp.
    rewrite (bool_decide_eq_true_2 (is_Some (join_key cfg !! _))) in Hkp by (rewrite (kd_exact _ Hkeyed j Hjn); eauto). split.
    + intros En. rewrite En in Hkp. simpl in Hkp. by injection Hkp as <-.
    + intros Hl. destruct (bool_decide (is_Some (observed cfg !! j_where j))); cbn [andb mbind res_bind] in Hkp.
      * apply combined_linked in Hkp as [E|(m & Hm & Hh)]; [left; congruence| |done]. right. unfold _has_authored in Hh. cbn [fst] in Hh.
        rewrite (kd_exact _ Hkeyed j Hjn) in Hh. cbn [get mbind res_bind] in Hh. apply bind_Ok in Hh as (s & Hs'%get_Ok & [= Hh]).
        apply bool_decide_eq_false in Hh. rewrite <- eq_None_not_Some in Hh. exists m, s. split_and!; [done|by eapply lookup_weaken|done].
      * injection Hkp as <-. left. rewrite <- Hl. apply single_parts.
  - intros k Hk. apply Hsame. rewrite Epk, Hkey. intros [H|H]; [apply Houts in H as [? ?]|apply Hobs in H as (_ & ? & ?)]; by destruct Hk.
  - intros k d Hd. destruct (decide (k ∈ keys)) as [Hin'|Hn]; [right|left; rewrite <- Hsame; [done|by rewrite Epk]].
    apply Hkey in Hin' as [Hx|Hx]; [|apply Hobs in Hx as ([x Hx] & ? & _); split; [done|]; intros En; congruence].
    destruct (Houts k Hx) as [Hk2 _]. split; [done|]. intros En.
    destruct Hx as [x (j & v & Hjn & Hw & Hend & _)%Hsp]. exists j, v. split_and!; [done|done|].
    destruct (group_held g M group os j v k.2 Ho Hsub Hg Hshut Hnd Hos Hjn Hk2 ltac:(by left)) as [Eu Ed].
    unfold on_end. by rewrite <- Eu, <- Ed.
Qed.

(** ** Closing *)

(** What closing does: decisions keep what they say, observations leave with their
    authored values, and the queues of a crowd stay empty. *)
Record shuts (D : list (string * Z)) g h g' h' : Prop := {
  sh_says k : proposal_of <$> current h' !! k = proposal_of <$> current h !! k;
  sh_open : open g' ⊆ open g;
  sh_values : closed_values g ⊆ closed_values g';
  sh_gone i s v : open g !! i = Some s → open g' !! i = None → v ∈ vals cfg s → v.1 ∈ Flow.join_keys cfg → v ∈ closed_values g';
  sh_new v : v ∈ closed_values g' → v ∈ closed_values g ∨ v.1 ∈ Flow.join_keys cfg ∧ ∃ i s, i ∈ D ∧ open g !! i = Some s ∧ v ∈ vals cfg s;
  sh_plain : crowded g = ∅ → settled g = ∅ → crowded g' = ∅ ∧ settled g' = ∅ ∧ due g' = due g
}.
Lemma shuts_refl D g h : shuts D g h g h.
Proof. split; try done; [intros i s v E1 E2; congruence|by left]. Qed.
Lemma shuts_trans D g1 h1 g2 h2 g3 h3 : shuts D g1 h1 g2 h2 → shuts D g2 h2 g3 h3 → shuts D g1 h1 g3 h3.
Proof.
  intros [A1 A2 A3 A4 A5 A6] [C1 C2 C3 C4 C5 C6]. split.
  - intros k. by rewrite C1.
  - by etrans.
  - by etrans.
  - intros i s v Hi Hn Hv Hk. destruct (open g2 !! i) as [s'|] eqn:E; [|apply C3; by eapply A4].
    pose proof (lookup_weaken _ _ _ _ E A2) as E'. rewrite Hi in E'. injection E' as <-. by eapply C4.
  - intros v Hv. destruct (C5 v Hv) as [Hv2|(? & i & s & ? & Hi & ?)]; [by apply A5|]. right. split; [done|]. exists i, s.
    split_and!; [done|by eapply lookup_weaken|done].
  - intros Hc Hs. destruct (A6 Hc Hs) as (Hc2 & Hs2 & Hd2). destruct (C6 Hc2 Hs2) as (? & ? & ?). split_and!; [done|done|congruence].
Qed.
Lemma shuts_history D g h g' h' h2 : current h2 = current h' → shuts D g h g' h' → shuts D g h g' h2.
Proof. intros E [? ? ? ? ? ?]. split; try done. intros k. by rewrite E. Qed.
Lemma shuts_sub D D' g h g' h' : (∀ i, i ∈ D → i ∈ D') → shuts D g h g' h' → shuts D' g h g' h'.
Proof. intros Hs [? ? ? ? H5 ?]. split; try done. intros v Hv. destruct (H5 v Hv) as [?|(? & i & s & ? & ? & ?)]; [by left|right; eauto 10]. Qed.

Lemma final_says at_ h k d forced : current h !! k = Some d → ∀ k', proposal_of <$> current (_emit at_ h k (proposal_of d) true forced).1 !! k' = proposal_of <$> current h !! k'.
Proof.
  intros Hd k'. simpl. destruct (decide (k = k')) as [<- |]; [|by rewrite lookup_insert_ne].
  rewrite lookup_insert_eq, Hd. simpl. by destruct d.
Qed.
Lemma finalise_says jn g h i forced g' h' ids : _finalise cfg jn g h i forced = Ok (g', h', ids) →
  (∀ k, proposal_of <$> current h' !! k = proposal_of <$> current h !! k) ∧ open g' = delete i (open g) ∧
  closed_values g' = closed_values g ∧ crowded g' = crowded g ∧ settled g' = settled g ∧ due g' = due g.
Proof.
  unfold _finalise. intros H. apply bind_Ok in H as (ks & _ & H). apply bind_Ok in H as ([h1 ids1] & Hf & H).
  apply bind_Ok in H as (s & _ & H). apply bind_Ok in H as (hs & _ & [= <- <- _]). split; [|done].
  refine (fold_res_ind (λ st : History * list string, ∀ k, proposal_of <$> current st.1 !! k = proposal_of <$> current h !! k) _ _ _ (h1, ids1) _ _ Hf); [done|].
  intros k [h2 i2] [h3 i3] _ Hs E k'. apply bind_Ok in E as (d & Hd%get_Ok & E). rewrite (surjective_pairing (_emit _ _ _ _ _ _)) in E.
  injection E as <- _. cbn [fst] in *. rewrite <- Hs. by apply final_says.
Qed.
Lemma close_member_shuts jn forced g h finals whole i g' h' finals' whole' : settled g = ∅ →
  close_member cfg jn forced (g, h, finals, whole) i = Ok (g', h', finals', whole') → shuts [i] g h g' h'.
Proof.
  intros Hse. unfold close_member. intros H. apply bind_Ok in H as (s & Hs%get_Ok & H). set (g0 := mkGroups _ _ _ _ _ _ _ _) in H.
  apply bind_Ok in H as ([[[g1 h1] f1] w1] & H & [= <- <- _ _]).
  rewrite bool_decide_eq_false_2 in H by (change (i ∉ settled g); rewrite Hse; apply not_elem_of_empty).
  apply bind_Ok in H as ([[g2 h2] ids] & Hf & [= <- <- _ _]). apply finalise_says in Hf as (Hsay & Eo & Ec & Ecr & Es & Ed). simpl in Eo, Ec, Ecr, Es, Ed.
  split; simpl.
  - exact Hsay.
  - rewrite Eo. apply delete_subseteq.
  - rewrite Ec. set_solver.
  - intros i' s' v Hi' Hn Hv Hk. rewrite Eo in Hn. apply lookup_delete_None in Hn as [<- |Hn]; [|congruence]. rewrite Hs in Hi'. injection Hi' as <-.
    rewrite Ec. apply elem_of_union_r, elem_of_list_to_set, elem_of_filter_bool. split; [exact Hv|]. by apply bool_decide_eq_true.
  - intros v. rewrite Ec, elem_of_union, elem_of_list_to_set, elem_of_filter_bool. intros [?|[Hv Hk%bool_decide_eq_true]]; [by left|right]. split; [done|]. exists i, s. split_and!; [left|done|done].
  - intros Hc _. rewrite Ecr, Es, Ed. split_and!; [|done|done]. rewrite Hc. apply foldl_inv; [done|]. intros m v _ ->. apply delete_empty.
Qed.
Lemma close_shuts jn forced g h group g' h' : crowded g = ∅ → settled g = ∅ →
  _close cfg jn forced (g, h) group = Ok (g', h') → shuts group g h g' h'.
Proof.
  intros Hcr Hse. unfold _close. intros H. apply bind_Ok in H as ([[[g1 h1] finals] whole] & Hf & H). cbn [fst snd] in Hf.
  assert (shuts group g h g1 h1) as Hk.
  { eapply (fold_res_ind (λ x : Groups * History * list string * list (string * Z), shuts group g h x.1.1.1 x.1.1.2)) in Hf; [exact Hf|apply shuts_refl|].
    intros i [[[g2 h2] f2] w2] [[[g3 h3] f3] w3] Hi Hk Hm. cbn [fst snd] in *. destruct (sh_plain _ _ _ _ _ Hk Hcr Hse) as (_ & Hs2 & _).
    eapply shuts_trans; [exact Hk|]. eapply shuts_sub; [|by eapply close_member_shuts]. by intros x ->%list_elem_of_singleton. }
  destruct whole; [by injection H as <- <-|]. apply bind_Ok in H as (h2 & Hp & [= <- <-]).
  eapply shuts_history; [|exact Hk]. unfold _prove in Hp. by apply bind_Ok in Hp as (ps & _ & [= <-]).
Qed.
Lemma closes_shuts jn forced l g h g' h' : crowded g = ∅ → settled g = ∅ →
  fold_res (_close cfg jn forced) l (g, h) = Ok (g', h') → shuts (mjoin l) g h g' h'.
Proof.
  intros Hcr Hse H. eapply (fold_res_ind (λ x : Groups * History, shuts (mjoin l) g h x.1 x.2)) in H; [exact H|apply shuts_refl|].
  intros group [g1 h1] [g2 h2] Hin Hk Hx. destruct (sh_plain _ _ _ _ _ Hk Hcr Hse) as (Hc & Hs & _). eapply shuts_trans; [exact Hk|].
  eapply shuts_sub; [|by eapply close_shuts]. intros x Hx'. apply list_elem_of_join. by exists group.
Qed.
(** Ripe groups are past the watermark, and open. *)
Lemma ripe_loop_past w queue : ∀ g found g' found', settled g = ∅ →
  (∀ e, e ∈ found → ∀ x s, x ∈ e.2 → open g !! x = Some s → at_us s + window_us (config cfg) < w) →
  ripe_loop cfg w queue g found = Ok (g', found') → open g' = open g ∧ closed_values g' = closed_values g ∧ crowded g' = crowded g ∧
  settled g' = settled g ∧ due g' = due g ∧
  ∀ e, e ∈ found' → ∀ x s, x ∈ e.2 → open g !! x = Some s → at_us s + window_us (config cfg) < w.
Proof.
  induction queue as [|[a i] queue IH]; intros g found g' found' Hse Hf H; cbn [ripe_loop] in H; [by injection H as <- <-|].
  destruct (_ <? w); [|by injection H as <- <-]. apply bind_Ok in H as (group & _ & H).
  apply bind_Ok in H as (latest & Hl & H). apply bind_Ok in H as (first & _ & H).
  destruct (Z.ltb_spec (latest + window_us (config cfg)) w) as [Hlt|_].
  - apply IH in H; [done|done|]. intros e [-> |He]%od_set_elem; [|by apply Hf]. simpl. intros x s Hx Hs.
    unfold latest_of in Hl. apply bind_Ok in Hl as (ats & Hats & Hl). apply map_res_Forall2 in Hats.
    destruct ats as [|b ats]; [done|]. injection Hl as <-. apply list_elem_of_lookup in Hx as [n Hn].
    destruct (Forall2_lookup_l _ _ _ _ _ Hats Hn) as (y & Hy & E). simpl in E. rewrite Hs in E. injection E as <-.
    apply list_elem_of_lookup_2, max_of_ge in Hy. lia.
  - rewrite bool_decide_eq_false_2 in H by (simpl; rewrite Hse; apply not_elem_of_empty). by apply IH in H.
Qed.
(** Whole components leave, and each was left behind by the watermark. *)
Record shut_by w (D : list (string * Z)) g h g' h' : Prop := {
  sb_shuts : shuts D g h g' h';
  sb_gone x : x ∈ D → open g' !! x = None;
  sb_closed x y : x ∈ D → rtc (sharing cfg g) x y → y ∈ D;
  sb_past x s : x ∈ D → open g !! x = Some s → at_us s + window_us (config cfg) < w
}.
Lemma settle_shuts st st' w f : books cfg (journal st) (groups st) (history st) → waiting cfg (groups st) →
  due (groups st) = ∅ → timed st = [] → crowded (groups st) = ∅ → settled (groups st) = ∅ →
  _watermark cfg (journal st) = Ok (w, f) → _settle cfg st = Ok st' →
  ∃ D, shut_by w D (groups st) (history st) (groups st') (history st') ∧ journal st' = journal st ∧ timed st' = [].
Proof.
  intros B Hwt Hdue Htm Hcr Hse Hw H. unfold _settle in H. rewrite Hw in H. cbn [mbind res_bind] in H.
  destruct (ripe_groups_total cfg Hkeyed Hpoints Hdistinct Hcheck _ _ w _ B) as (g1 & ripe & Er & B1 & Eo1 & Es1 & _ & Hok); [|done|].
  { intros i s. rewrite Hdue. by intros ?%elem_of_empty. }
  pose proof Er as Er'. unfold _ripe_groups in Er'. apply bind_Ok in Er' as ([g1' found] & Er' & [= -> <-]).
  apply ripe_loop_past in Er' as (Eo & Ec & Ecr & Es & Ed & Hpast); [|done|by intros ? ?%not_elem_of_nil].
  rewrite Er in H. cbn [mbind res_bind] in H. apply bind_Ok in H as ([g2 h2] & Hc & H).
  destruct (closes_total cfg Hkeyed Hpoints Hdistinct Hcheck (journal st) f _ g1 (history st) B1 (ro_distinct _ _ _ _ Hok) (ro_members _ _ _ _ Hok))
    as (g2' & h2' & Ec2 & _ & L). rewrite Hc in Ec2. injection Ec2 as <- <-.
  apply bind_Ok in H as ([g3 h3] & Hl & H). rewrite Htm in H. cbn [over_joins fold_res mbind res_bind] in H. injection H as <-.
  apply closes_shuts in Hc; [|by rewrite Ecr|by rewrite Es].
  destruct (sh_plain _ _ _ _ _ Hc) as (Hc2 & Hs2 & Hd2); [by rewrite Ecr|by rewrite Es|].
  rewrite Hd2, Ed, Hdue, (left_absorb_L ∅ _) in Hl. injection Hl as <- <-. simpl.
  exists (mjoin (sorted found.*2)). split_and!; [|done|done]. split; simpl.
  - destruct Hc as [? ? ? ? ? ?]. rewrite ?Eo, ?Ec, ?Ecr, ?Es, ?Ed in *. split; simpl; try done.
  - intros x Hx. rewrite (lv_open _ _ _ L). by rewrite decide_True.
  - intros x y Hx Hxy. apply (ro_closed _ _ _ _ Hok x); [done|]. eapply (connected_mono cfg); [|exact Hxy]. by rewrite Eo.
  - intros x s (e & He & Hx)%elem_of_ripe. by apply (Hpast e He).
Qed.

(** ** The invariant *)

(** An observation first delivered on a value that was closed: an earlier one carried it, and an earlier
    entry was further ahead of that one than the window and the lateness. *)
Definition reused_after (lateness window : Z) (entries : list Entry) (i : string * Z) : Prop :=
  ∃ pre s post s0 e k v, entries = pre ++ ESeen s :: post ∧ i = identity (observation s) ∧
    (∀ s', ESeen s' ∈ pre → identity (observation s') ≠ i) ∧ ESeen s0 ∈ pre ∧ e ∈ pre ∧
    o_keys (observation s) !! k = Some v ∧ o_keys (observation s0) !! k = Some v ∧ at_us s0 + window + lateness < time_of e.
Notation window := (window_us (config cfg)).
Notation lateness := (lateness_us (config cfg)).

Record faithful (pre : list Entry) M st : Prop := {
  fa_admitted i s : M !! i = Some s ↔ seen (journal st) !! i = Some s ∧ current (history st) !! (""%string, i) = None;
  fa_seen i s : seen (journal st) !! i = Some s → ESeen s ∈ pre ∧ identity (observation s) = i;
  fa_aside i d : current (history st) !! (""%string, i) = Some d → is_Some (seen (journal st) !! i) ∧
    (kind d = LATE ∨ kind d = VALUE_AFTER_FINAL ∧ reused_after lateness window pre i);
  fa_open : open (groups st) ⊆ M;
  fa_gone i s k v : M !! i = Some s → open (groups st) !! i = None → k ∈ Flow.join_keys cfg →
    o_keys (observation s) !! k = Some v → (k, v) ∈ closed_values (groups st);
  fa_apart i s k v : open (groups st) !! i = Some s → k ∈ Flow.join_keys cfg → o_keys (observation s) !! k = Some v →
    (k, v) ∉ closed_values (groups st);
  fa_closed k v : (k, v) ∈ closed_values (groups st) → ∃ s e, ESeen s ∈ pre ∧ e ∈ pre ∧ o_keys (observation s) !! k = Some v ∧
    at_us s + window + lateness < time_of e;
  fa_plain : crowded (groups st) = ∅ ∧ settled (groups st) = ∅;
  fa_agrees j v i : j ∈ exact_joins (topology cfg) → on_end (obs_of M) j v i →
    ∃ d, current (history st) !! (j_where j, i) = Some d ∧ agrees cfg M j v i d;
  fa_only k d : current (history st) !! k = Some d → k.1 ≠ ""%string → is_Some (M !! k.2) ∧ (observed cfg !! k.1 = None →
    ∃ j v, j ∈ exact_joins (topology cfg) ∧ j_where j = k.1 ∧ on_end (obs_of M) j v k.2)
}.
Lemma faithful_own pre M st : faithful pre M st → own M.
Proof. intros H i s Hi. apply (fa_admitted _ _ _ H) in Hi as [Hs _]. by apply (fa_seen _ _ _ H). Qed.
Lemma reused_after_app pre e i : reused_after lateness window pre i → reused_after lateness window (pre ++ [e]) i.
Proof.
  intros (p & s & q & s0 & x & k & v & -> & H). exists p, s, (q ++ [e]), s0, x, k, v. split; [|done]. by rewrite <- app_assoc.
Qed.
Lemma authored_val s k v : k ∈ Flow.join_keys cfg → o_keys (observation s) !! k = Some v → (k, v) ∈ vals cfg s.
Proof.
  intros Hk Hv. unfold vals, _values. apply elem_of_app. left. apply list_elem_of_omap. exists k. rewrite Hv. split; [|done].
  unfold sorted. by rewrite elem_of_sorted_by, elem_of_elements.
Qed.
Lemma val_authored s k v : k ∈ Flow.join_keys cfg → (k, v) ∈ vals cfg s → o_keys (observation s) !! k = Some v.
Proof.
  intros Hk. unfold vals, _values. intros [(k' & _ & E)%list_elem_of_omap|(ids & Hids & E)%list_elem_of_omap]%elem_of_app.
  - destruct (o_keys (observation s) !! k') as [v'|] eqn:E'; [|done]. by injection E as <- <-.
  - destruct (_composite_of _ _); [|done]. injection E as <- _. exfalso. unfold sorted in Hids.
    rewrite elem_of_sorted_by, elem_of_remove_dups in Hids. apply list_elem_of_fmap in Hids as ([w ids'] & -> & Hin).
    apply elem_of_map_to_list in Hin. by apply (Hnames w ids').
Qed.
Lemma agrees_says M j v i d d' : proposal_of d = proposal_of d' → agrees cfg M j v i d → agrees cfg M j v i d'.
Proof. unfold agrees, _fingerprint. by intros ->. Qed.
Lemma current_says h h' k d : (∀ k, proposal_of <$> current h' !! k = proposal_of <$> current h !! k) →
  current h !! k = Some d → ∃ d', current h' !! k = Some d' ∧ proposal_of d = proposal_of d'.
Proof. intros E Hd. specialize (E k). rewrite Hd in E. destruct (current h' !! k) as [d'|]; [|done]. exists d'. split; [done|]. apply (inj Some). symmetry. exact E. Qed.

(** Entries that come later, or that only the journal keeps. *)
Lemma faithful_later pre e M st : faithful pre M st → faithful (pre ++ [e]) M st.
Proof.
  intros [H1 H2 H3 H4 H5 H6 H7 H8 H9 H10]. split; try done.
  - intros i s Hi. destruct (H2 i s Hi). split; [apply elem_of_app; by left|done].
  - intros i d Hd. destruct (H3 i d Hd) as [? [?|[? ?]]]; (split; [done|]); [by left|right]. split; [done|by apply reused_after_app].
  - intros k v Hv. destruct (H7 k v Hv) as (s & x & ? & ? & ?). exists s, x. rewrite !elem_of_app. auto.
Qed.
Lemma faithful_journal pre M st jn : seen jn = seen (journal st) → faithful pre M st →
  faithful pre M (mkFlow jn (groups st) (history st) (timed st)).
Proof. intros E [H1 H2 H3 H4 H5 H6 H7 H8 H9 H10]. split; simpl; rewrite ?E; done. Qed.

(** Settling keeps the invariant. *)
Lemma settle_faithful pre M st st' w f : told_by pre (journal st) → books cfg (journal st) (groups st) (history st) →
  waiting cfg (groups st) → due (groups st) = ∅ → timed st = [] → faithful pre M st →
  _watermark cfg (journal st) = Ok (w, f) → _settle cfg st = Ok st' → faithful pre M st'.
Proof.
  intros Ht B Hwt Hd Htm Hf Hw H. destruct (fa_plain _ _ _ Hf) as [Hcr Hse].
  destruct (settle_shuts st st' w f B Hwt Hd Htm Hcr Hse Hw H) as (D & [Hs Hgone Hclosed Hpast] & Ej & _).
  pose proof (watermark_told cfg pre _ w f Ht Hw) as (e & Ee & He)%list_elem_of_fmap.
  pose proof (sh_says _ _ _ _ _ Hs) as Esay.
  assert (∀ k, current (history st') !! k = None ↔ current (history st) !! k = None) as Enone.
  { intros k. specialize (Esay k). destruct (current (history st') !! k), (current (history st) !! k); done. }
  destruct Hf as [H1 H2 H3 H4 H5 H6 H7 H8 H9 H10]. split; rewrite ?Ej.
  - intros i s. by rewrite Enone.
  - done.
  - intros i d Hi. destruct (current_says (history st') (history st) (""%string, i) d) as (d' & Hd' & E); [by intros k; symmetry|done|].
    destruct (H3 i d' Hd') as [? Hk]. split; [done|]. apply (f_equal p_kind) in E. simpl in E. by rewrite E.
  - etrans; [|exact H4]. apply (sh_open _ _ _ _ _ Hs).
  - intros i s k v Hi Hn Hk Hv. destruct (open (groups st) !! i) as [s'|] eqn:Eo.
    + pose proof (lookup_weaken _ _ _ _ Eo H4) as Hi'. rewrite Hi in Hi'. injection Hi' as <-.
      eapply (sh_gone _ _ _ _ _ Hs); [exact Eo|done|by apply authored_val|done].
    + apply (sh_values _ _ _ _ _ Hs). by eapply H5.
  - intros i s k v Hi Hk Hv Hin. pose proof (lookup_weaken _ _ _ _ Hi (sh_open _ _ _ _ _ Hs)) as Ho.
    destruct (sh_new _ _ _ _ _ Hs (k, v) Hin) as [Hold|(_ & i0 & s0 & Hi0 & Hs0 & Hv0)]; [by eapply H6|].
    assert (i ∈ D) as HD.
    { apply (Hclosed i0); [done|]. apply rtc_once. exists s0, s, (k, v). split_and!; [done|done|done|by apply authored_val]. }
    rewrite (Hgone i HD) in Hi. done.
  - intros k v Hin. destruct (sh_new _ _ _ _ _ Hs (k, v) Hin) as [Hold|(Hk0 & i0 & s0 & Hi0 & Hs0 & Hv0)]; [by apply H7|].
    pose proof (lookup_weaken _ _ _ _ Hs0 H4) as [Hsn _]%H1. exists s0, e. split_and!; [by apply (H2 i0)|done| |].
    + by apply val_authored.
    + pose proof (Hpast i0 s0 Hi0 Hs0). lia.
  - destruct (sh_plain _ _ _ _ _ Hs Hcr Hse) as (? & ? & _). done.
  - intros j v i Hj Hend. destruct (H9 j v i Hj Hend) as (d & Hdd & Ha).
    destruct (current_says (history st) (history st') _ d Esay Hdd) as (d' & Hd' & E). exists d'. split; [done|by eapply agrees_says].
  - intros k d Hk. destruct (current_says (history st') (history st) k d) as (d' & Hd' & _); [by intros k'; symmetry|done|]. by apply (H10 k d').
Qed.

(** ** Opening an observation *)

Lemma reused_nil g o k v : reused cfg g o = [] → k ∈ Flow.join_keys cfg → o_keys o !! k = Some v → (k, v) ∉ closed_values g.
Proof.
  intros Hr Hk Hv Hin. assert ((k, v) ∈ reused cfg g o) as H; [|rewrite Hr in H; by apply not_elem_of_nil in H].
  unfold reused, sorted. rewrite elem_of_sorted_by. apply list_elem_of_omap. exists k. split; [by apply elem_of_elements|].
  rewrite Hv. simpl. by rewrite bool_decide_eq_true_2.
Qed.
Lemma reused_cons g o k v l : reused cfg g o = (k, v) :: l → o_keys o !! k = Some v ∧ (k, v) ∈ closed_values g.
Proof.
  intros Hr. assert ((k, v) ∈ reused cfg g o) as H by (rewrite Hr; left).
  unfold reused, sorted in H. rewrite elem_of_sorted_by in H. apply list_elem_of_omap in H as (k' & _ & E).
  destruct (o_keys o !! k') as [v'|] eqn:E'; [|done]. simpl in E. case_bool_decide; [|done]. by injection E as <- <-.
Qed.

Section entering.
Context (pre : list Entry) (M : gmap (string * Z) Seen) (st : Flow) (s : Seen) (Hf : faithful pre M st).
Notation i := (identity (observation s)).
Notation g := (open_one cfg s (groups st)).
Notation M' := (<[i := s]> M).
Context (Hnew : seen (journal st) !! i = None) (Hreused : reused cfg (groups st) (observation s) = []).

Lemma entering_fresh : M !! i = None ∧ open (groups st) !! i = None.
Proof.
  assert (M !! i = None) as HM.
  { destruct (M !! i) as [x|] eqn:E; [|done]. apply (fa_admitted _ _ _ Hf) in E as [E _]. congruence. }
  split; [done|]. destruct (open (groups st) !! i) as [x|] eqn:E; [|done].
  eapply lookup_weaken in E; [|apply (fa_open _ _ _ Hf)]. congruence.
Qed.
Lemma entering_own : own M'.
Proof. apply map_Forall_insert_2; [done|]. by eapply faithful_own. Qed.
Lemma entering_open : open g ⊆ M'.
Proof. simpl. apply insert_mono, (fa_open _ _ _ Hf). Qed.
(** Whoever shares an authored value with an open observation is open. *)
Lemma entering_shared x sx y sy k v : open g !! x = Some sx → M' !! y = Some sy → k ∈ Flow.join_keys cfg →
  o_keys (observation sx) !! k = Some v → o_keys (observation sy) !! k = Some v → sharing cfg g x y.
Proof.
  intros Hx Hy Hk Hvx Hvy. exists sx, sy, (k, v). split_and!; [done| |by apply authored_val..].
  assert ((k, v) ∉ closed_values (groups st)) as Hn.
  { simpl in Hx. apply lookup_insert_Some in Hx as [[<- <-]|[_ Hx]]; [by eapply reused_nil|by eapply (fa_apart _ _ _ Hf)]. }
  simpl. apply lookup_insert_Some in Hy as [[<- <-]|[Hne Hy]]; [by rewrite lookup_insert_eq|]. rewrite lookup_insert_ne by done.
  destruct (open (groups st) !! y) as [sy'|] eqn:E.
  - eapply lookup_weaken in E; [|apply (fa_open _ _ _ Hf)]. congruence.
  - destruct Hn. by eapply (fa_gone _ _ _ Hf).
Qed.
(** Outside the group, what an observation is joined as has not changed. *)
Lemma entering_rest j v i' : j ∈ exact_joins (topology cfg) → ¬ sharing cfg g i i' → i' ≠ i → on_end (obs_of M') j v i' →
  on_end (obs_of M) j v i' ∧ joined_as (obs_of M') j v i' = joined_as (obs_of M) j v i'.
Proof.
  intros Hj Hns Hne Hend. pose proof entering_own as Ho. pose proof (faithful_own _ _ _ Hf) as Ho0.
  apply on_end_iff in Hend as (s' & Hs' & Hsd & Hv'); [|done].
  assert (o_keys (observation s) !! j_key j ≠ Some v) as Hdiff.
  { intros Hv. apply Hns, (entering_shared i s i' s' (j_key j) v); [simpl; apply lookup_insert_eq|done|by apply Hkeys|done|done]. }
  rewrite lookup_insert_ne in Hs' by done. split; [apply on_end_iff; [done|]; by exists s'|].
  apply joined_as_ext; (apply held_ext; [by apply obs_of_once|by apply obs_of_once|]); intros u; rewrite !elem_of_held by done;
    split; intros (su & Hu & Hsu & Hvu); exists su; (split_and!; [|done|done]).
  1,3: apply lookup_insert_Some in Hu as [[<- <-]|[_ Hu]]; [congruence|done].
  all: rewrite lookup_insert_ne; [done|]; intros <-; by rewrite (proj1 entering_fresh) in Hu.
Qed.
End entering.

Lemma enter_faithful pre M st s jn' group g2 h2 : faithful pre M st → seen (journal st) !! identity (observation s) = None →
  reused cfg (groups st) (observation s) = [] → few (<[identity (observation s) := s]> M) →
  sound_groups cfg (open_one cfg s (groups st)) → indexed cfg (open_one cfg s (groups st)) →
  seen jn' = <[identity (observation s) := s]> (seen (journal st)) →
  _group_of cfg (open_one cfg s (groups st)) (identity (observation s)) = Ok group →
  _evaluate cfg jn' (open_one cfg s (groups st)) (history st) group = Ok (g2, h2) →
  faithful (pre ++ [ESeen s]) (<[identity (observation s) := s]> M) (mkFlow jn' g2 h2 []) ∧ due g2 = due (groups st).
Proof.
  intros Hf Hnew Hre Hfew Hsg Hix Esn Hgr Hev. set (i := identity (observation s)) in *. set (g := open_one cfg s (groups st)) in *.
  set (M' := <[i := s]> M). destruct (entering_fresh pre M st s Hf Hnew) as [HM Hio]. fold i in HM, Hio.
  pose proof (entering_own pre M st s Hf) as Ho. pose proof (entering_open pre M st s Hf) as Hsub. fold i in Ho, Hsub. fold M' in Ho, Hsub. fold g in Hsub.
  destruct (group_of_ok cfg g i Hix) as (S & HS & Egr); [unfold g; simpl; rewrite lookup_insert_eq; eauto|].
  rewrite Egr in Hgr. injection Hgr as <-. destruct (fa_plain _ _ _ Hf) as [Hcr Hse].
  assert (shut_off g M' (sorted (elements S))) as Hshut.
  { intros x sx y sy k v. rewrite !elem_of_group, (HS x), (HS y). intros Hx ? ? ? ? ?. etrans; [exact Hx|]. apply rtc_once.
    by eapply (entering_shared pre M st s Hf Hre). }
  assert (open g2 = open g) as Eo by by eapply evaluate_open.
  assert (∀ x, x ∈ sorted (elements S) → is_Some (open g !! x)) as Hopen.
  { intros x. rewrite elem_of_group, (HS x). intros Hc. eapply connected_open; [exact Hc|]. unfold g. simpl. rewrite lookup_insert_eq. eauto. }
  destruct (evaluate_agrees M' _ _ _ _ _ _ Ho Hsub Hfew Hsg Hshut (group_NoDup S) Hcr Hse Hopen Hev) as [(E1 & E2 & E3 & E4) Hag Hrest Honly].
  split; [|by rewrite E3]. assert (∀ x, current h2 !! (""%string, x) = current (history st) !! (""%string, x)) as Easide by (intros x; apply Hrest; by right).
  assert (current (history st) !! (""%string, i) = None) as Hna.
  { destruct (current (history st) !! _) as [d|] eqn:E; [|done]. apply (fa_aside _ _ _ Hf) in E as [[x Hx] _]. fold i in Hnew. congruence. }
  split; simpl; rewrite ?Esn, ?Eo, ?E4.
  - intros x sx. rewrite Easide. unfold M'. rewrite !lookup_insert_Some, (fa_admitted _ _ _ Hf). naive_solver.
  - intros x sx. rewrite lookup_insert_Some. intros [[<- <-]|[_ Hx]]; [split; [apply elem_of_app; right; left|done]|].
    destruct (fa_seen _ _ _ Hf x sx Hx). split; [apply elem_of_app; by left|done].
  - intros x d. rewrite Easide. intros Hx. destruct (fa_aside _ _ _ Hf x d Hx) as [Hsx Hk].
    split; [rewrite lookup_insert_is_Some; destruct (decide (i = x)); auto|]. destruct Hk as [?|[? ?]]; [by left|right]. split; [done|by apply reused_after_app].
  - exact Hsub.
  - intros x sx k v Hx Hn. change (<[i := s]> (open (groups st)) !! x = None) in Hn. apply lookup_insert_None in Hn as [Hn Hne]. unfold M' in Hx. rewrite lookup_insert_ne in Hx by done.
    by apply (fa_gone _ _ _ Hf x).
  - intros x sx k v. change (open g !! x) with (<[i := s]> (open (groups st)) !! x). rewrite lookup_insert_Some.
    intros [[<- <-]|[_ Hx]] Hk Hv; [by eapply reused_nil|by eapply (fa_apart _ _ _ Hf)].
  - intros k v Hv. destruct (fa_closed _ _ _ Hf k v Hv) as (sx & e & ? & ? & ?). exists sx, e. rewrite !elem_of_app. auto.
  - done.
  - intros j v x Hj Hend. destruct (decide (x ∈ sorted (elements S))) as [Hin|Hout]; [by apply Hag|].
    assert (¬ sharing cfg g i x ∧ x ≠ i) as [Hns Hne].
    { split; [intros Hc|intros ->]; apply Hout, elem_of_group, HS; [by apply rtc_once|done]. }
    destruct (entering_rest pre M st s Hf Hnew Hre j v x Hj Hns Hne Hend) as [Hend0 Eja].
    destruct (fa_agrees _ _ _ Hf j v x Hj Hend0) as (d & Hd & p & Ep & Hone & Hlink). exists d.
    split; [by rewrite Hrest by (by left)|]. exists p. fold i in Eja. fold M' in Eja. rewrite Eja. split_and!; [done|done|]. intros Hl. destruct (Hlink Hl) as [?|(m & sm & Hm & Hsm & Hk)]; [by left|right].
    exists m, sm. split_and!; [done| |done]. unfold M'. rewrite lookup_insert_ne; [done|]. intros <-. congruence.
  - intros k d Hd Hk. destruct (Honly k d Hd) as [Hold|[Hin Hj]].
    2: { split; [|exact Hj]. destruct (Hopen k.2 Hin) as [sk Hsk]. exists sk. by eapply lookup_weaken. }
    destruct (fa_only _ _ _ Hf k d Hold Hk) as [[sk Hsk] Hone].
    assert (∀ x, is_Some (M !! x) → i ≠ x) as Hne by (intros x [? ?] <-; congruence).
    split; [exists sk; unfold M'; rewrite lookup_insert_ne; [done|apply Hne; eauto]|].
    intros Hn. destruct (Hone Hn) as (j & v & Hj & Hw & Hend). exists j, v. split_and!; [done|done|].
    apply (on_end_iff M' j v k.2 Ho). apply on_end_iff in Hend as (sx & Hx & ?); [|by eapply faithful_own]. exists sx. split; [|done].
    unfold M'. rewrite lookup_insert_ne; [done|]. apply Hne. eauto.
Qed.

(** ** Entries *)

(** An observation that is set aside. *)
Lemma aside_faithful pre M st s jn' at_ p joins : faithful pre M st → seen (journal st) !! identity (observation s) = None →
  seen jn' = <[identity (observation s) := s]> (seen (journal st)) →
  (p_kind p = LATE ∨ p_kind p = VALUE_AFTER_FINAL ∧ reused_after lateness window (pre ++ [ESeen s]) (identity (observation s))) →
  faithful (pre ++ [ESeen s]) M (mkFlow jn' (groups st) (_emit at_ (history st) (""%string, identity (observation s)) p true false).1 joins).
Proof.
  intros Hf Hnew Esn Hk. destruct (entering_fresh pre M st s Hf Hnew) as [HM _]. set (i := identity (observation s)) in *.
  assert (∀ x d, <[(""%string, i) := d]> (current (history st)) !! (""%string, x) = if decide (i = x) then Some d else current (history st) !! (""%string, x)) as Hl.
  { intros x d. case_decide as E; [rewrite E; apply lookup_insert_eq|]. rewrite lookup_insert_ne; [done|congruence]. }
  assert (∀ (k : string * (string * Z)) d, k.1 ≠ ""%string → <[(""%string, i) := d]> (current (history st)) !! k = current (history st) !! k) as Hl'.
  { intros k d Hne. rewrite lookup_insert_ne; [done|]. intros <-. done. }
  apply (faithful_later _ (ESeen s)) in Hf. destruct Hf as [H1 H2 H3 H4 H5 H6 H7 H8 H9 H10]. split; simpl; rewrite ?Esn; try done.
  - intros x sx. rewrite Hl, lookup_insert_Some, H1. case_decide as E; [subst x|naive_solver]. rewrite Hnew. naive_solver.
  - intros x sx. rewrite lookup_insert_Some. intros [[<- <-]|[_ Hx]]; [|by apply H2]. split; [|done]. apply elem_of_app. right. left.
  - intros x d. rewrite Hl, lookup_insert_is_Some. case_decide as E; [subst x; intros [= <-]; split; [by left|exact Hk]|].
    intros Hx. destruct (H3 x d Hx). split; [auto|done].
  - intros j v x Hj Hend. rewrite Hl'; [by apply H9|]. simpl. apply Hnamed. left. eauto.
  - intros k d Hd Hk1. rewrite Hl' in Hd by done. by apply H10 with d.
Qed.

Lemma advance_faithful pre M st src until st' : ready cfg st → told_by pre (journal st) → faithful pre M st →
  feed cfg st (EAdvance src until) = Ok st' → faithful (pre ++ [EAdvance src until]) M st'.
Proof.
  intros [Hs Hc Hseen] Ht Hf H. cbn [feed] in H. apply bind_Ok in H as (_ & _ & H). apply bind_Ok in H as (jn & Hjn & H).
  pose proof (_advance_seen _ _ _ _ Hjn) as Esn. simpl in Esn.
  assert (positions jn = positions (journal st)) as Epos by (unfold _advance in Hjn; by apply bind_Ok in Hjn as (q & _ & [= <-])).
  assert (told_by (pre ++ [EAdvance src until]) jn) as Ht'.
  { eapply (advance_told pre (EAdvance src until)); [exact Hjn| |done]. by eapply told_by_grows; [..|exact Ht]. }
  pose proof H as H'. unfold _settle in H'. apply bind_Ok in H' as ([w f] & Hw & _). simpl in Hw.
  eapply (settle_faithful _ _ (mkFlow jn (groups st) (history st) (timed st))); [| | | | | |exact Hw|exact H]; simpl; [done| |apply Hs|apply Hs|apply Hs|].
  - eapply books_journal; [|apply Hs]. intros i. by rewrite Epos.
  - apply faithful_journal; [done|]. by apply faithful_later.
Qed.

Lemma seen_faithful pre M st s st' : ready cfg st → told_by pre (journal st) → faithful pre M st →
  (∀ M, own M → (∀ i s', M !! i = Some s' → ESeen s' ∈ pre ++ [ESeen s]) → few M) →
  feed cfg st (ESeen s) = Ok st' → ∃ M', faithful (pre ++ [ESeen s]) M' st'.
Proof.
  intros [Hs Hc Hseen] Ht Hf Hfew H. cbn [feed] in H. unfold _seen in H.
  apply bind_Ok in H as ([] & Hv & H). apply bind_Ok in H as (_ & _ & H). apply bind_Ok in H as (_ & _ & H).
  set (i := identity (observation s)) in *. destruct (seen (journal st) !! i) as [before|] eqn:Ei.
  { apply bind_Ok in H as (_ & _ & [= <-]). exists M. apply faithful_journal; [done|]. by apply faithful_later. }
  apply bind_Ok in H as (late & _ & H). apply bind_Ok in H as (jn & Hjn & H).
  pose proof (_advance_seen _ _ _ _ Hjn) as Esn. simpl in Esn.
  assert (positions jn = <[i := position (journal st) + 1]> (positions (journal st))) as Epos by (unfold _advance in Hjn; by apply bind_Ok in Hjn as (q & _ & [= <-])).
  assert (told_by (pre ++ [ESeen s]) jn) as Ht'.
  { eapply (advance_told pre (ESeen s)); [exact Hjn| |].
    - eapply told_by_grows; [..|exact Ht]; [done|done|]. simpl. by apply insert_subseteq.
    - simpl. intros ? [= <-]. rewrite lookup_insert_eq. eauto. }
  destruct late; [injection H as <-; exists M; apply aside_faithful; [done|done|done|by left]|].
  rewrite (sn_timed _ _ Hs) in H. cbn [over_joins fold_res mbind res_bind] in H.
  destruct (reused cfg (groups st) (observation s)) as [|[k v] rest] eqn:Hre.
  2: { injection H as <-. exists M. apply aside_faithful; [done|done|done|right]. split; [done|].
    apply reused_cons in Hre as [Hk Hcl]. destruct (fa_closed _ _ _ Hf k v Hcl) as (s0 & e & ? & ? & ? & ?).
    exists pre, s, [], s0, e, k, v. split_and!; try done. intros s' Hs' Es. destruct (tb_seen _ _ Ht s' Hs') as [y Hy].
    rewrite Es in Hy. fold i in Hy. congruence. }
  apply bind_Ok in H as (group & Hgr & H). apply bind_Ok in H as ([g2 h2] & Hev & H).
  destruct (entering_fresh pre M st s Hf Ei) as [_ Hio]. fold i in Hio.
  assert (∀ x, is_Some (positions (journal st) !! x) → is_Some (positions jn !! x)) as Hpos.
  { intros x Hx. rewrite Epos, lookup_insert_is_Some. destruct (decide (i = x)); auto. }
  pose proof (books_journal cfg _ jn _ _ Hpos (sn_books _ _ Hs)) as B.
  assert (books cfg jn (open_one cfg s (groups st)) (history st)) as B1.
  { apply (open_one_books cfg); [done|done|apply Hs|done|]. fold i. rewrite Epos, lookup_insert_eq. eauto. }
  pose proof (open_one_waiting cfg _ s Hio (sn_waiting _ _ Hs)) as Hw1.
  exists (<[i := s]> M).
  destruct (enter_faithful pre M st s jn group g2 h2 Hf Ei Hre) as [Hf2 Hd2]; [|apply B1|apply B1|done|done|done|].
  { apply Hfew; [by eapply entering_own|]. intros x sx. rewrite lookup_insert_Some. intros [[_ <-]|[_ Hx]]; apply elem_of_app; [right; left|left].
    apply (fa_admitted _ _ _ Hf) in Hx as [Hx _]. by apply (fa_seen _ _ _ Hf x). }
  pose proof H as H'. unfold _settle in H'. apply bind_Ok in H' as ([w f] & Hw & _). simpl in Hw.
  destruct (group_of_ok cfg (open_one cfg s (groups st)) i (bk_indexed _ _ _ _ B1)) as (S & HS & Egr); [simpl; rewrite lookup_insert_eq; eauto|].
  rewrite Egr in Hgr. injection Hgr as <-.
  destruct (evaluate_total cfg Hkeyed Hpoints Hdistinct Hcheck jn (open_one cfg s (groups st)) (history st) (sorted (elements S)) w f B1)
    as (g2' & h2' & Ev' & B2 & _ & Eo & Ep & _); [| |apply group_NoDup|done|].
  { intros x s'. simpl. rewrite (sn_due _ _ Hs). by intros ?%elem_of_empty. }
  { intros x. rewrite elem_of_group, (HS x). intros Hx. eapply connected_open; [exact Hx|]. simpl. rewrite lookup_insert_eq. eauto. }
  rewrite Hev in Ev'. injection Ev' as <- <-.
  eapply (settle_faithful _ _ (mkFlow jn g2 h2 [])); [| | | | | |exact Hw|exact H]; simpl; [done|done| | |done|done].
  - intros x Hx. rewrite Eo in Hx. eapply waits_ext; [exact Eo|exact Ep|by apply Hw1].
  - by rewrite Hd2, (sn_due _ _ Hs).
Qed.

Lemma feeds_faithful all : deliverable cfg all → (∀ M, own M → (∀ i s, M !! i = Some s → ESeen s ∈ all) → few M) →
  ∀ todo pre M st st', all = pre ++ todo → ready cfg st → told_by pre (journal st) → faithful pre M st →
  fold_res (feed cfg) todo st = Ok st' → ∃ M', faithful all M' st'.
Proof.
  intros Hd Hfew. induction todo as [|e todo IH]; intros pre M st st' E Hr Ht Hf H.
  { injection H as <-. rewrite app_nil_r in E. subst all. by exists M. }
  cbn [fold_res] in H. apply bind_Ok in H as (st1 & H1 & H).
  assert (∀ x, x ∈ pre ++ [e] → x ∈ all) as Hsub by (rewrite E; set_solver).
  assert (admissible cfg (journal st) e) as Ha.
  { pose proof (ck_sources _ _ (rd_clocked _ _ Hr)) as Es. destruct e as [s|src until]; simpl.
    - destruct (dv_seen _ _ Hd s) as (? & ? & ?); [apply Hsub, elem_of_app; right; left|]. split; [split_and!; [done|by rewrite Es|done]|].
      intros old Ho. destruct (fa_seen _ _ _ Hf _ _ Ho) as [Hin Eid].
      apply (dv_same _ _ Hd); [apply Hsub, elem_of_app; by left|apply Hsub, elem_of_app; right; left|done].
    - rewrite Es. apply (dv_advance _ _ Hd src until), Hsub, elem_of_app. right. left. }
  destruct (feed_total cfg Hkeyed Hpoints Hdistinct Hcheck st e Hr Ha) as (st1' & E1 & Hr1 & _). rewrite H1 in E1. injection E1 as <-.
  pose proof (feed_told _ _ _ _ _ Ht H1) as Ht1.
  assert (∃ M1, faithful (pre ++ [e]) M1 st1) as [M1 Hf1].
  { destruct e as [s|src until]; [|exists M; exact (advance_faithful pre M st src until st1 Hr Ht Hf H1)].
    eapply seen_faithful; [exact Hr|exact Ht|exact Hf| |exact H1]. intros M1 Ho Hin. apply Hfew; [done|]. intros i s' Hi. by apply Hsub, (Hin i). }
  eapply (IH (pre ++ [e])); [by rewrite E, <- app_assoc|done|done|done|done].
Qed.
End refine.

(** ** Replays *)

(** Who carries a value on an end of a join; no more than a collision may hold. *)
Definition carriers (entries : list Entry) (j : Join string) (v : string) : gset (string * Z) :=
  list_to_set (omap (λ e, match e with
    | ESeen s => if bool_decide ((Exact.side_of (observation s) = j_up j ∨ Exact.side_of (observation s) = j_down j) ∧
                                 o_keys (observation s) !! j_key j = Some v) then Some (identity (observation s)) else None
    | EAdvance _ _ => None end) entries).
Definition uncrowded (t : Topology) (c : FlowConfig) (entries : list Entry) : Prop :=
  ∀ j v, j ∈ exact_joins t → Z.of_nat (size (carriers entries j v)) <= max_collision_members c.
Definition named_joins (t : Topology) : Prop := Forall (λ w, w ≠ ""%string) ((j_where <$> exact_joins t) ++ (j_where <$> observed_joins t)).
(** Groups in which everything admitted is open: what an evaluation of all would read. *)
Definition all_open (M : gmap (string * Z) Seen) : Groups := mkGroups M ∅ ∅ [] ∅ ∅ ∅ ∅.

Section replays.
Context (repr_str : string → string) (engine_version : string).
Notation settings := (init_settings repr_str engine_version).
Implicit Types (t : Topology) (c : FlowConfig).

Lemma join_key_in t c j : plain t → j ∈ exact_joins t → j_key j ∈ Flow.join_keys (settings t c).
Proof.
  intros Ht Hj. pose proof (kd_exact _ (plain_keyed repr_str engine_version t c Ht) j Hj) as E. simpl in *.
  apply elem_of_list_to_set, list_elem_of_fmap. exists (j_where j, j_key j). split; [done|]. by apply elem_of_map_to_list.
Qed.
Lemma observed_name_apart t c w ids : NoDup (value_names t) → observed (settings t c) !! w = Some ids →
  observed_key ids ∉ Flow.join_keys (settings t c).
Proof.
  unfold value_names. intros (_ & Hd & _)%NoDup_app Hw Hin. simpl in *. apply (Hd (observed_key ids)).
  - by apply elem_of_elements.
  - apply list_elem_of_fmap. exists ids. split; [done|]. apply elem_of_remove_dups, list_elem_of_fmap. exists (w, ids).
    split; [done|]. by apply elem_of_map_to_list.
Qed.
Lemma named_joins_where t c w : named_joins t → exact_where (settings t c) w → w ≠ ""%string.
Proof.
  unfold named_joins. rewrite Forall_forall. intros H Hw. apply H, elem_of_app.
  destruct Hw as [(j & Hj & <-)|(j & Hj & <-)]; [left|right]; by apply list_elem_of_fmap_2.
Qed.
Lemma uncrowded_few t c entries M : uncrowded t c entries → own M → (∀ i s, M !! i = Some s → ESeen s ∈ entries) → few (settings t c) M.
Proof.
  intros Hu Ho HM j v Hj. specialize (Hu j v Hj). simpl in *. etrans; [|exact Hu]. rewrite <- Nat2Z.inj_add. apply inj_le.
  rewrite <- length_app. pose proof (obs_of_once M Ho) as Hnd. pose proof (exact_joins_sides t j Hj) as Hne.
  assert (NoDup (held (obs_of M) (j_up j) (j_key j) v ++ held (obs_of M) (j_down j) (j_key j) v)) as Hn.
  { apply NoDup_app. split_and!; [by apply holders_NoDup| |by apply holders_NoDup]. intros x Hx. by eapply held_once. }
  rewrite <- (size_list_to_set (C := gset (string * Z)) _ Hn). apply subseteq_size. intros x. rewrite elem_of_list_to_set.
  intros Hx. apply (on_end_iff M j v x Ho) in Hx as (s & Hs & Hsd & Hv). apply elem_of_list_to_set, list_elem_of_omap.
  exists (ESeen s). split; [by apply (HM x)|]. simpl. rewrite bool_decide_eq_true_2 by done. f_equal. by apply (Ho x s).
Qed.

(** A replay ends in a faithful state. *)
Lemma replay_faithful t entries c r : plain t → NoDup (value_names t) → named_joins t → timing_of c = [] → uncrowded t c entries →
  replay_flow repr_str engine_version t entries c = Ok r → ∃ M st, faithful (settings t c) entries M st ∧
    fold_res (feed (settings t c)) entries (init_state (settings t c) []) = Ok st ∧
    r = mkFlowResult (decisions (history st)) (dossiers (history st)) (duplicates (journal st)) ∧
    ∀ k, od_get k (effective r) = current (history st) !! k.
Proof.
  intros Ht Hn Hnm Hu Hfew H. pose proof H as (joins & st & Hj & Hst & ->)%replay_run.
  assert (_check c = Ok tt) as Hc by (unfold replay_flow in H; by apply bind_Ok in H as ([] & ? & _)).
  assert (joins = []) as -> by (unfold _timed_joins in Hj; rewrite Hu in Hj; by injection Hj as <-).
  destruct (feeds_faithful (settings t c) (plain_keyed _ _ _ _ Ht) Ht eq_refl (λ o, value_names_distinct _ _ t c o Hn) Hc
    (λ j Hj, join_key_in t c j Ht Hj) (λ w, named_joins_where t c w Hnm) (λ w ids, observed_name_apart t c w ids Hn)
    entries (accepted_deliverable _ _ _ _ _ _ _ Hst) (λ M Ho HM, uncrowded_few t c entries M Hfew Ho HM)
    entries [] ∅ (init_state (settings t c) []) st) as [M Hf]; [done|by apply init_ready| | |done|].
  - split; simpl; [|done|by intros ? ?%not_elem_of_nil]. intros e p (x & -> & _)%list_elem_of_fmap. done.
  - split; simpl; try done; intros; by set_solver.
  - exists M, st. split_and!; [done|done|done|]. intros k. rewrite effective_last. simpl. symmetry.
    eapply current_last; [by rewrite Hu; apply NoDup_nil_2|exact Hj|exact Hst].
Qed.
End replays.

(** ** Guarantees *)

(** C12: the flow refines the exact path.  Take a topology whose joins have distinct,
    non-empty names and whose values have distinct names, no timed joins, and a journal in
    which no value is carried by more observations than a collision may hold.  When the
    replay returns, what was delivered splits into what the flow set aside, as late or as
    reusing a value that had been closed, and the rest, which the exact path accepts as a
    whole.  At every join that has no second signal, and for every observation, the
    decision in force has the fingerprint of the outcome that [exact_links] computes on
    that whole set: linked to the same partner, collided with the same partners, or
    unlinked; and where the exact path says nothing, nothing was decided.  The order, the
    grouping, the windows and the closings of the stream leave no other trace. *)
Theorem flow_refines_exact repr_str version t entries c r : plain t → NoDup (value_names t) → named_joins t →
  timing_of c = [] → uncrowded t c entries → replay_flow repr_str version t entries c = Ok r →
  ∃ M result out,
    (∀ i s, M !! i = Some s → ESeen s ∈ entries ∧ identity (observation s) = i ∧ od_get (""%string, i) (effective r) = None) ∧
    (∀ s, ESeen s ∈ entries → is_Some (M !! identity (observation s)) ∨
       ∃ d, od_get (""%string, identity (observation s)) (effective r) = Some d ∧
         (kind d = LATE ∨ kind d = VALUE_AFTER_FINAL ∧
            reused_after (lateness_us c) (window_us c) entries (identity (observation s)))) ∧
    exact_links t (obs_of M) = Ok result ∧
    _outcomes result (_authored_value (init_settings repr_str version t c) (all_open M)) = Ok out ∧
    ∀ w i, w ≠ ""%string → observed_of t !! w = None →
      _fingerprint <$> od_get (w, i) (effective r) = (λ x, fingerprint (_single x AUTHORED)) <$> out !! (w, i).
Proof.
  intros Ht Hn Hnm Hu Hfew H. destruct (replay_faithful repr_str version t entries c r Ht Hn Hnm Hu Hfew H) as (M & st & Hf & Hst & -> & Heff).
  set (cfg := init_settings repr_str version t c) in *. pose proof (faithful_own _ _ _ _ Hf) as Ho.
  pose proof (accepted_deliverable _ _ _ _ _ _ _ Hst) as Hd. pose proof (plain_keyed repr_str version t c Ht) as Hk. fold cfg in Hd, Hk.
  assert (∀ i s, M !! i = Some s → ESeen s ∈ entries ∧ identity (observation s) = i) as HM.
  { intros i s Hi. apply (fa_admitted _ _ _ _ Hf) in Hi as [Hi _]. by apply (fa_seen _ _ _ _ Hf). }
  assert (sound_groups cfg (all_open M)) as Hg.
  { split; simpl; [done|]. intros i s Hi. by apply (dv_seen _ _ Hd), HM with i. }
  assert (∃ result, exact_links t (obs_of M) = Ok result) as [result Hr].
  { unfold exact_links, _deduplicated.
    destruct (deduplicate_total (Exact._validate (point_names t)) _ _ obs_content_inj (obs_of M)) as (dd & n & ->); [| |by eexists].
    - apply Forall_forall. intros o (i & s & Hi & <-)%elem_of_obs_of. by apply (dv_seen _ _ Hd), HM with i.
    - intros a b Ha Hb E. f_equal. by apply (NoDup_fmap_inj identity (obs_of M)); [apply obs_of_once|..]. }
  assert (∀ j v i, j ∈ exact_joins t → on_end (obs_of M) j v i → _authored_value cfg (all_open M) (j_where j) i = Ok (Some (j_key j), Some v)) as Hread.
  { intros j v i Hj (s & Hs & _ & Hv)%on_end_iff; [|done]. unfold _authored_value. rewrite (kd_exact _ Hk j Hj). simpl. rewrite Hs. simpl. by rewrite Hv. }
  destruct (outcomes_total result (_authored_value cfg (all_open M))) as [out Hout].
  { intros e He. destruct (authored_reader cfg Hk M (all_open M) (obs_of M)) with (r := result) (e := e) as (j & v & _ & _ & _ & ->); [| |done|done|eauto].
    - intros i s Hi. split; [done|]. by apply HM.
    - intros o (i & s & Hi & <-)%elem_of_obs_of. exists s. split; [done|]. by rewrite (Ho i s Hi). }
  assert (∀ k x, out !! k = Some x ↔ told_of t (obs_of M) k x) as Hsp.
  { eapply outcomes_joined; [done|by apply obs_of_once|done| |done]. intros e j v _ Hj <- Hend. by apply Hread. }
  exists M, result, out. split_and!; [| |done|done|].
  - intros i s Hi. destruct (HM i s Hi). rewrite Heff. split_and!; [done|done|]. by apply (fa_admitted _ _ _ _ Hf) in Hi as [_ ?].
  - intros s Hs. rewrite Heff. destruct (feeds_known _ _ _ _ s Hst Hs) as [(x & Hx & _) _].
    destruct (current (history st) !! (""%string, identity (observation s))) as [d|] eqn:E.
    + right. exists d. split; [done|]. by apply (fa_aside _ _ _ _ Hf).
    + left. exists x. by apply (fa_admitted _ _ _ _ Hf).
  - intros w i Hw Hob. rewrite Heff. destruct (out !! (w, i)) as [x|] eqn:Ex.
    + apply Hsp in Ex as (j & v & Hj & Ew & Hend & ->). simpl in Ew, Hend. subst w. destruct (fa_agrees _ _ _ _ Hf j v i Hj Hend) as (d & Hdd & p & Ep & Hone & _).
      simpl. rewrite Hdd. simpl. by rewrite Ep, (Hone Hob).
    + destruct (current (history st) !! (w, i)) as [d|] eqn:E; [|done]. destruct (fa_only _ _ _ _ Hf (w, i) d E Hw) as [_ Hone].
      destruct (Hone Hob) as (j & v & Hj & Hjw & Hend). assert (out !! (w, i) = Some (joined_as (obs_of M) j v i)) as E'; [|congruence].
      apply Hsp. exists j, v. done.
Qed.

(** ** Witnesses *)

Lemma two_hops_named : named_joins two_hops.
Proof. apply (bool_decide_eq_true_1 (Forall _ _)). vm_compute. reflexivity. Qed.
(** Decidable, over the values that are delivered. *)
Lemma uncrowded_few_entries t c entries : Z.of_nat (length entries) <= max_collision_members c → uncrowded t c entries.
Proof.
  intros H j v _. etrans; [|exact H]. apply inj_le. unfold carriers. etrans; [apply size_list_to_set_le|].
  clear. induction entries as [|e l IH]; [done|]. cbn [omap list_omap]. destruct e as [s|]; simpl; [case_bool_decide; simpl|]; lia.
Qed.
Lemma flow_refines_exact_witness :
  ∃ M result out,
    (∀ i s, M !! i = Some s → ESeen s ∈ ex_entries ∧ identity (observation s) = i ∧ od_get (""%string, i) (effective untimed_result) = None) ∧
    (∀ s, ESeen s ∈ ex_entries → is_Some (M !! identity (observation s)) ∨
       ∃ d, od_get (""%string, identity (observation s)) (effective untimed_result) = Some d ∧
         (kind d = LATE ∨ kind d = VALUE_AFTER_FINAL ∧
            reused_after (lateness_us untimed) (window_us untimed) ex_entries (identity (observation s)))) ∧
    exact_links two_hops (obs_of M) = Ok result ∧
    _outcomes result (_authored_value (init_settings ex_repr "0.1.0" two_hops untimed) (all_open M)) = Ok out ∧
    ∀ w i, w ≠ ""%string → observed_of two_hops !! w = None →
      _fingerprint <$> od_get (w, i) (effective untimed_result) = (λ x, fingerprint (_single x AUTHORED)) <$> out !! (w, i).
Proof.
  apply (flow_refines_exact ex_repr "0.1.0" two_hops ex_entries untimed untimed_result two_hops_plain two_hops_names two_hops_named eq_refl).
  - apply uncrowded_few_entries. vm_compute. discriminate.
  - exact untimed_replay.
Defined.
