(* ===== verification/Simulate.v ===== *)
(** * Simulate: exchanges through the lab chain, with injected faults

    [m0-harness/simulate_flow.py].  The random generators are a parameter: every draw is a
    value of [Draws], named after the place that makes it ([random() < share] is its
    outcome), and jitters are rationals.  [Plan] keeps of the shares what the code tests
    apart from the draws.  The command line and the printed report are not modelled. *)

From Stdlib Require Import QArith.
From S2P Require Import Prelude DecimalText Json Topology Dedup Exact Harness ExactPath FlowTimed Flow.

(** ** Plans and draws *)

Record Plan := mkPlan {
  pl_exchanges : nat;
  pl_hops : nat;
  pl_gap_us : Z;
  pl_hop_delay_us : Z;
  pl_window_us : Z;
  pl_disorder_us : Z;
  pl_swap_inside : bool;   (* [faults.swap_inside] is not zero *)
  pl_connection : bool;
  pl_connections : Z
}.
Record Draws := mkDraws {
  dr_trace : nat → string;                 (* the id of an exchange *)
  dr_reuse : nat → nat * bool;             (* the side it starts at, and whether it happens *)
  dr_swap : nat → nat * bool;
  dr_inside : nat → nat * bool;
  dr_lost : nat → nat → bool;              (* exchange, side *)
  dr_late : nat → nat → bool;
  dr_keyless : nat → nat → bool;
  dr_jitter : nat → nat → Q;
  dr_advance : nat → bool;                 (* after the n-th delivery *)
  dr_copied : nat → nat → bool;
  dr_position : nat → nat                  (* where the n-th copy is delivered *)
}.

Definition _points (hops : nat) : list string := "load-gen"%string :: (hop_name <$> seq 1 hops) ++ ["fake-upstream"%string].
Definition _source (point : string) : string :=
  if bool_decide (point = "load-gen"%string) then "load-gen-log"%string else "agent-" +:+ point.
(** The (point, side) an exchange is seen at, in the order it crosses them. *)
Definition _sides (hops : nat) : list (string * string) :=
  ("load-gen", "outbound")%string ::
  (seq 1 hops ≫= λ k, [(hop_name k, "inbound"); (hop_name k, "outbound")]%string) ++ [("fake-upstream", "inbound")]%string.
(** (where, upstream index, downstream index) of every join. *)
Definition _joins (sides : list (string * string)) : list (string * nat * nat) :=
  imap (λ j (ab : (string * string) * (string * string)),
    (if bool_decide (ab.1.2 = "outbound"%string) then hop_where ab.1.1 ab.2.1 else ab.1.1, j, S j)) (pairwise sides).

(** ** The plan of the faults *)

Section simulate.
Context (plan : Plan) (draws : Draws).
Notation n := (pl_exchanges plan).

(** Exchange [i] carries the id of [i - 1], from a side on.  Never two in a row. *)
Definition reuse_step (m : gmap nat nat) (i : nat) : gmap nat nat :=
  let '(start, hit) := dr_reuse draws i in
  if (hit : bool) && (0 <? i)%nat && bool_decide (m !! (i - 1)%nat = None) then <[i := start]> m else m.
Definition reuse_from : gmap nat nat := foldl reuse_step ∅ (seq 0 n).
(** Exchanges [i] and [i + 1] trade their ids, from a side on. *)
Definition swap_step (draw : nat → nat * bool) (st : gmap nat (nat * nat) * gset nat) (i : nat)
    : gmap nat (nat * nat) * gset nat :=
  let '(swap, busy) := st in
  let '(start, hit) := draw i in
  if (hit : bool) && negb (bool_decide (i ∈ busy)) && negb (bool_decide (S i ∈ busy))
  then (<[S i := (i, start)]> (<[i := (S i, start)]> swap), {[i; S i]} ∪ busy) else st.
Definition reused_busy : gset nat := dom reuse_from ∪ list_to_set (pred <$> elements (dom reuse_from)).
Definition swap_from : gmap nat (nat * nat) :=
  let st := foldl (swap_step (dr_swap draws)) (∅, reused_busy) (seq 0 (n - 1)) in
  (if pl_swap_inside plan then foldl (swap_step (dr_inside draws)) st (seq 0 (n - 1)) else st).1.
(** The exchange whose id [i] carries on side [j]. *)
Definition carries (i j : nat) : nat :=
  if match reuse_from !! i with Some s => s <=? j | None => false end%nat then i - 1
  else match swap_from !! i with Some (o, s) => if (s <=? j)%nat then o else i | None => i end.

(** ** What is emitted *)

Record Emitted := mkEmitted {
  em_exchange : nat;
  em_side : nat;
  em_seen : Seen;
  em_late : bool;
  em_keyless : bool
}.
(** The connection and the stream of the hop this side is an end of.  Without a pooled
    connection, [%] raises, and for an end without its key as well. *)
Definition connection_keys (i j : nat) : res (list (string * string)) :=
  let hop := str_Z (Z.of_nat (j / 2)) in
  _ ← check (negb (pl_connections plan =? 0)) ZeroDivisionError;
  let c := Z.of_nat i mod pl_connections plan in
  Ok [("tuple5", "10.0." +:+ hop +:+ ".1:" +:+ str_Z (40000 + c) +:+ ">10.0." +:+ hop +:+ ".2:443");
      ("h2_stream_id", str_Z (2 * (Z.of_nat i / pl_connections plan) + 1))]%string.
Definition keys_for (i j : nat) (keyless : bool) : res (gmap string string) :=
  added ← (if pl_connection plan then
             ks ← connection_keys i j; Ok (if keyless then ∅ else list_to_map ks)
           else Ok ∅);
  Ok (<["traceparent"%string := dr_trace draws (carries i j)]> added).
Definition emit_step (st : gmap string Z * list Emitted) (ij : nat * (nat * (string * string)))
    : res (gmap string Z * list Emitted) :=
  let '(seqs, out) := st in
  let '(i, (j, (point, side))) := ij in
  if dr_lost draws i j then Ok st
  else
    let source := _source point in
    let number := default 0 (seqs !! source) in
    let keyless := pl_connection plan && dr_keyless draws i j in
    keys ← keys_for i j keyless;
    let obs := mkObs source number point side keys in
    Ok (<[source := number + 1]> seqs,
        out ++ [mkEmitted i j (mkSeen obs (Z.of_nat i * pl_gap_us plan + Z.of_nat j * (pl_hop_delay_us plan / 2)) None None None)
                  (dr_late draws i j) keyless]).
Definition crossings : list (nat * (nat * (string * string))) :=
  seq 0 n ≫= λ i, pair i <$> imap pair (_sides (pl_hops plan)).
Definition emission_run : res (gmap string Z * list Emitted) := fold_res emit_step crossings (∅, []).
(** The list [emitted], of a run whose loop did not raise ([simulate] stops at one that did). *)
Definition emit_state : gmap string Z * list Emitted :=
  match emission_run with Ok st => st | Raise _ => (∅, []) end.
Definition emitted : list Emitted := emit_state.2.
Definition on_time : list Emitted := List.filter (λ e, negb (em_late e)) emitted.
Definition late : list Emitted := List.filter em_late emitted.

(** ** The journal *)

Definition sources_of : list string := sorted (_source <$> _points (pl_hops plan)).
Global Instance Q_cmp : Cmp Q := Qcompare.
Definition delivered_at (e : Emitted) : Q := (inject_Z (at_us (em_seen e)) + dr_jitter draws (em_exchange e) (em_side e))%Q.
Definition deliver_step (st : list Entry * Z) (ne : nat * Emitted) : list Entry * Z :=
  let latest := Z.max st.2 (at_us (em_seen ne.2)) in
  (st.1 ++ ESeen (em_seen ne.2) :: (if dr_advance draws ne.1 then (λ s, EAdvance s latest) <$> sources_of else []), latest).
Definition deliveries : list Entry := (foldl deliver_step ([], 0) (imap pair (sorted_by delivered_at on_time))).1.
Definition insert_at {A} (p : nat) (x : A) (l : list A) : list A := take p l ++ x :: drop p l.
Definition copies : list Emitted := List.filter (λ e, dr_copied draws (em_exchange e) (em_side e)) on_time.
Definition with_copies : list Entry :=
  foldl (λ l (ne : nat * Emitted), insert_at (dr_position draws ne.1) (ESeen (em_seen ne.2)) l) deliveries (imap pair copies).
(** After every observation has been emitted, and the window and the lateness have passed. *)
Definition end_us : Z :=
  match (λ e, at_us (em_seen e)) <$> emitted with [] => 0 | t :: ts => foldl Z.max t ts end +
  pl_window_us plan + pl_disorder_us plan + 1.
Definition journal_of : list Entry :=
  with_copies ++ ((λ s, EAdvance s end_us) <$> sources_of) ++ ((λ e, ESeen (em_seen e)) <$> late).
Definition config_of : FlowConfig :=
  mkConfig sources_of (pl_window_us plan) (pl_disorder_us plan) None DEFAULT_MAX_COLLISION_MEMBERS None None None.
Definition identity_of (e : Emitted) : string * Z := Exact.identity (observation (em_seen e)).
Record Simulation := mkSimulation {
  si_topology : Topology;
  si_config : FlowConfig;
  si_journal : list Entry;
  si_truth : gmap (string * Z) nat;
  si_placed : gmap (nat * nat) (string * Z);
  si_reused : gset (string * Z);
  si_swapped : gmap nat (nat * nat);
  si_reusers : gset nat;
  si_lost : list (nat * nat);
  si_late : gset (string * Z);
  si_duplicates : Z;
  si_keyless : gset (string * Z)
}.
Definition simulate (repr py_str : Value → string) (format_g : Q → string) : res Simulation :=
  _ ← check ((1 <=? pl_hops plan) && (pl_hops plan <=? 5))%nat (ValueError "hops must be between 1 and 5");
  loaded ← topology_for repr py_str format_g (pl_hops plan) (replicate (pl_hops plan) "relay"%string) "headers"
             (pl_connection plan) [];
  topology ← match loaded with inr t => Ok t | inl _ => Raise (ValueError "topology refused") end;
  _ ← emission_run;
  let reused e := bool_decide (is_Some (reuse_from !! em_exchange e)) &&
                  negb (bool_decide (dr_trace draws (carries (em_exchange e) (em_side e)) = dr_trace draws (em_exchange e))) in
  Ok (mkSimulation topology config_of journal_of
        (list_to_map ((λ e, (identity_of e, em_exchange e)) <$> emitted))
        (list_to_map ((λ e, ((em_exchange e, em_side e), identity_of e)) <$> emitted))
        (list_to_set (identity_of <$> List.filter reused emitted))
        swap_from (dom reuse_from)
        (omap (λ c : nat * (nat * (string * string)), if dr_lost draws c.1 c.2.1 then Some (c.1, c.2.1) else None) crossings)
        (list_to_set (identity_of <$> late)) (Z.of_nat (length copies))
        (list_to_set (identity_of <$> List.filter em_keyless emitted))).
End simulate.

(** ** Lemmas: the plan of the faults *)

Section plan_spec.
Context (plan : Plan) (draws : Draws).
Notation n := (pl_exchanges plan).
Notation reuse := (reuse_from plan draws).
Notation swap := (swap_from plan draws).
Notation carries := (carries plan draws).

(** A reuser comes after its donor, which is not a reuser. *)
Lemma reuse_ok i s : reuse !! i = Some s → (0 < i < n)%nat ∧ reuse !! (i - 1)%nat = None.
Proof.
  unfold reuse_from. generalize n as k. intros k. revert i s.
  induction k as [|k IH]; intros i s; [cbn; by intros ?%lookup_empty_Some|]. rewrite seq_S, foldl_snoc. simpl.
  set (m := foldl _ _ _) in *. assert (∀ i, (k <= i)%nat → m !! i = None) as Hnew.
  { intros i' Hi. destruct (m !! i') as [s'|] eqn:E; [|done]. apply IH in E. lia. }
  unfold reuse_step. destruct (dr_reuse draws k) as [start hit].
  destruct (hit && (0 <? k)%nat && bool_decide (m !! (k - 1)%nat = None)) eqn:E.
  - apply andb_true_iff in E as [E Hd%bool_decide_eq_true]. apply andb_true_iff in E as [_ Hk%Nat.ltb_lt].
    rewrite lookup_insert_Some. intros [[<- <-]|[Hne H]].
    + split; [lia|]. rewrite lookup_insert_ne by lia. done.
    + apply IH in H as [? ?]. split; [lia|]. rewrite lookup_insert_ne by lia. done.
  - intros H. apply IH in H as [? ?]. split; [lia|done].
Qed.
Lemma busy_ok i : i ∈ reused_busy plan draws ↔ is_Some (reuse !! i) ∨ is_Some (reuse !! S i).
Proof.
  unfold reused_busy. rewrite elem_of_union, elem_of_dom, elem_of_list_to_set, list_elem_of_fmap.
  setoid_rewrite elem_of_elements. setoid_rewrite elem_of_dom. split.
  - intros [H|(k & -> & Hk)]; [by left|right]. destruct Hk as [s Hs]. pose proof (reuse_ok k s Hs) as [? _].
    destruct k; [lia|]. simpl. by exists s.
  - intros [H|H]; [by left|right]. exists (S i). done.
Qed.

(** Swaps are symmetric and keep apart from the reuses. *)
Record swaps_ok (st : gmap nat (nat * nat) * gset nat) : Prop := {
  sw_busy : reused_busy plan draws ⊆ st.2;
  sw_dom i : is_Some (st.1 !! i) → i ∈ st.2 ∧ i ∉ reused_busy plan draws;
  sw_sym i o s : st.1 !! i = Some (o, s) → st.1 !! o = Some (i, s) ∧ o ≠ i;
  sw_bound i : is_Some (st.1 !! i) → (i < n)%nat;
  sw_next i o s : st.1 !! i = Some (o, s) → o = S i ∨ i = S o
}.
Lemma swap_step_ok draw st i : (S i < n)%nat → swaps_ok st → swaps_ok (swap_step draw st i).
Proof.
  intros Hin. destruct st as [sw busy]. intros [H1 H2 H3 H4 H5]. simpl in *. unfold swap_step. destruct (draw i) as [start hit].
  destruct (hit && negb (bool_decide (i ∈ busy)) && negb (bool_decide (S i ∈ busy))) eqn:E; [|by split].
  apply andb_true_iff in E as [E HS%negb_true_iff%bool_decide_eq_false].
  apply andb_true_iff in E as [_ Hi%negb_true_iff%bool_decide_eq_false]. split; simpl.
  - set_solver.
  - intros k [x Hx]. rewrite !lookup_insert_Some in Hx. destruct Hx as [[<- _]|[_ [[<- _]|[_ Hx]]]]; [set_solver..|].
    destruct (H2 k ltac:(eauto)). set_solver.
  - assert (sw !! i = None ∧ sw !! S i = None) as [Ni NS].
    { split; apply eq_None_not_Some; intros Hs; by apply H2 in Hs as [? _]. }
    intros k o s. rewrite !lookup_insert_Some. intros [[<- [= <- <-]]|[Hk [[<- [= <- <-]]|[Hk' Hs]]]].
    + split; [|lia]. right. split; [lia|]. by left.
    + split; [|lia]. by left.
    + apply H3 in Hs as [Ho Hne]. split; [|done].
      right. split; [intros <-; congruence|]. right. split; [intros <-; congruence|done].
  - intros k [x Hx]. rewrite !lookup_insert_Some in Hx. destruct Hx as [[<- _]|[_ [[<- _]|[_ Hx]]]]; [lia..|by apply H4].
  - intros k o s. rewrite !lookup_insert_Some. intros [[<- [= <- <-]]|[_ [[<- [= <- <-]]|[_ Hs]]]]; [by right|by left|by eapply H5].
Qed.
Lemma swaps_fold draw st : swaps_ok st → swaps_ok (foldl (swap_step draw) st (seq 0 (n - 1))).
Proof.
  intros H. assert (∀ l, (∀ i, i ∈ l → (S i < n)%nat) → ∀ st, swaps_ok st → swaps_ok (foldl (swap_step draw) st l)) as Hl.
  { induction l as [|i l IH]; intros Hb st' H'; [done|]. simpl. apply IH; [intros; apply Hb; by right|].
    apply swap_step_ok; [apply Hb; left|done]. }
  apply Hl; [|done]. intros i Hi%elem_of_seq. lia.
Qed.
Lemma swap_state : ∃ st, swaps_ok st ∧ swap = st.1.
Proof.
  unfold swap_from. set (st := foldl (swap_step (dr_swap draws)) (∅, reused_busy plan draws) _).
  assert (swaps_ok st) as Hst.
  { apply swaps_fold. split; simpl; [done|by intros i0 [? ?%lookup_empty_Some]|by intros ??? ?%lookup_empty_Some|by intros i0 [? ?%lookup_empty_Some]|by intros ??? ?%lookup_empty_Some]. }
  destruct (pl_swap_inside plan); eexists; (split; [|reflexivity]); [by apply swaps_fold|done].
Qed.
(** Only neighbours swap. *)
Lemma swap_next i o s : swap !! i = Some (o, s) → o = S i ∨ i = S o.
Proof. destruct swap_state as (st & Hst & ->). apply (sw_next _ Hst). Qed.
Lemma swap_ok i o s : swap !! i = Some (o, s) →
  swap !! o = Some (i, s) ∧ o ≠ i ∧ reuse !! i = None ∧ reuse !! S i = None ∧ (i < n)%nat.
Proof.
  destruct swap_state as (st & Hst & ->). intros H. destruct (sw_sym _ Hst i o s H) as [? ?]. destruct (sw_dom _ Hst i ltac:(eauto)) as [_ Hb].
  rewrite busy_ok in Hb. split_and!; [done|done|apply eq_None_not_Some; tauto..|]. apply (sw_bound _ Hst). eauto.
Qed.

(** Who carries the id of an exchange: itself, the next one if it reuses it, the one it swapped with. *)
Lemma carries_cases i j : let x := carries i j in
  (i = x ∧ (∀ o s, swap !! i = Some (o, s) → (j < s)%nat) ∧ (∀ s, reuse !! i = Some s → (j < s)%nat)) ∨
  (i = S x ∧ ∃ s, reuse !! i = Some s ∧ (s <= j)%nat) ∨
  (∃ s, swap !! x = Some (i, s) ∧ swap !! i = Some (x, s) ∧ (s <= j)%nat).
Proof.
  cbv zeta. unfold Simulate.carries. destruct (reuse !! i) as [s|] eqn:Er.
  - destruct (Nat.leb_spec s j).
    + right; left. pose proof (reuse_ok i s Er) as [? _]. split; [lia|eauto].
    + left. assert (swap !! i = None) as Es.
      { destruct (swap !! i) as [[o s']|] eqn:E; [|done]. apply swap_ok in E. naive_solver. }
      rewrite Es. split; [done|]. split; [done|]. intros s' [= <-]. done.
  - destruct (swap !! i) as [[o s]|] eqn:Es.
    + destruct (Nat.leb_spec s j).
      * right; right. exists s. apply swap_ok in Es as (? & _). done.
      * left. split; [done|]. split; [|done]. by intros o' s' [= <- <-].
    + left. done.
Qed.
(** Two exchanges that carry one id are neighbours, or the same. *)
Lemma carried_near a b j k : carries a j = carries b k → (a <= S b)%nat.
Proof.
  intros E. pose proof (carries_cases a j) as Ha. pose proof (carries_cases b k) as Hb. cbv zeta in Ha, Hb. rewrite <- E in Hb.
  set (x := carries a j) in *. clearbody x. clear E.
  destruct Ha as [(Ea & _)|[(Ea & s & Hra & _)|(s & Hsx & _ & _)]]; destruct Hb as [(Eb & _)|[(Eb & s' & Hrb & _)|(s' & Hsx' & _ & _)]]; try lia.
  - destruct (swap_next _ _ _ Hsx'); lia.
  - apply swap_ok in Hsx' as (_ & _ & _ & H & _). congruence.
  - destruct (swap_next _ _ _ Hsx); lia.
  - apply swap_ok in Hsx as (_ & _ & _ & H & _). congruence.
  - rewrite Hsx in Hsx'. injection Hsx' as -> ->. lia.
Qed.
Lemma donor_carries x s j : reuse !! S x = Some s → carries x j = x.
Proof.
  intros H. destruct (reuse_ok _ _ H) as [_ Hx]. replace (S x - 1)%nat with x in Hx by lia.
  unfold Simulate.carries. rewrite Hx. destruct (swap !! x) as [[o s']|] eqn:E; [|done].
  apply swap_ok in E as (_ & _ & _ & E & _). congruence.
Qed.

(** One id on both sides of a join, under two exchanges: a swap that starts there, or a
    reuse, whose donor carries the id too. *)
Lemma carried_wrong a b j : carries a j = carries b (S j) → a ≠ b →
  swap !! a = Some (b, S j) ∨
  ∃ x s, reuse !! S x = Some s ∧ (a = x ∧ b = S x ∨ a = S x ∧ b = x) ∧
    carries x j = carries a j ∧ carries x (S j) = carries a j.
Proof.
  intros E Hne. pose proof (carries_cases a j) as Ha. pose proof (carries_cases b (S j)) as Hb. cbv zeta in Ha, Hb.
  rewrite <- E in Hb. remember (carries a j) as x eqn:Ex. clear E.
  destruct Ha as [(Ea & Hsa & Hra)|[(Ea & s & Hra & Hs)|(s & Hsx & Hsa & Hs)]];
    destruct Hb as [(Eb & Hsb & Hrb)|[(Eb & s' & Hrb & Hs')|(s' & Hsx' & Hsb & Hs')]].
  - congruence.
  - right. exists x, s'. subst b. split; [done|]. split; [by left|]. split; [|by eapply donor_carries].
    rewrite (donor_carries x s' j Hrb). done.
  - left. rewrite <- Ea in Hsx'. apply Hsa in Hsx' as Hlt. rewrite Hsx'. do 2 f_equal. lia.
  - right. exists x, s. subst a. split; [done|]. split; [by right|]. split; by eapply donor_carries.
  - congruence.
  - exfalso. subst a. apply swap_ok in Hsx' as (_ & _ & _ & H & _). congruence.
  - exfalso. subst b. apply Hsb in Hsx as Hlt. lia.
  - exfalso. subst b. apply swap_ok in Hsx as (_ & _ & _ & H & _). congruence.
  - exfalso. congruence.
Qed.
Lemma carries_lt i j : (i < n)%nat → (carries i j < n)%nat.
Proof.
  intros Hi. destruct (carries_cases i j) as [(E & _)|[(E & _)|(s & Hs & _)]]; [lia..|].
  by apply swap_ok in Hs as (_ & _ & _ & _ & ?).
Qed.
End plan_spec.

(** ** Lemmas: what is emitted *)

Section emission.
Context (plan : Plan) (draws : Draws).
Notation n := (pl_exchanges plan).
Notation sides := (_sides (pl_hops plan)).

Arguments identity_of : simpl never.
(** What has been emitted for a list of crossings, and the next number of each source. *)
Record emission (cs : list (nat * (nat * (string * string)))) (st : gmap string Z * list Emitted) : Prop := {
  es_once : NoDup (identity_of <$> st.2);
  es_next e : e ∈ st.2 → (identity_of e).2 < default 0 (st.1 !! (identity_of e).1);
  es_elem e : e ∈ st.2 → ∃ point side number keys, (em_exchange e, (em_side e, (point, side))) ∈ cs ∧
    dr_lost draws (em_exchange e) (em_side e) = false ∧ em_late e = dr_late draws (em_exchange e) (em_side e) ∧
    keys_for plan draws (em_exchange e) (em_side e) (em_keyless e) = Ok keys ∧
    observation (em_seen e) = mkObs (_source point) number point side keys ∧
    at_us (em_seen e) = Z.of_nat (em_exchange e) * pl_gap_us plan + Z.of_nat (em_side e) * (pl_hop_delay_us plan / 2) ∧
    start_us (em_seen e) = None ∧ Flow.end_us (em_seen e) = None;
  es_places : NoDup ((λ c : nat * (nat * (string * string)), (c.1, c.2.1)) <$> cs) →
    NoDup ((λ e, (em_exchange e, em_side e)) <$> st.2)
}.
Lemma emit_step_ok cs st c st' : emission cs st → emit_step plan draws st c = Ok st' → emission (cs ++ [c]) st'.
Proof.
  destruct st as [seqs out], c as [i [j [point side]]]. intros [H1 H2 H3 H5] H. cbn [fst snd] in *. unfold emit_step in H.
  destruct (dr_lost draws i j) eqn:El.
  - injection H as <-. split; cbn [fst snd]; [done|done| |].
    + intros e He. destruct (H3 e He) as (p & sd & num & ks & Hin & ?). exists p, sd, num, ks. split; [|done]. apply elem_of_app. by left.
    + rewrite fmap_app. intros [Hn _]%NoDup_app. by apply H5.
  - apply bind_Ok in H as (ks & Hks & [= <-]).
    set (e0 := mkEmitted i j _ _ _). assert (identity_of e0 = (_source point, default 0 (seqs !! _source point))) as Eid by done.
    split; cbn [fst snd].
    + rewrite fmap_app. apply NoDup_app. split; [done|]. split; [|apply NoDup_singleton].
      intros x (e & -> & He)%list_elem_of_fmap (e' & E & ->%list_elem_of_singleton)%list_elem_of_fmap.
      specialize (H2 e He). rewrite E, Eid in H2. cbn [fst snd] in H2. lia.
    + intros e [He| ->%list_elem_of_singleton]%elem_of_app.
      * specialize (H2 e He). destruct (decide (_source point = (identity_of e).1)) as [E|E].
        -- rewrite E, lookup_insert_eq. cbn [from_option id]. lia.
        -- by rewrite lookup_insert_ne.
      * rewrite Eid. cbn [fst snd]. rewrite lookup_insert_eq. cbn [from_option id]. lia.
    + intros e [He| ->%list_elem_of_singleton]%elem_of_app.
      * destruct (H3 e He) as (p & sd & num & ks' & Hin & ?). exists p, sd, num, ks'. split; [|done]. apply elem_of_app. by left.
      * exists point, side, (default 0 (seqs !! _source point)), ks. split; [apply elem_of_app; right; left|]. done.
    + rewrite !fmap_app. intros (Hn & Hd & _)%NoDup_app. apply NoDup_app. split; [by apply H5|]. split; [|apply NoDup_singleton].
      intros x (e & -> & He)%list_elem_of_fmap (e' & E & ->%list_elem_of_singleton)%list_elem_of_fmap.
      destruct (H3 e He) as (p & sd & num & ks' & Hin & _). apply (Hd (em_exchange e, em_side e)).
      * apply list_elem_of_fmap. by eexists (_, (_, _)).
      * rewrite E. left.
Qed.
Lemma emission_nothing cs : emission cs (∅, []).
Proof. split; simpl; [constructor|by intros ? ?%not_elem_of_nil|by intros ? ?%not_elem_of_nil|constructor]. Qed.
Lemma emit_steps_ok cs done st st' : emission done st → fold_res (emit_step plan draws) cs st = Ok st' →
  emission (done ++ cs) st'.
Proof.
  revert done st. induction cs as [|c cs IH]; intros done st Hst H; cbn [fold_res] in H.
  { injection H as <-. by rewrite app_nil_r. }
  apply bind_Ok in H as (st1 & H1 & H). apply (emit_step_ok _ _ _ _ Hst), IH in H1; [|done].
  by rewrite <- app_assoc in H1.
Qed.
Lemma emitted_ok : emission (crossings plan) (emit_state plan draws).
Proof.
  unfold emit_state. destruct (emission_run plan draws) as [st|] eqn:E; [|apply emission_nothing].
  by apply (emit_steps_ok _ [] _ _ (emission_nothing [])).
Qed.
(** Every crossing that is not lost is emitted, by a loop that ends. *)
Lemma emit_steps_all cs st st' : fold_res (emit_step plan draws) cs st = Ok st' →
  (∀ e, e ∈ st.2 → e ∈ st'.2) ∧
  ∀ i j ps, (i, (j, ps)) ∈ cs → dr_lost draws i j = false → ∃ e, e ∈ st'.2 ∧ em_exchange e = i ∧ em_side e = j.
Proof.
  revert st. induction cs as [|[i [j [point side]]] cs IH]; intros [seqs out] H; cbn [fold_res] in H.
  { injection H as <-. split; [done|]. by intros ??? ?%not_elem_of_nil. }
  apply bind_Ok in H as (st1 & H1 & H). apply IH in H as [Hk Ha]. unfold emit_step in H1.
  destruct (dr_lost draws i j) eqn:El.
  - injection H1 as <-. split; [done|]. intros i' j' ps [[= -> -> _]|Hin]%elem_of_cons Hl; [congruence|by eapply Ha].
  - apply bind_Ok in H1 as (ks & _ & [= <-]). cbn [snd] in *. split.
    + intros e He. apply Hk, elem_of_app. by left.
    + intros i' j' ps [[= -> -> _]|Hin]%elem_of_cons Hl; [|by eapply Ha].
      eexists. split; [apply Hk, elem_of_app; right; left|done].
Qed.
Lemma emitted_all st i j ps : emission_run plan draws = Ok st → (i, (j, ps)) ∈ crossings plan → dr_lost draws i j = false →
  ∃ e, e ∈ emitted plan draws ∧ em_exchange e = i ∧ em_side e = j.
Proof. intros H. unfold emitted, emit_state. rewrite H. by apply (emit_steps_all _ _ _ H). Qed.
(** The emission raises only for connection signals without a connection. *)
Definition pooled : Prop := pl_connection plan = true → pl_connections plan ≠ 0.
Lemma emission_total : pooled → ∃ st, emission_run plan draws = Ok st.
Proof.
  intros Hp. apply fold_res_total. intros [seqs out] [i [j [point side]]] _. unfold emit_step.
  destruct (dr_lost draws i j); [by eexists|]. unfold keys_for, connection_keys, pooled in *.
  destruct (pl_connection plan); [|by eexists]. rewrite (proj2 (Z.eqb_neq _ _) (Hp eq_refl)). by eexists.
Qed.
Lemma elem_of_crossings i j ps : (i, (j, ps)) ∈ crossings plan ↔ (i < n)%nat ∧ sides !! j = Some ps.
Proof.
  unfold crossings. rewrite list_elem_of_bind. setoid_rewrite list_elem_of_fmap. setoid_rewrite elem_of_lookup_imap. split.
  - intros (i' & ([j' ps'] & [= -> -> ->] & (k & x & [= -> ->] & Hk)) & Hi%elem_of_seq). split; [lia|done].
  - intros [Hi Hj]. exists i. split; [|apply elem_of_seq; lia]. exists (j, ps). split; [done|]. by exists j, ps.
Qed.
Lemma crossings_NoDup : NoDup ((λ c : nat * (nat * (string * string)), (c.1, c.2.1)) <$> crossings plan).
Proof.
  unfold crossings. rewrite fmap_bind. apply (NoDup_bind_keys id).
  - rewrite list_fmap_id. apply NoDup_seq.
  - intros i _. rewrite <- list_fmap_compose, fmap_imap. apply NoDup_alt. intros k k' x Hk Hk'.
    rewrite list_lookup_imap in Hk, Hk'. destruct (sides !! k), (sides !! k'); simplify_eq/=. congruence.
  - intros i i' z _ _ (c & -> & Hc)%list_elem_of_fmap (c' & E & Hc')%list_elem_of_fmap.
    apply list_elem_of_fmap in Hc as (? & -> & _), Hc' as (? & -> & _). by injection E.
Qed.
Lemma emitted_placed : NoDup ((λ e, (em_exchange e, em_side e)) <$> emitted plan draws).
Proof. apply (es_places _ _ emitted_ok), crossings_NoDup. Qed.
Lemma elem_of_emitted e : e ∈ emitted plan draws → (em_exchange e < n)%nat ∧ ∃ point side number keys,
  sides !! em_side e = Some (point, side) ∧ dr_lost draws (em_exchange e) (em_side e) = false ∧
  keys_for plan draws (em_exchange e) (em_side e) (em_keyless e) = Ok keys ∧
  observation (em_seen e) = mkObs (_source point) number point side keys.
Proof.
  intros He. destruct (es_elem _ _ emitted_ok e He) as (p & sd & num & ks & [? ?]%elem_of_crossings & ? & _ & ? & ? & _).
  split; [done|]. by exists p, sd, num, ks.
Qed.

(** The chain's sides, its joins, and the topology's joins are the same. *)
Definition joins_agree (hops : nat) : bool :=
  forallb (λ j : Join string, existsb (λ w : string * nat * nat,
    bool_decide (w = (j_where j, w.1.2, S w.1.2)) && bool_decide (_sides hops !! w.1.2 = Some (j_up j)) &&
    bool_decide (_sides hops !! S w.1.2 = Some (j_down j)) && bool_decide (j_key j = "traceparent"%string)) (_joins (_sides hops)))
    (lab_joins hops (replicate hops "relay"%string) "headers") &&
  bool_decide (NoDup (_sides hops)) && forallb (λ ps, mem ps.1 (chain hops) && mem ps.2 SIDES) (_sides hops).
Lemma joins_agree_all : forallb joins_agree (seq 0 (S MAX_HOPS)) = true.
Proof. vm_compute. reflexivity. Qed.
Lemma joins_sides hops : (hops <= MAX_HOPS)%nat →
  (∀ j, j ∈ lab_joins hops (replicate hops "relay"%string) "headers" → ∃ i, (j_where j, i, S i) ∈ _joins (_sides hops) ∧
    _sides hops !! i = Some (j_up j) ∧ _sides hops !! S i = Some (j_down j) ∧ j_key j = "traceparent"%string) ∧
  NoDup (_sides hops) ∧ ∀ ps, ps ∈ _sides hops → ps.1 ∈ chain hops ∧ ps.2 ∈ SIDES.
Proof.
  intros Hh. pose proof joins_agree_all as H. rewrite forallb_forall in H.
  specialize (H hops ltac:(apply list_elem_of_In, elem_of_seq; lia)). unfold joins_agree in H.
  rewrite !andb_true_iff, bool_decide_eq_true, !forallb_forall in H. destruct H as [[Hj Hn] Hs]. split_and!; [|done|].
  - intros j Hin%list_elem_of_In. specialize (Hj j Hin). apply existsb_exists in Hj as ([[w i] k] & Hw%list_elem_of_In & E).
    rewrite !andb_true_iff, !bool_decide_eq_true in E. destruct E as [[[E ?] ?] ?]. simpl in *. simplify_eq. by exists i.
  - intros ps Hin%list_elem_of_In. specialize (Hs ps Hin). unfold mem in Hs. by rewrite andb_true_iff, !bool_decide_eq_true in Hs.
Qed.

(** What the engine is given of an exchange on time. *)
Definition seen_on_time : list Observation := (observation ∘ em_seen) <$> on_time plan draws.
Lemma elem_of_on_time e : e ∈ on_time plan draws ↔ e ∈ emitted plan draws ∧ em_late e = false.
Proof. unfold on_time. by rewrite elem_of_filter_bool, negb_true_iff. Qed.

Lemma validate_keys points o : o_point o ∈ points → o_side o ∈ SIDES →
  map_Forall (λ k v, k ∈ IDENTIFIERS ∧ v ≠ ""%string) (o_keys o) → _validate points o = Ok tt.
Proof.
  intros Hp Hs Hk. unfold _validate. rewrite !bool_decide_eq_true_2 by done. cbn [check mbind res_bind].
  assert (∀ l, (∀ e, e ∈ l → e.1 ∈ IDENTIFIERS ∧ e.2 ≠ ""%string) → fold_res (λ (_ : unit) e,
    _ ← check (bool_decide (e.1 ∈ IDENTIFIERS)) (ValueError "unknown identifier");
    check (negb (bool_decide (e.2 = ""%string))) (ValueError "empty value")) l tt = Ok tt) as Hf.
  { induction l as [|e l IH]; intros Hl; [done|]. destruct (Hl e ltac:(left)) as [H1 H2]. cbn [fold_res].
    rewrite (bool_decide_eq_true_2 (e.1 ∈ _) H1), (bool_decide_eq_false_2 (e.2 = _) H2). apply IH. intros; apply Hl; by right. }
  apply Hf. intros [k v] Hin%elem_of_map_to_list. by apply (Hk k v).
Qed.
Lemma str_Z_nonempty z : str_Z z ≠ ""%string.
Proof. intros E. pose proof (parse_int_str_Z z) as H. rewrite E in H. discriminate H. Qed.
Lemma keys_for_cases i j keyless keys : keys_for plan draws i j keyless = Ok keys → ∃ added,
  keys = <["traceparent"%string := dr_trace draws (carries plan draws i j)]> added ∧
  (pl_connection plan = false → added = ∅) ∧
  (added = ∅ ∨ ∃ ks, connection_keys plan i j = Ok ks ∧ added = list_to_map ks).
Proof.
  unfold keys_for. intros H. apply bind_Ok in H as (added & Ha & [= <-]). exists added. split; [done|].
  destruct (pl_connection plan); [|injection Ha as <-; split; [done|by left]].
  apply bind_Ok in Ha as (ks & Hk & Ha). split; [done|]. destruct keyless; injection Ha as <-; [by left|right]. by exists ks.
Qed.
Lemma keys_valid i j keyless keys : dr_trace draws (carries plan draws i j) ≠ ""%string →
  keys_for plan draws i j keyless = Ok keys → map_Forall (λ k v, k ∈ IDENTIFIERS ∧ v ≠ ""%string) keys.
Proof.
  intros Ht (added & -> & _ & Ha)%keys_for_cases. apply map_Forall_insert_2; [split; [|exact Ht]; by apply (bool_decide_eq_true_1 (_ ∈ IDENTIFIERS)); vm_compute|].
  destruct Ha as [->|(ks & Hks & ->)]; [apply map_Forall_empty|]. unfold connection_keys in Hks.
  apply bind_Ok in Hks as (_ & _ & [= <-]). simpl.
  apply map_Forall_insert_2; [split; [by apply (bool_decide_eq_true_1 (_ ∈ IDENTIFIERS)); vm_compute|done]|].
  apply map_Forall_insert_2; [split; [by apply (bool_decide_eq_true_1 (_ ∈ IDENTIFIERS)); vm_compute|apply str_Z_nonempty]|].
  apply map_Forall_empty.
Qed.
End emission.

(** ** Lemmas: the links of a simulation *)

Section links.
Context (plan : Plan) (draws : Draws).
Notation n := (pl_exchanges plan).
Notation sides := (_sides (pl_hops plan)).

(** The ids of the exchanges are distinct and not empty. *)
Record distinct_traces : Prop := {
  dt_inj i i' : (i < n)%nat → (i' < n)%nat → dr_trace draws i = dr_trace draws i' → i = i';
  dt_some i : (i < n)%nat → dr_trace draws i ≠ ""%string
}.
Context (Htr : distinct_traces) (Hhops : (pl_hops plan <= MAX_HOPS)%nat).

Lemma seen_accepted topology : (∀ p, p ∈ chain (pl_hops plan) → p ∈ point_names topology) →
  ∃ result, exact_links topology (seen_on_time plan draws) = Ok result.
Proof.
  intros Hp. unfold exact_links, _deduplicated.
  destruct (deduplicate_total (_validate (point_names topology)) _ _ obs_content_inj (seen_on_time plan draws))
    as (distinct & dropped & E); [..|rewrite E; simpl; eauto].
  - apply Forall_forall. intros o (e & -> & [He _]%elem_of_on_time)%list_elem_of_fmap. unfold compose.
    apply elem_of_emitted in He as (Hi & p & sd & num & ks & Hj & _ & Hk & ->).
    destruct (joins_sides _ Hhops) as (_ & _ & Hs). destruct (Hs (p, sd)) as [? ?]; [by apply list_elem_of_lookup_2 in Hj|].
    apply validate_keys; simpl; [by apply Hp|done|]. eapply keys_valid; [|exact Hk]. apply (dt_some Htr). by apply carries_lt.
  - intros a b (e & -> & [He _]%elem_of_on_time)%list_elem_of_fmap (e' & -> & [He' _]%elem_of_on_time)%list_elem_of_fmap E.
    f_equal. f_equal. apply (NoDup_fmap_inj _ _ _ _ (es_once _ _ _ _ (emitted_ok plan draws)) He He' E).
Qed.

Lemma seen_key e : e ∈ emitted plan draws → _value_of (observation (em_seen e)) "traceparent" =
  Some (dr_trace draws (carries plan draws (em_exchange e) (em_side e))).
Proof.
  intros (_ & p & sd & num & ks & _ & _ & (added & -> & _)%keys_for_cases & ->)%elem_of_emitted. unfold _value_of. simpl.
  by rewrite lookup_insert_eq.
Qed.
Lemma seen_side e k ps : e ∈ emitted plan draws → sides !! k = Some ps →
  (Exact.side_of (observation (em_seen e)) = ps ↔ em_side e = k).
Proof.
  intros (_ & p & sd & num & ks & Hj & _ & _ & ->)%elem_of_emitted Hk. destruct (joins_sides _ Hhops) as (_ & Hn & _).
  unfold Exact.side_of. simpl. split; [intros <-; by eapply NoDup_lookup|intros <-; congruence].
Qed.

(** One emitted observation on a side carries the value. *)
Lemma sole_emitted k ps v u : sides !! k = Some ps → sole _value_of (seen_on_time plan draws) ps "traceparent" v u →
  ∃ e, e ∈ on_time plan draws ∧ em_side e = k ∧ identity_of e = u ∧
    v = dr_trace draws (carries plan draws (em_exchange e) k) ∧
    ∀ e', e' ∈ on_time plan draws → em_side e' = k → v = dr_trace draws (carries plan draws (em_exchange e') k) →
      em_exchange e' = em_exchange e.
Proof.
  intros Hk [(o & (e & -> & He)%list_elem_of_fmap & Hs & Hv & Hu) Hall]. unfold compose in *.
  apply elem_of_on_time in He as Hem. destruct Hem as [Hem Hl]. apply (seen_side _ k) in Hs; [|done..].
  rewrite (seen_key e Hem), Hs in Hv. injection Hv as <-. exists e. split_and!; [done..|].
  intros e' He' Hs' Hv'. apply elem_of_on_time in He' as Hem'. destruct Hem' as [Hem' _].
  assert (identity_of e' = identity_of e) as E.
  { etransitivity; [|symmetry; exact Hu]. apply (Hall (observation (em_seen e'))).
    - apply list_elem_of_fmap. by exists e'.
    - by apply (seen_side _ k).
    - by rewrite (seen_key e' Hem'), Hs', Hv'. }
  f_equal. apply (NoDup_fmap_inj _ _ _ _ (es_once _ _ _ _ (emitted_ok plan draws)) Hem' Hem E).
Qed.

(** Not there to be joined: never emitted, or delivered late. *)
Definition absent (sim : Simulation) (i j : nat) : Prop :=
  (i, j) ∈ si_lost sim ∨ ∃ u, si_placed sim !! (i, j) = Some u ∧ u ∈ si_late sim.

Section run.
Context (repr py_str : Value → string) (format_g : Q → string) (sim : Simulation).
Hypothesis Hsim : simulate plan draws repr py_str format_g = Ok sim.

Lemma simulated : si_truth sim = list_to_map ((λ e, (identity_of e, em_exchange e)) <$> emitted plan draws) ∧
  si_placed sim = list_to_map ((λ e, ((em_exchange e, em_side e), identity_of e)) <$> emitted plan draws) ∧
  si_swapped sim = swap_from plan draws ∧ si_reusers sim = dom (reuse_from plan draws) ∧
  si_lost sim = omap (λ c, if dr_lost draws c.1 c.2.1 then Some (c.1, c.2.1) else None) (crossings plan) ∧
  si_late sim = list_to_set (identity_of <$> late plan draws).
Proof.
  unfold simulate in Hsim. apply bind_Ok in Hsim as (? & _ & H). apply bind_Ok in H as (? & _ & H).
  apply bind_Ok in H as (? & _ & H). apply bind_Ok in H as (? & _ & H). injection H as <-. done.
Qed.
Lemma simulated_emission : ∃ st, emission_run plan draws = Ok st.
Proof.
  unfold simulate in Hsim. apply bind_Ok in Hsim as (? & _ & H). apply bind_Ok in H as (? & _ & H).
  apply bind_Ok in H as (? & _ & H). apply bind_Ok in H as (st & Hst & _). by exists st.
Qed.
Lemma truth_of e : e ∈ emitted plan draws → si_truth sim !! identity_of e = Some (em_exchange e).
Proof.
  intros He. destruct simulated as (-> & _). apply elem_of_list_to_map_1.
  - rewrite <- list_fmap_compose. apply (es_once _ _ _ _ (emitted_ok plan draws)).
  - apply list_elem_of_fmap. by exists e.
Qed.
Lemma placed_of e : e ∈ emitted plan draws → si_placed sim !! (em_exchange e, em_side e) = Some (identity_of e).
Proof.
  intros He. destruct simulated as (_ & -> & _). apply elem_of_list_to_map_1.
  - rewrite <- list_fmap_compose. apply emitted_placed.
  - apply list_elem_of_fmap. by exists e.
Qed.
Lemma absent_or i j ps : (i < n)%nat → sides !! j = Some ps →
  absent sim i j ∨ ∃ e, e ∈ on_time plan draws ∧ em_exchange e = i ∧ em_side e = j.
Proof.
  intros Hi Hj. assert ((i, (j, ps)) ∈ crossings plan) as Hc by by apply elem_of_crossings.
  destruct simulated as (_ & _ & _ & _ & El & Ea). destruct (dr_lost draws i j) eqn:Hl.
  - left; left. rewrite El. apply list_elem_of_omap. eexists. split; [exact Hc|]. simpl. by rewrite Hl.
  - destruct simulated_emission as [st Hst]. destruct (emitted_all plan draws st _ _ _ Hst Hc Hl) as (e & He & <- & <-).
    destruct (em_late e) eqn:Ee; [left; right|right; exists e; by rewrite elem_of_on_time].
    exists (identity_of e). split; [by apply placed_of|]. rewrite Ea. apply elem_of_list_to_set, list_elem_of_fmap.
    exists e. split; [done|]. by apply elem_of_filter_bool.
Qed.

(** A link is right, or starts a swap, or follows a reuse whose donor is absent. *)
Definition explained (l : Link) : Prop := ∃ a b j,
  (l_where l, j, S j) ∈ _joins sides ∧
  si_truth sim !! l_upstream l = Some a ∧ si_truth sim !! l_downstream l = Some b ∧
  si_placed sim !! (a, j) = Some (l_upstream l) ∧ si_placed sim !! (b, S j) = Some (l_downstream l) ∧
  (a = b ∨ si_swapped sim !! a = Some (b, S j) ∨
   ∃ x, S x ∈ si_reusers sim ∧ (a = x ∧ b = S x ∧ absent sim x (S j) ∨ a = S x ∧ b = x ∧ absent sim x j)).

Lemma link_explained topology result l :
  exact_joins topology ≡ₚ lab_joins (pl_hops plan) (replicate (pl_hops plan) "relay"%string) "headers" →
  exact_links topology (seen_on_time plan draws) = Ok result → l ∈ r_links result → explained l.
Proof.
  intros Hj Hres Hl. apply (elem_of_exact_links _ _ _ _ Hres) in Hl as (jn & Hjn & Hw & _ & Hup & Hdown).
  rewrite Hj in Hjn. destruct (proj1 (joins_sides _ Hhops) jn Hjn) as (j & Hin & Hsu & Hsd & Hkey).
  rewrite Hkey in Hup, Hdown.
  apply (sole_emitted j) in Hup as (ea & Hea & Eja & Eu & Va & Ua); [|done].
  apply (sole_emitted (S j)) in Hdown as (eb & Heb & Ejb & Ed & Vb & Ub); [|done].
  apply elem_of_on_time in Hea as Hma. apply elem_of_on_time in Heb as Hmb. destruct Hma as [Hma _], Hmb as [Hmb _].
  destruct (elem_of_emitted _ _ _ Hma) as [Hia _]. destruct (elem_of_emitted _ _ _ Hmb) as [Hib _].
  exists (em_exchange ea), (em_exchange eb), j. rewrite <- Eu, <- Ed, Hw.
  split_and!; [done|by apply truth_of..|rewrite <- Eja; by apply placed_of|rewrite <- Ejb; by apply placed_of|].
  destruct (decide (em_exchange ea = em_exchange eb)) as [|Hne]; [by left|right].
  assert (carries plan draws (em_exchange ea) j = carries plan draws (em_exchange eb) (S j)) as Ec.
  { apply (dt_inj Htr); [by apply carries_lt..|congruence]. }
  destruct simulated as (_ & _ & -> & -> & _ & _).
  destruct (carried_wrong _ _ _ _ _ Ec Hne) as [Hs|(x & s & Hr & Hx & Hcj & HcS)]; [by left|right].
  assert (x < n)%nat as Hxn by (destruct (reuse_ok _ _ _ _ Hr); lia).
  exists x. split; [by apply elem_of_dom|]. destruct Hx as [[Ea Eb]|[Ea Eb]]; [left|right].
  - split_and!; [done..|]. destruct (absent_or x (S j) _ Hxn Hsd) as [|(e & He & Ex & Ej)]; [done|exfalso].
    specialize (Ub e He Ej). rewrite Ex, HcS in Ub. specialize (Ub Va). lia.
  - split_and!; [done..|]. destruct (absent_or x j _ Hxn Hsu) as [|(e & He & Ex & Ej)]; [done|exfalso].
    specialize (Ua e He Ej). rewrite Ex, Hcj in Ua. specialize (Ua Va). lia.
Qed.
End run.
End links.

(** ** Guarantees *)

(** A simulated run says what to expect of the engine.  For one to five hops, exchanges
    with distinct non-empty ids and any faults (reuses, swaps, losses, late deliveries,
    keyless ends), and at least one pooled connection when the hops record it, [simulate] returns a simulation, the exact path accepts the observations
    delivered on time against the simulation's topology, and every link it makes joins
    two sides of the chain: either the two ends belong to the same exchange, or a swap
    planned between the two exchanges starts at the downstream side, or one of the two
    reuses the id of the other, whose own observation at that join was lost or late.  There
    is no other wrong link. *)
Theorem simulated_wrong_explained plan draws repr py_str format_g :
  (1 <= pl_hops plan <= MAX_HOPS)%nat → distinct_traces plan draws → pooled plan →
  ∃ sim result, simulate plan draws repr py_str format_g = Ok sim ∧
    exact_links (si_topology sim) (seen_on_time plan draws) = Ok result ∧
    ∀ l, l ∈ r_links result → explained plan sim l.
Proof.
  intros Hh Htr Hpool. destruct (emission_total plan draws Hpool) as [st Hst].
  destruct (lab_topology repr py_str format_g (pl_hops plan) (replicate (pl_hops plan) "relay"%string) "headers"
    (pl_connection plan) ltac:(lia) (length_replicate _ _)) as (topology & Ht & Hj & _ & Hp & _).
  assert (∃ sim, simulate plan draws repr py_str format_g = Ok sim ∧ si_topology sim = topology) as (sim & Hs & Et).
  { unfold simulate. replace ((1 <=? pl_hops plan) && (pl_hops plan <=? 5))%nat with true
      by (symmetry; apply andb_true_iff; rewrite !Nat.leb_le; unfold MAX_HOPS in Hh; lia).
    cbn [check mbind res_bind]. rewrite Ht. cbn [mbind res_bind]. rewrite Hst. cbn [mbind res_bind]. by eexists. }
  destruct (seen_accepted _ _ Htr ltac:(lia) topology Hp) as (result & Hr).
  exists sim, result. rewrite Et. split_and!; [done..|]. intros l Hl. by eapply link_explained; [..|exact Hl]; [|lia|..].
Qed.

(** ** Witnesses *)

(** Four exchanges over one hop: the second reuses the id of the first from the proxy on, and
    the first is not seen there; the last two swap ids at the proxy's outbound side. *)
Definition swap_plan : Plan := mkPlan 4 1 1000 100 2000 0 true false 4.
Definition swap_draws : Draws := mkDraws (λ i, "trace-" +:+ str_Z (Z.of_nat i))
  (λ i, (1%nat, (i =? 1)%nat)) (λ _, (1%nat, false)) (λ i, (2%nat, (i =? 2)%nat))
  (λ i j, (i =? 0)%nat && (j =? 1)%nat) (λ _ _, false) (λ _ _, false) (λ _ _, 0%Q) (λ _, false) (λ _ _, false) (λ _, O).
Definition wrong_links : res (list (string * option nat * option nat)) :=
  sim ← simulate swap_plan swap_draws (λ _, ""%string) (λ _, ""%string) (λ _, ""%string);
  result ← exact_links (si_topology sim) (seen_on_time swap_plan swap_draws);
  Ok (List.filter (λ w : string * option nat * option nat, negb (bool_decide (w.1.2 = w.2)))
       ((λ l, (l_where l, si_truth sim !! l_upstream l, si_truth sim !! l_downstream l)) <$> r_links result)).
Example wrong_links_run : wrong_links =
  Ok [("hop-1", Some 2, Some 3); ("hop-1", Some 3, Some 2); ("load-gen -> hop-1", Some 0, Some 1)]%string%nat.
Proof. vm_compute. reflexivity. Qed.
Lemma simulated_wrong_explained_witness :
  ∃ sim result, simulate swap_plan swap_draws (λ _, ""%string) (λ _, ""%string) (λ _, ""%string) = Ok sim ∧
    exact_links (si_topology sim) (seen_on_time swap_plan swap_draws) = Ok result ∧
    ∀ l, l ∈ r_links result → explained swap_plan sim l.
Proof.
  apply simulated_wrong_explained.
  - unfold MAX_HOPS. simpl. lia.
  - split.
    + intros i i' Hi Hi'. simpl in *. do 4 (destruct i as [|i]; [do 4 (destruct i' as [|i']; [vm_compute; congruence|]); lia|]). lia.
    + intros i Hi. simpl in *. done.
  - intros H. discriminate H.
Defined.
