(* ===== verification/SimulateFlow.v ===== *)
(** * SimulateFlow: the score of a simulated run, and what it always says

    [score] of [m0-harness/simulate_flow.py]: the decisions of the flow on a simulated
    journal, judged against the truth the engine never saw.  The list of [repr] texts
    ("finals") is left out of the report.  For every simulated run: the journal is replayed,
    nothing stays open, every injected copy is counted and every injected delay is found,
    and a wrong link is one that the faults explain. *)

From Stdlib Require Import QArith.
From S2P Require Import Prelude Digest DecimalText Json Topology Dedup Assignment Timing Exact Harness ExactPath FlowTimed Flow FlowTheorems FlowSound FlowProgress FlowSettles FlowLate FlowExact Simulate.

Open Scope Z_scope.

(** ** The report *)

Record Report := mkReport {
  rp_decisions : odict string Z;
  rp_linked : Z;
  rp_wrong : Z;
  rp_wrong_at_hops : Z;
  rp_wrong_at_crossings : Z;
  rp_wrong_at_hops_untraced : Z;
  rp_corroboration : odict string Z;
  rp_open : Z;
  rp_dossiers : Z;
  rp_reuse_injected : Z;
  rp_reuse_linked : Z;
  rp_reuse_collided : Z;
  rp_reuse_after_final : Z;
  rp_swap_injected : Z;
  rp_swap_wrong_at_start : Z;
  rp_swap_conflicted_at_start : Z;
  rp_explained_swap : Z;
  rp_explained_loss : Z;
  rp_wrong_unexplained : Z;
  rp_loss_injected : Z;
  rp_unlinked_expected : Z;
  rp_unlinked_found : Z;
  rp_late_injected : Z;
  rp_late_found : Z;
  rp_duplicates_injected : Z;
  rp_duplicates_counted : Z;
  rp_keyless_injected : Z;
  rp_absent_expected : Z;
  rp_absent_found : Z
}.

(** [[x for x in l if f(x)]], where [f] may raise. *)
Definition keep {A} (f : A → res bool) (l : list A) : res (list A) :=
  es ← map_res (λ x, b ← f x; Ok (x, b)) l; Ok (fst <$> List.filter snd es).
(** [d[k] = d.get(k, 0) + count] *)
Definition add_count (k : string) (count : Z) (d : odict string Z) : odict string Z :=
  od_set k (default 0 (od_get k d) + count) d.
Definition final_of (result : FlowResult) : odict (string * (string * Z)) FlowDecision :=
  List.filter (λ e : (string * (string * Z)) * FlowDecision, bool_decide (status e.2 = FINAL)) (effective result).
Definition is_kind (k : Kind) (d : FlowDecision) : bool := bool_decide (kind d = k).

Section score.
Context (plan : Plan) (simulation : Simulation) (result : FlowResult).
Notation truth := (si_truth simulation).
Notation sides := (_sides (pl_hops plan)).
Notation finals := (final_of result).

(** [{truth[p] for p in d.partners} != {truth[d.business_key[1]]}] *)
Definition wrong_link (d : FlowDecision) : res bool :=
  ps ← map_res (λ p, get (truth !! p) KeyError) (partners d);
  own ← get (truth !! (business_key d).2) KeyError;
  Ok (negb (bool_decide ((list_to_set ps : gset nat) = {[own]}))).
(** A swap's wrong links sit at the join just before the side it starts at. *)
Definition swap_joins : list (string * nat) :=
  map_to_list (si_swapped simulation) ≫= λ e : nat * (nat * nat),
    omap (λ j : string * nat * nat, if bool_decide (j.2 = e.2.2) then Some (j.1.1, e.1) else None) (_joins sides).
Definition starts_at (joins : list (string * nat)) (d : FlowDecision) : res bool :=
  own ← get (truth !! (business_key d).2) KeyError; Ok (bool_decide (((business_key d).1, own) ∈ joins)).
(** Lost, or delivered late. *)
Definition absent_at : gset (nat * nat) :=
  list_to_set (si_lost simulation) ∪
  list_to_set (omap (λ e : (nat * nat) * (string * Z), if bool_decide (e.2 ∈ si_late simulation) then Some e.1 else None)
    (map_to_list (si_placed simulation))).
Definition donors_lost : list nat :=
  List.filter (λ i, existsb (λ j, bool_decide ((i - 1, j)%nat ∈ absent_at)) (seq 0 (length sides))) (elements (si_reusers simulation)).
Definition loss_pairs : list (gset nat) := (λ i, {[i; (i - 1)%nat]}) <$> donors_lost.
Definition by_loss (at_swap : list FlowDecision) (d : FlowDecision) : res bool :=
  if bool_decide (d ∈ at_swap) then Ok false
  else own ← get (truth !! (business_key d).2) KeyError;
       ps ← map_res (λ p, get (truth !! p) KeyError) (partners d);
       Ok (bool_decide (({[own]} ∪ list_to_set ps : gset nat) ∈ loss_pairs)).

Definition reused_exchanges : res (gset nat) :=
  ts ← map_res (λ i, get (truth !! i) KeyError) (elements (si_reused simulation)); Ok (list_to_set ts).
(** The other end of the hop a side is an end of. *)
Definition hop_ends (j : nat) : nat * nat := if Nat.even j then (j, S j) else ((j - 1)%nat, j).
Definition other_end (ends : nat * nat) (j : nat) : nat := if (j =? ends.1)%nat then ends.2 else ends.1.
Definition side_point (j : nat) : res string := ps ← get (sides !! j) IndexError; Ok ps.1.
(** The partner of a side at a join, if it was delivered on time. *)
Definition partner_of (i j : nat) : option (string * Z) :=
  p ← si_placed simulation !! (i, j); if bool_decide (p ∈ si_late simulation) then None else Some p.
Definition absent_one (untouched : gset nat) (st : Z * Z) (e : (nat * nat) * (string * Z)) : res (Z * Z) :=
  let '((i, j), u) := e in
  if negb (bool_decide (u ∈ si_keyless simulation)) || negb (bool_decide (i ∈ untouched)) || bool_decide (u ∈ si_late simulation)
  then Ok st
  else let ends := hop_ends j in
       match partner_of i (other_end ends j) with
       | None => Ok st
       | Some _ =>
           src ← side_point ends.1;
           dst ← side_point ends.2;
           let found := match od_get (hop_where src dst, u) finals with
             | Some d => is_kind LINKED d && bool_decide (corroboration d = Some SIGNAL_ABSENT)
             | None => false
             end in
           Ok (st.1 + 1, if found then st.2 + 1 else st.2)
       end.
Definition loss_one (reused : gset nat) (st : Z * Z) (ij : nat * nat) : Z * Z :=
  let '(i, j) := ij in
  if bool_decide (i ∈ reused) || bool_decide (is_Some (si_swapped simulation !! i)) || bool_decide (S i ∈ si_reusers simulation) then st
  else foldl (λ st (w : string * nat * nat),
    let '(where_, up, down) := w in
    if negb ((j =? up)%nat || (j =? down)%nat) then st
    else match partner_of i (if (j =? up)%nat then down else up) with
         | None => st
         | Some p =>
             (st.1 + 1, match od_get (where_, p) finals with
                        | Some d => if is_kind UNLINKED d then st.2 + 1 else st.2 | None => st.2 end)
         end) st (_joins sides).

(** [sorted(simulation.lost)] visits each lost side once; the counts do not depend on the
    order. *)
Definition score : res Report :=
  let linked := List.filter (is_kind LINKED) finals.*2 in
  wrong ← keep wrong_link linked;
  let kinds := foldl (λ m d, add_count (Kind_value (kind d)) 1 m) [] finals.*2 in
  let on_reused := snd <$> List.filter (λ e : (string * (string * Z)) * FlowDecision, bool_decide (e.1.2 ∈ si_reused simulation)) finals in
  at_swap ← keep (starts_at swap_joins) wrong;
  by_reuse_loss ← keep (by_loss at_swap) wrong;
  let at_hops := List.filter (λ d, arrow (business_key d).1) wrong in
  let swap_hop_joins := List.filter (λ j : string * nat, arrow j.1) swap_joins in
  at_start ← keep (λ e : (string * (string * Z)) * FlowDecision,
    own ← get (truth !! e.1.2) KeyError; Ok (bool_decide ((e.1.1, own) ∈ swap_hop_joins))) finals;
  reused ← reused_exchanges;
  let untouched : gset nat := (list_to_set (seq 0 (pl_exchanges plan)) ∖ reused) ∖
    (dom (si_swapped simulation) ∪ list_to_set (pred <$> elements (si_reusers simulation))) in
  absent ← fold_res (absent_one untouched) (map_to_list (si_placed simulation)) (0, 0);
  let corroboration_ := foldl (λ m (e : (string * Corroboration) * Z), add_count (Corroboration_value e.1.2) e.2 m) [] (signal_counts result) in
  let lost := foldl (loss_one reused) (0, 0) (si_lost simulation) in
  let count_wrong := Z.of_nat (length wrong) in
  Ok (mkReport kinds (Z.of_nat (length linked)) count_wrong (Z.of_nat (length at_hops))
        (count_wrong - Z.of_nat (length at_hops))
        (count (λ d, negb (bool_decide (corroboration d = Some SIGNAL_ABSENT))) at_hops)
        corroboration_
        (count (λ e : (string * (string * Z)) * FlowDecision, negb (bool_decide (status e.2 = FINAL))) (effective result))
        (Z.of_nat (length (result_dossiers result)))
        (Z.of_nat (size reused))
        (count (λ d, bool_decide (d ∈ wrong)) on_reused)
        (count (is_kind COLLIDED) on_reused)
        (count (is_kind VALUE_AFTER_FINAL) on_reused)
        (Z.of_nat (size (si_swapped simulation)) / 2)
        (Z.of_nat (length at_swap))
        (count (λ e : (string * (string * Z)) * FlowDecision, is_kind CONFLICTED e.2) at_start)
        (Z.of_nat (length at_swap)) (Z.of_nat (length by_reuse_loss))
        (count_wrong - Z.of_nat (length at_swap) - Z.of_nat (length by_reuse_loss))
        (Z.of_nat (length (si_lost simulation))) lost.1 lost.2
        (Z.of_nat (size (si_late simulation)))
        (count (λ e : (string * (string * Z)) * FlowDecision, is_kind LATE e.2) finals)
        (si_duplicates simulation) (result_duplicates result)
        (Z.of_nat (size (si_keyless simulation))) absent.1 absent.2).
End score.

(** ** A run *)

Definition run (repr_str : string → string) (version : string) (plan : Plan) (draws : Draws) : res (Simulation * FlowResult * Report) :=
  sim ← simulate plan draws (λ _, ""%string) (λ _, ""%string) (λ _, ""%string);
  r ← replay_flow repr_str version (si_topology sim) (si_journal sim) (si_config sim);
  rep ← score plan sim r;
  Ok (sim, r, rep).
Example swap_run : (λ x, (rp_linked x.2, rp_wrong x.2, rp_explained_swap x.2, rp_explained_loss x.2, rp_wrong_unexplained x.2, rp_open x.2)) <$>
  run ex_repr "0.1.0" swap_plan swap_draws = Ok (14, 6, 4, 2, 0, 0).
Proof. vm_compute. reflexivity. Qed.

(** ** What the plan and the draws must be *)

Fixpoint copies_after (draws : Draws) (l : list Entry) (copies : list (nat * Emitted)) : Prop :=
  match copies with
  | [] => True
  | ne :: rest => ESeen (em_seen ne.2) ∈ take (dr_position draws ne.1) l ∧
      copies_after draws (insert_at (dr_position draws ne.1) (ESeen (em_seen ne.2)) l) rest
  end.
(** The window holds two exchanges in a row; jitter stays within the lateness; a copy comes after its
    original ([deliver.randint(journal.index(entry) + 1, ...)]). *)
Record valid_run (plan : Plan) (draws : Draws) : Prop := {
  vr_hops : (1 <= pl_hops plan <= MAX_HOPS)%nat;
  vr_traces : distinct_traces plan draws;
  vr_connections : pooled plan;
  vr_gap : 0 <= pl_gap_us plan;
  vr_delay : 0 <= pl_hop_delay_us plan;
  vr_window : pl_gap_us plan + (2 * Z.of_nat (pl_hops plan) + 1) * (pl_hop_delay_us plan / 2) <= pl_window_us plan;
  vr_disorder : 0 <= pl_disorder_us plan;
  vr_jitter i j : (0 <= dr_jitter draws i j <= inject_Z (pl_disorder_us plan))%Q;
  vr_copies : copies_after draws (deliveries plan draws) (imap pair (copies plan draws))
}.

(** ** Lemmas: an orderly journal *)

Global Instance Q_total : TotalCmp Q.
Proof.
  split.
  - intros x y. unfold cmp, Q_cmp, Qcompare. apply Z.compare_antisym.
  - intros x y z. unfold cmp, Q_cmp. rewrite <- !Qle_alt. apply Qle_trans.
Qed.
Lemma imap_pair_snd {A} (l : list A) : (imap pair l).*2 = l.
Proof.
  rewrite fmap_imap, (imap_ext _ (λ _ x, x)) by done. induction l as [|x l IH]; [done|]. simpl. f_equal. exact IH.
Qed.

(** No entry before the first delivery of a chosen observation is further ahead of it than
    the lateness. *)
Definition orderly (lateness : Z) (chosen : string * Z → Prop) (l : list Entry) : Prop :=
  ∀ pre s post e, l = pre ++ ESeen s :: post → chosen (identity (observation s)) →
    (∀ s', ESeen s' ∈ pre → identity (observation s') ≠ identity (observation s)) → e ∈ pre → time_of e <= at_us s + lateness.

Lemma orderly_not_behind lateness chosen l i : orderly lateness chosen l → chosen i → ¬ behind lateness l i.
Proof.
  intros H Hi (pre & s & post & e & -> & -> & Hfirst & He & Hlt). specialize (H pre s post e eq_refl Hi Hfirst He). lia.
Qed.
Lemma orderly_nil lateness chosen : orderly lateness chosen [].
Proof. intros pre s post e H. by destruct pre. Qed.
(** Appending advances changes nothing; appending an observation asks that it be in time. *)
Lemma orderly_app lateness chosen l k : orderly lateness chosen l →
  (∀ pre s post, k = pre ++ ESeen s :: post → chosen (identity (observation s)) → (∀ e, e ∈ l ++ pre → time_of e <= at_us s + lateness) ∨
     ∃ s', ESeen s' ∈ l ∧ identity (observation s') = identity (observation s)) →
  orderly lateness chosen (l ++ k).
Proof.
  intros Hl Hk pre s post e E Hc Hfirst He. apply app_eq_app in E as (q & [[-> E]|[-> E]]).
  2: { destruct (Hk q s post E Hc) as [H|(s' & Hs' & Es)]; [by apply H|]. exfalso. apply (Hfirst s'); [|done]. apply elem_of_app. by left. }
  destruct q as [|x q]; simplify_eq/=; [|by eapply Hl].
  destruct (Hk [] s post eq_refl Hc) as [H|(s' & Hs' & Es)]; rewrite ?app_nil_r in *; [by apply H|by destruct (Hfirst s')].
Qed.
Lemma orderly_copy lateness chosen l p s : orderly lateness chosen l → ESeen s ∈ take p l → orderly lateness chosen (insert_at p (ESeen s) l).
Proof.
  intros Hl Hin. unfold insert_at. rewrite <- (take_drop p l) in Hl. set (l1 := take p l) in *. set (l2 := drop p l) in *. clearbody l1 l2.
  intros pre s1 post e E Hc Hfirst He. apply app_eq_app in E as (q & [[-> E]|[-> E]]).
  2: { destruct q as [|x q]; simplify_eq/=; [rewrite app_nil_r in *; exfalso; by eapply Hfirst|].
    assert (∀ y, y ∈ l1 ++ q → time_of y <= at_us s1 + lateness) as H.
    { intros y Hy. eapply (Hl (l1 ++ q)); [by rewrite <- app_assoc|done| |done]. intros s' Hs'. apply Hfirst. set_solver. }
    apply H. rewrite !elem_of_app, elem_of_cons in *. destruct He as [?|[-> |?]]; auto. }
  destruct q as [|x q]; simplify_eq/=; [rewrite app_nil_r in Hin; exfalso; by eapply Hfirst|].
  eapply (Hl pre); [by rewrite <- app_assoc|done..].
Qed.
Lemma orderly_copies lateness chosen draws copies : ∀ l, orderly lateness chosen l → copies_after draws l copies →
  orderly lateness chosen (foldl (λ l (ne : nat * Emitted), insert_at (dr_position draws ne.1) (ESeen (em_seen ne.2)) l) l copies).
Proof. induction copies as [|ne copies IH]; intros l Hl; [done|]. intros [Hin Hrest]. simpl. apply IH; [by apply orderly_copy|done]. Qed.
Lemma copies_perm draws copies : ∀ l,
  foldl (λ l (ne : nat * Emitted), insert_at (dr_position draws ne.1) (ESeen (em_seen ne.2)) l) l copies ≡ₚ l ++ ((ESeen ∘ em_seen ∘ snd) <$> copies).
Proof.
  induction copies as [|ne copies IH]; intros l; simpl; [by rewrite app_nil_r|]. rewrite IH. unfold insert_at.
  rewrite <- Permutation_middle, take_drop. simpl. apply Permutation_middle.
Qed.

Section run_ok.
Context (plan : Plan) (draws : Draws) (Hrun : valid_run plan draws).
Notation n := (pl_exchanges plan).
Notation sides := (_sides (pl_hops plan)).
Notation step := (pl_hop_delay_us plan / 2).

Lemma emitted_seen e : e ∈ emitted plan draws → at_us (em_seen e) = Z.of_nat (em_exchange e) * pl_gap_us plan + Z.of_nat (em_side e) * step ∧
  start_us (em_seen e) = None ∧ Flow.end_us (em_seen e) = None.
Proof.
  intros He. by destruct (es_elem _ _ _ _ (emitted_ok plan draws) e He) as (p & sd & num & ks & _ & _ & _ & _ & _ & ?).
Qed.
Lemma sides_length : length sides = (2 * pl_hops plan + 2)%nat.
Proof.
  assert (∀ l : list nat, length (l ≫= λ k, [(hop_name k, "inbound"); (hop_name k, "outbound")]%string) = (2 * length l)%nat) as H.
  { induction l as [|k l IH]; [done|]. rewrite bind_cons, length_app, IH. simpl. lia. }
  unfold _sides. cbn [length]. rewrite length_app, H, length_seq. simpl. lia.
Qed.
Lemma step_nonneg : 0 <= step.
Proof. apply Z.div_pos; [apply (vr_delay _ _ Hrun)|lia]. Qed.
(** Two exchanges in a row are seen within the window. *)
Lemma at_bounds e : e ∈ emitted plan draws → Z.of_nat (em_exchange e) * pl_gap_us plan <= at_us (em_seen e) /\
  at_us (em_seen e) + pl_gap_us plan <= Z.of_nat (em_exchange e) * pl_gap_us plan + pl_window_us plan.
Proof.
  intros He. destruct (emitted_seen e He) as [-> _]. destruct (elem_of_emitted _ _ _ He) as (_ & p & sd & num & ks & Hj & _).
  apply lookup_lt_Some in Hj. rewrite sides_length in Hj. pose proof step_nonneg. pose proof (vr_window _ _ Hrun).
  pose proof (vr_gap _ _ Hrun). nia.
Qed.
Lemma at_nonneg e : e ∈ emitted plan draws → 0 <= at_us (em_seen e).
Proof. intros He. pose proof (at_bounds e He) as [H _]. pose proof (vr_gap _ _ Hrun). nia. Qed.
Lemma late_or_on_time e : e ∈ emitted plan draws ↔ e ∈ on_time plan draws ∨ e ∈ late plan draws.
Proof. unfold on_time, late. rewrite !elem_of_filter_bool, negb_true_iff. destruct (em_late e); naive_solver. Qed.

(** Deliveries: in the order of their times, each late by at most its jitter. *)
Lemma deliveries_entries : ∀ es (st : list Entry * Z), (∀ e, e ∈ es → e.2 ∈ emitted plan draws) →
  let st' := foldl (deliver_step plan draws) st es in
  (∀ x, x ∈ st'.1 → x ∈ st.1 ∨ (∃ e, e ∈ es ∧ x = ESeen (em_seen e.2)) ∨ ∃ src until, x = EAdvance src until ∧ src ∈ sources_of plan) ∧
  (∀ e, e ∈ es → ESeen (em_seen e.2) ∈ st'.1) ∧ (∀ x, x ∈ st.1 → x ∈ st'.1).
Proof.
  induction es as [|e es IH]; intros st Hes; [simpl; split_and!; [by left|by intros ? ?%not_elem_of_nil|done]|]. cbn [foldl].
  destruct (IH (deliver_step plan draws st e)) as (H1 & H2 & H3); [intros; apply Hes; by right|]. cbv zeta in *.
  assert (∀ x, x ∈ (deliver_step plan draws st e).1 ↔ x ∈ st.1 ∨ x = ESeen (em_seen e.2) ∨
    x ∈ (if dr_advance draws e.1 then (λ s, EAdvance s (Z.max st.2 (at_us (em_seen e.2)))) <$> sources_of plan else [])) as Hs.
  { intros x. unfold deliver_step. cbn [fst snd]. rewrite elem_of_app, elem_of_cons. tauto. }
  split_and!.
  - intros x Hx. destruct (H1 x Hx) as [Hx1|[(y & Hy & ->)|?]]; [|right; left; exists y; split; [by right|done]|by right; right].
    apply Hs in Hx1 as [?|[-> |Hx1]]; [by left|right; left; exists e; split; [left|done]|].
    destruct (dr_advance draws e.1); [|by apply not_elem_of_nil in Hx1]. apply list_elem_of_fmap in Hx1 as (src & -> & ?). right; right. eauto.
  - intros y [-> |Hy]%elem_of_cons; [apply H3, Hs; auto|by apply H2].
  - intros x Hx. apply H3, Hs. by left.
Qed.
Lemma deliveries_orderly : ∀ es (st : list Entry * Z), (∀ e, e ∈ es → e.2 ∈ emitted plan draws) →
  StronglySorted (key_le (λ e : nat * Emitted, delivered_at draws e.2)) es →
  orderly (pl_disorder_us plan) (λ _, True) st.1 → (∀ x, x ∈ st.1 → time_of x <= st.2) →
  (∀ e, e ∈ es → st.2 <= at_us (em_seen e.2) + pl_disorder_us plan) →
  orderly (pl_disorder_us plan) (λ _, True) (foldl (deliver_step plan draws) st es).1.
Proof.
  induction es as [|e es IH]; intros st Hes Hsort Ho Hlat Hahead; [done|]. cbn [foldl].
  apply StronglySorted_inv in Hsort as [Hsort Hle]. pose proof (vr_disorder _ _ Hrun) as Hd. apply IH; [intros; apply Hes; by right|done|..].
  - unfold deliver_step. cbn [fst snd]. apply orderly_app; [done|]. intros pre s post E _. left.
    assert (pre = [] ∧ s = em_seen e.2) as [-> ->].
    { destruct pre as [|x pre]; [by simplify_eq/=|]. exfalso. injection E as _ E.
      assert (ESeen s ∈ (if dr_advance draws e.1 then (λ s, EAdvance s (Z.max st.2 (at_us (em_seen e.2)))) <$> sources_of plan else [])) as Hin.
      { rewrite E. apply elem_of_app. right. left. }
      destruct (dr_advance draws e.1); [|by apply not_elem_of_nil in Hin]. by apply list_elem_of_fmap in Hin as (? & ? & _). }
    intros x. rewrite app_nil_r. intros Hx%Hlat. specialize (Hahead e ltac:(left)). lia.
  - intros x. unfold deliver_step. cbn [fst snd]. rewrite elem_of_app, elem_of_cons. intros [Hx%Hlat|[-> |Hx]]; [lia|simpl; lia|].
    destruct (dr_advance draws e.1); [|by apply not_elem_of_nil in Hx]. by apply list_elem_of_fmap in Hx as (src & -> & _).
  - intros y Hy. unfold deliver_step. cbn [fst snd]. specialize (Hahead y ltac:(by right)).
    rewrite Forall_forall in Hle. specialize (Hle y Hy). unfold key_le, cmp_le, cmp, Q_cmp in Hle.
    assert (delivered_at draws e.2 <= delivered_at draws y.2)%Q as Hq.
    { apply Qnot_lt_le. intros Hlt. apply Hle. by apply Qgt_alt. }
    unfold delivered_at in Hq. destruct (vr_jitter _ _ Hrun (em_exchange e.2) (em_side e.2)) as [Hj1 _].
    destruct (vr_jitter _ _ Hrun (em_exchange y.2) (em_side y.2)) as [_ Hj2].
    assert (inject_Z (at_us (em_seen e.2)) <= inject_Z (at_us (em_seen y.2) + pl_disorder_us plan))%Q as Hz; [|rewrite <- Zle_Qle in Hz; lia].
    rewrite inject_Z_plus. eapply Qle_trans; [|apply Qplus_le_compat; [apply Qle_refl|exact Hj2]]. eapply Qle_trans; [|exact Hq].
    rewrite <- (Qplus_0_r (inject_Z (at_us (em_seen e.2)))) at 1. apply Qplus_le_compat; [apply Qle_refl|done].
Qed.

(** The whole journal: observations that were emitted, and the progress of its sources. *)
Lemma delivered_from e : e ∈ imap pair (sorted_by (delivered_at draws) (on_time plan draws)) → e.2 ∈ on_time plan draws.
Proof. destruct e as [k e]. intros (j & x & [= -> ->] & Hx)%elem_of_lookup_imap. apply list_elem_of_lookup_2 in Hx. by rewrite elem_of_sorted_by in Hx. Qed.
Lemma on_time_emitted e : e ∈ on_time plan draws → e ∈ emitted plan draws.
Proof. intros H. apply late_or_on_time. by left. Qed.
Lemma copies_from k : k ∈ copies plan draws → k ∈ on_time plan draws.
Proof. unfold copies. by intros [? _]%elem_of_filter_bool. Qed.
Lemma elem_of_deliveries x : x ∈ deliveries plan draws →
  (∃ e, e ∈ on_time plan draws ∧ x = ESeen (em_seen e)) ∨ ∃ src until, x = EAdvance src until ∧ src ∈ sources_of plan.
Proof.
  unfold deliveries. intros Hx. destruct (deliveries_entries (imap pair (sorted_by (delivered_at draws) (on_time plan draws))) ([], 0)) as (H & _ & _).
  - intros e He. by apply on_time_emitted, delivered_from.
  - destruct (H x Hx) as [?%not_elem_of_nil|[(e & He & ->)|?]]; [done| |by right]. left. exists e.2. split; [by apply delivered_from|done].
Qed.
Lemma on_time_delivered e : e ∈ on_time plan draws → ESeen (em_seen e) ∈ deliveries plan draws.
Proof.
  intros He. unfold deliveries. destruct (deliveries_entries (imap pair (sorted_by (delivered_at draws) (on_time plan draws))) ([], 0)) as (_ & H & _).
  - intros e' He'. by apply on_time_emitted, delivered_from.
  - assert (e ∈ sorted_by (delivered_at draws) (on_time plan draws)) as [k Hk]%list_elem_of_lookup by by apply elem_of_sorted_by.
    apply (H (k, e)). apply elem_of_lookup_imap. eauto.
Qed.
Lemma with_copies_perm : with_copies plan draws ≡ₚ deliveries plan draws ++ ((ESeen ∘ em_seen) <$> copies plan draws).
Proof.
  unfold with_copies. rewrite copies_perm. apply Permutation_app_head. by rewrite list_fmap_compose, imap_pair_snd.
Qed.
Lemma elem_of_with_copies x : x ∈ with_copies plan draws → (∃ e, e ∈ on_time plan draws ∧ x = ESeen (em_seen e)) ∨ ∃ src until, x = EAdvance src until ∧ src ∈ sources_of plan.
Proof.
  rewrite with_copies_perm. intros [Hx|(e & -> & He)%list_elem_of_fmap]%elem_of_app; [by apply elem_of_deliveries|].
  left. exists e. split; [by apply copies_from|done].
Qed.
Lemma elem_of_journal x : x ∈ journal_of plan draws → (∃ e, e ∈ emitted plan draws ∧ x = ESeen (em_seen e)) ∨ ∃ src until, x = EAdvance src until ∧ src ∈ sources_of plan.
Proof.
  unfold journal_of. rewrite !elem_of_app. intros [[(e & He & ->)|?]%elem_of_with_copies|[(src & -> & ?)%list_elem_of_fmap|(e & -> & He)%list_elem_of_fmap]].
  - left. exists e. split; [by apply on_time_emitted|done].
  - by right.
  - right. eauto.
  - left. exists e. split; [apply late_or_on_time; by right|done].
Qed.
Lemma emitted_in_journal e : e ∈ emitted plan draws → ESeen (em_seen e) ∈ journal_of plan draws.
Proof.
  intros [He|He]%late_or_on_time; unfold journal_of; rewrite !elem_of_app.
  - left. rewrite with_copies_perm. apply elem_of_app. left. by apply on_time_delivered.
  - right. right. by apply (list_elem_of_fmap_2 (λ e, ESeen (em_seen e))).
Qed.
Lemma seen_counted : length (List.filter is_seen (journal_of plan draws)) =
  (length (on_time plan draws) + length (copies plan draws) + length (late plan draws))%nat.
Proof.
  assert (∀ {A} (f : A → Seen) (l : list A), List.filter is_seen ((λ x, ESeen (f x)) <$> l) = (λ x, ESeen (f x)) <$> l) as Hs.
  { intros A f l. apply filter_bool_all. by intros ? (x & -> & _)%list_elem_of_fmap. }
  assert (∀ until l, List.filter is_seen ((λ s, EAdvance s until) <$> l) = []) as Ha.
  { intros until l. apply filter_bool_none. by intros ? (x & -> & _)%list_elem_of_fmap. }
  assert (∀ es (st : list Entry * Z), length (List.filter is_seen (foldl (deliver_step plan draws) st es).1) =
    (length (List.filter is_seen st.1) + length es)%nat) as Hd.
  { induction es as [|e es IH]; intros st; [simpl; lia|]. cbn [foldl]. rewrite IH. unfold deliver_step. cbn [fst snd].
    rewrite List.filter_app, length_app. cbn [List.filter is_seen]. destruct (dr_advance draws e.1); rewrite ?Ha; simpl; lia. }
  unfold journal_of. rewrite !List.filter_app, !length_app, Ha, (Hs _ em_seen), length_fmap. simpl.
  rewrite (filter_bool_perm is_seen _ _ with_copies_perm), List.filter_app, length_app, (Hs _ em_seen), length_fmap.
  unfold deliveries. rewrite Hd, length_imap, length_sorted_by. simpl. lia.
Qed.
Lemma journal_orderly : orderly (pl_disorder_us plan) (λ i, i ∈ identity_of <$> on_time plan draws) (journal_of plan draws).
Proof.
  assert (orderly (pl_disorder_us plan) (λ _, True) (deliveries plan draws)) as Hd.
  { unfold deliveries. apply deliveries_orderly; simpl.
    - intros e He. by apply on_time_emitted, delivered_from.
    - assert (∀ (l : list (nat * Emitted)), StronglySorted (key_le (delivered_at draws)) l.*2 → StronglySorted (key_le (λ e : nat * Emitted, delivered_at draws e.2)) l) as Hs.
      { induction l as [|e l IH]; [constructor|]. rewrite fmap_cons. intros [H1 H2]%StronglySorted_inv. constructor; [by apply IH|].
        rewrite Forall_fmap in H2. exact H2. }
      apply Hs. rewrite imap_pair_snd.
      apply sorted_by_sorted.
    - apply orderly_nil.
    - by intros x ?%not_elem_of_nil.
    - intros e He%delivered_from%on_time_emitted. pose proof (at_nonneg e.2 He). pose proof (vr_disorder _ _ Hrun). lia. }
  assert (orderly (pl_disorder_us plan) (λ i, i ∈ identity_of <$> on_time plan draws) (with_copies plan draws)) as Hc.
  { apply orderly_copies; [|apply (vr_copies _ _ Hrun)]. intros pre s post e E _. by apply (Hd pre s post e E). }
  unfold journal_of. apply orderly_app; [done|]. intros pre s post _ (e & Ei & He)%list_elem_of_fmap. right.
  exists (em_seen e). split; [|done]. rewrite with_copies_perm. apply elem_of_app. left. by apply on_time_delivered.
Qed.
End run_ok.
