(* ===== verification/SimulateScored.v ===== *)
(** * SimulateScored: what a simulated run always says

    The simulation of [m0-harness/simulate_flow.py] delivers to the flow what the exact path
    would read at once, and its score judges the decisions against the truth.  For every
    plan whose window holds two exchanges and every draw of the faults: the journal is
    replayed, nothing stays open, every injected copy and every injected delay is found,
    and a wrong link is one that a swap or a lost donor explains. *)

From Stdlib Require Import QArith.
From S2P Require Import Prelude Digest DecimalText Json Topology Dedup Assignment Timing Exact Harness ExactPath FlowTimed Flow FlowTheorems FlowSound FlowProgress FlowSettles FlowLate FlowExact Simulate SimulateFlow.

Open Scope Z_scope.

(** ** The topology of a simulation *)

Definition ready_topology (t : Topology) (connection : bool) : bool :=
  bool_decide (NoDup (j_where <$> exact_joins t)) && bool_decide (NoDup (j_where <$> observed_joins t)) &&
  bool_decide (Forall (λ j : Join string, j_key j ≠ ""%string) (exact_joins t)) &&
  bool_decide (Forall (λ j : Join (list string), j_key j ≠ []) (observed_joins t)) &&
  bool_decide (NoDup (value_names t)) &&
  bool_decide (Forall (λ w, w ≠ ""%string) ((j_where <$> exact_joins t) ++ (j_where <$> observed_joins t))) &&
  (connection || bool_decide (j_where <$> observed_joins t = [])).

Section relay.
Context (repr py_str : Value → string) (format_g : Q → string).
Definition relay_loads (hops : nat) (connection : bool) : bool :=
  match topology_for repr py_str format_g hops (replicate hops "relay"%string) "headers" connection [] with
  | Ok (inr t) => ready_topology t connection
  | _ => false
  end.
Lemma relay_loads_all : forallb (λ hops, forallb (relay_loads hops) [true; false]) (seq 0 (S MAX_HOPS)) = true.
Proof. vm_compute. reflexivity. Qed.
Lemma relay_topology hops connection t : (hops <= MAX_HOPS)%nat →
  topology_for repr py_str format_g hops (replicate hops "relay"%string) "headers" connection [] = Ok (inr t) →
  plain t ∧ NoDup (value_names t) ∧ named_joins t ∧ (connection = false → observed_joins t = []) ∧
  exact_joins t ≡ₚ lab_joins hops (replicate hops "relay"%string) "headers" ∧ ∀ p, p ∈ ExactPath.chain hops → p ∈ point_names t.
Proof.
  intros Hh E. pose proof relay_loads_all as H. rewrite forallb_forall in H.
  specialize (H hops ltac:(apply list_elem_of_In, elem_of_seq; lia)). rewrite forallb_forall in H.
  specialize (H connection ltac:(destruct connection; simpl; auto)). unfold relay_loads in H. rewrite E in H.
  destruct (lab_topology repr py_str format_g hops (replicate hops "relay"%string) "headers" connection Hh (length_replicate _ _))
    as (t' & E' & Hj & _ & Hp & _). rewrite E in E'. injection E' as <-.
  unfold ready_topology in H. rewrite !andb_true_iff, orb_true_iff, !bool_decide_eq_true in H.
  destruct H as [[[[[[H1 H2] H3] H4] H5] H6] H7]. rewrite Forall_forall in H3. rewrite Forall_forall in H4.
  split_and!; [by split|done|done| |done|done]. intros ->. destruct H7 as [H7|H7]; [done|by apply fmap_nil_inv in H7].
Qed.
End relay.

(** ** Filters that may raise *)

Definition holds {A} (f : A → res bool) (x : A) : bool := match f x with Ok b => b | Raise _ => false end.
Lemma keep_total {A} (f : A → res bool) (l : list A) : (∀ x, x ∈ l → ∃ b, f x = Ok b) → keep f l = Ok (List.filter (holds f) l).
Proof.
  intros H. unfold keep. rewrite (map_res_fmap _ (λ x, (x, holds f x))).
  - cbn [mbind res_bind]. f_equal. clear H. induction l as [|x l IH]; [done|]. cbn. destruct (holds f x); cbn; by rewrite IH.
  - intros x Hx. destruct (H x Hx) as [b Hb]. unfold holds. by rewrite Hb.
Qed.
Lemma elem_of_keep {A} (f : A → res bool) (l : list A) x : x ∈ List.filter (holds f) l ↔ x ∈ l ∧ f x = Ok true.
Proof. rewrite elem_of_filter_bool. unfold holds. destruct (f x) as [[]|]; naive_solver. Qed.
(** What two disjoint tests cover. *)
Lemma filter_cover {A} (f g : A → bool) (l : list A) : (∀ x, x ∈ l → f x = negb (g x)) →
  Z.of_nat (length l) - Z.of_nat (length (List.filter f l)) - Z.of_nat (length (List.filter g l)) = 0.
Proof.
  induction l as [|x l IH]; intros H; [done|]. cbn [List.filter length]. specialize (IH ltac:(intros; apply H; by right)).
  rewrite (H x) by left. destruct (g x); simpl; lia.
Qed.

(** A decision in force that differs from what the exact path says of the observations on
    time, and has its fingerprint all the same. *)
Definition clash (t : Topology) (os : list Observation) (r : FlowResult) : Prop :=
  ∃ k d x, od_get k (effective r) = Some d ∧ told_of t os k x ∧ proposal_of d ≠ _single x AUTHORED ∧
    _fingerprint d = fingerprint (_single x AUTHORED).

(** ** What the flow is given *)

Section scored.
Context (repr_str : string → string) (version : string) (plan : Plan) (draws : Draws) (Hrun : valid_run plan draws).
Context (sim : Simulation) (Hsim : simulate plan draws (λ _, ""%string) (λ _, ""%string) (λ _, ""%string) = Ok sim).
Notation t := (si_topology sim).
Notation c := (config_of plan).
Notation entries := (journal_of plan draws).
Notation settings := (init_settings repr_str version t c).
Notation sides := (_sides (pl_hops plan)).
Notation ids := (identity_of <$> emitted plan draws).

Lemma hops_few : (pl_hops plan <= MAX_HOPS)%nat.
Proof. apply (vr_hops _ _ Hrun). Qed.
Lemma sim_fields : si_journal sim = entries ∧ si_config sim = c ∧ si_duplicates sim = Z.of_nat (length (copies plan draws)) ∧
  topology_for (λ _, ""%string) (λ _, ""%string) (λ _, ""%string) (pl_hops plan) (replicate (pl_hops plan) "relay"%string) "headers"
    (pl_connection plan) [] = Ok (inr t) ∧ ∀ i, i ∈ si_reused sim → i ∈ ids.
Proof.
  unfold simulate in Hsim. apply bind_Ok in Hsim as (? & _ & H). apply bind_Ok in H as (loaded & Hl & H).
  apply bind_Ok in H as (t' & Ht & H). apply bind_Ok in H as (? & _ & H). injection H as <-. simpl. split_and!; [done..| |].
  - destruct loaded as [|t'']; [done|]. injection Ht as ->. exact Hl.
  - intros i (e & -> & [He _]%elem_of_filter_bool)%elem_of_list_to_set%list_elem_of_fmap. by apply list_elem_of_fmap_2.
Qed.
Lemma topology_ok : plain t ∧ NoDup (value_names t) ∧ named_joins t ∧ (pl_connection plan = false → observed_joins t = []) ∧
  exact_joins t ≡ₚ lab_joins (pl_hops plan) (replicate (pl_hops plan) "relay"%string) "headers" ∧
  ∀ p, p ∈ ExactPath.chain (pl_hops plan) → p ∈ point_names t.
Proof. eapply relay_topology; [apply hops_few|]. apply sim_fields. Qed.

Lemma sources_checked : forallb (λ hops, let s := sorted (_source <$> _points hops) in
  negb (is_nil s) && forallb (λ s, negb (bool_decide (s = ""%string))) s && bool_decide (NoDup s)) (seq 0 (S MAX_HOPS)) = true.
Proof. vm_compute. reflexivity. Qed.
Lemma config_checked : _check c = Ok tt.
Proof.
  pose proof sources_checked as H. rewrite forallb_forall in H. pose proof hops_few as Hh.
  specialize (H (pl_hops plan) ltac:(apply list_elem_of_In, elem_of_seq; lia)). cbv zeta in H.
  unfold _check. cbn [sources window_us lateness_us max_silence_us max_collision_members flow_max_duration_us config_of].
  unfold sources_of. rewrite H. cbn [check mbind res_bind].
  assert (0 <= pl_window_us plan) as Hw.
  { pose proof (step_nonneg _ _ Hrun). pose proof (vr_window _ _ Hrun). pose proof (vr_gap _ _ Hrun). nia. }
  rewrite (proj2 (Z.leb_le _ _) Hw), (proj2 (Z.leb_le _ _) (vr_disorder _ _ Hrun)). done.
Qed.
Lemma source_in e : e ∈ emitted plan draws → o_source (observation (em_seen e)) ∈ sources_of plan.
Proof.
  intros (_ & p & sd & num & ks & Hj & _ & _ & ->)%elem_of_emitted. simpl. unfold sources_of, sorted. rewrite elem_of_sorted_by.
  apply list_elem_of_fmap_2. destruct (joins_sides _ hops_few) as (_ & _ & Hs). by apply (Hs (p, sd)), list_elem_of_lookup_2 with (em_side e).
Qed.
Lemma emitted_unique e e' : e ∈ emitted plan draws → e' ∈ emitted plan draws → identity_of e = identity_of e' → e = e'.
Proof. intros He He' E. apply (NoDup_fmap_inj _ _ _ _ (es_once _ _ _ _ (emitted_ok plan draws)) He He' E). Qed.
Lemma entries_deliverable : deliverable settings entries.
Proof.
  split.
  - intros s Hs. apply elem_of_journal in Hs as [(e & He & [= ->])|(? & ? & ? & _)]; [|done]. split_and!; [|by apply source_in|].
    + pose proof (elem_of_emitted _ _ _ He) as (Hi & p & sd & num & ks & Hj & _ & Hkeys & ->).
      destruct (joins_sides _ hops_few) as (_ & _ & Hs). destruct (Hs (p, sd)) as [? ?]; [by apply list_elem_of_lookup_2 in Hj|].
      destruct topology_ok as (_ & _ & _ & _ & _ & Hp). apply validate_keys; simpl; [by apply Hp|done|].
      eapply keys_valid; [|exact Hkeys]. apply (dt_some _ _ (vr_traces _ _ Hrun)). by apply carries_lt.
    + destruct (emitted_seen _ _ e He) as (_ & E1 & E2). unfold _times. by rewrite E1, E2.
  - intros src until Hin. apply elem_of_journal in Hin as [(e & _ & ?)|(? & ? & [= -> ->] & ?)]; done.
  - intros s s' Hs Hs' E. apply elem_of_journal in Hs as [(e & He & [= ->])|(? & ? & ? & _)]; [|done].
    apply elem_of_journal in Hs' as [(e' & He' & [= ->])|(? & ? & ? & _)]; [|done]. by rewrite (emitted_unique e e' He He' E).
Qed.

(** Who carries an id, on two sides: at most six observations. *)
Definition carriers_of (x : nat) (js : list nat) : list (string * Z) :=
  omap (λ ij, si_placed sim !! ij) ((x :: S x :: match swap_from plan draws !! x with Some (o, _) => [o] | None => [] end) ≫= λ i, (λ j, (i, j)) <$> js).
Lemma carried_by e x : e ∈ emitted plan draws → x = carries plan draws (em_exchange e) (em_side e) →
  em_exchange e = x ∨ em_exchange e = S x ∨ ∃ s, swap_from plan draws !! x = Some (em_exchange e, s).
Proof.
  intros _ ->. destruct (carries_cases plan draws (em_exchange e) (em_side e)) as [(? & _)|[(? & _)|(s & ? & _)]]; eauto.
Qed.
Lemma journal_uncrowded : uncrowded t c entries.
Proof.
  intros j v Hj. destruct topology_ok as (_ & _ & _ & _ & Hp & _). rewrite Hp in Hj.
  destruct (proj1 (joins_sides _ hops_few) j Hj) as (a & _ & Hsu & Hsd & Hkey).
  change (max_collision_members c) with 32. destruct (decide (carriers entries j v = ∅)) as [-> |[u0 Hu0]%set_choose_L]; [by rewrite size_empty|].
  assert (∀ u, u ∈ carriers entries j v → ∃ e, e ∈ emitted plan draws ∧ identity_of e = u ∧ (em_side e = a ∨ em_side e = S a) ∧
    dr_trace draws (carries plan draws (em_exchange e) (em_side e)) = v) as Hc.
  { intros u (x & Hx & E)%elem_of_list_to_set%list_elem_of_omap. destruct x as [s|]; [|done].
    case_bool_decide as Hb; [|done]. injection E as <-. destruct Hb as [Hs Hv].
    apply elem_of_journal in Hx as [(e & He & [= ->])|(? & ? & ? & _)]; [|done]. exists e. split_and!; [done|done| |].
    - rewrite <- (seen_side plan draws hops_few e a _ He Hsu), <- (seen_side plan draws hops_few e (S a) _ He Hsd). exact Hs.
    - rewrite Hkey in Hv. pose proof (seen_key plan draws e He) as Hk. unfold _value_of in Hk. congruence. }
  destruct (Hc u0 Hu0) as (e0 & He0 & _ & _ & Hv0). set (x := carries plan draws (em_exchange e0) (em_side e0)) in *.
  etrans; [apply inj_le, subseteq_size with (Y := list_to_set (carriers_of x [a; S a]))|].
  - intros u Hu. destruct (Hc u Hu) as (e & He & <- & Hs & Hv). apply elem_of_list_to_set, list_elem_of_omap.
    exists (em_exchange e, em_side e). split; [|by eapply placed_of].
    assert (x = carries plan draws (em_exchange e) (em_side e)) as Ex.
    { apply (dt_inj _ _ (vr_traces _ _ Hrun)); [by apply carries_lt, (elem_of_emitted plan draws e0)|by apply carries_lt, (elem_of_emitted plan draws e)|congruence]. }
    apply list_elem_of_bind. exists (em_exchange e). split; [apply (list_elem_of_fmap_2 (λ j, (em_exchange e, j))); set_solver|].
    rewrite !elem_of_cons. destruct (carried_by e x He Ex) as [?|[?|(s & ->)]]; [tauto..|]. right; right. left.
  - etrans; [apply inj_le, size_list_to_set_le|]. unfold carriers_of.
    destruct (swap_from plan draws !! x) as [[o s]|]; cbn; repeat (case_match; simpl); lia.
Qed.

(** ** The journal ends after everything *)

Lemma end_after e : e ∈ emitted plan draws → at_us (em_seen e) + pl_window_us plan + pl_disorder_us plan < end_us plan draws.
Proof.
  intros He. unfold end_us. assert (at_us (em_seen e) ∈ (λ e, at_us (em_seen e)) <$> emitted plan draws) as H by by apply (list_elem_of_fmap_2 (λ e, at_us (em_seen e))).
  destruct (_ <$> emitted plan draws) as [|a l]; [by apply not_elem_of_nil in H|].
  destruct (foldl_max_ge l a) as [Ha Hl]. apply elem_of_cons in H as [-> |H%Hl]; lia.
Qed.
Lemma seen_emitted s : ESeen s ∈ entries → ∃ e, e ∈ emitted plan draws ∧ em_seen e = s.
Proof. intros [(e & He & [= ->])|(? & ? & ? & _)]%elem_of_journal; [by exists e|done]. Qed.
Lemma ends_told src : src ∈ sources_of plan → EAdvance src (end_us plan draws) ∈ entries.
Proof. intros H. unfold journal_of. rewrite !elem_of_app. right; left. by apply (list_elem_of_fmap_2 (λ s, EAdvance s _)). Qed.
Lemma on_time_iff e : e ∈ emitted plan draws → e ∈ on_time plan draws ↔ e ∉ late plan draws.
Proof.
  intros He. unfold on_time, late. rewrite !elem_of_filter_bool. destruct (em_late e); simpl; naive_solver.
Qed.
Lemma late_emitted e : e ∈ late plan draws → e ∈ emitted plan draws.
Proof. intros He. apply late_or_on_time. by right. Qed.
Lemma late_once : NoDup (identity_of <$> late plan draws).
Proof. apply NoDup_filter_bool, (es_once _ _ _ _ (emitted_ok plan draws)). Qed.
(** A late observation is first delivered when every source has told the end. *)
Lemma late_delivered e : e ∈ late plan draws → ∃ pre post, entries = pre ++ ESeen (em_seen e) :: post ∧
  (∀ src, src ∈ sources_of plan → EAdvance src (end_us plan draws) ∈ pre) ∧
  ∀ s', ESeen s' ∈ pre → Exact.identity (observation s') ≠ identity_of e.
Proof.
  intros He. pose proof late_once as Hn. apply list_elem_of_split in He as (l1 & l2 & E). unfold journal_of. rewrite E.
  rewrite fmap_app, fmap_cons, !app_assoc. eexists _, _. split; [done|]. split.
  - intros src Hs. rewrite !elem_of_app. left; right. by apply (list_elem_of_fmap_2 (λ s, EAdvance s _)).
  - intros s' Hs' Ei. rewrite !elem_of_app in Hs'. destruct Hs' as [[Hs'|Hs']|Hs'].
    + apply elem_of_with_copies in Hs' as [(e' & He' & [= ->])|(? & ? & ? & _)]; [|done].
      assert (e ∈ late plan draws) as Hl by (rewrite E, elem_of_app; right; left). pose proof (on_time_emitted _ _ e' He') as Hem.
      apply (on_time_iff e' Hem) in He'. apply He'. by rewrite (emitted_unique e' e Hem (late_emitted e Hl) Ei).
    + by apply list_elem_of_fmap in Hs' as (? & ? & _).
    + apply list_elem_of_fmap in Hs' as (e' & [= ->] & He'). rewrite E, fmap_app, fmap_cons in Hn.
      apply NoDup_app in Hn as (_ & Hn & _). apply (Hn (identity_of e')); [by apply list_elem_of_fmap_2|]. change (identity_of e' = identity_of e) in Ei. rewrite Ei. left.
Qed.

(** ** The replay *)

Section replayed.
Context (M : gmap (string * Z) Seen) (st : Flow) (r : FlowResult) (Hf : faithful settings entries M st).
Context (Hst : fold_res (feed settings) entries (init_state settings []) = Ok st).
Context (Hr : replay_flow repr_str version t entries c = Ok r).
Context (Er : r = mkFlowResult (decisions (history st)) (dossiers (history st)) (duplicates (journal st))).
Context (Heff : ∀ k, od_get k (effective r) = current (history st) !! k).

Lemma all_final e : e ∈ effective r → status e.2 = FINAL.
Proof.
  destruct topology_ok as (Hp & Hn & _). apply (replay_settled repr_str version t entries c r (end_us plan draws)); [done|done|done|done|..].
  - intros src Hs. exists (end_us plan draws). split; [by apply ends_told|lia].
  - intros s Hs. destruct (seen_emitted s Hs) as (e' & He' & <-). by apply end_after.
Qed.
Lemma seen_iff i s : seen (journal st) !! i = Some s ↔ ∃ e, e ∈ emitted plan draws ∧ identity_of e = i ∧ em_seen e = s.
Proof.
  assert (∀ i s, seen (journal st) !! i = Some s → ∃ e, e ∈ emitted plan draws ∧ identity_of e = i ∧ em_seen e = s) as H.
  { intros i' s' Hs. apply (fa_seen _ _ _ _ Hf) in Hs as [Hs Hi]. destruct (seen_emitted s' Hs) as (e & He & <-). by exists e. }
  split; [apply H|]. intros (e & He & <- & <-). destruct (feeds_known _ _ _ _ (em_seen e) Hst) as [(x & Hx & _) _]; [by apply emitted_in_journal|].
  pose proof Hx as (e' & He' & Ei & Ex)%H. rewrite <- Ex in Hx. by rewrite (emitted_unique e' e He' He Ei) in Hx.
Qed.
Lemma seen_ids i : is_Some (seen (journal st) !! i) ↔ i ∈ ids.
Proof.
  split.
  - intros [s (e & He & <- & _)%seen_iff]. by apply list_elem_of_fmap_2.
  - intros (e & -> & He)%list_elem_of_fmap. exists (em_seen e). apply seen_iff. by exists e.
Qed.
Lemma duplicates_found : result_duplicates r = Z.of_nat (length (copies plan draws)).
Proof.
  pose proof (feeds_count _ _ _ _ Hst) as H. rewrite Er. simpl. simpl in H. rewrite map_size_empty, (seen_counted plan draws) in H.
  assert (size (seen (journal st)) = length (emitted plan draws)) as E.
  { rewrite <- size_dom. assert (dom (seen (journal st)) = list_to_set ids) as ->.
    - apply set_eq. intros i. rewrite elem_of_dom, elem_of_list_to_set. apply seen_ids.
    - rewrite size_list_to_set, length_fmap; [done|apply (es_once _ _ _ _ (emitted_ok plan draws))]. }
  assert (length (emitted plan draws) = length (on_time plan draws) + length (late plan draws))%nat as El; [|lia].
  unfold on_time, late. clear. induction (emitted plan draws) as [|e l IH]; [done|]. simpl. destruct (em_late e); simpl; lia.
Qed.
Lemma late_iff i : (∃ d, od_get (""%string, i) (effective r) = Some d ∧ kind d = LATE) ↔ i ∈ identity_of <$> late plan draws.
Proof.
  destruct topology_ok as (Hp & Hn & _). split.
  - intros (d & Hd & Hk). pose proof Hd as Hd'. rewrite Heff in Hd'. apply (fa_aside _ _ _ _ Hf) in Hd' as [Hs _].
    apply seen_ids in Hs as (e & -> & He)%list_elem_of_fmap. apply list_elem_of_fmap_2. destruct (proj1 (late_or_on_time plan draws e) He) as [Hne|?]; [exfalso|done].
    apply (orderly_not_behind _ _ _ _ (journal_orderly plan draws Hrun) (list_elem_of_fmap_2 identity_of _ e Hne)).
    assert (business_key d = (""%string, identity_of e) ∧ d ∈ result_decisions r) as [Ek Hin].
    { rewrite effective_last in Hd. apply last_Some_elem_of in Hd. unfold FlowTheorems.chain in Hd.
      apply elem_of_filter_bool in Hd as [? ?%bool_decide_eq_true]. done. }
    pose proof (replay_late repr_str version t entries c r d Hp Hr Hin Hk) as Hb. by rewrite Ek in Hb.
  - intros (e & -> & He)%list_elem_of_fmap. destruct (late_delivered e He) as (pre & post & E & Hs & Hfirst).
    apply (replay_behind repr_str version t entries c r (end_us plan draws) pre (em_seen e) post Hp Hn eq_refl Hr E).
    + intros src Hsrc. exists (end_us plan draws). split; [by apply Hs|lia].
    + pose proof (end_after e (late_emitted e He)). simpl. assert (0 <= pl_window_us plan); [|lia].
      pose proof (step_nonneg _ _ Hrun). pose proof (vr_window _ _ Hrun). pose proof (vr_gap _ _ Hrun). nia.
    + exact Hfirst.
Qed.

(** *** What the decisions in force name was emitted *)

Lemma decision_key k d : od_get k (effective r) = Some d → business_key d = k ∧ d ∈ decisions (history st).
Proof.
  rewrite effective_last, Er. intros H%last_Some_elem_of. unfold FlowTheorems.chain in H.
  by apply elem_of_filter_bool in H as [? ?%bool_decide_eq_true].
Qed.
Lemma effective_in e : e ∈ effective r → od_get e.1 (effective r) = Some e.2.
Proof. destruct e as [k d]. apply od_get_in, effective_keys. Qed.
Lemma key_ids k d : od_get k (effective r) = Some d → k.2 ∈ ids.
Proof.
  rewrite Heff. intros H. apply seen_ids. destruct k as [w i]. simpl. destruct (decide (w = ""%string)) as [-> |Hw].
  - by apply (fa_aside _ _ _ _ Hf) in H as [? _].
  - apply (fa_only _ _ _ _ Hf) in H as [[x Hx] _]; [|done]. apply (fa_admitted _ _ _ _ Hf) in Hx as [Hx _]. by exists x.
Qed.
Lemma says_of k d : od_get k (effective r) = Some d →
  says settings (λ _, True) False (seen (journal st)) k (kind d) (dkey d) (value d) (partners d).
Proof.
  intros [<- Hd]%decision_key. apply (feeds_true _ (λ _, True) False) in Hst as [[_ Hh _] _]; [|by apply plain_keyed, topology_ok|done|].
  - apply (ho_says _ _ _ _ _ Hh d Hd).
  - split; simpl; [intros ??; simpl; by intros ?%lookup_empty_Some|apply hist_init|done].
Qed.
Lemma linked_partner k d : od_get k (effective r) = Some d → kind d = LINKED → ∃ p, partners d = [p] ∧ p ∈ ids.
Proof.
  intros Hd Hk. pose proof (says_of k d Hd) as Hs. destruct (sy_link _ _ _ _ _ _ _ _ _ Hs Hk) as [p Hp]. exists p. split; [done|].
  assert (kind d ∈ joined_kinds) as Hj by (rewrite Hk; left).
  destruct (dkey d) as [n|] eqn:En; [|exfalso; apply (sy_named _ _ _ _ _ _ _ _ _ Hs eq_refl); by right].
  destruct (sy_join _ _ _ _ _ _ _ _ _ Hs n eq_refl Hj) as (v & _ & Ho). rewrite Hp in Ho. apply seen_ids.
  destruct Ho as [(j & _ & _ & _ & [[_ H]|[_ H]])|(j & _ & _ & _ & [[_ H]|[_ H]])];
    destruct (H p ltac:(left)) as (s & Hs' & _); by exists s.
Qed.
Lemma truth_in i : i ∈ ids → ∃ x, si_truth sim !! i = Some x.
Proof. intros (e & -> & He)%list_elem_of_fmap. eexists. by eapply truth_of. Qed.

(** *** The score *)

Notation truth := (si_truth sim).
Notation finals := (final_of r).
Notation linked := (List.filter (is_kind LINKED) finals.*2).
Notation wrong := (List.filter (holds (wrong_link sim)) linked).
Notation at_swap := (List.filter (holds (starts_at sim (swap_joins plan sim))) wrong).
Notation by_reuse_loss := (List.filter (holds (by_loss plan sim at_swap)) wrong).

Lemma finals_effective : finals = effective r.
Proof. unfold final_of. apply filter_bool_all. intros e He. by apply bool_decide_eq_true, all_final. Qed.
Lemma in_finals d : d ∈ finals.*2 → od_get (business_key d) (effective r) = Some d.
Proof.
  rewrite finals_effective. intros ([k d'] & -> & He)%list_elem_of_fmap. pose proof (effective_in _ He) as H. simpl in *.
  by destruct (decision_key k d' H) as [-> _].
Qed.
Lemma linked_truths d : d ∈ linked → ∃ x y p, truth !! (business_key d).2 = Some x ∧ partners d = [p] ∧ truth !! p = Some y.
Proof.
  intros [Hd Hk%bool_decide_eq_true]%elem_of_filter_bool. apply in_finals in Hd.
  destruct (truth_in _ (key_ids _ _ Hd)) as [x Hx]. destruct (linked_partner _ _ Hd Hk) as (p & Hp & Hi).
  destruct (truth_in _ Hi) as [y Hy]. by exists x, y, p.
Qed.
Lemma wrong_total : keep (wrong_link sim) linked = Ok wrong.
Proof.
  apply keep_total. intros d Hd. destruct (linked_truths d Hd) as (x & y & p & Hx & Hp & Hy). unfold wrong_link. rewrite Hp. cbn [map_res].
  rewrite Hy. cbn [get mbind res_bind]. rewrite Hx. cbn [get mbind res_bind]. by eexists.
Qed.
Lemma wrong_linked d : d ∈ wrong → d ∈ linked.
Proof. by intros [? _]%elem_of_keep. Qed.
Lemma at_swap_total : keep (starts_at sim (swap_joins plan sim)) wrong = Ok at_swap.
Proof.
  apply keep_total. intros d Hd%wrong_linked. destruct (linked_truths d Hd) as (x & y & p & Hx & _). unfold starts_at. rewrite Hx.
  cbn [get mbind res_bind]. by eexists.
Qed.
Lemma by_loss_total : keep (by_loss plan sim at_swap) wrong = Ok by_reuse_loss.
Proof.
  apply keep_total. intros d Hd%wrong_linked. destruct (linked_truths d Hd) as (x & y & p & Hx & Hp & Hy). unfold by_loss.
  case_bool_decide; [by eexists|]. rewrite Hx. cbn [get mbind res_bind]. rewrite Hp. cbn [map_res]. rewrite Hy.
  cbn [get mbind res_bind]. by eexists.
Qed.
Lemma reused_total : ∃ s, reused_exchanges sim = Ok s.
Proof.
  unfold reused_exchanges. destruct (map_res_total (λ i, get (truth !! i) KeyError) (elements (si_reused sim))) as [k ->]; [|by eexists].
  intros i Hi%elem_of_elements. destruct sim_fields as (_ & _ & _ & _ & H). destruct (truth_in i (H i Hi)) as [x ->]. by exists x.
Qed.
Lemma side_total j : (j < length sides)%nat → ∃ p, side_point plan j = Ok p.
Proof. intros [ps Hps]%lookup_lt_is_Some_2. unfold side_point. rewrite Hps. by eexists. Qed.
Lemma absent_total untouched z : ∃ z', fold_res (absent_one plan sim r untouched) (map_to_list (si_placed sim)) z = Ok z'.
Proof.
  apply fold_res_total. intros [a b] [[i j] u] Hin%elem_of_map_to_list. unfold absent_one.
  destruct (_ || _); [by eexists|]. cbv zeta. destruct (partner_of _ _ _) as [q|]; [|by eexists].
  assert (j < length sides)%nat as Hj.
  { destruct (simulated _ _ _ _ _ _ Hsim) as (_ & Ep & _). rewrite Ep in Hin. apply elem_of_list_to_map_2, list_elem_of_fmap in Hin as (e & [= -> -> ->] & He).
    destruct (elem_of_emitted _ _ _ He) as (_ & p & sd & num & ks & Hj & _). by apply lookup_lt_Some in Hj. }
  rewrite sides_length in Hj.
  assert (∃ a b, hop_ends j = (a, b) ∧ (a < length sides)%nat ∧ (b < length sides)%nat) as (x & y & -> & Hx & Hy).
  { rewrite sides_length. unfold hop_ends. destruct (Nat.even j) eqn:E; eexists _, _; (split; [done|]); [|lia].
    apply Nat.even_spec in E as [h ->]. lia. }
  cbn [fst snd]. destruct (side_total x Hx) as [px ->]. destruct (side_total y Hy) as [py ->]. by eexists.
Qed.
Lemma score_total : ∃ rep, score plan sim r = Ok rep ∧
  rp_open rep = 0 ∧ rp_duplicates_injected rep = Z.of_nat (length (copies plan draws)) ∧ rp_duplicates_counted rep = result_duplicates r ∧
  rp_late_injected rep = Z.of_nat (size (si_late sim)) ∧
  rp_late_found rep = count (λ e : (string * (string * Z)) * FlowDecision, is_kind LATE e.2) (effective r) ∧
  rp_wrong_unexplained rep = Z.of_nat (length wrong) - Z.of_nat (length at_swap) - Z.of_nat (length by_reuse_loss).
Proof.
  unfold score. rewrite wrong_total. cbn [mbind res_bind]. rewrite at_swap_total. cbn [mbind res_bind].
  rewrite by_loss_total. cbn [mbind res_bind]. rewrite keep_total.
  2: { intros e He. rewrite finals_effective in He. destruct (truth_in _ (key_ids _ _ (effective_in _ He))) as [x ->]. by eexists. }
  cbn [mbind res_bind]. destruct reused_total as [reused ->]. cbn [mbind res_bind].
  match goal with |- context [fold_res (absent_one plan sim r ?u) _ ?z] => destruct (absent_total u z) as [absent ->] end. cbn [mbind res_bind].
  eexists. split; [done|]. cbn. split_and!; [|by apply sim_fields|done|done|by rewrite finals_effective|done].
  unfold count. rewrite filter_bool_none; [done|]. intros e He. by rewrite bool_decide_eq_true_2 by by apply all_final.
Qed.
Lemma late_count : count (λ e : (string * (string * Z)) * FlowDecision, is_kind LATE e.2) (effective r) = Z.of_nat (size (si_late sim)).
Proof.
  destruct (simulated _ _ _ _ _ _ Hsim) as (_ & _ & _ & _ & _ & ->). rewrite (size_list_to_set _ late_once). unfold count. f_equal.
  set (l := List.filter _ _). rewrite <- (length_fmap (λ e : (string * (string * Z)) * FlowDecision, e.1.2) l).
  assert (∀ e, e ∈ l → od_get e.1 (effective r) = Some e.2 ∧ kind e.2 = LATE ∧ e.1 = (""%string, e.1.2)) as Hl.
  { intros e [He Hk%bool_decide_eq_true]%elem_of_filter_bool. apply effective_in in He. split_and!; [done|done|].
    pose proof (says_of _ _ He) as Hs. destruct e as [[w i] d]. simpl in *. destruct (sy_late _ _ _ _ _ _ _ _ _ Hs Hk) as [Hw _]; simpl in Hw; by rewrite Hw. }
  apply Permutation_length, NoDup_Permutation; [|apply late_once|].
  - apply (NoDup_fmap_1 (pair ""%string)). rewrite <- list_fmap_compose.
    assert ((pair ""%string ∘ λ e : (string * (string * Z)) * FlowDecision, e.1.2) <$> l = l.*1) as ->.
    { apply list_fmap_ext. intros k e He%list_elem_of_lookup_2%Hl. symmetry. apply He. }
    apply NoDup_filter_bool, effective_keys.
  - intros i. rewrite <- late_iff. split.
    + intros (e & -> & (Hd & Hk & E)%Hl)%list_elem_of_fmap. exists e.2. by rewrite <- E.
    + intros (d & Hd & Hk). apply list_elem_of_fmap. exists ((""%string, i), d). split; [done|]. apply elem_of_filter_bool. split.
      * by apply od_get_elem in Hd.
      * by apply bool_decide_eq_true.
Qed.

(** *** One signal: what was admitted is what came on time *)

Section traced.
Context (Hone : pl_connection plan = false).

Lemma traced_keys e k v : e ∈ emitted plan draws → o_keys (observation (em_seen e)) !! k = Some v →
  v = dr_trace draws (carries plan draws (em_exchange e) (em_side e)).
Proof.
  intros (_ & p & sd & num & ks & _ & _ & (added & -> & Hadd & _)%keys_for_cases & ->)%elem_of_emitted. simpl.
  rewrite (Hadd Hone).
  rewrite lookup_insert_Some. intros [[_ <-]|[_ ?%lookup_empty_Some]]; done.
Qed.
Lemma never_reused e : e ∈ on_time plan draws → ¬ reused_after (pl_disorder_us plan) (pl_window_us plan) entries (identity_of e).
Proof.
  intros He (pre & s & post & s0 & x & k & v & E & Ei & Hfirst & Hs0 & Hx & Hk & Hk0 & Hlt).
  pose proof (on_time_emitted _ _ e He) as Hem.
  assert (ESeen s ∈ entries) as (e1 & He1 & <-)%seen_emitted by (rewrite E, elem_of_app; right; left).
  assert (e1 = e) as -> by (by apply emitted_unique).
  assert (ESeen s0 ∈ entries) as (e0 & He0 & <-)%seen_emitted by (rewrite E, elem_of_app; by left).
  apply traced_keys in Hk; [|done]. apply traced_keys in Hk0; [|done].
  assert (carries plan draws (em_exchange e) (em_side e) = carries plan draws (em_exchange e0) (em_side e0)) as Ec.
  { apply (dt_inj _ _ (vr_traces _ _ Hrun)); [by apply carries_lt, (elem_of_emitted plan draws e)|by apply carries_lt, (elem_of_emitted plan draws e0)|congruence]. }
  apply carried_near in Ec.
  assert (time_of x <= at_us (em_seen e) + pl_disorder_us plan) as Ho.
  { apply (journal_orderly plan draws Hrun pre (em_seen e) post x E); [by apply (list_elem_of_fmap_2 identity_of)|exact Hfirst|done]. }
  destruct (at_bounds plan draws Hrun e Hem) as [_ H1]. destruct (at_bounds plan draws Hrun e0 He0) as [H0 _].
  pose proof (vr_gap _ _ Hrun). nia.
Qed.
Lemma admitted_iff i s : M !! i = Some s ↔ ∃ e, e ∈ on_time plan draws ∧ identity_of e = i ∧ em_seen e = s.
Proof.
  rewrite (fa_admitted _ _ _ _ Hf), seen_iff. split.
  - intros [(e & He & <- & <-) Hn]. exists e. split_and!; [|done|done]. apply on_time_iff; [done|]. intros Hl.
    destruct (proj2 (late_iff (identity_of e)) (list_elem_of_fmap_2 _ _ _ Hl)) as (d & Hd & _). rewrite Heff in Hd. congruence.
  - intros (e & He & <- & <-). pose proof (on_time_emitted _ _ e He) as Hem. split; [by exists e|].
    destruct (current (history st) !! (""%string, identity_of e)) as [d|] eqn:Ed; [exfalso|done].
    pose proof (fa_aside _ _ _ _ Hf _ _ Ed) as [_ [Hk|[_ Hre]]]; [|by apply (never_reused e He)].
    assert (identity_of e ∈ identity_of <$> late plan draws) as (e' & Ei & He')%list_elem_of_fmap by (apply late_iff; exists d; by rewrite Heff).
    rewrite <- (emitted_unique e e' Hem (late_emitted e' He') Ei) in He'. by apply on_time_iff in He.
Qed.
Lemma admitted_perm : obs_of M ≡ₚ seen_on_time plan draws.
Proof.
  apply NoDup_Permutation.
  - apply (NoDup_fmap_1 Exact.identity), obs_of_once. by eapply faithful_own.
  - apply (NoDup_fmap_1 Exact.identity). unfold seen_on_time. rewrite <- list_fmap_compose.
    apply (NoDup_filter_bool identity_of), (es_once _ _ _ _ (emitted_ok plan draws)).
  - intros o. rewrite elem_of_obs_of. unfold seen_on_time. rewrite list_elem_of_fmap. split.
    + intros (i & s & (e & He & _ & <-)%admitted_iff & <-). by exists e.
    + intros (e & -> & He). exists (identity_of e), (em_seen e). split; [|done]. apply admitted_iff. by exists e.
Qed.

(** A link in force is a link of the exact path, unless fingerprints clash. *)
Lemma linked_exact k d result : exact_links t (seen_on_time plan draws) = Ok result → od_get k (effective r) = Some d → kind d = LINKED →
  clash t (seen_on_time plan draws) r ∨ ∃ l, l ∈ r_links result ∧ l_where l = k.1 ∧
    (k.2 = l_upstream l ∧ partners d = [l_downstream l] ∨ k.2 = l_downstream l ∧ partners d = [l_upstream l]).
Proof.
  intros Hres Hd Hk. pose proof Hd as Hcur. rewrite Heff in Hcur. destruct topology_ok as (Hp & _ & _ & Hob & _). pose proof (Hob Hone) as Hnone.
  pose proof (faithful_own _ _ _ _ Hf) as Ho. destruct (decide (k.1 = ""%string)) as [E|Hne].
  { destruct k as [w i]. simpl in E. subst w. apply (fa_aside _ _ _ _ Hf) in Hcur as [_ [?|[? _]]].
    - pose proof (sy_late _ _ _ _ _ _ _ _ _ (says_of _ _ Hd)). congruence.
    - congruence. }
  destruct (fa_only _ _ _ _ Hf k d Hcur Hne) as [_ Hend].
  assert (observed settings = ∅) as Hempty.
  { change (observed_of t = ∅). rewrite observed_of_ok, Hnone by done. done. }
  destruct Hend as (j & v & Hj & Hw & Hend); [by rewrite Hempty|].
  destruct (fa_agrees _ _ _ _ Hf j v k.2 Hj Hend) as (d' & Hd' & p & Efp & Hsame & _).
  assert ((j_where j, k.2) = k) as Ek by (rewrite Hw; by destruct k). rewrite Ek, Hcur in Hd'. injection Hd' as <-.
  specialize (Hsame ltac:(by rewrite Hempty)). subst p.
  assert (∀ side key v, held (obs_of M) side key v = held (seen_on_time plan draws) side key v) as Hh by (intros; apply holders_perm, (admitted_perm)).
  unfold on_end in Hend. rewrite (joined_as_ext (obs_of M) (seen_on_time plan draws)) in Efp by apply Hh. rewrite !Hh in Hend.
  set (x := joined_as (seen_on_time plan draws) j v k.2) in *.
  destruct (decide (proposal_of d = _single x AUTHORED)) as [Es|Hne'].
  2: { left. exists k, d, x. split_and!; [done| |done|done]. exists j, v. done. }
  right. assert (NoDup (Exact.identity <$> seen_on_time plan draws)) as Hnd.
  { unfold seen_on_time. rewrite <- list_fmap_compose. apply (NoDup_filter_bool identity_of), (es_once _ _ _ _ (emitted_ok plan draws)). }
  pose proof (exact_joins_sides t j Hj) as Hsd.
  assert (∃ u1 u2, held (seen_on_time plan draws) (j_up j) (j_key j) v = [u1] ∧ held (seen_on_time plan draws) (j_down j) (j_key j) v = [u2] ∧
    (k.2 = u1 ∧ partners d = [u2] ∨ k.2 = u2 ∧ partners d = [u1])) as (u1 & u2 & Hu1 & Hu2 & Hparts).
  { assert (kind d = x.1.1.1 ∧ partners d = x.2) as [Ekd Epd] by (unfold proposal_of in Es; destruct x as [[[a b] e] f]; by injection Es).
    rewrite Hk in Ekd. unfold x, joined_as in Ekd, Epd. destruct (_ || _); [discriminate Ekd|].
    destruct (held _ (j_up j) _ _) as [|u1 [|]], (held _ (j_down j) _ _) as [|u2 [|]]; try discriminate Ekd.
    exists u1, u2. split_and!; [done|done|]. simpl in Epd. case_bool_decide; [by left|].
    rewrite elem_of_app, !list_elem_of_singleton in Hend. destruct Hend; [done|by right]. }
  exists (mkLink (j_where j) (j_key j) v u1 u2). split; [|simpl; done].
  apply (elem_of_exact_links _ _ _ _ Hres). exists j. simpl. split_and!; [done|done|done|by apply holders_sole..].
Qed.

(** A wrong link is at a swap, or follows a lost donor. *)
Lemma wrong_at d : d ∈ wrong → clash t (seen_on_time plan draws) r ∨ ∃ a b j x y p,
  ((business_key d).1, j, S j) ∈ _joins sides ∧ (j < length sides)%nat ∧ (S j < length sides)%nat ∧
  truth !! (business_key d).2 = Some x ∧ partners d = [p] ∧ truth !! p = Some y ∧ (x = a ∧ y = b ∨ x = b ∧ y = a) ∧
  (swap_from plan draws !! a = Some (b, S j) ∨ ∃ z, S z ∈ si_reusers sim ∧
     (a = z ∧ b = S z ∧ absent sim z (S j) ∨ a = S z ∧ b = z ∧ absent sim z j)).
Proof.
  intros [Hd Hw]%elem_of_keep. destruct (linked_truths d Hd) as (x & y & p & Hx & Hp & Hy).
  apply elem_of_filter_bool in Hd as [Hd%in_finals Hk%bool_decide_eq_true].
  destruct topology_ok as (_ & _ & _ & _ & Hj & Hpts). destruct (seen_accepted plan draws (vr_traces _ _ Hrun) hops_few t Hpts) as [result Hres].
  destruct (linked_exact _ d result Hres Hd Hk) as [?|(l & Hl & Ew & Hside)]; [by left|right].
  destruct (link_explained plan draws (vr_traces _ _ Hrun) hops_few _ _ _ sim Hsim t result l Hj Hres Hl) as (a & b & j & Hjn & Ha & Hb & Pa & Pb & Hcase).
  assert (x ≠ y) as Hne.
  { unfold wrong_link in Hw. rewrite Hp in Hw. cbn [map_res] in Hw. rewrite Hy in Hw. cbn [get mbind res_bind] in Hw.
    rewrite Hx in Hw. cbn [get mbind res_bind] in Hw. injection Hw as Hw%negb_true_iff%bool_decide_eq_false. intros ->. apply Hw. simpl. set_solver. }
  assert (∀ i j u, si_placed sim !! (i, j) = Some u → (j < length sides)%nat) as Hlt.
  { intros i j' u. destruct (simulated _ _ _ _ _ _ Hsim) as (_ & -> & _). intros Hin%elem_of_list_to_map_2.
    apply list_elem_of_fmap in Hin as (e & [= -> -> ->] & He). destruct (elem_of_emitted _ _ _ He) as (_ & ? & ? & ? & ? & Hs & _). by apply lookup_lt_Some in Hs. }
  assert (x = a ∧ y = b ∨ x = b ∧ y = a) as Hxy.
  { rewrite Hp in Hside. destruct Hside as [[Ei [= ->]]|[Ei [= ->]]]; rewrite Ei in Hx; [left|right]; split; congruence. }
  exists a, b, j, x, y, p. rewrite <- Ew. split_and!; [done|by eapply Hlt|by eapply Hlt|done..|].
  destruct Hcase as [->|[Hs|?]]; [exfalso; naive_solver| |by right]. left.
  destruct (simulated _ _ _ _ _ _ Hsim) as (_ & _ & <- & _). done.
Qed.
Lemma absent_in z j : absent sim z j → (z, j) ∈ absent_at sim.
Proof.
  unfold absent_at. rewrite elem_of_union, !elem_of_list_to_set. intros [?|(u & Hu & Hl)]; [by left|right].
  apply list_elem_of_omap. exists ((z, j), u). split; [by apply elem_of_map_to_list|]. simpl. by rewrite bool_decide_eq_true_2.
Qed.
Lemma wrong_covered d : d ∈ wrong → clash t (seen_on_time plan draws) r ∨
  holds (starts_at sim (swap_joins plan sim)) d = negb (holds (by_loss plan sim at_swap) d).
Proof.
  intros Hd. destruct (wrong_at d Hd) as [?|(a & b & j & x & y & p & Hjn & Hj & HSj & Hx & Hp & Hy & Hxy & Hcase)]; [by left|right].
  assert (starts_at sim (swap_joins plan sim) d = Ok (bool_decide (((business_key d).1, x) ∈ swap_joins plan sim))) as Es.
  { unfold starts_at. rewrite Hx. done. }
  destruct (holds (starts_at sim (swap_joins plan sim)) d) eqn:E.
  - assert (d ∈ at_swap) as Hin by (apply elem_of_filter_bool; by split). unfold holds, by_loss. by rewrite bool_decide_eq_true_2.
  - assert (d ∉ at_swap) as Hin by (intros [_ ?]%elem_of_filter_bool; congruence). unfold holds in E. rewrite Es in E. apply bool_decide_eq_false in E.
    unfold holds, by_loss. rewrite bool_decide_eq_false_2 by done. rewrite Hx. cbn [get mbind res_bind]. rewrite Hp. cbn [map_res]. rewrite Hy.
    cbn [get mbind res_bind]. rewrite bool_decide_eq_true_2; [done|].
    destruct (simulated _ _ _ _ _ _ Hsim) as (_ & _ & Esw & _). destruct Hcase as [Hs|(z & Hz & Hab)].
    { exfalso. apply E. assert (∃ o, si_swapped sim !! x = Some (o, S j)) as [o Ho].
      { rewrite Esw. destruct Hxy as [[-> _]|[-> _]]; [by eexists|]. apply swap_ok in Hs as [Hs _]. by eexists. }
      unfold swap_joins. apply list_elem_of_bind. exists (x, (o, S j)). split; [|by apply elem_of_map_to_list].
      apply list_elem_of_omap. exists ((business_key d).1, j, S j). split; [done|]. simpl. by rewrite bool_decide_eq_true_2. }
    unfold loss_pairs. apply list_elem_of_fmap. exists (S z). split.
    + simpl. rewrite Nat.sub_0_r. destruct Hxy as [[-> ->]|[-> ->]], Hab as [(-> & -> & _)|(-> & -> & _)]; set_solver.
    + unfold donors_lost. apply elem_of_filter_bool. split; [by apply elem_of_elements|]. apply existsb_exists.
      replace (S z - 1)%nat with z by lia. destruct Hab as [(_ & _ & Ha)|(_ & _ & Ha)]; apply absent_in in Ha.
      * exists (S j). split; [apply list_elem_of_In, elem_of_seq; lia|by apply bool_decide_eq_true].
      * exists j. split; [apply list_elem_of_In, elem_of_seq; lia|by apply bool_decide_eq_true].
Qed.
End traced.
End replayed.
End scored.

(** ** Guarantees *)

(** C14: a simulated run is scored, and the score says what it must.  Take any plan of one
    to five hops, without connection signals or with them over a number of pooled
    connections that is not zero (zero raises [ZeroDivisionError]), with no negative time,
    whose window holds two exchanges in a row, and any draw of its faults, with distinct non-empty trace ids,
    jitters within the lateness and copies delivered after their originals: the journal is built, replayed and scored without an error; no
    decision in force is provisional; every delivery of an observation beyond the first is
    counted as a duplicate, and as many decisions are LATE as delays were injected, all of
    them the delayed observations.  When the hops record one signal, no wrong link is left
    unexplained, each one being at a swap or after a reuse whose donor is lost, unless the
    decision in force differs from the outcome of the exact path under the same digest. *)
Theorem simulated_flow_scored repr_str version plan draws : valid_run plan draws →
  ∃ sim r rep, run repr_str version plan draws = Ok (sim, r, rep) ∧
    rp_open rep = 0 ∧ (∀ e, e ∈ effective r → status e.2 = FINAL) ∧
    rp_duplicates_counted rep = rp_duplicates_injected rep ∧
    rp_late_found rep = rp_late_injected rep ∧
    (∀ i, (∃ d, od_get (""%string, i) (effective r) = Some d ∧ kind d = LATE) ↔ i ∈ si_late sim) ∧
    (pl_connection plan = false → rp_wrong_unexplained rep = 0 ∨ clash (si_topology sim) (seen_on_time plan draws) r).
Proof.
  intros Hrun. destruct (lab_topology (λ _, ""%string) (λ _, ""%string) (λ _, ""%string) (pl_hops plan) (replicate (pl_hops plan) "relay"%string) "headers"
    (pl_connection plan) (hops_few plan draws Hrun) (length_replicate _ _)) as (topology & Ht & _).
  assert (∃ sim, simulate plan draws (λ _, ""%string) (λ _, ""%string) (λ _, ""%string) = Ok sim) as [sim Hsim].
  { unfold simulate. pose proof (vr_hops _ _ Hrun). replace ((1 <=? pl_hops plan) && (pl_hops plan <=? 5))%nat with true
      by (symmetry; apply andb_true_iff; rewrite !Nat.leb_le; unfold MAX_HOPS in *; lia).
    destruct (emission_total plan draws (vr_connections _ _ Hrun)) as [? Hemit].
    cbn [check mbind res_bind]. rewrite Ht. cbn [mbind res_bind]. rewrite Hemit. cbn [mbind res_bind]. by eexists. }
  pose proof (topology_ok plan draws Hrun sim Hsim) as (Hp & Hn & Hnm & _). pose proof (sim_fields plan draws sim Hsim) as (Ej & Ec & _).
  destruct (flow_replayable repr_str version (si_topology sim) (journal_of plan draws) (config_of plan) Hp Hn eq_refl (config_checked plan draws Hrun)
    (entries_deliverable repr_str version plan draws Hrun sim Hsim)) as [r Hr].
  destruct (replay_faithful repr_str version (si_topology sim) (journal_of plan draws) (config_of plan) r Hp Hn Hnm eq_refl
    (journal_uncrowded repr_str version plan draws Hrun sim Hsim) Hr) as (M & st & Hf & Hst & Er & Heff).
  destruct (score_total repr_str version plan draws Hrun sim Hsim M st r Hf Hst Hr Er Heff) as (rep & Es & Ho & Hdi & Hdc & Hli & Hlf & Hw).
  exists sim, r, rep. unfold run. rewrite Hsim. cbn [mbind res_bind]. rewrite Ej, Ec, Hr. cbn [mbind res_bind]. rewrite Es.
  split_and!; [done|done| | | | |].
  - by apply (all_final repr_str version plan draws Hrun sim Hsim).
  - rewrite Hdi, Hdc. by eapply duplicates_found.
  - rewrite Hlf, Hli. by eapply late_count.
  - intros i. destruct (simulated _ _ _ _ _ _ Hsim) as (_ & _ & _ & _ & _ & ->). rewrite elem_of_list_to_set. by eapply late_iff.
  - intros Hone. rewrite Hw. set (wrong := List.filter _ _). set (swaps := List.filter _ wrong).
    destruct (decide (Forall (λ d, holds (starts_at sim (swap_joins plan sim)) d = negb (holds (by_loss plan sim swaps) d)) wrong)) as [Hall|Hnot].
    + left. apply filter_cover. by apply Forall_forall.
    + right. apply not_Forall_Exists, Exists_exists in Hnot as (d & Hd & Hne); [|apply _].
      destruct (wrong_covered repr_str version plan draws Hrun sim Hsim M st r Hf Hst Hr Er Heff Hone d Hd); done.
Qed.

(** ** Witnesses *)

Lemma swap_valid : valid_run swap_plan swap_draws.
Proof.
  split; [unfold MAX_HOPS; simpl; lia| |by intros ?|by apply Z.leb_le..| |].
  - split.
    + intros i i' Hi Hi'. simpl in *. do 4 (destruct i as [|i]; [do 4 (destruct i' as [|i']; [vm_compute; congruence|]); lia|]). lia.
    + intros i Hi. simpl in *. done.
  - intros i j. simpl. split; apply Qle_refl.
  - simpl. exact I.
Qed.
Lemma simulated_flow_scored_witness :
  ∃ sim r rep, run ex_repr "0.1.0" swap_plan swap_draws = Ok (sim, r, rep) ∧
    rp_open rep = 0 ∧ (∀ e, e ∈ effective r → status e.2 = FINAL) ∧
    rp_duplicates_counted rep = rp_duplicates_injected rep ∧
    rp_late_found rep = rp_late_injected rep ∧
    (∀ i, (∃ d, od_get (""%string, i) (effective r) = Some d ∧ kind d = LATE) ↔ i ∈ si_late sim) ∧
    (pl_connection swap_plan = false → rp_wrong_unexplained rep = 0 ∨ clash (si_topology sim) (seen_on_time swap_plan swap_draws) r).
Proof. apply simulated_flow_scored, swap_valid. Defined.
