(* ===== verification/ReplayCell.v ===== *)
(** * ReplayCell: kept harness cells through the flow

    [m0-harness/replay_cell.py]: each record of a cell becomes a journal entry at the time
    its request ended; a hop gets its second signal, the connection and the stream, only
    when the records can carry one; faults (a reused id, a hidden side, shifted deliveries)
    are injected; the final decisions are scored against the truth ids.

    Files and lines are not modelled: the parsed values are the input ([Harness]).  A port
    or a stream number that is neither absent nor a text is refused when it is read.  The
    delays of the deliveries are a parameter, the rounding of their sum with the time
    included.  The digest of the [repr] of the result, the list of [repr] texts, the
    command line and the printed report are not modelled. *)

From Stdlib Require Import QArith.
From S2P Require Import Prelude Digest DecimalText Json Topology Dedup Assignment Timing Exact Harness ExactPath FlowTimed Flow FlowTheorems FlowSound FlowProgress FlowSettles FlowLate FlowExact Simulate SimulateFlow SimulateScored.

Open Scope Z_scope.

(** ** The records of a cell *)

Definition NO_REAL_STREAM : string := "load-gen records no protocol stream number".
Definition FALSE_ENTRY_PORT : string := "the entry port reported differs from the listening port".
Definition NO_LISTENING_PORT : string := "no listening port declared".
Definition NO_STREAM : string := "no stream number on both ends".

(** The seed is left to the draws. *)
Record Faults := mkFaults {
  f_reuse_every : nat;
  f_hide : option (string * string);
  f_shift_us : Z
}.
Definition NO_FAULTS : Faults := mkFaults 0 None 0.
Record _Row := mkRow {
  row_source : string;
  row_seq : Z;
  row_point : string;
  row_side : string;
  row_truth : string;
  row_trace : option string;
  row_end_us : Z;
  row_client_port : option string;
  row_server_port : option string;
  row_stream : option string
}.

(** [v.get(key)], absent or a text. *)
Definition opt_text (key : string) (v : json) : res (option string) :=
  match field key v with None | Some JNull => Ok None | Some (JStr s) => Ok (Some s) | Some _ => Raise TypeError end.
Definition log_row (masked : bool) (seq : nat) (r : json) : res _Row :=
  trace_id ← text_at "trace_id" r;
  start ← number_at "timestamp_ns" r;
  duration ← number_field "duration_ns" 0 r;
  Ok (mkRow LG (Z.of_nat seq) "load-gen" "outbound" trace_id (if masked then None else Some trace_id)
        ((start + duration) / 1000) None None None).
(** One span, numbered from 1. *)
Definition span_row (meta : Meta) (measured excluded : gset string) (seq : nat) (span : json) : res (option _Row) :=
  placed ← placed_span TRUTH measured excluded (m_hops meta) (m_port meta) span;
  match placed with
  | None => Ok None
  | Some (t, (point, side)) =>
      trace ← text_field "traceID" "" span;
      stream ← opt_text "http2StreamId" (attributes span);
      end_us ← int_at "end" span;
      client ← opt_text "peerPort" span;
      server ← opt_text "hostPort" span;
      Ok (Some (mkRow AGENT (Z.of_nat (S seq)) point side t (if NO_TRACE trace then None else Some trace) end_us client server
                  (s ← stream; if bool_decide (s = ""%string) || bool_decide (s = "0"%string) then None else Some s)))
  end.
(** Every measured record, and the measured requests in load-gen's order. *)
Definition _rows (log outside spans : list json) (meta : Meta) : res (list _Row * list string) :=
  order ← trace_ids log;
  outside_ids ← trace_ids outside;
  let measured : gset string := list_to_set order in
  let excluded : gset string := list_to_set outside_ids in
  sent ← map_res (λ e, log_row (m_masked meta) e.1 e.2) (imap pair log);
  placed ← map_res (λ e, span_row meta measured excluded e.1 e.2) (imap pair spans);
  Ok (sent ++ omap id placed, List.filter (λ t, negb (bool_decide (t ∈ excluded))) order).

(** ** Second signals *)

(** [hop_ports]: the declared entry ports, or none. *)
Definition hop_ports_of (cell : json) : res (list Z) :=
  match field "hop_ports" cell with
  | Some v => if truthy v then
                match v with
                | JArr l => map_res (λ x, match x with JInt z => Ok z | _ => Raise TypeError end) l
                | _ => Raise TypeError
                end
              else Ok []
  | None => Ok []
  end.
Definition _listening_port (point : string) (meta : Meta) (hop_ports : list Z) : res (option Z) :=
  if bool_decide (point = "fake-upstream"%string) then Ok (Some (m_port meta))
  else k ← get (parse_int (default point (strip_prefix "hop-" point))) (ValueError "invalid literal for int");
       (* the hops are numbered from 1 *)
       if k <=? Z.of_nat (length hop_ports) then Ok (hop_ports !! Z.to_nat (k - 1)) else Ok None.
(** For each hop, why its data cannot carry a second signal; [None]: they can. *)
Definition signal_of (rows : list _Row) (meta : Meta) (hop_ports : list Z) (ab : string * string) : res (string * option string) :=
  let '(src, dst) := ab in
  port ← (if bool_decide (src = "load-gen"%string) then Ok None else _listening_port dst meta hop_ports);
  let sends := List.filter (λ r, bool_decide (row_point r = src ∧ row_side r = "outbound"%string)) rows in
  let receives := List.filter (λ r, bool_decide (row_point r = dst ∧ row_side r = "inbound"%string)) rows in
  let streams := existsb (λ r, bool_decide (is_Some (row_stream r))) in
  Ok (hop_where src dst,
    if bool_decide (src = "load-gen"%string) then Some NO_REAL_STREAM
    else match port with
         | None => Some NO_LISTENING_PORT
         | Some port =>
             if existsb (λ r, negb (bool_decide (row_server_port r = Some (str_Z port)))) receives then Some FALSE_ENTRY_PORT
             else if negb (streams sends && streams receives) then Some NO_STREAM
             else None
         end).
Definition _second_signals (rows : list _Row) (meta : Meta) (hop_ports : list Z) : res (odict string (option string)) :=
  reasons ← map_res (signal_of rows meta hop_ports) (pairwise (ExactPath.chain (m_hops meta)));
  Ok (foldl (λ (d : odict string (option string)) e, od_set e.1 e.2 d) [] reasons).
Definition index_of (x : string) (l : list string) : res nat := get (fst <$> list_find (eq x) l) (ValueError "not in list").
(** The hop this side of a point is an end of; [chain[i - 1]] of the first point is the last. *)
Definition _signal_hop (row : _Row) (hops : nat) : res string :=
  let names := ExactPath.chain hops in
  i ← index_of (row_point row) names;
  if bool_decide (row_side row = "outbound"%string) then next ← get (names !! S i) IndexError; Ok (hop_where (row_point row) next)
  else previous ← get (match i with O => last names | S k => names !! k end) IndexError; Ok (hop_where previous (row_point row)).

(** ** The cell as a journal *)

Record Cell := mkCell {
  cl_meta : Meta;
  cl_topology : Topology;
  cl_config : FlowConfig;
  cl_journal : list Entry;
  cl_truth : gmap (string * Z) string;
  cl_signals : odict string (option string);
  cl_measured : Z;
  cl_reused : gset (string * Z)
}.
Definition row_identity (row : _Row) : string * Z := (row_source row, row_seq row).
(** [carried[order[i]] = order[i - 1]] for every [i] of [range(k, len(order), k)]. *)
Definition carried_of (reuse_every : nat) (order : list string) : res (gmap string string) :=
  match reuse_every with
  | O => Ok ∅
  | S _ => fold_res (λ (m : gmap string string) i, own ← get (order !! i) IndexError; before ← get (order !! (i - 1)%nat) IndexError;
                               Ok (<[own := before]> m))
             (List.filter (λ i, (i mod reuse_every =? 0)%nat) (seq reuse_every (length order - reuse_every))) ∅
  end.
Definition hide_rows (hide : option (string * string)) (rows : list _Row) : res (list _Row) :=
  match hide with
  | None => Ok rows
  | Some h =>
      let kept := List.filter (λ r, negb (bool_decide ((row_point r, row_side r) = h))) rows in
      _ ← check (negb (length kept =? length rows)%nat) (ValueError "nothing to hide");
      Ok kept
  end.
(** [f"{port}"] of a text or [None]. *)
Definition port_text (port : option string) : string := default "None"%string port.
Definition reuses (carried : gmap string string) (row : _Row) : bool :=
  negb (bool_decide (row_point row = "load-gen"%string)) && bool_decide (is_Some (carried !! row_truth row)).
Definition trace_keys (carried : gmap string string) (row : _Row) : gmap string string :=
  match (if reuses carried row then carried !! row_truth row else row_trace row) with
  | Some v => {["traceparent"%string := v]} | None => ∅ end.
Definition row_keys (admitted : list string) (carried : gmap string string) (meta : Meta) (row : _Row) : res (gmap string string) :=
  where_ ← _signal_hop row (m_hops meta);
  Ok (if bool_decide (where_ ∈ admitted)
      then let keys := <["tuple5"%string := port_text (row_client_port row) +:+ ">" +:+ port_text (row_server_port row)]> (trace_keys carried row) in
           match row_stream row with Some s => <["h2_stream_id"%string := s]> keys | None => keys end
      else trace_keys carried row).
Definition entry_of (delay : nat → Q) (faults : Faults) (admitted : list string) (carried : gmap string string) (meta : Meta)
    (nr : nat * _Row) : res (Q * Seen) :=
  let '(n, row) := nr in
  keys ← row_keys admitted carried meta row;
  let shift := if f_shift_us faults =? 0 then 0%Q else delay n in
  Ok ((inject_Z (row_end_us row) + shift)%Q,
      mkSeen (mkObs (row_source row) (row_seq row) (row_point row) (row_side row) keys) (row_end_us row) None None None).
(** [sorted(rows, key=lambda r: (r.end_us, r.source, r.seq))] *)
Definition row_key (row : _Row) : Z * (string * Z) := (row_end_us row, (row_source row, row_seq row)).
Definition end_after (rows : list _Row) (window_us : Z) (faults : Faults) : res Z :=
  match row_end_us <$> rows with
  | [] => Raise (ValueError "max of an empty sequence")
  | e :: es => Ok (foldl Z.max e es + window_us + f_shift_us faults + 1)
  end.
Definition sources_in (rows : list _Row) : list string := sorted (remove_dups (row_source <$> rows)).
Definition admitted_of (signals : odict string (option string)) : list string :=
  omap (λ e : string * option string, match e.2 with None => Some e.1 | Some _ => None end) signals.

Definition load_cell (repr py_str : Value → string) (format_g : Q → string) (delay : nat → Q) (log outside spans : list json)
    (meta : Meta) (hop_ports : list Z) (window_us : Z) (faults : Faults) : res Cell :=
  '(rows, order) ← _rows log outside spans meta;
  signals ← _second_signals rows meta hop_ports;
  let admitted := admitted_of signals in
  rows ← hide_rows (f_hide faults) rows;
  carried ← carried_of (f_reuse_every faults) order;
  let sorted_rows := sorted_by row_key rows in
  entries ← map_res (entry_of delay faults admitted carried meta) (imap pair sorted_rows);
  end_us ← end_after rows window_us faults;
  let sources := sources_in rows in
  loaded ← topology_for repr py_str format_g (m_hops meta) (m_kinds meta) (m_propagation meta) false admitted;
  topology ← match loaded with inr t => Ok t | inl _ => Raise (ValueError "topology refused") end;
  Ok (mkCell meta topology
        (mkConfig sources window_us (f_shift_us faults) None DEFAULT_MAX_COLLISION_MEMBERS None None None)
        (((λ e : Q * Seen, ESeen e.2) <$> sorted_by fst entries) ++ ((λ s, EAdvance s end_us) <$> sources))
        (foldl (λ (m : gmap (string * Z) string) row, <[row_identity row := row_truth row]> m) ∅ sorted_rows)
        signals (Z.of_nat (length order))
        (list_to_set (row_identity <$> List.filter (reuses carried) sorted_rows))).

(** ** The score *)

Record JoinCounts := mkCounts {
  jc_linked : Z;
  jc_correct : Z;
  jc_wrong : Z;
  jc_collided : Z;
  jc_unlinked : Z;
  jc_conflicted : Z
}.
Definition no_counts : JoinCounts := mkCounts 0 0 0 0 0 0.
Record CellReport := mkCellReport {
  rc_hops : nat;
  rc_measured : Z;
  rc_window_us : Z;
  rc_lateness_us : Z;
  rc_signals : odict string (option string);
  rc_joins : odict string JoinCounts;
  rc_wrong : Z;
  rc_open : Z;
  rc_after_window : Z;
  rc_late : Z;
  rc_corroboration : odict string Z;
  rc_duplicates : Z;
  rc_dossiers : Z;
  rc_reuse_injected : Z;
  rc_reuse_linked : Z;
  rc_reuse_collided : Z
}.
(** The joins that have a signal: [h.key or h.observed], [c.key]. *)
Definition join_wheres (t : Topology) : list string :=
  omap (λ h, match named (hc_key h), hc_observed h with
             | None, None | None, Some [] => None
             | _, _ => Some (hop_where (hc_src h) (hc_dst h)) end) (t_hops t) ++
  omap (λ c, match named (cc_key c) with Some _ => Some (cc_point c) | None => None end) (t_crossings t).
Definition counted (where_ : string) (f : JoinCounts → JoinCounts) (report : odict string JoinCounts) : res (odict string JoinCounts) :=
  c ← get (od_get where_ report) KeyError; Ok (od_set where_ (f c) report).
(** [{truth[p] for p in d.partners} == {truth[identity]}] *)
Definition right_link (truth : gmap (string * Z) string) (i : string * Z) (d : FlowDecision) : res bool :=
  ps ← map_res (λ p, get (truth !! p) KeyError) (partners d);
  own ← get (truth !! i) KeyError;
  Ok (bool_decide ((list_to_set ps : gset string) = {[own]})).
Definition count_decision (truth : gmap (string * Z) string) (report : odict string JoinCounts)
    (e : (string * (string * Z)) * FlowDecision) : res (odict string JoinCounts) :=
  let '((where_, i), d) := e in
  match kind d with
  | LINKED =>
      right ← right_link truth i d;
      counted where_ (λ c, mkCounts (jc_linked c + 1) (if (right : bool) then jc_correct c + 1 else jc_correct c)
                             (if (right : bool) then jc_wrong c else jc_wrong c + 1) (jc_collided c) (jc_unlinked c) (jc_conflicted c)) report
  | COLLIDED => counted where_ (λ c, mkCounts (jc_linked c) (jc_correct c) (jc_wrong c) (jc_collided c + 1) (jc_unlinked c) (jc_conflicted c)) report
  | UNLINKED => counted where_ (λ c, mkCounts (jc_linked c) (jc_correct c) (jc_wrong c) (jc_collided c) (jc_unlinked c + 1) (jc_conflicted c)) report
  | CONFLICTED => counted where_ (λ c, mkCounts (jc_linked c) (jc_correct c) (jc_wrong c) (jc_collided c) (jc_unlinked c) (jc_conflicted c + 1)) report
  | _ => Ok report
  end.
Definition score (cell : Cell) (result : FlowResult) : res CellReport :=
  let truth := cl_truth cell in
  let finals := final_of result in
  joins ← fold_res (count_decision truth) finals (foldl (λ (d : odict string JoinCounts) w, od_set w no_counts d) [] (join_wheres (cl_topology cell)));
  let corroboration_ := foldl (λ m (e : (string * Corroboration) * Z), add_count (Corroboration_value e.1.2) e.2 m) [] (signal_counts result) in
  let on_reused := snd <$> List.filter (λ e : (string * (string * Z)) * FlowDecision, bool_decide (e.1.2 ∈ cl_reused cell)) finals in
  reused ← map_res (λ i, get (truth !! i) KeyError) (elements (cl_reused cell));
  Ok (mkCellReport (m_hops (cl_meta cell)) (cl_measured cell) (window_us (cl_config cell)) (lateness_us (cl_config cell))
        (cl_signals cell) joins (foldl (λ n c, n + jc_wrong c) 0 joins.*2)
        (ExactPath.count (λ e : (string * (string * Z)) * FlowDecision, negb (bool_decide (status e.2 = FINAL))) (effective result))
        (ExactPath.count (is_kind VALUE_AFTER_FINAL) finals.*2) (ExactPath.count (is_kind LATE) finals.*2)
        corroboration_ (result_duplicates result) (Z.of_nat (length (result_dossiers result)))
        (Z.of_nat (size (list_to_set reused : gset string)))
        (ExactPath.count (is_kind LINKED) on_reused) (ExactPath.count (is_kind COLLIDED) on_reused)).
Definition analyze_cell (repr py_str : Value → string) (format_g : Q → string) (repr_str : string → string) (version : string)
    (delay : nat → Q) (log outside spans : list json) (meta : Meta) (hop_ports : list Z) (window_us : Z) (faults : Faults)
    : res (Cell * FlowResult * CellReport) :=
  cell ← load_cell repr py_str format_g delay log outside spans meta hop_ports window_us faults;
  r ← replay_flow repr_str version (cl_topology cell) (cl_journal cell) (cl_config cell);
  rep ← score cell r;
  Ok (cell, r, rep).

(** ** A small cell *)

Definition ex_id (n : string) : string := "0123456789abcdef0123456789abcde" +:+ n.
Definition ex_sent (n : string) (start : Z) : json :=
  JObj [("trace_id", JStr (ex_id n)); ("timestamp_ns", JInt start); ("duration_ns", JInt 900000)]%string.
Definition ex_span (kind addr point : string) (n : string) (end_us : Z) (peer host : string) (stream : string) : json :=
  JObj [("kind", JStr kind); ("traceID", JStr (ex_id n)); ("end", JStr (str_Z end_us)); ("peerPort", JStr peer); ("hostPort", JStr host);
        ("attributes", JObj [("url", JStr ("/truth-" +:+ ex_id n)); (addr, JStr point); ("http2StreamId", JStr stream)])]%string.
(** One request through a relay, to a server that listens where it is declared. *)
Definition ex_request (n : string) (t : Z) (stream : string) : list json :=
  [ex_span SERVER "serverAddr" "hop-1" n (t + 800) "40001" "8001" "1"; ex_span CLIENT "clientAddr" "hop-1" n (t + 700) "40002" "9000" stream;
   ex_span SERVER "serverAddr" "fake-upstream" n (t + 600) "40002" "9000" stream]%string.
Definition ex_log : list json := [ex_sent "1" 1000000; ex_sent "2" 3000000].
Definition ex_spans : list json := ex_request "1" 1000 "3" ++ ex_request "2" 3000 "5".
Definition ex_meta : Meta := mkMeta 1 ["relay"]%string 9000 "headers" false.
(** The second request carries the id of the first past load-gen: everything collides there. *)
Definition ex_faults : Faults := mkFaults 1 None 0.
Definition ex_cell : res (Cell * FlowResult * CellReport) :=
  analyze_cell (λ _, ""%string) (λ _, ""%string) (λ _, ""%string) ex_repr "0.1.0" (λ _, 0%Q) ex_log [] ex_spans ex_meta [8001] 5000 ex_faults.
Example ex_cell_run :
  (λ x, (cl_signals x.1.1, (λ e, (e.1, jc_linked e.2, jc_wrong e.2, jc_collided e.2, jc_unlinked e.2, jc_conflicted e.2)) <$> rc_joins x.2,
         rc_reuse_injected x.2, rc_reuse_collided x.2)) <$> ex_cell =
  Ok ([("load-gen -> hop-1", Some NO_REAL_STREAM); ("hop-1 -> fake-upstream", None)],
      [("hop-1 -> fake-upstream", 0, 0, 4, 0, 0); ("load-gen -> hop-1", 0, 0, 3, 1, 0); ("hop-1", 0, 0, 4, 0, 0)], 1, 5)%string.
Proof. vm_compute. reflexivity. Qed.

(** ** Lemmas: the rows of a cell *)

Record row_ok (meta : Meta) (ids : list string) (row : _Row) : Prop := {
  ro_point : row_point row ∈ ExactPath.chain (m_hops meta);
  ro_side : row_side row ∈ SIDES;
  ro_sent : row_point row = "load-gen"%string → row_side row = "outbound"%string;
  ro_source : row_source row ≠ ""%string;
  ro_truth : row_truth row ∈ ids;
  ro_trace v : row_trace row = Some v → v ≠ ""%string ∨ v ∈ ids;
  ro_stream v : row_stream row = Some v → v ≠ ""%string
}.
Lemma kept_log_row meta ids masked seq r row : (∀ t, text_at "trace_id" r = Ok t → t ∈ ids) → log_row masked seq r = Ok row →
  row_identity row = (LG, Z.of_nat seq) ∧ row_ok meta ids row.
Proof.
  intros Hin H. unfold log_row in H. apply bind_Ok in H as (t & Ht & H). apply bind_Ok in H as (? & _ & H). apply bind_Ok in H as (? & _ & [= <-]).
  split; [done|]. split; simpl; [left|by right; left|done|done|by apply Hin| |done]. intros v. destruct masked; [done|]. intros [= <-]. right. by apply Hin.
Qed.
Lemma kept_span_row meta ids excluded seq span row : span_row meta (list_to_set ids) excluded seq span = Ok (Some row) →
  row_identity row = (AGENT, Z.of_nat (S seq)) ∧ row_ok meta ids row.
Proof.
  unfold span_row. intros H. apply bind_Ok in H as ([[t [point side]]|] & Hp & H); [|done].
  apply placed_span_ok in Hp as (Ht & Hpt & Hne & Hsd). apply bind_Ok in H as (trace & _ & H). apply bind_Ok in H as (stream & _ & H).
  apply bind_Ok in H as (e & _ & H). apply bind_Ok in H as (client & _ & H). apply bind_Ok in H as (server & _ & [= <-]).
  split; [done|]. split; simpl; [by right|done|by intros ->|done|by apply elem_of_list_to_set in Ht| |].
  - intros v. destruct (NO_TRACE trace) eqn:E; [done|]. intros [= <-]. left. by apply NO_TRACE_false.
  - intros v. destruct stream as [s|]; [|done]. simpl. destruct (bool_decide (s = ""%string)) eqn:E; [done|]. simpl.
    destruct (bool_decide (s = "0"%string)); [done|]. intros H. injection H as <-. by apply bool_decide_eq_false in E.
Qed.
Lemma rows_ok log outside spans meta rows order : _rows log outside spans meta = Ok (rows, order) → ∃ ids, trace_ids log = Ok ids ∧
  (∀ t, t ∈ order → t ∈ ids) ∧ NoDup (row_identity <$> rows) ∧ ∀ row, row ∈ rows → row_ok meta ids row.
Proof.
  unfold _rows. intros H. apply bind_Ok in H as (ids & Hids & H). apply bind_Ok in H as (out & _ & H).
  apply bind_Ok in H as (sent & Hs & H). apply bind_Ok in H as (placed & Hp & [= <- <-]).
  apply map_res_Forall2 in Hs. apply map_res_Forall2 in Hp. unfold trace_ids in Hids. apply map_res_Forall2 in Hids as Hids'.
  assert (∀ i row, sent !! i = Some row → row_identity row = (LG, Z.of_nat i) ∧ row_ok meta ids row) as Hsent.
  { intros i row Hi. destruct (Forall2_lookup_r _ _ _ _ _ Hs Hi) as ([k r] & Hk & E). apply list_lookup_imap_Some in Hk as (r' & Hr & [= -> ->]).
    simpl in E. apply (kept_log_row meta ids) in E; [done|]. intros t Ht. destruct (Forall2_lookup_l _ _ _ _ _ Hids' Hr) as (t' & Ht' & E').
    rewrite Ht in E'. injection E' as <-. by apply list_elem_of_lookup_2 in Ht'. }
  assert (∀ i row, placed !! i = Some (Some row) → row_identity row = (AGENT, Z.of_nat (S i)) ∧ row_ok meta ids row) as Hplaced.
  { intros i row Hi. destruct (Forall2_lookup_r _ _ _ _ _ Hp Hi) as ([k r] & Hk & E). apply list_lookup_imap_Some in Hk as (r' & Hr & [= -> ->]).
    simpl in E. by eapply kept_span_row. }
  exists ids. split_and!; [done| | |].
  - by intros t [? _]%elem_of_filter_bool.
  - rewrite fmap_app. apply NoDup_app. split_and!.
    + apply NoDup_alt. intros i j x Hi Hj. rewrite list_lookup_fmap in Hi, Hj.
      destruct (sent !! i) as [a|] eqn:Ei; [|done]. destruct (sent !! j) as [b|] eqn:Ej; [|done].
      apply Hsent in Ei as [Ei _]. apply Hsent in Ej as [Ej _]. simpl in *. rewrite Ei in Hi. rewrite Ej in Hj. simplify_eq. lia.
    + intros x (a & -> & Ha)%list_elem_of_fmap (b & E & Hb)%list_elem_of_fmap. apply list_elem_of_lookup in Ha as [i Hi].
      apply list_elem_of_omap in Hb as (o & Ho & Eo). unfold id in Eo. subst o. apply list_elem_of_lookup in Ho as [j Hj].
      apply Hsent in Hi as [Hi _]. apply Hplaced in Hj as [Hj _]. rewrite Hi, Hj in E. done.
    + apply omap_id_NoDup. intros i j a b Hi Hj E. apply Hplaced in Hi as [Hi _]. apply Hplaced in Hj as [Hj _]. rewrite Hi, Hj in E. injection E. lia.
  - intros row [(i & Hi)%list_elem_of_lookup|Hin]%elem_of_app; [by destruct (Hsent i row Hi)|].
    apply list_elem_of_omap in Hin as (o & Ho & Eo). unfold id in Eo. subst o. apply list_elem_of_lookup in Ho as [i Hi]. by destruct (Hplaced i row Hi).
Qed.

(** ** Lemmas: the chain of a cell *)

(** The joins and the values of the declared chain have distinct names, and its points are
    there: what [load] returns for the chain of a cell. *)
Definition ready_chain (meta : Meta) (t : Topology) : bool :=
  ready_topology t true && bool_decide (Forall (λ p, p ∈ point_names t) (ExactPath.chain (m_hops meta))) &&
  bool_decide (NoDup ((λ ab : string * string, hop_where ab.1 ab.2) <$> pairwise (ExactPath.chain (m_hops meta)))).
Lemma ready_chain_ok meta t : ready_chain meta t = true → plain t ∧ NoDup (value_names t) ∧ named_joins t ∧
  (∀ p, p ∈ ExactPath.chain (m_hops meta) → p ∈ point_names t) ∧
  NoDup ((λ ab : string * string, hop_where ab.1 ab.2) <$> pairwise (ExactPath.chain (m_hops meta))).
Proof.
  unfold ready_chain, ready_topology. rewrite !andb_true_iff, !bool_decide_eq_true.
  intros [[[[[[[[H1 H2] H3] H4] H5] H6] _] H7] H8]. rewrite Forall_forall in H3. rewrite Forall_forall in H4. rewrite Forall_forall in H7.
  split_and!; [by split|done..].
Qed.
(** Every chain of up to three hops, of any kinds, with any hops given a second signal. *)
Fixpoint sublists {A} (l : list A) : list (list A) :=
  match l with [] => [[]] | x :: l => sublists l ++ (cons x <$> sublists l) end.
Lemma elem_of_sublists {A} (k l : list A) : sublist k l → k ∈ sublists l.
Proof. induction 1; simpl; [left|apply elem_of_app; right; by apply list_elem_of_fmap_2|apply elem_of_app; by left]. Qed.
Definition signal_hops (hops : nat) : list string := (λ ab : string * string, hop_where ab.1 ab.2) <$> tail (pairwise (ExactPath.chain hops)).
Definition chain_loads (repr py_str : Value → string) (format_g : Q → string) (hops : nat) (kinds : list bool) (headers : bool)
    (second_signal : list string) : bool :=
  match topology_for repr py_str format_g hops (kind_of <$> kinds) (propagation_of headers) false second_signal with
  | Ok (inr t) => ready_chain (mkMeta hops [] 0 "" false) t
  | _ => false
  end.
Lemma short_chains repr py_str format_g : forallb (λ hops, forallb (λ kinds, forallb (λ headers,
    forallb (chain_loads repr py_str format_g hops kinds headers) (sublists (signal_hops hops))) [true; false]) (bools hops)) (seq 0 4) = true.
Proof. vm_compute. reflexivity. Qed.
Lemma short_chain_ready repr py_str format_g meta second_signal : (m_hops meta <= 3)%nat → length (m_kinds meta) = m_hops meta →
  sublist second_signal (signal_hops (m_hops meta)) → ∃ t,
  topology_for repr py_str format_g (m_hops meta) (m_kinds meta) (m_propagation meta) false second_signal = Ok (inr t) ∧ ready_chain meta t = true.
Proof.
  intros Hh Hk Hs. pose proof (short_chains repr py_str format_g) as H. rewrite forallb_forall in H.
  specialize (H (m_hops meta) ltac:(apply list_elem_of_In, elem_of_seq; lia)). rewrite forallb_forall in H.
  specialize (H (is_traefik <$> m_kinds meta)). assert (length (is_traefik <$> m_kinds meta) = m_hops meta) as Hb by by rewrite length_fmap.
  specialize (H ltac:(apply list_elem_of_In; rewrite <- Hb; apply elem_of_bools)). rewrite forallb_forall in H.
  specialize (H (is_headers (m_propagation meta)) ltac:(destruct (is_headers _); simpl; auto)). rewrite forallb_forall in H.
  specialize (H second_signal (proj1 (list_elem_of_In _ _) (elem_of_sublists _ _ Hs))). unfold chain_loads in H.
  unfold topology_for in *. destruct (map_res _ second_signal) as [ends|]; [|done]. cbn [mbind res_bind] in *.
  rewrite declaration_ext, (list_fmap_compose is_traefik kind_of). destruct (load _ _ _ _) as [[|t]|]; [done| |done]. by exists t.
Qed.

(** ** Lemmas: the score *)

Definition joined (k : Kind) : bool := bool_decide (k ∈ [LINKED; COLLIDED; UNLINKED; CONFLICTED]).
Notation Decided := ((string * (string * Z)) * FlowDecision)%type (only parsing).
(** A decision of a kind at a join. *)
Definition kind_at (k : Kind) (w : string) (e : Decided) : bool := is_kind k e.2 && bool_decide (e.1.1 = w).
Definition rightly (truth : gmap (string * Z) string) (e : Decided) : bool := holds (right_link truth e.1.2) e.2.
(** What the score says of a join: so many decisions of each kind. *)
Definition tally (truth : gmap (string * Z) string) (w : string) (l : list Decided) : JoinCounts :=
  mkCounts (ExactPath.count (kind_at LINKED w) l)
    (ExactPath.count (λ e, kind_at LINKED w e && rightly truth e) l) (ExactPath.count (λ e, kind_at LINKED w e && negb (rightly truth e)) l)
    (ExactPath.count (kind_at COLLIDED w) l) (ExactPath.count (kind_at UNLINKED w) l) (ExactPath.count (kind_at CONFLICTED w) l).
Lemma tally_snoc truth w l e : tally truth w (l ++ [e]) =
  let c := tally truth w l in
  mkCounts (jc_linked c + (if kind_at LINKED w e then 1 else 0)) (jc_correct c + (if kind_at LINKED w e && rightly truth e then 1 else 0))
    (jc_wrong c + (if kind_at LINKED w e && negb (rightly truth e) then 1 else 0)) (jc_collided c + (if kind_at COLLIDED w e then 1 else 0))
    (jc_unlinked c + (if kind_at UNLINKED w e then 1 else 0)) (jc_conflicted c + (if kind_at CONFLICTED w e then 1 else 0)).
Proof. unfold tally. by rewrite !count_snoc. Qed.
Lemma od_get_counted w (f : JoinCounts → JoinCounts) d d' w' : counted w f d = Ok d' → d'.*1 = d.*1 ∧
  ∀ c, od_get w' d = Some c → od_get w' d' = Some (if decide (w = w') then f c else c).
Proof.
  unfold counted. intros H. apply bind_Ok in H as (c & Hc%get_Ok & [= <-]). split.
  - apply od_set_dom. apply od_get_elem in Hc. by apply (list_elem_of_fmap_2 fst) in Hc.
  - intros c' Hc'. rewrite od_get_set. case_decide as E; [subst w'|done]. congruence.
Qed.
Lemma counted_total w f (d : odict string JoinCounts) : w ∈ d.*1 → ∃ d', counted w f d = Ok d'.
Proof. intros [c Hc]%od_get_Some. unfold counted. rewrite Hc. by eexists. Qed.
(** One more decision, at this join or at another. *)
Ltac tally_step Hat w w' right :=
  rewrite tally_snoc, !Hat; right;
  first [rewrite (bool_decide_eq_true_2 (w = w')) by done | rewrite (bool_decide_eq_false_2 (w = w')) by done | destruct (bool_decide (w = w'))];
  match goal with |- context [tally ?t w' ?k] => generalize (tally t w' k) end; intros []; cbn; rewrite ?Z.add_0_r.
Lemma counts_ok truth (l : list Decided) d : (∀ e, e ∈ l → joined (kind e.2) = true → e.1.1 ∈ d.*1) →
  (∀ e, e ∈ l → kind e.2 = LINKED → ∃ b, right_link truth e.1.2 e.2 = Ok b) → (∀ w c, od_get w d = Some c → c = no_counts) →
  ∃ d', fold_res (count_decision truth) l d = Ok d' ∧ d'.*1 = d.*1 ∧ ∀ w, w ∈ d.*1 → od_get w d' = Some (tally truth w l).
Proof.
  intros H1 H2 H0. induction l as [|e l IH] using rev_ind.
  { exists d. split_and!; [done|done|]. intros w [c Hc]%od_get_Some. by rewrite Hc, (H0 w c Hc). }
  destruct IH as (d1 & E & Ek & Hd); [intros; apply H1; [apply elem_of_app; by left|done]|intros; apply H2; [apply elem_of_app; by left|done]|].
  assert (e ∈ l ++ [e]) as He by (apply elem_of_app; right; left). specialize (H1 e He). specialize (H2 e He).
  rewrite fold_res_app, E. cbn [mbind res_bind fold_res]. destruct e as [[w i] dd]. simpl in H1, H2. unfold count_decision at 1.
  assert (∀ f, joined (kind dd) = true → (∀ w', tally truth w' (l ++ [((w, i), dd)]) = if decide (w = w') then f (tally truth w' l) else tally truth w' l) →
    ∃ d', (d2 ← counted w f d1; Ok d2) = Ok d' ∧ d'.*1 = d.*1 ∧ ∀ w', w' ∈ d.*1 → od_get w' d' = Some (tally truth w' (l ++ [((w, i), dd)]))) as Hone.
  { intros f Hj Ht. destruct (counted_total w f d1) as [d2 Hd2]; [rewrite Ek; by apply H1|]. exists d2. rewrite Hd2. split; [done|].
    split; [by destruct (od_get_counted w f d1 d2 w Hd2) as [-> _]|]. intros w' Hw'. destruct (od_get_counted w f d1 d2 w' Hd2) as [_ Hg].
    rewrite (Hg _ (Hd w' Hw')), Ht. by case_decide. }
  assert (∀ w' k, kind_at k w' ((w, i), dd) = bool_decide (kind dd = k) && bool_decide (w = w')) as Hat by done.
  assert (∀ b, right_link truth i dd = Ok b → rightly truth ((w, i), dd) = b) as Hrt by (intros b Hb; unfold rightly, holds; simpl; by rewrite Hb).
  destruct (kind dd) eqn:K; try (exists d1; split_and!; [done|done|]; intros w' Hw'; rewrite Hd by done; f_equal; by tally_step Hat w w' idtac).
  - destruct (H2 eq_refl) as [b Hb]. rewrite Hb. cbn [mbind res_bind]. apply Hone; [done|]. intros w'.
    specialize (Hrt b Hb). case_decide; destruct b; by tally_step Hat w w' ltac:(rewrite Hrt).
  - apply Hone; [done|]. intros w'. case_decide; by tally_step Hat w w' idtac.
  - apply Hone; [done|]. intros w'. case_decide; by tally_step Hat w w' idtac.
  - apply Hone; [done|]. intros w'. case_decide; by tally_step Hat w w' idtac.
Qed.

(** ** Lemmas: the cell *)

Lemma carried_ok k order carried (ids : list string) : carried_of k order = Ok carried → (∀ t, t ∈ order → t ∈ ids) → ∀ a v, carried !! a = Some v → v ∈ ids.
Proof.
  intros H Hids. unfold carried_of in H. destruct k as [|k]; [injection H as <-; by intros a v ?%lookup_empty_Some|]. revert H.
  apply (fold_res_ind (λ m : gmap string string, ∀ a v, m !! a = Some v → v ∈ ids)); [by intros a v ?%lookup_empty_Some|].
  intros i m m' _ IH H. apply bind_Ok in H as (own & Ho%get_Ok & H). apply bind_Ok in H as (b & Hb%get_Ok & [= <-]).
  intros a v [[_ <-]|[_ ?]]%lookup_insert_Some; [|by eapply IH]. by apply Hids, list_elem_of_lookup_2 with (i - 1)%nat.
Qed.
Lemma hide_rows_ok hide rows kept : hide_rows hide rows = Ok kept → sublist kept rows.
Proof.
  unfold hide_rows. destruct hide as [h|]; [|by intros [= <-]]. intros H. apply bind_Ok in H as (_ & _ & [= <-]). apply sublist_filter_bool_sub.
Qed.

Section cell.
Context (repr py_str : Value → string) (format_g : Q → string) (delay : nat → Q) (log outside spans : list json).
Context (meta : Meta) (hop_ports : list Z) (window : Z) (faults : Faults) (cell : Cell).
Hypothesis Hload : load_cell repr py_str format_g delay log outside spans meta hop_ports window faults = Ok cell.
Notation shift := (f_shift_us faults).
Notation admitted := (admitted_of (cl_signals cell)).

Record loaded (ids : list string) (all rows : list _Row) (es : list (Q * Seen)) (end_us : Z) : Prop := {
  ld_ids : trace_ids log = Ok ids;
  ld_rows row : row ∈ rows → row_ok meta ids row;
  ld_sub : sublist rows all;
  ld_once : NoDup (row_identity <$> rows);
  ld_signals : _second_signals all meta hop_ports = Ok (cl_signals cell);
  ld_entries : Forall2 (λ row e, ∃ n carried, (∀ a v, carried !! a = Some v → v ∈ ids) ∧
    entry_of delay faults admitted carried meta (n, row) = Ok e) (sorted_by row_key rows) es;
  ld_end : end_after rows window faults = Ok end_us;
  ld_journal : cl_journal cell = ((λ e : Q * Seen, ESeen e.2) <$> sorted_by fst es) ++ ((λ s, EAdvance s end_us) <$> sources_in rows);
  ld_config : cl_config cell = mkConfig (sources_in rows) window shift None DEFAULT_MAX_COLLISION_MEMBERS None None None;
  ld_truth : cl_truth cell = foldl (λ (m : gmap (string * Z) string) row, <[row_identity row := row_truth row]> m) ∅ (sorted_by row_key rows);
  ld_reused i : i ∈ cl_reused cell → i ∈ row_identity <$> rows
}.
Lemma cell_loaded : ∃ ids all rows es end_us, loaded ids all rows es end_us.
Proof.
  unfold load_cell in Hload. apply bind_Ok in Hload as ([all order] & Hr & H). apply bind_Ok in H as (signals & Hs & H).
  apply bind_Ok in H as (rows & Hh & H). apply bind_Ok in H as (carried & Hc & H). cbv zeta in H.
  apply bind_Ok in H as (es & He & H). apply bind_Ok in H as (end_us & Hend & H). apply bind_Ok in H as (lo & _ & H).
  apply bind_Ok in H as (t & _ & H). injection H as Ec. destruct (rows_ok _ _ _ _ _ _ Hr) as (ids & Hids & Hord & Hn & Hok).
  apply hide_rows_ok in Hh as Hsub. exists ids, all, rows, es, end_us. split; rewrite <- ?Ec; simpl; try done.
  - intros row Hin. apply Hok. by eapply elem_of_sublist.
  - eapply sublist_NoDup; [exact Hn|]. by apply sublist_fmap.
  - apply map_res_Forall2 in He. apply Forall2_same_length_lookup. split.
    + by rewrite <- (Forall2_length _ _ _ He), length_imap.
    + intros i row e Hi Hei. destruct (Forall2_lookup_r _ _ _ _ _ He Hei) as ([k r] & Hk & E). apply list_lookup_imap_Some in Hk as (r' & Hr' & [= -> ->]).
      simplify_eq. exists i, carried. split; [by apply (carried_ok _ _ _ _ Hc)|done].
  - intros i Hi. apply elem_of_list_to_set, list_elem_of_fmap in Hi as (row & -> & [Hin _]%elem_of_filter_bool).
    rewrite elem_of_sorted_by in Hin. by apply list_elem_of_fmap_2.
Qed.

(** What an entry is made of. *)
Record made_of (ids : list string) (row : _Row) (e : Q * Seen) : Prop := {
  mo_identity : Exact.identity (observation e.2) = row_identity row;
  mo_source : o_source (observation e.2) = row_source row;
  mo_side : Exact.side_of (observation e.2) = (row_point row, row_side row);
  mo_at : at_us e.2 = row_end_us row;
  mo_times : _times e.2 = Ok tt;
  mo_keys : map_Forall (λ k v, k ∈ IDENTIFIERS ∧ v ≠ ""%string) (o_keys (observation e.2));
  mo_time : (inject_Z (row_end_us row) <= e.1 <= inject_Z (row_end_us row + shift))%Q;
  mo_connection : is_Some (o_keys (observation e.2) !! "tuple5"%string) → ∃ w, _signal_hop row (m_hops meta) = Ok w ∧ w ∈ admitted ∧
    o_keys (observation e.2) !! "tuple5"%string = Some (port_text (row_client_port row) +:+ ">" +:+ port_text (row_server_port row))%string
}.
Lemma keys_connection carried row keys : row_keys admitted carried meta row = Ok keys → is_Some (keys !! "tuple5"%string) →
  ∃ w, _signal_hop row (m_hops meta) = Ok w ∧ w ∈ admitted ∧
    keys !! "tuple5"%string = Some (port_text (row_client_port row) +:+ ">" +:+ port_text (row_server_port row))%string.
Proof.
  unfold row_keys. intros H. apply bind_Ok in H as (w & Hw & [= <-]). case_bool_decide as Hin.
  - intros _. exists w. split_and!; [done|done|]. destruct (row_stream row); [rewrite lookup_insert_ne by done|]; by rewrite lookup_insert_eq.
  - unfold trace_keys. destruct (if reuses carried row then _ else _); intros [x Hx]; [|by apply lookup_empty_Some in Hx].
    apply lookup_singleton_Some in Hx as [? _]. discriminate.
Qed.
Context (Hdelay : ∀ n, (0 <= delay n <= inject_Z shift)%Q) (Hshift : 0 <= shift).
Lemma keys_made ids row carried keys : (∀ t, t ∈ ids → t ≠ ""%string) → row_ok meta ids row → (∀ a v, carried !! a = Some v → v ∈ ids) →
  row_keys admitted carried meta row = Ok keys → map_Forall (λ k v, k ∈ IDENTIFIERS ∧ v ≠ ""%string) keys.
Proof.
  intros Hids Hrow Hc H. unfold row_keys in H. apply bind_Ok in H as (w & _ & [= <-]).
  assert (∀ k (v : string) (m : gmap string string), bool_decide (k ∈ IDENTIFIERS) = true → v ≠ ""%string → map_Forall (λ k v, k ∈ IDENTIFIERS ∧ v ≠ ""%string) m →
    map_Forall (λ k v, k ∈ IDENTIFIERS ∧ v ≠ ""%string) (<[k := v]> m)) as Hins.
  { intros k v m Hk%bool_decide_eq_true Hv Hm. by apply map_Forall_insert_2. }
  assert (map_Forall (λ k v, k ∈ IDENTIFIERS ∧ v ≠ ""%string) (trace_keys carried row)) as Ht.
  { unfold trace_keys. destruct (if reuses carried row then _ else _) as [v|] eqn:E; [|apply map_Forall_empty]. apply Hins; [done| |apply map_Forall_empty].
    destruct (reuses carried row); [by eapply Hids, Hc|]. destruct (ro_trace _ _ _ Hrow v E) as [?|?]; [done|by apply Hids]. }
  case_bool_decide; [|done].
  assert (port_text (row_client_port row) +:+ ">" +:+ port_text (row_server_port row) ≠ ""%string) as Hp by (destruct (port_text _); done).
  destruct (row_stream row) as [s|] eqn:Es; [apply Hins; [done|by eapply ro_stream|]|]; by apply Hins.
Qed.
Lemma entry_made ids row n carried e : (∀ t, t ∈ ids → t ≠ ""%string) → row_ok meta ids row → (∀ a v, carried !! a = Some v → v ∈ ids) →
  entry_of delay faults admitted carried meta (n, row) = Ok e → made_of ids row e.
Proof.
  intros Hids Hrow Hc H. cbn [entry_of] in H. apply bind_Ok in H as (keys & Hk & [= <-]). split; simpl; try done.
  - by apply (keys_made ids row carried).
  - rewrite inject_Z_plus. rewrite Zle_Qle in Hshift. change (inject_Z 0) with 0%Q in Hshift. split.
    + rewrite <- (Qplus_0_r (inject_Z (row_end_us row))) at 1. apply Qplus_le_compat; [apply Qle_refl|].
      destruct (shift =? 0); [apply Qle_refl|apply Hdelay].
    + apply Qplus_le_compat; [apply Qle_refl|]. destruct (shift =? 0); [done|apply Hdelay].
  - by apply (keys_connection carried).
Qed.

Section journal.
Context (ids : list string) (all rows : list _Row) (es : list (Q * Seen)) (end_us : Z) (Hl : loaded ids all rows es end_us).
Context (Hids : ∀ t, t ∈ ids → t ≠ ""%string).
Notation seens := (snd <$> sorted_by fst es).

Lemma entries_made : Forall2 (made_of ids) (sorted_by row_key rows) es.
Proof.
  pose proof (ld_entries _ _ _ _ _ Hl) as He. apply Forall2_same_length_lookup. split; [by apply Forall2_length in He|].
  intros i row e Hi Hei. destruct (Forall2_lookup_lr _ _ _ _ _ _ He Hi Hei) as (n & carried & Hc & H).
  apply list_elem_of_lookup_2 in Hi as Hrow. rewrite elem_of_sorted_by in Hrow. apply (entry_made ids row n carried e); [done|by apply (ld_rows _ _ _ _ _ Hl)|done|done].
Qed.
Lemma seen_row s : s ∈ seens → ∃ row e, row ∈ rows ∧ made_of ids row e ∧ s = e.2 ∧ e ∈ es.
Proof.
  intros (e & -> & He)%list_elem_of_fmap. rewrite elem_of_sorted_by in He. pose proof He as [i Hi]%list_elem_of_lookup.
  destruct (Forall2_lookup_r _ _ _ _ _ entries_made Hi) as (row & Hr & Hm). apply list_elem_of_lookup_2 in Hr. rewrite elem_of_sorted_by in Hr. by exists row, e.
Qed.
Lemma row_seen row : row ∈ rows → ∃ s, s ∈ seens ∧ Exact.identity (observation s) = row_identity row.
Proof.
  intros Hr. rewrite <- (elem_of_sorted_by row_key) in Hr. apply list_elem_of_lookup in Hr as [i Hi].
  destruct (Forall2_lookup_l _ _ _ _ _ entries_made Hi) as (e & He & Hm). exists e.2. split; [|apply (mo_identity _ _ _ Hm)].
  apply list_elem_of_fmap_2. rewrite elem_of_sorted_by. by apply list_elem_of_lookup_2 in He.
Qed.
Lemma seens_identities : (λ s, Exact.identity (observation s)) <$> seens ≡ₚ row_identity <$> rows.
Proof.
  assert (∀ l k, Forall2 (made_of ids) l k → (λ e : Q * Seen, Exact.identity (observation e.2)) <$> k = row_identity <$> l) as H.
  { clear. induction 1 as [|row e l k Hm _ IH]; [done|]. rewrite !fmap_cons. f_equal; [apply (mo_identity _ _ _ Hm)|exact IH]. }
  rewrite <- list_fmap_compose, <- (sorted_by_perm row_key rows), <- (H _ _ entries_made). apply fmap_Permutation, sorted_by_perm.
Qed.
Lemma seens_once : NoDup ((λ s, Exact.identity (observation s)) <$> seens).
Proof. rewrite seens_identities. apply (ld_once _ _ _ _ _ Hl). Qed.
Lemma elem_of_cell_journal x : x ∈ cl_journal cell ↔ (∃ s, s ∈ seens ∧ x = ESeen s) ∨ ∃ src, src ∈ sources_in rows ∧ x = EAdvance src end_us.
Proof.
  rewrite (ld_journal _ _ _ _ _ Hl), elem_of_app, !list_elem_of_fmap. setoid_rewrite list_elem_of_fmap. naive_solver.
Qed.

(** Deliveries are out of order by no more than the shift. *)
Lemma cell_orderly : orderly shift (λ _, True) (cl_journal cell).
Proof.
  rewrite (ld_journal _ _ _ _ _ Hl). apply orderly_app.
  2: { intros pre s post E. assert (ESeen s ∈ (λ s, EAdvance s end_us) <$> sources_in rows) as Hin by (rewrite E, elem_of_app; right; left).
    by apply list_elem_of_fmap in Hin as (? & ? & _). }
  intros pre s post x E _ _ Hx. apply fmap_app_inv in E as (l1 & l2 & -> & E & Es). symmetry in E. apply fmap_cons_inv in E as (e & l3 & Ee & _ & ->).
  injection Ee as ->. apply list_elem_of_fmap in Hx as (e1 & -> & He1). simpl.
  pose proof (sorted_by_sorted fst es) as Hs. rewrite Es in Hs. apply StronglySorted_app_1_elem_of with (x1 := e1) (x2 := e) in Hs; [|done|left].
  assert (∀ e, e ∈ sorted_by fst es → ∃ row, made_of ids row e) as Hm.
  { intros e' He'. rewrite elem_of_sorted_by in He'. apply list_elem_of_lookup in He' as [i Hi].
    destruct (Forall2_lookup_r _ _ _ _ _ entries_made Hi) as (row & _ & Hm). by exists row. }
  destruct (Hm e) as [row Hrow]; [rewrite Es, elem_of_app; right; left|]. destruct (Hm e1) as [row1 Hrow1]; [rewrite Es, elem_of_app; by left|].
  assert (e1.1 <= e.1)%Q as Hq.
  { apply Qnot_lt_le. intros Hlt. apply Hs. by apply Qgt_alt. }
  rewrite (mo_at _ _ _ Hrow), (mo_at _ _ _ Hrow1). rewrite Zle_Qle. eapply Qle_trans; [apply (mo_time _ _ _ Hrow1)|].
  eapply Qle_trans; [exact Hq|apply (mo_time _ _ _ Hrow)].
Qed.

Context (repr_str : string → string) (version : string) (Hwin : 0 <= window) (Hready : ready_chain meta (cl_topology cell) = true).
Notation t := (cl_topology cell).
Notation settings := (init_settings repr_str version t (cl_config cell)).

Lemma cell_sources src : src ∈ sources_in rows ↔ ∃ row, row ∈ rows ∧ row_source row = src.
Proof.
  unfold sources_in, sorted. rewrite elem_of_sorted_by, elem_of_remove_dups, list_elem_of_fmap. split; intros (row & ? & ?); exists row; auto.
Qed.
Lemma cell_config_ok : _check (cl_config cell) = Ok tt.
Proof.
  rewrite (ld_config _ _ _ _ _ Hl). unfold _check. cbn [sources window_us lateness_us max_silence_us max_collision_members flow_max_duration_us].
  rewrite (proj2 (Z.leb_le _ _) Hwin), (proj2 (Z.leb_le _ _) Hshift).
  assert (negb (is_nil (sources_in rows)) && forallb (λ s, negb (bool_decide (s = ""%string))) (sources_in rows) && bool_decide (NoDup (sources_in rows)) = true) as ->; [|done].
  rewrite !andb_true_iff, bool_decide_eq_true, forallb_forall. split_and!.
  - assert (∃ row, row ∈ rows) as [row Hrow].
    { pose proof (ld_end _ _ _ _ _ Hl) as He. unfold end_after in He. destruct rows as [|row ?]; [done|]. exists row. left. }
    assert (row_source row ∈ sources_in rows) as Hs by (apply cell_sources; by exists row).
    destruct (sources_in rows); [by apply not_elem_of_nil in Hs|done].
  - intros src Hs%list_elem_of_In. apply cell_sources in Hs as (row & Hrow & <-). apply negb_true_iff, bool_decide_eq_false.
    apply (ro_source _ _ _ (ld_rows _ _ _ _ _ Hl row Hrow)).
  - unfold sources_in, sorted. rewrite sorted_by_perm. apply NoDup_remove_dups.
Qed.
Lemma seen_same s s' : s ∈ seens → s' ∈ seens → Exact.identity (observation s) = Exact.identity (observation s') → s = s'.
Proof. intros Hs Hs' E. by apply (NoDup_fmap_inj _ _ _ _ seens_once Hs Hs'). Qed.
Lemma cell_deliverable : deliverable settings (cl_journal cell).
Proof.
  destruct (ready_chain_ok _ _ Hready) as (_ & _ & _ & Hp & _). rewrite (ld_config _ _ _ _ _ Hl). split; simpl.
  - intros s [(s' & Hs & [= ->])|(src & _ & ?)]%elem_of_cell_journal; [|done]. destruct (seen_row s' Hs) as (row & e & Hrow & Hm & -> & _).
    pose proof (ld_rows _ _ _ _ _ Hl row Hrow) as Hok. pose proof (mo_side _ _ _ Hm) as Hsd. unfold Exact.side_of in Hsd. injection Hsd as Ep Es. split_and!.
    + apply validate_keys; [rewrite Ep; apply Hp, Hok|rewrite Es; apply Hok|apply (mo_keys _ _ _ Hm)].
    + rewrite (mo_source _ _ _ Hm). apply cell_sources. by exists row.
    + apply (mo_times _ _ _ Hm).
  - intros src until [(s & _ & ?)|(src' & Hs & [= -> ->])]%elem_of_cell_journal; done.
  - intros s s' [(s1 & Hs & [= ->])|(? & _ & ?)]%elem_of_cell_journal [(s2 & Hs' & [= ->])|(? & _ & ?)]%elem_of_cell_journal E; [|done..].
    by rewrite (seen_same s1 s2).
Qed.
Lemma cell_ends row : row ∈ rows → row_end_us row + window + shift < end_us.
Proof.
  intros Hrow. pose proof (ld_end _ _ _ _ _ Hl) as He. unfold end_after in He.
  assert (row_end_us row ∈ row_end_us <$> rows) as H by by apply list_elem_of_fmap_2.
  destruct (row_end_us <$> rows) as [|a l]; [done|]. injection He as <-. destruct (foldl_max_ge l a) as [Ha Hb].
  apply elem_of_cons in H as [-> |H%Hb]; lia.
Qed.

Section replayed.
Context (r : FlowResult) (Hr : replay_flow repr_str version t (cl_journal cell) (cl_config cell) = Ok r).
Lemma no_timing : timing_of (cl_config cell) = [].
Proof. by rewrite (ld_config _ _ _ _ _ Hl). Qed.
Lemma cell_final e : e ∈ effective r → status e.2 = FINAL.
Proof.
  destruct (ready_chain_ok _ _ Hready) as (Hp & Hn & _). apply (replay_settled repr_str version t (cl_journal cell) (cl_config cell) r end_us Hp Hn no_timing Hr).
  - rewrite (ld_config _ _ _ _ _ Hl). simpl. intros src Hs. exists end_us. split; [|lia]. apply elem_of_cell_journal. right. by exists src.
  - rewrite (ld_config _ _ _ _ _ Hl). simpl. intros s [(s' & Hs & [= ->])|(? & _ & ?)]%elem_of_cell_journal; [|done].
    destruct (seen_row s' Hs) as (row & e' & Hrow & Hm & -> & _). rewrite (mo_at _ _ _ Hm). by apply cell_ends.
Qed.
Lemma cell_timely e : e ∈ effective r → kind e.2 ≠ LATE.
Proof.
  intros He Hk. destruct (ready_chain_ok _ _ Hready) as (Hp & _). destruct e as [k d]. apply (od_get_in _ _ _ (effective_keys _)) in He.
  apply effective_key in He as [_ Hd]. apply (replay_late repr_str version t _ _ r d Hp Hr Hd) in Hk.
  revert Hk. apply (orderly_not_behind _ (λ _, True)); [|done]. rewrite (ld_config _ _ _ _ _ Hl). apply cell_orderly.
Qed.
Lemma cell_truth_of row : row ∈ rows → cl_truth cell !! row_identity row = Some (row_truth row).
Proof.
  intros Hrow. rewrite (ld_truth _ _ _ _ _ Hl). apply (foldl_insert_lookup row_identity row_truth).
  - rewrite sorted_by_perm. apply (ld_once _ _ _ _ _ Hl).
  - by rewrite elem_of_sorted_by.
Qed.
Lemma cell_truth_some s : ESeen s ∈ cl_journal cell → ∃ x, cl_truth cell !! Exact.identity (observation s) = Some x.
Proof.
  intros [(s' & Hs & [= ->])|(? & _ & ?)]%elem_of_cell_journal; [|done]. destruct (seen_row s' Hs) as (row & e & Hrow & Hm & -> & _).
  exists (row_truth row). rewrite (mo_identity _ _ _ Hm). by apply cell_truth_of.
Qed.

Lemma joined_where j : j ∈ exact_joins t → j_where j ∈ join_wheres t.
Proof.
  intros Hj. destruct (ready_chain_ok _ _ Hready) as ([_ _ Hkey _] & _). specialize (Hkey j Hj). unfold exact_joins in Hj. unfold join_wheres.
  apply elem_of_app in Hj as [(h & Hh & E)%list_elem_of_omap|(x & Hx & E)%list_elem_of_omap]; apply elem_of_app; [left|right]; apply list_elem_of_omap.
  - destruct (hc_key h) as [k|] eqn:Ek; [|done]. injection E as <-. exists h. split; [done|]. rewrite Ek. unfold named. simpl in *.
    by rewrite bool_decide_eq_false_2.
  - destruct (cc_key x) as [k|] eqn:Ek; [|done]. injection E as <-. exists x. split; [done|]. rewrite Ek. unfold named. simpl in *.
    by rewrite bool_decide_eq_false_2.
Qed.
Lemma observed_where j : j ∈ observed_joins t → j_where j ∈ join_wheres t.
Proof.
  intros Hj. destruct (ready_chain_ok _ _ Hready) as ([_ _ _ Hkey] & _). specialize (Hkey j Hj). unfold observed_joins in Hj. unfold join_wheres.
  apply list_elem_of_omap in Hj as (h & Hh & E). apply elem_of_app. left. apply list_elem_of_omap. exists h. split; [done|].
  destruct (hc_observed h) as [o|] eqn:Eo; [|done]. injection E as <-. simpl in *. destruct o; [done|]. by destruct (named (hc_key h)).
Qed.
Lemma cell_decided k d : od_get k (effective r) = Some d → joined (kind d) = true →
  k.1 ∈ join_wheres t ∧ (kind d = LINKED → ∃ b, right_link (cl_truth cell) k.2 d = Ok b).
Proof.
  intros Hd Hj%bool_decide_eq_true. destruct (ready_chain_ok _ _ Hready) as (Hp & _).
  destruct (replay_says repr_str version t _ _ r k d Hp no_timing Hr Hd) as (sn & Hsn & Hs).
  assert (kind d ∈ CONFLICTED :: joined_kinds) as Hj' by (unfold joined_kinds; set_solver).
  destruct (dkey d) as [n|] eqn:En; [|by destruct (sy_named _ _ _ _ _ _ _ _ _ Hs eq_refl Hj')].
  assert (∀ v ps, on_join settings sn k.1 n v k.2 ps → k.1 ∈ join_wheres t ∧
    ∀ i, i = k.2 ∨ i ∈ ps → ∃ x, cl_truth cell !! i = Some x) as Hon.
  { intros v ps Ho. assert (∀ i, is_Some (sn !! i) → ∃ x, cl_truth cell !! i = Some x) as Hi.
    { intros i [s Hs0]. destruct (Hsn i s Hs0) as [Hin ->]. by apply cell_truth_some. }
    destruct Ho as [(j & Hjn & <- & _ & Ha)|(j & Hjn & <- & _ & Ha)]; (split; [by apply joined_where || by apply observed_where|]);
      intros i [-> |Hin]; apply Hi; destruct Ha as [[(s & Hs0 & _) Ha]|[(s & Hs0 & _) Ha]]; try (by exists s);
      destruct (Ha i Hin) as (s' & ? & _); by exists s'. }
  destruct (decide (kind d = CONFLICTED)) as [Ec|Hnc].
  - destruct (sy_conflict _ _ _ _ _ _ _ _ _ Hs n eq_refl Ec) as (v & _ & Ho). split; [by eapply Hon|]. rewrite Ec. discriminate.
  - assert (kind d ∈ joined_kinds) as Hjk by (unfold joined_kinds; set_solver).
    destruct (sy_join _ _ _ _ _ _ _ _ _ Hs n eq_refl Hjk) as (v & _ & Ho). destruct (Hon _ _ Ho) as [Hw Ht]. split; [done|]. intros Hk.
    destruct (sy_link _ _ _ _ _ _ _ _ _ Hs Hk) as [p Epp]. unfold right_link. rewrite Epp. cbn [map_res].
    destruct (Ht p) as [x ->]; [right; rewrite Epp; left|]. destruct (Ht k.2) as [y ->]; [by left|]. cbn [get mbind res_bind]. by eexists.
Qed.
(** Every join with a signal is counted, from nothing. *)
Lemma no_counts_ok ws : let d := foldl (λ (d : odict string JoinCounts) w, od_set w no_counts d) [] ws in
  NoDup d.*1 ∧ (∀ w, w ∈ d.*1 ↔ w ∈ ws) ∧ ∀ w c, od_get w d = Some c → c = no_counts.
Proof.
  induction ws as [|w ws IH] using rev_ind; [simpl; split_and!; [constructor|done|done]|]. rewrite foldl_snoc. cbv zeta in *. destruct IH as (H1 & H2 & H3).
  split_and!; [by apply od_set_NoDup| |].
  - intros w'. rewrite od_set_keys, H2, elem_of_app, list_elem_of_singleton. naive_solver.
  - intros w' c. rewrite od_get_set. case_decide; [by intros [= <-]|apply H3].
Qed.
Lemma kept_scored : ∃ rep, score cell r = Ok rep ∧ rc_open rep = 0 ∧ rc_late rep = 0 ∧ rc_duplicates rep = result_duplicates r ∧
  NoDup (rc_joins rep).*1 ∧ (∀ w, w ∈ (rc_joins rep).*1 ↔ w ∈ join_wheres t) ∧
  (∀ w c, (w, c) ∈ rc_joins rep → c = tally (cl_truth cell) w (effective r)) ∧ rc_wrong rep = foldl (λ n c, n + jc_wrong c) 0 (rc_joins rep).*2.
Proof.
  assert (final_of r = effective r) as Ef by (apply filter_bool_all; intros e He; by apply bool_decide_eq_true, cell_final).
  destruct (no_counts_ok (join_wheres t)) as (Hn & Hk & H0). set (d0 := foldl _ [] (join_wheres t)) in *.
  destruct (counts_ok (cl_truth cell) (effective r) d0) as (d & Ed & Ekeys & Hget); [| |done|].
  - intros [k x] He Hj. apply (od_get_in _ _ _ (effective_keys _)) in He. apply Hk. by apply (cell_decided k x).
  - intros [k x] He Hj. apply (od_get_in _ _ _ (effective_keys _)) in He. destruct (cell_decided k x He) as [_ H]; [simpl in Hj; by rewrite Hj|]. by apply H.
  - unfold score. rewrite Ef. match goal with |- context [fold_res (count_decision _) _ ?x] => change x with d0 end. rewrite Ed. cbn [mbind res_bind].
    destruct (map_res_total (λ i, get (cl_truth cell !! i) KeyError) (elements (cl_reused cell))) as [reused ->].
    { intros i Hi%elem_of_elements%(ld_reused _ _ _ _ _ Hl). apply list_elem_of_fmap in Hi as (row & -> & Hrow). rewrite cell_truth_of by done. by eexists. }
    cbn [mbind res_bind]. eexists. split; [done|]. cbn. split_and!; [| |done|by rewrite Ekeys|intros w; by rewrite Ekeys| |done].
    + unfold ExactPath.count. rewrite filter_bool_none; [done|]. intros e He. by rewrite bool_decide_eq_true_2 by by apply cell_final.
    + unfold ExactPath.count. rewrite filter_bool_none; [done|]. intros x (e & -> & He)%list_elem_of_fmap. apply bool_decide_eq_false. by apply cell_timely.
    + intros w c Hc. pose proof Hc as Hc'. apply (od_get_in _ _ _) in Hc; [|by rewrite Ekeys]. rewrite Hget in Hc; [by injection Hc as <-|].
      rewrite <- Ekeys. by apply (list_elem_of_fmap_2 fst) in Hc'.
Qed.
Lemma cell_delivered_once : result_duplicates r = 0.
Proof.
  pose proof Hr as (joins & st & _ & Hst & ->)%replay_run. simpl. pose proof (feeds_count _ _ _ _ Hst) as H. simpl in H. rewrite map_size_empty in H.
  assert (List.filter is_seen (cl_journal cell) = ESeen <$> seens) as E.
  { rewrite (ld_journal _ _ _ _ _ Hl), List.filter_app, filter_bool_all, filter_bool_none, app_nil_r, <- list_fmap_compose; [done| |].
    - by intros ? (? & -> & _)%list_elem_of_fmap.
    - by intros ? (? & -> & _)%list_elem_of_fmap. }
  assert (size (seen (journal st)) = length seens) as Hsz; [|rewrite E, length_fmap in H; lia].
  rewrite <- size_dom, <- (length_fmap (λ s, Exact.identity (observation s))), <- (size_list_to_set (C := gset (string * Z)) _ seens_once). f_equal.
  apply set_eq. intros i. rewrite elem_of_dom, elem_of_list_to_set, list_elem_of_fmap. split.
  - intros [x Hx]. apply (feeds_true _ (λ _, True) True) in Hst as [_ Hs]; [|by apply plain_keyed, (ready_chain_ok _ _ Hready)|done|].
    + destruct (Hs i x Hx) as [H0|[Hin Hi]]; [simpl in H0; by apply lookup_empty_Some in H0|].
      apply elem_of_cell_journal in Hin as [(s & Hs0 & [= ->])|(? & _ & ?)]; [by exists s|done].
    + split; simpl; [intros ??; simpl; by intros ?%lookup_empty_Some|apply hist_init|done].
  - intros (s & -> & Hs). destruct (feeds_known _ _ _ _ s Hst) as [(x & Hx & _) _]; [|by exists x]. apply elem_of_cell_journal. left. by exists s.
Qed.

(** The wrong links of the run are the wrong links in force. *)
Lemma cell_wrong rep : NoDup (rc_joins rep).*1 → (∀ w, w ∈ (rc_joins rep).*1 ↔ w ∈ join_wheres t) →
  (∀ w c, (w, c) ∈ rc_joins rep → c = tally (cl_truth cell) w (effective r)) → rc_wrong rep = foldl (λ n c, n + jc_wrong c) 0 (rc_joins rep).*2 →
  rc_wrong rep = ExactPath.count (λ e, is_kind LINKED e.2 && negb (rightly (cl_truth cell) e)) (effective r).
Proof.
  intros Hn Hk Ht ->. rewrite (zsum_foldl jc_wrong), Z.add_0_l. unfold ExactPath.count.
  rewrite <- (zsum_classes _ (λ e : Decided, e.1.1) (rc_joins rep).*1 (effective r) Hn).
  - rewrite <- !list_fmap_compose. apply zsum_ext. intros [w c] He. unfold compose. simpl. rewrite (Ht w c He). unfold tally, ExactPath.count. simpl.
    do 2 f_equal. apply List.filter_ext. intros e. unfold kind_at. destruct (is_kind LINKED e.2), (rightly _ e), (bool_decide _); done.
  - intros [k d] He [Hkd%bool_decide_eq_true _]%andb_true_iff. apply (od_get_in _ _ _ (effective_keys _)) in He. apply Hk.
    apply (cell_decided k d He). simpl in Hkd. by rewrite Hkd.
Qed.
End replayed.

(** *** Second signals *)

Lemma signal_sound w : w ∈ admitted → ∃ src dst port, (src, dst) ∈ pairwise (ExactPath.chain (m_hops meta)) ∧ w = hop_where src dst ∧
  _listening_port dst meta hop_ports = Ok (Some port) ∧
  ∀ row, row ∈ all → row_point row = dst → row_side row = "inbound"%string → row_server_port row = Some (str_Z port).
Proof.
  intros ([w' reason] & Hin & E)%list_elem_of_omap. simpl in E. destruct reason; [done|]. injection E as ->.
  pose proof (ld_signals _ _ _ _ _ Hl) as Hs. unfold _second_signals in Hs. apply bind_Ok in Hs as (reasons & Hm & [= Es]). rewrite <- Es in Hin.
  assert (∀ l (d : odict string (option string)) e, e ∈ foldl (λ (d : odict string (option string)) e, od_set e.1 e.2 d) d l → e ∈ l ∨ e ∈ d) as Hfold.
  { clear. induction l as [|x l IH]; intros d e He; [by right|]. cbn [foldl] in He. apply IH in He as [?|[-> |?]%od_set_elem]; [left; by right|left; destruct x; left|by right]. }
  apply Hfold in Hin as [Hin|?%not_elem_of_nil]; [|done]. apply map_res_Forall2 in Hm. apply list_elem_of_lookup in Hin as [i Hi].
  destruct (Forall2_lookup_r _ _ _ _ _ Hm Hi) as ([src dst] & Hp & H). apply list_elem_of_lookup_2 in Hp. exists src, dst.
  unfold signal_of in H. apply bind_Ok in H as (port & Hport & [= <- H]). destruct (bool_decide (src = "load-gen"%string)); [done|].
  destruct port as [port|]; [|done]. exists port. split_and!; [done|done|done|]. intros row Hrow Hpt Hsd.
  destruct (existsb _ _) eqn:Ex; [done|]. apply not_true_iff_false in Ex. destruct (decide (row_server_port row = Some (str_Z port))) as [|Hne]; [done|].
  exfalso. apply Ex, existsb_exists. exists row. split; [|by apply negb_true_iff, bool_decide_eq_false].
  apply list_elem_of_In, elem_of_filter_bool. split; [done|]. by apply bool_decide_eq_true.
Qed.
(** A connection received is on the port its point listens on. *)
Lemma received_port s : ESeen s ∈ cl_journal cell → o_side (observation s) = "inbound"%string → is_Some (o_keys (observation s) !! "tuple5"%string) →
  ∃ port client, _listening_port (o_point (observation s)) meta hop_ports = Ok (Some port) ∧
    o_keys (observation s) !! "tuple5"%string = Some (client +:+ ">" +:+ str_Z port)%string.
Proof.
  intros [(s' & Hs & [= ->])|(? & _ & ?)]%elem_of_cell_journal Hsd Hc; [|done]. destruct (seen_row s' Hs) as (row & e & Hrow & Hm & -> & _).
  destruct (mo_connection _ _ _ Hm Hc) as (w & Hw & Hin & Et). pose proof (mo_side _ _ _ Hm) as Hside. unfold Exact.side_of in Hside. injection Hside as Ep Es.
  rewrite Ep. rewrite Es in Hsd. destruct (signal_sound w Hin) as (src & dst & port & Hp & -> & Hport & Hall).
  pose proof (ld_rows _ _ _ _ _ Hl row Hrow) as Hok. destruct (ready_chain_ok _ _ Hready) as (_ & _ & _ & _ & Hnd).
  assert (row_point row = dst) as Hd; [|rewrite Hd in *; exists port, (port_text (row_client_port row)); split; [done|]; rewrite Et].
  2: { rewrite (Hall row) by (try done; by eapply elem_of_sublist; [|apply (ld_sub _ _ _ _ _ Hl)]). done. }
  unfold _signal_hop in Hw. apply bind_Ok in Hw as (i & Hi & Hw). unfold index_of in Hi. apply get_Ok in Hi.
  destruct (list_find _ _) as [[i' x]|] eqn:Ef; [|done]. injection Hi as ->. apply list_find_Some in Ef as (Hx & <- & _).
  rewrite bool_decide_eq_false_2 in Hw by (rewrite Hsd; done). apply bind_Ok in Hw as (previous & Hprev%get_Ok & [= Ew]).
  destruct i as [|i].
  { injection Hx as E. symmetry in E. apply (ro_sent _ _ _ Hok) in E. congruence. }
  assert ((previous, row_point row) ∈ pairwise (ExactPath.chain (m_hops meta))) as Hpp.
  { apply list_elem_of_lookup. exists i. unfold pairwise. apply lookup_zip_with_Some. exists previous, (row_point row). split_and!; [done|done|].
    by rewrite lookup_tail. }
  pose proof (NoDup_fmap_inj (λ ab : string * string, hop_where ab.1 ab.2) _ _ _ Hnd Hpp Hp Ew) as E. by injection E.
Qed.
End journal.
End cell.

(** ** Guarantees *)

(** C35: a kept cell is replayed, and its score says what was decided.  Take any cell that
    reads, over a chain whose declared joins and values have distinct names (every chain of
    up to three hops is, whatever hops have a second signal), with non-empty request ids,
    a window and a shift that are not negative, and deliveries late by no more than the
    shift, with or without a hidden side and reused ids: the flow accepts the journal and
    the score returns.  Nothing is left provisional, nothing is late and nothing is a
    duplicate; the report names exactly the joins that have a signal, each once, and counts
    at each the decisions in force there, a link being right when its two ends belong to
    one request; the wrong links of the run are the wrong links in force.  A hop has a
    second signal only where it proves something: every observation received with a
    connection carries the port its point listens on. *)
Theorem cell_replayed repr py_str format_g repr_str version delay log outside spans meta hop_ports window faults cell ids :
  load_cell repr py_str format_g delay log outside spans meta hop_ports window faults = Ok cell →
  ready_chain meta (cl_topology cell) = true → trace_ids log = Ok ids → (∀ t, t ∈ ids → t ≠ ""%string) →
  0 <= window → 0 <= f_shift_us faults → (∀ n, (0 <= delay n <= inject_Z (f_shift_us faults))%Q) →
  ∃ r rep, analyze_cell repr py_str format_g repr_str version delay log outside spans meta hop_ports window faults = Ok (cell, r, rep) ∧
    (∀ e, e ∈ effective r → status e.2 = FINAL ∧ kind e.2 ≠ LATE) ∧
    rc_open rep = 0 ∧ rc_late rep = 0 ∧ rc_duplicates rep = 0 ∧
    NoDup (rc_joins rep).*1 ∧ (∀ w, w ∈ (rc_joins rep).*1 ↔ w ∈ join_wheres (cl_topology cell)) ∧
    (∀ w c, (w, c) ∈ rc_joins rep → c = tally (cl_truth cell) w (effective r)) ∧
    rc_wrong rep = ExactPath.count (λ e, is_kind LINKED e.2 && negb (rightly (cl_truth cell) e)) (effective r) ∧
    (∀ s, ESeen s ∈ cl_journal cell → o_side (observation s) = "inbound"%string → is_Some (o_keys (observation s) !! "tuple5"%string) →
       ∃ port client, _listening_port (o_point (observation s)) meta hop_ports = Ok (Some port) ∧
         o_keys (observation s) !! "tuple5"%string = Some (client +:+ ">" +:+ str_Z port)%string).
Proof.
  intros Hload Hready Hids Hne Hwin Hshift Hdelay.
  destruct (cell_loaded _ _ _ _ _ _ _ _ _ _ _ _ Hload) as (ids' & all & rows & es & end_us & Hl).
  pose proof (ld_ids _ _ _ _ _ _ _ _ _ _ _ _ Hl) as E. rewrite Hids in E. injection E as <-.
  destruct (ready_chain_ok _ _ Hready) as (Hp & Hn & _).
  assert (timing_of (cl_config cell) = []) as Hu by (eapply no_timing; exact Hl).
  destruct (flow_replayable repr_str version (cl_topology cell) (cl_journal cell) (cl_config cell) Hp Hn Hu) as [r Hr].
  { eapply cell_config_ok; done. }
  { eapply cell_deliverable; done. }
  destruct (kept_scored _ _ _ _ _ _ _ _ _ _ _ _ Hload Hdelay Hshift ids all rows es end_us Hl Hne repr_str version Hwin Hready r Hr)
    as (rep & Es & Ho & Hla & Hdu & Hnd & Hk & Ht & Hw).
  exists r, rep. unfold analyze_cell. rewrite Hload. cbn [mbind res_bind]. rewrite Hr. cbn [mbind res_bind]. rewrite Es.
  split_and!; try done.
  - intros e He. split; [by eapply cell_final|by eapply cell_timely].
  - rewrite Hdu. by eapply cell_delivered_once.
  - by eapply cell_wrong.
  - intros s. by eapply received_port.
Qed.

(** ** Witnesses *)

Definition ex_loaded : res Cell :=
  load_cell (λ _, ""%string) (λ _, ""%string) (λ _, ""%string) (λ _, 0%Q) ex_log [] ex_spans ex_meta [8001] 5000 ex_faults.
Lemma ex_ready : match ex_loaded with Ok cell => ready_chain ex_meta (cl_topology cell) | Raise _ => false end = true.
Proof. vm_compute. reflexivity. Qed.
Lemma cell_replayed_witness :
  ∃ cell r rep, ex_cell = Ok (cell, r, rep) ∧ rc_open rep = 0 ∧ rc_late rep = 0 ∧ rc_duplicates rep = 0.
Proof.
  pose proof ex_ready as Hready. destruct ex_loaded as [cell|] eqn:E; [|discriminate Hready]. exists cell.
  destruct (cell_replayed (λ _, ""%string) (λ _, ""%string) (λ _, ""%string) ex_repr "0.1.0" (λ _, 0%Q) ex_log [] ex_spans ex_meta [8001] 5000 ex_faults
    cell [ex_id "1"; ex_id "2"] E) as (r & rep & H & _ & Ho & Hla & Hd & _).
  - exact Hready.
  - vm_compute. reflexivity.
  - apply (proj1 (Forall_forall (λ t, t ≠ ""%string) _)), (bool_decide_eq_true_1 (Forall (λ t, t ≠ ""%string) _)). vm_compute. reflexivity.
  - lia.
  - simpl. lia.
  - intros n. split; apply Qle_refl.
  - exists r, rep. exact (conj H (conj Ho (conj Hla Hd))).
Defined.
