(* ===== verification/Provenance.v ===== *)
(** * Provenance: the durable store of evidence, records and runs

    [provenance.py].  The three SQLite tables are finite maps from the primary key to the
    row, [INSERT OR IGNORE] keeps an existing row, and a transaction ([with self._db])
    that raises leaves the store as it was.  An operation that writes returns the store
    it leaves and its result.  Values read back from a row have their declared types, and
    any other value is a [TypeError].  The clock of [capture] is an argument.  Byte
    strings and UTF-8 texts are both [string]. *)

From S2P Require Import Prelude Digest Numeric DecimalText Json Calendar Models Rules Engine.

(** ** Encoding *)

Definition _json (v : json) : string := dumps v.
Definition _hash (v : json) : string := Sha256.hexdigest (_json v).
Definition JOpt (s : option string) : json := match s with Some s => JStr s | None => JNull end.
Definition _record_data (r : Rec) : json :=
  JObj [("id", JStr (rid r)); ("account", JStr (account r)); ("amount", JStr (str_decimal (amount r)));
        ("value_date", JStr (isoformat (value_date r))); ("reference", JOpt (reference r));
        ("currency", JOpt (currency r))]%string.
Definition match_data (m : Match) : json :=
  JObj [("left_id", JStr (left_id m)); ("right_ids", JArr (JStr <$> right_ids m));
        ("rule", JStr (RuleId_name (rule m))); ("score", JStr (str_decimal (score m)));
        ("amount_residual", JStr (str_decimal (amount_residual m)));
        ("date_gap_days", JInt (date_gap_days m))]%string.
Definition reject_data (r : Reject) : json :=
  JObj [("left_id", JStr (rej_left r)); ("right_id", JOpt (rej_right r));
        ("reason", JStr (RejectReason_name (reason r)))]%string.
Definition result_members (result : MatchResult) : list (string * json) :=
  [("ruleset_id", JStr (result_ruleset_id result)); ("result_hash", JStr (result_hash result));
   ("matches", JArr (match_data <$> matches result)); ("rejects", JArr (reject_data <$> rejects result));
   ("counters", JObj ((λ kv : string * Z, (kv.1, JInt kv.2)) <$> map_to_list (counters result)))]%string.
Definition _result_data (result : MatchResult) : json := JObj (result_members result).

(** ** Data *)

Record RawEvent := mkRawEvent {
  e_raw_event_id : string;
  e_source : string;
  received_at : Z;
  payload_sha256 : string;
  payload : string
}.
Record CanonicalRecord := mkCanonical {
  record : Rec;
  raw_event_id : string;
  source_locator : string;
  adapter_version : string;
  normalizer_version : string
}.
Record ProvenancedResult := mkProvenanced { run_id : string; presult : MatchResult }.

Definition nonempty (s : string) : bool := negb (bool_decide (s = ""%string)).
Definition is_upper (c : ascii) : bool := (65 <=? N_of_ascii c)%N && (N_of_ascii c <=? 90)%N.
Definition currency_ok (c : option string) : bool :=
  match c with Some s => (String.length s =? 3)%nat && all_chars is_upper s | None => false end.
(** [CanonicalRecord.create] *)
Definition create (raw_event_id source_locator adapter_version normalizer_version account : string)
    (amount : decimal) (value_date : date) (currency reference : option string) : res CanonicalRecord :=
  _ ← check (forallb nonempty [raw_event_id; source_locator; adapter_version; normalizer_version; account])
        (ValueError "provenance fields and account must be nonempty");
  _ ← check (currency_ok currency) (ValueError "currency must be three uppercase ASCII letters");
  let identity := _hash (JArr [JStr raw_event_id; JStr source_locator; JStr adapter_version;
    JStr normalizer_version; _record_data (mkRec "" account amount value_date reference currency)]) in
  Ok (mkCanonical (mkRec identity account amount value_date reference currency)
        raw_event_id source_locator adapter_version normalizer_version).
(** [CanonicalRecord.to_dict] *)
Definition to_dict (c : CanonicalRecord) : json :=
  JObj [("record", _record_data (record c)); ("raw_event_id", JStr (raw_event_id c));
        ("source_locator", JStr (source_locator c)); ("adapter_version", JStr (adapter_version c));
        ("normalizer_version", JStr (normalizer_version c))]%string.
(** [==] of two canonical records. *)
Definition canonical_eqb (a b : CanonicalRecord) : bool :=
  rec_eqb (record a) (record b) && bool_decide (raw_event_id a = raw_event_id b) &&
  bool_decide (source_locator a = source_locator b) && bool_decide (adapter_version a = adapter_version b) &&
  bool_decide (normalizer_version a = normalizer_version b).

(** ** Decoding a row *)

Notation members := (list (string * json)).
Definition as_dict (v : json) : res members := match v with JObj d => Ok d | _ => Raise TypeError end.
Definition str_field (k : string) (d : members) : res string :=
  match od_get k d with Some (JStr s) => Ok s | _ => Raise TypeError end.
Definition opt_field (k : string) (d : members) : res (option string) :=
  match od_get k d with
  | Some (JStr s) => Ok (Some s)
  | Some JNull | None => Ok None
  | Some _ => Raise TypeError
  end.
Definition int_field (k : string) (d : members) (default : Z) : res Z :=
  match od_get k d with Some (JInt z) => Ok z | None => Ok default | Some _ => Raise TypeError end.
(** [Decimal(d[k])] *)
Definition decimal_item (k : string) (d : members) : res decimal :=
  v ← get (od_get k d) KeyError;
  match v with
  | JStr s => get (parse_decimal s) InvalidOperation
  | JInt z => Ok (of_int z)
  | _ => Raise TypeError
  end.
(** [date.fromisoformat(d[k])] *)
Definition date_item (k : string) (d : members) : res date :=
  v ← get (od_get k d) KeyError;
  match v with JStr s => fromisoformat s | _ => Raise TypeError end.
(** [C( **d)]: no keyword that is not a field of [C]. *)
Definition keywords (fields : list string) (d : members) : res unit :=
  check (forallb (λ kv, bool_decide (kv.1 ∈ fields)) d) TypeError.

Definition record_of (d : members) : res Rec :=
  amount ← decimal_item "amount" d;
  value_date ← date_item "value_date" d;
  _ ← keywords ["id"; "account"; "amount"; "value_date"; "reference"; "currency"]%string d;
  id ← str_field "id" d;
  account ← str_field "account" d;
  reference ← opt_field "reference" d;
  currency ← opt_field "currency" d;
  Ok (mkRec id account amount value_date reference currency).
Definition canonical_of (v : json) : res CanonicalRecord :=
  data ← as_dict v;
  rv ← get (od_get "record"%string data) KeyError;
  rd ← as_dict rv;
  r ← record_of rd;
  _ ← keywords ["record"; "raw_event_id"; "source_locator"; "adapter_version"; "normalizer_version"]%string data;
  raw ← str_field "raw_event_id" data;
  locator ← str_field "source_locator" data;
  adapter ← str_field "adapter_version" data;
  normalizer ← str_field "normalizer_version" data;
  Ok (mkCanonical r raw locator adapter normalizer).

(** ** The store *)

Record RawRow := mkRawRow { w_source : string; w_received_at : string; w_sha256 : string; w_payload : string }.
Record CanonicalRow := mkCanonicalRow { w_raw_id : string; w_data : string }.
Record Store := mkStore {
  raw_events : gmap string RawRow;
  canonical_records : gmap string CanonicalRow;
  reconciliation_runs : gmap string string
}.
Definition empty_store : Store := mkStore ∅ ∅ ∅.
(** [INSERT OR IGNORE] *)
Definition insert_or_ignore {A} (k : string) (row : A) (t : gmap string A) : gmap string A :=
  match t !! k with Some _ => t | None => <[k := row]> t end.

Definition raw_event (st : Store) (identity : string) : res RawEvent :=
  row ← get (raw_events st !! identity) KeyError;
  _ ← check (bool_decide (Sha256.hexdigest (w_payload row) = w_sha256 row) &&
             bool_decide (_hash (JArr [JStr (w_source row); JStr (w_sha256 row)]) = identity))
        (ValueError "raw evidence integrity check failed");
  received ← utc_fromisoformat (w_received_at row);
  Ok (mkRawEvent identity (w_source row) received (w_sha256 row) (w_payload row)).

Definition capture (st : Store) (payload source : string) (now : Z) : Store * res RawEvent :=
  if negb (nonempty source) then (st, Raise (ValueError "source must be nonempty and payload must be bytes"))
  else
    let sha := Sha256.hexdigest payload in
    let identity := _hash (JArr [JStr source; JStr sha]) in
    let row := mkRawRow source (utc_isoformat now) sha payload in
    let st' := mkStore (insert_or_ignore identity row (raw_events st)) (canonical_records st)
                 (reconciliation_runs st) in
    (st', raw_event st' identity).

Definition _validate_canonical (c : CanonicalRecord) : res unit :=
  let r := record c in
  expected ← create (raw_event_id c) (source_locator c) (adapter_version c) (normalizer_version c)
    (account r) (amount r) (value_date r) (currency r) (reference r);
  check (canonical_eqb c expected) (ValueError "canonical record integrity check failed").

Definition save_one (st : Store) (c : CanonicalRecord) : res Store :=
  _ ← raw_event st (raw_event_id c);
  _ ← _validate_canonical c;
  let data := _json (to_dict c) in
  let table := insert_or_ignore (rid (record c)) (mkCanonicalRow (raw_event_id c) data) (canonical_records st) in
  stored ← get (table !! rid (record c)) TypeError;
  _ ← check (bool_decide (w_data stored = data)) (ValueError "canonical identity collision");
  Ok (mkStore (raw_events st) table (reconciliation_runs st)).
Definition save_records (st : Store) (records : list CanonicalRecord) : Store * res unit :=
  match fold_res save_one records st with
  | Ok st' => (st', Ok tt)
  | Raise e => (st, Raise e)
  end.

Definition canonical_record (st : Store) (identity : string) : res CanonicalRecord :=
  row ← get (canonical_records st !! identity) KeyError;
  data ← loads (w_data row);
  c ← canonical_of data;
  _ ← check (bool_decide (rid (record c) = identity) && bool_decide (raw_event_id c = w_raw_id row))
        (ValueError "canonical record identity mismatch");
  _ ← _validate_canonical c;
  _ ← raw_event st (raw_event_id c);
  Ok c.

(** ** Runs *)

Definition tolerance_data (t : Tolerance) : json :=
  JObj [("amount_abs", JStr (str_decimal (amount_abs t))); ("amount_rel", JStr (str_decimal (amount_rel t)));
        ("date_days", JInt (date_days t)); ("max_aggregate_size", JInt (max_aggregate_size t));
        ("max_block_candidates", JInt (max_block_candidates t))]%string.
Definition tolerance_of (v : json) : res Tolerance :=
  d ← as_dict v;
  abs ← decimal_item "amount_abs" d;
  rel ← decimal_item "amount_rel" d;
  _ ← keywords ["amount_abs"; "amount_rel"; "date_days"; "max_aggregate_size"; "max_block_candidates"]%string d;
  days ← int_field "date_days" d (date_days Tolerance_default);
  size ← int_field "max_aggregate_size" d (max_aggregate_size Tolerance_default);
  block ← int_field "max_block_candidates" d (max_block_candidates Tolerance_default);
  Ok (mkTolerance abs rel days size block).
(** The list of texts under a key. *)
Definition ids_item (k : string) (d : members) : res (list string) :=
  v ← get (od_get k d) KeyError;
  match v with
  | JArr l => map_res (λ x, match x with JStr s => Ok s | _ => Raise TypeError end) l
  | _ => Raise TypeError
  end.
Definition records_of (st : Store) (ids : list string) : res (list Rec) :=
  map_res (λ key, c ← canonical_record st key; Ok (record c)) ids.

Definition run (st : Store) (identity : string) : res members :=
  text ← get (reconciliation_runs st !! identity) KeyError;
  data ← loads text;
  _ ← check (bool_decide (_hash data = identity)) (ValueError "run integrity check failed");
  d ← as_dict data;
  lefts ← ids_item "left_ids" d;
  rights ← ids_item "right_ids" d;
  _ ← map_res (canonical_record st) (lefts ++ rights);
  Ok d.

(** The document a run is stored as. *)
Definition run_data (engine_version : string) (lefts rights : list string) (tol : Tolerance)
    (result : MatchResult) : json :=
  JObj ([("schema_version", JInt 1); ("engine_version", JStr engine_version);
         ("left_ids", JArr (JStr <$> sorted lefts)); ("right_ids", JArr (JStr <$> sorted rights));
         ("tolerance", tolerance_data tol)]%string ++ result_members result).
Definition plan (st : Store) (left_ids right_ids : list string) (engine_version : string)
    (otol : option Tolerance) : res (json * MatchResult) :=
  _ ← check (nonempty engine_version) (ValueError "engine_version is required");
  _ ← check (bool_decide (NoDup left_ids) && bool_decide (NoDup right_ids))
        (ValueError "duplicate input IDs on one side");
  _ ← check (forallb (λ x, negb (bool_decide (x ∈ right_ids))) left_ids)
        (ValueError "the same source record cannot be reconciled against itself");
  left ← records_of st (sorted left_ids);
  right ← records_of st (sorted right_ids);
  let tol := default Tolerance_default otol in
  result ← reconcile left right (Some tol);
  Ok (run_data engine_version left_ids right_ids tol result, result).
(** [ProvenanceStore.reconcile] *)
Definition store_reconcile (st : Store) (left_ids right_ids : list string) (engine_version : string)
    (otol : option Tolerance) : Store * res ProvenancedResult :=
  match plan st left_ids right_ids engine_version otol with
  | Raise e => (st, Raise e)
  | Ok (data, result) =>
      let identity := _hash data in
      let st' := mkStore (raw_events st) (canonical_records st)
                   (insert_or_ignore identity (_json data) (reconciliation_runs st)) in
      (st', _ ← run st' identity; Ok (mkProvenanced identity result))
  end.

(** [ProvenanceStore.replay] *)
Definition store_replay (st : Store) (id engine_version : string) : res ProvenancedResult :=
  data ← run st id;
  v ← get (od_get "engine_version"%string data) KeyError;
  _ ← check (match v with JStr s => bool_decide (s = engine_version) | _ => false end)
        (ValueError "replay requires the recorded engine version");
  t ← get (od_get "tolerance"%string data) KeyError;
  tol ← tolerance_of t;
  lefts ← ids_item "left_ids" data;
  rights ← ids_item "right_ids" data;
  left ← records_of st lefts;
  right ← records_of st rights;
  result ← reconcile left right (Some tol);
  recorded ← map_res (λ kv : string * json, v ← get (od_get kv.1 data) KeyError; Ok (kv.1, v))
               (result_members result);
  _ ← check (bool_decide (_json (_result_data result) = _json (JObj recorded)))
        (ValueError "replayed decisions differ from the recorded result");
  Ok (mkProvenanced id result).

Definition evidence (st : Store) (id record_id : string) : res (CanonicalRecord * RawEvent) :=
  d ← run st id;
  lefts ← ids_item "left_ids" d;
  rights ← ids_item "right_ids" d;
  _ ← check (bool_decide (record_id ∈ lefts ++ rights)) (ValueError "record is not an input of this run");
  c ← canonical_record st record_id;
  e ← raw_event st (raw_event_id c);
  Ok (c, e).
