(* ===== verification/ProvenanceTheorems.v ===== *)
(** * Provenance: what the durable store guarantees

    Rows are only added and every read checks what it returns, so a record reads back as
    it was saved, evidence is never lost, and a stored run replays to the same result
    whatever is done to the store afterwards. *)

From S2P Require Import Prelude Digest Numeric DecimalText Json Calendar Models Rules Engine EngineTheorems Provenance.
Local Opaque Sha256.hexdigest dumps loads.

(** ** Lemmas: a record and its row *)

Lemma rec_eqb_refl r : rec_eqb r r = true.
Proof.
  unfold rec_eqb. rewrite !bool_decide_true, Z.eqb_refl by done.
  assert (deqb (amount r) (amount r) = true) as -> by by apply deqb_val. done.
Qed.
Lemma opt_field_JOpt k o d : od_get k d = Some (JOpt o) → opt_field k d = Ok o.
Proof. unfold opt_field. intros ->. by destruct o. Qed.

Lemma to_dict_wf c : wf (to_dict c) = true.
Proof. unfold to_dict, _record_data. cbn [wf]. by destruct (reference (record c)), (currency (record c)). Qed.
Lemma to_dict_norm c : norm (to_dict c) =
  JObj [("adapter_version", JStr (adapter_version c)); ("normalizer_version", JStr (normalizer_version c));
        ("raw_event_id", JStr (raw_event_id c));
        ("record", JObj [("account", JStr (account (record c)));
           ("amount", JStr (str_decimal (amount (record c)))); ("currency", JOpt (currency (record c)));
           ("id", JStr (rid (record c))); ("reference", JOpt (reference (record c)));
           ("value_date", JStr (isoformat (value_date (record c))))]);
        ("source_locator", JStr (source_locator c))]%string.
Proof. unfold to_dict, _record_data. by destruct (reference (record c)), (currency (record c)). Qed.

(** What [to_dict] writes, [canonical_of] reads back. *)
Lemma canonical_of_to_dict c : valid_date (value_date (record c)) → canonical_of (norm (to_dict c)) = Ok c.
Proof.
  intros Hd. rewrite to_dict_norm. destruct c as [[id acc am vd rf cur] raw loc ad nm]. cbn [record] in Hd |- *.
  unfold canonical_of. cbn [as_dict mbind res_bind od_get get decide]. 
  unfold record_of, decimal_item, date_item. simpl.
  rewrite parse_str_decimal. simpl. rewrite date_text_roundtrip by done. simpl.
  unfold opt_field. simpl. by destruct rf, cur.
Qed.

Lemma rec_eta r : mkRec (rid r) (account r) (amount r) (value_date r) (reference r) (currency r) = r.
Proof. by destruct r. Qed.

(** ** Lemmas: reading is monotone in the store *)

Record sub (st st' : Store) : Prop := {
  sub_raw : raw_events st ⊆ raw_events st';
  sub_canonical : canonical_records st ⊆ canonical_records st';
  sub_runs : reconciliation_runs st ⊆ reconciliation_runs st'
}.
Global Instance sub_preorder : PreOrder sub.
Proof. split; [done|]. intros a b c [] []. split; by etrans. Qed.

Lemma bind_mono {A B} (m m' : res A) (f f' : A → res B) b :
  m ≫= f = Ok b → (∀ a, m = Ok a → m' = Ok a) → (∀ a, m = Ok a → f a = Ok b → f' a = Ok b) → m' ≫= f' = Ok b.
Proof. intros H Hm Hf. apply bind_Ok in H as (a & Ha & H). rewrite (Hm a Ha). by apply (Hf a). Qed.
Lemma map_res_mono {A B} (f g : A → res B) l k :
  (∀ x y, f x = Ok y → g x = Ok y) → map_res f l = Ok k → map_res g l = Ok k.
Proof.
  intros Hfg. rewrite !map_res_Forall2. intros H. eapply Forall2_impl; [exact H|]. intros x y. apply Hfg.
Qed.

Section monotone.
Context (st st' : Store) (Hsub : sub st st').
Lemma lookup_mono {A} (m m' : gmap string A) k e a : m ⊆ m' → get (m !! k) e = Ok a → get (m' !! k) e = Ok a.
Proof. intros Hm. rewrite !get_Ok. intros H. by eapply lookup_weaken. Qed.
Lemma raw_event_mono id ev : raw_event st id = Ok ev → raw_event st' id = Ok ev.
Proof. unfold raw_event. intros H. eapply bind_mono; [exact H| |done]. intros row. apply lookup_mono, Hsub. Qed.
Lemma canonical_record_mono id c : canonical_record st id = Ok c → canonical_record st' id = Ok c.
Proof.
  unfold canonical_record. intros H. eapply bind_mono; [exact H|intros row; apply lookup_mono, Hsub|].
  intros row _ H1. eapply bind_mono; [exact H1|done|]. intros data _ H2.
  eapply bind_mono; [exact H2|done|]. intros c' _ H3. eapply bind_mono; [exact H3|done|]. intros [] _ H4.
  eapply bind_mono; [exact H4|done|]. intros [] _ H5. eapply bind_mono; [exact H5| |done].
  intros ev. apply raw_event_mono.
Qed.
Lemma records_of_mono ids rs : records_of st ids = Ok rs → records_of st' ids = Ok rs.
Proof.
  apply map_res_mono. intros x r H. eapply bind_mono; [exact H| |done]. intros c. apply canonical_record_mono.
Qed.
Lemma run_mono id d : run st id = Ok d → run st' id = Ok d.
Proof.
  unfold run. intros H. eapply bind_mono; [exact H|intros text; apply lookup_mono, Hsub|].
  intros text _ H1. eapply bind_mono; [exact H1|done|]. intros data _ H2. eapply bind_mono; [exact H2|done|].
  intros [] _ H3. eapply bind_mono; [exact H3|done|]. intros d' _ H4. eapply bind_mono; [exact H4|done|].
  intros lefts _ H5. eapply bind_mono; [exact H5|done|]. intros rights _ H6. eapply bind_mono; [exact H6| |done].
  intros cs. apply map_res_mono, canonical_record_mono.
Qed.
End monotone.

(** ** The operations that write *)

Inductive op :=
| Capture (payload source : string) (now : Z)
| Save (records : list CanonicalRecord)
| Reconcile (left_ids right_ids : list string) (engine_version : string) (tolerance : option Tolerance).
Definition apply (st : Store) (o : op) : Store :=
  match o with
  | Capture payload source now => (capture st payload source now).1
  | Save records => (save_records st records).1
  | Reconcile l r v t => (store_reconcile st l r v t).1
  end.
Definition applies (st : Store) (ops : list op) : Store := foldl apply st ops.

Lemma insert_or_ignore_sub {A} k (row : A) t : t ⊆ insert_or_ignore k row t.
Proof. unfold insert_or_ignore. destruct (t !! k) eqn:E; [done|]. by apply insert_subseteq. Qed.
Lemma insert_or_ignore_get {A} k (row : A) t : ∃ row', insert_or_ignore k row t !! k = Some row'.
Proof.
  unfold insert_or_ignore. destruct (t !! k) as [row'|] eqn:E; [by exists row'|]. exists row. by rewrite lookup_insert_eq.
Qed.
Lemma save_one_inv st c st' : save_one st c = Ok st' →
  (∃ ev, raw_event st (raw_event_id c) = Ok ev) ∧ _validate_canonical c = Ok tt ∧
  raw_events st' = raw_events st ∧ reconciliation_runs st' = reconciliation_runs st ∧
  canonical_records st' = insert_or_ignore (rid (record c))
    (mkCanonicalRow (raw_event_id c) (_json (to_dict c))) (canonical_records st) ∧
  ∃ row, canonical_records st' !! rid (record c) = Some row ∧ w_data row = _json (to_dict c).
Proof.
  unfold save_one. intros H. apply bind_Ok in H as (ev & Hev & H). apply bind_Ok in H as ([] & Hv & H).
  cbn zeta in H. apply bind_Ok in H as (row & Hrow%get_Ok & H).
  apply bind_Ok in H as (_ & Heq%check_Ok%bool_decide_eq_true & [= <-]). cbn.
  split_and!; [by exists ev|done..|]. by exists row.
Qed.
Lemma save_one_sub st c st' : save_one st c = Ok st' → sub st st'.
Proof.
  intros (_ & _ & Er & Eu & Ec & _)%save_one_inv. split; rewrite ?Er, ?Eu, ?Ec; [done| |done].
  apply insert_or_ignore_sub.
Qed.
Lemma saves_sub cs st st' : fold_res save_one cs st = Ok st' → sub st st'.
Proof.
  revert st. induction cs as [|c cs IH]; intros st H; cbn [fold_res] in H; [by injection H as <-|].
  apply bind_Ok in H as (st1 & H1%save_one_sub & H%IH). by etrans.
Qed.
Lemma apply_sub st o : sub st (apply st o).
Proof.
  destruct o as [p s now|cs|l r v t]; cbn [apply].
  - unfold capture. destruct (negb (nonempty s)); [done|]. split; cbn; [apply insert_or_ignore_sub|done..].
  - unfold save_records. destruct (fold_res save_one cs st) as [st'|e] eqn:E; [by apply saves_sub in E|done].
  - unfold store_reconcile. destruct (plan st l r v t) as [[data result]|e]; [|done].
    split; cbn; [done..|apply insert_or_ignore_sub].
Qed.
Lemma applies_sub ops st : sub st (applies st ops).
Proof.
  revert st. induction ops as [|o ops IH]; intros st; [done|]. cbn.
  etrans; [apply apply_sub|apply IH].
Qed.

(** ** Lemmas: a run and its document *)

Lemma loads_json v : wf v = true → loads (_json v) = Ok (norm v).
Proof. apply loads_dumps. Qed.
Lemma hash_norm v : _hash (norm v) = _hash v.
Proof. unfold _hash, _json. by rewrite dumps_norm. Qed.

Definition run_members (version : string) (lefts rights : list string) (tol : Tolerance)
    (result : MatchResult) : list (string * json) :=
  [("schema_version", JInt 1); ("engine_version", JStr version);
   ("left_ids", JArr (JStr <$> sorted lefts)); ("right_ids", JArr (JStr <$> sorted rights));
   ("tolerance", tolerance_data tol)]%string ++ result_members result.
(** The document as it is read back. *)
Definition stored_members version lefts rights tol result : list (string * json) :=
  sorted_by fst ((λ kv, (kv.1, norm kv.2)) <$> run_members version lefts rights tol result).

Lemma wf_texts l : forallb wf (JStr <$> l) = true.
Proof. apply forallb_elem. by intros x (s & -> & _)%list_elem_of_fmap. Qed.
Lemma wf_JOpt o : wf (JOpt o) = true.
Proof. by destruct o. Qed.
Lemma run_keys version lefts rights tol result :
  (run_members version lefts rights tol result).*1 =
  ["schema_version"; "engine_version"; "left_ids"; "right_ids"; "tolerance"; "ruleset_id"; "result_hash";
   "matches"; "rejects"; "counters"]%string.
Proof. done. Qed.
Lemma run_keys_NoDup version lefts rights tol result : NoDup (run_members version lefts rights tol result).*1.
Proof. rewrite run_keys. by apply (bool_decide_unpack _). Qed.
Lemma result_members_wf result : forallb (λ kv, wf kv.2) (result_members result) = true.
Proof.
  cbn [forallb result_members wf snd]. rewrite !andb_true_iff. split_and!; try done.
  - apply forallb_elem. intros x (m & -> & _)%list_elem_of_fmap. cbn [match_data wf forallb snd].
    by rewrite wf_texts.
  - apply forallb_elem. intros x (m & -> & _)%list_elem_of_fmap. cbn [reject_data wf forallb snd].
    by rewrite wf_JOpt.
  - apply bool_decide_eq_true. rewrite <- list_fmap_compose. apply NoDup_fst_map_to_list.
  - apply forallb_elem. by intros x (kv & -> & _)%list_elem_of_fmap.
Qed.
Lemma run_data_wf version lefts rights tol result : wf (run_data version lefts rights tol result) = true.
Proof.
  unfold run_data. cbn [wf]. apply andb_true_iff. split; [apply bool_decide_eq_true, run_keys_NoDup|].
  rewrite forallb_app, result_members_wf. cbn [forallb wf snd]. by rewrite !wf_texts.
Qed.
Lemma run_data_norm version lefts rights tol result :
  norm (run_data version lefts rights tol result) = JObj (stored_members version lefts rights tol result).
Proof. done. Qed.
Lemma stored_get version lefts rights tol result k :
  od_get k (stored_members version lefts rights tol result) =
  norm <$> od_get k (run_members version lefts rights tol result).
Proof. apply od_get_norm, run_keys_NoDup. Qed.

Lemma texts_norm l : norm (JArr (JStr <$> l)) = JArr (JStr <$> l).
Proof. cbn [norm]. by rewrite <- list_fmap_compose. Qed.
Lemma ids_item_texts k d l : od_get k d = Some (JArr (JStr <$> l)) → ids_item k d = Ok l.
Proof.
  intros E. unfold ids_item. rewrite E. cbn [get mbind res_bind].
  apply map_res_Forall2. by apply Forall2_fmap_l, Forall_Forall2_diag, Forall_true.
Qed.
Lemma tolerance_of_data t : tolerance_of (norm (tolerance_data t)) = Ok t.
Proof.
  destruct t as [a r d s b]. unfold tolerance_of, decimal_item. simpl. rewrite !parse_str_decimal. done.
Qed.

(** Reading back the parts of a stored run. *)
Section stored.
Context (version : string) (lefts rights : list string) (tol : Tolerance) (result : MatchResult).
Notation d := (stored_members version lefts rights tol result).
Lemma stored_lefts : ids_item "left_ids" d = Ok (sorted lefts).
Proof. apply ids_item_texts. rewrite stored_get. simpl. by rewrite <- list_fmap_compose. Qed.
Lemma stored_rights : ids_item "right_ids" d = Ok (sorted rights).
Proof. apply ids_item_texts. rewrite stored_get. simpl. by rewrite <- list_fmap_compose. Qed.
Lemma stored_result : map_res (λ kv : string * json, v ← get (od_get kv.1 d) KeyError; Ok (kv.1, v))
  (result_members result) = Ok ((λ kv, (kv.1, norm kv.2)) <$> result_members result).
Proof.
  apply map_res_Forall2. apply Forall2_fmap_r, Forall_Forall2_diag, Forall_forall. intros [k v] Hin.
  rewrite stored_get. cbn [fst snd]. rewrite (od_get_in k _ v); [done|apply run_keys_NoDup|].
  unfold run_members. apply elem_of_app. by right.
Qed.
Lemma result_text : _json (_result_data result) = _json (JObj ((λ kv, (kv.1, norm kv.2)) <$> result_members result)).
Proof. unfold _json, _result_data. rewrite dumps_values; [done|]. intros kv _. apply dumps_norm. Qed.
End stored.

Lemma plan_inv st l r version otol data result : plan st l r version otol = Ok (data, result) →
  data = run_data version l r (default Tolerance_default otol) result ∧
  ∃ left right, records_of st (sorted l) = Ok left ∧ records_of st (sorted r) = Ok right ∧
    reconcile left right (Some (default Tolerance_default otol)) = Ok result.
Proof.
  unfold plan. intros H. do 3 apply bind_Ok in H as ([] & _ & H).
  apply bind_Ok in H as (left & Hl & H). apply bind_Ok in H as (right & Hr & H).
  apply bind_Ok in H as (result' & E & H). injection H as <- <-. split; [done|]. by exists left, right.
Qed.

(** A run that was added is read as its document. *)
Lemma run_stored st id version lefts rights tol result d :
  reconciliation_runs st !! id = Some (_json (run_data version lefts rights tol result)) →
  run st id = Ok d → d = stored_members version lefts rights tol result.
Proof.
  unfold run. intros Ht H. rewrite Ht in H. cbn [get mbind res_bind] in H.
  rewrite loads_json in H by apply run_data_wf. cbn [mbind res_bind] in H.
  apply bind_Ok in H as ([] & _ & H). rewrite run_data_norm in H. cbn [as_dict mbind res_bind] in H.
  do 3 apply bind_Ok in H as (? & _ & H). by injection H as <-.
Qed.

(** ** The invariant of a store written through the operations *)

(** What the caller passes: the clock and the dates are within the calendar. *)
Definition valid_op (o : op) : Prop :=
  match o with
  | Capture _ _ now => valid_date (now / DAY_US)
  | Save cs => ∀ c, c ∈ cs → valid_date (value_date (record c))
  | Reconcile _ _ _ _ => True
  end.
Definition raw_ok (id : string) (row : RawRow) : Prop :=
  Sha256.hexdigest (w_payload row) = w_sha256 row ∧
  _hash (JArr [JStr (w_source row); JStr (w_sha256 row)]) = id ∧
  ∃ us, valid_date (us / DAY_US) ∧ w_received_at row = utc_isoformat us.
Record store_ok (st : Store) : Prop := {
  raws_ok : ∀ id row, raw_events st !! id = Some row → raw_ok id row;
  canonicals_ok : ∀ id row, canonical_records st !! id = Some row → ∃ c,
    rid (record c) = id ∧ w_raw_id row = raw_event_id c ∧ w_data row = _json (to_dict c) ∧
    valid_date (value_date (record c)) ∧ _validate_canonical c = Ok tt ∧
    is_Some (raw_events st !! raw_event_id c)
}.

Lemma raw_event_ok st id : store_ok st → is_Some (raw_events st !! id) → ∃ ev, raw_event st id = Ok ev.
Proof.
  intros Hst [row Hrow]. destruct (raws_ok _ Hst _ _ Hrow) as (H1 & H2 & us & Hus & E).
  unfold raw_event. rewrite Hrow. cbn [get mbind res_bind]. rewrite !bool_decide_true by done.
  cbn [andb check mbind res_bind]. rewrite E, datetime_text_roundtrip by done. by eexists.
Qed.
Lemma json_dict_inj c c' : valid_date (value_date (record c)) → valid_date (value_date (record c')) →
  _json (to_dict c) = _json (to_dict c') → c = c'.
Proof.
  intros Hc Hc' E. pose proof (loads_json _ (to_dict_wf c)) as H. rewrite E, (loads_json _ (to_dict_wf c')) in H.
  assert (norm (to_dict c') = norm (to_dict c)) as En by congruence.
  pose proof (canonical_of_to_dict c Hc) as H1. rewrite <- En in H1.
  rewrite canonical_of_to_dict in H1 by done. by injection H1.
Qed.
(** A stored record is read back. *)
Lemma canonical_record_ok st c : store_ok st → valid_date (value_date (record c)) →
  (∃ row, canonical_records st !! rid (record c) = Some row ∧ w_data row = _json (to_dict c)) →
  canonical_record st (rid (record c)) = Ok c.
Proof.
  intros Hst Hd (row & Hrow & Edata).
  destruct (canonicals_ok _ Hst _ _ Hrow) as (c' & _ & Eraw & Edata' & Hd' & Hv & Hraw).
  rewrite Edata in Edata'. apply json_dict_inj in Edata' as <-; [|done..].
  unfold canonical_record. rewrite Hrow. cbn [get mbind res_bind].
  rewrite Edata, loads_json by apply to_dict_wf. cbn [mbind res_bind].
  rewrite canonical_of_to_dict by done. cbn [mbind res_bind]. rewrite !bool_decide_true by done.
  cbn [andb check mbind res_bind]. rewrite Hv. cbn [mbind res_bind].
  destruct (raw_event_ok st _ Hst Hraw) as [ev ->]. done.
Qed.

Lemma raw_event_row st id ev : raw_event st id = Ok ev → is_Some (raw_events st !! id).
Proof. unfold raw_event. intros (row & Hrow%get_Ok & _)%bind_Ok. by exists row. Qed.
Lemma save_one_ok st c st' : store_ok st → valid_date (value_date (record c)) → save_one st c = Ok st' → store_ok st'.
Proof.
  intros Hst Hd H. apply save_one_inv in H as ((ev & Hev%raw_event_row) & Hv & Er & _ & Ec & _).
  split; [rewrite Er; apply Hst|]. intros id row. rewrite Er, Ec. unfold insert_or_ignore.
  destruct (canonical_records st !! rid (record c)) as [?|]; [apply Hst|].
  rewrite lookup_insert_Some. intros [[<- <-]|[_ H]]; [|by apply Hst]. exists c. done.
Qed.
Lemma saves_ok cs st st' : store_ok st → (∀ c, c ∈ cs → valid_date (value_date (record c))) →
  fold_res save_one cs st = Ok st' → store_ok st'.
Proof.
  revert st. induction cs as [|c cs IH]; intros st Hst Hd H; cbn [fold_res] in H; [by injection H as <-|].
  apply bind_Ok in H as (st1 & H1 & H). apply (IH st1); [|intros; apply Hd; by right|done].
  eapply save_one_ok; [exact Hst| |exact H1]. apply Hd. left.
Qed.
Lemma apply_ok st o : store_ok st → valid_op o → store_ok (apply st o).
Proof.
  intros Hst Ho. destruct o as [p s now|cs|l r v t]; cbn [apply valid_op] in *.
  - unfold capture. destruct (negb (nonempty s)); [done|]. cbn [fst].
    set (id := _hash _). split; cbn.
    + intros id' row. unfold insert_or_ignore. destruct (raw_events st !! id); [apply Hst|].
      rewrite lookup_insert_Some. intros [[<- <-]|[_ H]]; [|by apply Hst]. split_and!; [done..|]. by exists now.
    + intros id' row Hrow. destruct (canonicals_ok _ Hst _ _ Hrow) as (c & ? & ? & ? & ? & ? & [raw Hraw]).
      exists c. split_and!; try done. exists raw. by eapply lookup_weaken, insert_or_ignore_sub.
  - unfold save_records. destruct (fold_res save_one cs st) as [st'|e] eqn:E; [|done]. cbn [fst].
    by eapply saves_ok.
  - unfold store_reconcile. destruct (plan st l r v t) as [[data result]|e]; [|done]. cbn [fst]. split; cbn; apply Hst.
Qed.
Lemma applies_ok ops st : store_ok st → Forall valid_op ops → store_ok (applies st ops).
Proof.
  intros Hst Hops. revert st Hst. induction Hops as [|o ops Ho _ IH]; intros st Hst; [done|]. cbn.
  by apply IH, apply_ok.
Qed.
(** What was saved reads back. *)
Lemma saved_read cs st st' c : store_ok st → (∀ c, c ∈ cs → valid_date (value_date (record c))) →
  fold_res save_one cs st = Ok st' → c ∈ cs → canonical_record st' (rid (record c)) = Ok c.
Proof.
  intros Hst Hcs E Hc. pose proof (saves_ok _ _ _ Hst Hcs E) as Hst'.
  apply canonical_record_ok; [done|by apply Hcs|]. clear Hst'.
  revert st Hst E. induction cs as [|c' cs IH]; intros st Hst E; [by apply not_elem_of_nil in Hc|].
  cbn [fold_res] in E. apply bind_Ok in E as (st1 & E1 & E). apply elem_of_cons in Hc as [-> |Hc].
  - destruct (save_one_inv _ _ _ E1) as (_ & _ & _ & _ & _ & row & Hrow & Hdata). exists row. split; [|done].
    eapply lookup_weaken; [exact Hrow|]. by apply (sub_canonical _ _ (saves_sub _ _ _ E)).
  - apply (IH ltac:(intros; apply Hcs; by right) Hc st1); [|done].
    eapply save_one_ok; [exact Hst| |exact E1]. apply Hcs. left.
Qed.
Lemma empty_ok : store_ok empty_store.
Proof. split; intros ?? H; unfold empty_store in H; cbn in H; by rewrite lookup_empty in H. Qed.

(** ** Guarantees *)

(** C16: a stored run replays to the result it was stored with, decision for decision,
    whatever is captured, saved or reconciled afterwards: nothing the store does later
    changes what the run reads, and the document kept with it holds everything the
    engine needs. *)
Theorem replay_reproduces st l r version otol st1 pr ops :
  store_reconcile st l r version otol = (st1, Ok pr) → reconciliation_runs st !! run_id pr = None →
  store_replay (applies st1 ops) (run_id pr) version = Ok pr.
Proof.
  unfold store_reconcile. destruct (plan st l r version otol) as [[data result]|e] eqn:Ep; [|done].
  intros [= <- H]. apply bind_Ok in H as (d & Hrun & [= <-]). cbn [run_id]. intros Hnew.
  apply plan_inv in Ep as (-> & left & right & Hl & Hr & Hrec).
  set (tol := default Tolerance_default otol) in *. set (id := _hash _) in *. set (st1 := mkStore _ _ _) in *.
  assert (reconciliation_runs st1 !! id = Some (_json (run_data version l r tol result))) as Hrow.
  { unfold st1. cbn. unfold insert_or_ignore. rewrite Hnew. apply lookup_insert_eq. }
  pose proof (run_stored _ _ _ _ _ _ _ _ Hrow Hrun) as ->.
  assert (sub st st1) as Hs1 by (split; cbn; [done..|apply insert_or_ignore_sub]).
  pose proof (applies_sub ops st1) as Hs2. unfold store_replay.
  rewrite (run_mono _ _ Hs2 _ _ Hrun). cbn [mbind res_bind]. rewrite !stored_get. cbn [get].
  change (norm <$> od_get "engine_version"%string _) with (Some (JStr version)). cbn [get mbind res_bind].
  rewrite bool_decide_true by done. cbn [check mbind res_bind].
  change (norm <$> od_get "tolerance"%string _) with (Some (norm (tolerance_data tol))). cbn [get mbind res_bind].
  rewrite tolerance_of_data, stored_lefts, stored_rights. cbn [mbind res_bind].
  rewrite (records_of_mono _ _ Hs2 _ _ (records_of_mono _ _ Hs1 _ _ Hl)).
  rewrite (records_of_mono _ _ Hs2 _ _ (records_of_mono _ _ Hs1 _ _ Hr)). cbn [mbind res_bind].
  rewrite Hrec. cbn [mbind res_bind]. rewrite stored_result. cbn [mbind res_bind].
  rewrite <- result_text. by rewrite bool_decide_true.
Qed.


(** C17: records round-trip through the store: once a set of canonical records is saved,
    every one of them reads back exactly -- amount with its exponent, date, optional
    fields, provenance -- then and after any later operation. *)
Theorem records_roundtrip ops cs st later c : Forall valid_op ops → valid_op (Save cs) →
  save_records (applies empty_store ops) cs = (st, Ok tt) → c ∈ cs →
  canonical_record (applies st later) (rid (record c)) = Ok c.
Proof.
  intros Hops Hcs H Hc. eapply canonical_record_mono; [apply applies_sub|].
  pose proof (applies_ok ops _ empty_ok Hops) as Hst. unfold save_records in H.
  destruct (fold_res save_one cs (applies empty_store ops)) as [st'|e] eqn:E; [|done]. injection H as <-.
  by eapply saved_read.
Qed.

(** C25: whatever the rows hold, tampered or not, a record that is returned is authentic:
    its identity is the hash of its content and provenance, and its raw event is there,
    under the hash of its source and payload. *)
Theorem records_authentic st id c : canonical_record st id = Ok c →
  id = _hash (JArr [JStr (raw_event_id c); JStr (source_locator c); JStr (adapter_version c);
    JStr (normalizer_version c); _record_data (mkRec "" (account (record c)) (amount (record c))
      (value_date (record c)) (reference (record c)) (currency (record c)))]) ∧
  ∃ e, raw_event st (raw_event_id c) = Ok e ∧ e_raw_event_id e = raw_event_id c ∧
    e_raw_event_id e = _hash (JArr [JStr (e_source e); JStr (Sha256.hexdigest (payload e))]).
Proof.
  unfold canonical_record. intros H. apply bind_Ok in H as (row & _ & H). apply bind_Ok in H as (data & _ & H).
  apply bind_Ok in H as (c' & _ & H). apply bind_Ok in H as (_ & [Hid _]%check_Ok%andb_true_iff & H).
  apply bool_decide_eq_true in Hid. apply bind_Ok in H as ([] & Hv & H).
  apply bind_Ok in H as (e & He & [= ->]). split.
  - rewrite <- Hid. unfold _validate_canonical, create in Hv. apply bind_Ok in Hv as (x & Hx & Hv%check_Ok).
    apply bind_Ok in Hx as (_ & _ & Hx). apply bind_Ok in Hx as (_ & _ & [= <-]).
    unfold canonical_eqb, rec_eqb in Hv. rewrite !andb_true_iff in Hv.
    destruct Hv as [[[[[[[[[Hr _] _] _] _] _] _] _] _] _]. by apply bool_decide_eq_true in Hr.
  - exists e. split; [done|]. unfold raw_event in He. apply bind_Ok in He as (raw & _ & He).
    apply bind_Ok in He as (_ & [H1 H2]%check_Ok%andb_true_iff & He). apply bool_decide_eq_true in H1, H2.
    apply bind_Ok in He as (us & _ & [= <-]). cbn. by rewrite H1, H2.
Qed.

(** Evidence is captured once and kept: capturing the same bytes from the same source
    again, after any operations, returns the original event with its original time and
    leaves the store as it is. *)
Theorem capture_once st p s t st1 e ops t' : capture st p s t = (st1, Ok e) →
  capture (applies st1 ops) p s t' = (applies st1 ops, Ok e).
Proof.
  unfold capture. destruct (negb (nonempty s)); [done|]. set (id := _hash _).
  intros [= <- He]. set (st1 := mkStore _ _ _) in *. set (st2 := applies st1 ops).
  pose proof (applies_sub ops st1) as Hsub. destruct (raw_event_row _ _ _ He) as [row Hrow].
  assert (raw_events st2 !! id = Some row) as Hrow2 by (by eapply lookup_weaken; [|apply Hsub]).
  assert (mkStore (insert_or_ignore id (mkRawRow s (utc_isoformat t') (Sha256.hexdigest p) p) (raw_events st2))
    (canonical_records st2) (reconciliation_runs st2) = st2) as ->.
  { unfold insert_or_ignore. rewrite Hrow2. by destruct st2. }
  f_equal. by eapply raw_event_mono.
Qed.

Lemma canonical_record_total st id : store_ok st → is_Some (canonical_records st !! id) →
  ∃ c, canonical_record st id = Ok c.
Proof.
  intros Hst [row Hrow]. destruct (canonicals_ok _ Hst _ _ Hrow) as (c & <- & _ & Hdata & Hd & _).
  exists c. apply canonical_record_ok; [done..|]. by exists row.
Qed.
Lemma records_of_total st ids : (∀ x, x ∈ ids → ∃ c, canonical_record st x = Ok c) →
  ∃ rs, records_of st ids = Ok rs ∧ length rs = length ids.
Proof.
  intros H. destruct (map_res_total (λ key, c ← canonical_record st key; Ok (record c)) ids) as [rs Hrs].
  { intros x Hx. destruct (H x Hx) as [c ->]. by eexists. }
  exists rs. split; [done|]. apply map_res_Forall2, Forall2_length in Hrs. done.
Qed.

(** On a store written through its operations, a reconciliation of distinct stored
    records succeeds: every record reads back, the engine runs, and the document that is
    stored passes its own integrity check. *)
Theorem reconcile_stored ops l r version otol : Forall valid_op ops → version ≠ ""%string →
  NoDup l → NoDup r → (∀ x, x ∈ l → x ∉ r) → Z.of_nat (length r) <= 10 ^ 20 →
  let st := applies empty_store ops in
  (∀ x, x ∈ l ++ r → is_Some (canonical_records st !! x)) →
  ∃ data result, plan st l r version otol = Ok (data, result) ∧
    (reconciliation_runs st !! _hash data = None →
     ∃ st1, store_reconcile st l r version otol = (st1, Ok (mkProvenanced (_hash data) result)) ∧
       reconciliation_runs st1 !! _hash data = Some (_json data)).
Proof.
  intros Hops Hver Hl Hr Hdisj Hlen st Hids. pose proof (applies_ok ops _ empty_ok Hops) as Hst. fold st in Hst.
  clearbody st. assert (∀ x, x ∈ l ++ r → ∃ c, canonical_record st x = Ok c) as Hread
    by (intros x Hx; by apply canonical_record_total, Hids).
  set (tol := default Tolerance_default otol).
  destruct (records_of_total st (sorted l)) as (left & Eleft & _).
  { intros x Hx%elem_of_sorted_by. apply Hread, elem_of_app. by left. }
  destruct (records_of_total st (sorted r)) as (right & Eright & Elen).
  { intros x Hx%elem_of_sorted_by. apply Hread, elem_of_app. by right. }
  destruct (reconcile_runs left right (Some tol)) as [result Eres].
  { rewrite Elen. unfold sorted. by rewrite length_sorted_by. }
  assert (plan st l r version otol = Ok (run_data version l r tol result, result)) as Ep.
  { unfold plan, nonempty. rewrite (bool_decide_false (version = ""%string)) by done.
    rewrite !bool_decide_true by done. cbn [negb andb check mbind res_bind].
    assert (forallb (λ x, negb (bool_decide (x ∈ r))) l = true) as ->.
    { apply forallb_elem. intros x Hx. by rewrite bool_decide_false by by apply Hdisj. }
    cbn [check mbind res_bind]. rewrite Eleft, Eright. cbn [mbind res_bind]. fold tol. by rewrite Eres. }
  exists (run_data version l r tol result), result. split; [done|]. intros Hnew.
  unfold store_reconcile. rewrite Ep. set (st1 := mkStore _ _ _). exists st1.
  assert (reconciliation_runs st1 !! _hash (run_data version l r tol result) =
    Some (_json (run_data version l r tol result))) as Hrow.
  { unfold st1. cbn [reconciliation_runs]. unfold insert_or_ignore. rewrite Hnew. apply lookup_insert_eq. }
  split; [|exact Hrow]. f_equal.
  assert (sub st st1) as Hsub by (split; [reflexivity|reflexivity|apply insert_or_ignore_sub]).
  unfold run. rewrite Hrow. cbn [get mbind res_bind]. rewrite loads_json by apply run_data_wf. cbn [mbind res_bind].
  rewrite hash_norm, bool_decide_true by done. cbn [check mbind res_bind]. rewrite run_data_norm.
  cbn [as_dict mbind res_bind]. rewrite stored_lefts, stored_rights. cbn [mbind res_bind].
  destruct (map_res_total (canonical_record st1) (sorted l ++ sorted r)) as [cs ->]; [|done].
  intros x Hx. assert (x ∈ l ++ r) as [c Hc]%Hread.
  { apply elem_of_app. apply elem_of_app in Hx as [Hx%elem_of_sorted_by|Hx%elem_of_sorted_by]; auto. }
  exists c. by eapply canonical_record_mono.
Qed.

(** ** A concrete store, for the witnesses *)

Local Transparent Sha256.hexdigest dumps loads.
Definition ex_now : Z := 738000 * DAY_US + 42.
Definition ex_raw (payload source : string) : string :=
  _hash (JArr [JStr source; JStr (Sha256.hexdigest payload)]).
Definition ex_record (payload source : string) : CanonicalRecord :=
  match create (ex_raw payload source) "/Entry[1]" "adapter-1" "normalizer-1" "ACC" (lit 12500 2) 738000
          (Some "EUR"%string) None with
  | Ok c => c
  | Raise _ => mkCanonical (mkRec "" "" d0 1 None None) "" "" "" ""
  end.
Definition ex_bank : CanonicalRecord := ex_record "camt" "bank".
Definition ex_books : CanonicalRecord := ex_record "ledger" "books".
Definition ex_captures : list op := [Capture "camt" "bank" ex_now; Capture "ledger" "books" (ex_now + 1)].
Definition ex_ops : list op := ex_captures ++ [Save [ex_bank; ex_books]].
Definition ex_left : list string := [rid (record ex_bank)].
Definition ex_right : list string := [rid (record ex_books)].

Lemma ex_valid : Forall valid_op ex_ops.
Proof.
  apply Forall_cons; split; [split; vm_compute; discriminate|].
  apply Forall_cons; split; [split; vm_compute; discriminate|].
  apply Forall_cons; split; [|by apply Forall_nil]. intros c Hc.
  rewrite !elem_of_cons, elem_of_nil in Hc. destruct Hc as [-> |[-> |[]]]; split; vm_compute; discriminate.
Qed.
Example ex_matched :
  match (store_reconcile (applies empty_store ex_ops) ex_left ex_right "1.0" None).2 with
  | Ok pr => (λ m, (rule m, str_decimal (score m))) <$> matches (presult pr)
  | Raise _ => []
  end = [(M1_EXACT, "0.900000"%string)].
Proof. vm_compute. reflexivity. Qed.

Lemma ex_runs : reconciliation_runs (applies empty_store ex_ops) = ∅.
Proof. vm_compute. reflexivity. Qed.
Lemma replay_reproduces_witness : ∃ st1 pr,
  store_reconcile (applies empty_store ex_ops) ex_left ex_right "1.0" None = (st1, Ok pr) ∧
  store_replay (applies st1 [Capture "more" "bank" ex_now]) (run_id pr) "1.0" = Ok pr.
Proof.
  destruct (store_reconcile (applies empty_store ex_ops) ex_left ex_right "1.0" None) as [st1 [pr|e]] eqn:E;
    [|exfalso; assert (match (store_reconcile (applies empty_store ex_ops) ex_left ex_right "1.0" None).2 with
        Ok _ => True | Raise _ => False end) as H by (vm_compute; exact I); rewrite E in H; exact H].
  exists st1, pr. split; [reflexivity|].
  apply (replay_reproduces _ _ _ _ _ _ _ [Capture "more" "bank" ex_now] E).
  rewrite ex_runs. apply lookup_empty.
Defined.
Lemma ex_saved : ∃ st, save_records (applies empty_store ex_captures) [ex_bank; ex_books] = (st, Ok tt).
Proof.
  destruct (save_records (applies empty_store ex_captures) [ex_bank; ex_books]) as [st [[]|e]] eqn:E; [by exists st|].
  exfalso. assert (match (save_records (applies empty_store ex_captures) [ex_bank; ex_books]).2 with
    Ok _ => True | Raise _ => False end) as H by (vm_compute; exact I). by rewrite E in H.
Qed.
Lemma records_roundtrip_witness : ∃ st, save_records (applies empty_store ex_captures) [ex_bank; ex_books] = (st, Ok tt) ∧
  canonical_record (applies st [Capture "more" "bank" ex_now]) (rid (record ex_books)) = Ok ex_books.
Proof.
  destruct ex_saved as [st E]. exists st. split; [exact E|].
  pose proof ex_valid as H. unfold ex_ops in H. apply Forall_app in H as [Hops Hsave].
  apply Forall_cons in Hsave as [Hsave _].
  apply (records_roundtrip ex_captures [ex_bank; ex_books] st); [exact Hops|exact Hsave|exact E|right; left].
Defined.
Lemma ex_read : canonical_record (applies empty_store ex_ops) (rid (record ex_bank)) = Ok ex_bank.
Proof. vm_compute. reflexivity. Qed.
Lemma records_authentic_witness : ∃ e, raw_event (applies empty_store ex_ops) (raw_event_id ex_bank) = Ok e ∧
  e_raw_event_id e = raw_event_id ex_bank ∧
  e_raw_event_id e = _hash (JArr [JStr (e_source e); JStr (Sha256.hexdigest (payload e))]).
Proof. exact (proj2 (records_authentic _ _ _ ex_read)). Defined.
Lemma ex_capture : ∃ st e, capture empty_store "camt" "bank" ex_now = (st, Ok e).
Proof. eexists _, _. vm_compute. reflexivity. Qed.
Lemma capture_once_witness : ∃ st e, capture empty_store "camt" "bank" ex_now = (st, Ok e) ∧
  capture (applies st ex_ops) "camt" "bank" (ex_now + 99) = (applies st ex_ops, Ok e).
Proof.
  destruct ex_capture as (st & e & E). exists st, e. split; [exact E|].
  exact (capture_once _ _ _ _ _ _ ex_ops (ex_now + 99) E).
Defined.
Lemma reconcile_stored_witness : ∃ data result,
  plan (applies empty_store ex_ops) ex_left ex_right "1.0" None = Ok (data, result) ∧
  (reconciliation_runs (applies empty_store ex_ops) !! _hash data = None →
   ∃ st1, store_reconcile (applies empty_store ex_ops) ex_left ex_right "1.0" None =
     (st1, Ok (mkProvenanced (_hash data) result)) ∧ reconciliation_runs st1 !! _hash data = Some (_json data)).
Proof.
  apply (reconcile_stored ex_ops ex_left ex_right "1.0" None ex_valid);
    [discriminate|apply NoDup_singleton|apply NoDup_singleton| |vm_compute; discriminate|].
  - unfold ex_left, ex_right. intros x Hx Hy. apply list_elem_of_singleton in Hx, Hy. rewrite Hx in Hy.
    vm_compute in Hy. discriminate Hy.
  - unfold ex_left, ex_right. intros x Hx. apply elem_of_app in Hx.
    rewrite !list_elem_of_singleton in Hx. destruct Hx as [Hx|Hx]; rewrite Hx; vm_compute; eexists; reflexivity.
Defined.
