(* ===== verification/Camt053.v ===== *)
(** * Camt053: bank statements become canonical records

    [adapters/camt053.py].  The XML parser (expat, with document types refused) is the
    argument [fromstring]: it turns the payload into a tree of elements or raises.  The
    clock of [capture] is an argument.  Messages leave out what the source interpolates,
    apart from the locator of an entry. *)

From S2P Require Import Prelude Digest Numeric DecimalText Json Calendar Models Rules Provenance ProvenanceTheorems.

(** ** Elements and text *)

Inductive Element := El (tag : string) (attrib : list (string * string)) (text : option string) (children : list Element).
Definition tag (n : Element) : string := let 'El t _ _ _ := n in t.
Definition attrib (n : Element) : list (string * string) := let 'El _ a _ _ := n in a.
Definition text (n : Element) : option string := let 'El _ _ t _ := n in t.
Definition children (n : Element) : list Element := let 'El _ _ _ c := n in c.

Definition NAMESPACE : string := "urn:iso:std:iso:20022:tech:xsd:camt.053.001.08".
Definition ADAPTER_VERSION : string := "camt.053.001.08/entry-v1".
Definition NORMALIZER_VERSION : string := "booked-value-date-signed-entry/no-reference-v1".
Definition qualified (name : string) : string := ("{" +:+ NAMESPACE +:+ "}" +:+ name)%string.

(** The characters of a UTF-8 text: a byte that does not continue one starts the next. *)
Definition continues (c : ascii) : bool := (N_of_ascii c / 64 =? 2)%N.
Fixpoint characters (s : string) : list string :=
  match s with
  | EmptyString => []
  | String c r =>
      match characters r with
      | (String d _ as x) :: xs => if continues d then String c x :: xs else String c "" :: x :: xs
      | xs => String c "" :: xs
      end
  end.
(** [str.isspace] of a character. *)
Definition code (u : N) : string := utf8 u.
Definition spaces : list string := code <$>
  ([9; 10; 11; 12; 13; 28; 29; 30; 31; 32; 133; 160; 5760; 8192; 8193; 8194; 8195; 8196; 8197; 8198; 8199;
    8200; 8201; 8202; 8232; 8233; 8239; 8287; 12288]%N).
Fixpoint drop_spaces (l : list string) : list string :=
  match l with c :: r => if bool_decide (c ∈ spaces) then drop_spaces r else l | [] => [] end.
(** [s.strip()] *)
Definition strip (s : string) : string :=
  join "" (rev (drop_spaces (rev (drop_spaces (characters s))))).

Definition _find (node : Element) (path : list string) : list Element :=
  foldl (λ nodes part, nodes ≫= λ n, List.filter (λ c, bool_decide (tag c = qualified part)) (children n))
    [node] path.
Definition _one (node : Element) (path : list string) : res Element :=
  match _find node path with
  | [n] => Ok n
  | _ => Raise (ValueError "expected exactly one element")
  end.
Definition stripped (node : Element) : string := strip (default ""%string (text node)).
Definition _text (node : Element) (path : list string) : res string :=
  n ← _one node path;
  let value := stripped n in
  _ ← check (nonempty value) (ValueError "empty element");
  Ok value.

(** ** Normalising *)

(** Digits, and optionally a point and digits. *)
Definition unsigned_decimal (s : string) : bool :=
  match span_digits s with
  | (""%string, _) => false
  | (_, ""%string) => true
  | (_, String c r) =>
      Ascii.eqb c "." && match span_digits r with (String _ _, ""%string) => true | _ => false end
  end.
(** Four, two and two digits between hyphens. *)
Definition date_shape (s : string) : bool :=
  match ('(_, s) ← read_digits 4 0 s; s ← strip_prefix "-" s; '(_, s) ← read_digits 2 0 s;
         s ← strip_prefix "-" s; read_digits 2 0 s) with
  | Some (_, ""%string) => true
  | _ => false
  end.
Definition boolean_texts : list string := ["true"; "false"; "1"; "0"]%string.

Definition with_locator {A} (locator : string) (m : res A) : res A :=
  match m with
  | Raise (ValueError why) => Raise (ValueError (locator +:+ ": " +:+ why)%string)
  | m => m
  end.
Definition locator_of (statement_index entry_index : Z) : string :=
  ("/Document/BkToCstmrStmt/Stmt[" +:+ str_Z statement_index +:+ "]/Ntry[" +:+ str_Z entry_index +:+ "]")%string.
(** The body of the [try] of an entry. *)
Definition normalize_entry (raw : RawEvent) (account locator : string) (entry : Element) : res CanonicalRecord :=
  status ← _text entry ["Sts"; "Cd"]%string;
  _ ← check (bool_decide (status = "BOOK"%string)) (ValueError "only BOOK entries are supported");
  direction ← _text entry ["CdtDbtInd"]%string;
  _ ← check (bool_decide (direction ∈ ["CRDT"; "DBIT"]%string)) (ValueError "invalid CdtDbtInd");
  amount_node ← _one entry ["Amt"]%string;
  let amount_text := stripped amount_node in
  _ ← check (unsigned_decimal amount_text) (ValueError "Amt must be an unsigned decimal without exponent");
  amount ← get (parse_decimal amount_text) InvalidOperation;
  let amount := if bool_decide (direction = "DBIT"%string) then copy_negate amount else amount in
  value_node ← _one entry ["ValDt"]%string;
  _ ← check (match children value_node with [c] => bool_decide (tag c = qualified "Dt") | _ => false end)
        (ValueError "ValDt must contain only Dt; timestamps need a timezone policy");
  value_text ← _text value_node ["Dt"]%string;
  _ ← check (date_shape value_text) (ValueError "ValDt/Dt must be YYYY-MM-DD");
  value_date ← fromisoformat value_text;
  _ ← check (match _find entry ["RvslInd"]%string with
             | [] => true
             | [r] => bool_decide (stripped r ∈ boolean_texts)
             | _ => false
             end) (ValueError "invalid RvslInd");
  create (e_raw_event_id raw) locator ADAPTER_VERSION NORMALIZER_VERSION account amount value_date
    (Some (default ""%string (od_get "Ccy"%string (attrib amount_node)))) None.

Definition statement_account (statement : Element) : res string :=
  _ ← _text statement ["Id"]%string;
  account_id ← _one statement ["Acct"; "Id"]%string;
  match _find account_id ["IBAN"]%string ++ _find account_id ["Othr"; "Id"]%string with
  | [a] =>
      _ ← check (nonempty (stripped a)) (ValueError "exactly one nonempty account identifier is required");
      Ok (stripped a)
  | _ => Raise (ValueError "exactly one nonempty account identifier is required")
  end.
(** [enumerate(l, 1)] *)
Definition enumerated {A} (l : list A) : list (Z * A) := imap (λ i x, (1 + Z.of_nat i, x)) l.
Definition normalize_statement (raw : RawEvent) (s : Z * Element) : res (list CanonicalRecord) :=
  let '(statement_index, statement) := s in
  account ← statement_account statement;
  map_res (λ e : Z * Element, let locator := locator_of statement_index e.1 in
             with_locator locator (normalize_entry raw account locator e.2))
    (enumerated (_find statement ["Ntry"]%string)).

Section adapter.
Context (fromstring : string → res Element).

Definition normalize (raw : RawEvent) : res (list CanonicalRecord) :=
  root ← fromstring (payload raw);
  _ ← check (bool_decide (tag root = qualified "Document"))
        (ValueError "only CAMT.053.001.08 Document is supported");
  message ← _one root ["BkToCstmrStmt"]%string;
  let statements := _find message ["Stmt"]%string in
  _ ← check (match statements with [] => false | _ => true end) (ValueError "statement is missing");
  concat_res (normalize_statement raw) (enumerated statements).

(** [IngestionError] carries the evidence that was committed; [Raised] is any other exception. *)
Inductive failure := IngestionError (raw_event_id : string) (reason : string) | Raised (e : exn).
Definition ingest (st : Store) (payload source : string) (now : Z) : Store * (failure + list CanonicalRecord) :=
  let '(st1, captured) := capture st payload source now in
  match captured with
  | Raise e => (st1, inl (Raised e))
  | Ok raw =>
      match normalize raw with
      | Raise (ValueError why) => (st1, inl (IngestionError (e_raw_event_id raw) why))
      | Raise (ParseError why) => (st1, inl (IngestionError (e_raw_event_id raw) why))
      | Raise e => (st1, inl (Raised e))
      | Ok records =>
          let '(st2, saved) := save_records st1 records in
          match saved with
          | Ok _ => (st2, inr records)
          | Raise e => (st2, inl (Raised e))
          end
      end
  end.
End adapter.

Example strip_ex : strip (" " +:+ utf8 160 +:+ "a b" +:+ utf8 8239 +:+ String "010" "")%string = "a b"%string.
Proof. vm_compute. reflexivity. Qed.
Example unsigned_ex : unsigned_decimal <$> ["12.50"; "7"; "1."; ".5"; "-1"; "1e3"; ""]%string
  = [true; true; false; false; false; false; false].
Proof. reflexivity. Qed.

(** ** Lemmas: amounts *)

Lemma span_digits_spec s a b : span_digits s = (a, b) → s = (a +:+ b)%string ∧ all_digits a = true ∧
  starts_with_digit b = false.
Proof.
  revert a b. induction s as [|c s IH]; intros a b H; cbn [span_digits] in H; [by injection H as <- <-|].
  destruct (is_digit c) eqn:Ec; [|injection H as <- <-; by rewrite str_app_nil].
  destruct (span_digits s) as [d r]. injection H as <- <-. destruct (IH d r eq_refl) as (-> & Hd & Hr).
  rewrite str_app_cons. cbn [all_chars]. by rewrite Ec.
Qed.
(** An unsigned amount is a decimal without a sign. *)
Lemma unsigned_decimal_parses s : unsigned_decimal s = true → ∃ c e, parse_decimal s = Some (Dec false c e).
Proof.
  unfold unsigned_decimal. destruct (span_digits s) as [ip r] eqn:E. intros H.
  assert (ip ≠ ""%string) as Hne by by destruct ip.
  apply span_digits_spec in E as (-> & Hip & Hr).
  assert (read_sign (ip +:+ r) = (false, (ip +:+ r)%string)) as Hs.
  { apply read_sign_digits. rewrite starts_app by done. by apply starts_all. }
  destruct r as [|c r].
  - unfold parse_decimal. rewrite Hs, span_digits_app by done. cbn [read_fraction read_exponent].
    rewrite str_app_nil_r. destruct ip; [done|]. by eexists _, _.
  - assert ((match ip with "" => false | _ => true end)%string = true) as _ by by destruct ip.
    assert (Ascii.eqb c "." = true ∧ ∃ d fp, span_digits r = (String d fp, ""%string)) as (Ec & d & fp & Ef).
    { destruct ip; [done|]. apply andb_true_iff in H as [Hc H]. split; [done|].
      destruct (span_digits r) as [[|d fp] [|? ?]]; try done. by eexists _, _. }
    apply Ascii.eqb_eq in Ec as ->. unfold parse_decimal. rewrite Hs, span_digits_app by done.
    unfold read_fraction. cbn [Ascii.eqb Bool.eqb]. rewrite Ef. cbn [read_exponent].
    destruct ip; [done|]. rewrite str_app_cons. by eexists _, _.
Qed.

(** ** What an entry becomes *)

(** The record of a booked entry: its amount is signed by the direction, its date is the
    value date, and its identity is sealed with the raw event and the locator. *)
Definition booked (raw : RawEvent) (account locator : string) (entry : Element) (c : CanonicalRecord) : Prop :=
  _text entry ["Sts"; "Cd"]%string = Ok "BOOK"%string ∧
  raw_event_id c = e_raw_event_id raw ∧ source_locator c = locator ∧
  adapter_version c = ADAPTER_VERSION ∧ normalizer_version c = NORMALIZER_VERSION ∧
  Models.account (record c) = account ∧ reference (record c) = None ∧
  _validate_canonical c = Ok tt ∧ valid_date (value_date (record c)) ∧
  (∃ amount_node coef exp direction, _one entry ["Amt"]%string = Ok amount_node ∧
     parse_decimal (stripped amount_node) = Some (Dec false coef exp) ∧
     _text entry ["CdtDbtInd"]%string = Ok direction ∧ (direction = "CRDT"%string ∨ direction = "DBIT"%string) ∧
     amount (record c) = Dec (bool_decide (direction = "DBIT"%string)) coef exp ∧
     currency (record c) = Some (default ""%string (od_get "Ccy"%string (attrib amount_node)))) ∧
  (∃ date_node date_text, _one entry ["ValDt"]%string = Ok date_node ∧ _text date_node ["Dt"]%string = Ok date_text ∧
     fromisoformat date_text = Ok (value_date (record c))).

Lemma create_valid raw loc ad nm acc am d cur rf c : create raw loc ad nm acc am d cur rf = Ok c →
  _validate_canonical c = Ok tt.
Proof.
  intros H. pose proof H as Hc. unfold create in H. apply bind_Ok in H as (_ & _ & H).
  apply bind_Ok in H as (_ & _ & [= <-]). unfold _validate_canonical. cbn [record raw_event_id source_locator
    adapter_version normalizer_version account amount value_date currency reference].
  rewrite Hc. cbn [mbind res_bind]. unfold canonical_eqb. rewrite rec_eqb_refl, !bool_decide_true by done. done.
Qed.
Lemma normalize_entry_booked raw account locator entry c :
  normalize_entry raw account locator entry = Ok c → booked raw account locator entry c.
Proof.
  unfold normalize_entry. intros H.
  apply bind_Ok in H as (status & Hs & H). apply bind_Ok in H as (_ & ->%check_Ok%bool_decide_eq_true & H).
  apply bind_Ok in H as (direction & Hdir & H). apply bind_Ok in H as (_ & Hd%check_Ok%bool_decide_eq_true & H).
  apply bind_Ok in H as (an & Han & H). cbn zeta in H. apply bind_Ok in H as (_ & Hu%check_Ok & H).
  apply unsigned_decimal_parses in Hu as (coef & exp & Ep). rewrite Ep in H. cbn [get mbind res_bind] in H.
  apply bind_Ok in H as (dn & Hdn & H). apply bind_Ok in H as (_ & _ & H). apply bind_Ok in H as (dt & Hdt & H).
  apply bind_Ok in H as (_ & _ & H). apply bind_Ok in H as (d & Hdate & H). apply bind_Ok in H as (_ & _ & H).
  pose proof (create_valid _ _ _ _ _ _ _ _ _ _ H) as Hv.
  unfold create in H. apply bind_Ok in H as (_ & _ & H). apply bind_Ok in H as (_ & _ & [= <-]).
  unfold booked. cbn [record raw_event_id source_locator adapter_version normalizer_version Models.account
    reference amount currency value_date]. split_and!; try done.
  - by eapply fromisoformat_valid.
  - exists an, coef, exp, direction. split_and!; try done.
    + rewrite !elem_of_cons, elem_of_nil in Hd. naive_solver.
    + by destruct (bool_decide _).
  - by exists dn, dt.
Qed.

(** ** Lemmas: statements and entries *)

Lemma concat_res_Forall2 {A B C} (f : A → res (list B)) (g : A → list C) (R : C → B → Prop) l ys :
  (∀ x zs, f x = Ok zs → Forall2 R (g x) zs) → concat_res f l = Ok ys → Forall2 R (l ≫= g) ys.
Proof.
  intros Hf H. unfold concat_res in H. apply fmap_Ok in H as (zss & H & ->). apply map_res_Forall2 in H.
  induction H as [|x zs l zss Hx _ IH]; [constructor|]. rewrite bind_cons. cbn [mjoin list_join].
  apply Forall2_app; [by apply Hf|done].
Qed.
Lemma with_locator_Ok {A} loc (m : res A) a : with_locator loc m = Ok a → m = Ok a.
Proof. by destruct m as [|[]]. Qed.

(** Every entry of every statement of a message, with both indices. *)
Definition all_entries (message : Element) : list ((Z * Element) * (Z * Element)) :=
  enumerated (_find message ["Stmt"]%string) ≫= λ s, pair s <$> enumerated (_find s.2 ["Ntry"]%string).
Definition entry_booked (raw : RawEvent) (x : (Z * Element) * (Z * Element)) (c : CanonicalRecord) : Prop :=
  ∃ account, statement_account x.1.2 = Ok account ∧
    booked raw account (locator_of x.1.1 x.2.1) x.2.2 c.
Lemma normalize_statement_booked raw s cs : normalize_statement raw s = Ok cs →
  Forall2 (entry_booked raw) (pair s <$> enumerated (_find s.2 ["Ntry"]%string)) cs.
Proof.
  destruct s as [i statement]. unfold normalize_statement. intros H. apply bind_Ok in H as (account & Ha & H).
  cbn [snd]. apply Forall2_fmap_l. apply map_res_Forall2 in H. eapply Forall2_impl; [exact H|].
  intros [j e] c Hc%with_locator_Ok%normalize_entry_booked. by exists account.
Qed.
Definition message_of (root : Element) : res Element := _one root ["BkToCstmrStmt"]%string.
Lemma normalize_booked fromstring raw cs : normalize fromstring raw = Ok cs →
  ∃ root message, fromstring (payload raw) = Ok root ∧ message_of root = Ok message ∧
    Forall2 (entry_booked raw) (all_entries message) cs.
Proof.
  unfold normalize. intros H. apply bind_Ok in H as (root & Hroot & H). apply bind_Ok in H as (_ & _ & H).
  apply bind_Ok in H as (message & Hm & H). apply bind_Ok in H as (_ & _ & H). exists root, message.
  split_and!; [done..|]. eapply concat_res_Forall2; [|exact H]. apply normalize_statement_booked.
Qed.

(** ** Lemmas: the only exceptions are ValueErrors *)

Definition value_errors {A} (m : res A) : Prop := ∀ e, m = Raise e → ∃ why, e = ValueError why.
Lemma ve_ret {A} (a : A) : value_errors (Ok a).
Proof. by intros e. Qed.
Lemma ve_raise {A} why : value_errors (@Raise A (ValueError why)).
Proof. intros e [= <-]. by exists why. Qed.
Lemma ve_check b why : value_errors (check b (ValueError why)).
Proof. destruct b; [apply ve_ret|apply ve_raise]. Qed.
Lemma ve_bind {A B} (m : res A) (f : A → res B) :
  value_errors m → (∀ a, m = Ok a → value_errors (f a)) → value_errors (m ≫= f).
Proof. intros Hm Hf e H. destruct m as [a|e']; [by apply (Hf a)|]. cbn in H. injection H as <-. by apply Hm. Qed.
Lemma ve_map {A B} (f : A → res B) l : (∀ x, x ∈ l → value_errors (f x)) → value_errors (map_res f l).
Proof.
  induction l as [|x l IH]; intros H; [apply ve_ret|]. cbn [map_res].
  apply ve_bind; [apply H; left|]. intros y _. apply ve_bind; [apply IH; intros; apply H; by right|].
  intros ys _. apply ve_ret.
Qed.
Lemma ve_concat {A B} (f : A → res (list B)) l : (∀ x, x ∈ l → value_errors (f x)) → value_errors (concat_res f l).
Proof.
  intros H e E. unfold concat_res in E. destruct (map_res f l) as [zs|e'] eqn:Em; [done|].
  cbn in E. injection E as <-. by apply (ve_map f l H).
Qed.
Lemma ve_one node path : value_errors (_one node path).
Proof. unfold _one. destruct (_find node path) as [|? []]; [apply ve_raise|apply ve_ret|apply ve_raise]. Qed.
Lemma ve_text node path : value_errors (_text node path).
Proof. apply ve_bind; [apply ve_one|]. intros n _. apply ve_bind; [apply ve_check|]. intros _ _. apply ve_ret. Qed.
Lemma ve_date s : value_errors (fromisoformat s).
Proof. unfold fromisoformat. destruct (read_date s) as [[d []]|]; [apply ve_ret|apply ve_raise|apply ve_raise]. Qed.
Lemma ve_create raw loc ad nm acc am d cur rf : value_errors (create raw loc ad nm acc am d cur rf).
Proof.
  unfold create. apply ve_bind; [apply ve_check|]. intros _ _. apply ve_bind; [apply ve_check|]. intros _ _. apply ve_ret.
Qed.
Create HintDb value_errors.
#[local] Hint Resolve ve_ret ve_raise ve_check ve_one ve_text ve_date ve_create : value_errors.
Ltac value_errors := repeat (apply ve_bind; [auto with value_errors|intros ? ?]); auto with value_errors.

Lemma ve_entry raw account loc e : value_errors (normalize_entry raw account loc e).
Proof.
  unfold normalize_entry. do 4 (apply ve_bind; [auto with value_errors|intros ? ?]).
  apply ve_bind; [auto with value_errors|intros an Han]. cbn zeta.
  apply ve_bind; [auto with value_errors|intros ? Hu%check_Ok].
  apply unsigned_decimal_parses in Hu as (coef & exp & ->). cbn [get mbind res_bind]. value_errors.
Qed.
Lemma ve_locator {A} loc (m : res A) : value_errors m → value_errors (with_locator loc m).
Proof. intros Hm. destruct m as [a|e]; [apply ve_ret|]. destruct (Hm e eq_refl) as [why ->]. apply ve_raise. Qed.
Lemma ve_account s : value_errors (statement_account s).
Proof.
  unfold statement_account. value_errors. destruct (_ ++ _) as [|x [|? ?]]; value_errors.
Qed.
Lemma ve_statement raw s : value_errors (normalize_statement raw s).
Proof.
  destruct s as [i s]. unfold normalize_statement. apply ve_bind; [apply ve_account|]. intros account _.
  apply ve_map. intros e _. apply ve_locator, ve_entry.
Qed.
Lemma ve_normalize fromstring raw : value_errors (fromstring (payload raw)) → value_errors (normalize fromstring raw).
Proof.
  intros H. unfold normalize. apply ve_bind; [done|]. intros root _.
  do 3 (apply ve_bind; [auto with value_errors|intros ? _]). apply ve_concat. intros s _. apply ve_statement.
Qed.

(** Anything but a [ValueError] comes from the parser. *)
Lemma normalize_raises fromstring raw x : normalize fromstring raw = Raise x →
  (∃ why, x = ValueError why) ∨ fromstring (payload raw) = Raise x.
Proof.
  intros H. destruct (fromstring (payload raw)) as [root|x'] eqn:E.
  - left. assert (value_errors (normalize fromstring raw)) as Hv by (apply ve_normalize; rewrite E; apply ve_ret).
    by apply Hv.
  - right. unfold normalize in H. rewrite E in H. cbn in H. by injection H as ->.
Qed.
(** The exceptions that [ingest] turns into an [IngestionError]. *)
Definition caught (x : exn) : Prop := ∃ why, x = ValueError why ∨ x = ParseError why.

(** ** Lemmas: ingesting *)

Lemma capture_ok st p s now : store_ok st → valid_date (now / DAY_US) → s ≠ ""%string →
  let id := _hash (JArr [JStr s; JStr (Sha256.hexdigest p)]) in
  ∃ st1 e, capture st p s now = (st1, Ok e) ∧ store_ok st1 ∧ canonical_records st1 = canonical_records st ∧
    raw_event st1 id = Ok e ∧ e_raw_event_id e = id ∧
    (raw_events st !! id = None → e_source e = s ∧ payload e = p).
Proof.
  intros Hst Hnow Hs id. pose proof (apply_ok st (Capture p s now) Hst Hnow) as Hst1. cbn [apply] in Hst1.
  unfold capture, nonempty in *. rewrite bool_decide_false in * by done. cbn [negb fst] in *. fold id in Hst1 |- *.
  set (st1 := mkStore _ _ _) in *.
  destruct (raw_event_ok st1 id Hst1) as [e He]; [apply insert_or_ignore_get|].
  exists st1, e. rewrite He. split_and!; try done.
  - unfold raw_event in He. apply bind_Ok in He as (row & _ & He). apply bind_Ok in He as (_ & _ & He).
    by apply bind_Ok in He as (us & _ & [= <-]).
  - intros Hnew. unfold raw_event, st1 in He. cbn [raw_events] in He. unfold insert_or_ignore in He.
    rewrite Hnew, lookup_insert_eq in He. cbn [get mbind res_bind] in He.
    apply bind_Ok in He as (_ & _ & He). by apply bind_Ok in He as (us & _ & [= <-]).
Qed.
Lemma save_one_raise st c e ev : raw_event st (raw_event_id c) = Ok ev → _validate_canonical c = Ok tt →
  save_one st c = Raise e → e = ValueError "canonical identity collision".
Proof.
  intros Hev Hv. unfold save_one. rewrite Hev, Hv. cbn [mbind res_bind]. cbn zeta.
  destruct (insert_or_ignore_get (rid (record c)) (mkCanonicalRow (raw_event_id c) (_json (to_dict c)))
    (canonical_records st)) as [row ->]. cbn [get mbind res_bind]. unfold check.
  destruct (bool_decide _); [done|]. cbn [mbind res_bind]. by intros [= <-].
Qed.
Lemma saves_raise cs st e ev id : raw_event st id = Ok ev →
  (∀ c, c ∈ cs → raw_event_id c = id ∧ _validate_canonical c = Ok tt) →
  fold_res save_one cs st = Raise e → e = ValueError "canonical identity collision".
Proof.
  revert st. induction cs as [|c cs IH]; intros st Hev Hcs H; cbn [fold_res] in H; [done|].
  destruct (Hcs c ltac:(left)) as [E Hv]. destruct (save_one st c) as [st1|e'] eqn:E1.
  - cbn [mbind res_bind] in H. apply (IH st1); [|intros; apply Hcs; by right|done].
    eapply raw_event_mono; [by eapply save_one_sub|done].
  - cbn [mbind res_bind] in H. injection H as <-. by eapply save_one_raise; [rewrite E| |].
Qed.

(** ** Guarantees *)

(** C18: evidence first.  On any store that operations can reach, for a named source and
    a clock within years 1 to 9999: whatever the payload, and whatever the parser returns or raises
    on it, after [ingest] the raw event is stored and reads back.  When normalising fails
    with a [ValueError] or a parse error, the error that is raised names that event and no
    record is stored; another exception can only be the parser's own (such as the
    [LookupError] of an unknown encoding), and escapes as it is with no record stored.
    When normalising succeeds, there is exactly one record per entry of every statement,
    in order, each made from its entry, and every one of them reads back from the store;
    only a hash collision of identities can stop it in between. *)
Theorem ingest_evidence fromstring ops p s now st' out : Forall valid_op ops → valid_date (now / DAY_US) →
  s ≠ ""%string →
  let st := applies empty_store ops in
  ingest fromstring st p s now = (st', out) →
  let id := _hash (JArr [JStr s; JStr (Sha256.hexdigest p)]) in
  ∃ e, raw_event st' id = Ok e ∧ (raw_events st !! id = None → e_source e = s ∧ payload e = p) ∧
    match out with
    | inl (IngestionError id' why) => id' = id ∧ canonical_records st' = canonical_records st ∧
        (normalize fromstring e = Raise (ValueError why) ∨ fromstring (payload e) = Raise (ParseError why))
    | inl (Raised x) => canonical_records st' = canonical_records st ∧
        (x = ValueError "canonical identity collision" ∧ (∃ cs, normalize fromstring e = Ok cs) ∨
         fromstring (payload e) = Raise x ∧ ¬ caught x)
    | inr cs => normalize fromstring e = Ok cs ∧ ∃ root message, fromstring (payload e) = Ok root ∧ message_of root = Ok message ∧
        Forall2 (entry_booked e) (all_entries message) cs ∧
        ∀ c, c ∈ cs → canonical_record st' (rid (record c)) = Ok c
    end.
Proof.
  intros Hops Hnow Hs st H id. pose proof (applies_ok ops _ empty_ok Hops) as Hst. fold st in Hst.
  clearbody st. destruct (capture_ok st p s now Hst Hnow Hs) as (st1 & e & Ecap & Hst1 & Ecan & He & Hid & Hnew).
  fold id in He, Hid, Hnew. unfold ingest in H. rewrite Ecap in H. exists e.
  destruct (normalize fromstring e) as [cs|x] eqn:En.
  - pose proof (normalize_booked _ _ _ En) as (root & message & Hroot & Hm & Hcs).
    assert (∀ c, c ∈ cs → raw_event_id c = id ∧ _validate_canonical c = Ok tt ∧ valid_date (value_date (record c)))
      as Hall.
    { intros c (i & Hi)%list_elem_of_lookup. destruct (Forall2_lookup_r _ _ _ _ _ Hcs Hi) as (x & _ & acc & _ & Hb).
      destruct Hb as (_ & Hraw & _ & _ & _ & _ & _ & Hv & Hd & _). by rewrite Hraw, Hid. }
    unfold save_records in H. destruct (fold_res save_one cs st1) as [st2|x] eqn:Es; injection H as <- <-.
    + pose proof (saves_sub _ _ _ Es) as Hsub. split; [by eapply raw_event_mono|]. split; [done|].
      split; [done|]. exists root, message. split_and!; [done..|]. intros c Hc.
      eapply saved_read; [exact Hst1| |exact Es|exact Hc].
      intros x Hx. by apply Hall.
    + split; [done|]. split; [done|]. split; [done|]. left. split; [|by eauto].
      eapply saves_raise; [exact He| |exact Es]. intros c Hc. by destruct (Hall c Hc) as (? & ? & _).
  - destruct (normalize_raises _ _ _ En) as [[why ->]|Hp].
    + injection H as <- <-. split_and!; auto.
    + destruct x as [why| | | | | | |why|why| | | | |]; injection H as <- <-; split_and!; auto;
        right; (split; [exact Hp|]); intros (? & [E|E]); discriminate E.
Qed.

(** ** A concrete statement, for the witness *)

Definition leaf (name txt : string) : Element := El (qualified name) [] (Some txt) [].
Definition node (name : string) (cs : list Element) : Element := El (qualified name) [] None cs.
Definition ex_entry (amt status : string) : Element :=
  node "Ntry" [node "Sts" [leaf "Cd" status]; leaf "CdtDbtInd" "DBIT";
    El (qualified "Amt") [("Ccy", "EUR")]%string (Some amt) []; node "ValDt" [leaf "Dt" "2021-07-29"]].
Definition ex_document (status : string) : Element :=
  node "Document" [node "BkToCstmrStmt" [node "Stmt" [leaf "Id" "S1"; node "Acct" [node "Id" [leaf "IBAN" " DE1 "]];
    ex_entry " 12.50 " "BOOK"; ex_entry "3" status]]].
(** A parser of two payloads and of one with an unknown encoding; anything else is
    malformed. *)
Definition ex_fromstring (x : string) : res Element :=
  if bool_decide (x = "good"%string) then Ok (ex_document "BOOK")
  else if bool_decide (x = "pending"%string) then Ok (ex_document "PDNG")
  else if bool_decide (x = "encoding"%string) then Raise (LookupError "unknown encoding")
  else Raise (ParseError "not well-formed").

Example ex_ingest :
  match (ingest ex_fromstring empty_store "good" "bank" ex_now).2 with
  | inr cs => (λ c, (str_decimal (amount (record c)), Models.account (record c), source_locator c)) <$> cs
  | inl _ => []
  end = [("-12.50", "DE1", "/Document/BkToCstmrStmt/Stmt[1]/Ntry[1]");
         ("-3", "DE1", "/Document/BkToCstmrStmt/Stmt[1]/Ntry[2]")]%string.
Proof. vm_compute. reflexivity. Qed.
(** One entry that is not booked refuses the whole payload, which stays as evidence. *)
Lemma ex_pending : ∃ st id, ingest ex_fromstring empty_store "pending" "bank" ex_now =
  (st, inl (IngestionError id "/Document/BkToCstmrStmt/Stmt[1]/Ntry[2]: only BOOK entries are supported")).
Proof. eexists _, _. vm_compute. reflexivity. Qed.
(** The exception of an unknown encoding names no event, and the evidence is there. *)
Example ex_encoding :
  let '(st, out) := ingest ex_fromstring empty_store "encoding" "bank" ex_now in
  out = inl (Raised (LookupError "unknown encoding")) ∧ size (raw_events st) = 1%nat ∧
  (ingest ex_fromstring empty_store "<" "bank" ex_now).2 =
    inl (IngestionError (_hash (JArr [JStr "bank"; JStr (Sha256.hexdigest "<")])) "not well-formed").
Proof. vm_compute. split_and!; reflexivity. Qed.
Lemma ingest_evidence_witness : ∃ st id why,
  ingest ex_fromstring empty_store "pending" "bank" ex_now = (st, inl (IngestionError id why)) ∧
  ∃ e, raw_event st id = Ok e ∧ canonical_records st = ∅ ∧
    (normalize ex_fromstring e = Raise (ValueError why) ∨ ex_fromstring (payload e) = Raise (ParseError why)).
Proof.
  destruct ex_pending as (st & id & E). exists st, id. eexists. split; [exact E|].
  destruct (ingest_evidence ex_fromstring [] "pending" "bank" ex_now st _ (List.Forall_nil _)
    ltac:(split; vm_compute; discriminate) ltac:(discriminate) E)
    as (e & He & _ & Hid & Hc & Hn).
  exists e. rewrite Hid. split; [exact He|]. split; [exact Hc|exact Hn].
Defined.
